(* ===== verification/_CoqProject ===== *)
-Q . S2P
Prelude.v
External.v
Credential.v
Endpoint.v
Enrollment.v
EnrollmentStore.v
EnrollmentSafety.v
Inventory.v
TrustedBootstrap.v
TrustedBootstrapSafety.v
Job.v
Transfer.v
Runtime.v
JobStore.v
JobSpec.v
JobServices.v
JobSafety.v
JobTheorems.v
JobExamples.v
TransferAuth.v
TransferAuthSafety.v
TransferAuthExamples.v
TransferStore.v
TransferEvidence.v
TransferSpec.v
TransferSafety.v
TransferTheorems.v
TransferExamples.v
WorkerProtocol.v
WorkerFraming.v
WorkerOperations.v
WorkerControl.v
WorkerSafety.v
WorkerTheorems.v
WorkerReplies.v
WorkerResume.v
WorkerExamples.v
ServerHistory.v
ServerRecords.v
FileSystem.v
StorageLogic.v
WorkerStorage.v
StoragePrograms.v
StorageExact.v
StorageSystem.v
StorageTheorems.v
StorageStartup.v
StorageExamples.v
WorkerClient.v
WorkerHttp.v
WorkerClientSafety.v
WorkerSystem.v
WorkerSystemSafety.v
WorkerSystemTheorems.v
WorkerSystemExamples.v
EndToEnd.v
EndToEndExamples.v
AgentProtocol.v
OutboundSessions.v
AgentGateway.v
AgentSystem.v
AgentLogic.v
AgentFrames.v
AgentRegistration.v
AgentSafety.v
AgentTheorems.v
AgentRefinement.v
AgentExamples.v
