(* ===== verification/Prelude.v ===== *)
(** * Bamep: a verification library

    Bamep is a server, [bamepd], that enrolls network-booted Endpoints, drives Jobs on
    them through a persistent session with an Agent, and receives captured disks through
    a data-plane Worker. Its core is written in three layers: pure decisions
    ([crates/domain]), transactions that lock rows, call a decision and persist its result
    ([crates/server/src/adapters/postgres]), and services that compose the two with
    in-memory registries ([crates/server/src/application/mod.rs],
    [crates/server/src/runtime]). Above them the Worker control plane serves the data-plane
    Worker over a local socket ([crates/worker-protocol],
    [crates/server/src/adapters/worker_control_plane.rs]), and the Agent gateway serves the
    Agents over WebSockets ([crates/agent-protocol],
    [crates/server/src/adapters/agent_gateway.rs]). The Worker ([crates/worker]) stages and
    finalizes chunks on its disk, asks the server to accept them and answers the Agents that
    upload. This library models these layers, the Worker and both protocols, and proves the
    properties that make enrollment, Jobs, transfers, Agent sessions and the Worker correct,
    each by itself and server and Worker together.

    ** The files, and what they model

    - [Prelude] (this file): Rust's [Result], a generator monad for the random draws,
      fixed-length byte arrays, big-endian integers, time, and the lemmas, tactics and
      hints the other files share.
    - [External]: the crates [base64], [sha2], [ed25519-dalek], the UUID generator and the
      timestamp column of PostgreSQL, as classes of operations and classes of laws;
      [External.Reference] gives concrete instances of all of them.
    - [Credential]: [presented_credential.rs], [credential.rs].
    - [Endpoint]: [identity.rs], [hardware_confidence.rs], [current_boot.rs],
      [endpoint.rs], [events.rs], [inventory.rs].
    - [Enrollment]: [boot_context.rs], [transitions.rs].
    - [EnrollmentStore]: the tables of enrollment, [shared.rs],
      [credential_redemption_repository.rs], [repository.rs],
      [boot_context_repository.rs], [EnrollmentService], [BootOrchestrationService].
    - [EnrollmentSafety]: the properties of whole runs of these services.
    - [Inventory]: [inventory_repository.rs] and [InventoryService], with their properties.
    - [TrustedBootstrap]: [crates/trusted-bootstrap], [BootstrapEvidenceService] and the
      verification on the Agent's side; [TrustedBootstrapSafety]: its properties.
    - [Job]: [job.rs], [attempt.rs], [final_dispatch.rs], [action_evidence.rs],
      [cancellation.rs], [reconciliation.rs].
    - [Transfer]: [artifact.rs], [chunk_manifest.rs], [transfer.rs],
      [transfer_dispatch.rs], with the properties of chunk manifests.
    - [Runtime]: [resource_arbiter.rs], [reservation_registry.rs], [presence.rs], with
      their properties.
    - [JobStore]: the Job tables and the methods of [job_repository.rs].
    - [JobSpec]: the abstract workflow protocol, a small-step relation on the tables
      [jobs], [job_steps] and [attempts], and its invariants.
    - [JobServices]: the services that create, schedule, dispatch, cancel and reconcile
      Jobs, over the database, the arbiter, the reservation registry and presence.
    - [JobSafety]: the services implement the protocol of [JobSpec].
    - [JobTheorems]: the properties of Jobs; [JobExamples]: a concrete workflow.
    - [TransferAuth]: [transfer_authorization.rs], [replay_cache.rs],
      [capability_store.rs], [TransferAuthorizationService].
    - [TransferAuthSafety], [TransferAuthExamples]: its properties and a concrete run.
    - [TransferStore]: the tables [transfers], [artifacts], [chunk_manifests] and
      [chunk_identities], [transfer_repository.rs], [authorization_repository.rs] and the
      services over them ([TransferService], [ChunkAcceptanceService],
      [ManifestSealService], [ArtifactVerificationService]).
    - [TransferEvidence]: [TransferTerminalEvidenceService] and its commit in
      [job_repository.rs], and the runs of all these operations.
    - [TransferSpec]: the abstract life of one upload; [TransferSafety]: the services
      implement it; [TransferTheorems]: the properties of stored transfers;
      [TransferExamples]: a concrete upload.
    - [WorkerProtocol]: [crates/worker-protocol]'s [envelope.rs], [messages.rs];
      [WorkerFraming]: [framing.rs], [codec.rs], with the properties of streams.
    - [WorkerOperations]: [worker_authority.rs], [transient_worker_operations.rs].
    - [WorkerControl]: [worker_control_plane.rs], its handlers as programs over calls and
      its connections as tasks that interleave.
    - [WorkerSafety]: the runs as a transition relation, and how a property of one task is
      carried through every interleaving; [WorkerTheorems]: handles, authority, bounds;
      [WorkerReplies]: what the server answers; [WorkerResume]: paginated resume discovery;
      [WorkerExamples]: concrete connections.
    - [FileSystem]: the calls of [std::fs] and [rustix::fs] the Worker makes, with what is
      durable, and programs over them. [WorkerStorage]: [crates/worker/src/storage] and the
      staging thread of [data_plane/upload.rs] as such programs.
    - [StorageLogic]: a program logic of who owns which staging file; [StoragePrograms]: the
      programs follow it; [StorageSystem]: threads, restarts and losses of power as steps;
      [StorageTheorems]: the properties of runs; [StorageExact]: what uploads and
      reconstructions compute; [StorageStartup]: roots, staging names and cleanup;
      [StorageExamples]: a concrete store.
    - [WorkerClient]: [ipc/authority.rs], [ipc/control.rs]; [WorkerHttp]:
      [data_plane/http.rs]; [WorkerSystem]: handlers, client and storage of one Worker.
    - [WorkerClientSafety]: the properties of the client; [WorkerSystemSafety]: a program
      logic of what a handler knows; [WorkerSystemTheorems]: what a Worker says is true;
      [WorkerSystemExamples]: a concrete Worker.
    - [ServerHistory], [ServerRecords]: what the requests a server received and the answers
      it gave say about its tables. [EndToEnd]: a run of the server and a run of the Worker
      joined; [EndToEndExamples]: a whole upload through both.
    - [AgentProtocol]: [crates/agent-protocol/src]; [OutboundSessions]:
      [outbound_sessions.rs]; [AgentGateway]: [agent_gateway.rs] and the sending halves of
      the dispatch services, as programs over calls; [AgentSystem]: all sessions and senders
      as interleaved tasks.
    - [AgentLogic]: which calls a task of the gateway makes, after which; [AgentFrames],
      [AgentRegistration]: who owns the registrations of a session; [AgentSafety]: the
      invariant of runs; [AgentTheorems], [AgentRefinement]: the properties;
      [AgentExamples]: a concrete day of an Agent.

    ** How code becomes definitions

    A pure function is a function of the same name (a method carries its type as a
    prefix, a service method the prefix [service_], a repository method [repo_]). An enum
    is an inductive type [t] in a module of its name. A table is a finite map with the
    uniqueness and check constraints the statements rely on; a statement that violates one
    makes its transaction fail and leave the tables unchanged. Every mutating repository
    method locks the rows it decides on, so one transaction is one step and a run of the
    server is a sequence of steps. The exception, [request_cancellation], also scans
    without a lock: each of its scans reads an arbitrary earlier state, which is an argument
    of the model. A call on a registry runs under its mutex and is one step. The clock, the
    success of a send, the answer of the target-revalidation port and the durable snapshot
    of an authorization request are arguments of each call. Random values are drawn from a
    source indexed by a counter that the generator monad threads; that the draws of a run
    are distinct is a hypothesis where it matters ([fresh_draws], [fresh_ids]).

    A handler of the Worker control plane is a [proc]: a tree of calls (a service call, an
    operation of the connection's store, a message received or sent). One call is one step;
    between two calls of a handler any steps of other connections and of the server may
    lie, a task may be dropped where it waits, and the process may restart. The tasks of the
    Agent gateway, the Worker's request handlers and its storage threads are programs of the
    same kind, over calls of their own. A file-system call is atomic, may fail or transfer
    less than asked, and its effect is durable only once synced; inner components of a path
    are directories or the call fails, and file modes are not kept. A WebSocket is the
    environment of the gateway: it gives frames, and says whether a send succeeded. A channel
    of a session is a bounded queue; a command taken from it is acknowledged by the task that
    wrote it. The Worker's two socket tasks are the events of its client. That a Worker
    connection begins, and ends, is one step of the client.

    The end-to-end theorems join the two processes by a transport that delivers to one side
    only what the other sent on that connection, and assume that the identities drawn in the
    run are distinct.

    Integers that matter at their width keep it: the arbiter's quantities and identities
    are [u64] with checked addition, step numbers are [i32] with the cast written out,
    chunk indices and counts go through [u32] and [i32] casts as the columns do, connection
    generations are a wrapping [u64], frame prefixes are four big-endian bytes,
    the transcript's integers are big-endian at their width, instants are nanoseconds and
    compared as the code compares them.

    ** What is proved

    - Credentials: exactness of the wire format and of authentication, retirement by
      rotation, finality of revocation, recovery by the credential just issued.
    - Enrollment, over all runs from an empty database: the tables stay well formed, an
      Endpoint is never lost and changes identity state only by approval, trust comes only
      from evidence for the current boot, a boot context is used once, redemption accepts
      only authentic credentials and does accept live ones.
    - Jobs, over all histories of all service calls: refinement of the protocol, its
      invariants, finality of finished Jobs, exactness of the destructive gate, the two
      origins of an Attempt, race freedom and progress of cancellation, idempotence of
      evidence, rejection of foreign evidence, the round trip of creation.
    - Runtime registries: exact books of the arbiter, exact give-back, presence as a set
      of live sessions.
    - Chunk manifests: exactness of sealing, manifests only grow.
    - Transfer authorization: canonical wire fields, an injective 137-byte transcript, an
      approval implies a grant and a current state, no proof is accepted twice.
    - Stored transfers, over all histories of all operations: refinement of the upload
      protocol, stored manifests are well formed and only grow, a chunk is committed once,
      sealing is atomic, an Artifact is verified only by a matching digest, a transfer's
      Attempt and Artifact end together.
    - The Worker control plane, over all interleavings: the durable state is one the
      data-plane operations reach, a handle is spent once and only by the connection that
      was granted it, only the latest connection acts, stores stay bounded and no handler
      panics, every answer is legal and answers its request, the pages of a resume query
      are the authorized list, and messages survive the stream.
    - Inventory and trusted bootstrap: a report is recorded exactly when it differs from the
      current one, the history is append-only; a boot is trusted only by a site key's
      signature over its nonce and the certificate of the connection, and such evidence for
      the current boot is accepted.
    - The Worker's storage, over all interleavings, failing calls, restarts and losses of
      power: a finalized file is complete, synced, declared by an upload for that place, and
      never changes; uploads and reconstructions compute exactly their reference
      definitions; every thread finishes; startup removes staging files and nothing else.
    - The Worker as a whole: replies go to the requests they answer, every waiter is answered
      once, requests for acceptance and reported digests are true of the disk, and HTTP
      answers say what happened.
    - Server and Worker together: each chunk in the database is a complete file on the
      Worker's disk, and a [Verified] Artifact is there as a whole and hashes to its seal.
    - The Agent gateway, over all interleavings of handshakes, sessions, senders, aborts and
      restarts: a present Endpoint has a session that can be sent to, a session acts only for
      the Endpoint whose credential it redeemed, a command reaches only that Endpoint,
      actions are rebound only on applied evidence, an ended session has left every
      registration, the durable state is one the services reach by themselves, and nothing is
      told about the actions of other Endpoints.
    - Departures from what comments or documentation say: an acknowledgement of an ended action
      closes a Job that still has an Attempt in flight; a used proof is accepted again in
      the millisecond after its deadline; and after the clock was set back; the request loop
      goes on after an unexpected message, and never checks the envelope of a request; an
      upload that finds its chunk already present is answered without the sync that makes it
      durable; the action of a session that panicked is not recovered by the next session.

    ** Bounds

    The retry loop of [request_cancellation] is a fixpoint on the remaining passes:
    [MAX_PASSES] is 8 and, because the counter is decremented before it is tested, at most 7
    passes run; [cancellation_resolves] shows that one undisturbed pass is enough. The
    arbiter's theorems assume fewer than 2^64 - 1 calls, so that its identity counter has
    not wrapped; [only_latest_connection_acts] assumes the same of the steps of a run, for
    the counter of generations. The loop that scans a stored file carries fuel, one unit per
    read, and running out of it is the outcome [Spin]. The theorems about
    storage ask for more fuel than the chunk size limit ([limit], below 2^32): a finalized
    file is no longer than that and every read but the last returns at least one byte, so
    [storage_tasks_finish] holds, which excludes running out. The loop over a chunk in a
    reconstruction computes its own fuel from the chunk size. The message loop of a session,
    the request loop of a connection and the driver of the client are not bounded: they are
    programs re-entered step by step, or transition relations.

    ** What is not modelled

    Of the Worker control plane the socket file, its permissions and the accept loop; of the
    Worker its configuration, TLS, routing and timing, and the batch finalization that only
    the environment variable of an experiment turns on; of the server its configuration,
    supervision of the Worker process, lock files and the wiring of [main]. These are input
    and output around the parts that are modelled. The simulator (a test double of the
    Agent), the virtual-environment tooling and the probes under [integration/physical] are
    programs of their own for tests and measurements. Failures of the connection to the
    database, log lines and redacted [Debug] texts are left out. [serde_json], the hash, the
    signature scheme, base64, UUID parsing and the UUID generator are parameters with their
    documented laws as hypotheses, for which [External.Reference] and the examples give
    concrete instances. *)

From stdpp Require Import prelude gmap strings sorting.
From Stdlib Require Import Strings.Byte NArith ZArith.

(** ** Notations and scope *)

Declare Scope bamep_scope.
Delimit Scope bamep_scope with bamep.
#[global] Open Scope bamep_scope.

(** ** Rust's [Result] *)

(** [Result<A, E>], with the error type first so that [result E] is a monad. *)
Inductive result (E A : Type) : Type :=
| Ok (a : A)
| Err (e : E).
Arguments Ok {E A} a.
Arguments Err {E A} e.

#[global] Instance result_eq_dec `{EqDecision E, EqDecision A} : EqDecision (result E A).
Proof. solve_decision. Defined.

#[global] Instance result_ret {E} : MRet (result E) := λ A a, Ok a.
#[global] Instance result_bind {E} : MBind (result E) :=
  λ A B f r, match r with Ok a => f a | Err e => Err e end.

(** [Option::ok_or] and [Result::map_err]. *)
Definition ok_or {E A} (e : E) (o : option A) : result E A :=
  match o with Some a => Ok a | None => Err e end.

Definition map_err {E F A} (f : E → F) (r : result E A) : result F A :=
  match r with Ok a => Ok a | Err e => Err (f e) end.

Definition is_ok {E A} (r : result E A) : bool :=
  match r with Ok _ => true | Err _ => false end.

Lemma result_bind_Ok {E A B} (r : result E A) (f : A → result E B) (b : B) :
  (r ≫= f) = Ok b ↔ ∃ a, r = Ok a ∧ f a = Ok b.
Proof.
  destruct r; simpl; split; [by eauto|by intros (? & [= ->] & ?)|done|by intros (? & ? & ?)].
Qed.

Lemma ok_or_Ok {E A} (e : E) (o : option A) (a : A) : ok_or e o = Ok a ↔ o = Some a.
Proof. destruct o; naive_solver. Qed.

(** ** Bytes, byte strings and fixed-size arrays *)

Abbreviation byte := Byte.byte.
Abbreviation str := (list byte).

#[global] Instance byte_eq_dec : EqDecision byte := Byte.byte_eq_dec.

#[global] Program Instance byte_countable : Countable byte :=
  inj_countable Byte.to_N Byte.of_N _.
Next Obligation. intros b. apply Byte.of_to_N. Qed.

(** A string literal of the source, as its UTF-8 bytes. *)
Definition lit (s : String.string) : str := String.list_byte_of_string s.
Arguments lit s%_string_scope.

(** [n as u8]. *)
Definition byte_of_N (n : N) : byte := default x00 (Byte.of_N (n mod 256)).

Lemma to_N_byte_of_N n : Byte.to_N (byte_of_N n) = (n mod 256)%N.
Proof.
  unfold byte_of_N. destruct (Byte.of_N (n mod 256)) as [b|] eqn:Hb; simpl.
  - by apply Byte.to_of_N.
  - apply Byte.of_N_None_iff in Hb.
    pose proof (N.mod_lt n 256 ltac:(done)). lia.
Qed.

Lemma byte_of_N_to_N b : byte_of_N (Byte.to_N b) = b.
Proof.
  unfold byte_of_N. pose proof (Byte.to_N_bounded b) as Hb.
  rewrite N.mod_small by lia. by rewrite Byte.of_to_N.
Qed.

Lemma to_N_inj b c : Byte.to_N b = Byte.to_N c → b = c.
Proof. intros H. rewrite <-(byte_of_N_to_N b), <-(byte_of_N_to_N c). by rewrite H. Qed.

(** [to_be_bytes] of an unsigned integer of [n] bytes, and [from_be_bytes]. *)
Fixpoint be_bytes (n : nat) (v : N) : list byte :=
  match n with
  | O => []
  | S n' => be_bytes n' (v / 256) ++ [byte_of_N v]
  end.

Definition from_be (l : list byte) : N :=
  foldl (λ acc b, acc * 256 + Byte.to_N b)%N 0%N l.

Lemma length_be_bytes n v : length (be_bytes n v) = n.
Proof. revert v; induction n; intros; simpl; [done|]. rewrite length_app, IHn. simpl. lia. Qed.

Lemma from_be_snoc l b : from_be (l ++ [b]) = (from_be l * 256 + Byte.to_N b)%N.
Proof. unfold from_be. by rewrite foldl_app. Qed.

Lemma from_be_bytes n v : from_be (be_bytes n v) = (v mod 256 ^ N.of_nat n)%N.
Proof.
  revert v; induction n as [|n IH]; intros v.
  - change (0 = v mod 1)%N. by rewrite N.mod_1_r.
  - cbn [be_bytes]. rewrite from_be_snoc, IH, to_N_byte_of_N.
    rewrite Nat2N.inj_succ, N.pow_succ_r'.
    rewrite N.Div0.mod_mul_r. lia.
Qed.

Lemma from_be_bytes_small n v : (v < 256 ^ N.of_nat n)%N → from_be (be_bytes n v) = v.
Proof. intros. rewrite from_be_bytes. by apply N.mod_small. Qed.

Lemma be_bytes_from_be l : be_bytes (length l) (from_be l) = l.
Proof.
  induction l as [|b l IH] using rev_ind; [done|].
  rewrite length_app, Nat.add_comm. cbn [length be_bytes Nat.add].
  rewrite from_be_snoc.
  replace ((from_be l * 256 + Byte.to_N b) / 256)%N with (from_be l).
  - rewrite IH. f_equal. f_equal. apply to_N_inj. rewrite to_N_byte_of_N.
    rewrite N.add_comm, N.Div0.mod_add. apply N.mod_small.
    pose proof (Byte.to_N_bounded b). lia.
  - pose proof (Byte.to_N_bounded b).
    apply N.div_unique with (Byte.to_N b); lia.
Qed.

Lemma from_be_bound l : (from_be l < 256 ^ N.of_nat (length l))%N.
Proof.
  rewrite <-(be_bytes_from_be l) at 1. rewrite from_be_bytes.
  apply N.mod_lt. apply N.pow_nonzero. lia.
Qed.

Lemma be_bytes_inj n v w :
  (v < 256 ^ N.of_nat n)%N → (w < 256 ^ N.of_nat n)%N → be_bytes n v = be_bytes n w → v = w.
Proof.
  intros Hv Hw H. apply (f_equal from_be) in H.
  by rewrite !from_be_bytes_small in H.
Qed.

(** [[u8; n]]: byte lists of a fixed length, with proof-irrelevant equality. *)
Definition array (n : nat) : Type := dsig (λ l : list byte, length l = n).

#[global] Instance array_eq_dec n : EqDecision (array n) := _.
#[global] Instance array_countable n : Countable (array n) := _.

Definition array_bytes {n} (a : array n) : list byte := `a.

(** [Vec<u8>::try_into::<[u8; n]>()]. *)
Definition try_into (n : nat) (l : list byte) : option (array n) :=
  match decide (length l = n) with
  | left H => Some (dexist l H)
  | right _ => None
  end.

(** The big-endian array holding [v]; used for literals. *)
Definition be_array (n : nat) (v : N) : array n := dexist (be_bytes n v) (length_be_bytes n v).

(** [let mut a = [0u8; n]; a.copy_from_slice(l)]. The source panics unless
    [l] has [n] bytes; every use has. *)
Definition pad_to (n : nat) (l : list byte) : list byte := take n (l ++ replicate n x00).

Lemma length_pad_to n l : length (pad_to n l) = n.
Proof. unfold pad_to. rewrite length_take, length_app, length_replicate. lia. Qed.

Definition array_copy (n : nat) (l : list byte) : array n := dexist (pad_to n l) (length_pad_to n l).

Lemma array_copy_bytes n l : length l = n → array_bytes (array_copy n l) = l.
Proof. intros <-. unfold array_copy, array_bytes, pad_to. simpl. by rewrite take_app_length. Qed.

Lemma length_array {n} (a : array n) : length (array_bytes a) = n.
Proof. exact (proj2_dsig a). Qed.

Lemma array_eq {n} (a b : array n) : array_bytes a = array_bytes b → a = b.
Proof. apply dsig_eq. Qed.

Lemma array_copy_array {n} (a : array n) : array_copy n (array_bytes a) = a.
Proof. apply array_eq, array_copy_bytes, length_array. Qed.

Lemma try_into_bytes {n} (a : array n) : try_into n (array_bytes a) = Some a.
Proof.
  unfold try_into. case_decide as H; [|by pose proof (length_array a)].
  f_equal. by apply array_eq.
Qed.

Lemma try_into_Some {n} l (a : array n) : try_into n l = Some a ↔ array_bytes a = l.
Proof.
  split.
  - unfold try_into. by case_decide; intros; simplify_eq/=.
  - intros <-. apply try_into_bytes.
Qed.

Lemma try_into_is_Some n l : is_Some (try_into n l) ↔ length l = n.
Proof. unfold try_into. case_decide; split; intros H'; [done|by eauto|by destruct H'|done]. Qed.

(** [buf[off..off + src.len()].copy_from_slice(src)] on a buffer that is long
    enough (the source's slices panic otherwise; every use is in range). *)
Definition copy_from_slice (buf : list byte) (off : nat) (src : list byte) : list byte :=
  take off buf ++ src ++ drop (off + length src) buf.

Lemma length_copy_from_slice buf off src :
  off + length src ≤ length buf → length (copy_from_slice buf off src) = length buf.
Proof. intros. unfold copy_from_slice. rewrite !length_app, length_take, length_drop. lia. Qed.

(** Writing at the end of the part already written, as the encoders do. *)
Lemma copy_from_slice_snoc done rest src :
  length src ≤ length rest →
  copy_from_slice (done ++ rest) (length done) src = (done ++ src) ++ drop (length src) rest.
Proof.
  intros. unfold copy_from_slice. rewrite take_app_length, <-app_assoc. do 2 f_equal.
  by rewrite drop_app_add'.
Qed.

(** [str::split(sep)] for an ASCII separator. *)
Fixpoint split_on (sep : byte) (s : str) : list str :=
  match s with
  | [] => [[]]
  | b :: s' =>
      if decide (b = sep) then [] :: split_on sep s'
      else match split_on sep s' with
           | [] => [[b]]
           | seg :: segs => (b :: seg) :: segs
           end
  end.

Lemma split_on_notin sep s : sep ∉ s → split_on sep s = [s].
Proof.
  induction s as [|b s IH]; intros Hs; simpl; [done|].
  rewrite not_elem_of_cons in Hs. destruct Hs as [Hb Hs].
  rewrite decide_False by done. by rewrite IH.
Qed.

Lemma split_on_app sep s t : sep ∉ s → split_on sep (s ++ sep :: t) = s :: split_on sep t.
Proof.
  induction s as [|b s IH]; intros Hs; simpl.
  - by rewrite decide_True.
  - rewrite not_elem_of_cons in Hs. destruct Hs as [Hb Hs].
    rewrite decide_False by done. by rewrite IH.
Qed.

(** Joining back with the separator: [split_on] loses nothing. *)
Fixpoint join_with (sep : byte) (segs : list str) : str :=
  match segs with
  | [] => []
  | [s] => s
  | s :: segs' => s ++ sep :: join_with sep segs'
  end.

Lemma split_on_ne sep s : split_on sep s ≠ [].
Proof. destruct s; simpl; [done|]. repeat case_match; done. Qed.

Lemma join_split sep s : join_with sep (split_on sep s) = s.
Proof.
  induction s as [|b s IH]; [done|]. simpl. pose proof (split_on_ne sep s).
  case_decide; subst.
  - destruct (split_on sep s) as [|seg segs]; [done|]. simpl in *. by rewrite IH.
  - destruct (split_on sep s) as [|seg [|seg' segs]]; [done|..]; simpl in *; by rewrite IH.
Qed.

(** ** Time

    [DateTime<Utc>] is a point of an integer time line, in nanoseconds since the
    Unix epoch, and [Duration] a difference of two such points. The calendar's
    two ends (where [chrono]'s addition panics) are not represented. *)
Abbreviation Instant := Z.
Abbreviation Duration := Z.

Definition nanos_per_milli : Z := 1000000.

(** [DateTime::timestamp_millis]: whole milliseconds, rounded down. *)
Definition timestamp_millis (t : Instant) : Z := (t / nanos_per_milli)%Z.

(** [DateTime::from_timestamp_millis], for the values it represents. *)
Definition from_timestamp_millis (ms : Z) : Instant := (ms * nanos_per_milli)%Z.

Lemma timestamp_millis_le t ms :
  (t ≤ from_timestamp_millis ms → timestamp_millis t ≤ ms)%Z.
Proof.
  unfold timestamp_millis, from_timestamp_millis, nanos_per_milli. intros H.
  apply Z.div_le_upper_bound; lia.
Qed.

(** A clock reading with no sub-millisecond part. *)
Definition whole_millis (t : Instant) : Prop := (t mod nanos_per_milli = 0)%Z.

Lemma timestamp_millis_le_iff t ms :
  whole_millis t → (timestamp_millis t ≤ ms ↔ t ≤ from_timestamp_millis ms)%Z.
Proof.
  unfold whole_millis, timestamp_millis, from_timestamp_millis, nanos_per_milli. intros H.
  pose proof (Z.div_mod t 1000000 ltac:(lia)). lia.
Qed.

(** ** Randomness

    [Uuid::new_v4()] and the operating-system generator are code the sources
    only call. A run of the program sees a sequence of draws; [Entropy] is that
    sequence, and [Gen] threads the position in it. *)
Abbreviation Uuid := (array 16).

Class Entropy : Type := {
  draw_uuid : nat → Uuid;
  draw_bytes : nat → ∀ n : nat, array n;
}.

Definition Gen (A : Type) : Type := nat → A * nat.

#[global] Instance gen_ret : MRet Gen := λ A a k, (a, k).
#[global] Instance gen_bind : MBind Gen := λ A B f c k, let '(a, k') := c k in f a k'.

Definition new_v4 `{Entropy} : Gen Uuid := λ k, (draw_uuid k, S k).
Definition fill_bytes `{Entropy} (n : nat) : Gen (array n) := λ k, (draw_bytes k n, S k).

(** The draws [k], ..., [k + n - 1] are pairwise distinct: what "fresh UUID v4"
    means for the part of a run that makes [n] draws. *)
Definition fresh_draws `{Entropy} (k n : nat) : Prop := NoDup (draw_uuid <$> seq k n).
#[global] Instance fresh_draws_dec `{Entropy} k n : Decision (fresh_draws k n) := NoDup_dec _.

Lemma fresh_draws_inj `{Entropy} n j j' :
  fresh_draws 0 n → j < n → j' < n → draw_uuid j = draw_uuid j' → j = j'.
Proof.
  unfold fresh_draws. intros Hnd Hj Hj' He.
  eapply (proj1 (NoDup_alt _) Hnd); rewrite list_lookup_fmap, lookup_seq_lt by done; simpl;
    [done|by f_equal].
Qed.

Lemma fresh_draws_mono `{Entropy} m n : m ≤ n → fresh_draws 0 n → fresh_draws 0 m.
Proof.
  intros Hmn. unfold fresh_draws. replace n with (m + (n - m)) by lia.
  rewrite seq_app, fmap_app. by intros (? & _ & _)%NoDup_app.
Qed.

(** ** Automation *)

Create HintDb bamep.

(** Lengths of byte strings. *)
#[export] Hint Rewrite @length_app @length_array length_be_bytes length_pad_to
  length_copy_from_slice @length_replicate : bamep.

(** Case-split every [match]/[if] of the goal and the hypotheses, closing the
    branches whose equations clash. *)
Ltac split_matches := repeat (case_match; simplify_eq/=; try done).

(** A decidable fact about a concrete run, by evaluating its decision. *)
Ltac by_evaluation :=
  match goal with |- ?P => apply (bool_decide_eq_true_1 P) end; vm_compute; reflexivity.

(** Run the draws of a [Gen] computation. *)
Ltac run_gen := unfold mbind, gen_bind, mret, gen_ret, new_v4, fill_bytes.

(** Boolean tests of the source as propositions. *)
Ltac reflect_bools :=
  repeat match goal with
  | H : bool_decide _ = true |- _ => apply bool_decide_eq_true_1 in H
  | H : bool_decide _ = false |- _ => apply bool_decide_eq_false_1 in H
  | H : negb _ = true |- _ => apply negb_true_iff in H
  | H : negb _ = false |- _ => apply negb_false_iff in H
  | H : _ && _ = true |- _ => apply andb_prop in H as [? ?]
  | H : _ || _ = false |- _ => apply orb_false_elim in H as [? ?]
  | H : Z.ltb _ _ = true |- _ => apply Z.ltb_lt in H
  | H : Z.ltb _ _ = false |- _ => apply Z.ltb_ge in H
  | H : Z.leb _ _ = true |- _ => apply Z.leb_le in H
  | H : Z.leb _ _ = false |- _ => apply Z.leb_gt in H
  end.

(** ** Lists *)

Lemma find_Some_iff_unique {A} (f : A → bool) (l : list A) (x : A) :
  (∀ y z, y ∈ l → z ∈ l → f y = true → f z = true → y = z) →
  List.find f l = Some x ↔ x ∈ l ∧ f x = true.
Proof.
  intros Huniq. split.
  - intros [Hin Hf]%List.find_some. by rewrite <-list_elem_of_In in Hin.
  - intros [Hin Hf]. destruct (List.find f l) as [y|] eqn:Hy.
    + apply List.find_some in Hy as [Hy Hfy]. rewrite <-list_elem_of_In in Hy.
      f_equal. by apply Huniq.
    + rewrite list_elem_of_In in Hin. pose proof (List.find_none _ _ Hy _ Hin). congruence.
Qed.

Lemma forallb_elem_of {A} (f : A → bool) (l : list A) :
  forallb f l = true ↔ ∀ x, x ∈ l → f x = true.
Proof. rewrite List.forallb_forall. by setoid_rewrite list_elem_of_In. Qed.

Lemma elem_of_filter_bool {A} (f : A → bool) (l : list A) x :
  x ∈ List.filter f l ↔ x ∈ l ∧ f x = true.
Proof. by rewrite list_elem_of_In, List.filter_In, <-list_elem_of_In. Qed.
