(* ===== verification/External.v ===== *)
(** * Interfaces of the third-party code the sources call

    The crates [base64], [sha2] and [ed25519-dalek] are not part of the
    repository. Each is a class of operations; what the sources rely on is a
    separate class of laws, the documented behaviour of that crate. Theorems that
    need a law take its class as a hypothesis. [Reference] at the end gives concrete
    instances of every class, so that these hypotheses are known to be
    satisfiable and concrete runs can be evaluated. *)

From stdpp Require Import prelude.
From Stdlib Require Import Strings.Byte NArith.
From S2P Require Import Prelude.

(** ** The base64url alphabet, as the sources test it *)

(** [is_ascii_alphanumeric() || b'-' || b'_']. *)
Definition is_canonical_base64url_char (b : byte) : bool :=
  let n := Byte.to_N b in
  ((48 <=? n) && (n <=? 57) || (65 <=? n) && (n <=? 90) || (97 <=? n) && (n <=? 122)
   || (n =? 45) || (n =? 95))%N.

(** ** [base64::engine::general_purpose::URL_SAFE_NO_PAD] *)

Class Base64 : Type := {
  b64_encode : list byte → str;
  b64_decode : str → option (list byte);
}.

(** RFC 4648 section 5 without padding: encoding is inverted by decoding, uses
    only the URL-safe alphabet, and has the length the RFC fixes. *)
Class Base64Laws `{Base64} : Prop := {
  b64_decode_encode l : b64_decode (b64_encode l) = Some l;
  b64_encode_alphabet l : forallb is_canonical_base64url_char (b64_encode l) = true;
  b64_encode_length l : length (b64_encode l) = (length l * 4 + 2) / 3;
}.

(** The engine's decoder takes no padding and rejects non-zero trailing bits
    ([DecodePaddingMode::RequireNone], [decode_allow_trailing_bits = false]):
    only canonical encodings decode. *)
Class Base64Strict `{Base64} : Prop :=
  b64_decode_canonical s l : b64_decode s = Some l → b64_encode l = s.

(** ** [sha2::Sha256] *)

Class Sha256 : Type := sha256 : list byte → array 32.

(** ** [ed25519_dalek] *)

Class Ed25519 : Type := {
  VerifyingKey : Type;
  vk_from_bytes : array 32 → option VerifyingKey;
  vk_to_bytes : VerifyingKey → array 32;
  verify_strict : VerifyingKey → list byte → array 64 → bool;
  SigningKey : Type;
  sk_from_seed : array 32 → SigningKey;
  sk_verifying_key : SigningKey → VerifyingKey;
  sk_sign : SigningKey → list byte → array 64;
}.

(** A key is kept as the bytes it was parsed from, a signing key's public half
    parses, and its own signatures verify. *)
Class Ed25519Laws `{Ed25519} : Prop := {
  vk_to_from b k : vk_from_bytes b = Some k → vk_to_bytes k = b;
  vk_from_to s : vk_from_bytes (vk_to_bytes (sk_verifying_key s)) = Some (sk_verifying_key s);
  verify_sign s m : verify_strict (sk_verifying_key s) m (sk_sign s m) = true;
}.

(** ** [TIMESTAMPTZ] columns

    PostgreSQL keeps microseconds, so a column does not always give back the
    instant written to it; what it gives back is stable. *)

Class PgTimestamp : Type := pg_timestamp : Instant → Instant.

Class PgTimestampLaws `{PgTimestamp} : Prop :=
  pg_timestamp_idem t : pg_timestamp (pg_timestamp t) = pg_timestamp t.

(** ** [uuid]'s hyphenated display form, which audit texts interpolate. *)
Class UuidDisplay : Type := uuid_hyphenated : Uuid → str.

Class UuidDisplayLaws `{UuidDisplay} : Prop :=
  uuid_hyphenated_inj u v : uuid_hyphenated u = uuid_hyphenated v → u = v.

(** ** [serde_json] values and [uuid::Uuid::parse_str] *)

(** [serde_json::Value]; of a number, what [as_u64] gives. *)
Module Value.
Inductive t : Type :=
| Null
| Bool (b : bool)
| Number (as_u64 : option N)
| String (s : str)
| Array (l : list t)
| Object (fields : list (str * t)).
End Value.

(** [serde_json::from_slice]. *)
Class JsonFromSlice : Type := json_from_slice : list byte → option Value.t.

(** [Uuid::parse_str], which accepts several spellings. *)
Class UuidParse : Type := uuid_parse_str : str → option Uuid.
Class UuidParseLaws `{UuidParse, UuidDisplay} : Prop :=
  uuid_parse_display u : uuid_parse_str (uuid_hyphenated u) = Some u.

(** [uuid]'s simple form (32 lower-case hexadecimal digits), and the accessors
    [get_version_num] and [get_variant] (whether it is [Variant::RFC4122]). *)
Class UuidSimple : Type := uuid_simple : Uuid → str.

Class UuidSimpleLaws `{UuidSimple} : Prop := {
  uuid_simple_inj u v : uuid_simple u = uuid_simple v → u = v;
  uuid_simple_length u : length (uuid_simple u) = 32;
}.

(** A lower-case hexadecimal digit; the simple form consists of them. *)
Definition is_lower_hex (b : byte) : bool :=
  let n := Byte.to_N b in
  (((48 <=? n) && (n <=? 57)) || ((97 <=? n) && (n <=? 102)))%N.

Class UuidSimpleHex `{UuidSimple} : Prop :=
  uuid_simple_hex u : forallb is_lower_hex (uuid_simple u) = true.

Class UuidKind : Type := {
  uuid_version_num : Uuid → N;
  uuid_variant_is_rfc4122 : Uuid → bool;
}.

(** [Uuid::new_v4] generates UUIDs of version 4 and the RFC variant. *)
Class UuidV4Laws `{UuidKind, Entropy} : Prop :=
  draw_uuid_v4 k : uuid_version_num (draw_uuid k) = 4%N
                   ∧ uuid_variant_is_rfc4122 (draw_uuid k) = true.

Lemma base64url_char_not_dot b : is_canonical_base64url_char b = true → b ≠ x2e.
Proof. by intros H ->. Qed.

Lemma b64_encode_no_dot `{Base64Laws} l : x2e ∉ b64_encode l.
Proof.
  intros Hin. pose proof (b64_encode_alphabet l) as Ha.
  rewrite forallb_elem_of in Ha. by apply (base64url_char_not_dot x2e); [apply Ha|].
Qed.

Lemma b64_encode_inj `{Base64Laws} l l' : b64_encode l = b64_encode l' → l = l'.
Proof.
  intros He. pose proof (b64_decode_encode l) as H1. rewrite He, b64_decode_encode in H1.
  congruence.
Qed.

(** ** Concrete instances *)

Module Reference.

(** RFC 4648 base64url without padding. *)
Definition b64_char (n : N) : byte :=
  (if n <? 26 then byte_of_N (65 + n)
   else if n <? 52 then byte_of_N (71 + n)
   else if n <? 62 then byte_of_N (n - 4)
   else if n =? 62 then x2d else x5f)%N.

Definition b64_val (b : byte) : option N :=
  let n := Byte.to_N b in
  (if (65 <=? n) && (n <=? 90) then Some (n - 65)
   else if (97 <=? n) && (n <=? 122) then Some (n - 71)
   else if (48 <=? n) && (n <=? 57) then Some (n + 4)
   else if n =? 45 then Some 62
   else if n =? 95 then Some 63 else None)%N.

Fixpoint encode (l : list byte) : str :=
  match l with
  | a :: b :: c :: l' =>
      let v := (Byte.to_N a * 65536 + Byte.to_N b * 256 + Byte.to_N c)%N in
      b64_char (v / 262144) :: b64_char (v / 4096 mod 64)
        :: b64_char (v / 64 mod 64) :: b64_char (v mod 64) :: encode l'
  | [a; b] =>
      let v := (Byte.to_N a * 1024 + Byte.to_N b * 4)%N in
      [b64_char (v / 4096); b64_char (v / 64 mod 64); b64_char (v mod 64)]
  | [a] =>
      let v := (Byte.to_N a * 16)%N in [b64_char (v / 64); b64_char (v mod 64)]
  | [] => []
  end.

Fixpoint decode (s : str) : option (list byte) :=
  match s with
  | c0 :: c1 :: c2 :: c3 :: s' =>
      v0 ← b64_val c0; v1 ← b64_val c1; v2 ← b64_val c2; v3 ← b64_val c3;
      let v := (v0 * 262144 + v1 * 4096 + v2 * 64 + v3)%N in
      rest ← decode s';
      Some (byte_of_N (v / 65536) :: byte_of_N (v / 256) :: byte_of_N v :: rest)
  | [c0; c1; c2] =>
      v0 ← b64_val c0; v1 ← b64_val c1; v2 ← b64_val c2;
      let v := (v0 * 4096 + v1 * 64 + v2)%N in
      if (v mod 4 =? 0)%N then Some [byte_of_N (v / 1024); byte_of_N (v / 4)] else None
  | [c0; c1] =>
      v0 ← b64_val c0; v1 ← b64_val c1;
      let v := (v0 * 64 + v1)%N in
      if (v mod 16 =? 0)%N then Some [byte_of_N (v / 16)] else None
  | [_] => None
  | [] => Some []
  end.

(** The alphabet is small: its inverse laws are checked value by value. *)
Lemma b64_val_char n : (n < 64)%N → b64_val (b64_char n) = Some n.
Proof.
  intros Hn.
  assert (forallb (λ k, bool_decide (b64_val (b64_char (N.of_nat k)) = Some (N.of_nat k)))
            (seq 0 64) = true) as Hall by (vm_compute; reflexivity).
  rewrite forallb_elem_of in Hall. specialize (Hall (N.to_nat n)).
  rewrite N2Nat.id, bool_decide_eq_true in Hall. apply Hall, elem_of_seq. lia.
Qed.

Lemma b64_val_Some b n : b64_val b = Some n → (n < 64)%N ∧ b64_char n = b.
Proof.
  intros Hb.
  assert (forallb (λ k, match b64_val (byte_of_N (N.of_nat k)) with
                        | Some m => (m <? 64)%N && bool_decide (b64_char m = byte_of_N (N.of_nat k))
                        | None => true end) (seq 0 256) = true) as Hall
    by (vm_compute; reflexivity).
  rewrite forallb_elem_of in Hall. specialize (Hall (N.to_nat (Byte.to_N b))).
  rewrite N2Nat.id, byte_of_N_to_N, Hb in Hall.
  pose proof (Byte.to_N_bounded b). specialize (Hall ltac:(apply elem_of_seq; lia)).
  apply andb_prop in Hall as [H1 H2].
  rewrite bool_decide_eq_true in H2. by split; [apply N.ltb_lt|].
Qed.

Lemma b64_char_url n : (n < 64)%N → is_canonical_base64url_char (b64_char n) = true.
Proof.
  intros Hn.
  assert (forallb (λ k, is_canonical_base64url_char (b64_char (N.of_nat k))) (seq 0 64) = true)
    as Hall by (vm_compute; reflexivity).
  rewrite forallb_elem_of in Hall. specialize (Hall (N.to_nat n)).
  rewrite N2Nat.id in Hall. apply Hall, elem_of_seq. lia.
Qed.

(** Induction in groups of three bytes, and of four characters. *)
Lemma triple_ind (P : list byte → Prop) :
  P [] → (∀ a, P [a]) → (∀ a b, P [a; b]) →
  (∀ a b c l, P l → P (a :: b :: c :: l)) → ∀ l, P l.
Proof.
  intros H0 H1 H2 H3. fix IH 1. intros [|a [|b [|c l]]];
    [apply H0|apply H1|apply H2|apply H3, IH].
Qed.

Lemma quad_ind (P : str → Prop) :
  P [] → (∀ a, P [a]) → (∀ a b, P [a; b]) → (∀ a b c, P [a; b; c]) →
  (∀ a b c d l, P l → P (a :: b :: c :: d :: l)) → ∀ l, P l.
Proof.
  intros H0 H1 H2 H3 H4. fix IH 1. intros [|a [|b [|c [|d l]]]];
    [apply H0|apply H1|apply H2|apply H3|apply H4, IH].
Qed.

#[local] Ltac Zify.zify_post_hook ::= Z.to_euclidean_division_equations.

Ltac bytes_bounded :=
  repeat match goal with
  | b : byte |- _ =>
      lazymatch goal with
      | H : (Byte.to_N b <= 255)%N |- _ => fail
      | _ => pose proof (Byte.to_N_bounded b)
      end
  end.

Lemma byte_of_N_add_mul n b : byte_of_N (n * 256 + Byte.to_N b) = b.
Proof.
  apply to_N_inj. rewrite to_N_byte_of_N. bytes_bounded. lia.
Qed.

Lemma decode_encode l : decode (encode l) = Some l.
Proof.
  induction l as [|a|a b|a b c l IH] using triple_ind; cbn [encode decode]; [done|..].
  all: rewrite !b64_val_char by (bytes_bounded; lia); cbn [mbind option_bind].
  - rewrite (proj2 (N.eqb_eq _ _)) by (bytes_bounded; lia). do 2 f_equal.
    apply to_N_inj. rewrite to_N_byte_of_N. bytes_bounded. lia.
  - rewrite (proj2 (N.eqb_eq _ _)) by (bytes_bounded; lia).
    do 2 f_equal; [|f_equal]; apply to_N_inj; rewrite to_N_byte_of_N; bytes_bounded; lia.
  - rewrite IH. cbn [mbind option_bind].
    do 2 f_equal; [|f_equal; [|f_equal]]; apply to_N_inj; rewrite to_N_byte_of_N;
      bytes_bounded; lia.
Qed.

Ltac b64_vals :=
  repeat match goal with
  | H : b64_val ?c ≫= _ = Some _ |- _ =>
      apply bind_Some in H as (? & [? <-]%b64_val_Some & H)
  end.

(** The three bytes of a 24-bit group are the group. *)
Lemma group_bytes v :
  (v < 16777216)%N →
  (Byte.to_N (byte_of_N (v / 65536)) * 65536 + Byte.to_N (byte_of_N (v / 256)) * 256
   + Byte.to_N (byte_of_N v) = v)%N.
Proof. intros. rewrite !to_N_byte_of_N. lia. Qed.

Lemma group_bytes2 v :
  (v < 262144)%N → (v mod 4 = 0)%N →
  (Byte.to_N (byte_of_N (v / 1024)) * 1024 + Byte.to_N (byte_of_N (v / 4)) * 4 = v)%N.
Proof. intros. rewrite !to_N_byte_of_N. lia. Qed.

Lemma encode_decode s l : decode s = Some l → encode l = s.
Proof.
  revert l. induction s as [|a|a b|a b c|a b c d s IH] using quad_ind; intros l; cbn [decode];
    intros Hd; b64_vals; simplify_eq/=; try done.
  - case_match eqn:E; simplify_eq. apply N.eqb_eq in E. cbn [encode].
    rewrite to_N_byte_of_N. repeat f_equal; lia.
  - case_match eqn:E; simplify_eq. apply N.eqb_eq in E. cbn [encode].
    rewrite group_bytes2 by (done || lia). repeat f_equal; lia.
  - apply bind_Some in Hd as (rest & Hrest & [= <-]). cbn [encode].
    rewrite (IH _ Hrest), group_bytes by lia. repeat f_equal; lia.
Qed.

Lemma encode_length l : length (encode l) = (length l * 4 + 2) / 3.
Proof.
  induction l as [|a|a b|a b c l IH] using triple_ind; try done.
  cbn [encode length]. rewrite IH.
  replace (S (S (S (length l))) * 4 + 2) with (length l * 4 + 2 + 4 * 3) by lia.
  rewrite Nat.div_add by lia. lia.
Qed.

Lemma encode_alphabet l : forallb is_canonical_base64url_char (encode l) = true.
Proof.
  induction l as [|a|a b|a b c l IH] using triple_ind; cbn [encode forallb]; [done|..].
  all: rewrite !b64_char_url by (bytes_bounded; lia); done.
Qed.

Instance base64 : Base64 := {| b64_encode := encode; b64_decode := decode |}.
Instance base64_laws : Base64Laws.
Proof. split; [apply decode_encode|apply encode_alphabet|apply encode_length]. Qed.
Instance base64_strict : Base64Strict.
Proof. exact encode_decode. Qed.

(** A digest that keeps the head of its input, and a signature scheme whose
    public key is the seed and whose signature is a digest of key and message:
    not cryptography, but models of the laws to run examples with. *)
Instance toy_sha256 : Sha256 := array_copy 32.

Definition toy_sign (k : array 32) (m : list byte) : array 64 :=
  array_copy 64 (array_bytes k ++ drop 35 m ++ m).

Instance toy_ed25519 : Ed25519 := {|
  VerifyingKey := array 32;
  vk_from_bytes := Some;
  vk_to_bytes := id;
  verify_strict k m s := bool_decide (toy_sign k m = s);
  SigningKey := array 32;
  sk_from_seed := id;
  sk_verifying_key := id;
  sk_sign := toy_sign;
|}.

Instance toy_ed25519_laws : Ed25519Laws.
Proof.
  split; simpl; [by intros b k [= ->]|done|]. intros s m. by apply bool_decide_eq_true_2.
Qed.

(** Microseconds, rounded down. *)
Instance micros : PgTimestamp := λ t, (t / 1000 * 1000)%Z.
Instance micros_laws : PgTimestampLaws.
Proof. intros t. unfold pg_timestamp, micros. by rewrite Z.div_mul. Qed.

(** The raw bytes stand for the display form. *)
Instance raw_uuid : UuidDisplay := array_bytes.
Instance raw_uuid_laws : UuidDisplayLaws.
Proof. intros u v. apply array_eq. Qed.

(** Draw [k] yields the big-endian encoding of [k]: distinct draws are distinct. *)
Instance counter_entropy : Entropy := {|
  draw_uuid k := be_array 16 (N.of_nat k);
  draw_bytes k n := be_array n (N.of_nat k);
|}.

(** Hexadecimal digits, and the two of a byte. *)
Definition hex_digit (n : N) : byte := byte_of_N (if (n <? 10)%N then 48 + n else 87 + n)%N.
Definition hex_byte (b : byte) : str :=
  [hex_digit (Byte.to_N b / 16); hex_digit (Byte.to_N b mod 16)].

Lemma hex_digit_inj m n : (m < 16 → n < 16 → hex_digit m = hex_digit n → m = n)%N.
Proof.
  intros Hm Hn H. apply (f_equal Byte.to_N) in H. unfold hex_digit in H.
  rewrite !to_N_byte_of_N in H.
  destruct (m <? 10)%N eqn:Em, (n <? 10)%N eqn:En;
    rewrite ?N.ltb_lt, ?N.ltb_ge in *; rewrite !N.mod_small in H by lia; lia.
Qed.

Lemma hex_byte_inj b c : hex_byte b = hex_byte c → b = c.
Proof.
  unfold hex_byte. intros [= Hd Hm]. bytes_bounded. apply to_N_inj.
  apply hex_digit_inj in Hd; [|lia..]. apply hex_digit_inj in Hm; lia.
Qed.

Instance hex_simple : UuidSimple := λ u, concat (hex_byte <$> array_bytes u).
Instance hex_simple_laws : UuidSimpleLaws.
Proof.
  assert (∀ l, length (concat (hex_byte <$> l)) = 2 * length l) as Hlen.
  { induction l as [|b l IH]; [done|]. rewrite fmap_cons. cbn [concat]. rewrite length_app, IH.
    simpl. lia. }
  split.
  - intros u v H. apply array_eq. unfold uuid_simple, hex_simple in H. revert H.
    generalize (array_bytes v) as m. generalize (array_bytes u) as l.
    induction l as [|b l IH]; intros [|c m]; simpl; try done.
    intros [= H1 H2 H3]. f_equal; [|by apply IH].
    apply hex_byte_inj. unfold hex_byte. congruence.
  - intros u. unfold uuid_simple, hex_simple. by rewrite Hlen, length_array.
Qed.

Lemma hex_digit_lower n : (n < 16)%N → is_lower_hex (hex_digit n) = true.
Proof.
  intros Hn. unfold is_lower_hex, hex_digit. rewrite to_N_byte_of_N.
  destruct (N.ltb_spec n 10); rewrite N.mod_small by lia; apply orb_true_iff;
    [left|right]; apply andb_true_iff; rewrite !N.leb_le; lia.
Qed.

Instance hex_simple_hex : UuidSimpleHex.
Proof.
  intros u. unfold uuid_simple, hex_simple. generalize (array_bytes u).
  induction l as [|b l IH]; [done|]. rewrite fmap_cons. cbn [concat]. rewrite forallb_app, IH.
  unfold hex_byte. cbn [forallb]. bytes_bounded.
  by rewrite !hex_digit_lower by (try apply N.mod_lt; try apply N.Div0.div_lt_upper_bound; lia).
Qed.

(** The version is the high half of byte 6, the variant the two high bits of byte 8. *)
Instance rfc_kind : UuidKind := {|
  uuid_version_num u := (Byte.to_N (nth 6 (array_bytes u) x00) / 16)%N;
  uuid_variant_is_rfc4122 u := (Byte.to_N (nth 8 (array_bytes u) x00) / 64 =? 2)%N;
|}.

(** Draws that are version-4 UUIDs and distinct below 2^48. *)
Definition v4_uuid (n : N) : Uuid :=
  array_copy 16 (be_bytes 6 n ++ [x40; x00; x80] ++ be_bytes 7 0).

Definition v4_entropy : Entropy := {|
  draw_uuid k := v4_uuid (N.of_nat k);
  draw_bytes k n := be_array n (N.of_nat k);
|}.

Lemma v4_entropy_laws : @UuidV4Laws rfc_kind v4_entropy.
Proof.
  intros k. pose proof (array_copy_bytes 16 (be_bytes 6 (N.of_nat k) ++ [x40; x00; x80]
    ++ be_bytes 7 0) ltac:(by rewrite !length_app, !length_be_bytes)) as Hb.
  unfold uuid_version_num, uuid_variant_is_rfc4122. cbn [draw_uuid v4_entropy rfc_kind].
  unfold v4_uuid. rewrite Hb. by split.
Qed.

End Reference.
