(* ===== verification/Credential.v ===== *)
(** * Presented credentials, credential chains and authentication

    Models [crates/domain/src/presented_credential.rs] (the self-locating wire
    format) and [crates/domain/src/credential.rs] (salted hashes, the
    predecessor/successor chain and [authenticate]). *)

From stdpp Require Import prelude gmap strings.
From Stdlib Require Import Strings.Byte NArith ZArith.
From S2P Require Import Prelude.
From S2P Require Import External.

(** ** Wire representation *)

Definition WIRE_VERSION : str := lit "v1".
Definition LOOKUP_ID_LEN : nat := 16.
Definition SECRET_LEN : nat := 32.

Module CredentialKind.
Inductive t : Type := Enrollment | Runtime.
#[global] Instance t_eq_dec : EqDecision t.
Proof. solve_decision. Defined.

Definition to_wire (k : t) : str :=
  match k with Enrollment => lit "enrollment" | Runtime => lit "runtime" end.

Definition from_wire (s : str) : option t :=
  if bool_decide (s = lit "enrollment") then Some Enrollment
  else if bool_decide (s = lit "runtime") then Some Runtime
  else None.
End CredentialKind.

(** [CredentialLookupId([u8; 16])] and [PresentedCredentialSecret([u8; 32])]. *)
Definition CredentialLookupId : Type := array LOOKUP_ID_LEN.
Definition PresentedCredentialSecret : Type := array SECRET_LEN.

#[global] Instance CredentialLookupId_eq_dec : EqDecision CredentialLookupId := array_eq_dec _.
#[global] Instance CredentialLookupId_countable : Countable CredentialLookupId := array_countable _.

Module PresentedCredentialParseError.
Inductive t : Type :=
| UnsupportedVersion
| UnknownKind
| MalformedStructure
| InvalidLookupIdEncoding
| InvalidLookupIdLength
| InvalidSecretEncoding
| InvalidSecretLength.
#[global] Instance t_eq_dec : EqDecision t.
Proof. solve_decision. Defined.
End PresentedCredentialParseError.

Record PresentedCredential : Type := {
  pc_kind : CredentialKind.t;
  pc_lookup_id : CredentialLookupId;
  pc_secret : PresentedCredentialSecret;
}.

Section Wire.
Context `{Base64}.
Import PresentedCredentialParseError.

Definition CredentialLookupId_to_wire (i : CredentialLookupId) : str := b64_encode (array_bytes i).

Definition CredentialLookupId_from_wire (s : str) : result t CredentialLookupId :=
  decoded ← ok_or InvalidLookupIdEncoding (b64_decode s);
  ok_or InvalidLookupIdLength (try_into LOOKUP_ID_LEN decoded).

Definition PresentedCredentialSecret_to_wire (s : PresentedCredentialSecret) : str :=
  b64_encode (array_bytes s).

Definition PresentedCredentialSecret_from_wire (s : str) : result t PresentedCredentialSecret :=
  decoded ← ok_or InvalidSecretEncoding (b64_decode s);
  ok_or InvalidSecretLength (try_into SECRET_LEN decoded).

(** [format!("{WIRE_VERSION}.{}.{}.{}", ...)]. *)
Definition to_wire_value (c : PresentedCredential) : str :=
  WIRE_VERSION ++ lit "." ++ CredentialKind.to_wire (pc_kind c) ++ lit "."
    ++ CredentialLookupId_to_wire (pc_lookup_id c) ++ lit "."
    ++ PresentedCredentialSecret_to_wire (pc_secret c).

Definition is_empty (s : str) : bool := bool_decide (s = []).

Definition PresentedCredential_parse (wire : str) : result t PresentedCredential :=
  match split_on x2e wire with
  | [version; kind; lookup_id; secret] =>
      if is_empty version || is_empty kind || is_empty lookup_id || is_empty secret
      then Err MalformedStructure
      else if negb (bool_decide (version = WIRE_VERSION)) then Err UnsupportedVersion
      else
        kind ← ok_or UnknownKind (CredentialKind.from_wire kind);
        lookup_id ← CredentialLookupId_from_wire lookup_id;
        secret ← PresentedCredentialSecret_from_wire secret;
        Ok {| pc_kind := kind; pc_lookup_id := lookup_id; pc_secret := secret |}
  | _ => Err MalformedStructure
  end.
End Wire.

(** Generation: a fresh lookup identifier, then fresh secret material. *)
Definition PresentedCredential_generate `{Entropy} (kind : CredentialKind.t)
  : Gen PresentedCredential :=
  lookup_id ← fill_bytes LOOKUP_ID_LEN;
  secret ← fill_bytes SECRET_LEN;
  mret {| pc_kind := kind; pc_lookup_id := lookup_id; pc_secret := secret |}.

(** ** Salted hashes *)

Record CredentialHash : Type := { ch_salt : array 16; ch_digest : array 32 }.

#[global] Instance CredentialHash_eq_dec : EqDecision CredentialHash.
Proof. solve_decision. Defined.

Section Hash.
Context `{Sha256}.

Definition of_bytes_with_salt (secret_bytes : list byte) (salt : array 16) : CredentialHash :=
  {| ch_salt := salt; ch_digest := sha256 (array_bytes salt ++ secret_bytes) |}.

Definition CredentialHash_of_bytes `{Entropy} (secret_bytes : list byte) : Gen CredentialHash :=
  salt ← fill_bytes 16;
  mret (of_bytes_with_salt secret_bytes salt).

(** [ct_eq] is equality; its timing is not represented. *)
Definition verify_bytes (h : CredentialHash) (secret_bytes : list byte) : bool :=
  let candidate := of_bytes_with_salt secret_bytes (ch_salt h) in
  bool_decide (ch_digest candidate = ch_digest h).
End Hash.

(** [CredentialHash::to_bytes]: salt then digest in a 48-byte array. *)
Definition CredentialHash_to_bytes (h : CredentialHash) : list byte :=
  let out := replicate 48 x00 in
  let out := copy_from_slice out 0 (array_bytes (ch_salt h)) in
  copy_from_slice out 16 (array_bytes (ch_digest h)).

Definition CredentialHash_from_bytes (bytes : list byte) : CredentialHash :=
  {| ch_salt := array_copy 16 (take 16 bytes); ch_digest := array_copy 32 (drop 16 bytes) |}.

(** ** The credential chain *)

Record CredentialSlot : Type := {
  cs_lookup_id : CredentialLookupId;
  cs_hash : CredentialHash;
  cs_issued_at : Instant;
  cs_expires_at : Instant;
}.

#[global] Instance CredentialSlot_eq_dec : EqDecision CredentialSlot.
Proof. solve_decision. Defined.

Definition slot_valid_at (s : CredentialSlot) (now : Instant) : bool := (now <? cs_expires_at s)%Z.

Definition slot_matches `{Sha256} (s : CredentialSlot) (presented : PresentedCredential)
    (now : Instant) : bool :=
  slot_valid_at s now
  && bool_decide (cs_lookup_id s = pc_lookup_id presented)
  && verify_bytes (cs_hash s) (array_bytes (pc_secret presented)).

(** [Duration::hours(1)]. *)
Definition DEFAULT_CREDENTIAL_TTL : Duration := (3600 * 1000000000)%Z.

Record CredentialChain : Type := {
  chain_predecessor : CredentialSlot;
  chain_successor : option CredentialSlot;
  chain_revoked : bool;
}.

#[global] Instance CredentialChain_eq_dec : EqDecision CredentialChain.
Proof. solve_decision. Defined.

Module CredentialDimension.
Inductive t : Type :=
| NoActiveCredential | CredentialActive | CredentialExpired | CredentialRevoked.
#[global] Instance t_eq_dec : EqDecision t.
Proof. solve_decision. Defined.
End CredentialDimension.

Module AuthOutcome.
Inductive t : Type :=
| Accepted (chain : CredentialChain) (issued_expires_at : Instant) (successor_confirmed : bool)
| Rejected.
End AuthOutcome.

Section Chain.
Context `{Entropy, Sha256}.

Definition mint_successor_slot (fresh_successor : PresentedCredential) (now : Instant)
    (ttl : Duration) : Gen (option CredentialSlot) :=
  if negb (bool_decide (pc_kind fresh_successor = CredentialKind.Runtime)) then mret None
  else
    hash ← CredentialHash_of_bytes (array_bytes (pc_secret fresh_successor));
    mret (Some {| cs_lookup_id := pc_lookup_id fresh_successor; cs_hash := hash;
                  cs_issued_at := now; cs_expires_at := (now + ttl)%Z |}).

Definition CredentialChain_establish (predecessor_lookup_id : CredentialLookupId)
    (predecessor_verifier : CredentialHash) (fresh_successor : PresentedCredential)
    (now : Instant) (ttl : Duration) : Gen (option CredentialChain) :=
  successor ← mint_successor_slot fresh_successor now ttl;
  mret match successor with
  | None => None
  | Some successor =>
      let predecessor := {| cs_lookup_id := predecessor_lookup_id;
                            cs_hash := predecessor_verifier;
                            cs_issued_at := now; cs_expires_at := (now + ttl)%Z |} in
      Some {| chain_predecessor := predecessor; chain_successor := Some successor;
              chain_revoked := false |}
  end.

Definition CredentialChain_dimension (c : CredentialChain) (now : Instant)
  : CredentialDimension.t :=
  if chain_revoked c then CredentialDimension.CredentialRevoked
  else
    let predecessor_valid := slot_valid_at (chain_predecessor c) now in
    let successor_valid :=
      match chain_successor c with Some s => slot_valid_at s now | None => false end in
    if predecessor_valid || successor_valid then CredentialDimension.CredentialActive
    else CredentialDimension.CredentialExpired.

Definition CredentialChain_revoke (c : CredentialChain) : CredentialChain :=
  {| chain_predecessor := chain_predecessor c; chain_successor := chain_successor c;
     chain_revoked := true |}.

Definition authenticate (chain : CredentialChain) (presented fresh_successor : PresentedCredential)
    (now : Instant) (ttl : Duration) : Gen AuthOutcome.t :=
  if chain_revoked chain then mret AuthOutcome.Rejected
  else if slot_matches (chain_predecessor chain) presented now then
    issued ← mint_successor_slot fresh_successor now ttl;
    mret match issued with
    | None => AuthOutcome.Rejected
    | Some issued_slot =>
        let new_chain := {| chain_predecessor := chain_predecessor chain;
                            chain_successor := Some issued_slot; chain_revoked := false |} in
        AuthOutcome.Accepted new_chain (cs_expires_at issued_slot) false
    end
  else
    match chain_successor chain with
    | Some successor =>
        if slot_matches successor presented now then
          issued ← mint_successor_slot fresh_successor now ttl;
          mret match issued with
          | None => AuthOutcome.Rejected
          | Some issued_slot =>
              let new_chain := {| chain_predecessor := successor;
                                  chain_successor := Some issued_slot;
                                  chain_revoked := false |} in
              AuthOutcome.Accepted new_chain (cs_expires_at issued_slot) true
          end
        else mret AuthOutcome.Rejected
    | None => mret AuthOutcome.Rejected
    end.
End Chain.

(** A connection's view of one Endpoint's chain over time: each request presents a
    credential; an accepted request replaces the chain, a rejected one does not. *)
Record auth_request : Type := {
  req_presented : PresentedCredential;
  req_fresh : PresentedCredential;
  req_now : Instant;
  req_ttl : Duration;
}.

Fixpoint present_all `{Entropy, Sha256} (c : CredentialChain) (reqs : list auth_request)
  : Gen (list AuthOutcome.t) :=
  match reqs with
  | [] => mret []
  | r :: rest =>
      o ← authenticate c (req_presented r) (req_fresh r) (req_now r) (req_ttl r);
      let c' := match o with AuthOutcome.Accepted c' _ _ => c' | AuthOutcome.Rejected => c end in
      os ← present_all c' rest;
      mret (o :: os)
  end.

(** The lookup identifiers a chain can still be reached by. *)
Definition chain_ids (c : CredentialChain) : list CredentialLookupId :=
  cs_lookup_id (chain_predecessor c) ::
    match chain_successor c with Some s => [cs_lookup_id s] | None => [] end.

(** ** The wire format *)

Lemma kind_from_to_wire k : CredentialKind.from_wire (CredentialKind.to_wire k) = Some k.
Proof. by destruct k. Qed.

Lemma kind_to_from_wire s k : CredentialKind.from_wire s = Some k → CredentialKind.to_wire k = s.
Proof. unfold CredentialKind.from_wire. intros. by split_matches; reflect_bools; subst. Qed.

Lemma kind_to_wire_no_dot k : x2e ∉ CredentialKind.to_wire k.
Proof.
  apply (bool_decide_eq_false_1 (x2e ∈ _)). by destruct k.
Qed.

Lemma wire_version_no_dot : x2e ∉ WIRE_VERSION.
Proof. by apply (bool_decide_eq_false_1 (x2e ∈ _)). Qed.

Section WireFacts.
Context `{Base64Laws}.

Lemma b64_encode_nonempty n (a : array (S n)) : b64_encode (array_bytes a) ≠ [].
Proof.
  intros He. pose proof (b64_decode_encode (array_bytes a)) as Hd.
  assert (b64_encode [] = []) as Hnil.
  { apply length_zero_iff_nil. by rewrite b64_encode_length. }
  rewrite He, <-Hnil, b64_decode_encode in Hd.
  pose proof (length_array a) as Hl. by simplify_eq; rewrite <-Hd in Hl.
Qed.

Lemma lookup_id_from_to_wire i :
  CredentialLookupId_from_wire (CredentialLookupId_to_wire i) = Ok i.
Proof.
  unfold CredentialLookupId_from_wire, CredentialLookupId_to_wire.
  rewrite b64_decode_encode. simpl. by rewrite try_into_bytes.
Qed.

Lemma secret_from_to_wire s :
  PresentedCredentialSecret_from_wire (PresentedCredentialSecret_to_wire s) = Ok s.
Proof.
  unfold PresentedCredentialSecret_from_wire, PresentedCredentialSecret_to_wire.
  rewrite b64_decode_encode. simpl. by rewrite try_into_bytes.
Qed.

Lemma split_to_wire_value c :
  split_on x2e (to_wire_value c)
  = [WIRE_VERSION; CredentialKind.to_wire (pc_kind c);
     CredentialLookupId_to_wire (pc_lookup_id c);
     PresentedCredentialSecret_to_wire (pc_secret c)].
Proof.
  unfold to_wire_value. change (lit ".") with [x2e]. cbn [app].
  rewrite split_on_app by apply wire_version_no_dot.
  rewrite split_on_app by apply kind_to_wire_no_dot.
  rewrite split_on_app by apply b64_encode_no_dot.
  by rewrite split_on_notin by apply b64_encode_no_dot.
Qed.

Lemma parse_of_wire_value c : PresentedCredential_parse (to_wire_value c) = Ok c.
Proof.
  unfold PresentedCredential_parse. rewrite split_to_wire_value. unfold is_empty.
  rewrite (bool_decide_eq_false_2 (CredentialKind.to_wire _ = [])) by by destruct (pc_kind c).
  rewrite !(bool_decide_eq_false_2 (_ = [])) by (apply b64_encode_nonempty || done).
  rewrite bool_decide_eq_true_2 by done. cbn [orb negb].
  rewrite kind_from_to_wire, lookup_id_from_to_wire, secret_from_to_wire. by destruct c.
Qed.

Lemma wire_value_of_parse `{!Base64Strict} w c :
  PresentedCredential_parse w = Ok c → to_wire_value c = w.
Proof.
  unfold PresentedCredential_parse. intros Hp. rewrite <-(join_split x2e w).
  destruct (split_on x2e w) as [|v [|kd [|li [|se [|]]]]]; try done.
  do 2 (case_match; [done|]). reflect_bools; subst.
  apply result_bind_Ok in Hp as (k & Hk%ok_or_Ok & Hp).
  apply result_bind_Ok in Hp as (i & Hi & Hp).
  apply result_bind_Ok in Hp as (s & Hs & [= <-]).
  apply result_bind_Ok in Hi as (bi & Hbi%ok_or_Ok & Hi%ok_or_Ok%try_into_Some).
  apply result_bind_Ok in Hs as (bs & Hbs%ok_or_Ok & Hs%ok_or_Ok%try_into_Some).
  unfold to_wire_value, CredentialLookupId_to_wire, PresentedCredentialSecret_to_wire.
  cbn [pc_kind pc_lookup_id pc_secret join_with].
  by rewrite (kind_to_from_wire _ _ Hk), Hi, Hs,
    (b64_decode_canonical _ _ Hbi), (b64_decode_canonical _ _ Hbs).
Qed.
End WireFacts.

(** ** Hashes *)

Lemma verify_of_bytes `{Sha256} secret salt :
  verify_bytes (of_bytes_with_salt secret salt) secret = true.
Proof. by apply bool_decide_eq_true_2. Qed.

Lemma hash_bytes_app h :
  CredentialHash_to_bytes h = array_bytes (ch_salt h) ++ array_bytes (ch_digest h).
Proof.
  unfold CredentialHash_to_bytes.
  pose proof (length_array (ch_salt h)) as Hs. pose proof (length_array (ch_digest h)) as Hd.
  revert Hs Hd. generalize (array_bytes (ch_salt h)) (array_bytes (ch_digest h)).
  intros s d Hs Hd.
  rewrite (copy_from_slice_snoc [] (replicate 48 x00)) by (rewrite Hs, length_replicate; lia).
  pose proof (copy_from_slice_snoc s (drop 16 (replicate 48 x00)) d) as Hc.
  cbn [app]. rewrite Hs in *. rewrite Hc by (rewrite Hd, length_drop, length_replicate; lia).
  rewrite drop_drop, Hd. apply app_nil_r.
Qed.

Lemma hash_from_to_bytes h : CredentialHash_from_bytes (CredentialHash_to_bytes h) = h.
Proof.
  rewrite hash_bytes_app. destruct h as [s d]. unfold CredentialHash_from_bytes. simpl.
  pose proof (length_array s) as Hs. f_equal; apply array_eq.
  - rewrite take_app_le, take_ge by lia. by rewrite array_copy_array.
  - rewrite drop_app_ge, Hs, Nat.sub_diag, drop_0 by lia. by rewrite array_copy_array.
Qed.

(** [CredentialHash::from_bytes] takes a 48-byte array: writing back what was
    read gives the same bytes. *)
Lemma hash_to_from_bytes (b : array 48) :
  CredentialHash_to_bytes (CredentialHash_from_bytes (array_bytes b)) = array_bytes b.
Proof.
  rewrite hash_bytes_app. unfold CredentialHash_from_bytes. pose proof (length_array b).
  cbn [ch_salt ch_digest].
  rewrite !array_copy_bytes by (rewrite ?length_take, ?length_drop; lia).
  apply take_drop.
Qed.

(** ** The chain *)

Section ChainFacts.
Context `{Entropy, Sha256}.

(** The presented secret, hashed with the stored salt, gives the stored digest. *)
Definition opens (h : CredentialHash) (p : PresentedCredential) : Prop :=
  sha256 (array_bytes (ch_salt h) ++ array_bytes (pc_secret p)) = ch_digest h.

(** A slot that has not expired, that the credential names and that its secret opens. *)
Definition live_for (s : CredentialSlot) (p : PresentedCredential) (now : Instant) : Prop :=
  (now < cs_expires_at s)%Z ∧ cs_lookup_id s = pc_lookup_id p ∧ opens (cs_hash s) p.

Lemma verify_bytes_opens h p : verify_bytes h (array_bytes (pc_secret p)) = true ↔ opens h p.
Proof. apply bool_decide_eq_true. Qed.

Lemma slot_matches_live s p now : slot_matches s p now = true ↔ live_for s p now.
Proof.
  unfold slot_matches, slot_valid_at, live_for.
  rewrite !andb_true_iff, Z.ltb_lt, bool_decide_eq_true, verify_bytes_opens. naive_solver.
Qed.

(** The slot [mint_successor_slot] builds, as a function of the draw it makes. *)
Definition minted_slot (fresh : PresentedCredential) (now : Instant) (ttl : Duration) (k : nat)
  : CredentialSlot :=
  {| cs_lookup_id := pc_lookup_id fresh;
     cs_hash := of_bytes_with_salt (array_bytes (pc_secret fresh)) (draw_bytes k 16);
     cs_issued_at := now; cs_expires_at := (now + ttl)%Z |}.

Lemma mint_successor_slot_Some fresh now ttl k s :
  (mint_successor_slot fresh now ttl k).1 = Some s ↔
  pc_kind fresh = CredentialKind.Runtime ∧ s = minted_slot fresh now ttl k.
Proof.
  unfold mint_successor_slot. case_match; reflect_bools; simpl; naive_solver.
Qed.

Lemma authenticate_accepted c p f now ttl k c' exp conf :
  (authenticate c p f now ttl k).1 = AuthOutcome.Accepted c' exp conf ↔
  chain_revoked c = false ∧ pc_kind f = CredentialKind.Runtime ∧ exp = (now + ttl)%Z ∧
  ∃ base, c' = {| chain_predecessor := base;
                  chain_successor := Some (minted_slot f now ttl k);
                  chain_revoked := false |} ∧
    (if slot_matches (chain_predecessor c) p now
     then base = chain_predecessor c ∧ conf = false
     else chain_successor c = Some base ∧ slot_matches base p now = true ∧ conf = true).
Proof.
  unfold authenticate. destruct (chain_revoked c); [naive_solver|].
  assert (∀ base cf,
    ((issued ← mint_successor_slot f now ttl;
      mret match issued with
      | None => AuthOutcome.Rejected
      | Some s => AuthOutcome.Accepted {| chain_predecessor := base;
                    chain_successor := Some s; chain_revoked := false |} (cs_expires_at s) cf
      end) k).1 = AuthOutcome.Accepted c' exp conf ↔
    pc_kind f = CredentialKind.Runtime ∧ exp = (now + ttl)%Z ∧
    c' = {| chain_predecessor := base; chain_successor := Some (minted_slot f now ttl k);
            chain_revoked := false |} ∧ conf = cf) as Hmint.
  { intros base cf. unfold mint_successor_slot.
    case_match; reflect_bools; simpl; [naive_solver|].
    unfold minted_slot. naive_solver. }
  destruct (slot_matches (chain_predecessor c) p now); [rewrite Hmint; naive_solver|].
  destruct (chain_successor c) as [s|]; [|simpl; naive_solver].
  destruct (slot_matches s p now) eqn:Hs; [rewrite Hmint; naive_solver|].
  split; [done|]. intros (_ & _ & _ & base & _ & [= <-] & ? & _). congruence.
Qed.

Lemma slot_matches_id s p now : slot_matches s p now = true → cs_lookup_id s = pc_lookup_id p.
Proof. unfold slot_matches. intros. by reflect_bools. Qed.

(** An accepted request leaves exactly two identifiers alive: the one it
    presented and the one it issued. *)
Lemma authenticate_chain_ids c p f now ttl k c' exp conf :
  (authenticate c p f now ttl k).1 = AuthOutcome.Accepted c' exp conf →
  chain_ids c' = [pc_lookup_id p; pc_lookup_id f].
Proof.
  rewrite authenticate_accepted. intros (_ & _ & _ & base & -> & Hb).
  destruct (slot_matches (chain_predecessor c) p now) eqn:Hm; destruct_and?; subst;
    unfold chain_ids; simpl; f_equal; by eapply slot_matches_id.
Qed.

Lemma authenticate_dead_id c p f now ttl k :
  pc_lookup_id p ∉ chain_ids c →
  (authenticate c p f now ttl k).1 = AuthOutcome.Rejected.
Proof.
  intros Hdead. destruct (authenticate c p f now ttl k).1 as [c' exp conf|] eqn:Ha; [|done].
  exfalso. apply authenticate_accepted in Ha as (_ & _ & _ & base & _ & Hb). apply Hdead.
  unfold chain_ids. destruct (slot_matches (chain_predecessor c) p now) eqn:Hm.
  - apply slot_matches_id in Hm. rewrite Hm. apply list_elem_of_here.
  - destruct Hb as (-> & Hs%slot_matches_id & _). rewrite Hs.
    apply list_elem_of_further, list_elem_of_here.
Qed.

Lemma present_all_cons c r rest k :
  (present_all c (r :: rest) k).1
  = (authenticate c (req_presented r) (req_fresh r) (req_now r) (req_ttl r) k).1
    :: (present_all
          match (authenticate c (req_presented r) (req_fresh r) (req_now r) (req_ttl r) k).1 with
          | AuthOutcome.Accepted c' _ _ => c' | AuthOutcome.Rejected => c end
          rest (authenticate c (req_presented r) (req_fresh r) (req_now r) (req_ttl r) k).2).1.
Proof.
  cbn [present_all]. unfold mbind, gen_bind.
  destruct (authenticate c _ _ _ _ k) as [o k'] eqn:Ho. simpl.
  by destruct (present_all _ rest k') as [os k''].
Qed.

Lemma present_all_dead_id id c reqs k i r o :
  id ∉ chain_ids c →
  Forall (λ r, pc_lookup_id (req_fresh r) ≠ id) reqs →
  reqs !! i = Some r → (present_all c reqs k).1 !! i = Some o →
  pc_lookup_id (req_presented r) = id → o = AuthOutcome.Rejected.
Proof.
  revert c k i. induction reqs as [|r0 rest IH]; intros c k i Hdead Hfresh Hr Ho Hid; [done|].
  apply Forall_cons in Hfresh as [Hf0 Hfresh]. rewrite present_all_cons in Ho.
  destruct i as [|i]; simplify_eq/=.
  - by apply authenticate_dead_id.
  - eapply IH; [| |done|done|done]; [|done].
    destruct (authenticate c _ _ _ _ k).1 as [c' exp conf|] eqn:Ha; [|done].
    destruct (decide (pc_lookup_id (req_presented r0) = pc_lookup_id (req_presented r))) as [He|].
    + rewrite authenticate_dead_id in Ha; [done|]. by rewrite He.
    + rewrite (authenticate_chain_ids _ _ _ _ _ _ _ _ _ Ha).
      rewrite !not_elem_of_cons. split_and!; [done|done|apply not_elem_of_nil].
Qed.

Lemma present_all_revoked c reqs k :
  chain_revoked c = true → Forall (λ o, o = AuthOutcome.Rejected) (present_all c reqs k).1.
Proof.
  intros Hrev. revert k. induction reqs as [|r rest IH]; intros k; [by constructor|].
  rewrite present_all_cons.
  assert ((authenticate c (req_presented r) (req_fresh r) (req_now r) (req_ttl r) k).1
          = AuthOutcome.Rejected) as -> by by unfold authenticate; rewrite Hrev.
  by constructor.
Qed.

Lemma minted_slot_matches f now ttl k now' :
  (now' < now + ttl)%Z → slot_matches (minted_slot f now ttl k) f now' = true.
Proof.
  intros. unfold slot_matches, slot_valid_at. simpl.
  rewrite (proj2 (Z.ltb_lt _ _)) by done. rewrite bool_decide_eq_true_2 by done.
  simpl. apply verify_of_bytes.
Qed.
End ChainFacts.

(** ** Properties *)

Section Properties.
Context `{Base64Laws, !Base64Strict, Entropy, Sha256}.

(** The presented-credential wire format is exact: a string parses to a
    credential if and only if it is that credential's own wire value, so every
    issued credential parses back and no second spelling of it is accepted. *)
Theorem parse_iff_wire_value w c :
  PresentedCredential_parse w = Ok c ↔ w = to_wire_value c.
Proof.
  split; [by intros ?%wire_value_of_parse|]. intros ->. apply parse_of_wire_value.
Qed.

(** Authentication accepts exactly when the chain is not revoked, the fresh
    credential is a Runtime one, and the presented credential names and opens the
    unexpired predecessor or, failing that, the unexpired unconfirmed successor; the new chain keeps
    the slot that matched as predecessor and installs the fresh credential, valid
    for the requested time, as the only successor. *)
Theorem authenticate_exact c p f now ttl k c' exp conf :
  (authenticate c p f now ttl k).1 = AuthOutcome.Accepted c' exp conf ↔
  chain_revoked c = false ∧ pc_kind f = CredentialKind.Runtime ∧ exp = (now + ttl)%Z ∧
  ∃ base, c' = {| chain_predecessor := base;
                  chain_successor := Some (minted_slot f now ttl k);
                  chain_revoked := false |} ∧
    (live_for (chain_predecessor c) p now ∧ base = chain_predecessor c ∧ conf = false
     ∨ ¬ live_for (chain_predecessor c) p now ∧ chain_successor c = Some base
       ∧ live_for base p now ∧ conf = true).
Proof.
  rewrite authenticate_accepted. do 3 apply and_iff_compat_l. f_equiv; intros base.
  apply and_iff_compat_l. rewrite <-!slot_matches_live. destruct (slot_matches _ p now); naive_solver.
Qed.

(** Rotation retires. After an accepted request, whatever sequence of requests
    follows, a credential whose lookup identifier is neither the one that was
    presented nor one issued since is rejected: a superseded successor and a
    retired predecessor never authenticate again. *)
Theorem rotation_retires c p f now ttl k c' exp conf id reqs k' i r o :
  (authenticate c p f now ttl k).1 = AuthOutcome.Accepted c' exp conf →
  id ≠ pc_lookup_id p → id ≠ pc_lookup_id f →
  Forall (λ r, pc_lookup_id (req_fresh r) ≠ id) reqs →
  reqs !! i = Some r → pc_lookup_id (req_presented r) = id →
  (present_all c' reqs k').1 !! i = Some o → o = AuthOutcome.Rejected.
Proof.
  intros Ha Hp Hf Hfresh Hr Hid Ho.
  eapply present_all_dead_id; [|done|done|done|done].
  rewrite (authenticate_chain_ids _ _ _ _ _ _ _ _ _ Ha), !not_elem_of_cons.
  split_and!; [done|done|apply not_elem_of_nil].
Qed.

(** Revocation is final: no sequence of requests against a revoked chain has
    an accepted one, even for credentials that were valid when it was revoked. *)
Theorem revoked_rejects_all c reqs k :
  Forall (λ o, o = AuthOutcome.Rejected) (present_all (CredentialChain_revoke c) reqs k).1.
Proof. by apply present_all_revoked. Qed.

(** Reconnect recovery works: the credential issued by an accepted request
    authenticates on its own until it expires, whether or not its predecessor is
    still in grace, and the chain then reports itself active. *)
Theorem issued_credential_authenticates c p f now ttl k c' exp conf f' now' ttl' k' :
  (authenticate c p f now ttl k).1 = AuthOutcome.Accepted c' exp conf →
  (now' < exp)%Z → (0 < ttl')%Z → pc_kind f' = CredentialKind.Runtime →
  ∃ c'' conf', (authenticate c' f f' now' ttl' k').1
      = AuthOutcome.Accepted c'' (now' + ttl') conf' ∧
    (pc_lookup_id p ≠ pc_lookup_id f → conf' = true) ∧
    CredentialChain_dimension c'' now' = CredentialDimension.CredentialActive.
Proof.
  intros Ha. pose proof (authenticate_chain_ids _ _ _ _ _ _ _ _ _ Ha) as Hids.
  apply authenticate_accepted in Ha as (_ & Hkf & -> & base & -> & _).
  intros Hnow Httl Hk. injection Hids as Hbase.
  set (c' := {| chain_predecessor := base |}). set (m := slot_matches base f now').
  exists {| chain_predecessor := if m then base else minted_slot f now ttl k;
       chain_successor := Some (minted_slot f' now' ttl' k'); chain_revoked := false |}, (negb m).
  split_and!.
  - apply authenticate_accepted. split_and!; [done..|]. eexists. split; [done|].
    simpl. fold m. destruct m; [done|]. by rewrite minted_slot_matches.
  - intros Hne. subst m. destruct (slot_matches base f now') eqn:Hm; [|done].
    apply slot_matches_id in Hm. congruence.
  - unfold CredentialChain_dimension, slot_valid_at. simpl.
    rewrite (proj2 (Z.ltb_lt now' (now' + ttl'))) by lia. by rewrite orb_true_r.
Qed.

(** Stored verifiers survive persistence: a hash written to its 48-byte column
    and read back is the same hash and still verifies the secret it was made from. *)
Theorem hash_persistence secret k :
  let h := (CredentialHash_of_bytes secret k).1 in
  CredentialHash_from_bytes (CredentialHash_to_bytes h) = h ∧
  length (CredentialHash_to_bytes h) = 48 ∧
  verify_bytes (CredentialHash_from_bytes (CredentialHash_to_bytes h)) secret = true.
Proof.
  simpl. rewrite hash_from_to_bytes. split_and!; [done| |apply verify_of_bytes].
  rewrite hash_bytes_app. by autorewrite with bamep.
Qed.
End Properties.

(** ** Concrete runs *)

Module CredentialExamples.
Import Reference.
#[local] Existing Instances base64 base64_laws base64_strict toy_sha256 counter_entropy.

Definition cred (kind : CredentialKind.t) (n : N) : PresentedCredential :=
  {| pc_kind := kind; pc_lookup_id := be_array 16 n; pc_secret := be_array 32 (n + 1000) |}.

Definition run_cred := cred CredentialKind.Runtime.

Definition slot (n : N) (exp : Instant) : CredentialSlot :=
  {| cs_lookup_id := be_array 16 n;
     cs_hash := of_bytes_with_salt (array_bytes (pc_secret (run_cred n))) (be_array 16 7);
     cs_issued_at := 0; cs_expires_at := exp |}.

(** A predecessor 1 in grace and an unconfirmed successor 2. *)
Definition chain12 : CredentialChain :=
  {| chain_predecessor := slot 1 100; chain_successor := Some (slot 2 100);
     chain_revoked := false |}.

(** Presenting 2 confirms it and issues 3. *)
Definition chain23 : CredentialChain :=
  {| chain_predecessor := slot 2 100;
     chain_successor := Some (minted_slot (run_cred 3) 10 100 0); chain_revoked := false |}.

Definition request (presented fresh : N) (now : Instant) : auth_request :=
  {| req_presented := run_cred presented; req_fresh := run_cred fresh;
     req_now := now; req_ttl := 100 |}.

Lemma parse_iff_wire_value_witness :
  PresentedCredential_parse (to_wire_value (cred CredentialKind.Enrollment 5))
  = Ok (cred CredentialKind.Enrollment 5).
Proof. apply parse_iff_wire_value. reflexivity. Defined.

Lemma rotation_retires_witness :
  (authenticate chain12 (run_cred 2) (run_cred 3) 10 100 0).1
    = AuthOutcome.Accepted chain23 110 true ∧
  (present_all chain23 [request 3 4 20; request 1 5 30] 1).1 !! 1 = Some AuthOutcome.Rejected.
Proof.
  assert ((authenticate chain12 (run_cred 2) (run_cred 3) 10 100 0).1
    = AuthOutcome.Accepted chain23 110 true) as Ha by (vm_compute; reflexivity).
  split; [done|].
  destruct ((present_all chain23 [request 3 4 20; request 1 5 30] 1).1 !! 1) as [o|] eqn:Ho.
  - f_equal. apply (rotation_retires chain12 (run_cred 2) (run_cred 3) 10 100 0 chain23 110 true
      (pc_lookup_id (run_cred 1)) [request 3 4 20; request 1 5 30] 1 1 (request 1 5 30)).
    + done.
    + apply (bool_decide_eq_false_1 (_ = _)). vm_compute. reflexivity.
    + apply (bool_decide_eq_false_1 (_ = _)). vm_compute. reflexivity.
    + repeat constructor; apply (bool_decide_eq_false_1 (_ = _)); vm_compute; reflexivity.
    + done.
    + done.
    + done.
  - vm_compute in Ho. discriminate.
Defined.

Lemma issued_credential_authenticates_witness :
  ∃ c'' conf', (authenticate chain23 (run_cred 3) (run_cred 4) 50 100 1).1
      = AuthOutcome.Accepted c'' (50 + 100) conf' ∧
    (pc_lookup_id (run_cred 2) ≠ pc_lookup_id (run_cred 3) → conf' = true) ∧
    CredentialChain_dimension c'' 50 = CredentialDimension.CredentialActive.
Proof.
  apply (issued_credential_authenticates chain12 (run_cred 2) (run_cred 3) 10 100 0 chain23 110
    true); [vm_compute; reflexivity|lia|lia|reflexivity].
Defined.
End CredentialExamples.
