(* ===== verification/Endpoint.v ===== *)
(** * The Endpoint aggregate, domain events and inventory revisions

    Models [crates/domain/src/identity.rs], [hardware_confidence.rs],
    [current_boot.rs], [endpoint.rs], [events.rs] and [inventory.rs]. *)

From stdpp Require Import prelude gmap strings.
From Stdlib Require Import Strings.Byte NArith ZArith.
From S2P Require Import Prelude.
From S2P Require Import External.
From S2P Require Import Credential.

(** The identifiers of the domain are all UUID newtypes. *)
Abbreviation EndpointId := Uuid.
Abbreviation JobId := Uuid.
Abbreviation JobStepId := Uuid.
Abbreviation AttemptId := Uuid.
Abbreviation ActionId := Uuid.
Abbreviation InventoryRevisionId := Uuid.

(** ** Identity lifecycle *)

Module IdentityState.
Inductive t : Type := PendingEnrollment | Enrolled | Retired.
#[global] Instance t_eq_dec : EqDecision t.
Proof. solve_decision. Defined.
End IdentityState.

Record InvalidIdentityTransition : Type := {
  iit_from : IdentityState.t;
  iit_attempted : str;
}.

Definition approve (state : IdentityState.t) : result InvalidIdentityTransition IdentityState.t :=
  match state with
  | IdentityState.PendingEnrollment => Ok IdentityState.Enrolled
  | other => Err {| iit_from := other; iit_attempted := lit "Enrolled" |}
  end.

Definition retire (state : IdentityState.t) : result InvalidIdentityTransition IdentityState.t :=
  match state with
  | IdentityState.Enrolled => Ok IdentityState.Retired
  | other => Err {| iit_from := other; iit_attempted := lit "Retired" |}
  end.

(** ** Hardware confidence *)

Module HardwareConfidence.
Inductive t : Type := Consistent | LoweredConfidence | Conflict.
#[global] Instance t_eq_dec : EqDecision t.
Proof. solve_decision. Defined.

Definition initial : t := Consistent.
End HardwareConfidence.

(** ** Current boot *)

Definition BOOT_NONCE_BYTES : nat := 32.
Abbreviation BootNonce := (array BOOT_NONCE_BYTES).

Module TrustedBootstrapState.
Inductive t : Type := NotEstablished | Established.
#[global] Instance t_eq_dec : EqDecision t.
Proof. solve_decision. Defined.
End TrustedBootstrapState.

Record CurrentBoot : Type := {
  cb_boot_context_id : CredentialLookupId;
  cb_boot_nonce : BootNonce;
  cb_trusted_bootstrap : TrustedBootstrapState.t;
}.

#[global] Instance CurrentBoot_eq_dec : EqDecision CurrentBoot.
Proof. solve_decision. Defined.

Definition CurrentBoot_establish_trusted_bootstrap (b : CurrentBoot) : CurrentBoot :=
  {| cb_boot_context_id := cb_boot_context_id b; cb_boot_nonce := cb_boot_nonce b;
     cb_trusted_bootstrap := TrustedBootstrapState.Established |}.

(** ** The aggregate *)

Record EndpointAggregate : Type := {
  ep_id : EndpointId;
  ep_inventory_signal : str;
  ep_identity : IdentityState.t;
  ep_credential : CredentialChain;
  ep_hardware_confidence : HardwareConfidence.t;
  ep_current_boot : option CurrentBoot;
  ep_created_at : Instant;
  ep_updated_at : Instant;
}.

#[global] Instance EndpointAggregate_eq_dec : EqDecision EndpointAggregate.
Proof. solve_decision. Defined.

(** ** Domain events and audit records *)

Module Actor.
Inductive t : Type := Operator (label : str) | System.
#[global] Instance t_eq_dec : EqDecision t.
Proof. solve_decision. Defined.
End Actor.

Module DomainEvent.
Inductive t : Type :=
| EndpointPendingEnrollment (event_id : Uuid) (endpoint_id : EndpointId) (occurred_at : Instant)
| EndpointEnrolled (event_id : Uuid) (endpoint_id : EndpointId) (occurred_at : Instant)
| OperatorDecisionRecorded (event_id : Uuid) (endpoint_id : EndpointId) (decision : str)
    (actor : Actor.t) (occurred_at : Instant)
| InventoryRevisionRecorded (event_id : Uuid) (endpoint_id : EndpointId)
    (inventory_revision_id : InventoryRevisionId) (occurred_at : Instant)
| JobStarted (event_id : Uuid) (job_id : JobId) (endpoint_id : EndpointId) (occurred_at : Instant)
| JobSucceeded (event_id : Uuid) (job_id : JobId) (endpoint_id : EndpointId)
    (occurred_at : Instant)
| JobFailed (event_id : Uuid) (job_id : JobId) (endpoint_id : EndpointId) (occurred_at : Instant)
| JobStepFailed (event_id : Uuid) (job_id : JobId) (job_step_id : JobStepId)
    (endpoint_id : EndpointId) (occurred_at : Instant)
| JobCancelled (event_id : Uuid) (job_id : JobId) (endpoint_id : EndpointId)
    (occurred_at : Instant)
| AttemptIndeterminate (event_id : Uuid) (job_id : JobId) (job_step_id : JobStepId)
    (attempt_id : AttemptId) (endpoint_id : EndpointId) (occurred_at : Instant).
#[global] Instance t_eq_dec : EqDecision t.
Proof. solve_decision. Defined.

Definition event_id (e : t) : Uuid :=
  match e with
  | EndpointPendingEnrollment i _ _ | EndpointEnrolled i _ _
  | OperatorDecisionRecorded i _ _ _ _ | InventoryRevisionRecorded i _ _ _
  | JobStarted i _ _ _ | JobSucceeded i _ _ _ | JobFailed i _ _ _
  | JobStepFailed i _ _ _ _ | JobCancelled i _ _ _ | AttemptIndeterminate i _ _ _ _ _ => i
  end.

Definition endpoint_id (e : t) : EndpointId :=
  match e with
  | EndpointPendingEnrollment _ i _ | EndpointEnrolled _ i _
  | OperatorDecisionRecorded _ i _ _ _ | InventoryRevisionRecorded _ i _ _
  | JobStarted _ _ i _ | JobSucceeded _ _ i _ | JobFailed _ _ i _
  | JobStepFailed _ _ _ i _ | JobCancelled _ _ i _ | AttemptIndeterminate _ _ _ _ i _ => i
  end.

Definition occurred_at (e : t) : Instant :=
  match e with
  | EndpointPendingEnrollment _ _ o | EndpointEnrolled _ _ o
  | OperatorDecisionRecorded _ _ _ _ o | InventoryRevisionRecorded _ _ _ o
  | JobStarted _ _ _ o | JobSucceeded _ _ _ o | JobFailed _ _ _ o
  | JobStepFailed _ _ _ _ o | JobCancelled _ _ _ o | AttemptIndeterminate _ _ _ _ _ o => o
  end.

Definition job_id (e : t) : option JobId :=
  match e with
  | JobStarted _ j _ _ | JobSucceeded _ j _ _ | JobFailed _ j _ _
  | JobStepFailed _ j _ _ _ | JobCancelled _ j _ _ | AttemptIndeterminate _ j _ _ _ _ => Some j
  | _ => None
  end.

Definition job_step_id (e : t) : option JobStepId :=
  match e with
  | JobStepFailed _ _ s _ _ | AttemptIndeterminate _ _ s _ _ _ => Some s
  | _ => None
  end.

Definition attempt_id (e : t) : option AttemptId :=
  match e with AttemptIndeterminate _ _ _ a _ _ => Some a | _ => None end.
End DomainEvent.

Record AuditRecord : Type := {
  au_audit_id : Uuid;
  au_endpoint_id : EndpointId;
  au_actor : Actor.t;
  au_occurred_at : Instant;
  au_detail : str;
  au_job_id : option JobId;
  au_job_step_id : option JobStepId;
  au_attempt_id : option AttemptId;
  au_action_id : option ActionId;
}.

#[global] Instance AuditRecord_eq_dec : EqDecision AuditRecord.
Proof. solve_decision. Defined.

Record TransitionOutcome : Type := {
  to_endpoint : EndpointAggregate;
  to_events : list DomainEvent.t;
  to_audit : option AuditRecord;
}.

(** ** Inventory revisions

    An inventory snapshot is an opaque JSON object compared for equality only:
    its type is a parameter with decidable equality. *)
Section Inventory.
Context {InventorySnapshot : Type} `{!EqDecision InventorySnapshot} `{Entropy}.

Record InventoryRevision : Type := {
  ir_id : InventoryRevisionId;
  ir_endpoint_id : EndpointId;
  ir_snapshot : InventorySnapshot;
  ir_recorded_at : Instant;
}.

Record InventoryRevisionChange : Type := {
  irc_revision : InventoryRevision;
  irc_event : DomainEvent.t;
}.

Definition record_inventory_on_change (endpoint_id : EndpointId)
    (current : option InventoryRevision) (observed : InventorySnapshot) (now : Instant)
  : Gen (option InventoryRevisionChange) :=
  if match current with
     | Some revision => bool_decide (ir_snapshot revision = observed)
     | None => false
     end
  then mret None
  else
    revision_id ← new_v4;
    event_id ← new_v4;
    mret (Some {|
      irc_revision := {| ir_id := revision_id; ir_endpoint_id := endpoint_id;
                         ir_snapshot := observed; ir_recorded_at := now |};
      irc_event := DomainEvent.InventoryRevisionRecorded event_id endpoint_id revision_id now |}).
End Inventory.
Arguments InventoryRevision : clear implicits.
Arguments InventoryRevisionChange : clear implicits.
