(* ===== verification/Enrollment.v ===== *)
(** * Boot contexts and enrollment transitions

    Models [crates/domain/src/boot_context.rs] and
    [crates/domain/src/transitions.rs]. *)

From stdpp Require Import prelude gmap strings.
From Stdlib Require Import Strings.Byte NArith ZArith.
From S2P Require Import Prelude.
From S2P Require Import External.
From S2P Require Import Credential.
From S2P Require Import Endpoint.

(** ** [BootContext] *)

Record BootContext : Type := {
  bc_boot_context_id : CredentialLookupId;
  bc_verifier : CredentialHash;
  bc_issued_at : Instant;
  bc_expires_at : Instant;
  bc_inventory_signal : str;
  bc_boot_nonce : BootNonce;
  bc_resolved_endpoint_id : option EndpointId;
}.

#[global] Instance BootContext_eq_dec : EqDecision BootContext.
Proof. solve_decision. Defined.

(** The resolution this context already has. *)
Record BootContextResolveError : Type := { bcre_existing : EndpointId }.

Definition BootContext_new (boot_context_id : CredentialLookupId) (verifier : CredentialHash)
    (issued_at expires_at : Instant) (inventory_signal : str) (boot_nonce : BootNonce)
  : BootContext :=
  {| bc_boot_context_id := boot_context_id; bc_verifier := verifier; bc_issued_at := issued_at;
     bc_expires_at := expires_at; bc_inventory_signal := inventory_signal;
     bc_boot_nonce := boot_nonce; bc_resolved_endpoint_id := None |}.

Definition BootContext_from_parts (boot_context_id : CredentialLookupId)
    (verifier : CredentialHash) (issued_at expires_at : Instant) (inventory_signal : str)
    (resolved_endpoint_id : option EndpointId) (boot_nonce : BootNonce) : BootContext :=
  {| bc_boot_context_id := boot_context_id; bc_verifier := verifier; bc_issued_at := issued_at;
     bc_expires_at := expires_at; bc_inventory_signal := inventory_signal;
     bc_boot_nonce := boot_nonce; bc_resolved_endpoint_id := resolved_endpoint_id |}.

Definition BootContext_resolve (c : BootContext) (endpoint_id : EndpointId)
  : result BootContextResolveError BootContext :=
  match bc_resolved_endpoint_id c with
  | None =>
      Ok {| bc_boot_context_id := bc_boot_context_id c; bc_verifier := bc_verifier c;
            bc_issued_at := bc_issued_at c; bc_expires_at := bc_expires_at c;
            bc_inventory_signal := bc_inventory_signal c; bc_boot_nonce := bc_boot_nonce c;
            bc_resolved_endpoint_id := Some endpoint_id |}
  | Some existing =>
      if bool_decide (existing = endpoint_id) then Ok c
      else Err {| bcre_existing := existing |}
  end.

Definition BootContext_valid_at (c : BootContext) (now : Instant) : bool :=
  (now <? bc_expires_at c)%Z.

Definition BootContext_verify_secret `{Sha256} (c : BootContext)
    (presented : PresentedCredentialSecret) : bool :=
  verify_bytes (bc_verifier c) (array_bytes presented).

(** ** Outcomes *)

Module RedeemOutcome.
Inductive t : Type :=
| Established (outcome : TransitionOutcome) (issued : PresentedCredential)
    (issued_expires_at : Instant) (first_contact successor_confirmed : bool)
    (resolved_boot_context : option BootContext)
| Rejected.
End RedeemOutcome.

Module TrustedBootstrapOutcome.
Inductive t : Type := Established (outcome : TransitionOutcome) | Rejected.
End TrustedBootstrapOutcome.

(** ** Transitions *)

Definition establish_trusted_bootstrap (aggregate : EndpointAggregate)
    (verified_current_nonce : BootNonce) : TrustedBootstrapOutcome.t :=
  match ep_current_boot aggregate with
  | None => TrustedBootstrapOutcome.Rejected
  | Some current_boot =>
      if negb (bool_decide (cb_boot_nonce current_boot = verified_current_nonce))
      then TrustedBootstrapOutcome.Rejected
      else TrustedBootstrapOutcome.Established {|
        to_endpoint := {|
          ep_id := ep_id aggregate;
          ep_inventory_signal := ep_inventory_signal aggregate;
          ep_identity := ep_identity aggregate;
          ep_credential := ep_credential aggregate;
          ep_hardware_confidence := ep_hardware_confidence aggregate;
          ep_current_boot := Some (CurrentBoot_establish_trusted_bootstrap current_boot);
          ep_created_at := ep_created_at aggregate;
          ep_updated_at := ep_updated_at aggregate |};
        to_events := []; to_audit := None |}
  end.

Section Transitions.
Context `{Entropy, Sha256}.

Definition boot_context_credential_is_valid (context : BootContext)
    (presented : PresentedCredential) (now : Instant) : bool :=
  bool_decide (pc_kind presented = CredentialKind.Enrollment)
  && bool_decide (pc_lookup_id presented = bc_boot_context_id context)
  && BootContext_valid_at context now
  && BootContext_verify_secret context (pc_secret presented).

Definition first_contact (context : BootContext) (presented fresh_successor : PresentedCredential)
    (now : Instant) (ttl : Duration) : Gen (result BootContextResolveError RedeemOutcome.t) :=
  if bool_decide (is_Some (bc_resolved_endpoint_id context)) then mret (Ok RedeemOutcome.Rejected)
  else if negb (boot_context_credential_is_valid context presented now)
  then mret (Ok RedeemOutcome.Rejected)
  else
    chain ← CredentialChain_establish (pc_lookup_id presented) (bc_verifier context)
              fresh_successor now ttl;
    match chain with
    | None => mret (Ok RedeemOutcome.Rejected)
    | Some chain =>
        id ← new_v4;
        let aggregate := {|
          ep_id := id;
          ep_inventory_signal := bc_inventory_signal context;
          ep_identity := IdentityState.PendingEnrollment;
          ep_credential := chain;
          ep_hardware_confidence := HardwareConfidence.initial;
          ep_current_boot := Some {|
            cb_boot_context_id := bc_boot_context_id context;
            cb_boot_nonce := bc_boot_nonce context;
            cb_trusted_bootstrap := TrustedBootstrapState.NotEstablished |};
          ep_created_at := now;
          ep_updated_at := now |} in
        event_id ← new_v4;
        let event := DomainEvent.EndpointPendingEnrollment event_id id now in
        mret (resolved_context ← BootContext_resolve context id;
              Ok (RedeemOutcome.Established
                    {| to_endpoint := aggregate; to_events := [event]; to_audit := None |}
                    fresh_successor (now + ttl)%Z true false (Some resolved_context)))
    end.

Definition redeem_known (aggregate : EndpointAggregate)
    (presented fresh_successor : PresentedCredential) (now : Instant) (ttl : Duration)
  : Gen RedeemOutcome.t :=
  auth ← authenticate (ep_credential aggregate) presented fresh_successor now ttl;
  mret match auth with
  | AuthOutcome.Accepted chain issued_expires_at successor_confirmed =>
      RedeemOutcome.Established
        {| to_endpoint := {|
             ep_id := ep_id aggregate;
             ep_inventory_signal := ep_inventory_signal aggregate;
             ep_identity := ep_identity aggregate;
             ep_credential := chain;
             ep_hardware_confidence := ep_hardware_confidence aggregate;
             ep_current_boot := ep_current_boot aggregate;
             ep_created_at := ep_created_at aggregate;
             ep_updated_at := now |};
           to_events := []; to_audit := None |}
        fresh_successor issued_expires_at false successor_confirmed None
  | AuthOutcome.Rejected => RedeemOutcome.Rejected
  end.

Definition genuine_reboot (context : BootContext) (candidate : EndpointAggregate)
    (presented fresh_successor : PresentedCredential) (now : Instant) (ttl : Duration)
  : Gen (result BootContextResolveError RedeemOutcome.t) :=
  if bool_decide (is_Some (bc_resolved_endpoint_id context)) then mret (Ok RedeemOutcome.Rejected)
  else if negb (boot_context_credential_is_valid context presented now)
  then mret (Ok RedeemOutcome.Rejected)
  else if chain_revoked (ep_credential candidate) then mret (Ok RedeemOutcome.Rejected)
  else
    chain ← CredentialChain_establish (pc_lookup_id presented) (bc_verifier context)
              fresh_successor now ttl;
    mret match chain with
    | None => Ok RedeemOutcome.Rejected
    | Some chain =>
        resolved_context ← BootContext_resolve context (ep_id candidate);
        Ok (RedeemOutcome.Established
              {| to_endpoint := {|
                   ep_id := ep_id candidate;
                   ep_inventory_signal := ep_inventory_signal candidate;
                   ep_identity := ep_identity candidate;
                   ep_credential := chain;
                   ep_hardware_confidence := ep_hardware_confidence candidate;
                   ep_current_boot := Some {|
                     cb_boot_context_id := bc_boot_context_id context;
                     cb_boot_nonce := bc_boot_nonce context;
                     cb_trusted_bootstrap := TrustedBootstrapState.NotEstablished |};
                   ep_created_at := ep_created_at candidate;
                   ep_updated_at := now |};
                 to_events := []; to_audit := None |}
              fresh_successor (now + ttl)%Z false false (Some resolved_context))
    end.

Definition approve_enrollment (aggregate : EndpointAggregate) (operator : Actor.t) (now : Instant)
  : Gen (result InvalidIdentityTransition TransitionOutcome) :=
  match approve (ep_identity aggregate) with
  | Err e => mret (Err e)
  | Ok new_identity =>
      enrolled_id ← new_v4;
      decision_id ← new_v4;
      audit_id ← new_v4;
      let enrolled_event := DomainEvent.EndpointEnrolled enrolled_id (ep_id aggregate) now in
      let decision_event := DomainEvent.OperatorDecisionRecorded decision_id (ep_id aggregate)
                              (lit "EnrollmentApproved") operator now in
      let audit := {|
        au_audit_id := audit_id; au_endpoint_id := ep_id aggregate; au_actor := operator;
        au_occurred_at := now; au_detail := lit "EnrollmentApproved";
        au_job_id := None; au_job_step_id := None; au_attempt_id := None;
        au_action_id := None |} in
      mret (Ok {|
        to_endpoint := {|
          ep_id := ep_id aggregate;
          ep_inventory_signal := ep_inventory_signal aggregate;
          ep_identity := new_identity;
          ep_credential := ep_credential aggregate;
          ep_hardware_confidence := ep_hardware_confidence aggregate;
          ep_current_boot := ep_current_boot aggregate;
          ep_created_at := ep_created_at aggregate;
          ep_updated_at := now |};
        to_events := [enrolled_event; decision_event]; to_audit := Some audit |})
  end.
End Transitions.

Definition revoke_credential (aggregate : EndpointAggregate) (now : Instant)
  : TransitionOutcome :=
  {| to_endpoint := {|
       ep_id := ep_id aggregate;
       ep_inventory_signal := ep_inventory_signal aggregate;
       ep_identity := ep_identity aggregate;
       ep_credential := CredentialChain_revoke (ep_credential aggregate);
       ep_hardware_confidence := ep_hardware_confidence aggregate;
       ep_current_boot := ep_current_boot aggregate;
       ep_created_at := ep_created_at aggregate;
       ep_updated_at := now |};
     to_events := []; to_audit := None |}.
