(* ===== verification/EnrollmentStore.v ===== *)
(** * The enrollment tables and the transactions on them

    Models [crates/server/src/adapters/postgres/shared.rs],
    [credential_redemption_repository.rs], [repository.rs] and
    [boot_context_repository.rs] over the tables of
    [crates/server/migrations/0001_initial_schema.sql], and the services
    [EnrollmentService] and [BootOrchestrationService] of
    [crates/server/src/application/mod.rs].

    Each repository call is one transaction that locks every row it decides on
    (plus an advisory lock per inventory signal), so a run of the Server is a
    sequence of whole transactions. A failed statement rolls its transaction
    back: the operation returns its error and leaves the tables as they were. *)

From stdpp Require Import prelude gmap strings.
From Stdlib Require Import Strings.Byte NArith ZArith.
From S2P Require Import Prelude.
From S2P Require Import External.
From S2P Require Import Credential.
From S2P Require Import Endpoint.
From S2P Require Import Enrollment.

(** ** Rows *)

Module SlotRole.
Inductive t : Type := Predecessor | Successor.
#[global] Instance t_eq_dec : EqDecision t.
Proof. solve_decision. Defined.
#[global] Program Instance t_countable : Countable t :=
  inj_countable' (λ r, match r with Predecessor => true | Successor => false end)
    (λ b, if b : bool then Predecessor else Successor) _.
Next Obligation. by intros []. Qed.
End SlotRole.

Record EndpointRow : Type := {
  er_inventory_signal : str;
  er_identity_state : IdentityState.t;
  er_hardware_confidence : HardwareConfidence.t;
  er_created_at : Instant;
  er_updated_at : Instant;
  er_current_boot_context_id : option (list byte);
  er_current_boot_nonce : option (list byte);
  er_trusted_bootstrap_state : option TrustedBootstrapState.t;
}.

Record CredentialRow : Type := {
  cr_predecessor_verifier : list byte;
  cr_predecessor_issued_at : Instant;
  cr_predecessor_expires_at : Instant;
  cr_successor_verifier : option (list byte);
  cr_successor_issued_at : option Instant;
  cr_successor_expires_at : option Instant;
  cr_revoked : bool;
}.

Record BootContextRow : Type := {
  br_verifier : list byte;
  br_issued_at : Instant;
  br_expires_at : Instant;
  br_inventory_signal : str;
  br_resolved_endpoint_id : option EndpointId;
  br_boot_nonce : option (list byte);
}.

(** The tables, keyed by primary key. Domain events and audit records are only
    ever inserted; no path reads them back. *)
Record EnrollDb : Type := {
  db_endpoints : gmap EndpointId EndpointRow;
  db_credentials : gmap EndpointId CredentialRow;
  db_lookups : gmap (EndpointId * SlotRole.t) (list byte);
  db_boot_contexts : gmap (list byte) BootContextRow;
  db_events : gmap Uuid DomainEvent.t;
  db_audits : gmap Uuid AuditRecord;
}.

Definition empty_db : EnrollDb :=
  {| db_endpoints := ∅; db_credentials := ∅; db_lookups := ∅; db_boot_contexts := ∅;
     db_events := ∅; db_audits := ∅ |}.

(** [RepositoryError::Backend(_)], by the reason its message gives. *)
Module Backend.
Inductive t : Type :=
| UniqueViolation
| CheckViolation
| MissingEndpoint (id : EndpointId)
| MissingPredecessorLookup
| SuccessorMismatch
| UnexpectedNull
| BadLength
| PartialCurrentBoot
| MissingBootNonce
| ResolveConflict (existing : EndpointId)
| ContractViolation
| MissingRow
| InvariantViolation
| RetryBudgetExceeded.
End Backend.

Module EndpointUpdateError.
Inductive t : Type :=
| NotFound (id : EndpointId)
| InvalidTransition (e : InvalidIdentityTransition)
| Repository (e : Backend.t).
End EndpointUpdateError.

(** ** Reading rows *)

Definition verifier_from_bytes (bytes : list byte) : result Backend.t CredentialHash :=
  array ← ok_or Backend.BadLength (try_into 48 bytes);
  Ok (CredentialHash_from_bytes (array_bytes array)).

Definition lookup_id_from_bytes (bytes : list byte) : result Backend.t CredentialLookupId :=
  ok_or Backend.BadLength (try_into 16 bytes).

Definition row_to_current_boot (row : EndpointRow) : result Backend.t (option CurrentBoot) :=
  match er_current_boot_context_id row, er_current_boot_nonce row,
        er_trusted_bootstrap_state row with
  | None, None, None => Ok None
  | Some id_bytes, Some nonce_bytes, Some state =>
      boot_context_id ← lookup_id_from_bytes id_bytes;
      nonce ← ok_or Backend.BadLength (try_into 32 nonce_bytes);
      Ok (Some {| cb_boot_context_id := boot_context_id; cb_boot_nonce := nonce;
                  cb_trusted_bootstrap := state |})
  | _, _, _ => Err Backend.PartialCurrentBoot
  end.

Definition row_to_aggregate (id : EndpointId) (e : EndpointRow) (c : CredentialRow)
    (predecessor_lookup_id successor_lookup_id : option (list byte))
  : result Backend.t EndpointAggregate :=
  current_boot ← row_to_current_boot e;
  predecessor_lookup_id ← ok_or Backend.MissingPredecessorLookup predecessor_lookup_id;
  plookup ← lookup_id_from_bytes predecessor_lookup_id;
  phash ← verifier_from_bytes (cr_predecessor_verifier c);
  let predecessor := {| cs_lookup_id := plookup; cs_hash := phash;
                        cs_issued_at := cr_predecessor_issued_at c;
                        cs_expires_at := cr_predecessor_expires_at c |} in
  successor ← match cr_successor_verifier c, successor_lookup_id with
    | Some verifier_bytes, Some lookup_bytes =>
        slookup ← lookup_id_from_bytes lookup_bytes;
        shash ← verifier_from_bytes verifier_bytes;
        issued_at ← ok_or Backend.UnexpectedNull (cr_successor_issued_at c);
        expires_at ← ok_or Backend.UnexpectedNull (cr_successor_expires_at c);
        Ok (Some {| cs_lookup_id := slookup; cs_hash := shash;
                    cs_issued_at := issued_at; cs_expires_at := expires_at |})
    | None, None => Ok None
    | _, _ => Err Backend.SuccessorMismatch
    end;
  Ok {| ep_id := id;
        ep_inventory_signal := er_inventory_signal e;
        ep_identity := er_identity_state e;
        ep_credential := {| chain_predecessor := predecessor; chain_successor := successor;
                            chain_revoked := cr_revoked c |};
        ep_hardware_confidence := er_hardware_confidence e;
        ep_current_boot := current_boot;
        ep_created_at := er_created_at e;
        ep_updated_at := er_updated_at e |}.

(** [endpoint_select!()] joins the credential row (inner) and both lookup rows (left). *)
Definition load_by_id_for_update (db : EnrollDb) (id : EndpointId)
  : result Backend.t (option EndpointAggregate) :=
  match db_endpoints db !! id, db_credentials db !! id with
  | Some e, Some c =>
      agg ← row_to_aggregate id e c (db_lookups db !! (id, SlotRole.Predecessor))
              (db_lookups db !! (id, SlotRole.Successor));
      Ok (Some agg)
  | _, _ => Ok None
  end.

Definition id_by_signal (db : EnrollDb) (signal : str) : option EndpointId :=
  fst <$> List.find (λ p, bool_decide (er_inventory_signal p.2 = signal))
            (map_to_list (db_endpoints db)).

Definition load_by_signal_for_update (db : EnrollDb) (signal : str)
  : result Backend.t (option EndpointAggregate) :=
  match id_by_signal db signal with
  | Some id => load_by_id_for_update db id
  | None => Ok None
  end.

Definition load_boot_context_for_update (db : EnrollDb) (boot_context_id : list byte)
  : result Backend.t (option BootContext) :=
  match db_boot_contexts db !! boot_context_id with
  | None => Ok None
  | Some row =>
      boot_nonce_bytes ← ok_or Backend.MissingBootNonce (br_boot_nonce row);
      boot_nonce ← ok_or Backend.BadLength (try_into 32 boot_nonce_bytes);
      id ← lookup_id_from_bytes boot_context_id;
      verifier ← verifier_from_bytes (br_verifier row);
      Ok (Some (BootContext_from_parts id verifier (br_issued_at row) (br_expires_at row)
                  (br_inventory_signal row) (br_resolved_endpoint_id row) boot_nonce))
  end.

(** ** Writing rows *)

(** [INSERT] against a primary key. *)
Definition insert_unique `{Countable K} {A} (k : K) (a : A) (m : gmap K A)
  : result Backend.t (gmap K A) :=
  match m !! k with Some _ => Err Backend.UniqueViolation | None => Ok (<[k := a]> m) end.

Fixpoint insert_events (events : list DomainEvent.t) (m : gmap Uuid DomainEvent.t)
  : result Backend.t (gmap Uuid DomainEvent.t) :=
  match events with
  | [] => Ok m
  | e :: rest => m' ← insert_unique (DomainEvent.event_id e) e m; insert_events rest m'
  end.

Definition insert_audit (audit : option AuditRecord) (m : gmap Uuid AuditRecord)
  : result Backend.t (gmap Uuid AuditRecord) :=
  match audit with None => Ok m | Some a => insert_unique (au_audit_id a) a m end.

Section Persist.
Context `{PgTimestamp}.

Definition endpoint_row (ep : EndpointAggregate) (signal : str) (created : Instant)
  : EndpointRow := {|
  er_inventory_signal := signal;
  er_identity_state := ep_identity ep;
  er_hardware_confidence := ep_hardware_confidence ep;
  er_created_at := created;
  er_updated_at := pg_timestamp (ep_updated_at ep);
  er_current_boot_context_id := (λ b, array_bytes (cb_boot_context_id b)) <$> ep_current_boot ep;
  er_current_boot_nonce := (λ b, array_bytes (cb_boot_nonce b)) <$> ep_current_boot ep;
  er_trusted_bootstrap_state := cb_trusted_bootstrap <$> ep_current_boot ep |}.

(** [INSERT INTO endpoints ... ON CONFLICT (id) DO UPDATE]: an existing row keeps
    its signal and creation time; a new one must have a signal of its own. *)
Definition upsert_endpoint (ep : EndpointAggregate) (m : gmap EndpointId EndpointRow)
  : result Backend.t (gmap EndpointId EndpointRow) :=
  match m !! ep_id ep with
  | Some old =>
      Ok (<[ep_id ep := endpoint_row ep (er_inventory_signal old) (er_created_at old)]> m)
  | None =>
      if existsb (λ p, bool_decide (er_inventory_signal p.2 = ep_inventory_signal ep))
           (map_to_list m)
      then Err Backend.UniqueViolation
      else Ok (<[ep_id ep := endpoint_row ep (ep_inventory_signal ep)
                               (pg_timestamp (ep_created_at ep))]> m)
  end.

Definition credential_row (c : CredentialChain) : CredentialRow := {|
  cr_predecessor_verifier := CredentialHash_to_bytes (cs_hash (chain_predecessor c));
  cr_predecessor_issued_at := pg_timestamp (cs_issued_at (chain_predecessor c));
  cr_predecessor_expires_at := pg_timestamp (cs_expires_at (chain_predecessor c));
  cr_successor_verifier := (λ s, CredentialHash_to_bytes (cs_hash s)) <$> chain_successor c;
  cr_successor_issued_at := (λ s, pg_timestamp (cs_issued_at s)) <$> chain_successor c;
  cr_successor_expires_at := (λ s, pg_timestamp (cs_expires_at s)) <$> chain_successor c;
  cr_revoked := chain_revoked c |}.

Definition persist_transition (db : EnrollDb) (outcome : TransitionOutcome)
  : result Backend.t EnrollDb :=
  let endpoint := to_endpoint outcome in
  endpoints ← upsert_endpoint endpoint (db_endpoints db);
  let credentials :=
    <[ep_id endpoint := credential_row (ep_credential endpoint)]> (db_credentials db) in
  events ← insert_events (to_events outcome) (db_events db);
  audits ← insert_audit (to_audit outcome) (db_audits db);
  Ok {| db_endpoints := endpoints; db_credentials := credentials;
        db_lookups := db_lookups db; db_boot_contexts := db_boot_contexts db;
        db_events := events; db_audits := audits |}.
End Persist.

(** [INSERT INTO endpoint_credential_lookups]: primary key (endpoint, slot) and a
    globally unique [lookup_id]. *)
Definition insert_lookup (id : EndpointId) (role : SlotRole.t) (lookup_id : list byte)
    (m : gmap (EndpointId * SlotRole.t) (list byte))
  : result Backend.t (gmap (EndpointId * SlotRole.t) (list byte)) :=
  if existsb (λ p, bool_decide (p.2 = lookup_id)) (map_to_list m) then Err Backend.UniqueViolation
  else insert_unique (id, role) lookup_id m.

Definition persist_lookup_projection (db : EnrollDb) (id : EndpointId) (chain : CredentialChain)
  : result Backend.t EnrollDb :=
  let lookups :=
    delete (id, SlotRole.Successor) (delete (id, SlotRole.Predecessor) (db_lookups db)) in
  lookups ← insert_lookup id SlotRole.Predecessor
              (array_bytes (cs_lookup_id (chain_predecessor chain))) lookups;
  lookups ← match chain_successor chain with
    | Some successor =>
        insert_lookup id SlotRole.Successor (array_bytes (cs_lookup_id successor)) lookups
    | None => Ok lookups
    end;
  Ok {| db_endpoints := db_endpoints db; db_credentials := db_credentials db;
        db_lookups := lookups; db_boot_contexts := db_boot_contexts db;
        db_events := db_events db; db_audits := db_audits db |}.

(** [UPDATE boot_contexts SET resolved_endpoint_id]. *)
Definition persist_boot_context_resolution (db : EnrollDb) (context : BootContext) : EnrollDb :=
  {| db_endpoints := db_endpoints db; db_credentials := db_credentials db;
     db_lookups := db_lookups db;
     db_boot_contexts :=
       alter (λ row, {| br_verifier := br_verifier row; br_issued_at := br_issued_at row;
                        br_expires_at := br_expires_at row;
                        br_inventory_signal := br_inventory_signal row;
                        br_resolved_endpoint_id := bc_resolved_endpoint_id context;
                        br_boot_nonce := br_boot_nonce row |})
         (array_bytes (bc_boot_context_id context)) (db_boot_contexts db);
     db_events := db_events db; db_audits := db_audits db |}.

(** ** Credential redemption *)

Module RedemptionTarget.
Inductive t : Type :=
| Endpoint (aggregate : EndpointAggregate)
| UnresolvedBootContext (context : BootContext) (candidate_endpoint : option EndpointAggregate)
| UnknownBootContext
| UnknownCredential.
End RedemptionTarget.

(** [SELECT endpoint_id FROM endpoint_credential_lookups WHERE lookup_id = $1]. *)
Definition endpoint_by_lookup (db : EnrollDb) (lookup_bytes : list byte) : option EndpointId :=
  (λ p : EndpointId * SlotRole.t * list byte, p.1.1) <$>
    List.find (λ p, bool_decide (p.2 = lookup_bytes)) (map_to_list (db_lookups db)).

Definition route (db : EnrollDb) (kind : CredentialKind.t) (lookup_id : CredentialLookupId)
  : result Backend.t RedemptionTarget.t :=
  let lookup_bytes := array_bytes lookup_id in
  match endpoint_by_lookup db lookup_bytes with
  | Some endpoint_id =>
      loaded ← load_by_id_for_update db endpoint_id;
      aggregate ← ok_or (Backend.MissingEndpoint endpoint_id) loaded;
      Ok (RedemptionTarget.Endpoint aggregate)
  | None =>
      if bool_decide (kind = CredentialKind.Runtime) then Ok RedemptionTarget.UnknownCredential
      else
        loaded ← load_boot_context_for_update db lookup_bytes;
        match loaded with
        | None => Ok RedemptionTarget.UnknownBootContext
        | Some context =>
            match bc_resolved_endpoint_id context with
            | Some resolved_id =>
                loaded ← load_by_id_for_update db resolved_id;
                aggregate ← ok_or (Backend.MissingEndpoint resolved_id) loaded;
                Ok (RedemptionTarget.Endpoint aggregate)
            | None =>
                candidate ← load_by_signal_for_update db (bc_inventory_signal context);
                Ok (RedemptionTarget.UnresolvedBootContext context candidate)
            end
        end
  end.

Definition is_unknown (target : RedemptionTarget.t) : bool :=
  match target with
  | RedemptionTarget.UnknownBootContext | RedemptionTarget.UnknownCredential => true
  | _ => false
  end.

Definition RedemptionDecision : Type :=
  RedemptionTarget.t → Gen (result BootContextResolveError RedeemOutcome.t).

Module RedeemResult.
Inductive t : Type :=
| Established (endpoint_id : EndpointId) (runtime_credential : PresentedCredential)
    (credential_expires_at : Instant)
| Rejected.
End RedeemResult.

(** The operations a run of the Server performs on these tables. *)
Module EnrollOp.
Inductive t : Type :=
| Issue (signal : str) (nonce : BootNonce) (now : Instant) (ttl : Duration)
| Redeem (wire : str) (now : Instant) (ttl : Duration)
| Approve (id : EndpointId) (operator : Actor.t) (now : Instant)
| Revoke (id : EndpointId) (now : Instant)
| EstablishTrust (id : EndpointId) (nonce : BootNonce).
End EnrollOp.

Section Repositories.
Context `{Entropy, Sha256, PgTimestamp}.

(** The three writes of an accepted redemption, in one transaction. *)
Definition persist_redemption (db : EnrollDb) (outcome : TransitionOutcome)
    (resolved : option BootContext) : result Backend.t EnrollDb :=
  db ← persist_transition db outcome;
  db ← persist_lookup_projection db (ep_id (to_endpoint outcome))
         (ep_credential (to_endpoint outcome));
  Ok match resolved with
     | Some context => persist_boot_context_resolution db context
     | None => db
     end.

Definition repo_redeem (db : EnrollDb) (kind : CredentialKind.t) (lookup_id : CredentialLookupId)
    (decide : RedemptionDecision) : Gen (EnrollDb * result Backend.t RedeemOutcome.t) :=
  match route db kind lookup_id with
  | Err e => mret (db, Err e)
  | Ok target =>
      decision ← decide target;
      mret match decision with
      | Ok (RedeemOutcome.Established outcome issued issued_expires_at first_contact
              successor_confirmed resolved_boot_context as established) =>
          if is_unknown target then (db, Err Backend.ContractViolation)
          else
            match persist_redemption db outcome resolved_boot_context with
            | Err e => (db, Err e)
            | Ok db' => (db', Ok established)
            end
      | Ok RedeemOutcome.Rejected => (db, Ok RedeemOutcome.Rejected)
      | Err resolve_err => (db, Err (Backend.ResolveConflict (bcre_existing resolve_err)))
      end
  end.

(** ** Endpoint updates *)

Definition update_endpoint (db : EnrollDb) (id : EndpointId)
    (decide : EndpointAggregate → Gen (result InvalidIdentityTransition TransitionOutcome))
  : Gen (EnrollDb * result EndpointUpdateError.t TransitionOutcome) :=
  match load_by_id_for_update db id with
  | Err e => mret (db, Err (EndpointUpdateError.Repository e))
  | Ok None => mret (db, Err (EndpointUpdateError.NotFound id))
  | Ok (Some aggregate) =>
      decision ← decide aggregate;
      mret match decision with
      | Ok outcome =>
          match persist_transition db outcome with
          | Err e => (db, Err (EndpointUpdateError.Repository e))
          | Ok db' => (db', Ok outcome)
          end
      | Err invalid => (db, Err (EndpointUpdateError.InvalidTransition invalid))
      end
  end.

Definition repo_establish_trusted_bootstrap (db : EnrollDb) (id : EndpointId)
    (decide : EndpointAggregate → TrustedBootstrapOutcome.t)
  : EnrollDb * result EndpointUpdateError.t TrustedBootstrapOutcome.t :=
  match load_by_id_for_update db id with
  | Err e => (db, Err (EndpointUpdateError.Repository e))
  | Ok None => (db, Err (EndpointUpdateError.NotFound id))
  | Ok (Some aggregate) =>
      match decide aggregate with
      | TrustedBootstrapOutcome.Established outcome =>
          match persist_transition db outcome with
          | Err e => (db, Err (EndpointUpdateError.Repository e))
          | Ok db' => (db', Ok (TrustedBootstrapOutcome.Established outcome))
          end
      | TrustedBootstrapOutcome.Rejected => (db, Ok TrustedBootstrapOutcome.Rejected)
      end
  end.

(** ** Boot contexts: a plain [INSERT] checked against the primary key and
    [expires_at > issued_at]. *)
Definition insert_boot_context (db : EnrollDb) (context : BootContext)
  : result Backend.t EnrollDb :=
  let row := {|
    br_verifier := CredentialHash_to_bytes (bc_verifier context);
    br_issued_at := pg_timestamp (bc_issued_at context);
    br_expires_at := pg_timestamp (bc_expires_at context);
    br_inventory_signal := bc_inventory_signal context;
    br_resolved_endpoint_id := bc_resolved_endpoint_id context;
    br_boot_nonce := Some (array_bytes (bc_boot_nonce context)) |} in
  if (br_expires_at row <=? br_issued_at row)%Z then Err Backend.CheckViolation
  else
    contexts ← insert_unique (array_bytes (bc_boot_context_id context)) row (db_boot_contexts db);
    Ok {| db_endpoints := db_endpoints db; db_credentials := db_credentials db;
          db_lookups := db_lookups db; db_boot_contexts := contexts;
          db_events := db_events db; db_audits := db_audits db |}.

(** ** Services *)

(** [BootOrchestrationService::issue_enrollment_credential]. *)
Definition issue_enrollment_credential (db : EnrollDb) (inventory_signal : str)
    (boot_nonce : BootNonce) (now : Instant) (enrollment_ttl : Duration)
  : Gen (EnrollDb * result Backend.t PresentedCredential) :=
  credential ← PresentedCredential_generate CredentialKind.Enrollment;
  verifier ← CredentialHash_of_bytes (array_bytes (pc_secret credential));
  let context := BootContext_new (pc_lookup_id credential) verifier now (now + enrollment_ttl)%Z
                   inventory_signal boot_nonce in
  mret match insert_boot_context db context with
  | Err e => (db, Err e)
  | Ok db' => (db', Ok credential)
  end.

(** The closure [EnrollmentService::redeem] hands to the repository. *)
Definition redeem_decision (presented : PresentedCredential) (now : Instant) (ttl : Duration)
  : RedemptionDecision := λ target,
  match target with
  | RedemptionTarget.Endpoint aggregate =>
      fresh ← PresentedCredential_generate CredentialKind.Runtime;
      outcome ← redeem_known aggregate presented fresh now ttl;
      mret (Ok outcome)
  | RedemptionTarget.UnresolvedBootContext context None =>
      fresh ← PresentedCredential_generate CredentialKind.Runtime;
      first_contact context presented fresh now ttl
  | RedemptionTarget.UnresolvedBootContext context (Some candidate) =>
      fresh ← PresentedCredential_generate CredentialKind.Runtime;
      genuine_reboot context candidate presented fresh now ttl
  | RedemptionTarget.UnknownBootContext | RedemptionTarget.UnknownCredential =>
      mret (Ok RedeemOutcome.Rejected)
  end.

(** [EnrollmentService::redeem]; [now] is what the clock reads under the locks. *)
Definition redeem `{Base64} (db : EnrollDb) (credential_wire : str) (now : Instant)
    (ttl : Duration) : Gen (EnrollDb * result Backend.t RedeemResult.t) :=
  match PresentedCredential_parse credential_wire with
  | Err _ => mret (db, Ok RedeemResult.Rejected)
  | Ok presented =>
      done ← repo_redeem db (pc_kind presented) (pc_lookup_id presented)
               (redeem_decision presented now ttl);
      let '(db', outcome) := done in
      mret (db', match outcome with
                 | Err e => Err e
                 | Ok (RedeemOutcome.Established outcome issued issued_expires_at _ _ _) =>
                     Ok (RedeemResult.Established (ep_id (to_endpoint outcome)) issued
                           issued_expires_at)
                 | Ok RedeemOutcome.Rejected => Ok RedeemResult.Rejected
                 end)
  end.

(** [EnrollmentService::approve_enrollment] and [revoke_credential]. *)
Definition service_approve_enrollment (db : EnrollDb) (id : EndpointId) (operator : Actor.t)
    (now : Instant) : Gen (EnrollDb * result EndpointUpdateError.t TransitionOutcome) :=
  update_endpoint db id (λ aggregate, approve_enrollment aggregate operator now).

Definition service_revoke_credential (db : EnrollDb) (id : EndpointId) (now : Instant)
  : Gen (EnrollDb * result EndpointUpdateError.t TransitionOutcome) :=
  update_endpoint db id (λ aggregate, mret (Ok (revoke_credential aggregate now))).

(** ** Runs *)

Definition run_op `{Base64} (db : EnrollDb) (op : EnrollOp.t) : Gen EnrollDb :=
  match op with
  | EnrollOp.Issue signal nonce now ttl =>
      r ← issue_enrollment_credential db signal nonce now ttl; mret r.1
  | EnrollOp.Redeem wire now ttl => r ← redeem db wire now ttl; mret r.1
  | EnrollOp.Approve id operator now =>
      r ← service_approve_enrollment db id operator now; mret r.1
  | EnrollOp.Revoke id now => r ← service_revoke_credential db id now; mret r.1
  | EnrollOp.EstablishTrust id nonce =>
      mret (repo_establish_trusted_bootstrap db id
              (λ aggregate, establish_trusted_bootstrap aggregate nonce)).1
  end.

Fixpoint run_ops `{Base64} (db : EnrollDb) (ops : list EnrollOp.t) : Gen EnrollDb :=
  match ops with
  | [] => mret db
  | op :: rest => db' ← run_op db op; run_ops db' rest
  end.
End Repositories.
