(* ===== verification/EnrollmentSafety.v ===== *)
(** * Safety of enrollment: what every run of the Server preserves

    Lemmas on the transactions of [EnrollmentStore] (what they read back after
    they write), the invariant of the tables, and the properties of whole runs. *)

From stdpp Require Import prelude gmap strings.
From Stdlib Require Import Strings.Byte NArith ZArith.
From S2P Require Import Prelude.
From S2P Require Import External.
From S2P Require Import Credential.
From S2P Require Import Endpoint.
From S2P Require Import Enrollment.
From S2P Require Import EnrollmentStore.

Abbreviation load := load_by_id_for_update.
#[local] Arguments verifier_from_bytes : simpl never.
#[local] Arguments lookup_id_from_bytes : simpl never.
#[local] Arguments CredentialHash_to_bytes : simpl never.
Abbreviation load_ctx := load_boot_context_for_update.

(** ** Writing a row and reading it back *)

Section Stored.
Context {pg : PgTimestamp} {pg_laws : PgTimestampLaws}.

Definition stored_slot (s : CredentialSlot) : CredentialSlot :=
  {| cs_lookup_id := cs_lookup_id s; cs_hash := cs_hash s;
     cs_issued_at := pg_timestamp (cs_issued_at s);
     cs_expires_at := pg_timestamp (cs_expires_at s) |}.

Definition stored_chain (c : CredentialChain) : CredentialChain :=
  {| chain_predecessor := stored_slot (chain_predecessor c);
     chain_successor := stored_slot <$> chain_successor c;
     chain_revoked := chain_revoked c |}.

(** The aggregate a row written for [ep] reads back as; signal and creation time
    are those of the row. *)
Definition stored (ep : EndpointAggregate) (signal : str) (created : Instant)
  : EndpointAggregate :=
  {| ep_id := ep_id ep; ep_inventory_signal := signal; ep_identity := ep_identity ep;
     ep_credential := stored_chain (ep_credential ep);
     ep_hardware_confidence := ep_hardware_confidence ep;
     ep_current_boot := ep_current_boot ep; ep_created_at := created;
     ep_updated_at := pg_timestamp (ep_updated_at ep) |}.

Lemma stored_slot_idem s : stored_slot (stored_slot s) = stored_slot s.
Proof. unfold stored_slot. simpl. by rewrite !pg_timestamp_idem. Qed.

Lemma stored_chain_idem c : stored_chain (stored_chain c) = stored_chain c.
Proof.
  unfold stored_chain. simpl. rewrite stored_slot_idem. f_equal.
  destruct (chain_successor c); simpl; [|done]. by rewrite stored_slot_idem.
Qed.

Lemma verifier_from_to_bytes h : verifier_from_bytes (CredentialHash_to_bytes h) = Ok h.
Proof.
  unfold verifier_from_bytes.
  assert (length (CredentialHash_to_bytes h) = 48) as Hl.
  { rewrite hash_bytes_app. by autorewrite with bamep. }
  apply try_into_is_Some in Hl as [a Ha]. rewrite Ha. simpl.
  apply try_into_Some in Ha. by rewrite Ha, hash_from_to_bytes.
Qed.

Lemma lookup_id_from_to_bytes (i : CredentialLookupId) :
  lookup_id_from_bytes (array_bytes i) = Ok i.
Proof. unfold lookup_id_from_bytes. by rewrite try_into_bytes. Qed.

Lemma row_to_aggregate_stored ep signal created :
  row_to_aggregate (ep_id ep) (endpoint_row ep signal created)
    (credential_row (ep_credential ep))
    (Some (array_bytes (cs_lookup_id (chain_predecessor (ep_credential ep)))))
    ((λ s, array_bytes (cs_lookup_id s)) <$> chain_successor (ep_credential ep))
  = Ok (stored ep signal created).
Proof.
  unfold row_to_aggregate.
  assert (row_to_current_boot (endpoint_row ep signal created) = Ok (ep_current_boot ep)) as ->.
  { unfold row_to_current_boot. simpl. destruct (ep_current_boot ep) as [[]|]; simpl; [|done].
    rewrite lookup_id_from_to_bytes. simpl. by rewrite try_into_bytes. }
  simpl. rewrite lookup_id_from_to_bytes, verifier_from_to_bytes. simpl.
  unfold stored, stored_chain.
  destruct (chain_successor (ep_credential ep)) as [s|]; simpl; [|done].
  by rewrite lookup_id_from_to_bytes, verifier_from_to_bytes.
Qed.

Lemma upsert_endpoint_Ok ep m m' :
  upsert_endpoint ep m = Ok m' →
  ∃ signal created, m' = <[ep_id ep := endpoint_row ep signal created]> m ∧
    match m !! ep_id ep with
    | Some old => signal = er_inventory_signal old ∧ created = er_created_at old
    | None => signal = ep_inventory_signal ep ∧ created = pg_timestamp (ep_created_at ep) ∧
        ∀ i r, m !! i = Some r → er_inventory_signal r ≠ signal
    end.
Proof.
  unfold upsert_endpoint. destruct (m !! ep_id ep) as [old|]; [intros [= <-]; eauto|].
  case_match eqn:He; [done|]. intros [= <-]. eexists _, _. split_and!; [done..|].
  intros i r Hi Hr. apply not_true_iff_false in He. apply He, existsb_exists.
  exists (i, r). split; [by rewrite <-list_elem_of_In, elem_of_map_to_list|].
  by apply bool_decide_eq_true_2.
Qed.

Lemma insert_lookup_Ok id role l m m' :
  insert_lookup id role l m = Ok m' →
  m' = <[(id, role) := l]> m ∧ m !! (id, role) = None ∧ ∀ k, m !! k ≠ Some l.
Proof.
  unfold insert_lookup, insert_unique. case_match eqn:He; [done|].
  case_match eqn:Hu; [done|]. intros [= <-]. split_and!; [done..|]. intros k Hk.
  apply not_true_iff_false in He. apply He, existsb_exists. exists (k, l).
  split; [by rewrite <-list_elem_of_In, elem_of_map_to_list|]. by apply bool_decide_eq_true_2.
Qed.

(** ** Loading *)

Lemma load_ext db db' id :
  db_endpoints db !! id = db_endpoints db' !! id →
  db_credentials db !! id = db_credentials db' !! id →
  (∀ role, db_lookups db !! (id, role) = db_lookups db' !! (id, role)) →
  load db id = load db' id.
Proof. intros He Hc Hl. unfold load_by_id_for_update. by rewrite He, Hc, !Hl. Qed.

Lemma lookup_id_from_bytes_Ok b i : lookup_id_from_bytes b = Ok i → b = array_bytes i.
Proof. unfold lookup_id_from_bytes. by intros ->%ok_or_Ok%try_into_Some. Qed.

(** What a loaded aggregate says about the rows it came from. *)
Lemma load_rows db id a :
  load db id = Ok (Some a) →
  ∃ e, db_endpoints db !! id = Some e ∧ ep_id a = id ∧
    ep_inventory_signal a = er_inventory_signal e ∧ ep_created_at a = er_created_at e ∧
    db_lookups db !! (id, SlotRole.Predecessor)
      = Some (array_bytes (cs_lookup_id (chain_predecessor (ep_credential a)))) ∧
    db_lookups db !! (id, SlotRole.Successor)
      = (λ s, array_bytes (cs_lookup_id s)) <$> chain_successor (ep_credential a).
Proof.
  unfold load_by_id_for_update.
  destruct (db_endpoints db !! id) as [e|]; [|done].
  destruct (db_credentials db !! id) as [c|]; [|done].
  intros (a' & Ha & [= ->])%result_bind_Ok. exists e. revert Ha. unfold row_to_aggregate.
  intros (cb & _ & Ha)%result_bind_Ok.
  apply result_bind_Ok in Ha as (pl & Hpl%ok_or_Ok & Ha).
  apply result_bind_Ok in Ha as (pl' & Hpl'%lookup_id_from_bytes_Ok & Ha).
  apply result_bind_Ok in Ha as (ph & _ & Ha).
  apply result_bind_Ok in Ha as (su & Hsu & [= <-]). simpl. rewrite Hpl, Hpl'.
  split_and!; [done..|].
  destruct (cr_successor_verifier c) as [sv|], (db_lookups db !! (id, SlotRole.Successor)) as [sl|];
    [|done|done|by injection Hsu as <-].
  apply result_bind_Ok in Hsu as (sl' & ->%lookup_id_from_bytes_Ok & Hsu).
  apply result_bind_Ok in Hsu as (? & _ & Hsu).
  apply result_bind_Ok in Hsu as (? & _ & Hsu).
  by apply result_bind_Ok in Hsu as (? & _ & [= <-]).
Qed.

Lemma load_None db id : db_endpoints db !! id = None → load db id = Ok None.
Proof. unfold load_by_id_for_update. by intros ->. Qed.

(** ** The invariant of the tables *)

Record db_wf (db : EnrollDb) : Prop := {
  wf_load id : is_Some (db_endpoints db !! id) →
    ∃ a, load db id = Ok (Some a) ∧ stored_chain (ep_credential a) = ep_credential a;
  wf_lookup_dom id role b :
    db_lookups db !! (id, role) = Some b → is_Some (db_endpoints db !! id);
  wf_lookup_inj k k' b :
    db_lookups db !! k = Some b → db_lookups db !! k' = Some b → k = k';
  wf_signal_inj id id' e e' :
    db_endpoints db !! id = Some e → db_endpoints db !! id' = Some e' →
    er_inventory_signal e = er_inventory_signal e' → id = id';
  wf_ctx b row : db_boot_contexts db !! b = Some row →
    (∃ c, load_ctx db b = Ok (Some c)) ∧
    ∀ e, br_resolved_endpoint_id row = Some e → is_Some (db_endpoints db !! e);
}.

Lemma empty_db_wf : db_wf empty_db.
Proof.
  split; simpl; intros *; rewrite ?lookup_empty; done.
Qed.

(** [db'] is [db] with the rows of one Endpoint written from [ep]. *)
Record committed (db db' : EnrollDb) (ep : EndpointAggregate) (signal : str) (created : Instant)
  : Prop := {
  cm_endpoints : db_endpoints db' = <[ep_id ep := endpoint_row ep signal created]> (db_endpoints db);
  cm_credentials :
    db_credentials db' = <[ep_id ep := credential_row (ep_credential ep)]> (db_credentials db);
  cm_pred : db_lookups db' !! (ep_id ep, SlotRole.Predecessor)
    = Some (array_bytes (cs_lookup_id (chain_predecessor (ep_credential ep))));
  cm_succ : db_lookups db' !! (ep_id ep, SlotRole.Successor)
    = (λ s, array_bytes (cs_lookup_id s)) <$> chain_successor (ep_credential ep);
  cm_other id role :
    id ≠ ep_id ep → db_lookups db' !! (id, role) = db_lookups db !! (id, role);
  cm_inj k k' b : db_lookups db' !! k = Some b → db_lookups db' !! k' = Some b → k = k';
  cm_row : match db_endpoints db !! ep_id ep with
    | Some old => signal = er_inventory_signal old ∧ created = er_created_at old
    | None => ∀ i r, db_endpoints db !! i = Some r → er_inventory_signal r ≠ signal
    end;
}.

Lemma committed_load db db' ep signal created :
  committed db db' ep signal created →
  load db' (ep_id ep) = Ok (Some (stored ep signal created)) ∧
  ∀ id, id ≠ ep_id ep → load db' id = load db id.
Proof.
  intros Hc. split.
  - unfold load_by_id_for_update. rewrite (cm_endpoints _ _ _ _ _ Hc), (cm_credentials _ _ _ _ _ Hc).
    rewrite !lookup_insert_eq, (cm_pred _ _ _ _ _ Hc), (cm_succ _ _ _ _ _ Hc).
    by rewrite row_to_aggregate_stored.
  - intros id Hid. apply load_ext.
    + by rewrite (cm_endpoints _ _ _ _ _ Hc), lookup_insert_ne.
    + by rewrite (cm_credentials _ _ _ _ _ Hc), lookup_insert_ne.
    + intros role. by apply (cm_other _ _ _ _ _ Hc).
Qed.

Lemma committed_wf db db' ep signal created :
  db_wf db → committed db db' ep signal created →
  (∀ b row, db_boot_contexts db' !! b = Some row →
    (∃ c, load_ctx db' b = Ok (Some c)) ∧
    ∀ e, br_resolved_endpoint_id row = Some e → is_Some (db_endpoints db' !! e)) →
  db_wf db'.
Proof.
  intros Hwf Hc Hctx. destruct (committed_load _ _ _ _ _ Hc) as [Hl Hl'].
  assert (∀ id, is_Some (db_endpoints db !! id) → is_Some (db_endpoints db' !! id)) as Hmono.
  { intros id Hid. rewrite (cm_endpoints _ _ _ _ _ Hc). by apply lookup_insert_is_Some'; right. }
  split.
  - intros id Hid. destruct (decide (id = ep_id ep)) as [->|Hne].
    + eexists. split; [exact Hl|]. simpl. by rewrite stored_chain_idem.
    + rewrite Hl' by done. apply (wf_load _ Hwf).
      by rewrite (cm_endpoints _ _ _ _ _ Hc), lookup_insert_ne in Hid.
  - intros id role b Hb. destruct (decide (id = ep_id ep)) as [->|Hne].
    + rewrite (cm_endpoints _ _ _ _ _ Hc), lookup_insert_eq. eauto.
    + rewrite (cm_other _ _ _ _ _ Hc) in Hb by done. apply Hmono.
      by apply (wf_lookup_dom _ Hwf id role b).
  - apply (cm_inj _ _ _ _ _ Hc).
  - intros id id' e e' He He' Hs. pose proof (cm_row _ _ _ _ _ Hc) as Hrow.
    rewrite (cm_endpoints _ _ _ _ _ Hc) in He, He'. rewrite lookup_insert in He, He'.
    destruct (decide (ep_id ep = id)) as [<-|], (decide (ep_id ep = id')) as [<-|];
      simplify_eq/=; [done|..|by apply (wf_signal_inj _ Hwf _ _ _ _ He He')];
      destruct (db_endpoints db !! ep_id ep) as [old|] eqn:Hold.
    + destruct Hrow as [Hr _]. apply (wf_signal_inj _ Hwf _ _ _ _ Hold He'). congruence.
    + by destruct (Hrow _ _ He').
    + destruct Hrow as [Hr _]. apply (wf_signal_inj _ Hwf _ _ _ _ He Hold). congruence.
    + by destruct (Hrow _ _ He).
  - done.
Qed.

(** ** The transactions *)

Definition lookups_inj (m : gmap (EndpointId * SlotRole.t) (list byte)) : Prop :=
  ∀ k k' b, m !! k = Some b → m !! k' = Some b → k = k'.

Lemma lookups_inj_delete m k : lookups_inj m → lookups_inj (delete k m).
Proof. intros Hm k1 k2 b [_ H1]%lookup_delete_Some [_ H2]%lookup_delete_Some. by eapply Hm. Qed.

Lemma lookups_inj_insert m id role l m' :
  lookups_inj m → insert_lookup id role l m = Ok m' → lookups_inj m'.
Proof.
  intros Hm (-> & _ & Hl)%insert_lookup_Ok k1 k2 b. rewrite !lookup_insert_Some.
  intros [[<- <-]|[? H1]] [[<- Hb]|[? H2]]; [done| |subst|by eapply Hm].
  - by apply Hl in H2.
  - by apply Hl in H1.
Qed.

Lemma persist_transition_Ok db o db' :
  persist_transition db o = Ok db' →
  ∃ signal created,
    db_endpoints db' = <[ep_id (to_endpoint o) := endpoint_row (to_endpoint o) signal created]>
                         (db_endpoints db) ∧
    db_credentials db' = <[ep_id (to_endpoint o) := credential_row (ep_credential (to_endpoint o))]>
                           (db_credentials db) ∧
    db_lookups db' = db_lookups db ∧ db_boot_contexts db' = db_boot_contexts db ∧
    match db_endpoints db !! ep_id (to_endpoint o) with
    | Some old => signal = er_inventory_signal old ∧ created = er_created_at old
    | None => signal = ep_inventory_signal (to_endpoint o) ∧
        created = pg_timestamp (ep_created_at (to_endpoint o)) ∧
        ∀ i r, db_endpoints db !! i = Some r → er_inventory_signal r ≠ signal
    end.
Proof.
  unfold persist_transition.
  intros (m & (signal & created & -> & Hrow)%upsert_endpoint_Ok & Hp)%result_bind_Ok.
  apply result_bind_Ok in Hp as (ev & _ & Hp). apply result_bind_Ok in Hp as (au & _ & [= <-]).
  exists signal, created. simpl. by split_and!.
Qed.

(** The chain keeps the identifiers of [a]: what an update outside redemption does. *)
Definition same_ids (c c' : CredentialChain) : Prop :=
  cs_lookup_id (chain_predecessor c) = cs_lookup_id (chain_predecessor c') ∧
  cs_lookup_id <$> chain_successor c = cs_lookup_id <$> chain_successor c'.

Lemma update_committed db o db' a :
  db_wf db → load db (ep_id (to_endpoint o)) = Ok (Some a) →
  same_ids (ep_credential (to_endpoint o)) (ep_credential a) →
  persist_transition db o = Ok db' →
  committed db db' (to_endpoint o) (ep_inventory_signal a) (ep_created_at a) ∧
  db_boot_contexts db' = db_boot_contexts db.
Proof.
  intros Hwf Ha [Hp Hs] Ht. apply load_rows in Ha as (e & He & _ & -> & -> & Hlp & Hls).
  apply persist_transition_Ok in Ht as (signal & created & Hen & Hcr & Hlk & Hbc & Hrow).
  rewrite He in Hrow. destruct Hrow as [-> ->]. split; [|done]. split; [done|done|..].
  all: rewrite ?Hlk.
  - by rewrite Hp.
  - rewrite Hls. destruct (chain_successor (ep_credential (to_endpoint o))),
      (chain_successor (ep_credential a)); simplify_eq/=; congruence.
  - done.
  - apply (wf_lookup_inj _ Hwf).
  - by rewrite He.
Qed.

Definition resolve_rows (res : option BootContext) (m : gmap (list byte) BootContextRow)
  : gmap (list byte) BootContextRow :=
  match res with
  | None => m
  | Some c => alter (λ row, {| br_verifier := br_verifier row; br_issued_at := br_issued_at row;
                br_expires_at := br_expires_at row;
                br_inventory_signal := br_inventory_signal row;
                br_resolved_endpoint_id := bc_resolved_endpoint_id c;
                br_boot_nonce := br_boot_nonce row |})
                (array_bytes (bc_boot_context_id c)) m
  end.

Lemma persist_lookup_projection_Ok db id chain db' :
  lookups_inj (db_lookups db) →
  persist_lookup_projection db id chain = Ok db' →
  db_endpoints db' = db_endpoints db ∧ db_credentials db' = db_credentials db ∧
  db_boot_contexts db' = db_boot_contexts db ∧ lookups_inj (db_lookups db') ∧
  db_lookups db' !! (id, SlotRole.Predecessor)
    = Some (array_bytes (cs_lookup_id (chain_predecessor chain))) ∧
  db_lookups db' !! (id, SlotRole.Successor)
    = (λ s, array_bytes (cs_lookup_id s)) <$> chain_successor chain ∧
  ∀ id' role, id' ≠ id → db_lookups db' !! (id', role) = db_lookups db !! (id', role).
Proof.
  intros Hinj. unfold persist_lookup_projection.
  set (l0 := delete _ _). assert (lookups_inj l0) as H0 by by do 2 apply lookups_inj_delete.
  intros (l1 & H1 & Hp)%result_bind_Ok.
  pose proof (lookups_inj_insert _ _ _ _ _ H0 H1) as Hi1.
  apply insert_lookup_Ok in H1 as (-> & _ & _).
  apply result_bind_Ok in Hp as (l2 & H2 & [= <-]). simpl.
  assert (∀ id' role, id' ≠ id → l0 !! (id', role) = db_lookups db !! (id', role)) as Hl0.
  { intros. unfold l0. rewrite !lookup_delete_ne by congruence. done. }
  destruct (chain_successor chain) as [s|]; simpl.
  - pose proof (lookups_inj_insert _ _ _ _ _ Hi1 H2) as Hi2.
    apply insert_lookup_Ok in H2 as (-> & _ & _). split_and!; [done..| | |].
    + by rewrite lookup_insert_ne, lookup_insert_eq by congruence.
    + by rewrite lookup_insert_eq.
    + intros. rewrite !lookup_insert_ne by congruence. by apply Hl0.
  - injection H2 as <-. split_and!; [done..| | |].
    + by rewrite lookup_insert_eq.
    + rewrite lookup_insert_ne by congruence. unfold l0. by rewrite lookup_delete_eq.
    + intros. rewrite !lookup_insert_ne by congruence. by apply Hl0.
Qed.

Lemma redemption_committed db o res db' :
  db_wf db → persist_redemption db o res = Ok db' →
  ∃ signal created, committed db db' (to_endpoint o) signal created ∧
    db_boot_contexts db' = resolve_rows res (db_boot_contexts db).
Proof.
  intros Hwf. unfold persist_redemption.
  intros (db1 & (signal & created & Hen & Hcr & Hlk & Hbc & Hrow)%persist_transition_Ok & Hp)
    %result_bind_Ok.
  apply result_bind_Ok in Hp as (db2 & Hp & [= <-]).
  apply persist_lookup_projection_Ok in Hp as (Hen2 & Hcr2 & Hbc2 & Hinj & Hpr & Hsu & Hot);
    [|rewrite Hlk; exact (wf_lookup_inj _ Hwf)].
  assert (committed db db2 (to_endpoint o) signal created) as Hc.
  { split; [congruence|congruence|done|done| |done|].
    - intros. rewrite Hot by done. by rewrite Hlk.
    - destruct (db_endpoints db !! ep_id (to_endpoint o)); naive_solver. }
  exists signal, created. destruct res as [c|]; simpl.
  - split; [|by rewrite Hbc2, Hbc]. by destruct Hc; split.
  - split; [done|]. by rewrite Hbc2, Hbc.
Qed.
End Stored.

(** ** What one transition can do *)

Definition boot_of (c : BootContext) (trust : TrustedBootstrapState.t) : CurrentBoot :=
  {| cb_boot_context_id := bc_boot_context_id c; cb_boot_nonce := bc_boot_nonce c;
     cb_trusted_bootstrap := trust |}.

Definition resolved_to (c : BootContext) (id : EndpointId) : BootContext :=
  BootContext_from_parts (bc_boot_context_id c) (bc_verifier c) (bc_issued_at c)
    (bc_expires_at c) (bc_inventory_signal c) (Some id) (bc_boot_nonce c).

(** The identity fields no transition touches. *)
Definition same_identity (a a' : EndpointAggregate) : Prop :=
  ep_id a' = ep_id a ∧ ep_inventory_signal a' = ep_inventory_signal a ∧
  ep_created_at a' = ep_created_at a ∧ ep_hardware_confidence a' = ep_hardware_confidence a.

(** How an operation may change one existing aggregate. *)
Inductive agg_rel : EnrollOp.t → EndpointAggregate → EndpointAggregate → Prop :=
| rel_rotate wire now ttl a a' :
    same_identity a a' → ep_identity a' = ep_identity a →
    chain_revoked (ep_credential a) = false → chain_revoked (ep_credential a') = false →
    ep_current_boot a' = ep_current_boot a →
    agg_rel (EnrollOp.Redeem wire now ttl) a a'
| rel_reboot wire now ttl a a' c :
    same_identity a a' → ep_identity a' = ep_identity a →
    chain_revoked (ep_credential a) = false → chain_revoked (ep_credential a') = false →
    ep_current_boot a' = Some (boot_of c TrustedBootstrapState.NotEstablished) →
    agg_rel (EnrollOp.Redeem wire now ttl) a a'
| rel_approve operator now a a' :
    same_identity a a' → ep_identity a = IdentityState.PendingEnrollment →
    ep_identity a' = IdentityState.Enrolled → ep_credential a' = ep_credential a →
    ep_current_boot a' = ep_current_boot a →
    agg_rel (EnrollOp.Approve (ep_id a) operator now) a a'
| rel_revoke now a a' :
    same_identity a a' → ep_identity a' = ep_identity a →
    ep_credential a' = CredentialChain_revoke (ep_credential a) →
    ep_current_boot a' = ep_current_boot a →
    agg_rel (EnrollOp.Revoke (ep_id a) now) a a'
| rel_trust nonce b a a' :
    same_identity a a' → ep_identity a' = ep_identity a →
    ep_credential a' = ep_credential a →
    ep_current_boot a = Some b → cb_boot_nonce b = nonce →
    ep_current_boot a' = Some (CurrentBoot_establish_trusted_bootstrap b) →
    agg_rel (EnrollOp.EstablishTrust (ep_id a) nonce) a a'.

Section Decisions.
Context {ent : Entropy} {sha : Sha256}.

Definition established_chain (id : CredentialLookupId) (verifier : CredentialHash)
    (f : PresentedCredential) (now : Instant) (ttl : Duration) (k : nat) : CredentialChain :=
  {| chain_predecessor := {| cs_lookup_id := id; cs_hash := verifier; cs_issued_at := now;
                             cs_expires_at := (now + ttl)%Z |};
     chain_successor := Some (minted_slot f now ttl k); chain_revoked := false |}.

Lemma first_contact_cases c p f now ttl k :
  (∃ k', first_contact c p f now ttl k = (Ok RedeemOutcome.Rejected, k') ∧ k ≤ k') ∨
  (bc_resolved_endpoint_id c = None ∧ boot_context_credential_is_valid c p now = true ∧
   first_contact c p f now ttl k =
   (Ok (RedeemOutcome.Established
          {| to_endpoint := {|
               ep_id := draw_uuid (S k); ep_inventory_signal := bc_inventory_signal c;
               ep_identity := IdentityState.PendingEnrollment;
               ep_credential := established_chain (pc_lookup_id p) (bc_verifier c) f now ttl k;
               ep_hardware_confidence := HardwareConfidence.initial;
               ep_current_boot := Some (boot_of c TrustedBootstrapState.NotEstablished);
               ep_created_at := now; ep_updated_at := now |};
             to_events := [DomainEvent.EndpointPendingEnrollment (draw_uuid (S (S k)))
                             (draw_uuid (S k)) now];
             to_audit := None |}
          f (now + ttl)%Z true false (Some (resolved_to c (draw_uuid (S k))))), S (S (S k)))).
Proof.
  unfold first_contact. destruct (bc_resolved_endpoint_id c) as [e|] eqn:Hr.
  { left. eexists. by rewrite bool_decide_eq_true_2 by eauto. }
  rewrite bool_decide_eq_false_2 by (by intros [? ?]).
  destruct (boot_context_credential_is_valid c p now); simpl; [|left; eauto].
  unfold CredentialChain_establish, mint_successor_slot.
  destruct (bool_decide (pc_kind f = CredentialKind.Runtime)); simpl; [|left; eauto].
  right. split_and!; [done..|]. unfold BootContext_resolve. by rewrite Hr.
Qed.

Lemma genuine_reboot_cases c a p f now ttl k :
  (∃ k', genuine_reboot c a p f now ttl k = (Ok RedeemOutcome.Rejected, k') ∧ k ≤ k') ∨
  (bc_resolved_endpoint_id c = None ∧ boot_context_credential_is_valid c p now = true ∧
   chain_revoked (ep_credential a) = false ∧
   genuine_reboot c a p f now ttl k =
   (Ok (RedeemOutcome.Established
          {| to_endpoint := {|
               ep_id := ep_id a; ep_inventory_signal := ep_inventory_signal a;
               ep_identity := ep_identity a;
               ep_credential := established_chain (pc_lookup_id p) (bc_verifier c) f now ttl k;
               ep_hardware_confidence := ep_hardware_confidence a;
               ep_current_boot := Some (boot_of c TrustedBootstrapState.NotEstablished);
               ep_created_at := ep_created_at a; ep_updated_at := now |};
             to_events := []; to_audit := None |}
          f (now + ttl)%Z false false (Some (resolved_to c (ep_id a)))), S k)).
Proof.
  unfold genuine_reboot. destruct (bc_resolved_endpoint_id c) as [e|] eqn:Hr.
  { left. eexists. by rewrite bool_decide_eq_true_2 by eauto. }
  rewrite bool_decide_eq_false_2 by (by intros [? ?]).
  destruct (boot_context_credential_is_valid c p now); simpl; [|left; eauto].
  destruct (chain_revoked (ep_credential a)) eqn:Hrev; simpl; [left; eauto|].
  unfold CredentialChain_establish, mint_successor_slot.
  destruct (bool_decide (pc_kind f = CredentialKind.Runtime)); simpl; [|left; eauto].
  right. split_and!; [done..|]. unfold BootContext_resolve. by rewrite Hr.
Qed.

Lemma authenticate_counter c p f now ttl k :
  k ≤ (authenticate c p f now ttl k).2.
Proof.
  unfold authenticate, mint_successor_slot, CredentialHash_of_bytes, fill_bytes.
  split_matches; simpl; lia.
Qed.

Lemma redeem_known_cases a p f now ttl k :
  ∃ k', k ≤ k' ∧
  (redeem_known a p f now ttl k = (RedeemOutcome.Rejected, k') ∨
   ∃ chain exp conf,
    (authenticate (ep_credential a) p f now ttl k).1 = AuthOutcome.Accepted chain exp conf ∧
    redeem_known a p f now ttl k =
    (RedeemOutcome.Established
       {| to_endpoint := {|
            ep_id := ep_id a; ep_inventory_signal := ep_inventory_signal a;
            ep_identity := ep_identity a; ep_credential := chain;
            ep_hardware_confidence := ep_hardware_confidence a;
            ep_current_boot := ep_current_boot a; ep_created_at := ep_created_at a;
            ep_updated_at := now |};
          to_events := []; to_audit := None |} f exp false conf None, k')).
Proof.
  pose proof (authenticate_counter (ep_credential a) p f now ttl k) as Hk.
  unfold redeem_known, mbind, gen_bind.
  destruct (authenticate (ep_credential a) p f now ttl k) as [[chain exp conf|] k'] eqn:Ha;
    simpl in *; exists k'; split; [done| |done|]; [right; by eauto|by left].
Qed.
End Decisions.

(** ** What one operation can do to the tables *)

Lemma load_ctx_id db b c : load_ctx db b = Ok (Some c) → b = array_bytes (bc_boot_context_id c).
Proof.
  unfold load_boot_context_for_update. destruct (db_boot_contexts db !! b) as [row|]; [|done].
  intros (n & _ & Hc)%result_bind_Ok. apply result_bind_Ok in Hc as (n' & _ & Hc).
  apply result_bind_Ok in Hc as (i & ->%lookup_id_from_bytes_Ok & Hc).
  by apply result_bind_Ok in Hc as (v & _ & [= <-]).
Qed.

Lemma load_ctx_row db b c :
  load_ctx db b = Ok (Some c) →
  ∃ row, db_boot_contexts db !! b = Some row ∧
    br_resolved_endpoint_id row = bc_resolved_endpoint_id c ∧
    br_inventory_signal row = bc_inventory_signal c.
Proof.
  unfold load_boot_context_for_update.
  destruct (db_boot_contexts db !! b) as [row|]; [|done]. exists row.
  revert H. intros (n & _ & Hc)%result_bind_Ok. apply result_bind_Ok in Hc as (n' & _ & Hc).
  apply result_bind_Ok in Hc as (i & _ & Hc). by apply result_bind_Ok in Hc as (v & _ & [= <-]).
Qed.

Lemma route_endpoint db kind lid a :
  route db kind lid = Ok (RedemptionTarget.Endpoint a) → load db (ep_id a) = Ok (Some a).
Proof.
  assert (∀ id e, (loaded ← load db id; aggregate ← ok_or e loaded;
                   Ok (RedemptionTarget.Endpoint aggregate)) = Ok (RedemptionTarget.Endpoint a) →
                  load db (ep_id a) = Ok (Some a)) as Hload.
  { intros id e (l & Hl & Hr)%result_bind_Ok.
    apply result_bind_Ok in Hr as (a' & ->%ok_or_Ok & [= ->]).
    pose proof (load_rows _ _ _ Hl) as (? & _ & -> & _). done. }
  unfold route. destruct (endpoint_by_lookup db (array_bytes lid)) as [id|]; [apply Hload|].
  case_bool_decide; [done|]. intros (l & _ & Hr)%result_bind_Ok.
  destruct l as [c|]; [|done]. destruct (bc_resolved_endpoint_id c); [by eapply Hload|].
  by apply result_bind_Ok in Hr as (? & _ & ?).
Qed.

Lemma route_unresolved db kind lid c cand :
  route db kind lid = Ok (RedemptionTarget.UnresolvedBootContext c cand) →
  load_ctx db (array_bytes lid) = Ok (Some c) ∧ bc_resolved_endpoint_id c = None ∧
  load_by_signal_for_update db (bc_inventory_signal c) = Ok cand.
Proof.
  assert (∀ id e, (loaded ← load db id; aggregate ← ok_or e loaded;
                   Ok (RedemptionTarget.Endpoint aggregate))
                  ≠ Ok (RedemptionTarget.UnresolvedBootContext c cand)) as Hload.
  { intros id e (l & Hl & Hr)%result_bind_Ok. by apply result_bind_Ok in Hr as (a' & _ & ?). }
  unfold route. destruct (endpoint_by_lookup db (array_bytes lid)) as [id|].
  { by intros ?%Hload. }
  case_bool_decide; [done|]. intros (l & Hl & Hr)%result_bind_Ok.
  destruct l as [c'|]; [|done]. destruct (bc_resolved_endpoint_id c') eqn:He.
  { by apply Hload in Hr. }
  by apply result_bind_Ok in Hr as (? & Hs & [= <- <-]).
Qed.

Lemma load_by_signal_Some db signal a :
  load_by_signal_for_update db signal = Ok (Some a) → load db (ep_id a) = Ok (Some a).
Proof.
  unfold load_by_signal_for_update. destruct (id_by_signal db signal); [|done].
  intros Hl. by pose proof (load_rows _ _ _ Hl) as (? & _ & -> & _).
Qed.

Section Effects.
Context {ent : Entropy} {sha : Sha256} {pg : PgTimestamp} {pg_laws : PgTimestampLaws} {b64 : Base64}.

Inductive op_effect (op : EnrollOp.t) (db db' : EnrollDb) : Prop :=
| eff_none : db' = db → op_effect op db db'
| eff_issue key row c :
    db_boot_contexts db !! key = None →
    db_boot_contexts db' = <[key := row]> (db_boot_contexts db) →
    br_resolved_endpoint_id row = None → load_ctx db' key = Ok (Some c) →
    db_endpoints db' = db_endpoints db → db_credentials db' = db_credentials db →
    db_lookups db' = db_lookups db → op_effect op db db'
| eff_create c ep signal created :
    committed db db' ep signal created → db_endpoints db !! ep_id ep = None →
    ep_identity ep = IdentityState.PendingEnrollment →
    chain_revoked (ep_credential ep) = false →
    ep_current_boot ep = Some (boot_of c TrustedBootstrapState.NotEstablished) →
    load_ctx db (array_bytes (bc_boot_context_id c)) = Ok (Some c) →
    bc_resolved_endpoint_id c = None →
    db_boot_contexts db' = resolve_rows (Some (resolved_to c (ep_id ep))) (db_boot_contexts db) →
    op_effect op db db'
| eff_update a ep res :
    committed db db' ep (ep_inventory_signal a) (ep_created_at a) →
    load db (ep_id ep) = Ok (Some a) →
    agg_rel op a (stored ep (ep_inventory_signal a) (ep_created_at a)) →
    db_boot_contexts db' = resolve_rows res (db_boot_contexts db) →
    (∀ c', res = Some c' → ∃ c, c' = resolved_to c (ep_id ep) ∧
       load_ctx db (array_bytes (bc_boot_context_id c)) = Ok (Some c) ∧
       bc_resolved_endpoint_id c = None) →
    op_effect op db db'.

(** Every Endpoint's identifier was drawn. *)
Definition ids_drawn (k : nat) (db : EnrollDb) : Prop :=
  ∀ id, is_Some (db_endpoints db !! id) → ∃ j, j < k ∧ id = draw_uuid j.

Lemma ids_drawn_mono k k' db : k ≤ k' → ids_drawn k db → ids_drawn k' db.
Proof. intros Hk Hd id Hid. destruct (Hd id Hid) as (j & ? & ?). exists j. split; [lia|done]. Qed.

Lemma committed_existing db db' ep a signal created :
  committed db db' ep signal created → load db (ep_id ep) = Ok (Some a) →
  signal = ep_inventory_signal a ∧ created = ep_created_at a.
Proof.
  intros Hc (e & He & _ & -> & -> & _)%load_rows. pose proof (cm_row _ _ _ _ _ Hc) as Hr.
  rewrite He in Hr. done.
Qed.

(** What an accepting decision returns, by the target it was given. *)
Definition fresh_runtime (k : nat) : PresentedCredential :=
  (PresentedCredential_generate CredentialKind.Runtime k).1.

Inductive accepts (p : PresentedCredential) (now : Instant) (ttl : Duration) (k : nat)
  : RedemptionTarget.t → EndpointAggregate → Instant → option BootContext → nat → Prop :=
| acc_rotate a chain exp conf k' :
    (authenticate (ep_credential a) p (fresh_runtime k) now ttl (S (S k))).1
      = AuthOutcome.Accepted chain exp conf → k ≤ k' →
    accepts p now ttl k (RedemptionTarget.Endpoint a)
      {| ep_id := ep_id a; ep_inventory_signal := ep_inventory_signal a;
         ep_identity := ep_identity a; ep_credential := chain;
         ep_hardware_confidence := ep_hardware_confidence a;
         ep_current_boot := ep_current_boot a; ep_created_at := ep_created_at a;
         ep_updated_at := now |} exp None k'
| acc_first c :
    bc_resolved_endpoint_id c = None → boot_context_credential_is_valid c p now = true →
    accepts p now ttl k (RedemptionTarget.UnresolvedBootContext c None)
      {| ep_id := draw_uuid (3 + k); ep_inventory_signal := bc_inventory_signal c;
         ep_identity := IdentityState.PendingEnrollment;
         ep_credential := established_chain (pc_lookup_id p) (bc_verifier c) (fresh_runtime k)
                            now ttl (2 + k);
         ep_hardware_confidence := HardwareConfidence.initial;
         ep_current_boot := Some (boot_of c TrustedBootstrapState.NotEstablished);
         ep_created_at := now; ep_updated_at := now |}
      (now + ttl)%Z (Some (resolved_to c (draw_uuid (3 + k)))) (5 + k)
| acc_reboot c a :
    bc_resolved_endpoint_id c = None → boot_context_credential_is_valid c p now = true →
    chain_revoked (ep_credential a) = false →
    accepts p now ttl k (RedemptionTarget.UnresolvedBootContext c (Some a))
      {| ep_id := ep_id a; ep_inventory_signal := ep_inventory_signal a;
         ep_identity := ep_identity a;
         ep_credential := established_chain (pc_lookup_id p) (bc_verifier c) (fresh_runtime k)
                            now ttl (2 + k);
         ep_hardware_confidence := ep_hardware_confidence a;
         ep_current_boot := Some (boot_of c TrustedBootstrapState.NotEstablished);
         ep_created_at := ep_created_at a; ep_updated_at := now |}
      (now + ttl)%Z (Some (resolved_to c (ep_id a))) (3 + k).

Lemma redeem_decision_cases p now ttl target k :
  ∃ k', k ≤ k' ∧
  (redeem_decision p now ttl target k = (Ok RedeemOutcome.Rejected, k') ∨
   ∃ o exp fc sc res,
     redeem_decision p now ttl target k
       = (Ok (RedeemOutcome.Established o (fresh_runtime k) exp fc sc res), k') ∧
     accepts p now ttl k target (to_endpoint o) exp res k').
Proof.
  destruct target as [a|c [a|]| |].
  - change (redeem_decision p now ttl (RedemptionTarget.Endpoint a) k)
      with (let '(o, k') := redeem_known a p (fresh_runtime k) now ttl (S (S k)) in
            (Ok (E:=BootContextResolveError) o, k')).
    destruct (redeem_known_cases a p (fresh_runtime k) now ttl (S (S k)))
      as (k' & Hk & [Hr|(chain & exp & conf & Ha & Hr)]);
      rewrite Hr; exists k'; (split; [lia|]); [by left|right].
    do 5 eexists. split; [done|]. apply (acc_rotate _ _ _ _ _ _ _ _ _ Ha). lia.
  - change (redeem_decision p now ttl _ k)
      with (genuine_reboot c a p (fresh_runtime k) now ttl (S (S k))).
    destruct (genuine_reboot_cases c a p (fresh_runtime k) now ttl (S (S k)))
      as [(k' & -> & Hk)|(Hres & Hv & Hrev & ->)].
    + exists k'. split; [lia|]. by left.
    + eexists. split; [|right; do 5 eexists; split; [done|by apply acc_reboot]]. lia.
  - change (redeem_decision p now ttl _ k)
      with (first_contact c p (fresh_runtime k) now ttl (S (S k))).
    destruct (first_contact_cases c p (fresh_runtime k) now ttl (S (S k)))
      as [(k' & -> & Hk)|(Hres & Hv & ->)].
    + exists k'. split; [lia|]. by left.
    + eexists. split; [|right; do 5 eexists; split; [done|by apply acc_first]]. lia.
  - exists k. split; [done|]. by left.
  - exists k. split; [done|]. by left.
Qed.

(** A redemption either leaves the tables alone or was accepted by its decision. *)
Lemma repo_redeem_cases db p now ttl k :
  ∃ db' r k', repo_redeem db (pc_kind p) (pc_lookup_id p) (redeem_decision p now ttl) k
    = ((db', r), k') ∧ k ≤ k' ∧
  (db' = db ∧ (r = Ok RedeemOutcome.Rejected ∨ ∃ e, r = Err e) ∨
   ∃ target o exp fc sc res,
     route db (pc_kind p) (pc_lookup_id p) = Ok target ∧
     r = Ok (RedeemOutcome.Established o (fresh_runtime k) exp fc sc res) ∧
     accepts p now ttl k target (to_endpoint o) exp res k' ∧
     persist_redemption db o res = Ok db').
Proof.
  unfold repo_redeem. destruct (route db (pc_kind p) (pc_lookup_id p)) as [target|e];
    [|do 3 eexists; split_and!; [done..|]; left; eauto].
  destruct (redeem_decision_cases p now ttl target k)
    as (k' & Hk & [Hr|(o & exp & fc & sc & res & Hr & Hacc)]);
    unfold mbind at 1, gen_bind; rewrite Hr; cbn.
  - do 3 eexists; split_and!; [done..|]. left; eauto.
  - replace (is_unknown target) with false by by inversion Hacc.
    destruct (persist_redemption db o res) as [db'|e] eqn:Hp; do 3 eexists;
      (split_and!; [done..|]); [right|left; eauto].
    exists target, o, exp, fc, sc, res. done.
Qed.

Lemma run_redeem_effect db wire now ttl k db' k' :
  db_wf db → ids_drawn k db → fresh_draws 0 k' →
  run_op db (EnrollOp.Redeem wire now ttl) k = (db', k') →
  k ≤ k' ∧ op_effect (EnrollOp.Redeem wire now ttl) db db' ∧ ids_drawn k' db'.
Proof.
  intros Hwf Hdr Hfresh. unfold run_op, redeem.
  destruct (PresentedCredential_parse wire) as [p|];
    [|intros [= <- <-]; split_and!; [done|by constructor|done]].
  destruct (repo_redeem_cases db p now ttl k) as (db1 & r & k1 & Hr & Hk & Hcases).
  unfold mbind, gen_bind. rewrite Hr. cbn. intros [= -> ->]. split; [done|].
  destruct Hcases as [[-> _]|(target & o & exp & fc & sc & res & Hroute & _ & Hacc & Hp)].
  { split; [by constructor|]. by eapply ids_drawn_mono. }
  apply redemption_committed in Hp as (signal & created & Hc & Hbc); [|done].
  assert (∀ a, load db (ep_id (to_endpoint o)) = Ok (Some a) → ids_drawn k' db') as Hids.
  { intros a Ha id Hid. apply (ids_drawn_mono k k' db Hk Hdr id).
    rewrite (cm_endpoints _ _ _ _ _ Hc), lookup_insert in Hid. case_decide; subst; [|done].
    by apply load_rows in Ha as (? & -> & _). }
  destruct o as [ep evs au]. cbn in *.
  inversion Hacc as [a chain x conf kx Ha Hk'|c Hres Hv|c a Hres Hv Hrev]; subst; cbn in *.
  - apply route_endpoint in Hroute. destruct (committed_existing _ _ _ _ _ _ Hc Hroute) as [-> ->].
    apply authenticate_accepted in Ha as (Hrev & _ & _ & base & -> & _).
    split; [|by eauto]. refine (eff_update _ _ _ a _ None Hc Hroute _ Hbc _); [|done].
    by apply rel_rotate.
  - apply route_unresolved in Hroute as (Hctx & _ & _).
    pose proof (load_ctx_id _ _ _ Hctx) as Hcid. rewrite Hcid in Hctx.
    assert (db_endpoints db !! draw_uuid (3 + k) = None) as Hnone.
    { destruct (db_endpoints db !! draw_uuid (3 + k)) eqn:He; [|done].
      destruct (Hdr (draw_uuid (3 + k))) as (j & Hj & He'); [by eauto|].
      apply (fresh_draws_inj (5 + k)) in He'; [lia|done|lia|lia]. }
    split; [by refine (eff_create _ _ _ c _ _ _ Hc Hnone _ _ _ Hctx Hres Hbc)|]. intros id Hid.
    rewrite (cm_endpoints _ _ _ _ _ Hc), lookup_insert in Hid. cbn in Hid.
    case_decide; subst; [exists (3 + k); split; [lia|done]|].
    destruct (Hdr id Hid) as (j & ? & ?). exists j. split; [lia|done].
  - apply route_unresolved in Hroute as (Hctx & _ & Hcand%load_by_signal_Some).
    pose proof (load_ctx_id _ _ _ Hctx) as Hcid. rewrite Hcid in Hctx.
    destruct (committed_existing _ _ _ _ _ _ Hc Hcand) as [-> ->].
    split; [|by eauto]. refine (eff_update _ _ _ a _ (Some (resolved_to c (ep_id a))) Hc Hcand _ Hbc _).
    + by eapply rel_reboot.
    + intros c' [= <-]. by exists c.
Qed.

Lemma update_effect op db o a db' :
  db_wf db → load db (ep_id a) = Ok (Some a) → ep_id (to_endpoint o) = ep_id a →
  same_ids (ep_credential (to_endpoint o)) (ep_credential a) →
  agg_rel op a (stored (to_endpoint o) (ep_inventory_signal a) (ep_created_at a)) →
  persist_transition db o = Ok db' →
  op_effect op db db' ∧ ∀ k, ids_drawn k db → ids_drawn k db'.
Proof.
  intros Hwf Ha Hid Hsame Hrel Hp. rewrite <-Hid in Ha.
  destruct (update_committed _ _ _ _ Hwf Ha Hsame Hp) as [Hc Hbc]. split.
  - by refine (eff_update _ _ _ a _ None Hc Ha Hrel Hbc _).
  - intros k Hdr id Hi. apply Hdr. rewrite (cm_endpoints _ _ _ _ _ Hc), lookup_insert in Hi.
    case_decide; subst; [|done]. by apply load_rows in Ha as (? & -> & _).
Qed.

Lemma update_endpoint_effect op db id (decide : EndpointAggregate → Gen _) k db' r k' :
  db_wf db → ids_drawn k db →
  (∀ a, k ≤ (decide a k).2) →
  (∀ a o, load db id = Ok (Some a) → (decide a k).1 = Ok o →
     ep_id (to_endpoint o) = ep_id a ∧
     same_ids (ep_credential (to_endpoint o)) (ep_credential a) ∧
     agg_rel op a (stored (to_endpoint o) (ep_inventory_signal a) (ep_created_at a))) →
  update_endpoint db id decide k = ((db', r), k') →
  k ≤ k' ∧ op_effect op db db' ∧ ids_drawn k' db'.
Proof.
  intros Hwf Hdr Hk Hdec. unfold update_endpoint.
  destruct (load db id) as [[a|]|] eqn:Hl;
    [|intros [= <- _ <-]; split_and!; [done|by constructor|done]..].
  specialize (Hk a). pose proof (load_rows _ _ _ Hl) as (? & _ & Hid & _).
  unfold mbind, gen_bind. destruct (decide a k) as [[o|e] k1] eqn:Hd; cbn in *.
  - destruct (Hdec a o) as (Hoid & Hsame & Hrel); [done|by rewrite Hd|].
    destruct (persist_transition db o) as [db1|] eqn:Hp; intros [= <- _ <-].
    + rewrite <-Hid in Hl.
      destruct (update_effect op db o a db1) as [He Hd']; [done..|].
      split_and!; [done|done|]. by eapply ids_drawn_mono, Hd'.
    + split_and!; [done|by constructor|by eapply ids_drawn_mono].
  - intros [= <- _ <-]. split_and!; [done|by constructor|by eapply ids_drawn_mono].
Qed.

Lemma stored_stable db a :
  db_wf db → load db (ep_id a) = Ok (Some a) →
  stored_chain (ep_credential a) = ep_credential a.
Proof.
  intros Hwf Ha. pose proof (load_rows _ _ _ Ha) as (e & He & _).
  destruct (wf_load _ Hwf (ep_id a)) as (a' & Ha' & ?); [by eauto|].
  rewrite Ha in Ha'. by simplify_eq.
Qed.

Lemma issue_cases db signal nonce now ttl k :
  ∃ c, bc_resolved_endpoint_id c = None ∧
    issue_enrollment_credential db signal nonce now ttl k
    = (match insert_boot_context db c with
       | Err e => (db, Err e)
       | Ok db' => (db', Ok (PresentedCredential_generate CredentialKind.Enrollment k).1)
       end, 3 + k).
Proof. eexists. split; cycle 1; reflexivity. Qed.

Lemma insert_boot_context_effect op db c db' :
  bc_resolved_endpoint_id c = None → insert_boot_context db c = Ok db' →
  op_effect op db db' ∧ db_endpoints db' = db_endpoints db.
Proof.
  intros Hres. unfold insert_boot_context. case_match; [done|].
  intros (m & Hm & [= <-])%result_bind_Ok. revert Hm. unfold insert_unique.
  case_match eqn:Hnone; [done|]. intros [= <-]. split; [|done].
  eapply eff_issue; [done|done|done| |done|done|done].
  unfold load_boot_context_for_update. cbn. rewrite lookup_insert_eq. cbn.
  rewrite try_into_bytes. cbn. rewrite lookup_id_from_to_bytes. cbn.
  by rewrite verifier_from_to_bytes.
Qed.

Lemma run_op_effect db op k db' k' :
  db_wf db → ids_drawn k db → fresh_draws 0 k' → run_op db op k = (db', k') →
  k ≤ k' ∧ op_effect op db db' ∧ ids_drawn k' db'.
Proof.
  intros Hwf Hdr Hfresh Hrun.
  assert (∀ a, load db (ep_id a) = Ok (Some a) → same_ids (ep_credential a) (ep_credential a))
    as Hrefl by done.
  destruct op as [signal nonce now ttl|wire now ttl|id operator now|id now|id nonce].
  - destruct (issue_cases db signal nonce now ttl k) as (c & Hc & Hi).
    unfold run_op, mbind, gen_bind in Hrun. rewrite Hi in Hrun. cbn in Hrun.
    destruct (insert_boot_context db c) as [db1|] eqn:Hins; injection Hrun as <- <-;
      (split; [lia|]); [|split; [by constructor|by apply (ids_drawn_mono k); [lia|]]].
    destruct (insert_boot_context_effect (EnrollOp.Issue signal nonce now ttl) _ _ _ Hc Hins)
      as [He Hep]. split; [done|]. apply (ids_drawn_mono k); [lia|].
    unfold ids_drawn. by rewrite Hep.
  - by eapply run_redeem_effect.
  - revert Hrun. unfold run_op, service_approve_enrollment, mbind, gen_bind.
    destruct (update_endpoint db id _ k) as [[db1 r] k1] eqn:Hu. intros [= <- <-].
    refine (update_endpoint_effect _ _ _ _ _ _ _ _ Hwf Hdr _ _ Hu).
    + intros a. unfold approve_enrollment. destruct (approve (ep_identity a)); run_gen; cbn; lia.
    + intros a o Hl. pose proof (load_rows _ _ _ Hl) as (? & _ & Hid & _). subst id.
      pose proof (stored_stable _ _ Hwf Hl) as Hst.
      unfold approve_enrollment. destruct (ep_identity a) eqn:Hia; run_gen; cbn; [|done|done].
      intros [= <-]. cbn. split_and!; [done..|]. by apply rel_approve.
  - revert Hrun. unfold run_op, service_revoke_credential, mbind, gen_bind.
    destruct (update_endpoint db id _ k) as [[db1 r] k1] eqn:Hu. intros [= <- <-].
    refine (update_endpoint_effect _ _ _ _ _ _ _ _ Hwf Hdr _ _ Hu); [done|].
    intros a o Hl. pose proof (load_rows _ _ _ Hl) as (? & _ & Hid & _). subst id.
    pose proof (stored_stable _ _ Hwf Hl) as Hst.
    intros [= <-]. cbn. split_and!; [done..|]. apply rel_revoke; [done..| |done].
    cbn. rewrite <-Hst at 2. done.
  - revert Hrun. unfold run_op, repo_establish_trusted_bootstrap. intros [= <- <-].
    split; [done|]. destruct (load db id) as [[a|]|] eqn:Hl; [|split; [by constructor|done]..].
    pose proof (load_rows _ _ _ Hl) as (? & _ & Hid & _). subst id.
    pose proof (stored_stable _ _ Hwf Hl) as Hst.
    unfold establish_trusted_bootstrap.
    destruct (ep_current_boot a) as [b|] eqn:Hb; [|split; [by constructor|done]].
    case_bool_decide; cbn; [|split; [by constructor|done]].
    destruct (persist_transition db _) as [db1|] eqn:Hp; cbn; [|split; [by constructor|done]].
    pose proof (λ e s r, update_effect (EnrollOp.EstablishTrust (ep_id a) nonce) db _ a db1
                           Hwf Hl e s r Hp) as Hu.
    destruct Hu as [He Hd]; [done|done|by eapply rel_trust|by split; [|apply Hd]].
Qed.
End Effects.

(** ** What the effects preserve *)

Section Preservation.
Context {pg : PgTimestamp} {pg_laws : PgTimestampLaws}.

Lemma load_ctx_ext db db' b :
  db_boot_contexts db !! b = db_boot_contexts db' !! b → load_ctx db b = load_ctx db' b.
Proof. unfold load_boot_context_for_update. by intros ->. Qed.

(** Resolving one context changes nothing but its resolution. *)
Lemma load_ctx_resolve db db' c id b c1 :
  load_ctx db (array_bytes (bc_boot_context_id c)) = Ok (Some c) →
  db_boot_contexts db' = resolve_rows (Some (resolved_to c id)) (db_boot_contexts db) →
  load_ctx db b = Ok (Some c1) →
  load_ctx db' b = Ok (Some (if bool_decide (b = array_bytes (bc_boot_context_id c))
                             then resolved_to c id else c1)).
Proof.
  intros Hc Hr Hb. case_bool_decide as Hd.
  - subst b. clear Hb. revert Hc. unfold load_boot_context_for_update. rewrite Hr. simpl.
    rewrite lookup_alter_eq. destruct (db_boot_contexts db !! _) as [row|]; simpl; [|done].
    intros (n & Hn & Hc)%result_bind_Ok. rewrite Hn. simpl.
    apply result_bind_Ok in Hc as (n' & Hn' & Hc). rewrite Hn'. simpl.
    apply result_bind_Ok in Hc as (i & Hi & Hc). rewrite Hi. simpl.
    apply result_bind_Ok in Hc as (v & Hv & [= <-]). by rewrite Hv.
  - rewrite <-Hb. apply load_ctx_ext. rewrite Hr. simpl. by rewrite lookup_alter_ne.
Qed.

Lemma resolve_rows_wf db db' res ep signal created :
  db_wf db → committed db db' ep signal created →
  db_boot_contexts db' = resolve_rows res (db_boot_contexts db) →
  (∀ c', res = Some c' → ∃ c, c' = resolved_to c (ep_id ep) ∧
     load_ctx db (array_bytes (bc_boot_context_id c)) = Ok (Some c)) →
  ∀ b row, db_boot_contexts db' !! b = Some row →
    (∃ c, load_ctx db' b = Ok (Some c)) ∧
    ∀ e, br_resolved_endpoint_id row = Some e → is_Some (db_endpoints db' !! e).
Proof.
  intros Hwf Hc Hr Hres b row Hrow.
  assert (∀ id, is_Some (db_endpoints db !! id) ∨ id = ep_id ep → is_Some (db_endpoints db' !! id))
    as Hdom.
  { intros id Hid. rewrite (cm_endpoints _ _ _ _ _ Hc), lookup_insert_is_Some'. naive_solver. }
  destruct res as [c'|].
  - destruct (Hres c' eq_refl) as (c & -> & Hcl). rewrite Hr in Hrow. simpl in Hrow.
    rewrite lookup_alter_Some in Hrow. destruct Hrow as [(<- & row0 & Hrow0 & ->)|[Hne Hrow0]];
      destruct (wf_ctx _ Hwf _ _ Hrow0) as ([c1 Hc1] & Hex);
      rewrite (load_ctx_resolve _ _ _ _ _ _ Hcl Hr Hc1); (split; [by eauto|]); simpl.
    + intros e [= <-]. apply Hdom. by right.
    + intros e He. apply Hdom. left. by apply Hex.
  - simpl in Hr. rewrite Hr in Hrow. destruct (wf_ctx _ Hwf _ _ Hrow) as ([c1 Hc1] & Hex).
    rewrite (load_ctx_ext db' db) by by rewrite Hr. split; [by eauto|].
    intros e He. apply Hdom. left. by apply Hex.
Qed.

Lemma effect_wf op db db' : op_effect op db db' → db_wf db → db_wf db'.
Proof.
  intros [->|key row c Hnone Hins Hres Hld He Hcr Hlk
         |c ep signal created Hc _ _ _ _ Hcl _ Hr|a ep res Hc _ _ Hr Hres] Hwf; [done|..].
  - assert (∀ id, load db' id = load db id) as Hl.
    { intros. apply load_ext; [by rewrite He|by rewrite Hcr|by rewrite Hlk]. }
    split.
    + intros id. rewrite He, Hl. apply (wf_load _ Hwf).
    + intros id role b. rewrite He, Hlk. apply (wf_lookup_dom _ Hwf).
    + rewrite Hlk. apply (wf_lookup_inj _ Hwf).
    + rewrite He. apply (wf_signal_inj _ Hwf).
    + intros b row'. rewrite Hins, He, lookup_insert_Some. intros [[<- <-]|[Hne Hb]].
      * split; [by eauto|]. by rewrite Hres.
      * rewrite (load_ctx_ext db' db) by by rewrite Hins, lookup_insert_ne.
        by apply (wf_ctx _ Hwf).
  - eapply committed_wf; [done|done|]. eapply resolve_rows_wf; [done|done|done|].
    intros c' [= <-]. eauto.
  - eapply committed_wf; [done|done|]. eapply resolve_rows_wf; [done|done|done|].
    intros c' Hc'. destruct (Hres c' Hc') as (c & ? & ? & _). eauto.
Qed.

(** An existing Endpoint stays, changed only as [agg_rel] allows. *)
Lemma effect_agg op db db' id a :
  op_effect op db db' → load db id = Ok (Some a) →
  ∃ a', load db' id = Ok (Some a') ∧ (a' = a ∨ agg_rel op a a').
Proof.
  intros Heff Ha.
  destruct Heff as [->|key row c _ _ _ _ He Hcr Hlk|c ep signal created Hc Hn _ _ _ _ _ _
    |a0 ep res Hc Ha0 Hrel _ _]; [by eauto|..].
  - exists a. split; [|by left]. rewrite <-Ha. apply load_ext; [by rewrite He|by rewrite Hcr|].
    by rewrite Hlk.
  - destruct (committed_load _ _ _ _ _ Hc) as [_ Ho]. exists a. split; [|by left].
    rewrite Ho; [done|]. intros ->. by rewrite load_None in Ha.
  - destruct (committed_load _ _ _ _ _ Hc) as [Hl Ho].
    destruct (decide (id = ep_id ep)) as [->|Hne].
    + rewrite Ha in Ha0. injection Ha0 as <-. eauto.
    + exists a. rewrite Ho by done. eauto.
Qed.

(** An Endpoint that appears is pending, not revoked, and its boot is not trusted. *)
Definition just_enrolled (a : EndpointAggregate) : Prop :=
  ep_identity a = IdentityState.PendingEnrollment ∧ chain_revoked (ep_credential a) = false ∧
  ∃ b, ep_current_boot a = Some b ∧
       cb_trusted_bootstrap b = TrustedBootstrapState.NotEstablished.

Lemma effect_new op db db' id a' :
  db_wf db → op_effect op db db' → load db id = Ok None → load db' id = Ok (Some a') →
  just_enrolled a'.
Proof.
  intros Hwf Heff Hn Ha'.
  destruct Heff as [->|key row c _ _ _ _ He Hcr Hlk|c ep signal created Hc _ Hi Hrev Hb _ _ _
    |a0 ep res Hc Ha0 _ _ _].
  - congruence.
  - rewrite (load_ext db' db) in Ha'; [congruence|by rewrite He|by rewrite Hcr|by rewrite Hlk].
  - destruct (committed_load _ _ _ _ _ Hc) as [Hl Ho].
    destruct (decide (id = ep_id ep)) as [->|Hne]; [|rewrite Ho in Ha' by done; congruence].
    rewrite Hl in Ha'. injection Ha' as <-. unfold just_enrolled. simpl.
    split_and!; [done|done|]. eauto.
  - destruct (committed_load _ _ _ _ _ Hc) as [Hl Ho].
    destruct (decide (id = ep_id ep)) as [->|Hne]; [congruence|].
    rewrite Ho in Ha' by done. congruence.
Qed.

(** A boot context stays as issued; it may get its resolution, once. *)
Lemma effect_ctx op db db' b c :
  op_effect op db db' → load_ctx db b = Ok (Some c) →
  ∃ c', load_ctx db' b = Ok (Some c') ∧
    (c' = c ∨ bc_resolved_endpoint_id c = None ∧ ∃ e, c' = resolved_to c e).
Proof.
  intros Heff Hb.
  assert (∀ c0 id, load_ctx db (array_bytes (bc_boot_context_id c0)) = Ok (Some c0) →
    bc_resolved_endpoint_id c0 = None →
    db_boot_contexts db' = resolve_rows (Some (resolved_to c0 id)) (db_boot_contexts db) →
    ∃ c', load_ctx db' b = Ok (Some c') ∧
      (c' = c ∨ bc_resolved_endpoint_id c = None ∧ ∃ e, c' = resolved_to c e)) as Hcase.
  { intros c0 id Hc0 Hn Hr. eexists. split; [by apply (load_ctx_resolve _ _ _ _ _ _ Hc0 Hr Hb)|].
    case_bool_decide as Hd; [|by left]. subst b. rewrite Hc0 in Hb. injection Hb as <-. eauto. }
  destruct Heff as [->|key row c0 Hnone Hins _ _ _ _ _|c0 ep signal created _ _ _ _ _ Hcl Hn Hr
    |a0 ep res _ _ _ Hr Hres]; [by eauto|..|by eapply Hcase|].
  - exists c. split; [|by left]. rewrite <-Hb. apply load_ctx_ext. rewrite Hins.
    rewrite lookup_insert_ne; [done|]. intros ->.
    apply load_ctx_row in Hb as (? & ? & _). congruence.
  - destruct res as [c'|].
    + destruct (Hres c' eq_refl) as (c0 & -> & ? & ?). by eapply Hcase.
    + exists c. split; [|by left]. rewrite <-Hb. apply load_ctx_ext. by rewrite Hr.
Qed.
End Preservation.

(** ** Runs *)

Section Runs.
Context {ent : Entropy} {sha : Sha256} {pg : PgTimestamp} {pg_laws : PgTimestampLaws}.
Context {b64 : Base64}.

Lemma run_op_counter db op k : k ≤ (run_op db op k).2.
Proof.
  destruct op as [signal nonce now ttl|wire now ttl|id operator now|id now|id nonce];
    unfold run_op, mbind, gen_bind.
  - destruct (issue_cases db signal nonce now ttl k) as (c & _ & ->). cbn. lia.
  - unfold redeem. destruct (PresentedCredential_parse wire) as [p|]; [|done].
    destruct (repo_redeem_cases db p now ttl k) as (db1 & r & k1 & Hr & Hk & _).
    unfold mbind, gen_bind. rewrite Hr. done.
  - unfold service_approve_enrollment, update_endpoint, approve_enrollment. run_gen.
    destruct (load db id) as [[a|]|]; [|done..]. by destruct (ep_identity a); cbn; lia.
  - unfold service_revoke_credential, update_endpoint. run_gen.
    by destruct (load db id) as [[a|]|].
  - done.
Qed.

Lemma run_ops_counter db ops k : k ≤ (run_ops db ops k).2.
Proof.
  revert db k. induction ops as [|op ops IH]; intros db k; [done|]. cbn [run_ops].
  unfold mbind, gen_bind. pose proof (run_op_counter db op k).
  destruct (run_op db op k) as [db1 k1]. specialize (IH db1 k1). cbn in *. lia.
Qed.

(** Running one operation more from a good state. *)
Definition good (k : nat) (db : EnrollDb) : Prop := db_wf db ∧ ids_drawn k db.

Lemma good_empty : good 0 empty_db.
Proof. split; [apply empty_db_wf|]. intros id [? ?]. done. Qed.

Lemma run_ops_cons db op ops k db' k' :
  run_ops db (op :: ops) k = (db', k') →
  ∃ db1 k1, run_op db op k = (db1, k1) ∧ run_ops db1 ops k1 = (db', k') ∧ k1 ≤ k'.
Proof.
  cbn [run_ops]. unfold mbind, gen_bind. destruct (run_op db op k) as [db1 k1].
  intros Hr. exists db1, k1. split_and!; [done..|].
  pose proof (run_ops_counter db1 ops k1) as Hk. by rewrite Hr in Hk.
Qed.

Lemma good_step db op k db' k' :
  good k db → fresh_draws 0 k' → run_op db op k = (db', k') →
  good k' db' ∧ op_effect op db db'.
Proof.
  intros [Hwf Hdr] Hf Hr. destruct (run_op_effect _ _ _ _ _ Hwf Hdr Hf Hr) as (_ & He & Hd).
  split; [|done]. split; [by eapply effect_wf|done].
Qed.

Lemma good_run db ops k db' k' :
  good k db → fresh_draws 0 k' → run_ops db ops k = (db', k') → good k' db'.
Proof.
  revert db k. induction ops as [|op ops IH]; intros db k Hg Hf Hr.
  - by injection Hr as <- <-.
  - apply run_ops_cons in Hr as (db1 & k1 & H1 & Hr & Hk).
    eapply IH; [|done|done]. eapply good_step; [done| |done]. by eapply fresh_draws_mono.
Qed.

Lemma run_ops_app db ops1 ops2 k db' k' :
  run_ops db (ops1 ++ ops2) k = (db', k') →
  ∃ db1 k1, run_ops db ops1 k = (db1, k1) ∧ run_ops db1 ops2 k1 = (db', k') ∧ k1 ≤ k'.
Proof.
  revert db k. induction ops1 as [|op ops1 IH]; intros db k Hr; simpl in Hr.
  - exists db, k. split_and!; [done..|]. pose proof (run_ops_counter db ops2 k) as Hk.
    by rewrite Hr in Hk.
  - apply run_ops_cons in Hr as (db0 & k0 & H0 & Hr & _).
    apply IH in Hr as (db1 & k1 & H1 & Hr & Hk). exists db1, k1. split_and!; [|done|done].
    cbn [run_ops]. unfold mbind, gen_bind. by rewrite H0.
Qed.

Lemma run_ops_then db ops1 ops2 k db1 k1 db2 k2 :
  run_ops db ops1 k = (db1, k1) → run_ops db1 ops2 k1 = (db2, k2) →
  run_ops db (ops1 ++ ops2) k = (db2, k2).
Proof.
  revert db k. induction ops1 as [|op ops1 IH]; intros db k H1 H2.
  - by injection H1 as <- <-.
  - apply run_ops_cons in H1 as (db0 & k0 & H0 & H1 & _). cbn [app run_ops].
    unfold mbind, gen_bind. rewrite H0. by apply IH.
Qed.

(** How a run may change one existing Endpoint. *)
Inductive agg_path : list EnrollOp.t → EndpointAggregate → EndpointAggregate → Prop :=
| path_nil a : agg_path [] a a
| path_stay op ops a a' : agg_path ops a a' → agg_path (op :: ops) a a'
| path_step op ops a a1 a' : agg_rel op a a1 → agg_path ops a1 a' → agg_path (op :: ops) a a'.

Lemma run_agg_path db ops k db' k' id a :
  good k db → fresh_draws 0 k' → run_ops db ops k = (db', k') → load db id = Ok (Some a) →
  ∃ a', load db' id = Ok (Some a') ∧ agg_path ops a a'.
Proof.
  revert db k a. induction ops as [|op ops IH]; intros db k a Hg Hf Hr Ha.
  - injection Hr as <- <-. exists a. split; [done|constructor].
  - apply run_ops_cons in Hr as (db1 & k1 & H1 & Hr & Hk).
    destruct (good_step _ _ _ _ _ Hg (fresh_draws_mono _ _ Hk Hf) H1) as [Hg1 He].
    destruct (effect_agg _ _ _ _ _ He Ha) as (a1 & Ha1 & Hrel).
    destruct (IH _ _ _ Hg1 Hf Hr Ha1) as (a' & Ha' & Hp). exists a'. split; [done|].
    destruct Hrel as [->|Hrel]; [by apply path_stay|by eapply path_step].
Qed.

Lemma agg_rel_identity op a a' : agg_rel op a a' → same_identity a a'.
Proof. by inversion 1. Qed.

Lemma agg_path_identity ops a a' : agg_path ops a a' → same_identity a a'.
Proof.
  induction 1 as [| |op ops a a1 a' Hr _ IH]; [done|done|].
  apply agg_rel_identity in Hr. unfold same_identity in *. destruct_and!. split_and!; congruence.
Qed.

Lemma agg_path_revoked ops a a' :
  agg_path ops a a' → chain_revoked (ep_credential a) = true →
  chain_revoked (ep_credential a') = true.
Proof.
  induction 1 as [| |op ops a a1 a' Hr _ IH]; [done|done|]. intros Hrev. apply IH.
  inversion Hr; subst; try congruence.
  match goal with H : ep_credential a1 = _ |- _ => by rewrite H end.
Qed.

Lemma agg_path_lifecycle ops a a' :
  agg_path ops a a' → ep_identity a' ≠ ep_identity a →
  ep_identity a = IdentityState.PendingEnrollment ∧ ep_identity a' = IdentityState.Enrolled ∧
  ∃ operator now, EnrollOp.Approve (ep_id a) operator now ∈ ops.
Proof.
  induction 1 as [|op ops a a' _ IH|op ops a a1 a' Hr Hp IH]; [done| |].
  - intros Hne. destruct (IH Hne) as (? & ? & operator & now & Hin).
    split_and!; [done..|]. exists operator, now. by right.
  - intros Hne. pose proof (agg_rel_identity _ _ _ Hr) as (Hid & _).
    destruct (decide (ep_identity a1 = ep_identity a)) as [He|He].
    + rewrite He in IH. destruct (IH Hne) as (? & ? & operator & now & Hin).
      split_and!; [done..|]. exists operator, now. rewrite <-Hid. by right.
    + inversion Hr as [| |operator now ? ? _ Hpe Hen| |]; subst; try done.
      destruct (decide (ep_identity a' = ep_identity a1)) as [He'|He'].
      * split_and!; [done|congruence|]. exists operator, now. by left.
      * destruct (IH He') as (? & _). congruence.
Qed.
End Runs.

(** ** Redemption, in both directions *)

Section Redemption.
Context {ent : Entropy} {sha : Sha256} {pg : PgTimestamp} {pg_laws : PgTimestampLaws}.
Context {b64 : Base64}.

Definition chain_slots (c : CredentialChain) : list CredentialSlot :=
  chain_predecessor c :: match chain_successor c with Some s => [s] | None => [] end.

(** The evidence a presented credential authenticates with: a live slot of a chain
    that is not revoked, or an unresolved, unexpired boot context. *)
Inductive authentic (db : EnrollDb) (p : PresentedCredential) (now : Instant)
  : EndpointId → Prop :=
| auth_chain a s :
    load db (ep_id a) = Ok (Some a) → chain_revoked (ep_credential a) = false →
    s ∈ chain_slots (ep_credential a) → live_for s p now →
    authentic db p now (ep_id a)
| auth_boot c id :
    load_ctx db (array_bytes (pc_lookup_id p)) = Ok (Some c) →
    bc_resolved_endpoint_id c = None →
    pc_kind p = CredentialKind.Enrollment → bc_boot_context_id c = pc_lookup_id p →
    (now < bc_expires_at c)%Z → opens (bc_verifier c) p →
    (∀ a, load db id = Ok (Some a) → chain_revoked (ep_credential a) = false) →
    authentic db p now id.

Lemma context_valid_iff c p now :
  boot_context_credential_is_valid c p now = true ↔
  pc_kind p = CredentialKind.Enrollment ∧ bc_boot_context_id c = pc_lookup_id p
  ∧ (now < bc_expires_at c)%Z ∧ opens (bc_verifier c) p.
Proof.
  unfold boot_context_credential_is_valid, BootContext_valid_at, BootContext_verify_secret.
  rewrite !andb_true_iff, !bool_decide_eq_true, Z.ltb_lt, verify_bytes_opens. naive_solver.
Qed.

Lemma redeem_sound db wire now ttl k db' id cred exp k' :
  db_wf db → ids_drawn k db → fresh_draws 0 k' →
  redeem db wire now ttl k = ((db', Ok (RedeemResult.Established id cred exp)), k') →
  ∃ p, PresentedCredential_parse wire = Ok p ∧ authentic db p now id ∧
    exp = (now + ttl)%Z ∧ pc_kind cred = CredentialKind.Runtime ∧
    ∃ a', load db' id = Ok (Some a') ∧
      chain_ids (ep_credential a') = [pc_lookup_id p; pc_lookup_id cred].
Proof.
  intros Hwf Hdr Hf. unfold redeem.
  destruct (PresentedCredential_parse wire) as [p|]; [|done].
  destruct (repo_redeem_cases db p now ttl k) as (db1 & r & k1 & Hr & Hk & Hcases).
  unfold mbind, gen_bind. rewrite Hr. cbn. intros [= -> Hres ->]. exists p. split; [done|].
  destruct Hcases as [[_ [->|[? ->]]]|(target & o & x & fc & sc & res & Hroute & -> & Hacc & Hp)];
    [done..|]. injection Hres as <- <- <-.
  apply redemption_committed in Hp as (signal & created & Hc & _); [|done].
  destruct (committed_load _ _ _ _ _ Hc) as [Hl _].
  destruct o as [ep evs au]. cbn in *.
  inversion Hacc as [a chain y conf kx Ha Hk'|c Hres Hv|c a Hres Hv Hrev]; subst; cbn in *.
  - apply route_endpoint in Hroute. pose proof (authenticate_chain_ids _ _ _ _ _ _ _ _ _ Ha) as Hids.
    apply authenticate_accepted in Ha as (Hrev & _ & -> & base & -> & Hb).
    split_and!; [|done|done|].
    + destruct (slot_matches (chain_predecessor (ep_credential a)) p now) eqn:Hm.
      * apply slot_matches_live in Hm. eapply auth_chain; [done|done|by left|done].
      * destruct Hb as (Hs & Hm'%slot_matches_live & _).
        apply (auth_chain _ _ _ a base); [done|done| |done].
        unfold chain_slots. rewrite Hs. right. by left.
    + eexists. split; [exact Hl|]. unfold chain_ids in *. cbn in *. congruence.
  - apply route_unresolved in Hroute as (Hctx & _ & _). split_and!; [|done|done|eexists; by split].
    apply context_valid_iff in Hv as (Hkind & Hid & Hexp & Hopen).
    eapply auth_boot; [done..|]. intros a Ha.
    apply load_rows in Ha as (e & He & _). destruct (Hdr (draw_uuid (3 + k))) as (j & Hj & Hd);
      [by eexists|]. apply (fresh_draws_inj (5 + k)) in Hd; [lia|done|lia|lia].
  - apply route_unresolved in Hroute as (Hctx & _ & Hcand%load_by_signal_Some).
    split_and!; [|done|done|eexists; by split].
    apply context_valid_iff in Hv as (Hkind & Hid & Hexp & Hopen).
    eapply auth_boot; [done..|]. intros a' Ha'. rewrite Hcand in Ha'. by simplify_eq.
Qed.

Lemma endpoint_by_lookup_Some db k b :
  db_wf db → db_lookups db !! k = Some b → endpoint_by_lookup db b = Some k.1.
Proof.
  intros Hwf Hk. unfold endpoint_by_lookup.
  assert (List.find (λ p, bool_decide (p.2 = b)) (map_to_list (db_lookups db)) = Some (k, b))
    as ->; [|done].
  apply find_Some_iff_unique.
  - intros [k1 b1] [k2 b2] H1%elem_of_map_to_list H2%elem_of_map_to_list. cbn.
    rewrite !bool_decide_eq_true. intros -> ->. f_equal. by apply (wf_lookup_inj _ Hwf k1 k2 b).
  - rewrite elem_of_map_to_list. split; [done|]. by apply bool_decide_eq_true_2.
Qed.

Lemma route_known db kind a s :
  db_wf db → load db (ep_id a) = Ok (Some a) → s ∈ chain_slots (ep_credential a) →
  route db kind (cs_lookup_id s) = Ok (RedemptionTarget.Endpoint a).
Proof.
  intros Hwf Ha Hs. pose proof (load_rows _ _ _ Ha) as (e & _ & _ & _ & _ & Hp & Hsu).
  assert (∃ role, db_lookups db !! (ep_id a, role) = Some (array_bytes (cs_lookup_id s)))
    as [role Hr].
  { unfold chain_slots in Hs. apply list_elem_of_In in Hs. destruct Hs as [<-|Hs]; [by eauto|].
    destruct (chain_successor (ep_credential a)) as [s'|]; [|done].
    destruct Hs as [<-|[]]. by eauto. }
  unfold route. rewrite (endpoint_by_lookup_Some _ _ _ Hwf Hr). cbn. by rewrite Ha.
Qed.

Lemma insert_lookup_fresh id role l m :
  m !! (id, role) = None → (∀ k, m !! k ≠ Some l) →
  insert_lookup id role l m = Ok (<[(id, role) := l]> m).
Proof.
  intros Hn Hl. unfold insert_lookup, insert_unique. rewrite Hn.
  destruct (existsb _ _) eqn:He; [|done]. apply existsb_exists in He as ([k l'] & Hin & Hb).
  rewrite <-list_elem_of_In, elem_of_map_to_list in Hin. cbn in Hb.
  apply bool_decide_eq_true_1 in Hb. subst. by apply Hl in Hin.
Qed.

(** An accepted rotation can be written: its predecessor was already the Endpoint's
    own and the new identifier is unused. *)
Lemma persist_rotation db o a s f :
  db_wf db → load db (ep_id a) = Ok (Some a) → ep_id (to_endpoint o) = ep_id a →
  to_events o = [] → to_audit o = None →
  chain_predecessor (ep_credential (to_endpoint o)) = s →
  chain_successor (ep_credential (to_endpoint o)) = Some f →
  s ∈ chain_slots (ep_credential a) → cs_lookup_id f ≠ cs_lookup_id s →
  (∀ k, db_lookups db !! k ≠ Some (array_bytes (cs_lookup_id f))) →
  ∃ db', persist_redemption db o None = Ok db'.
Proof.
  intros Hwf Ha Hid Hev Hau Hp Hf Hs Hne Hfresh. unfold persist_redemption, persist_transition.
  pose proof (load_rows _ _ _ Ha) as (e & He & _ & _ & _ & Hlp & Hls).
  unfold upsert_endpoint. rewrite Hid, He, Hev, Hau. cbn.
  unfold persist_lookup_projection. cbn. rewrite Hp, Hf.
  set (l0 := delete _ _).
  assert (∀ k b, l0 !! k = Some b → k.1 ≠ ep_id a ∧ db_lookups db !! k = Some b) as Hl0.
  { intros [i role] b. unfold l0. rewrite !lookup_delete_Some. intros (? & ? & ?). split; [|done].
    destruct role; naive_solver. }
  rewrite insert_lookup_fresh; cbn.
  - rewrite insert_lookup_fresh; cbn; [by eauto|..].
    + rewrite lookup_insert_ne by done. unfold l0. by rewrite lookup_delete_eq.
    + intros k. rewrite lookup_insert_Some. intros [[_ Hb]|[_ Hb]].
      * apply Hne. by apply array_eq.
      * apply Hl0 in Hb as [_ Hb]. by apply Hfresh in Hb.
  - unfold l0. rewrite lookup_delete_ne by done. by rewrite lookup_delete_eq.
  - intros k Hk. apply Hl0 in Hk as [Hk Hb].
    assert (∃ role, db_lookups db !! (ep_id a, role) = Some (array_bytes (cs_lookup_id s)))
      as [role Hr].
    { unfold chain_slots in Hs. apply list_elem_of_In in Hs. destruct Hs as [<-|Hs]; [by eauto|].
      destruct (chain_successor (ep_credential a)) as [s'|]; [|done].
      destruct Hs as [<-|[]]. by eauto. }
    by rewrite (wf_lookup_inj _ Hwf _ _ _ Hb Hr) in Hk.
Qed.

Lemma redeem_complete db p now ttl k a s :
  PresentedCredential_parse (to_wire_value p) = Ok p →
  db_wf db → load db (ep_id a) = Ok (Some a) → chain_revoked (ep_credential a) = false →
  s ∈ chain_slots (ep_credential a) → slot_matches s p now = true →
  (∀ key, db_lookups db !! key ≠ Some (array_bytes (pc_lookup_id (fresh_runtime k)))) →
  ∃ db' k', redeem db (to_wire_value p) now ttl k
    = ((db', Ok (RedeemResult.Established (ep_id a) (fresh_runtime k) (now + ttl)%Z)), k').
Proof.
  intros Hparse Hwf Ha Hrev Hs Hm Hfresh. unfold redeem. rewrite Hparse.
  pose proof (slot_matches_id _ _ _ Hm) as Hid.
  pose proof (route_known db (pc_kind p) a s Hwf Ha Hs) as Hroute. rewrite Hid in Hroute.
  destruct (redeem_known_cases a p (fresh_runtime k) now ttl (S (S k)))
    as (k' & _ & Hk). set (base := if slot_matches (chain_predecessor (ep_credential a)) p now
                                   then chain_predecessor (ep_credential a) else s).
  assert ((authenticate (ep_credential a) p (fresh_runtime k) now ttl (S (S k))).1
    = AuthOutcome.Accepted {| chain_predecessor := base;
        chain_successor := Some (minted_slot (fresh_runtime k) now ttl (S (S k)));
        chain_revoked := false |} (now + ttl)%Z
        (negb (slot_matches (chain_predecessor (ep_credential a)) p now))) as Hacc.
  { apply authenticate_accepted. split_and!; [done..|]. eexists. split; [done|]. unfold base.
    unfold chain_slots in Hs. apply list_elem_of_In in Hs.
    destruct (slot_matches (chain_predecessor (ep_credential a)) p now) eqn:Hpm; [done|].
    destruct Hs as [<-|Hs]; [congruence|].
    destruct (chain_successor (ep_credential a)) as [s'|]; [|done].
    by destruct Hs as [<-|[]]. }
  assert (base ∈ chain_slots (ep_credential a) ∧ cs_lookup_id base = pc_lookup_id p) as [Hbs Hbid].
  { unfold base. destruct (slot_matches (chain_predecessor _) p now) eqn:Hpm; [|done].
    split; [by left|]. by eapply slot_matches_id. }
  destruct Hk as [Hk|(chain & exp & conf & Ha' & Hk)].
  { unfold redeem_known, mbind, gen_bind in Hk. destruct (authenticate _ _ _ _ _ _) as [out k1].
    cbn in Hacc. by rewrite Hacc in Hk. }
  rewrite Hacc in Ha'. injection Ha' as <- <- <-.
  unfold repo_redeem. rewrite Hroute. unfold mbind, gen_bind.
  change (redeem_decision p now ttl (RedemptionTarget.Endpoint a) k)
    with (let '(o, k') := redeem_known a p (fresh_runtime k) now ttl (S (S k)) in
          (Ok (E:=BootContextResolveError) o, k')).
  rewrite Hk. cbn [is_unknown]. cbv beta iota.
  match goal with |- context [persist_redemption db ?o None] =>
    destruct (persist_rotation db o a base (minted_slot (fresh_runtime k) now ttl (S (S k))))
      as [db' Hp]; try done end.
  - intros He. cbn in He. destruct (load_rows _ _ _ Ha) as (e & _ & _ & _ & _ & Hlp & Hls).
    unfold chain_slots in Hbs. apply list_elem_of_In in Hbs. rewrite He in Hfresh.
    destruct Hbs as [Hb|Hb]; [by rewrite Hb in Hlp; apply Hfresh in Hlp|].
    destruct (chain_successor (ep_credential a)) as [s'|]; [|done].
    destruct Hb as [->|[]]. by apply Hfresh in Hls.
  - rewrite Hp. by eauto.
Qed.
End Redemption.

(** ** Properties *)

Section EnrollmentProperties.
Context {ent : Entropy} {sha : Sha256} {pg : PgTimestamp} {pg_laws : PgTimestampLaws}.
Context {b64 : Base64}.

(** C23. Every run of the Server's enrollment operations keeps its tables well
    formed: each Endpoint row loads back as an aggregate with its credential chain,
    lookup identifiers and inventory signals are globally unique, and each boot
    context loads and, once resolved, names an existing Endpoint. The only
    assumption is that the UUIDs drawn in the run are distinct. *)
Theorem enrollment_tables_wellformed ops db k :
  run_ops empty_db ops 0 = (db, k) → fresh_draws 0 k → db_wf db.
Proof. intros Hr Hf. by destruct (good_run _ _ _ _ _ good_empty Hf Hr). Qed.

(** The Endpoint lifecycle: once enrolled an Endpoint is never lost; its
    identifier, inventory signal and creation time never change; revocation is
    permanent, across reboots too; and its identity state changes only from
    PendingEnrollment to Enrolled, by an operator's approval of that Endpoint. *)
Theorem endpoint_lifecycle ops1 ops2 db1 k1 db2 k2 id a :
  run_ops empty_db ops1 0 = (db1, k1) → run_ops db1 ops2 k1 = (db2, k2) → fresh_draws 0 k2 →
  load_by_id_for_update db1 id = Ok (Some a) →
  ∃ a', load_by_id_for_update db2 id = Ok (Some a') ∧ same_identity a a' ∧
    (chain_revoked (ep_credential a) = true → chain_revoked (ep_credential a') = true) ∧
    (ep_identity a' ≠ ep_identity a →
       ep_identity a = IdentityState.PendingEnrollment ∧
       ep_identity a' = IdentityState.Enrolled ∧
       ∃ operator now, EnrollOp.Approve id operator now ∈ ops2).
Proof.
  intros H1 H2 Hf Ha. pose proof (run_ops_counter db1 ops2 k1) as Hk. rewrite H2 in Hk.
  pose proof (good_run _ _ _ _ _ good_empty (fresh_draws_mono _ _ Hk Hf) H1) as Hg.
  destruct (run_agg_path _ _ _ _ _ _ _ Hg Hf H2 Ha) as (a' & Ha' & Hp).
  pose proof (load_rows _ _ _ Ha) as (_ & _ & <- & _).
  exists a'. split_and!; [done|by eapply agg_path_identity|by eapply agg_path_revoked|].
  by apply agg_path_lifecycle.
Qed.

(** Trust is earned by the current boot: if an Endpoint's current boot is
    trusted, then some accepted bootstrap evidence carried exactly its nonce, and
    at that moment the Endpoint's current boot already was this boot context with
    this nonce. Evidence for an earlier boot never makes a later one trusted. *)
Lemma trust_only_by_current_boot ops db k id a b :
  run_ops empty_db ops 0 = (db, k) → fresh_draws 0 k →
  load_by_id_for_update db id = Ok (Some a) → ep_current_boot a = Some b →
  cb_trusted_bootstrap b = TrustedBootstrapState.Established →
  ∃ pre post db1 k1 a1 b1,
    ops = pre ++ EnrollOp.EstablishTrust id (cb_boot_nonce b) :: post ∧
    run_ops empty_db pre 0 = (db1, k1) ∧
    load_by_id_for_update db1 id = Ok (Some a1) ∧ ep_current_boot a1 = Some b1 ∧
    cb_boot_context_id b1 = cb_boot_context_id b ∧ cb_boot_nonce b1 = cb_boot_nonce b.
Proof.
  revert db k a b. induction ops as [|op ops IH] using rev_ind; intros db k a b Hr Hf Ha Hb Ht.
  { injection Hr as <- <-. done. }
  apply run_ops_app in Hr as (db1 & k1 & H1 & H2 & Hk).
  apply run_ops_cons in H2 as (db2 & k2 & H2 & [= <- <-] & _).
  pose proof (fresh_draws_mono _ _ Hk Hf) as Hf1.
  pose proof (good_run _ _ _ _ _ good_empty Hf1 H1) as Hg.
  destruct (good_step _ _ _ _ _ Hg Hf H2) as [_ He].
  assert (∀ a0, load_by_id_for_update db1 id = Ok (Some a0) → ep_current_boot a0 = Some b →
    ∃ pre post db1 k1 a1 b1,
      ops ++ [op] = pre ++ EnrollOp.EstablishTrust id (cb_boot_nonce b) :: post ∧
      run_ops empty_db pre 0 = (db1, k1) ∧
      load_by_id_for_update db1 id = Ok (Some a1) ∧ ep_current_boot a1 = Some b1 ∧
      cb_boot_context_id b1 = cb_boot_context_id b ∧ cb_boot_nonce b1 = cb_boot_nonce b) as Hsame.
  { intros a0 Ha0 Hb0. destruct (IH _ _ _ _ H1 Hf1 Ha0 Hb0 Ht)
      as (pre & post & d & kd & ad & bd & -> & ?).
    exists pre, (post ++ [op]), d, kd, ad, bd. by rewrite <-app_assoc. }
  destruct (load_by_id_for_update db1 id) as [[a0|]|] eqn:Ha0; last first.
  - unfold load_by_id_for_update in Ha0. destruct Hg as [Hwf _].
    destruct (db_endpoints db1 !! id) eqn:Hid; [|done].
    destruct (wf_load _ Hwf id) as (x & Hx & _); [by eauto|].
    unfold load_by_id_for_update in Hx. rewrite Hid in Hx. congruence.
  - destruct (effect_new _ _ _ _ _ (proj1 Hg) He Ha0 Ha) as (_ & _ & b' & Hb' & Hnt). congruence.
  - destruct (effect_agg _ _ _ _ _ He Ha0) as (a2 & Ha2 & Hrel). rewrite Ha in Ha2.
    injection Ha2 as <-. pose proof (load_rows _ _ _ Ha0) as (_ & _ & Hid & _).
    destruct Hrel as [->|Hrel]; [by apply (Hsame a0)|].
    inversion Hrel as [| | | |nonce b0 ? ? _ _ _ Hb0 Hn Hb1]; subst;
      try (apply (Hsame a0); [done|congruence]).
    + rewrite Hb in *. by simplify_eq/=.
    + rewrite Hb in Hb1. injection Hb1 as ->. exists ops, [], db1, k1, a0, b0. done.
Qed.

(** A boot context is single-use: it stays as issued but for its resolution,
    which is set at most once and never changes; and once it is resolved its
    credential is never again routed to first contact or reboot. *)
Theorem boot_context_single_use ops1 ops2 db1 k1 db2 k2 lid c :
  run_ops empty_db ops1 0 = (db1, k1) → run_ops db1 ops2 k1 = (db2, k2) → fresh_draws 0 k2 →
  load_boot_context_for_update db1 (array_bytes lid) = Ok (Some c) →
  ∃ c', load_boot_context_for_update db2 (array_bytes lid) = Ok (Some c') ∧
    (c' = c ∨ bc_resolved_endpoint_id c = None ∧ ∃ e, c' = resolved_to c e) ∧
    (is_Some (bc_resolved_endpoint_id c) →
     ∀ kind c'' cand, route db2 kind lid ≠ Ok (RedemptionTarget.UnresolvedBootContext c'' cand)).
Proof.
  intros H1 H2 Hf Hc. pose proof (run_ops_counter db1 ops2 k1) as Hk. rewrite H2 in Hk.
  pose proof (good_run _ _ _ _ _ good_empty (fresh_draws_mono _ _ Hk Hf) H1) as Hg.
  assert (∃ c', load_boot_context_for_update db2 (array_bytes lid) = Ok (Some c') ∧
    (c' = c ∨ bc_resolved_endpoint_id c = None ∧ ∃ e, c' = resolved_to c e)) as (c' & Hc' & Hrel).
  { clear H1 Hk. revert db1 k1 c Hg Hc H2. induction ops2 as [|op ops IH]; intros db1 k1 c Hg Hc H2.
    - injection H2 as <- <-. eauto.
    - apply run_ops_cons in H2 as (db3 & k3 & H3 & H2 & Hk).
      destruct (good_step _ _ _ _ _ Hg (fresh_draws_mono _ _ Hk Hf) H3) as [Hg3 He].
      destruct (effect_ctx _ _ _ _ _ He Hc) as (c3 & Hc3 & Hr3).
      destruct (IH _ _ _ Hg3 Hc3 H2) as (c' & Hc' & Hr'). exists c'. split; [done|].
      destruct Hr3 as [->|(Hn & e & ->)]; [done|]. destruct Hr' as [->|(? & _)]; [|done].
      right. eauto. }
  exists c'. split_and!; [done|done|]. intros Hres kind c'' cand Hroute.
  apply route_unresolved in Hroute as (Hc'' & Hn & _). rewrite Hc' in Hc''. injection Hc'' as <-.
  destruct Hrel as [->|(Hn' & _)]; [by rewrite Hn in Hres; destruct Hres|].
  rewrite Hn' in Hres. by destruct Hres.
Qed.

(** C28. Redemption is sound: a session is established only for a wire value that
    parses to a credential whose secret is verified, either by an unexpired slot of
    a chain that is not revoked, or by an unresolved, unexpired boot context whose
    correlated Endpoint is not revoked. The new chain is reachable by exactly the
    presented and the issued credential, and the issued one is a Runtime credential
    valid for the configured time. *)
Theorem redeem_only_authentic ops db0 k0 wire now ttl db k id cred exp :
  run_ops empty_db ops 0 = (db0, k0) → fresh_draws 0 k →
  redeem db0 wire now ttl k0 = ((db, Ok (RedeemResult.Established id cred exp)), k) →
  ∃ p, PresentedCredential_parse wire = Ok p ∧ authentic db0 p now id ∧
    exp = (now + ttl)%Z ∧ pc_kind cred = CredentialKind.Runtime ∧
    ∃ a', load_by_id_for_update db id = Ok (Some a') ∧
      chain_ids (ep_credential a') = [pc_lookup_id p; pc_lookup_id cred].
Proof.
  intros H0 Hf Hr.
  assert (k0 ≤ k) as Hk.
  { pose proof (run_op_counter db0 (EnrollOp.Redeem wire now ttl) k0) as Hk.
    unfold run_op, mbind, gen_bind in Hk. by rewrite Hr in Hk. }
  destruct (good_run _ _ _ _ _ good_empty (fresh_draws_mono _ _ Hk Hf) H0) as [Hwf Hdr].
  by eapply redeem_sound.
Qed.

(** Redemption is complete for known Endpoints: in any reachable state, a
    credential that matches a live slot of a chain that is not revoked does
    establish a session for its Endpoint, provided the identifier drawn for the
    new credential is not in use. *)
Theorem redeem_accepts_live_credential `{!@Base64Laws b64} ops db k p now ttl a s :
  run_ops empty_db ops 0 = (db, k) → fresh_draws 0 k →
  load_by_id_for_update db (ep_id a) = Ok (Some a) → chain_revoked (ep_credential a) = false →
  s ∈ chain_slots (ep_credential a) → live_for s p now →
  (∀ key, db_lookups db !! key ≠ Some (array_bytes (pc_lookup_id (fresh_runtime k)))) →
  ∃ db' k', redeem db (to_wire_value p) now ttl k
    = ((db', Ok (RedeemResult.Established (ep_id a) (fresh_runtime k) (now + ttl)%Z)), k').
Proof.
  intros Hr Hf. destruct (good_run _ _ _ _ _ good_empty Hf Hr) as [Hwf _].
  intros Ha Hrev Hs Hm%slot_matches_live. eapply redeem_complete; [apply parse_of_wire_value|done..].
Qed.
End EnrollmentProperties.

(** ** A concrete run *)

Module EnrollmentExamples.
Import Reference.
#[local] Existing Instances base64 base64_laws base64_strict toy_sha256 counter_entropy micros
  micros_laws.

Definition nonce9 : BootNonce := be_array 32 9.
(** The Endpoint the first contact of this run creates: its draw is the sixth. *)
Definition ep6 : EndpointId := be_array 16 6.
Definition enrollment0 : PresentedCredential :=
  (PresentedCredential_generate CredentialKind.Enrollment 0).1.

(** A context is issued and redeemed. *)
Definition boot_ops : list EnrollOp.t :=
  [EnrollOp.Issue (lit "mac-1") nonce9 1000000 90000000;
   EnrollOp.Redeem (to_wire_value enrollment0) 2000000 90000000].
(** The operator approves, the boot is attested, the credential is rotated. *)
Definition later_ops : list EnrollOp.t :=
  [EnrollOp.Approve ep6 (Actor.Operator (lit "ops")) 3000000;
   EnrollOp.EstablishTrust ep6 nonce9;
   EnrollOp.Redeem (to_wire_value enrollment0) 4000000 90000000].

Definition db1 : EnrollDb := (run_ops empty_db boot_ops 0).1.
Definition k1 : nat := (run_ops empty_db boot_ops 0).2.
Definition db2 : EnrollDb := (run_ops db1 later_ops k1).1.
Definition k2 : nat := (run_ops db1 later_ops k1).2.

Definition no_endpoint : EndpointAggregate :=
  {| ep_id := ep6; ep_inventory_signal := []; ep_identity := IdentityState.Retired;
     ep_credential := CredentialExamples.chain12;
     ep_hardware_confidence := HardwareConfidence.Conflict; ep_current_boot := None;
     ep_created_at := 0; ep_updated_at := 0 |}.
Definition loaded (db : EnrollDb) (id : EndpointId) : EndpointAggregate :=
  match load_by_id_for_update db id with Ok (Some a) => a | _ => no_endpoint end.
Definition ep_after1 : EndpointAggregate := loaded db1 ep6.
Definition ep_after2 : EndpointAggregate := loaded db2 ep6.
Definition boot_after2 : CurrentBoot :=
  {| cb_boot_context_id := pc_lookup_id enrollment0; cb_boot_nonce := nonce9;
     cb_trusted_bootstrap := TrustedBootstrapState.Established |}.

Lemma run1 : run_ops empty_db boot_ops 0 = (db1, k1).
Proof. apply surjective_pairing. Qed.
Lemma run2 : run_ops db1 later_ops k1 = (db2, k2).
Proof. apply surjective_pairing. Qed.
Lemma run12 : run_ops empty_db (boot_ops ++ later_ops) 0 = (db2, k2).
Proof. exact (run_ops_then _ _ _ _ _ _ _ _ run1 run2). Qed.
Lemma fresh1 : fresh_draws 0 k1.
Proof. by_evaluation. Qed.
Lemma fresh2 : fresh_draws 0 k2.
Proof. by_evaluation. Qed.
Lemma loaded1 : load_by_id_for_update db1 ep6 = Ok (Some ep_after1).
Proof. vm_compute. reflexivity. Qed.

Lemma enrollment_tables_wellformed_witness : db_wf db1.
Proof. exact (enrollment_tables_wellformed boot_ops db1 k1 run1 fresh1). Defined.

Lemma endpoint_lifecycle_witness :
  ∃ a', load_by_id_for_update db2 ep6 = Ok (Some a') ∧ same_identity ep_after1 a' ∧
    (chain_revoked (ep_credential ep_after1) = true → chain_revoked (ep_credential a') = true) ∧
    (ep_identity a' ≠ ep_identity ep_after1 →
       ep_identity ep_after1 = IdentityState.PendingEnrollment ∧
       ep_identity a' = IdentityState.Enrolled ∧
       ∃ operator now, EnrollOp.Approve ep6 operator now ∈ later_ops).
Proof. exact (endpoint_lifecycle boot_ops later_ops db1 k1 db2 k2 ep6 ep_after1
                run1 run2 fresh2 loaded1). Defined.

Lemma trust_only_by_current_boot_witness :
  ∃ pre post dbp kp a1 b1,
    boot_ops ++ later_ops = pre ++ EnrollOp.EstablishTrust ep6 (cb_boot_nonce boot_after2) :: post ∧
    run_ops empty_db pre 0 = (dbp, kp) ∧
    load_by_id_for_update dbp ep6 = Ok (Some a1) ∧ ep_current_boot a1 = Some b1 ∧
    cb_boot_context_id b1 = cb_boot_context_id boot_after2 ∧
    cb_boot_nonce b1 = cb_boot_nonce boot_after2.
Proof.
  apply (trust_only_by_current_boot (boot_ops ++ later_ops) db2 k2 ep6 ep_after2 boot_after2).
  - exact run12.
  - exact fresh2.
  - vm_compute. reflexivity.
  - by_evaluation.
  - reflexivity.
Defined.

Lemma boot_context_single_use_witness :
  ∃ c, load_boot_context_for_update db1 (array_bytes (pc_lookup_id enrollment0)) = Ok (Some c) ∧
    ∃ c', load_boot_context_for_update db2 (array_bytes (pc_lookup_id enrollment0)) = Ok (Some c') ∧
    (c' = c ∨ bc_resolved_endpoint_id c = None ∧ ∃ e, c' = resolved_to c e) ∧
    (is_Some (bc_resolved_endpoint_id c) → ∀ kind c'' cand,
       route db2 kind (pc_lookup_id enrollment0)
       ≠ Ok (RedemptionTarget.UnresolvedBootContext c'' cand)).
Proof.
  destruct (load_boot_context_for_update db1 (array_bytes (pc_lookup_id enrollment0)))
    as [[c|]|] eqn:Hc; [|vm_compute in Hc; discriminate Hc..].
  exists c. split; [done|].
  exact (boot_context_single_use boot_ops later_ops db1 k1 db2 k2 (pc_lookup_id enrollment0) c
    run1 run2 fresh2 Hc).
Defined.

Definition redeem_again : EnrollDb * result Backend.t RedeemResult.t * nat :=
  redeem db1 (to_wire_value enrollment0) 4000000 90000000 k1.

(** The parts of an established result. *)
Definition session (r : EnrollDb * result Backend.t RedeemResult.t * nat)
  : option (EndpointId * PresentedCredential * Instant) :=
  match r.1.2 with Ok (RedeemResult.Established i c e) => Some (i, c, e) | _ => None end.

Lemma session_Some r i c e :
  session r = Some (i, c, e) → r = ((r.1.1, Ok (RedeemResult.Established i c e)), r.2).
Proof. destruct r as [[d [[i' c' e'|]|]] k]; cbn; naive_solver. Qed.

Lemma redeem_only_authentic_witness :
  ∃ id cred exp p, session redeem_again = Some (id, cred, exp) ∧
    PresentedCredential_parse (to_wire_value enrollment0) = Ok p ∧
    authentic db1 p 4000000 id ∧ (exp = 4000000 + 90000000)%Z ∧
    pc_kind cred = CredentialKind.Runtime ∧
    ∃ a', load_by_id_for_update redeem_again.1.1 id = Ok (Some a') ∧
      chain_ids (ep_credential a') = [pc_lookup_id p; pc_lookup_id cred].
Proof.
  destruct (session redeem_again) as [[[id cred] exp]|] eqn:Hs;
    [|vm_compute in Hs; discriminate Hs].
  destruct (redeem_only_authentic boot_ops db1 k1 (to_wire_value enrollment0) 4000000 90000000
    redeem_again.1.1 redeem_again.2 id cred exp) as (p & Hp).
  - exact run1.
  - by_evaluation.
  - exact (session_Some _ _ _ _ Hs).
  - exists id, cred, exp, p. split; [done|exact Hp].
Defined.

Lemma redeem_accepts_live_credential_witness :
  ∃ db' k', redeem db1 (to_wire_value enrollment0) 4000000 90000000 k1
    = ((db', Ok (RedeemResult.Established (ep_id ep_after1) (fresh_runtime k1)
                   (4000000 + 90000000)%Z)), k').
Proof.
  apply (redeem_accepts_live_credential boot_ops db1 k1 enrollment0 4000000 90000000 ep_after1
    (chain_predecessor (ep_credential ep_after1))).
  - exact run1.
  - exact fresh1.
  - vm_compute. reflexivity.
  - vm_compute. reflexivity.
  - left.
  - apply slot_matches_live. vm_compute. reflexivity.
  - intros key Hkey%elem_of_map_to_list.
    assert (forallb (λ p, negb (bool_decide (p.2 = array_bytes (pc_lookup_id (fresh_runtime k1)))))
              (map_to_list (db_lookups db1)) = true) as Hall by (vm_compute; reflexivity).
    rewrite forallb_elem_of in Hall. specialize (Hall _ Hkey). cbn in Hall.
    by rewrite bool_decide_eq_true_2 in Hall.
Defined.
End EnrollmentExamples.
