(* ===== verification/Inventory.v ===== *)
(** * Inventory persistence

    Models [adapters/postgres/inventory_repository.rs] and [InventoryService] of
    [application/mod.rs]: the table of inventory revisions and the current-revision column
    of the Endpoints table, next to the enrollment tables they are kept with. Shown: the
    history is append-only and always readable, and a report is recorded exactly when it
    differs from the current revision. *)

From stdpp Require Import prelude gmap strings.
From Stdlib Require Import Strings.Byte NArith ZArith.
From S2P Require Import Prelude.
From S2P Require Import External.
From S2P Require Import Endpoint.
From S2P Require Import Enrollment.
From S2P Require Import EnrollmentStore.
From S2P Require Import EnrollmentSafety.

(** ** The [JSONB] column

    [serde_json] objects and what the column gives back for a value written to it;
    [jsonb] is [None] where PostgreSQL refuses the value. *)
Class JsonbInventory : Type := {
  InventorySnapshot : Type;
  JsonValue : Type;
  snapshot_eq_dec :: EqDecision InventorySnapshot;
  value_object : InventorySnapshot → JsonValue;
  as_object : JsonValue → option InventorySnapshot;
  jsonb : JsonValue → option JsonValue;
}.

(** [Value::as_object] inverts [Value::Object]; a stored object reads back as an object
    (numbers and key order may be normalised). *)
Class JsonbInventoryLaws `{JsonbInventory} : Prop := {
  as_object_value s : as_object (value_object s) = Some s;
  jsonb_object s v : jsonb (value_object s) = Some v → ∃ s', v = value_object s';
}.

Module InventoryError.
Inductive t : Type :=
| NotFound (id : EndpointId)
| NotAnObject
| Database (e : Backend.t)
| JsonRefused.
End InventoryError.

(** Inventory reports among the operations on the enrollment tables. *)
Module InventoryOp.
Inductive t {js : JsonbInventory} : Type :=
| Enroll (op : EnrollOp.t)
| Report (id : EndpointId) (inventory : InventorySnapshot) (now : Instant).
End InventoryOp.

Section Inventory.
Context {js : JsonbInventory} {ent : Entropy} {pg : PgTimestamp}.

Record RevisionRow : Type := { rr_inventory : JsonValue; rr_recorded_at : Instant }.

(** [iv_current] is the column [endpoints.current_inventory_revision_id], absent when null. *)
Record InventoryDb : Type := {
  iv_enroll : EnrollDb;
  iv_current : gmap EndpointId InventoryRevisionId;
  iv_revisions : gmap (EndpointId * InventoryRevisionId) RevisionRow;
}.

Definition empty_inventory_db : InventoryDb :=
  {| iv_enroll := empty_db; iv_current := ∅; iv_revisions := ∅ |}.

Definition row_to_revision (id : EndpointId) (revision : InventoryRevisionId) (row : RevisionRow)
  : result InventoryError.t (InventoryRevision InventorySnapshot) :=
  inventory ← ok_or InventoryError.NotAnObject (as_object (rr_inventory row));
  Ok {| ir_id := revision; ir_endpoint_id := id; ir_snapshot := inventory;
        ir_recorded_at := rr_recorded_at row |}.

(** The join of the two tables on the current revision. *)
Definition select_current (db : InventoryDb) (id : EndpointId)
  : option (InventoryRevisionId * RevisionRow) :=
  revision ← iv_current db !! id; row ← iv_revisions db !! (id, revision); Some (revision, row).

Definition current_revision (db : InventoryDb) (id : EndpointId)
  : result InventoryError.t (option (InventoryRevision InventorySnapshot)) :=
  match select_current db id with
  | None => Ok None
  | Some (revision, row) => r ← row_to_revision id revision row; Ok (Some r)
  end.

(** The three writes of a change, in one transaction. *)
Definition insert_revision (db : InventoryDb) (id : EndpointId)
    (change : InventoryRevisionChange InventorySnapshot) : result InventoryError.t InventoryDb :=
  let revision := irc_revision change in
  value ← ok_or InventoryError.JsonRefused (jsonb (value_object (ir_snapshot revision)));
  revisions ← map_err InventoryError.Database
    (insert_unique (id, ir_id revision)
       {| rr_inventory := value; rr_recorded_at := pg_timestamp (ir_recorded_at revision) |}
       (iv_revisions db));
  events ← map_err InventoryError.Database
    (insert_events [irc_event change] (db_events (iv_enroll db)));
  let e := iv_enroll db in
  Ok {| iv_enroll := {| db_endpoints := db_endpoints e; db_credentials := db_credentials e;
                        db_lookups := db_lookups e; db_boot_contexts := db_boot_contexts e;
                        db_events := events; db_audits := db_audits e |};
        iv_current := <[id := ir_id revision]> (iv_current db);
        iv_revisions := revisions |}.

Definition record_inventory (db : InventoryDb) (id : EndpointId) (inventory : InventorySnapshot)
    (recorded_at : Instant)
  : Gen (InventoryDb * result InventoryError.t (option (InventoryRevision InventorySnapshot))) :=
  match db_endpoints (iv_enroll db) !! id with
  | None => mret (db, Err (InventoryError.NotFound id))
  | Some _ =>
      match current_revision db id with
      | Err e => mret (db, Err e)
      | Ok current =>
          change ← record_inventory_on_change id current inventory recorded_at;
          match change with
          | None => mret (db, Ok None)
          | Some change =>
              mret match insert_revision db id change with
                   | Err e => (db, Err e)
                   | Ok db' => (db', Ok (Some (irc_revision change)))
                   end
          end
      end
  end.

Definition find_current_inventory (db : InventoryDb) (id : EndpointId)
  : result InventoryError.t (option (InventoryRevision InventorySnapshot)) :=
  match db_endpoints (iv_enroll db) !! id with
  | None => Err (InventoryError.NotFound id)
  | Some _ => current_revision db id
  end.

(** ** Runs *)

Context {sha : Sha256} {b64 : Base64}.

(** [InventoryService::record] reads the clock; enrollment does not touch the inventory
    columns. *)
Definition run_inventory_op (db : InventoryDb) (op : InventoryOp.t) : Gen InventoryDb :=
  match op with
  | InventoryOp.Enroll op =>
      e ← run_op (iv_enroll db) op;
      mret {| iv_enroll := e; iv_current := iv_current db; iv_revisions := iv_revisions db |}
  | InventoryOp.Report id inventory now => r ← record_inventory db id inventory now; mret r.1
  end.

Fixpoint run_inventory_ops (db : InventoryDb) (ops : list InventoryOp.t) : Gen InventoryDb :=
  match ops with
  | [] => mret db
  | op :: rest => db' ← run_inventory_op db op; run_inventory_ops db' rest
  end.

(** ** The history *)

(** Every revision is an object, and every current revision exists. *)
Record inventory_wf (db : InventoryDb) : Prop := {
  iw_object k row : iv_revisions db !! k = Some row → is_Some (as_object (rr_inventory row));
  iw_current id r : iv_current db !! id = Some r → is_Some (iv_revisions db !! (id, r));
}.

(** Nothing recorded is lost or rewritten. *)
Definition history_extends (db db' : InventoryDb) : Prop :=
  iv_revisions db ⊆ iv_revisions db' ∧ dom (iv_current db) ⊆ dom (iv_current db').

#[export] Instance history_extends_preorder : PreOrder history_extends.
Proof. split; [done|]. intros a b c [H1 H2] [H3 H4]. split; by etrans. Qed.

Lemma unique_insert_Ok `{Countable K} {A} (k : K) (a : A) m m' :
  insert_unique k a m = Ok m' → m !! k = None ∧ m' = <[k := a]> m.
Proof. unfold insert_unique. destruct (m !! k); [done|]. by intros [= <-]. Qed.

Lemma insert_revision_Ok db id change db' :
  insert_revision db id change = Ok db' →
  let r := irc_revision change in
  ∃ v, jsonb (value_object (ir_snapshot r)) = Some v ∧
    iv_revisions db !! (id, ir_id r) = None ∧
    iv_revisions db' = <[(id, ir_id r) := {| rr_inventory := v;
                           rr_recorded_at := pg_timestamp (ir_recorded_at r) |}]> (iv_revisions db) ∧
    iv_current db' = <[id := ir_id r]> (iv_current db) ∧
    db_endpoints (iv_enroll db') = db_endpoints (iv_enroll db) ∧
    db_events (iv_enroll db') !! DomainEvent.event_id (irc_event change) = Some (irc_event change).
Proof.
  unfold insert_revision. intros (v & Hv%ok_or_Ok & Hr)%result_bind_Ok.
  apply result_bind_Ok in Hr as (m & Hm & Hr). apply result_bind_Ok in Hr as (e & He & [= <-]).
  assert (∀ (r : result Backend.t (gmap _ RevisionRow)),
            map_err InventoryError.Database r = Ok m → r = Ok m) as Hok.
  { by intros [] [= ->]. }
  apply Hok, unique_insert_Ok in Hm as [Hn ->]. exists v. split_and!; try done. simpl.
  cbn in He. destruct (insert_unique _ _ _) as [x|] eqn:Hx; [|done]. injection He as <-.
  apply unique_insert_Ok in Hx as [_ ->]. apply lookup_insert_eq.
Qed.

Lemma record_cases db id s now k :
  ∃ r k', record_inventory db id s now k = (r, k') ∧
    (r.1 = db ∨ ∃ change, insert_revision db id change = Ok r.1).
Proof.
  unfold record_inventory, record_inventory_on_change, mbind, gen_bind, mret, gen_ret.
  destruct (db_endpoints _ !! id); [|by eauto].
  destruct (current_revision db id) as [c|]; [|by eauto].
  match goal with |- context [if ?b then _ else _] => destruct b end; cbn; [by eauto|].
  destruct (insert_revision _ _ _) eqn:Hi; cbn; [|by eauto]. eexists _, _. split; [done|]. by eauto.
Qed.

Lemma insert_revision_wf `{!JsonbInventoryLaws} db id change db' :
  insert_revision db id change = Ok db' → inventory_wf db →
  inventory_wf db' ∧ history_extends db db'.
Proof.
  intros (v & Hv & Hn & Hrev & Hcur & _)%insert_revision_Ok [Ho Hc]. split; [split|split].
  - intros k row. rewrite Hrev, lookup_insert_Some. intros [[<- <-]|[_ Hk]]; [|by eapply Ho].
    destruct (jsonb_object _ _ Hv) as [s' ->]. simpl. by rewrite as_object_value.
  - intros i r. rewrite Hcur, Hrev, lookup_insert_Some. intros [[<- <-]|[_ Hk]].
    + by rewrite lookup_insert_eq.
    + apply lookup_insert_is_Some'. right. by apply Hc.
  - rewrite Hrev. by apply insert_subseteq.
  - rewrite Hcur, dom_insert. set_solver.
Qed.

Lemma run_inventory_op_wf `{!JsonbInventoryLaws} db op k :
  inventory_wf db →
  inventory_wf (run_inventory_op db op k).1 ∧ history_extends db (run_inventory_op db op k).1.
Proof.
  intros Hwf. destruct op as [op|id s now]; simpl; unfold mbind, gen_bind.
  - destruct (run_op (iv_enroll db) op k) as [e k']. simpl. split; [|done]. by destruct Hwf.
  - destruct (record_cases db id s now k) as (r & k' & -> & Hr). simpl.
    destruct Hr as [->|[change Hr]]; [done|]. by eapply insert_revision_wf.
Qed.

Lemma run_inventory_ops_wf `{!JsonbInventoryLaws} ops db k :
  inventory_wf db →
  inventory_wf (run_inventory_ops db ops k).1 ∧ history_extends db (run_inventory_ops db ops k).1.
Proof.
  revert db k. induction ops as [|op ops IH]; intros db k Hwf; [done|].
  cbn [run_inventory_ops]. unfold mbind, gen_bind.
  destruct (run_inventory_op_wf db op k Hwf) as [Hwf' He].
  destruct (run_inventory_op db op k) as [db' k']. destruct (IH db' k' Hwf') as [? ?].
  split; [done|]. by etrans.
Qed.

Lemma empty_inventory_wf : inventory_wf empty_inventory_db.
Proof. split; intros *; simpl; by rewrite lookup_empty. Qed.

Lemma current_revision_Ok db id : inventory_wf db → ∃ r, current_revision db id = Ok r.
Proof.
  intros [Ho Hc]. unfold current_revision, select_current.
  destruct (iv_current db !! id) as [r|] eqn:Hr; simpl; [|by eauto].
  destruct (Hc _ _ Hr) as [row Hrow]. rewrite Hrow. simpl. unfold row_to_revision.
  destruct (Ho _ _ Hrow) as [s ->]. simpl. by eauto.
Qed.

(** The inventory history is append-only and readable: whatever enrollment operations
    and inventory reports the Server performs, the current inventory of every Endpoint can
    be read, no recorded revision is ever changed or lost, and an Endpoint that has a
    current revision keeps having one. *)
Theorem inventory_append_only `{!JsonbInventoryLaws} ops1 ops2 db1 k1 db2 k2 :
  run_inventory_ops empty_inventory_db ops1 0 = (db1, k1) →
  run_inventory_ops db1 ops2 k1 = (db2, k2) →
  (∀ id, is_Some (db_endpoints (iv_enroll db1) !! id) →
     ∃ r, find_current_inventory db1 id = Ok r) ∧ history_extends db1 db2.
Proof.
  intros H1 H2. destruct (run_inventory_ops_wf ops1 _ 0 empty_inventory_wf) as [Hwf _].
  rewrite H1 in Hwf. cbn in Hwf. destruct (run_inventory_ops_wf ops2 _ k1 Hwf) as [_ He]. rewrite H2 in He.
  split; [|done]. intros id [e Hid]. unfold find_current_inventory. rewrite Hid.
  by apply current_revision_Ok.
Qed.

Lemma record_same db id s now k r :
  find_current_inventory db id = Ok (Some r) → ir_snapshot r = s →
  record_inventory db id s now k = ((db, Ok None), k).
Proof.
  unfold find_current_inventory, record_inventory. destruct (db_endpoints _ !! id); [|done].
  intros ->. intros Hs. unfold record_inventory_on_change, mbind, gen_bind, mret, gen_ret.
  by rewrite bool_decide_eq_true_2.
Qed.

(** The revision a report is recorded as, and as it reads back. *)
Definition revision_of (id : EndpointId) (s : InventorySnapshot) (now : Instant) (k : nat)
  : InventoryRevision InventorySnapshot :=
  {| ir_id := draw_uuid k; ir_endpoint_id := id; ir_snapshot := s; ir_recorded_at := now |}.

Lemma record_change db id s s' now k current :
  find_current_inventory db id = Ok current → ir_snapshot <$> current ≠ Some s →
  jsonb (value_object s) = Some (value_object s') →
  as_object (value_object s') = Some s' →
  iv_revisions db !! (id, draw_uuid k) = None →
  db_events (iv_enroll db) !! draw_uuid (S k) = None →
  ∃ db', record_inventory db id s now k = ((db', Ok (Some (revision_of id s now k))), S (S k)) ∧
    find_current_inventory db' id = Ok (Some (revision_of id s' (pg_timestamp now) k)) ∧
    ∀ id', id' ≠ id → find_current_inventory db' id' = find_current_inventory db id'.
Proof.
  unfold find_current_inventory at 1, record_inventory. destruct (db_endpoints _ !! id) eqn:He; [|done].
  intros -> Hne Hj Ho Hr Hev. unfold record_inventory_on_change.
  replace (match current with Some r => bool_decide (ir_snapshot r = s) | None => false end)
    with false.
  2: { destruct current; [|done]. symmetry. apply bool_decide_eq_false_2. by intros <-. }
  run_gen. simpl. destruct (insert_revision _ _ _) as [db'|] eqn:Hi; last first.
  { exfalso. revert Hi. unfold insert_revision. simpl. rewrite Hj. simpl. unfold insert_unique.
    rewrite Hr. simpl. by rewrite Hev. }
  exists db'. split; [done|]. apply insert_revision_Ok in Hi as (v & Hv & _ & Hrev & Hcur & Hen & _).
  simpl in *. rewrite Hj in Hv. injection Hv as <-.
  unfold find_current_inventory, current_revision, select_current. rewrite Hen, He, Hcur, Hrev.
  rewrite lookup_insert_eq. simpl. rewrite lookup_insert_eq. simpl. unfold row_to_revision. simpl.
  rewrite Ho. split; [done|]. intros id' Hid. destruct (db_endpoints _ !! id'); [|done].
  rewrite lookup_insert_ne by done. destruct (iv_current db !! id') as [r|]; [|done]. simpl.
  by rewrite lookup_insert_ne by congruence.
Qed.

(** A report is recorded exactly when it differs from the current revision: in every
    reachable state and for every existing Endpoint, a report equal to the current snapshot
    changes nothing and answers None; any other report becomes the current revision, with
    the Endpoint, time and snapshot it came with, no other Endpoint's inventory changes, and
    if the column gives the snapshot back unchanged then repeating the report records
    nothing. Assumed: the two UUIDs drawn are not in the tables yet and the database takes
    the value. *)
Theorem inventory_recorded_on_change `{!JsonbInventoryLaws} ops db k id s s' now :
  run_inventory_ops empty_inventory_db ops 0 = (db, k) →
  is_Some (db_endpoints (iv_enroll db) !! id) →
  iv_revisions db !! (id, draw_uuid k) = None →
  db_events (iv_enroll db) !! draw_uuid (S k) = None →
  jsonb (value_object s) = Some (value_object s') →
  ∃ current, find_current_inventory db id = Ok current ∧
    (if decide (ir_snapshot <$> current = Some s)
     then record_inventory db id s now k = ((db, Ok None), k)
     else ∃ db',
       record_inventory db id s now k = ((db', Ok (Some (revision_of id s now k))), S (S k)) ∧
       find_current_inventory db' id = Ok (Some (revision_of id s' (pg_timestamp now) k)) ∧
       (∀ id', id' ≠ id → find_current_inventory db' id' = find_current_inventory db id') ∧
       (s' = s → ∀ now' k', record_inventory db' id s now' k' = ((db', Ok None), k'))).
Proof.
  intros Hrun [e He] Hr Hev Hj.
  destruct (run_inventory_ops_wf ops _ 0 empty_inventory_wf) as [Hwf _]. rewrite Hrun in Hwf. cbn in Hwf.
  destruct (current_revision_Ok db id Hwf) as [current Hc].
  assert (find_current_inventory db id = Ok current) as Hf
    by (unfold find_current_inventory; by rewrite He).
  exists current. split; [done|]. case_decide as Hs.
  - destruct current as [r|]; [|done]. injection Hs as Hs. by apply (record_same _ _ _ _ _ r).
  - destruct (record_change db id s s' now k current) as (db' & ? & Hf' & ?); try done.
    { apply as_object_value. }
    exists db'. split_and!; [done..|]. intros -> now' k'. by eapply record_same.
Qed.
End Inventory.

(** ** A concrete run *)

Module InventoryExamples.
Import Reference.
Import EnrollmentExamples.
#[local] Existing Instances base64 base64_laws base64_strict toy_sha256 counter_entropy micros
  micros_laws.

(** Snapshots as texts; the column refuses those with a NUL character. *)
#[local] Instance text_inventory : JsonbInventory :=
  {| InventorySnapshot := str; JsonValue := str; value_object := id; as_object := Some;
     jsonb v := if existsb (λ b, bool_decide (b = x00)) v then None else Some v |}.
#[local] Instance text_inventory_laws : JsonbInventoryLaws.
Proof. split; [done|]. intros s v _. by exists v. Qed.

Definition disk1 : InventorySnapshot := lit "disk-1".
Definition disk2 : InventorySnapshot := lit "disk-2".
Definition report_ops : list InventoryOp.t :=
  (InventoryOp.Enroll <$> boot_ops) ++ [InventoryOp.Report ep6 disk1 5000000].
Definition report_db : InventoryDb := (run_inventory_ops empty_inventory_db report_ops 0).1.
Definition report_k : nat := (run_inventory_ops empty_inventory_db report_ops 0).2.
Definition report_db2 : InventoryDb :=
  (run_inventory_ops report_db [InventoryOp.Report ep6 disk2 6000000] report_k).1.

Lemma inventory_append_only_witness :
  (∀ id, is_Some (db_endpoints (iv_enroll report_db) !! id) →
     ∃ r, find_current_inventory report_db id = Ok r) ∧ history_extends report_db report_db2.
Proof.
  apply (inventory_append_only report_ops [InventoryOp.Report ep6 disk2 6000000]
           report_db report_k report_db2
           (run_inventory_ops report_db [InventoryOp.Report ep6 disk2 6000000] report_k).2);
    apply surjective_pairing.
Defined.

Lemma inventory_recorded_on_change_witness :
  ∃ current, find_current_inventory report_db ep6 = Ok current ∧
    (if decide (ir_snapshot <$> current = Some disk2)
     then record_inventory report_db ep6 disk2 6000000 report_k
          = ((report_db, Ok None), report_k)
     else ∃ db',
       record_inventory report_db ep6 disk2 6000000 report_k
         = ((db', Ok (Some (revision_of ep6 disk2 6000000 report_k))), S (S report_k)) ∧
       find_current_inventory db' ep6
         = Ok (Some (revision_of ep6 disk2 (pg_timestamp 6000000) report_k)) ∧
       (∀ id', id' ≠ ep6 →
          find_current_inventory db' id' = find_current_inventory report_db id') ∧
       (disk2 = disk2 → ∀ now' k',
          record_inventory db' ep6 disk2 now' k' = ((db', Ok None), k'))).
Proof.
  apply (inventory_recorded_on_change report_ops report_db report_k ep6 disk2
           disk2 6000000).
  - apply surjective_pairing.
  - vm_compute. by eauto.
  - vm_compute. reflexivity.
  - vm_compute. reflexivity.
  - reflexivity.
Defined.
End InventoryExamples.
