(* ===== verification/TrustedBootstrap.v ===== *)
(** * Trusted bootstrap

    Models [crates/trusted-bootstrap]: boot nonces, certificate fingerprints, site keys,
    the signed assertion (197 bytes, carried as 263 characters) and its verification; then
    [BootstrapEvidenceService] of the server, which turns verified evidence into trust in
    an Endpoint's current boot, and the local establishment of the Simulated Agent
    ([crates/simulator/src/trusted_bootstrap.rs]). Shown: the carrier is canonical, a boot
    becomes trusted only by a site key's signature over exactly its nonce and the
    certificate of the connection, and signed evidence for the current boot is accepted. *)

From stdpp Require Import prelude gmap strings.
From Stdlib Require Import Strings.Byte NArith ZArith.
From S2P Require Import Prelude.
From S2P Require Import External.
From S2P Require Import Credential.
From S2P Require Import Endpoint.
From S2P Require Import Enrollment.
From S2P Require Import EnrollmentStore.
From S2P Require Import EnrollmentSafety.

(** ** [boot_nonce.rs] *)

Definition BOOT_NONCE_WIRE_LEN : nat := 43.

Module BootNonceError.
Inductive t : Type :=
| Entropy | WireLength | InvalidCharacters | InvalidEncoding | InvalidDecodedLength | NonCanonical.
End BootNonceError.

Definition BootNonce_to_wire_value `{Base64} (n : array BOOT_NONCE_BYTES) : str :=
  b64_encode (array_bytes n).

Definition BootNonce_parse_wire_value `{Base64} (value : str)
  : result BootNonceError.t (array BOOT_NONCE_BYTES) :=
  if negb (bool_decide (length value = BOOT_NONCE_WIRE_LEN)) then Err BootNonceError.WireLength
  else if negb (forallb is_canonical_base64url_char value) then Err BootNonceError.InvalidCharacters
  else
    decoded ← ok_or BootNonceError.InvalidEncoding (b64_decode value);
    candidate ← ok_or BootNonceError.InvalidDecodedLength (try_into BOOT_NONCE_BYTES decoded);
    if negb (bool_decide (BootNonce_to_wire_value candidate = value))
    then Err BootNonceError.NonCanonical else Ok candidate.

(** [available]: whether the operating system provides randomness. *)
Definition BootNonce_generate `{Entropy} (available : bool)
  : Gen (result BootNonceError.t (array BOOT_NONCE_BYTES)) :=
  if available then bytes ← fill_bytes BOOT_NONCE_BYTES; mret (Ok bytes)
  else mret (Err BootNonceError.Entropy).

(** ** [fingerprint.rs] *)

Abbreviation ServerCertFingerprint := (array 32).

Definition ServerCertFingerprint_from_leaf_der `{Sha256} (der : list byte) : ServerCertFingerprint :=
  sha256 der.

Definition matches_leaf_der `{Sha256} (f : ServerCertFingerprint) (der : list byte) : bool :=
  bool_decide (ServerCertFingerprint_from_leaf_der der = f).

(** ** [site_key.rs] *)

Section SiteKeys.
Context {sha : Sha256} {ed : Ed25519}.

Definition SitePublicKey_from_bytes (bytes : array 32) : option VerifyingKey := vk_from_bytes bytes.
Definition SitePublicKey_as_bytes (k : VerifyingKey) : array 32 := vk_to_bytes k.

Definition SiteKeyId_from_public_key (k : VerifyingKey) : array 32 :=
  sha256 (array_bytes (SitePublicKey_as_bytes k)).

(** [AcceptedSiteKeys]: keys under their identifiers, in order. *)
Definition AcceptedSiteKeys : Type := list (array 32 * VerifyingKey).

Definition AcceptedSiteKeys_new (keys : list VerifyingKey) : AcceptedSiteKeys :=
  (λ k, (SiteKeyId_from_public_key k, k)) <$> keys.

Definition AcceptedSiteKeys_single (k : VerifyingKey) : AcceptedSiteKeys := AcceptedSiteKeys_new [k].

Definition AcceptedSiteKeys_find (keys : AcceptedSiteKeys) (id : array 32) : option VerifyingKey :=
  snd <$> find (λ e, bool_decide (e.1 = id)) keys.
End SiteKeys.

(** ** [assertion.rs] *)

Definition DOMAIN_DISCRIMINATOR : list byte := lit "bamep.trusted-bootstrap.assertion".
Definition SCHEMA_VERSION : N := 1.
Definition TRANSCRIPT_LEN : nat := 133.
Definition SIGNATURE_LEN : nat := 64.
Definition ASSERTION_LEN : nat := TRANSCRIPT_LEN + SIGNATURE_LEN.
Definition CARRIER_LEN : nat := 263.
Definition NONCE_OFFSET : nat := 37.
Definition FINGERPRINT_OFFSET : nat := 69.
Definition SITE_KEY_ID_OFFSET : nat := 101.

Definition BootstrapAssertion : Type := array ASSERTION_LEN.

Module AssertionParseError.
Inductive t : Type :=
| CarrierLength | CarrierCharacters | CarrierEncoding | CarrierNonCanonical | AssertionLength
| DomainLength | DomainDiscriminator | UnsupportedSchemaVersion.
End AssertionParseError.

(** [&bytes[from..to]]. *)
Definition byte_range (l : list byte) (from to : nat) : list byte := take (to - from) (drop from l).

Definition validate_header (a : BootstrapAssertion) : result AssertionParseError.t unit :=
  let bytes := array_bytes a in
  if negb (from_be (byte_range bytes 0 2) =? N.of_nat (length DOMAIN_DISCRIMINATOR))%N
  then Err AssertionParseError.DomainLength
  else if negb (bool_decide (byte_range bytes 2 35 = DOMAIN_DISCRIMINATOR))
  then Err AssertionParseError.DomainDiscriminator
  else if negb (from_be (byte_range bytes 35 37) =? SCHEMA_VERSION)%N
  then Err AssertionParseError.UnsupportedSchemaVersion
  else Ok ().

Definition BootstrapAssertion_to_wire_value `{Base64} (a : BootstrapAssertion) : str :=
  b64_encode (array_bytes a).

Definition BootstrapAssertion_parse_wire_value `{Base64} (carrier : str)
  : result AssertionParseError.t BootstrapAssertion :=
  if negb (bool_decide (length carrier = CARRIER_LEN)) then Err AssertionParseError.CarrierLength
  else if negb (forallb is_canonical_base64url_char carrier)
  then Err AssertionParseError.CarrierCharacters
  else
    decoded ← ok_or AssertionParseError.CarrierEncoding (b64_decode carrier);
    candidate ← ok_or AssertionParseError.AssertionLength (try_into ASSERTION_LEN decoded);
    if negb (bool_decide (BootstrapAssertion_to_wire_value candidate = carrier))
    then Err AssertionParseError.CarrierNonCanonical
    else _ ← validate_header candidate; Ok candidate.

Definition boot_nonce_bytes (a : BootstrapAssertion) : array 32 :=
  array_copy 32 (byte_range (array_bytes a) NONCE_OFFSET (NONCE_OFFSET + 32)).
Definition server_fingerprint_bytes (a : BootstrapAssertion) : array 32 :=
  array_copy 32 (byte_range (array_bytes a) FINGERPRINT_OFFSET (FINGERPRINT_OFFSET + 32)).
Definition site_key_id_bytes (a : BootstrapAssertion) : array 32 :=
  array_copy 32 (byte_range (array_bytes a) SITE_KEY_ID_OFFSET (SITE_KEY_ID_OFFSET + 32)).
Definition signature_bytes (a : BootstrapAssertion) : array 64 :=
  array_copy 64 (byte_range (array_bytes a) TRANSCRIPT_LEN ASSERTION_LEN).
Definition transcript_bytes (a : BootstrapAssertion) : list byte :=
  byte_range (array_bytes a) 0 TRANSCRIPT_LEN.

Definition from_signed_transcript (transcript : list byte) (signature : array 64)
  : BootstrapAssertion :=
  array_copy ASSERTION_LEN
    (copy_from_slice (copy_from_slice (replicate ASSERTION_LEN x00) 0 transcript)
       TRANSCRIPT_LEN (array_bytes signature)).

Definition build_transcript_v1 (boot_nonce server_fingerprint site_key_id : array 32) : list byte :=
  let buf := replicate TRANSCRIPT_LEN x00 in
  let buf := copy_from_slice buf 0 (be_bytes 2 (N.of_nat (length DOMAIN_DISCRIMINATOR))) in
  let buf := copy_from_slice buf 2 DOMAIN_DISCRIMINATOR in
  let buf := copy_from_slice buf 35 (be_bytes 2 SCHEMA_VERSION) in
  let buf := copy_from_slice buf NONCE_OFFSET (array_bytes boot_nonce) in
  let buf := copy_from_slice buf FINGERPRINT_OFFSET (array_bytes server_fingerprint) in
  copy_from_slice buf SITE_KEY_ID_OFFSET (array_bytes site_key_id).

(** ** [verify.rs] *)

Module VerificationError.
Inductive t : Type := UnknownSiteKey | SiteKeyIdMismatch | SignatureInvalid.
End VerificationError.

Record VerifiedBootstrapAssertion : Type := {
  vba_boot_nonce : array 32;
  vba_expected_server_fingerprint : ServerCertFingerprint;
  vba_site_key_id : array 32;
}.

Section Verify.
Context {sha : Sha256} {ed : Ed25519}.

Definition verify (a : BootstrapAssertion) (accepted : AcceptedSiteKeys)
  : result VerificationError.t VerifiedBootstrapAssertion :=
  let claimed_site_key_id := site_key_id_bytes a in
  accepted_key ← ok_or VerificationError.UnknownSiteKey
                   (AcceptedSiteKeys_find accepted claimed_site_key_id);
  if negb (bool_decide (SiteKeyId_from_public_key accepted_key = claimed_site_key_id))
  then Err VerificationError.SiteKeyIdMismatch
  else if negb (verify_strict accepted_key (transcript_bytes a) (signature_bytes a))
  then Err VerificationError.SignatureInvalid
  else Ok {| vba_boot_nonce := boot_nonce_bytes a;
             vba_expected_server_fingerprint := server_fingerprint_bytes a;
             vba_site_key_id := claimed_site_key_id |}.

(** ** [fixture.rs] *)

Record FixtureAssertionSigner : Type := { fs_signing_key : SigningKey; fs_site_key_id : array 32 }.

(** [expect]: a signing key's public half is always valid. *)
Definition FixtureAssertionSigner_public_key (s : FixtureAssertionSigner) : option VerifyingKey :=
  SitePublicKey_from_bytes (vk_to_bytes (sk_verifying_key (fs_signing_key s))).

Definition FixtureAssertionSigner_from_seed (seed : array 32) : option FixtureAssertionSigner :=
  let signing_key := sk_from_seed seed in
  public_key ← SitePublicKey_from_bytes (vk_to_bytes (sk_verifying_key signing_key));
  Some {| fs_signing_key := signing_key; fs_site_key_id := SiteKeyId_from_public_key public_key |}.

(** [available]: whether the operating system provides randomness; [None] in [Ok] is the
    panic of [from_seed]. *)
Definition FixtureAssertionSigner_generate `{Entropy} (available : bool)
  : Gen (result unit (option FixtureAssertionSigner)) :=
  if available
  then seed ← fill_bytes 32; mret (Ok (FixtureAssertionSigner_from_seed seed))
  else mret (Err ()).

Definition sign_v1 (s : FixtureAssertionSigner) (boot_nonce : array 32)
    (server_fingerprint : ServerCertFingerprint) : BootstrapAssertion :=
  let transcript := build_transcript_v1 boot_nonce server_fingerprint (fs_site_key_id s) in
  from_signed_transcript transcript (sk_sign (fs_signing_key s) transcript).
End Verify.

(** ** [BootstrapEvidenceService] *)

(** The wire vocabulary of a BootstrapEvidence message has one trust value. *)
Module LocalBootTrust.
Inductive t : Type := Established.
End LocalBootTrust.

Record BootstrapEvidenceBody : Type := {
  be_boot_nonce : str;
  be_bootstrap_assertion : str;
  be_local_boot_trust : LocalBootTrust.t;
}.

Module BootstrapEvidenceResult.
Inductive t : Type := Established | Rejected.
End BootstrapEvidenceResult.

Section Service.
Context {b64 : Base64} {sha : Sha256} {ed : Ed25519} {pg : PgTimestamp}.

Definition service_verify_and_establish (db : EnrollDb) (accepted_site_keys : AcceptedSiteKeys)
    (endpoint_id : EndpointId) (evidence : BootstrapEvidenceBody)
    (connection_fingerprint : ServerCertFingerprint)
  : EnrollDb * result EndpointUpdateError.t BootstrapEvidenceResult.t :=
  match BootNonce_parse_wire_value (be_boot_nonce evidence) with
  | Err _ => (db, Ok BootstrapEvidenceResult.Rejected)
  | Ok declared_nonce =>
      match BootstrapAssertion_parse_wire_value (be_bootstrap_assertion evidence) with
      | Err _ => (db, Ok BootstrapEvidenceResult.Rejected)
      | Ok assertion =>
          match verify assertion accepted_site_keys with
          | Err _ => (db, Ok BootstrapEvidenceResult.Rejected)
          | Ok verified =>
              if negb (bool_decide (vba_boot_nonce verified = declared_nonce))
                 || negb (bool_decide (vba_expected_server_fingerprint verified
                                       = connection_fingerprint))
              then (db, Ok BootstrapEvidenceResult.Rejected)
              else
                let '(db', outcome) :=
                  repo_establish_trusted_bootstrap db endpoint_id
                    (λ aggregate, establish_trusted_bootstrap aggregate declared_nonce) in
                (db', outcome ← outcome;
                      Ok match outcome with
                         | TrustedBootstrapOutcome.Established _ => BootstrapEvidenceResult.Established
                         | TrustedBootstrapOutcome.Rejected => BootstrapEvidenceResult.Rejected
                         end)
          end
      end
  end.
End Service.

(** ** The Simulated Agent's local establishment *)

Module LocalBootstrapError.
Inductive t : Type :=
| Malformed (e : AssertionParseError.t)
| VerificationFailed (e : VerificationError.t)
| NonceMismatch.
End LocalBootstrapError.

Record EstablishedTrustedBootstrap : Type := {
  etb_boot_nonce : array 32;
  etb_server_fingerprint : ServerCertFingerprint;
  etb_assertion_carrier : str;
}.

Definition simulator_establish_trusted_bootstrap `{Base64, Sha256, Ed25519}
    (paired_trust : AcceptedSiteKeys) (expected_boot_nonce : array 32) (assertion_carrier : str)
  : result LocalBootstrapError.t EstablishedTrustedBootstrap :=
  assertion ← map_err LocalBootstrapError.Malformed
                (BootstrapAssertion_parse_wire_value assertion_carrier);
  verified ← map_err LocalBootstrapError.VerificationFailed (verify assertion paired_trust);
  if negb (bool_decide (vba_boot_nonce verified = expected_boot_nonce))
  then Err LocalBootstrapError.NonceMismatch
  else Ok {| etb_boot_nonce := vba_boot_nonce verified;
             etb_server_fingerprint := vba_expected_server_fingerprint verified;
             etb_assertion_carrier := assertion_carrier |}.

(** ** Layout of the assertion *)

Lemma byte_range_app l1 l2 l3 :
  byte_range (l1 ++ l2 ++ l3) (length l1) (length l1 + length l2) = l2.
Proof.
  unfold byte_range. rewrite drop_app_length. replace (_ + _ - _) with (length l2) by lia.
  apply take_app_length.
Qed.

Lemma byte_range_next l from to : from ≤ to → drop from l = byte_range l from to ++ drop to l.
Proof.
  intros. unfold byte_range. rewrite <-(take_drop (to - from) (drop from l)) at 1.
  rewrite drop_drop. do 2 f_equal. lia.
Qed.

Lemma length_byte_range l from to :
  from ≤ to → to ≤ length l → length (byte_range l from to) = to - from.
Proof. intros. unfold byte_range. rewrite length_take, length_drop. lia. Qed.

Definition header : list byte :=
  be_bytes 2 (N.of_nat (length DOMAIN_DISCRIMINATOR)) ++ DOMAIN_DISCRIMINATOR
  ++ be_bytes 2 SCHEMA_VERSION.

Ltac sizes :=
  rewrite ?length_app, ?length_be_bytes, ?length_array, ?length_drop, ?length_replicate;
  change (length DOMAIN_DISCRIMINATOR) with 33; unfold TRANSCRIPT_LEN, NONCE_OFFSET,
    FINGERPRINT_OFFSET, SITE_KEY_ID_OFFSET, ASSERTION_LEN, SIGNATURE_LEN, BOOT_NONCE_BYTES; simpl; lia.

Lemma copy_at done rest src off :
  off = length done → length src ≤ length rest →
  copy_from_slice (done ++ rest) off src = (done ++ src) ++ drop (length src) rest.
Proof. intros -> Hle. by apply copy_from_slice_snoc. Qed.

Lemma transcript_v1_concat n f s :
  build_transcript_v1 n f s = header ++ array_bytes n ++ array_bytes f ++ array_bytes s.
Proof.
  unfold build_transcript_v1. cbv zeta. rewrite <-(app_nil_l (replicate _ _)).
  do 6 (rewrite copy_at; [|sizes|sizes]). rewrite !drop_drop, (drop_ge (replicate _ _)) by sizes.
  unfold header. by rewrite app_nil_r, app_nil_l, <-!app_assoc.
Qed.

Lemma length_header : length header = 37.
Proof. reflexivity. Qed.

Lemma signed_transcript_bytes n f s sig :
  array_bytes (from_signed_transcript (build_transcript_v1 n f s) sig)
  = header ++ array_bytes n ++ array_bytes f ++ array_bytes s ++ array_bytes sig.
Proof.
  unfold from_signed_transcript. rewrite transcript_v1_concat.
  rewrite <-(app_nil_l (replicate _ _)), copy_at by (rewrite ?length_app, ?length_header; sizes).
  rewrite app_nil_l, copy_at by (rewrite ?length_app, ?length_header; sizes).
  rewrite drop_drop, (drop_ge (replicate _ _))
    by (rewrite ?length_app, ?length_header; sizes).
  rewrite app_nil_r, <-!app_assoc. apply array_copy_bytes.
  rewrite ?length_app, length_header. sizes.
Qed.

(** The accessors of an assertion with these fields. *)
Lemma fields_of_bytes (a : BootstrapAssertion) (n f s : array 32) (sig : array 64) :
  array_bytes a = header ++ array_bytes n ++ array_bytes f ++ array_bytes s ++ array_bytes sig →
  boot_nonce_bytes a = n ∧ server_fingerprint_bytes a = f ∧ site_key_id_bytes a = s
  ∧ signature_bytes a = sig ∧ transcript_bytes a = build_transcript_v1 n f s
  ∧ validate_header a = Ok ().
Proof.
  intros Ha.
  assert (∀ l1 l2 l3 from to, array_bytes a = l1 ++ l2 ++ l3 → from = length l1 →
            to = length l1 + length l2 → byte_range (array_bytes a) from to = l2) as Hr.
  { intros l1 l2 l3 from to -> -> ->. apply byte_range_app. }
  assert (∀ k (x : array k) l1 l3, array_bytes a = l1 ++ array_bytes x ++ l3 →
            array_copy k (byte_range (array_bytes a) (length l1) (length l1 + k)) = x) as Hx.
  { intros k x l1 l3 Hl. rewrite (Hr l1 (array_bytes x) l3) by (try done; by rewrite length_array).
    apply array_copy_array. }
  split_and!.
  - by apply (Hx 32 n header (array_bytes f ++ array_bytes s ++ array_bytes sig)).
  - pose proof (Hx 32 f (header ++ array_bytes n) (array_bytes s ++ array_bytes sig)) as H.
    rewrite length_app, length_header, length_array in H. apply H. by rewrite Ha, <-!app_assoc.
  - pose proof (Hx 32 s (header ++ array_bytes n ++ array_bytes f) (array_bytes sig)) as H.
    rewrite !length_app, length_header, !length_array in H. apply H. by rewrite Ha, <-!app_assoc.
  - pose proof (Hx 64 sig (header ++ array_bytes n ++ array_bytes f ++ array_bytes s) []) as H.
    rewrite !length_app, length_header, !length_array in H. apply H.
    by rewrite Ha, app_nil_r, <-!app_assoc.
  - unfold transcript_bytes. rewrite transcript_v1_concat.
    apply (Hr [] _ (array_bytes sig)); [by rewrite Ha, <-!app_assoc|done|].
    rewrite !length_app, length_header, !length_array. done.
  - unfold validate_header. unfold header in Ha. rewrite <-!app_assoc in Ha.
    rewrite (Hr [] _ _ 0 2 Ha) by done.
    rewrite (Hr _ DOMAIN_DISCRIMINATOR _ 2 35 Ha) by done. rewrite app_assoc in Ha.
    rewrite (Hr _ (be_bytes 2 SCHEMA_VERSION) _ 35 37 Ha) by done.
    rewrite bool_decide_eq_true_2 by done. done.
Qed.

(** An assertion whose header is valid is its fields. *)
Lemma bytes_of_fields (a : BootstrapAssertion) :
  validate_header a = Ok () →
  array_bytes a = header ++ array_bytes (boot_nonce_bytes a) ++ array_bytes (server_fingerprint_bytes a)
                  ++ array_bytes (site_key_id_bytes a) ++ array_bytes (signature_bytes a).
Proof.
  intros Hh. pose proof (length_array a) as Hl.
  assert (∀ k from to, to = from + k → to ≤ ASSERTION_LEN →
            array_bytes (array_copy k (byte_range (array_bytes a) from to))
            = byte_range (array_bytes a) from to) as Hc.
  { intros k from to -> Hle. apply array_copy_bytes. rewrite length_byte_range; lia. }
  unfold boot_nonce_bytes, server_fingerprint_bytes, site_key_id_bytes, signature_bytes.
  rewrite !Hc by (unfold NONCE_OFFSET, FINGERPRINT_OFFSET, SITE_KEY_ID_OFFSET; sizes).
  assert (∀ from v, from + 2 ≤ ASSERTION_LEN → from_be (byte_range (array_bytes a) from (from + 2)) = v →
            be_bytes 2 v = byte_range (array_bytes a) from (from + 2)) as Hbe.
  { intros from v Hle <-. rewrite <-(be_bytes_from_be (byte_range _ _ _)) at 2.
    rewrite length_byte_range by lia. by replace (from + 2 - from) with 2 by lia. }
  revert Hh. unfold validate_header. case_match eqn:H1; [done|]. case_match eqn:H2; [done|].
  case_match eqn:H3; [done|]. intros _.
  apply negb_false_iff, N.eqb_eq in H1, H3. apply negb_false_iff, bool_decide_eq_true in H2.
  unfold header. rewrite (Hbe 0 _ ltac:(sizes) H1), (Hbe 35 _ ltac:(sizes) H3), <-H2, <-!app_assoc.
  rewrite <-(drop_0 (array_bytes a)) at 1.
  rewrite (byte_range_next _ 0 2), (byte_range_next _ 2 35), (byte_range_next _ 35 37),
    (byte_range_next _ 37 69), (byte_range_next _ 69 101), (byte_range_next _ 101 133),
    (byte_range_next _ 133 197), (drop_ge _ 197) by (rewrite ?Hl; sizes).
  by rewrite app_nil_r.
Qed.
