(* ===== verification/TrustedBootstrapSafety.v ===== *)
(** * Trusted bootstrap: properties

    The carrier formats are canonical; the verdict of [BootstrapEvidenceService] is exactly
    [signed_evidence]; over whole runs of the Server a boot is trusted only by a site key's
    signature over its own nonce and the certificate of the connection the evidence came
    on; and evidence signed for the current boot is accepted, locally and by the Server. *)

From stdpp Require Import prelude gmap strings.
From Stdlib Require Import Strings.Byte NArith ZArith.
From S2P Require Import Prelude.
From S2P Require Import External.
From S2P Require Import Credential.
From S2P Require Import Endpoint.
From S2P Require Import Enrollment.
From S2P Require Import EnrollmentStore.
From S2P Require Import EnrollmentSafety.
From S2P Require Import TrustedBootstrap.

(** ** The carriers *)

Section Carriers.
Context {b64 : Base64} {b64_laws : Base64Laws}.

Lemma nonce_parse_iff (v : str) (n : array BOOT_NONCE_BYTES) :
  BootNonce_parse_wire_value v = Ok n ↔ v = BootNonce_to_wire_value n.
Proof.
  unfold BootNonce_parse_wire_value. split.
  - do 2 (case_match; [done|]). intros (d & _ & Hd)%result_bind_Ok.
    apply result_bind_Ok in Hd as (c & _ & Hd). case_match eqn:Hc; [done|]. injection Hd as <-.
    by apply negb_false_iff, bool_decide_eq_true in Hc.
  - intros ->. unfold BootNonce_to_wire_value.
    rewrite bool_decide_eq_true_2 by (by rewrite b64_encode_length, length_array).
    rewrite b64_encode_alphabet, b64_decode_encode. simpl.
    rewrite try_into_bytes. simpl. by rewrite bool_decide_eq_true_2.
Qed.

(** The bytes of an assertion over these fields. *)
Definition assertion_of (n f s : array 32) (sig : array 64) : BootstrapAssertion :=
  from_signed_transcript (build_transcript_v1 n f s) sig.

Lemma assertion_of_fields n f s sig :
  boot_nonce_bytes (assertion_of n f s sig) = n
  ∧ server_fingerprint_bytes (assertion_of n f s sig) = f
  ∧ site_key_id_bytes (assertion_of n f s sig) = s
  ∧ signature_bytes (assertion_of n f s sig) = sig
  ∧ transcript_bytes (assertion_of n f s sig) = build_transcript_v1 n f s
  ∧ validate_header (assertion_of n f s sig) = Ok ().
Proof. apply fields_of_bytes, signed_transcript_bytes. Qed.

Lemma carrier_of n f s sig :
  BootstrapAssertion_to_wire_value (assertion_of n f s sig)
  = b64_encode (build_transcript_v1 n f s ++ array_bytes sig).
Proof.
  unfold BootstrapAssertion_to_wire_value, assertion_of.
  by rewrite signed_transcript_bytes, transcript_v1_concat, <-!app_assoc.
Qed.

Lemma assertion_eta a :
  validate_header a = Ok () →
  a = assertion_of (boot_nonce_bytes a) (server_fingerprint_bytes a) (site_key_id_bytes a)
        (signature_bytes a).
Proof.
  intros Hh. apply array_eq. unfold assertion_of.
  by rewrite signed_transcript_bytes, <-bytes_of_fields.
Qed.

Lemma assertion_parse_iff (c : str) (a : BootstrapAssertion) :
  BootstrapAssertion_parse_wire_value c = Ok a
  ↔ c = BootstrapAssertion_to_wire_value a ∧ validate_header a = Ok ().
Proof.
  unfold BootstrapAssertion_parse_wire_value. split.
  - do 2 (case_match; [done|]). intros (d & _ & Hd)%result_bind_Ok.
    apply result_bind_Ok in Hd as (x & _ & Hd). case_match eqn:Hc; [done|].
    apply result_bind_Ok in Hd as ([] & Hh & [= <-]).
    by apply negb_false_iff, bool_decide_eq_true in Hc.
  - intros [-> Hh]. unfold BootstrapAssertion_to_wire_value.
    rewrite bool_decide_eq_true_2 by (by rewrite b64_encode_length, length_array).
    rewrite b64_encode_alphabet, b64_decode_encode. simpl.
    rewrite try_into_bytes. simpl. rewrite bool_decide_eq_true_2 by done. simpl. by rewrite Hh.
Qed.

(** The carrier of a signed assertion is canonical: the strings that parse are
    exactly the wire values of assertions that consist of the version-1 transcript of a
    nonce, a certificate fingerprint and a site key identifier, followed by a signature,
    and these four fields are unique. *)
Theorem assertion_canonical (c : str) (a : BootstrapAssertion) :
  BootstrapAssertion_parse_wire_value c = Ok a
  ↔ ∃ n f s sig,
      (a = from_signed_transcript (build_transcript_v1 n f s) sig
       ∧ c = b64_encode (build_transcript_v1 n f s ++ array_bytes sig))
      ∧ ∀ n' f' s' sig', a = from_signed_transcript (build_transcript_v1 n' f' s') sig' →
          n' = n ∧ f' = f ∧ s' = s ∧ sig' = sig.
Proof.
  rewrite assertion_parse_iff. split.
  - intros [-> Hh]. eexists _, _, _, _. split; [split; [by apply assertion_eta|]|].
    + by rewrite <-carrier_of, <-assertion_eta.
    + intros n f s sig Ha. destruct (assertion_of_fields n f s sig) as (Hn & Hf & Hs & Hg & _).
      fold (assertion_of n f s sig) in Ha. by rewrite <-Ha in Hn, Hf, Hs, Hg.
  - intros (n & f & s & sig & [-> ->] & _). rewrite <-carrier_of.
    split; [done|apply assertion_of_fields].
Qed.
End Carriers.

(** ** What the Server accepts as evidence *)

Section Evidence.
Context {b64 : Base64} {b64_laws : Base64Laws} {sha : Sha256} {ed : Ed25519} {pg : PgTimestamp}.

(** The evidence carries [nonce] and an accepted site key's signature over [nonce], the
    certificate fingerprint [fp] and that key's own identifier. *)
Definition signed_evidence (keys : AcceptedSiteKeys) (ev : BootstrapEvidenceBody)
    (nonce fp : array 32) : Prop :=
  be_boot_nonce ev = b64_encode (array_bytes nonce) ∧
  ∃ key sig,
    let transcript := build_transcript_v1 nonce fp (SiteKeyId_from_public_key key) in
    AcceptedSiteKeys_find keys (SiteKeyId_from_public_key key) = Some key ∧
    verify_strict key transcript sig = true ∧
    be_bootstrap_assertion ev = b64_encode (transcript ++ array_bytes sig).

Lemma verify_iff a keys v :
  verify a keys = Ok v ↔
  ∃ key, AcceptedSiteKeys_find keys (SiteKeyId_from_public_key key) = Some key
    ∧ site_key_id_bytes a = SiteKeyId_from_public_key key
    ∧ verify_strict key (transcript_bytes a) (signature_bytes a) = true
    ∧ v = {| vba_boot_nonce := boot_nonce_bytes a;
             vba_expected_server_fingerprint := server_fingerprint_bytes a;
             vba_site_key_id := site_key_id_bytes a |}.
Proof.
  unfold verify. split.
  - intros (key & Hk%ok_or_Ok & Hv)%result_bind_Ok. case_match eqn:Hid; [done|].
    case_match eqn:Hs; [done|]. injection Hv as <-. apply negb_false_iff in Hid, Hs.
    apply bool_decide_eq_true in Hid. exists key. by rewrite Hid.
  - intros (key & Hk & Hid & Hs & ->). rewrite Hid, Hk. simpl.
    by rewrite bool_decide_eq_true_2, Hs.
Qed.

(** The nonce of evidence the service would act on. *)
Definition accepted_nonce (keys : AcceptedSiteKeys) (ev : BootstrapEvidenceBody)
    (fp : ServerCertFingerprint) : option (array 32) :=
  match BootNonce_parse_wire_value (be_boot_nonce ev),
        BootstrapAssertion_parse_wire_value (be_bootstrap_assertion ev) with
  | Ok nonce, Ok a =>
      match verify a keys with
      | Ok v => if bool_decide (vba_boot_nonce v = nonce)
                   && bool_decide (vba_expected_server_fingerprint v = fp)
                then Some nonce else None
      | Err _ => None
      end
  | _, _ => None
  end.

Lemma service_by_nonce db keys id ev fp :
  service_verify_and_establish db keys id ev fp
  = match accepted_nonce keys ev fp with
    | None => (db, Ok BootstrapEvidenceResult.Rejected)
    | Some nonce =>
        let '(db', outcome) :=
          repo_establish_trusted_bootstrap db id (λ a, establish_trusted_bootstrap a nonce) in
        (db', outcome ← outcome;
              Ok match outcome with
                 | TrustedBootstrapOutcome.Established _ => BootstrapEvidenceResult.Established
                 | TrustedBootstrapOutcome.Rejected => BootstrapEvidenceResult.Rejected
                 end)
    end.
Proof.
  unfold service_verify_and_establish, accepted_nonce.
  destruct (BootNonce_parse_wire_value _) as [n|]; [|done].
  destruct (BootstrapAssertion_parse_wire_value _) as [a|]; [|done].
  destruct (verify a keys) as [v|]; [|done].
  destruct (bool_decide (vba_boot_nonce v = n)), (bool_decide (_ = fp)); done.
Qed.

Lemma accepted_nonce_iff keys ev fp nonce :
  accepted_nonce keys ev fp = Some nonce ↔ signed_evidence keys ev nonce fp.
Proof.
  unfold accepted_nonce, signed_evidence. split.
  - destruct (BootNonce_parse_wire_value _) as [n|] eqn:Hn; [|done].
    destruct (BootstrapAssertion_parse_wire_value _) as [a|] eqn:Ha; [|done].
    destruct (verify a keys) as [v|] eqn:Hv; [|done].
    case_match eqn:Hc; [|done]. intros [= ->]. apply andb_prop in Hc as [<-%bool_decide_eq_true
      <-%bool_decide_eq_true]. apply verify_iff in Hv as (key & Hk & Hid & Hs & ->). simpl in *.
    apply nonce_parse_iff in Hn. split; [done|]. exists key, (signature_bytes a).
    apply assertion_parse_iff in Ha as [Hc Hh]. rewrite <-Hid.
    rewrite (assertion_eta a) in Hs, Hc by done. revert Hs Hc.
    destruct (assertion_of_fields (boot_nonce_bytes a) (server_fingerprint_bytes a)
                (site_key_id_bytes a) (signature_bytes a)) as (_ & _ & _ & -> & -> & _).
    intros Hs ->. cbv zeta. rewrite carrier_of. rewrite Hid at 1. by split_and!.
  - intros (Hn & key & sig & Hk & Hs & Ha).
    rewrite (proj2 (nonce_parse_iff _ nonce) Hn).
    destruct (assertion_of_fields nonce fp (SiteKeyId_from_public_key key) sig)
      as (H1 & H2 & H3 & H4 & H5 & H6).
    rewrite (proj2 (assertion_parse_iff _
               (assertion_of nonce fp (SiteKeyId_from_public_key key) sig))).
    2: { split; [|done]. by rewrite Ha, <-carrier_of. }
    erewrite (proj2 (verify_iff _ _ _)).
    2: { exists key. rewrite H3, H4, H5. by split_and!. }
    simpl. by rewrite H1, H2, !bool_decide_eq_true_2.
Qed.
End Evidence.

(** ** Runs of the Server with bootstrap evidence *)

Module BootOp.
Inductive t : Type :=
| Issue (signal : str) (nonce : BootNonce) (now : Instant) (ttl : Duration)
| Redeem (wire : str) (now : Instant) (ttl : Duration)
| Approve (id : EndpointId) (operator : Actor.t) (now : Instant)
| Revoke (id : EndpointId) (now : Instant)
| Evidence (id : EndpointId) (evidence : BootstrapEvidenceBody) (fp : ServerCertFingerprint).
End BootOp.

Section Runs.
Context {ent : Entropy} {b64 : Base64} {sha : Sha256} {ed : Ed25519} {pg : PgTimestamp}.
Context (keys : AcceptedSiteKeys).

Definition run_boot_op (db : EnrollDb) (op : BootOp.t) : Gen EnrollDb :=
  match op with
  | BootOp.Issue signal nonce now ttl =>
      r ← issue_enrollment_credential db signal nonce now ttl; mret r.1
  | BootOp.Redeem wire now ttl => r ← redeem db wire now ttl; mret r.1
  | BootOp.Approve id operator now => r ← service_approve_enrollment db id operator now; mret r.1
  | BootOp.Revoke id now => r ← service_revoke_credential db id now; mret r.1
  | BootOp.Evidence id evidence fp =>
      mret (service_verify_and_establish db keys id evidence fp).1
  end.

Fixpoint run_boot_ops (db : EnrollDb) (ops : list BootOp.t) : Gen EnrollDb :=
  match ops with
  | [] => mret db
  | op :: rest => db' ← run_boot_op db op; run_boot_ops db' rest
  end.

(** Evidence acts as the attestation of the nonce it is accepted for, or not at all. *)
Definition enroll_op (op : BootOp.t) : option EnrollOp.t :=
  match op with
  | BootOp.Issue signal nonce now ttl => Some (EnrollOp.Issue signal nonce now ttl)
  | BootOp.Redeem wire now ttl => Some (EnrollOp.Redeem wire now ttl)
  | BootOp.Approve id operator now => Some (EnrollOp.Approve id operator now)
  | BootOp.Revoke id now => Some (EnrollOp.Revoke id now)
  | BootOp.Evidence id evidence fp => EnrollOp.EstablishTrust id <$> accepted_nonce keys evidence fp
  end.

Lemma run_boot_op_enroll db op k :
  run_boot_op db op k
  = match enroll_op op with Some op => run_op db op k | None => (db, k) end.
Proof.
  destruct op as [| | | |id ev fp]; try done. simpl. rewrite service_by_nonce.
  destruct (accepted_nonce keys ev fp) as [n|]; [|done]. simpl. by case_match.
Qed.

Lemma run_boot_ops_enroll ops db k : run_boot_ops db ops k = run_ops db (omap enroll_op ops) k.
Proof.
  revert db k. induction ops as [|op ops IH]; intros db k; [done|].
  cbn [run_boot_ops omap list_omap]. unfold mbind, gen_bind. rewrite run_boot_op_enroll.
  destruct (enroll_op op) as [o|]; [|by rewrite IH]. cbn [run_ops].
  unfold mbind, gen_bind. destruct (run_op db o k). by rewrite IH.
Qed.

Lemma omap_app_cons {A B} (f : A → option B) l pre x post :
  omap f l = pre ++ x :: post →
  ∃ l1 a l2, l = l1 ++ a :: l2 ∧ f a = Some x ∧ omap f l1 = pre.
Proof.
  revert pre. induction l as [|a l IH]; intros pre; simpl; [by destruct pre|].
  destruct (f a) as [b|] eqn:Hf.
  - destruct pre as [|y pre]; simpl; intros [= -> Hr].
    + by exists [], a, l.
    + destruct (IH _ Hr) as (l1 & a' & l2 & -> & ? & <-). exists (a :: l1), a', l2.
      simpl. by rewrite Hf.
  - intros (l1 & a' & l2 & -> & ? & <-)%IH. exists (a :: l1), a', l2. simpl. by rewrite Hf.
Qed.

Lemma establish_persists `{!PgTimestampLaws} db id a b :
  db_wf db → load_by_id_for_update db id = Ok (Some a) → ep_current_boot a = Some b →
  ∃ db' o a',
    repo_establish_trusted_bootstrap db id (λ x, establish_trusted_bootstrap x (cb_boot_nonce b))
      = (db', Ok (TrustedBootstrapOutcome.Established o)) ∧
    load_by_id_for_update db' id = Ok (Some a') ∧
    same_identity a a' ∧ ep_identity a' = ep_identity a ∧ ep_credential a' = ep_credential a ∧
    ep_current_boot a' = Some (CurrentBoot_establish_trusted_bootstrap b).
Proof.
  intros Hwf Ha Hb. unfold repo_establish_trusted_bootstrap. rewrite Ha.
  unfold establish_trusted_bootstrap. rewrite Hb, bool_decide_eq_true_2 by done. simpl negb.
  cbv iota. set (o := {| to_endpoint := _ |}).
  pose proof (load_rows _ _ _ Ha) as (e & He & <- & _).
  destruct (persist_transition db o) as [db'|] eqn:Hp; last first.
  { unfold persist_transition, upsert_endpoint in Hp. simpl in Hp. by rewrite He in Hp. }
  destruct (update_committed db o db' a Hwf) as [Hc _]; [done|done|done|].
  destruct (committed_load _ _ _ _ _ Hc) as [Hl _].
  eexists db', o, _. split; [done|]. split; [exact Hl|]. simpl.
  split; [done|]. split; [done|]. split; [|done]. by apply (stored_stable db).
Qed.
End Runs.

(** ** Properties *)

Section BootstrapProperties.
Context {ent : Entropy} {b64 : Base64} {b64_laws : Base64Laws} {sha : Sha256} {ed : Ed25519}.
Context {pg : PgTimestamp} {pg_laws : PgTimestampLaws}.

Lemma verify_signed `{!Ed25519Laws} keys seed signer nonce fp :
  FixtureAssertionSigner_from_seed seed = Some signer →
  AcceptedSiteKeys_find keys (fs_site_key_id signer) = FixtureAssertionSigner_public_key signer →
  verify (sign_v1 signer nonce fp) keys
  = Ok {| vba_boot_nonce := nonce; vba_expected_server_fingerprint := fp;
          vba_site_key_id := fs_site_key_id signer |}.
Proof.
  unfold FixtureAssertionSigner_from_seed, FixtureAssertionSigner_public_key,
    SitePublicKey_from_bytes. rewrite vk_from_to. intros [= <-]. cbn. rewrite vk_from_to.
  intros Hk. set (id := SiteKeyId_from_public_key _) in *. unfold sign_v1.
  cbn [fs_signing_key fs_site_key_id]. set (sig := sk_sign _ _).
  destruct (assertion_of_fields nonce fp id sig) as (H1 & H2 & H3 & H4 & H5 & _).
  unfold assertion_of in *. apply verify_iff. eexists. rewrite H1, H2, H3, H4, H5.
  split_and!; [exact Hk|done|apply verify_sign|done].
Qed.

(** C24. A trusted boot was signed for: whatever operations the Server performs, if an
    Endpoint's current boot is trusted, then some bootstrap evidence was received for that
    Endpoint that carries this boot's nonce and an accepted site key's signature over
    exactly this nonce, the fingerprint of the certificate of the connection the evidence
    came on, and the key's own identifier; and when it was received the Endpoint's current
    boot already was this one. *)
Theorem trust_requires_site_signature keys ops db k id a b :
  run_boot_ops keys empty_db ops 0 = (db, k) → fresh_draws 0 k →
  load_by_id_for_update db id = Ok (Some a) → ep_current_boot a = Some b →
  cb_trusted_bootstrap b = TrustedBootstrapState.Established →
  ∃ pre evidence fp post db1 k1 a1 b1,
    ops = pre ++ BootOp.Evidence id evidence fp :: post ∧
    signed_evidence keys evidence (cb_boot_nonce b) fp ∧
    run_boot_ops keys empty_db pre 0 = (db1, k1) ∧
    load_by_id_for_update db1 id = Ok (Some a1) ∧ ep_current_boot a1 = Some b1 ∧
    cb_boot_context_id b1 = cb_boot_context_id b ∧ cb_boot_nonce b1 = cb_boot_nonce b.
Proof.
  rewrite run_boot_ops_enroll. intros Hr Hf Ha Hb Ht.
  destruct (trust_only_by_current_boot _ _ _ _ _ _ Hr Hf Ha Hb Ht)
    as (pre & post & db1 & k1 & a1 & b1 & Hops & H1 & ? & ? & ? & ?).
  apply omap_app_cons in Hops as (l1 & op & l2 & -> & Hop & <-).
  destruct op as [| | | |id' ev fp]; try done. cbn in Hop.
  destruct (accepted_nonce keys ev fp) as [n|] eqn:Hn; [|done]. injection Hop as -> ->.
  exists l1, ev, fp, l2, db1, k1, a1, b1. rewrite run_boot_ops_enroll.
  by rewrite <-accepted_nonce_iff.
Qed.

(** Signed evidence is accepted: take any state of the Server, an Endpoint with a
    current boot, and the assertion an accepted signer makes over that boot's nonce and a
    certificate fingerprint. Then the Agent that expects this nonce establishes trust
    locally and learns that fingerprint, and the Server, receiving the evidence on a
    connection with that certificate, answers Established and from then on holds exactly
    this boot as trusted, the Endpoint being otherwise as before. *)
Theorem signed_evidence_establishes `{!Ed25519Laws} keys ops db k id a b seed signer fp :
  run_boot_ops keys empty_db ops 0 = (db, k) → fresh_draws 0 k →
  load_by_id_for_update db id = Ok (Some a) → ep_current_boot a = Some b →
  FixtureAssertionSigner_from_seed seed = Some signer →
  AcceptedSiteKeys_find keys (fs_site_key_id signer) = FixtureAssertionSigner_public_key signer →
  let carrier := BootstrapAssertion_to_wire_value (sign_v1 signer (cb_boot_nonce b) fp) in
  let evidence := {| be_boot_nonce := BootNonce_to_wire_value (cb_boot_nonce b);
                     be_bootstrap_assertion := carrier;
                     be_local_boot_trust := LocalBootTrust.Established |} in
  simulator_establish_trusted_bootstrap keys (cb_boot_nonce b) carrier
    = Ok {| etb_boot_nonce := cb_boot_nonce b; etb_server_fingerprint := fp;
            etb_assertion_carrier := carrier |} ∧
  ∃ db' a',
    service_verify_and_establish db keys id evidence fp
      = (db', Ok BootstrapEvidenceResult.Established) ∧
    load_by_id_for_update db' id = Ok (Some a') ∧
    same_identity a a' ∧ ep_identity a' = ep_identity a ∧ ep_credential a' = ep_credential a ∧
    ep_current_boot a' = Some (CurrentBoot_establish_trusted_bootstrap b).
Proof.
  intros Hr Hf Ha Hb Hs Hk carrier evidence. rewrite run_boot_ops_enroll in Hr.
  destruct (good_run _ _ _ _ _ good_empty Hf Hr) as [Hwf _].
  pose proof (verify_signed _ _ _ (cb_boot_nonce b) fp Hs Hk) as Hv.
  assert (BootstrapAssertion_parse_wire_value carrier = Ok (sign_v1 signer (cb_boot_nonce b) fp))
    as Hp.
  { apply assertion_parse_iff. split; [done|]. apply assertion_of_fields. }
  split.
  - unfold simulator_establish_trusted_bootstrap. rewrite Hp. simpl. rewrite Hv. simpl.
    by rewrite bool_decide_eq_true_2.
  - destruct (establish_persists _ _ _ _ Hwf Ha Hb) as (db' & o & a' & He & Ha').
    exists db', a'. split; [|done]. rewrite service_by_nonce. unfold accepted_nonce. simpl.
    rewrite (proj2 (nonce_parse_iff _ (cb_boot_nonce b)) eq_refl), Hp, Hv. simpl.
    rewrite !bool_decide_eq_true_2 by done. simpl. by rewrite He.
Qed.
End BootstrapProperties.

(** ** A concrete run *)

Module BootstrapExamples.
Import Reference.
Import EnrollmentExamples.
#[local] Existing Instances base64 base64_laws base64_strict toy_sha256 counter_entropy micros
  micros_laws toy_ed25519 toy_ed25519_laws.

Definition seed7 : array 32 := be_array 32 7.
Definition signer7 : FixtureAssertionSigner :=
  {| fs_signing_key := seed7; fs_site_key_id := SiteKeyId_from_public_key seed7 |}.
Definition site_keys : AcceptedSiteKeys := AcceptedSiteKeys_new [be_array 32 5; seed7].
Definition leaf_fingerprint : ServerCertFingerprint :=
  ServerCertFingerprint_from_leaf_der (lit "certificate").

Definition evidence9 : BootstrapEvidenceBody :=
  {| be_boot_nonce := BootNonce_to_wire_value nonce9;
     be_bootstrap_assertion :=
       BootstrapAssertion_to_wire_value (sign_v1 signer7 nonce9 leaf_fingerprint);
     be_local_boot_trust := LocalBootTrust.Established |}.

(** A context is issued and redeemed, and its boot is attested. *)
Definition contact_ops : list BootOp.t :=
  [BootOp.Issue (lit "mac-1") nonce9 1000000 90000000;
   BootOp.Redeem (to_wire_value enrollment0) 2000000 90000000].
Definition attested_ops : list BootOp.t :=
  contact_ops ++ [BootOp.Evidence ep6 evidence9 leaf_fingerprint].

Definition db_contact : EnrollDb := (run_boot_ops site_keys empty_db contact_ops 0).1.
Definition k_contact : nat := (run_boot_ops site_keys empty_db contact_ops 0).2.
Definition db_attested : EnrollDb := (run_boot_ops site_keys empty_db attested_ops 0).1.
Definition k_attested : nat := (run_boot_ops site_keys empty_db attested_ops 0).2.
Definition boot9 (trust : TrustedBootstrapState.t) : CurrentBoot :=
  {| cb_boot_context_id := pc_lookup_id enrollment0; cb_boot_nonce := nonce9;
     cb_trusted_bootstrap := trust |}.

Lemma trust_requires_site_signature_witness :
  ∃ pre evidence fp post dbp kp a1 b1,
    attested_ops = pre ++ BootOp.Evidence ep6 evidence fp :: post ∧
    signed_evidence site_keys evidence nonce9 fp ∧
    run_boot_ops site_keys empty_db pre 0 = (dbp, kp) ∧
    load_by_id_for_update dbp ep6 = Ok (Some a1) ∧ ep_current_boot a1 = Some b1 ∧
    cb_boot_context_id b1 = pc_lookup_id enrollment0 ∧ cb_boot_nonce b1 = nonce9.
Proof.
  apply (trust_requires_site_signature site_keys attested_ops db_attested k_attested ep6
           (loaded db_attested ep6) (boot9 TrustedBootstrapState.Established)).
  - apply surjective_pairing.
  - by_evaluation.
  - vm_compute. reflexivity.
  - by_evaluation.
  - reflexivity.
Defined.

Lemma signed_evidence_establishes_witness :
  simulator_establish_trusted_bootstrap site_keys nonce9 (be_bootstrap_assertion evidence9)
    = Ok {| etb_boot_nonce := nonce9; etb_server_fingerprint := leaf_fingerprint;
            etb_assertion_carrier := be_bootstrap_assertion evidence9 |} ∧
  ∃ db' a',
    service_verify_and_establish db_contact site_keys ep6 evidence9 leaf_fingerprint
      = (db', Ok BootstrapEvidenceResult.Established) ∧
    load_by_id_for_update db' ep6 = Ok (Some a') ∧
    same_identity (loaded db_contact ep6) a' ∧
    ep_identity a' = ep_identity (loaded db_contact ep6) ∧
    ep_credential a' = ep_credential (loaded db_contact ep6) ∧
    ep_current_boot a'
      = Some (CurrentBoot_establish_trusted_bootstrap (boot9 TrustedBootstrapState.NotEstablished)).
Proof.
  apply (signed_evidence_establishes site_keys contact_ops db_contact k_contact ep6
           (loaded db_contact ep6) (boot9 TrustedBootstrapState.NotEstablished) seed7 signer7
           leaf_fingerprint).
  - apply surjective_pairing.
  - by_evaluation.
  - vm_compute. reflexivity.
  - by_evaluation.
  - reflexivity.
  - vm_compute. reflexivity.
Defined.
End BootstrapExamples.
