(* ===== verification/Job.v ===== *)
(** * Jobs, JobSteps and Attempts: the domain decisions

    Models [crates/domain/src/job.rs], [attempt.rs], [target_fingerprint.rs],
    [final_dispatch.rs], [action_evidence.rs], [cancellation.rs] and
    [reconciliation.rs]. *)

From stdpp Require Import prelude gmap strings.
From Stdlib Require Import Strings.Byte NArith ZArith.
From S2P Require Import Prelude.
From S2P Require Import External.
From S2P Require Import Credential.
From S2P Require Import Endpoint.

(** ** Data *)

Abbreviation TargetFingerprint := str.

Module JobState.
Inductive t : Type := Pending | Running | Cancelling | Succeeded | Failed | Cancelled.
#[global] Instance t_eq_dec : EqDecision t.
Proof. solve_decision. Defined.
End JobState.

Module JobStepState.
Inductive t : Type :=
| Pending | PreconditionsSatisfied | Dispatching | Succeeded | Failed | Cancelled.
#[global] Instance t_eq_dec : EqDecision t.
Proof. solve_decision. Defined.
End JobStepState.

Module JobStepFailureReason.
Inductive t : Type := DispatchRejected | ExecutionFailed | ReconciliationIndeterminate.
#[global] Instance t_eq_dec : EqDecision t.
Proof. solve_decision. Defined.
End JobStepFailureReason.

Module AttemptState.
Inductive t : Type :=
| Dispatched | InProgress | AwaitingReconciliation
| Succeeded | Failed | Cancelled | Rejected | Indeterminate.
#[global] Instance t_eq_dec : EqDecision t.
Proof. solve_decision. Defined.
End AttemptState.

Record DestructiveIntent : Type := {
  di_authorized_inventory_revision_id : InventoryRevisionId;
  di_authorized_target_fingerprint : TargetFingerprint;
}.
#[global] Instance DestructiveIntent_eq_dec : EqDecision DestructiveIntent.
Proof. solve_decision. Defined.

Record JobStep : Type := {
  js_id : JobStepId;
  js_job_id : JobId;
  js_order : Z;
  js_state : JobStepState.t;
  js_destructive_intent : option DestructiveIntent;
  js_failure_reason : option JobStepFailureReason.t;
}.
#[global] Instance JobStep_eq_dec : EqDecision JobStep.
Proof. solve_decision. Defined.

Record Job : Type := {
  job_id : JobId;
  job_endpoint_id : EndpointId;
  job_state : JobState.t;
  job_steps : list JobStep;
}.
#[global] Instance Job_eq_dec : EqDecision Job.
Proof. solve_decision. Defined.

Record Attempt : Type := {
  at_id : AttemptId;
  at_job_step_id : JobStepId;
  at_action_id : ActionId;
  at_state : AttemptState.t;
}.
#[global] Instance Attempt_eq_dec : EqDecision Attempt.
Proof. solve_decision. Defined.

(** Struct-update expressions: [JobStep { state, ..step.clone() }] and the like. *)
Definition step_with_state (s : JobStep) (state : JobStepState.t) : JobStep :=
  {| js_id := js_id s; js_job_id := js_job_id s; js_order := js_order s; js_state := state;
     js_destructive_intent := js_destructive_intent s; js_failure_reason := js_failure_reason s |}.

Definition step_failed (s : JobStep) (reason : JobStepFailureReason.t) : JobStep :=
  {| js_id := js_id s; js_job_id := js_job_id s; js_order := js_order s;
     js_state := JobStepState.Failed; js_destructive_intent := js_destructive_intent s;
     js_failure_reason := Some reason |}.

Definition job_with (j : Job) (state : JobState.t) (steps : list JobStep) : Job :=
  {| job_id := job_id j; job_endpoint_id := job_endpoint_id j; job_state := state;
     job_steps := steps |}.

Definition attempt_with (a : Attempt) (state : AttemptState.t) : Attempt :=
  {| at_id := at_id a; at_job_step_id := at_job_step_id a; at_action_id := at_action_id a;
     at_state := state |}.

(** ** Workflow creation *)

(** [order as i32]: two's-complement truncation of a [usize]. *)
Definition as_i32 (n : nat) : Z := ((Z.of_nat n + 2 ^ 31) mod 2 ^ 32 - 2 ^ 31)%Z.

Definition EmptyWorkflow : Type := unit.

Section Creation.
Context `{Entropy}.

(** [(0..step_count).map(...).collect()], from [order] on. *)
Fixpoint create_steps (job : JobId) (order count : nat) : Gen (list JobStep) :=
  match count with
  | O => mret []
  | S count' =>
      id ← new_v4;
      rest ← create_steps job (S order) count';
      mret ({| js_id := id; js_job_id := job; js_order := as_i32 order;
               js_state := JobStepState.Pending; js_destructive_intent := None;
               js_failure_reason := None |} :: rest)
  end.

Definition create_workflow (endpoint_id : EndpointId) (step_count : nat)
  : Gen (result EmptyWorkflow Job) :=
  if bool_decide (step_count = 0) then mret (Err tt)
  else
    job_id ← new_v4;
    steps ← create_steps job_id 0 step_count;
    mret (Ok {| job_id := job_id; job_endpoint_id := endpoint_id; job_state := JobState.Pending;
                job_steps := steps |}).
End Creation.

(** ** Destructive intent, admission and preliminary eligibility *)

Module DestructiveIntentError.
Inductive t : Type := WrongJob | NotEligible | AlreadyAuthorized.
End DestructiveIntentError.

Definition authorize_destructive_intent (step : JobStep) (job : JobId)
    (authorized_inventory_revision_id : InventoryRevisionId)
    (authorized_target_fingerprint : TargetFingerprint)
  : result DestructiveIntentError.t DestructiveIntent :=
  if negb (bool_decide (js_job_id step = job)) then Err DestructiveIntentError.WrongJob
  else if negb (bool_decide (js_state step = JobStepState.Pending))
  then Err DestructiveIntentError.NotEligible
  else if bool_decide (is_Some (js_destructive_intent step))
  then Err DestructiveIntentError.AlreadyAuthorized
  else Ok {| di_authorized_inventory_revision_id := authorized_inventory_revision_id;
             di_authorized_target_fingerprint := authorized_target_fingerprint |}.

Record JobAdmissionOutcome : Type := { jao_job : Job; jao_event : DomainEvent.t }.

Module JobAdmissionError.
Inductive t : Type := NotPending.
End JobAdmissionError.

Definition admit_job `{Entropy} (job : Job) (now : Instant)
  : Gen (result JobAdmissionError.t JobAdmissionOutcome) :=
  if negb (bool_decide (job_state job = JobState.Pending))
  then mret (Err JobAdmissionError.NotPending)
  else
    event_id ← new_v4;
    mret (Ok {| jao_job := job_with job JobState.Running (job_steps job);
                jao_event := DomainEvent.JobStarted event_id (job_id job) (job_endpoint_id job)
                               now |}).

Module JobStepEligibilityError.
Inductive t : Type := JobNotRunning | StepNotFound | NotCurrent.
End JobStepEligibilityError.

Definition find_step (id : JobStepId) (steps : list JobStep) : option JobStep :=
  List.find (λ s, bool_decide (js_id s = id)) steps.

(** [steps.iter().filter(|s| s.order < order).all(|s| s.state == Succeeded)]. *)
Definition earlier_steps_all_succeeded (steps : list JobStep) (order : Z) : bool :=
  forallb (λ s, bool_decide (js_state s = JobStepState.Succeeded))
    (List.filter (λ s, (js_order s <? order)%Z) steps).

Definition satisfy_preliminary_preconditions (job : Job) (step_id : JobStepId)
  : result JobStepEligibilityError.t JobStep :=
  if negb (bool_decide (job_state job = JobState.Running))
  then Err JobStepEligibilityError.JobNotRunning
  else
    match find_step step_id (job_steps job) with
    | None => Err JobStepEligibilityError.StepNotFound
    | Some candidate =>
        if negb (bool_decide (js_state candidate = JobStepState.Pending))
        then Err JobStepEligibilityError.NotCurrent
        else if negb (earlier_steps_all_succeeded (job_steps job) (js_order candidate))
        then Err JobStepEligibilityError.NotCurrent
        else Ok (step_with_state candidate JobStepState.PreconditionsSatisfied)
    end.

(** ** The final destructive-dispatch gate *)

Record FinalDispatchInputs : Type := {
  fi_job : Job;
  fi_step_id : JobStepId;
  fi_existing_active_attempt : bool;
  fi_identity_enrolled : bool;
  fi_credential_active : bool;
  fi_agent_present : bool;
  fi_current_inventory_revision_id : option InventoryRevisionId;
  fi_current_target_fingerprint : option TargetFingerprint;
  fi_hardware_confidence : HardwareConfidence.t;
  fi_trusted_bootstrap_established : bool;
}.

Record FinalDispatchOutcome : Type := { fo_job_step : JobStep; fo_attempt : Attempt }.

Module FinalDispatchRejection.
Inductive t : Type :=
| StepNotFound | NotPreconditionsSatisfied | JobNotRunning | NotCurrentStep
| ExistingActiveAttempt | NoDestructiveIntent | IdentityNotEnrolled | CredentialNotActive
| AgentNotPresent | StaleInventory | TargetMismatch | HardwareConfidenceNotConsistent
| TrustedBootstrapNotEstablished.
#[global] Instance t_eq_dec : EqDecision t.
Proof. solve_decision. Defined.
End FinalDispatchRejection.

Record FinalDispatchDenial : Type := {
  fd_rejection : FinalDispatchRejection.t;
  fd_pending_job_step : option JobStep;
}.

Definition structural (r : FinalDispatchRejection.t) : FinalDispatchDenial :=
  {| fd_rejection := r; fd_pending_job_step := None |}.

Definition revalidation_failure (r : FinalDispatchRejection.t) (step : JobStep)
  : FinalDispatchDenial :=
  {| fd_rejection := r; fd_pending_job_step := Some (step_with_state step JobStepState.Pending) |}.

Definition evaluate_final_destructive_dispatch `{Entropy} (inputs : FinalDispatchInputs)
  : Gen (result FinalDispatchDenial FinalDispatchOutcome) :=
  match find_step (fi_step_id inputs) (job_steps (fi_job inputs)) with
  | None => mret (Err (structural FinalDispatchRejection.StepNotFound))
  | Some step =>
      if negb (bool_decide (js_state step = JobStepState.PreconditionsSatisfied))
      then mret (Err (structural FinalDispatchRejection.NotPreconditionsSatisfied))
      else
        let deny r := mret (Err (revalidation_failure r step)) in
        if negb (bool_decide (job_state (fi_job inputs) = JobState.Running))
        then deny FinalDispatchRejection.JobNotRunning
        else if negb (earlier_steps_all_succeeded (job_steps (fi_job inputs)) (js_order step))
        then deny FinalDispatchRejection.NotCurrentStep
        else if fi_existing_active_attempt inputs
        then deny FinalDispatchRejection.ExistingActiveAttempt
        else
          match js_destructive_intent step with
          | None => deny FinalDispatchRejection.NoDestructiveIntent
          | Some intent =>
              if negb (fi_identity_enrolled inputs)
              then deny FinalDispatchRejection.IdentityNotEnrolled
              else if negb (fi_credential_active inputs)
              then deny FinalDispatchRejection.CredentialNotActive
              else if negb (fi_agent_present inputs)
              then deny FinalDispatchRejection.AgentNotPresent
              else if negb (bool_decide (fi_current_inventory_revision_id inputs
                        = Some (di_authorized_inventory_revision_id intent)))
              then deny FinalDispatchRejection.StaleInventory
              else if negb (bool_decide (fi_current_target_fingerprint inputs
                        = Some (di_authorized_target_fingerprint intent)))
              then deny FinalDispatchRejection.TargetMismatch
              else if negb (bool_decide (fi_hardware_confidence inputs
                        = HardwareConfidence.Consistent))
              then deny FinalDispatchRejection.HardwareConfidenceNotConsistent
              else if negb (fi_trusted_bootstrap_established inputs)
              then deny FinalDispatchRejection.TrustedBootstrapNotEstablished
              else
                attempt_id ← new_v4;
                action_id ← new_v4;
                mret (Ok {|
                  fo_job_step := step_with_state step JobStepState.Dispatching;
                  fo_attempt := {| at_id := attempt_id; at_job_step_id := js_id step;
                                   at_action_id := action_id;
                                   at_state := AttemptState.Dispatched |} |})
          end
  end.

(** ** Evidence about an Attempt *)

(** [ActionEvidenceApplied], [CancelAckApplied] and [ReconciliationApplied] have
    the same fields; one record stands for the three. *)
Record Applied : Type := {
  ap_attempt : Attempt;
  ap_job_step : JobStep;
  ap_job : Job;
  ap_events : list DomainEvent.t;
  ap_terminal : bool;
}.

(** The modules of the source each have a private copy of this function. *)
Definition replace_step (steps : list JobStep) (updated : JobStep) : list JobStep :=
  (λ s, if bool_decide (js_id s = js_id updated) then updated else s) <$> steps.

(** *** Normal action evidence ([action_evidence.rs]) *)

Module ActionEvidence.
Inductive t : Type := AckAccepted | AckRejected | ResultSucceeded | ResultFailed.
End ActionEvidence.

Module ActionEvidenceOutcome.
Inductive t : Type := Applied (a : Applied) | NoOp | Conflict.
End ActionEvidenceOutcome.

Section Evidence.
Context `{Entropy}.

(** The Job-terminal event of a failed step, after its state. *)
Definition terminal_failure (job : Job) (job_step : JobStep) (attempt : Attempt)
    (attempt_state : AttemptState.t) (reason : JobStepFailureReason.t) (now : Instant)
  : Gen Applied :=
  let failed_step := step_failed job_step reason in
  let cancelling := bool_decide (job_state job = JobState.Cancelling) in
  let final_job :=
    job_with job (if cancelling then JobState.Cancelled else JobState.Failed)
      (replace_step (job_steps job) failed_step) in
  step_event ← new_v4;
  job_event ← new_v4;
  let job_step_failed := DomainEvent.JobStepFailed step_event (job_id job) (js_id failed_step)
                           (job_endpoint_id job) now in
  let job_terminal_event :=
    if cancelling then DomainEvent.JobCancelled job_event (job_id job) (job_endpoint_id job) now
    else DomainEvent.JobFailed job_event (job_id job) (job_endpoint_id job) now in
  mret {| ap_attempt := attempt_with attempt attempt_state;
          ap_job_step := failed_step; ap_job := final_job;
          ap_events := [job_step_failed; job_terminal_event]; ap_terminal := true |}.

Definition terminal_success (job : Job) (job_step : JobStep) (attempt : Attempt) (now : Instant)
  : Gen Applied :=
  let succeeded_step := step_with_state job_step JobStepState.Succeeded in
  let updated_steps := replace_step (job_steps job) succeeded_step in
  let applied events state :=
    {| ap_attempt := attempt_with attempt AttemptState.Succeeded;
       ap_job_step := succeeded_step; ap_job := job_with job state updated_steps;
       ap_events := events; ap_terminal := true |} in
  if bool_decide (job_state job = JobState.Cancelling) then
    event_id ← new_v4;
    mret (applied [DomainEvent.JobCancelled event_id (job_id job) (job_endpoint_id job) now]
            JobState.Cancelled)
  else if forallb (λ s, bool_decide (js_state s = JobStepState.Succeeded)) updated_steps then
    event_id ← new_v4;
    mret (applied [DomainEvent.JobSucceeded event_id (job_id job) (job_endpoint_id job) now]
            JobState.Succeeded)
  else mret (applied [] JobState.Running).

Definition apply_action_evidence (job : Job) (job_step : JobStep) (attempt : Attempt)
    (evidence : ActionEvidence.t) (now : Instant) : Gen ActionEvidenceOutcome.t :=
  match evidence with
  | ActionEvidence.AckAccepted =>
      match at_state attempt with
      | AttemptState.Dispatched =>
          mret (ActionEvidenceOutcome.Applied
            {| ap_attempt := attempt_with attempt AttemptState.InProgress;
               ap_job_step := job_step; ap_job := job; ap_events := []; ap_terminal := false |})
      | _ => mret ActionEvidenceOutcome.NoOp
      end
  | ActionEvidence.AckRejected =>
      match at_state attempt with
      | AttemptState.Dispatched =>
          a ← terminal_failure job job_step attempt AttemptState.Rejected
                JobStepFailureReason.DispatchRejected now;
          mret (ActionEvidenceOutcome.Applied a)
      | AttemptState.Rejected => mret ActionEvidenceOutcome.NoOp
      | _ => mret ActionEvidenceOutcome.Conflict
      end
  | ActionEvidence.ResultSucceeded =>
      match at_state attempt with
      | AttemptState.Dispatched | AttemptState.InProgress =>
          a ← terminal_success job job_step attempt now;
          mret (ActionEvidenceOutcome.Applied a)
      | AttemptState.Succeeded => mret ActionEvidenceOutcome.NoOp
      | _ => mret ActionEvidenceOutcome.Conflict
      end
  | ActionEvidence.ResultFailed =>
      match at_state attempt with
      | AttemptState.Dispatched | AttemptState.InProgress =>
          a ← terminal_failure job job_step attempt AttemptState.Failed
                JobStepFailureReason.ExecutionFailed now;
          mret (ActionEvidenceOutcome.Applied a)
      | AttemptState.Failed => mret ActionEvidenceOutcome.NoOp
      | _ => mret ActionEvidenceOutcome.Conflict
      end
  end.
End Evidence.

(** *** Cancellation ([cancellation.rs]) *)

Module CancellationRequestError.
Inductive t : Type := NotEligible.
End CancellationRequestError.

Module CancellationRequestOutcome.
Inductive t : Type :=
| EnteredCancelling (job : Job) (attempt_id : AttemptId) (action_id : ActionId)
| CompletedImmediately (job : Job) (event : DomainEvent.t)
| AlreadyCancelling
| AlreadyTerminal.
End CancellationRequestOutcome.

Module CancelAckEvidence.
Inductive t : Type := Cancelled | AlreadyCompleted | CannotCancel | Unknown.
End CancelAckEvidence.

Module CancelAckOutcome.
Inductive t : Type := Applied (a : Applied) | NoOp.
End CancelAckOutcome.

Section Cancel.
Context `{Entropy}.

Definition request_cancellation (job : Job) (active_attempt : option Attempt) (now : Instant)
  : Gen (result CancellationRequestError.t CancellationRequestOutcome.t) :=
  match job_state job with
  | JobState.Running =>
      match active_attempt with
      | Some attempt =>
          mret (Ok (CancellationRequestOutcome.EnteredCancelling
                      (job_with job JobState.Cancelling (job_steps job))
                      (at_id attempt) (at_action_id attempt)))
      | None =>
          event_id ← new_v4;
          mret (Ok (CancellationRequestOutcome.CompletedImmediately
                      (job_with job JobState.Cancelled (job_steps job))
                      (DomainEvent.JobCancelled event_id (job_id job) (job_endpoint_id job) now)))
      end
  | JobState.Cancelling => mret (Ok CancellationRequestOutcome.AlreadyCancelling)
  | JobState.Succeeded | JobState.Failed | JobState.Cancelled =>
      mret (Ok CancellationRequestOutcome.AlreadyTerminal)
  | JobState.Pending => mret (Err CancellationRequestError.NotEligible)
  end.

Definition cancel_terminal (job : Job) (job_step : JobStep) (attempt : Attempt) (now : Instant)
  : Gen Applied :=
  let cancelled_step := step_with_state job_step JobStepState.Cancelled in
  event_id ← new_v4;
  mret {| ap_attempt := attempt_with attempt AttemptState.Cancelled;
          ap_job_step := cancelled_step;
          ap_job := job_with job JobState.Cancelled (replace_step (job_steps job) cancelled_step);
          ap_events := [DomainEvent.JobCancelled event_id (job_id job) (job_endpoint_id job) now];
          ap_terminal := true |}.

Definition complete_cancellation_now (job : Job) (job_step : JobStep) (attempt : Attempt)
    (now : Instant) : Gen Applied :=
  event_id ← new_v4;
  mret {| ap_attempt := attempt; ap_job_step := job_step;
          ap_job := job_with job JobState.Cancelled (job_steps job);
          ap_events := [DomainEvent.JobCancelled event_id (job_id job) (job_endpoint_id job) now];
          ap_terminal := true |}.

Definition apply_cancel_ack (job : Job) (job_step : JobStep) (attempt : Attempt)
    (evidence : CancelAckEvidence.t) (now : Instant) : Gen CancelAckOutcome.t :=
  if negb (bool_decide (job_state job = JobState.Cancelling)) then mret CancelAckOutcome.NoOp
  else
    let uncertain :=
      mret (CancelAckOutcome.Applied
        {| ap_attempt := attempt_with attempt AttemptState.AwaitingReconciliation;
           ap_job_step := job_step; ap_job := job; ap_events := []; ap_terminal := false |}) in
    match evidence with
    | CancelAckEvidence.Cancelled =>
        match at_state attempt with
        | AttemptState.Dispatched | AttemptState.InProgress
        | AttemptState.AwaitingReconciliation =>
            a ← cancel_terminal job job_step attempt now; mret (CancelAckOutcome.Applied a)
        | _ => mret CancelAckOutcome.NoOp
        end
    | CancelAckEvidence.AlreadyCompleted =>
        match at_state attempt with
        | AttemptState.Dispatched | AttemptState.InProgress => uncertain
        | AttemptState.AwaitingReconciliation => mret CancelAckOutcome.NoOp
        | _ =>
            if bool_decide (job_state job = JobState.Cancelling) then
              a ← complete_cancellation_now job job_step attempt now;
              mret (CancelAckOutcome.Applied a)
            else mret CancelAckOutcome.NoOp
        end
    | CancelAckEvidence.CannotCancel => mret CancelAckOutcome.NoOp
    | CancelAckEvidence.Unknown =>
        match at_state attempt with
        | AttemptState.Dispatched | AttemptState.InProgress => uncertain
        | _ => mret CancelAckOutcome.NoOp
        end
    end.
End Cancel.

(** *** Reconciliation ([reconciliation.rs]) *)

Module StatusReportEvidence.
Inductive t : Type := Accepted | Running | Succeeded | Failed | Cancelled | Unknown.
End StatusReportEvidence.

Module ReconciliationOutcome.
Inductive t : Type := Applied (a : Applied) | NoOp.
End ReconciliationOutcome.

Module CloseIndeterminateOutcome.
Inductive t : Type := Applied (a : Applied) | AlreadyIndeterminate | NotEligible.
End CloseIndeterminateOutcome.

Definition mark_awaiting_reconciliation (attempt : Attempt) : option Attempt :=
  match at_state attempt with
  | AttemptState.Dispatched | AttemptState.InProgress =>
      Some (attempt_with attempt AttemptState.AwaitingReconciliation)
  | _ => None
  end.

Module Reconciliation.
Section Recon.
Context `{Entropy}.

(** [reconciliation.rs] has its own [terminal_success] and [terminal_failure];
    the latter always records [Failed] and [ExecutionFailed]. *)
Definition terminal_success (job : Job) (job_step : JobStep) (attempt : Attempt) (now : Instant)
  : Gen Applied :=
  let succeeded_step := step_with_state job_step JobStepState.Succeeded in
  let updated_steps := replace_step (job_steps job) succeeded_step in
  let applied events state :=
    {| ap_attempt := attempt_with attempt AttemptState.Succeeded;
       ap_job_step := succeeded_step; ap_job := job_with job state updated_steps;
       ap_events := events; ap_terminal := true |} in
  if bool_decide (job_state job = JobState.Cancelling) then
    event_id ← new_v4;
    mret (applied [DomainEvent.JobCancelled event_id (job_id job) (job_endpoint_id job) now]
            JobState.Cancelled)
  else if forallb (λ s, bool_decide (js_state s = JobStepState.Succeeded)) updated_steps then
    event_id ← new_v4;
    mret (applied [DomainEvent.JobSucceeded event_id (job_id job) (job_endpoint_id job) now]
            JobState.Succeeded)
  else mret (applied [] JobState.Running).

Definition terminal_failure (job : Job) (job_step : JobStep) (attempt : Attempt) (now : Instant)
  : Gen Applied :=
  let failed_step := step_failed job_step JobStepFailureReason.ExecutionFailed in
  let cancelling := bool_decide (job_state job = JobState.Cancelling) in
  step_event ← new_v4;
  job_event ← new_v4;
  mret {| ap_attempt := attempt_with attempt AttemptState.Failed;
          ap_job_step := failed_step;
          ap_job := job_with job (if cancelling then JobState.Cancelled else JobState.Failed)
                      (replace_step (job_steps job) failed_step);
          ap_events :=
            [DomainEvent.JobStepFailed step_event (job_id job) (js_id failed_step)
               (job_endpoint_id job) now;
             if cancelling
             then DomainEvent.JobCancelled job_event (job_id job) (job_endpoint_id job) now
             else DomainEvent.JobFailed job_event (job_id job) (job_endpoint_id job) now];
          ap_terminal := true |}.

Definition terminal_cancelled (job : Job) (job_step : JobStep) (attempt : Attempt)
    (now : Instant) : Gen Applied :=
  let cancelled_step := step_with_state job_step JobStepState.Cancelled in
  event_id ← new_v4;
  mret {| ap_attempt := attempt_with attempt AttemptState.Cancelled;
          ap_job_step := cancelled_step;
          ap_job := job_with job JobState.Cancelled (replace_step (job_steps job) cancelled_step);
          ap_events := [DomainEvent.JobCancelled event_id (job_id job) (job_endpoint_id job) now];
          ap_terminal := true |}.

Definition apply_status_report (job : Job) (job_step : JobStep) (attempt : Attempt)
    (evidence : StatusReportEvidence.t) (now : Instant) : Gen ReconciliationOutcome.t :=
  if negb (bool_decide (at_state attempt = AttemptState.AwaitingReconciliation))
  then mret ReconciliationOutcome.NoOp
  else
    match evidence with
    | StatusReportEvidence.Accepted | StatusReportEvidence.Running =>
        mret (ReconciliationOutcome.Applied
          {| ap_attempt := attempt_with attempt AttemptState.InProgress;
             ap_job_step := job_step; ap_job := job; ap_events := []; ap_terminal := false |})
    | StatusReportEvidence.Succeeded =>
        a ← terminal_success job job_step attempt now; mret (ReconciliationOutcome.Applied a)
    | StatusReportEvidence.Failed =>
        a ← terminal_failure job job_step attempt now; mret (ReconciliationOutcome.Applied a)
    | StatusReportEvidence.Cancelled =>
        if bool_decide (job_state job = JobState.Cancelling) then
          a ← terminal_cancelled job job_step attempt now; mret (ReconciliationOutcome.Applied a)
        else mret ReconciliationOutcome.NoOp
    | StatusReportEvidence.Unknown => mret ReconciliationOutcome.NoOp
    end.

Definition close_indeterminate (job : Job) (job_step : JobStep) (attempt : Attempt)
    (now : Instant) : Gen CloseIndeterminateOutcome.t :=
  match at_state attempt with
  | AttemptState.AwaitingReconciliation =>
      let failed_step := step_failed job_step JobStepFailureReason.ReconciliationIndeterminate in
      let cancelling := bool_decide (job_state job = JobState.Cancelling) in
      indeterminate_event ← new_v4;
      step_event ← new_v4;
      job_event ← new_v4;
      mret (CloseIndeterminateOutcome.Applied
        {| ap_attempt := attempt_with attempt AttemptState.Indeterminate;
           ap_job_step := failed_step;
           ap_job := job_with job (if cancelling then JobState.Cancelled else JobState.Failed)
                       (replace_step (job_steps job) failed_step);
           ap_events :=
             [DomainEvent.AttemptIndeterminate indeterminate_event (job_id job)
                (js_id failed_step) (at_id attempt) (job_endpoint_id job) now;
              DomainEvent.JobStepFailed step_event (job_id job) (js_id failed_step)
                (job_endpoint_id job) now;
              if cancelling
              then DomainEvent.JobCancelled job_event (job_id job) (job_endpoint_id job) now
              else DomainEvent.JobFailed job_event (job_id job) (job_endpoint_id job) now];
           ap_terminal := true |})
  | AttemptState.Indeterminate => mret CloseIndeterminateOutcome.AlreadyIndeterminate
  | _ => mret CloseIndeterminateOutcome.NotEligible
  end.
End Recon.
End Reconciliation.
