(* ===== verification/Transfer.v ===== *)
(** * Artifacts, chunk manifests and transfers

    Models [crates/domain/src/artifact.rs], [chunk_manifest.rs], [transfer.rs] and
    [transfer_dispatch.rs]. *)

From stdpp Require Import prelude gmap strings.
From Stdlib Require Import Strings.Byte NArith ZArith.
From S2P Require Import Prelude.
From S2P Require Import External.
From S2P Require Import Credential.
From S2P Require Import Endpoint.
From S2P Require Import Job.

Abbreviation ArtifactId := Uuid.
Abbreviation TransferId := Uuid.
(** [ChunkIndex(u32)]. *)
Abbreviation ChunkIndex := N.

(** ** Digests and chunk sizes *)

Module DigestAlgorithm.
Inductive t : Type := Sha256.
#[global] Instance t_eq_dec : EqDecision t.
Proof. solve_decision. Defined.
Definition digest_len (a : t) : nat := match a with Sha256 => 32 end.
End DigestAlgorithm.

Record InvalidDigestLength : Type := { idl_expected : nat; idl_actual : nat }.

(** A raw digest: built only by [Digest_new], which checks its length. *)
Definition Digest : Type := list byte.

Definition Digest_new (algorithm : DigestAlgorithm.t) (bytes : list byte)
  : result InvalidDigestLength Digest :=
  let expected := DigestAlgorithm.digest_len algorithm in
  if negb (bool_decide (length bytes = expected))
  then Err {| idl_expected := expected; idl_actual := length bytes |}
  else Ok bytes.

Module DigestParseError.
Inductive t : Type := InvalidEncoding | Length (e : InvalidDigestLength) | NonCanonical.
End DigestParseError.

Section DigestWire.
Context `{Base64}.

Definition Digest_to_wire_value (d : Digest) : str := b64_encode d.

Definition Digest_parse_wire_value (algorithm : DigestAlgorithm.t) (value : str)
  : result DigestParseError.t Digest :=
  decoded ← ok_or DigestParseError.InvalidEncoding (b64_decode value);
  digest ← map_err DigestParseError.Length (Digest_new algorithm decoded);
  if negb (bool_decide (Digest_to_wire_value digest = value)) then Err DigestParseError.NonCanonical
  else Ok digest.
End DigestWire.

(** [ChunkSize(u32)], positive. *)
Definition ChunkSize_new (bytes : N) : result unit N := if (bytes =? 0)%N then Err tt else Ok bytes.

(** ** Chunk manifests *)

Record ExpectedChunk : Type := {
  ec_index : ChunkIndex;
  ec_size : N;
  ec_digest : Digest;
}.
#[global] Instance ExpectedChunk_eq_dec : EqDecision ExpectedChunk.
Proof. solve_decision. Defined.

Record ChunkManifest : Type := {
  cm_artifact_id : ArtifactId;
  cm_digest_algorithm : DigestAlgorithm.t;
  cm_chunk_size : N;
  cm_chunks : gmap N ExpectedChunk;
  cm_sealed : bool;
  cm_chunk_count : option N;
  cm_artifact_digest : option Digest;
}.

Definition ChunkManifest_new (artifact_id : ArtifactId) (algorithm : DigestAlgorithm.t)
    (chunk_size : N) : ChunkManifest :=
  {| cm_artifact_id := artifact_id; cm_digest_algorithm := algorithm; cm_chunk_size := chunk_size;
     cm_chunks := ∅; cm_sealed := false; cm_chunk_count := None; cm_artifact_digest := None |}.

Definition chunk_indices (m : ChunkManifest) : gset N := dom (cm_chunks m).

Definition expected_chunk (m : ChunkManifest) (index : ChunkIndex) : option ExpectedChunk :=
  cm_chunks m !! index.

Module ChunkRecordOutcome.
Inductive t : Type := Added (m : ChunkManifest) | AlreadyRecorded.
End ChunkRecordOutcome.

Module ChunkRecordError.
Inductive t : Type :=
| Conflict (index : ChunkIndex) | NotContinuable | BadDigestLength (e : InvalidDigestLength).
End ChunkRecordError.

Definition record_expected_chunk (m : ChunkManifest) (index : ChunkIndex) (size : N)
    (digest_bytes : list byte) : result ChunkRecordError.t ChunkRecordOutcome.t :=
  digest ← map_err ChunkRecordError.BadDigestLength
             (Digest_new (cm_digest_algorithm m) digest_bytes);
  match cm_chunks m !! index with
  | Some existing =>
      if bool_decide (ec_size existing = size) && bool_decide (ec_digest existing = digest)
      then Ok ChunkRecordOutcome.AlreadyRecorded
      else Err (ChunkRecordError.Conflict index)
  | None =>
      if cm_sealed m then Err ChunkRecordError.NotContinuable
      else
        let chunks :=
          <[index := {| ec_index := index; ec_size := size; ec_digest := digest |}]>
            (cm_chunks m) in
        Ok (ChunkRecordOutcome.Added
          {| cm_artifact_id := cm_artifact_id m; cm_digest_algorithm := cm_digest_algorithm m;
             cm_chunk_size := cm_chunk_size m; cm_chunks := chunks; cm_sealed := cm_sealed m;
             cm_chunk_count := cm_chunk_count m; cm_artifact_digest := cm_artifact_digest m |})
  end.

Module SealOutcome.
Inductive t : Type := Sealed (m : ChunkManifest) | AlreadySealed.
End SealOutcome.

Module SealError.
Inductive t : Type :=
| IncompleteChunkSet | NonContiguousIndices | ConflictingReseal
| BadDigestLength (e : InvalidDigestLength).
End SealError.

(** [(0..chunk_count).all(|i| chunks.contains_key(&i))]. *)
Definition contiguous (chunks : gmap N ExpectedChunk) (chunk_count : N) : bool :=
  forallb (λ i, bool_decide (is_Some (chunks !! N.of_nat i))) (seq 0 (N.to_nat chunk_count)).

Definition seal (m : ChunkManifest) (chunk_count : N) (artifact_digest_bytes : list byte)
  : result SealError.t SealOutcome.t :=
  artifact_digest ← map_err SealError.BadDigestLength
                      (Digest_new (cm_digest_algorithm m) artifact_digest_bytes);
  if cm_sealed m then
    if bool_decide (cm_chunk_count m = Some chunk_count)
       && bool_decide (cm_artifact_digest m = Some artifact_digest)
    then Ok SealOutcome.AlreadySealed
    else Err SealError.ConflictingReseal
  else if negb (bool_decide (size (cm_chunks m) = N.to_nat chunk_count))
  then Err SealError.IncompleteChunkSet
  else if negb (contiguous (cm_chunks m) chunk_count) then Err SealError.NonContiguousIndices
  else Ok (SealOutcome.Sealed
    {| cm_artifact_id := cm_artifact_id m; cm_digest_algorithm := cm_digest_algorithm m;
       cm_chunk_size := cm_chunk_size m; cm_chunks := cm_chunks m; cm_sealed := true;
       cm_chunk_count := Some chunk_count; cm_artifact_digest := Some artifact_digest |}).

Module ChunkAcceptError.
Inductive t : Type := UnknownChunkIndex (index : ChunkIndex) | DigestMismatch (index : ChunkIndex).
End ChunkAcceptError.

Definition validate_verified_chunk (m : ChunkManifest) (index : ChunkIndex)
    (verified_digest_bytes : list byte) : result ChunkAcceptError.t unit :=
  expected ← ok_or (ChunkAcceptError.UnknownChunkIndex index) (expected_chunk m index);
  if negb (bool_decide (ec_digest expected = verified_digest_bytes))
  then Err (ChunkAcceptError.DigestMismatch index)
  else Ok tt.

(** ** Artifacts *)

Module ArtifactState.
Inductive t : Type := Incomplete | PendingVerification | Verified | Failed.
#[global] Instance t_eq_dec : EqDecision t.
Proof. solve_decision. Defined.
End ArtifactState.

Module CaptureConsistency.
Inductive t : Type := NotApplicable | NotEstablished | Established.
End CaptureConsistency.

Record Artifact : Type := {
  ar_id : ArtifactId;
  ar_state : ArtifactState.t;
  ar_capture_consistency : CaptureConsistency.t;
}.

Definition artifact_with (a : Artifact) (state : ArtifactState.t) : Artifact :=
  {| ar_id := ar_id a; ar_state := state; ar_capture_consistency := ar_capture_consistency a |}.

Definition new_incomplete (id : ArtifactId) : Artifact :=
  {| ar_id := id; ar_state := ArtifactState.Incomplete;
     ar_capture_consistency := CaptureConsistency.NotEstablished |}.

Definition artifact_is_terminal (a : Artifact) : bool :=
  match ar_state a with ArtifactState.Verified | ArtifactState.Failed => true | _ => false end.

Module ArtifactTransitionError.
Inductive t : Type :=
| NotIncomplete | NotPendingVerification | ManifestNotSealed | ManifestMismatch | IncompleteChunks.
End ArtifactTransitionError.

Definition begin_verification (artifact : Artifact) (manifest : ChunkManifest)
    (held_chunk_indices : gset N) : result ArtifactTransitionError.t Artifact :=
  if negb (bool_decide (ar_state artifact = ArtifactState.Incomplete))
  then Err ArtifactTransitionError.NotIncomplete
  else if negb (bool_decide (cm_artifact_id manifest = ar_id artifact))
  then Err ArtifactTransitionError.ManifestMismatch
  else if negb (cm_sealed manifest) then Err ArtifactTransitionError.ManifestNotSealed
  else if negb (bool_decide (chunk_indices manifest ⊆ held_chunk_indices))
  then Err ArtifactTransitionError.IncompleteChunks
  else Ok (artifact_with artifact ArtifactState.PendingVerification).

Definition complete_verification (artifact : Artifact) (digest_matches : bool)
  : result ArtifactTransitionError.t Artifact :=
  if negb (bool_decide (ar_state artifact = ArtifactState.PendingVerification))
  then Err ArtifactTransitionError.NotPendingVerification
  else Ok (artifact_with artifact
             (if digest_matches then ArtifactState.Verified else ArtifactState.Failed)).

Definition fail_incomplete (artifact : Artifact) : result ArtifactTransitionError.t Artifact :=
  if negb (bool_decide (ar_state artifact = ArtifactState.Incomplete))
  then Err ArtifactTransitionError.NotIncomplete
  else Ok (artifact_with artifact ArtifactState.Failed).

Definition set_capture_consistency (artifact : Artifact) (value : CaptureConsistency.t)
  : Artifact :=
  {| ar_id := ar_id artifact; ar_state := ar_state artifact; ar_capture_consistency := value |}.

(** ** Transfers *)

Module TransferDirection.
Inductive t : Type := AgentToServer.
#[global] Instance t_eq_dec : EqDecision t.
Proof. solve_decision. Defined.
End TransferDirection.

Record Transfer : Type := {
  tr_id : TransferId;
  tr_endpoint_id : EndpointId;
  tr_job_id : JobId;
  tr_job_step_id : JobStepId;
  tr_artifact_id : ArtifactId;
  tr_direction : TransferDirection.t;
  tr_digest_algorithm : DigestAlgorithm.t;
  tr_chunk_size : N;
  tr_source_provenance : str;
  tr_attempt_id : option AttemptId;
}.
#[global] Instance Transfer_eq_dec : EqDecision Transfer.
Proof. solve_decision. Defined.

Definition is_attempt_bound (t : Transfer) : bool := bool_decide (is_Some (tr_attempt_id t)).

Record TransferContext : Type := {
  tc_transfer : Transfer;
  tc_artifact : Artifact;
  tc_manifest : ChunkManifest;
}.

Definition create_transfer_context `{Entropy} (endpoint_id : EndpointId) (job : JobId)
    (job_step_id : JobStepId) (direction : TransferDirection.t)
    (digest_algorithm : DigestAlgorithm.t) (chunk_size : N) (source_provenance : str)
  : Gen TransferContext :=
  artifact_id ← new_v4;
  transfer_id ← new_v4;
  mret {| tc_transfer := {|
            tr_id := transfer_id; tr_endpoint_id := endpoint_id; tr_job_id := job;
            tr_job_step_id := job_step_id; tr_artifact_id := artifact_id;
            tr_direction := direction; tr_digest_algorithm := digest_algorithm;
            tr_chunk_size := chunk_size; tr_source_provenance := source_provenance;
            tr_attempt_id := None |};
          tc_artifact := new_incomplete artifact_id;
          tc_manifest := ChunkManifest_new artifact_id digest_algorithm chunk_size |}.

Module TransferBindingError.
Inductive t : Type := WrongJobStep | ConflictingRebind.
End TransferBindingError.

Definition bind_attempt (transfer : Transfer) (attempt : Attempt)
  : result TransferBindingError.t Transfer :=
  if negb (bool_decide (at_job_step_id attempt = tr_job_step_id transfer))
  then Err TransferBindingError.WrongJobStep
  else
    match tr_attempt_id transfer with
    | Some existing =>
        if negb (bool_decide (existing = at_id attempt)) then Err TransferBindingError.ConflictingRebind
        else Ok {| tr_id := tr_id transfer; tr_endpoint_id := tr_endpoint_id transfer;
                   tr_job_id := tr_job_id transfer; tr_job_step_id := tr_job_step_id transfer;
                   tr_artifact_id := tr_artifact_id transfer; tr_direction := tr_direction transfer;
                   tr_digest_algorithm := tr_digest_algorithm transfer;
                   tr_chunk_size := tr_chunk_size transfer;
                   tr_source_provenance := tr_source_provenance transfer;
                   tr_attempt_id := Some (at_id attempt) |}
    | None =>
        Ok {| tr_id := tr_id transfer; tr_endpoint_id := tr_endpoint_id transfer;
              tr_job_id := tr_job_id transfer; tr_job_step_id := tr_job_step_id transfer;
              tr_artifact_id := tr_artifact_id transfer; tr_direction := tr_direction transfer;
              tr_digest_algorithm := tr_digest_algorithm transfer;
              tr_chunk_size := tr_chunk_size transfer;
              tr_source_provenance := tr_source_provenance transfer;
              tr_attempt_id := Some (at_id attempt) |}
    end.

(** ** Transfer dispatch *)

Record TransferDispatchInputs : Type := {
  ti_job : Job;
  ti_step_id : JobStepId;
  ti_existing_active_attempt : bool;
  ti_transfer : Transfer;
}.

Record TransferDispatchOutcome : Type := {
  tdo_job_step : JobStep;
  tdo_attempt : Attempt;
  tdo_transfer : Transfer;
}.

Module TransferDispatchRejection.
Inductive t : Type :=
| StepNotFound | NotPreconditionsSatisfied | StepIsDestructive | TransferCorrelationMismatch
| JobNotRunning | NotCurrentStep | ExistingActiveAttempt | TransferAlreadyBound.
End TransferDispatchRejection.

Record TransferDispatchDenial : Type := {
  td_rejection : TransferDispatchRejection.t;
  td_pending_job_step : option JobStep;
}.

Definition transfer_structural (r : TransferDispatchRejection.t) : TransferDispatchDenial :=
  {| td_rejection := r; td_pending_job_step := None |}.

Definition transfer_revalidation_failure (r : TransferDispatchRejection.t) (step : JobStep)
  : TransferDispatchDenial :=
  {| td_rejection := r; td_pending_job_step := Some (step_with_state step JobStepState.Pending) |}.

Definition evaluate_transfer_dispatch `{Entropy} (inputs : TransferDispatchInputs)
  : Gen (result TransferDispatchDenial TransferDispatchOutcome) :=
  match find_step (ti_step_id inputs) (job_steps (ti_job inputs)) with
  | None => mret (Err (transfer_structural TransferDispatchRejection.StepNotFound))
  | Some step =>
      if negb (bool_decide (js_state step = JobStepState.PreconditionsSatisfied))
      then mret (Err (transfer_structural TransferDispatchRejection.NotPreconditionsSatisfied))
      else if bool_decide (is_Some (js_destructive_intent step))
      then mret (Err (transfer_structural TransferDispatchRejection.StepIsDestructive))
      else
        let transfer := ti_transfer inputs in
        if negb (bool_decide (tr_job_id transfer = job_id (ti_job inputs)))
           || negb (bool_decide (tr_job_step_id transfer = ti_step_id inputs))
           || negb (bool_decide (tr_endpoint_id transfer = job_endpoint_id (ti_job inputs)))
        then mret (Err (transfer_structural TransferDispatchRejection.TransferCorrelationMismatch))
        else
          let deny r := mret (Err (transfer_revalidation_failure r step)) in
          if negb (bool_decide (job_state (ti_job inputs) = JobState.Running))
          then deny TransferDispatchRejection.JobNotRunning
          else if negb (earlier_steps_all_succeeded (job_steps (ti_job inputs)) (js_order step))
          then deny TransferDispatchRejection.NotCurrentStep
          else if ti_existing_active_attempt inputs
          then deny TransferDispatchRejection.ExistingActiveAttempt
          else
            attempt_id ← new_v4;
            action_id ← new_v4;
            let attempt := {| at_id := attempt_id; at_job_step_id := js_id step;
                              at_action_id := action_id;
                              at_state := AttemptState.Dispatched |} in
            match bind_attempt transfer attempt with
            | Err TransferBindingError.ConflictingRebind =>
                deny TransferDispatchRejection.TransferAlreadyBound
            | Err TransferBindingError.WrongJobStep =>
                mret (Err (transfer_structural
                             TransferDispatchRejection.TransferCorrelationMismatch))
            | Ok bound_transfer =>
                mret (Ok {| tdo_job_step := step_with_state step JobStepState.Dispatching;
                            tdo_attempt := attempt; tdo_transfer := bound_transfer |})
            end
  end.

(** ** Manifest facts *)

Lemma Digest_new_Ok alg bytes d :
  Digest_new alg bytes = Ok d ↔ d = bytes ∧ length bytes = DigestAlgorithm.digest_len alg.
Proof. unfold Digest_new. case_bool_decide; cbn; naive_solver. Qed.

Lemma map_err_Ok {E F A} (f : E → F) (r : result E A) a : map_err f r = Ok a ↔ r = Ok a.
Proof. destruct r; cbn; naive_solver. Qed.

Lemma contiguous_true chunks n :
  contiguous chunks n = true ↔ ∀ i, (i < n)%N → is_Some (chunks !! i).
Proof.
  unfold contiguous. rewrite forallb_elem_of. split.
  - intros Hall i Hi. specialize (Hall (N.to_nat i)). rewrite N2Nat.id, bool_decide_eq_true in Hall.
    apply Hall, elem_of_seq. lia.
  - intros Hall i Hi%elem_of_seq. apply bool_decide_eq_true, Hall. lia.
Qed.

(** The indices below [n], as a set. *)
Definition below (n : N) : gset N := list_to_set (N.of_nat <$> seq 0 (N.to_nat n)).

Lemma elem_of_below i n : i ∈ below n ↔ (i < n)%N.
Proof.
  unfold below. rewrite elem_of_list_to_set, list_elem_of_fmap. setoid_rewrite elem_of_seq. split.
  - intros (k & -> & ?). lia.
  - intros Hi. exists (N.to_nat i). rewrite N2Nat.id. split; [done|lia].
Qed.

Lemma size_below n : size (below n) = N.to_nat n.
Proof.
  unfold below. rewrite size_list_to_set, length_fmap, length_seq; [done|].
  apply NoDup_fmap_2; [|apply NoDup_seq]. intros ? ? ?. lia.
Qed.

(** The right number of chunks, all of [0..n] among them, leaves no room for another. *)
Lemma contiguous_exact (chunks : gmap N ExpectedChunk) n :
  size chunks = N.to_nat n → contiguous chunks n = true → dom chunks = below n.
Proof.
  intros Hs Hc. symmetry. apply set_eq. intros i.
  assert (below n ⊆ dom chunks) as Hsub.
  { intros j Hj. apply elem_of_dom. apply contiguous_true with n; [done|]. by apply elem_of_below. }
  split; [apply Hsub|]. intros Hi. destruct (decide (i ∈ below n)) as [|Hni]; [done|].
  assert (below n ⊂ dom chunks) as Hlt%subset_size by set_solver.
  rewrite size_below, size_dom in Hlt. lia.
Qed.

Lemma seal_Ok m n d m' :
  seal m n d = Ok (SealOutcome.Sealed m') ↔
  cm_sealed m = false ∧ length d = DigestAlgorithm.digest_len (cm_digest_algorithm m) ∧
  chunk_indices m = below n ∧
  m' = {| cm_artifact_id := cm_artifact_id m; cm_digest_algorithm := cm_digest_algorithm m;
          cm_chunk_size := cm_chunk_size m; cm_chunks := cm_chunks m; cm_sealed := true;
          cm_chunk_count := Some n; cm_artifact_digest := Some d |}.
Proof.
  unfold seal. rewrite result_bind_Ok. setoid_rewrite map_err_Ok. setoid_rewrite Digest_new_Ok.
  unfold chunk_indices. split.
  - intros (d' & (-> & Hl) & Hs). destruct (cm_sealed m) eqn:Hse; [by split_matches|].
    case_bool_decide as Hsz; [|done]. cbn in Hs. destruct (contiguous (cm_chunks m) n) eqn:Hc; [|done].
    injection Hs as <-. split_and!; [done|done|by apply contiguous_exact|done].
  - intros (Hse & Hl & Hd & ->). exists d. split; [done|]. rewrite Hse.
    assert (size (cm_chunks m) = N.to_nat n) as Hsz by (by rewrite <-size_dom, Hd, size_below).
    assert (contiguous (cm_chunks m) n = true) as Hc.
    { apply contiguous_true. intros i Hi. apply elem_of_dom. rewrite Hd. by apply elem_of_below. }
    rewrite bool_decide_eq_true_2 by done. by rewrite Hc.
Qed.

(** ** Runs of manifest operations *)

Module ManifestOp.
Inductive t : Type :=
| Record_ (index : ChunkIndex) (size : N) (digest : list byte)
| Seal (chunk_count : N) (digest : list byte).
End ManifestOp.

Definition manifest_step (m : ChunkManifest) (op : ManifestOp.t) : ChunkManifest :=
  match op with
  | ManifestOp.Record_ i s d =>
      match record_expected_chunk m i s d with Ok (ChunkRecordOutcome.Added m') => m' | _ => m end
  | ManifestOp.Seal n d =>
      match seal m n d with Ok (SealOutcome.Sealed m') => m' | _ => m end
  end.

Definition manifest_run (m : ChunkManifest) (ops : list ManifestOp.t) : ChunkManifest :=
  foldl manifest_step m ops.

(** A manifest as the operations leave it. *)
Record manifest_wf (m : ChunkManifest) : Prop := {
  mw_index i c : cm_chunks m !! i = Some c →
    ec_index c = i ∧ length (ec_digest c) = DigestAlgorithm.digest_len (cm_digest_algorithm m);
  mw_sealed : cm_sealed m = true → ∃ n d, cm_chunk_count m = Some n ∧
    cm_artifact_digest m = Some d ∧ chunk_indices m = below n ∧
    length d = DigestAlgorithm.digest_len (cm_digest_algorithm m);
  mw_open : cm_sealed m = false → cm_chunk_count m = None ∧ cm_artifact_digest m = None;
}.

Lemma record_Added m i s d m' :
  record_expected_chunk m i s d = Ok (ChunkRecordOutcome.Added m') ↔
  length d = DigestAlgorithm.digest_len (cm_digest_algorithm m) ∧
  cm_chunks m !! i = None ∧ cm_sealed m = false ∧
  m' = {| cm_artifact_id := cm_artifact_id m; cm_digest_algorithm := cm_digest_algorithm m;
          cm_chunk_size := cm_chunk_size m;
          cm_chunks := <[i := {| ec_index := i; ec_size := s; ec_digest := d |}]> (cm_chunks m);
          cm_sealed := false; cm_chunk_count := cm_chunk_count m;
          cm_artifact_digest := cm_artifact_digest m |}.
Proof.
  unfold record_expected_chunk. rewrite result_bind_Ok. setoid_rewrite map_err_Ok.
  setoid_rewrite Digest_new_Ok. split.
  - intros (d' & (-> & Hl) & Hr). destruct (cm_chunks m !! i) eqn:Hi; [by split_matches|].
    destruct (cm_sealed m) eqn:Hse; [done|]. by injection Hr as <-.
  - intros (Hl & Hi & Hse & ->). exists d. split; [done|]. by rewrite Hi, Hse.
Qed.

Lemma manifest_new_wf id alg n : manifest_wf (ChunkManifest_new id alg n).
Proof. split; cbn; [intros i c; by rewrite lookup_empty|done|done]. Qed.

(** One step changes nothing that is recorded, and nothing at all once sealed. *)
Definition manifest_extends (m m' : ChunkManifest) : Prop :=
  cm_artifact_id m' = cm_artifact_id m ∧ cm_digest_algorithm m' = cm_digest_algorithm m ∧
  cm_chunk_size m' = cm_chunk_size m ∧ cm_chunks m ⊆ cm_chunks m' ∧
  (cm_sealed m = true → m' = m).

Lemma manifest_step_ok m op :
  manifest_wf m → manifest_wf (manifest_step m op) ∧ manifest_extends m (manifest_step m op).
Proof.
  intros Hwf. assert (manifest_extends m m) as Hrefl by done.
  destruct op as [i s d|n d]; cbn.
  - destruct (record_expected_chunk m i s d) as [[m'|]|] eqn:Hr; [|done..].
    apply record_Added in Hr as (Hl & Hi & Hse & ->). split.
    + split; cbn; [|done|intros _; by apply (mw_open _ Hwf)]. intros j c. rewrite lookup_insert_Some.
      intros [[<- <-]|[_ Hj]]; [done|by apply (mw_index _ Hwf)].
    + split_and!; cbn; [done..| |congruence]. by apply insert_subseteq.
  - destruct (seal m n d) as [[m'|]|] eqn:Hr; [|done..].
    apply seal_Ok in Hr as (Hse & Hl & Hd & ->). split.
    + split; cbn; [apply (mw_index _ Hwf)| |done]. intros _. by exists n, d.
    + split_and!; cbn; [done|done|done|done|congruence].
Qed.

Lemma manifest_run_ok m ops :
  manifest_wf m → manifest_wf (manifest_run m ops) ∧ manifest_extends m (manifest_run m ops).
Proof.
  revert m. induction ops as [|op ops IH]; intros m Hwf; [done|].
  change (manifest_run m (op :: ops)) with (manifest_run (manifest_step m op) ops).
  destruct (manifest_step_ok m op Hwf) as [Hwf1 He1]. destruct (IH _ Hwf1) as [Hwf2 He2].
  split; [done|]. destruct He1 as (H1 & H2 & H3 & H4 & H5), He2 as (K1 & K2 & K3 & K4 & K5).
  split_and!; [congruence|congruence|congruence|by etrans|].
  intros Hs. specialize (H5 Hs). rewrite H5 in *. by apply K5.
Qed.

(** ** Properties *)

(** Sealing succeeds exactly when the manifest is open, the digest has the
    algorithm's length and the recorded chunk indices are exactly
    0, ..., chunk_count - 1: no gap, no extra chunk. *)
Theorem seal_exact m n d m' :
  seal m n d = Ok (SealOutcome.Sealed m') ↔
  cm_sealed m = false ∧ length d = DigestAlgorithm.digest_len (cm_digest_algorithm m) ∧
  (∀ i, is_Some (cm_chunks m !! i) ↔ (i < n)%N) ∧
  m' = {| cm_artifact_id := cm_artifact_id m; cm_digest_algorithm := cm_digest_algorithm m;
          cm_chunk_size := cm_chunk_size m; cm_chunks := cm_chunks m; cm_sealed := true;
          cm_chunk_count := Some n; cm_artifact_digest := Some d |}.
Proof.
  rewrite seal_Ok. assert (chunk_indices m = below n ↔ (∀ i, is_Some (cm_chunks m !! i) ↔ (i < n)%N))
    as ->; [|done]. unfold chunk_indices. split.
  - intros Hd i. by rewrite <-elem_of_dom, Hd, elem_of_below.
  - intros Hd. apply set_eq. intros i. by rewrite elem_of_dom, Hd, elem_of_below.
Qed.

(** A manifest only grows: through any sequence of record and seal requests,
    accepted or refused, a recorded chunk identity is never rewritten or dropped,
    the algorithm, chunk size and artifact never change, a sealed manifest never
    changes at all, and what is sealed is complete: indices 0, ..., count - 1, each
    with a digest of the algorithm's length. *)
Theorem manifest_append_only id alg chunk_size ops1 ops2 :
  let m1 := manifest_run (ChunkManifest_new id alg chunk_size) ops1 in
  let m2 := manifest_run m1 ops2 in
  (∀ i c, expected_chunk m1 i = Some c → expected_chunk m2 i = Some c) ∧
  cm_artifact_id m2 = id ∧ cm_digest_algorithm m2 = alg ∧ cm_chunk_size m2 = chunk_size ∧
  (cm_sealed m1 = true → m2 = m1) ∧
  (cm_sealed m2 = true → ∃ n d, cm_chunk_count m2 = Some n ∧ cm_artifact_digest m2 = Some d ∧
     length d = DigestAlgorithm.digest_len alg ∧
     ∀ i, (i < n)%N ↔ ∃ c, expected_chunk m2 i = Some c ∧
       ec_index c = i ∧ length (ec_digest c) = DigestAlgorithm.digest_len alg).
Proof.
  intros m1 m2. destruct (manifest_run_ok _ ops1 (manifest_new_wf id alg chunk_size)) as [W1 E1].
  destruct (manifest_run_ok _ ops2 W1) as [W2 E2]. fold m1 in W1, E1, E2, W2. fold m2 in W2, E2.
  destruct E1 as (A1 & A2 & A3 & _), E2 as (B1 & B2 & B3 & B4 & B5). cbn in A1, A2, A3.
  split_and!; [|by rewrite B1|by rewrite B2|by rewrite B3|done|].
  - intros i c. unfold expected_chunk. intros Hc. by eapply lookup_weaken.
  - intros Hs. destruct (mw_sealed _ W2 Hs) as (n & d & Hn & Hd & Hi & Hl).
    exists n, d. rewrite B2, A2 in Hl. split_and!; [done..|]. intros i.
    rewrite <-elem_of_below, <-Hi. unfold chunk_indices, expected_chunk. rewrite elem_of_dom. split.
    + intros [c Hc]. exists c. destruct (mw_index _ W2 _ _ Hc) as [? Hlc].
      rewrite B2, A2 in Hlc. done.
    + intros (c & Hc & _). by eauto.
Qed.
