(* ===== verification/Runtime.v ===== *)
(** * Transient runtime registries

    Models [crates/server/src/runtime/resource_arbiter.rs],
    [reservation_registry.rs] and [presence.rs]: in-memory maps behind a mutex,
    each method one critical section. [acquire] and [release] take two locks in
    turn, but a [ReservationId] is only known to anyone once [acquire] has
    returned it, so no other call can observe the state in between. *)

From stdpp Require Import prelude gmap strings.
From Stdlib Require Import Strings.Byte NArith.
From S2P Require Import Prelude.
From S2P Require Import Endpoint.

(** ** Machine integers *)

Definition u64_max : N := 18446744073709551615.

(** [u64::checked_add]. *)
Definition checked_add (x y : N) : option N :=
  if (x + y <=? u64_max)%N then Some (x + y)%N else None.

Lemma checked_add_Some x y z : checked_add x y = Some z ↔ z = (x + y)%N ∧ (x + y ≤ u64_max)%N.
Proof.
  unfold checked_add. destruct (N.leb_spec (x + y) u64_max); split.
  - intros [= <-]. done.
  - by intros [-> _].
  - done.
  - lia.
Qed.

Lemma checked_add_None x y : checked_add x y = None ↔ (u64_max < x + y)%N.
Proof. unfold checked_add. destruct (N.leb_spec (x + y) u64_max); split; done || lia. Qed.

(** ** [TechnicalResourceArbiter] *)

Module Arbiter.
Abbreviation ResourceKind := str.
Abbreviation ReservationId := N.

Record ResourceClaim : Type := { rc_kind : ResourceKind; rc_quantity : N }.

Inductive InsufficientCapacity : Type := InsufficientCapacity_.

Record TechnicalResourceArbiter : Type := {
  ra_capacities : gmap ResourceKind N;
  ra_reserved : gmap ResourceKind N;
  ra_reservations : gmap ReservationId (list ResourceClaim);
  ra_next_id : N;
}.

Definition new (capacities : gmap ResourceKind N) : TechnicalResourceArbiter :=
  {| ra_capacities := capacities; ra_reserved := ∅; ra_reservations := ∅; ra_next_id := 1 |}.

(** [map.get(kind).copied().unwrap_or(0)]. *)
Definition tally (m : gmap ResourceKind N) (k : ResourceKind) : N := default 0%N (m !! k).

(** The loop that merges same-kind claims. *)
Fixpoint merge_claims (claims : list ResourceClaim) (requested : gmap ResourceKind N)
  : option (gmap ResourceKind N) :=
  match claims with
  | [] => Some requested
  | claim :: rest =>
      entry ← checked_add (tally requested (rc_kind claim)) (rc_quantity claim);
      merge_claims rest (<[rc_kind claim := entry]> requested)
  end.

(** The validation loop over the merged request, which builds [new_totals]. *)
Fixpoint validate (capacities reserved : gmap ResourceKind N)
    (requested : list (ResourceKind * N)) (new_totals : gmap ResourceKind N)
  : option (gmap ResourceKind N) :=
  match requested with
  | [] => Some new_totals
  | (kind, quantity) :: rest =>
      new_total ← checked_add (tally reserved kind) quantity;
      if (tally capacities kind <? new_total)%N then None
      else validate capacities reserved rest (<[kind := new_total]> new_totals)
  end.

(** [new_totals ∪ reserved] is the loop [reserved.insert(kind, new_total)];
    [fetch_add] wraps. *)
Definition acquire (a : TechnicalResourceArbiter) (claims : list ResourceClaim)
  : TechnicalResourceArbiter * result InsufficientCapacity ReservationId :=
  match merge_claims claims ∅ with
  | None => (a, Err InsufficientCapacity_)
  | Some requested =>
      match validate (ra_capacities a) (ra_reserved a) (map_to_list requested) ∅ with
      | None => (a, Err InsufficientCapacity_)
      | Some new_totals =>
          let id := ra_next_id a in
          ({| ra_capacities := ra_capacities a;
              ra_reserved := new_totals ∪ ra_reserved a;
              ra_reservations := <[id := claims]> (ra_reservations a);
              ra_next_id := (id + 1) mod (u64_max + 1) |}, Ok id)
      end
  end.

(** One iteration of the loop of [release]. *)
Definition give_back (reserved : gmap ResourceKind N) (claim : ResourceClaim)
  : gmap ResourceKind N :=
  match reserved !! rc_kind claim with
  | None => reserved
  | Some current =>
      let current := (current - rc_quantity claim)%N in
      if (current =? 0)%N then delete (rc_kind claim) reserved
      else <[rc_kind claim := current]> reserved
  end.

Definition release (a : TechnicalResourceArbiter) (id : ReservationId)
  : TechnicalResourceArbiter :=
  match ra_reservations a !! id with
  | None => a
  | Some claims =>
      {| ra_capacities := ra_capacities a;
         ra_reserved := foldl give_back (ra_reserved a) claims;
         ra_reservations := delete id (ra_reservations a);
         ra_next_id := ra_next_id a |}
  end.

(** ** What the arbiter promises *)

(** The quantity of [k] a list of claims asks for. *)
Fixpoint claimed (k : ResourceKind) (claims : list ResourceClaim) : N :=
  match claims with
  | [] => 0
  | c :: rest => (if decide (rc_kind c = k) then rc_quantity c else 0) + claimed k rest
  end%N.

(** The quantity of [k] held by all outstanding reservations. *)
Definition outstanding (k : ResourceKind) (m : gmap ReservationId (list ResourceClaim)) : N :=
  map_fold (λ _ cs acc, claimed k cs + acc)%N 0%N m.

Lemma outstanding_empty k : outstanding k ∅ = 0%N.
Proof. apply map_fold_empty. Qed.

Lemma outstanding_insert k m id cs :
  m !! id = None → outstanding k (<[id := cs]> m) = (claimed k cs + outstanding k m)%N.
Proof. intros Hid. unfold outstanding.
  by rewrite (map_fold_insert_L (λ _ cs acc, (claimed k cs + acc)%N)) by (try intros; done || lia). Qed.

Lemma outstanding_delete k m id cs :
  m !! id = Some cs → outstanding k m = (claimed k cs + outstanding k (delete id m))%N.
Proof. intros Hid. unfold outstanding.
  by rewrite (map_fold_delete_L (λ _ cs acc, (claimed k cs + acc)%N) 0%N id cs m)
    by (try intros; done || lia). Qed.

Lemma tally_insert m k v k' :
  tally (<[k := v]> m) k' = if decide (k = k') then v else tally m k'.
Proof. unfold tally. rewrite lookup_insert. by case_decide. Qed.

Lemma merge_claims_spec claims r r' :
  merge_claims claims r = Some r' →
  ∀ k, tally r' k = (tally r k + claimed k claims)%N
       ∧ (is_Some (r' !! k) ↔ is_Some (r !! k) ∨ k ∈ rc_kind <$> claims).
Proof.
  revert r; induction claims as [|c claims IH]; intros r Hm k; simpl in Hm.
  - simplify_eq. simpl. split; [lia|]. split; [by left|]. intros [?|Hk]; [done|].
    by apply elem_of_nil in Hk.
  - apply bind_Some in Hm as (v & Hv & Hm). apply checked_add_Some in Hv as [-> Hv].
    destruct (IH _ Hm k) as [Ht Hd]. rewrite tally_insert in Ht. split.
    + rewrite Ht. simpl. case_decide; subst; lia.
    + rewrite Hd, lookup_insert. rewrite fmap_cons, elem_of_cons.
      case_decide; subst; naive_solver eauto.
Qed.

Lemma merge_claims_None claims r :
  merge_claims claims r = None → ∃ k, k ∈ rc_kind <$> claims ∧ (u64_max < tally r k + claimed k claims)%N.
Proof.
  revert r; induction claims as [|c claims IH]; intros r Hm; simpl in Hm; [done|].
  destruct (checked_add _ _) as [v|] eqn:Hv; simpl in Hm.
  - apply checked_add_Some in Hv as [-> Hv]. destruct (IH _ Hm) as (k & Hin & Hk).
    exists k. rewrite fmap_cons, elem_of_cons. split; [by right|].
    rewrite tally_insert in Hk. simpl. case_decide; subst; lia.
  - apply checked_add_None in Hv. exists (rc_kind c). rewrite fmap_cons, elem_of_cons.
    split; [by left|]. simpl. rewrite decide_True by done. lia.
Qed.

Lemma validate_spec caps res l acc tot :
  NoDup l.*1 →
  validate caps res l acc = Some tot →
  (∀ k q, (k, q) ∈ l → tot !! k = Some (tally res k + q)%N ∧ (tally res k + q ≤ tally caps k)%N)
  ∧ (∀ k, k ∉ l.*1 → tot !! k = acc !! k).
Proof.
  revert acc; induction l as [|[k q] l IH]; intros acc Hnd Hv; simpl in Hv.
  - simplify_eq. split; [by intros ?? ?%elem_of_nil|done].
  - rewrite fmap_cons in Hnd. apply NoDup_cons in Hnd as [Hk Hnd]. simpl in Hk.
    apply bind_Some in Hv as (v & Hadd & Hv). apply checked_add_Some in Hadd as [-> Hadd].
    destruct (N.ltb_spec (tally caps k) (tally res k + q)) as [|Hle]; [done|].
    destruct (IH _ Hnd Hv) as [Hin Hout]. split.
    + intros k' q' [[= -> ->]|Hin']%elem_of_cons; [|by apply Hin].
      split; [|done]. rewrite Hout by done. by rewrite lookup_insert_eq.
    + intros k' Hk'. rewrite fmap_cons, not_elem_of_cons in Hk'. destruct Hk' as [Hne Hk'].
      rewrite Hout by done. simpl in Hne. by rewrite lookup_insert_ne.
Qed.

Lemma validate_None caps res l acc :
  (∀ k, (tally caps k ≤ u64_max)%N) →
  validate caps res l acc = None →
  ∃ k q, (k, q) ∈ l ∧ (tally caps k < tally res k + q)%N.
Proof.
  intros Hcap. revert acc; induction l as [|[k q] l IH]; intros acc Hv; simpl in Hv; [done|].
  destruct (checked_add _ _) as [v|] eqn:Hadd; simpl in Hv.
  - apply checked_add_Some in Hadd as [-> Hadd].
    destruct (N.ltb_spec (tally caps k) (tally res k + q)).
    + exists k, q. rewrite elem_of_cons. naive_solver.
    + destruct (IH _ Hv) as (k' & q' & ? & ?). exists k', q'. rewrite elem_of_cons. naive_solver.
  - apply checked_add_None in Hadd. exists k, q. rewrite elem_of_cons.
    pose proof (Hcap k). split; [by left|lia].
Qed.

Lemma tally_give_back res c k :
  tally (give_back res c) k
  = (tally res k - if decide (rc_kind c = k) then rc_quantity c else 0)%N.
Proof.
  unfold give_back, tally. destruct (res !! rc_kind c) as [v|] eqn:Hv.
  - destruct (N.eqb_spec (v - rc_quantity c) 0).
    + rewrite lookup_delete. case_decide; subst; simpl; [|lia]. rewrite Hv. simpl. lia.
    + rewrite lookup_insert. case_decide; subst; simpl; [|lia]. rewrite Hv. simpl. lia.
  - case_decide; subst; [|lia]. by rewrite Hv.
Qed.

Lemma tally_release res claims k :
  tally (foldl give_back res claims) k = (tally res k - claimed k claims)%N.
Proof.
  revert res; induction claims as [|c claims IH]; intros res; simpl; [lia|].
  rewrite IH, tally_give_back. lia.
Qed.

(** ** The representation invariant *)

Record arbiter_wf (n : N) (a : TechnicalResourceArbiter) : Prop := {
  aw_caps : ∀ k, (tally (ra_capacities a) k ≤ u64_max)%N;
  aw_reserved : ∀ k, tally (ra_reserved a) k = outstanding k (ra_reservations a);
  aw_fits : ∀ k, (tally (ra_reserved a) k ≤ tally (ra_capacities a) k)%N;
  aw_ids : ∀ id, is_Some (ra_reservations a !! id) → (id < ra_next_id a)%N;
  aw_next : (ra_next_id a ≤ n + 1)%N;
}.

Lemma arbiter_wf_new caps : (∀ k, (tally caps k ≤ u64_max)%N) → arbiter_wf 0 (new caps).
Proof.
  intros Hcaps. split; simpl.
  - done.
  - intros k. by rewrite outstanding_empty.
  - intros k. unfold tally. rewrite lookup_empty. simpl. lia.
  - intros id Hid. rewrite lookup_empty in Hid. by destruct Hid.
  - lia.
Qed.

Lemma arbiter_wf_mono n m a : (n ≤ m)%N → arbiter_wf n a → arbiter_wf m a.
Proof. intros ? []. split; auto. lia. Qed.

(** What a granted request did to the books. *)
Lemma acquire_Ok a claims a' id :
  acquire a claims = (a', Ok id) →
  id = ra_next_id a
  ∧ ra_reservations a' = <[id := claims]> (ra_reservations a)
  ∧ ra_capacities a' = ra_capacities a
  ∧ ra_next_id a' = ((id + 1) mod (u64_max + 1))%N
  ∧ ∀ k, tally (ra_reserved a') k = (tally (ra_reserved a) k + claimed k claims)%N
         ∧ (k ∈ rc_kind <$> claims → (tally (ra_reserved a') k ≤ tally (ra_capacities a) k)%N).
Proof.
  unfold acquire. destruct (merge_claims claims ∅) as [req|] eqn:Hm; [|by intros].
  destruct (validate _ _ _ _) as [tot|] eqn:Hv; [|by intros].
  intros [= <- <-]. do 4 (split; [done|]). simpl. intros k.
  destruct (merge_claims_spec _ _ _ Hm k) as [Ht Hd].
  destruct (validate_spec _ _ _ _ _ (NoDup_fst_map_to_list req) Hv) as [Hin Hout].
  unfold tally at 1 in Ht. unfold tally in Ht at 1. rewrite lookup_empty in Ht, Hd.
  destruct (req !! k) as [q|] eqn:Hq.
  - destruct (Hin k q) as [Htot Hle]; [by apply elem_of_map_to_list|].
    assert (tally (tot ∪ ra_reserved a) k = (tally (ra_reserved a) k + q)%N) as ->.
    { unfold tally at 1. by rewrite (lookup_union_Some_l _ _ _ _ Htot). }
    simpl in Ht. split; [lia|]. intros _. lia.
  - assert (tot !! k = None) as Htot.
    { rewrite Hout; [by rewrite lookup_empty|]. rewrite list_elem_of_fmap.
      intros ([k' q'] & -> & Hin'). apply elem_of_map_to_list in Hin'. simpl in Hq. congruence. }
    assert (tally (tot ∪ ra_reserved a) k = tally (ra_reserved a) k) as ->.
    { unfold tally. by rewrite lookup_union_r. }
    simpl in Ht. split; [lia|]. intros Hk.
    assert (is_Some (None : option N)) as [? [=]]. apply Hd. by right.
Qed.

Lemma acquire_Err a claims a' e : acquire a claims = (a', Err e) → a' = a.
Proof. unfold acquire. intros. by split_matches. Qed.

Lemma claimed_notin k claims : k ∉ rc_kind <$> claims → claimed k claims = 0%N.
Proof.
  induction claims as [|c claims IH]; intros Hk; simpl; [done|].
  rewrite fmap_cons, not_elem_of_cons in Hk. destruct Hk as [? Hk].
  rewrite decide_False by done. rewrite IH by done. lia.
Qed.

Lemma acquire_wf n a claims :
  (n < u64_max - 1)%N → arbiter_wf n a → arbiter_wf (n + 1) (acquire a claims).1.
Proof.
  intros Hn [Hcap Hres Hfit Hids Hnext].
  destruct (acquire a claims) as [a' [id|e]] eqn:Ha; simpl.
  - apply acquire_Ok in Ha as (-> & Hrs & Hcs & Hni & Hk).
    rewrite N.mod_small in Hni by lia.
    assert (ra_reservations a !! ra_next_id a = None) as Hfresh.
    { apply eq_None_not_Some. intros Hs. apply Hids in Hs. lia. }
    split.
    + intros k. by rewrite Hcs.
    + intros k. rewrite Hrs, outstanding_insert by done. rewrite (proj1 (Hk k)), Hres. lia.
    + intros k. rewrite Hcs. destruct (decide (k ∈ rc_kind <$> claims)) as [Hin|Hin].
      * by apply Hk.
      * rewrite (proj1 (Hk k)), (claimed_notin _ _ Hin). specialize (Hfit k). lia.
    + intros id. rewrite Hrs, lookup_insert, Hni. case_decide; [lia|].
      intros Hs%Hids. lia.
    + lia.
  - apply acquire_Err in Ha as ->. eapply arbiter_wf_mono; [|by split]. lia.
Qed.

Lemma release_wf n a id : arbiter_wf n a → arbiter_wf n (release a id).
Proof.
  intros [Hcap Hres Hfit Hids Hnext]. unfold release.
  destruct (ra_reservations a !! id) as [cs|] eqn:Hid; [|by split]. split; simpl.
  - done.
  - intros k. rewrite tally_release, Hres, (outstanding_delete k _ _ _ Hid). lia.
  - intros k. rewrite tally_release. specialize (Hfit k). lia.
  - intros id' [Hne Hs]%lookup_delete_is_Some. by apply Hids.
  - done.
Qed.

Inductive op : Type := Acquire (claims : list ResourceClaim) | Release (id : ReservationId).

Definition run_op (a : TechnicalResourceArbiter) (o : op) : TechnicalResourceArbiter :=
  match o with
  | Acquire claims => (acquire a claims).1
  | Release id => release a id
  end.

Definition run (a : TechnicalResourceArbiter) (ops : list op) : TechnicalResourceArbiter :=
  foldl run_op a ops.

Lemma run_wf ops n a :
  (n + N.of_nat (length ops) < u64_max)%N → arbiter_wf n a →
  arbiter_wf (n + N.of_nat (length ops)) (run a ops).
Proof.
  revert n a; induction ops as [|o ops IH]; intros n a Hn Hwf; simpl length in *.
  - simpl. by rewrite N.add_0_r.
  - replace (n + N.of_nat (S (length ops)))%N with ((n + 1) + N.of_nat (length ops))%N by lia.
    simpl. apply IH; [lia|]. destruct o; simpl.
    + apply acquire_wf; [lia|done].
    + apply release_wf. by eapply arbiter_wf_mono; [|done]; lia.
Qed.

Lemma acquire_granted n a claims :
  arbiter_wf n a →
  is_ok (acquire a claims).2 = true
  ↔ ∀ k, k ∈ rc_kind <$> claims →
         (tally (ra_reserved a) k + claimed k claims ≤ tally (ra_capacities a) k)%N.
Proof.
  intros [Hcap Hres Hfit _ _]. split.
  - destruct (acquire a claims) as [a' [id|e]] eqn:Ha; [|done]. intros _ k Hk.
    apply acquire_Ok in Ha as (_ & _ & _ & _ & Hb). destruct (Hb k) as [<- Hle]. by apply Hle.
  - intros Hall. unfold acquire. destruct (merge_claims claims ∅) as [req|] eqn:Hm; simpl.
    + destruct (validate _ _ _ _) as [tot|] eqn:Hv; [done|]. simpl.
      apply validate_None in Hv as (k & q & Hin & Hlt); [|done].
      apply elem_of_map_to_list in Hin. destruct (merge_claims_spec _ _ _ Hm k) as [Ht Hd].
      unfold tally in Ht at 1 2. rewrite Hin, lookup_empty in Ht. simpl in Ht.
      rewrite lookup_empty, Hin in Hd. destruct (proj1 Hd) as [[? [=]]|Hk]; [by eauto|].
      specialize (Hall k Hk). lia.
    + apply merge_claims_None in Hm as (k & Hk & Hlt). unfold tally in Hlt.
      rewrite lookup_empty in Hlt. simpl in Hlt. specialize (Hall k Hk). specialize (Hcap k). lia.
Qed.

Lemma run_from_new caps ops :
  (∀ k, (tally caps k ≤ u64_max)%N) → (N.of_nat (length ops) < u64_max)%N →
  arbiter_wf (N.of_nat (length ops)) (run (new caps) ops).
Proof. intros Hc Hl. apply (run_wf ops 0); [done|by apply arbiter_wf_new]. Qed.

(** The arbiter's books are exact. After any sequence of [acquire] and
    [release] calls (fewer than 2^64 - 1 of them, so the identity counter has not
    wrapped), what the outstanding reservations hold of a kind never exceeds its
    capacity, and a further request is granted exactly when every kind it names
    still fits on top of what is outstanding, however the request splits its
    claims; a quantity that overflows [u64] is refused, never wrapped. *)
Theorem arbiter_exact (caps : gmap ResourceKind N) (ops : list op) (claims : list ResourceClaim) :
  (∀ k, (tally caps k ≤ u64_max)%N) → (N.of_nat (length ops) < u64_max)%N →
  let a := run (new caps) ops in
  (∀ k, (outstanding k (ra_reservations a) ≤ tally (ra_capacities a) k)%N)
  ∧ (is_ok (acquire a claims).2 = true
     ↔ ∀ k, k ∈ rc_kind <$> claims →
            (outstanding k (ra_reservations a) + claimed k claims ≤ tally (ra_capacities a) k)%N).
Proof.
  intros Hc Hl a. pose proof (run_from_new caps ops Hc Hl) as Hwf. fold a in Hwf. split.
  - intros k. rewrite <-(aw_reserved _ _ Hwf). apply (aw_fits _ _ Hwf).
  - rewrite (acquire_granted _ _ _ Hwf). by setoid_rewrite (aw_reserved _ _ Hwf).
Qed.

(** A reservation is given back exactly once and in full. In every reachable
    state, releasing what [acquire] just granted restores the reserved quantity of
    every kind and the set of outstanding reservations; releasing it a second time,
    or releasing an unknown identity, changes nothing. *)
Theorem release_restores (caps : gmap ResourceKind N) (ops : list op)
    (claims : list ResourceClaim) (a' : TechnicalResourceArbiter) (id : ReservationId) :
  (∀ k, (tally caps k ≤ u64_max)%N) → (N.of_nat (length ops) < u64_max)%N →
  acquire (run (new caps) ops) claims = (a', Ok id) →
  ra_reservations (release a' id) = ra_reservations (run (new caps) ops)
  ∧ (∀ k, tally (ra_reserved (release a' id)) k = tally (ra_reserved (run (new caps) ops)) k)
  ∧ release (release a' id) id = release a' id.
Proof.
  intros Hc Hl Ha. pose proof (run_from_new caps ops Hc Hl) as Hwf.
  apply acquire_Ok in Ha as (-> & Hrs & _ & _ & Hk).
  assert (ra_reservations (run (new caps) ops) !! ra_next_id (run (new caps) ops) = None) as Hfr.
  { apply eq_None_not_Some. intros Hs. apply (aw_ids _ _ Hwf) in Hs. lia. }
  unfold release at 1 2 4 5. rewrite Hrs, lookup_insert_eq. simpl.
  rewrite delete_insert_id by done. split; [done|]. split.
  - intros k. rewrite tally_release, (proj1 (Hk k)). lia.
  - unfold release. simpl. by rewrite Hfr.
Qed.
End Arbiter.

(** ** [AttemptReservationRegistry] *)

Module Registry.
Abbreviation AttemptReservationRegistry := (gmap AttemptId Arbiter.ReservationId).

Module RegistrationOutcome.
Inductive t : Type := Registered | AlreadyRegistered.
End RegistrationOutcome.

Definition register (r : AttemptReservationRegistry) (attempt_id : AttemptId)
    (reservation_id : Arbiter.ReservationId)
  : AttemptReservationRegistry * RegistrationOutcome.t :=
  match r !! attempt_id with
  | Some _ => (r, RegistrationOutcome.AlreadyRegistered)
  | None => (<[attempt_id := reservation_id]> r, RegistrationOutcome.Registered)
  end.

Definition take (r : AttemptReservationRegistry) (attempt_id : AttemptId)
  : AttemptReservationRegistry * option Arbiter.ReservationId :=
  (delete attempt_id r, r !! attempt_id).
End Registry.

(** ** [PresenceRegistry] *)

Module Presence.
Abbreviation ProtocolId := Uuid.

Abbreviation PresenceRegistry := (gmap EndpointId (gset ProtocolId)).

Definition register (p : PresenceRegistry) (endpoint_id : EndpointId) (session_id : ProtocolId)
  : PresenceRegistry :=
  <[endpoint_id := default ∅ (p !! endpoint_id) ∪ {[session_id]}]> p.

Definition unregister (p : PresenceRegistry) (endpoint_id : EndpointId) (session_id : ProtocolId)
  : PresenceRegistry :=
  match p !! endpoint_id with
  | None => p
  | Some set =>
      let set := set ∖ {[session_id]} in
      if bool_decide (set = ∅) then delete endpoint_id p else <[endpoint_id := set]> p
  end.

Definition is_present (p : PresenceRegistry) (endpoint_id : EndpointId) : bool :=
  match p !! endpoint_id with
  | None => false
  | Some set => negb (bool_decide (set = ∅))
  end.

Inductive op : Type :=
| Register (endpoint_id : EndpointId) (session_id : ProtocolId)
| Unregister (endpoint_id : EndpointId) (session_id : ProtocolId).

Definition run_op (p : PresenceRegistry) (o : op) : PresenceRegistry :=
  match o with
  | Register e s => register p e s
  | Unregister e s => unregister p e s
  end.

(** The specification: the set of live (endpoint, session) pairs. *)
Definition spec_op (live : gset (EndpointId * ProtocolId)) (o : op)
  : gset (EndpointId * ProtocolId) :=
  match o with
  | Register e s => live ∪ {[(e, s)]}
  | Unregister e s => live ∖ {[(e, s)]}
  end.

Definition represents (p : PresenceRegistry) (live : gset (EndpointId * ProtocolId)) : Prop :=
  ∀ e s, s ∈ default ∅ (p !! e) ↔ (e, s) ∈ live.

Lemma represents_step p live o : represents p live → represents (run_op p o) (spec_op live o).
Proof.
  intros Hr e s. specialize (Hr e s). destruct o as [e' s'|e' s']; simpl.
  - unfold register. rewrite lookup_insert.
    case_decide; subst; simpl; [|set_solver].
    rewrite !elem_of_union, !elem_of_singleton, Hr. naive_solver.
  - rewrite elem_of_difference, elem_of_singleton, <-Hr. unfold unregister.
    destruct (p !! e') as [set|] eqn:He'.
    + case_bool_decide as Hempty; [rewrite lookup_delete|rewrite lookup_insert];
        case_decide; subst; simpl; rewrite ?He'; simpl; set_solver.
    + split; [|naive_solver]. intros Hin. split; [done|]. intros [= -> ->].
      by rewrite He' in Hin.
Qed.

Definition present_sessions (p : PresenceRegistry) (e : EndpointId) : gset ProtocolId :=
  default ∅ (p !! e).

Lemma present_register p e s e' s' :
  s' ∈ present_sessions (register p e s) e' ↔
  s' ∈ present_sessions p e' ∨ (e' = e ∧ s' = s).
Proof.
  unfold present_sessions, register. rewrite lookup_insert.
  case_decide; subst; simpl; set_solver.
Qed.
Lemma present_unregister p e s e' s' :
  s' ∈ present_sessions (unregister p e s) e' ↔
  s' ∈ present_sessions p e' ∧ ¬ (e' = e ∧ s' = s).
Proof.
  unfold present_sessions, unregister. destruct (p !! e) as [X|] eqn:He.
  - case_bool_decide; [rewrite lookup_delete|rewrite lookup_insert];
      case_decide; subst; simpl; rewrite ?He; simpl; set_solver.
  - split; [|by intros [? _]]. intros Hs. split; [done|]. intros [-> ->]. by rewrite He in Hs.
Qed.
Lemma is_present_session p e : is_present p e = true ↔ ∃ s, s ∈ present_sessions p e.
Proof.
  unfold is_present, present_sessions. destruct (p !! e) as [X|]; simpl.
  - rewrite negb_true_iff, bool_decide_eq_false. split.
    + intros Hne. by apply set_choose_L in Hne.
    + intros [s Hs] ->. by apply not_elem_of_empty in Hs.
  - split; [done|]. by intros [s Hs%not_elem_of_empty].
Qed.

(** Presence is exactly "some authenticated session is live": after any
    sequence of registrations and removals, an Endpoint is present if and only if
    one of its sessions was registered and not removed since; closing one of several
    sessions, removing twice or removing an unknown session never makes it absent. *)
Theorem presence_refines (ops : list op) (e : EndpointId) :
  is_present (foldl run_op ∅ ops) e = true ↔ ∃ s, (e, s) ∈ foldl spec_op ∅ ops.
Proof.
  assert (∀ p live, represents p live → represents (foldl run_op p ops) (foldl spec_op live ops))
    as Hrun.
  { induction ops as [|o ops IH]; intros p live Hr; [done|]. by apply IH, represents_step. }
  specialize (Hrun ∅ ∅). unfold is_present.
  assert (represents (foldl run_op ∅ ops) (foldl spec_op ∅ ops)) as Hr.
  { apply Hrun. intros e' s'. by rewrite lookup_empty. }
  specialize (Hr e). destruct (foldl run_op ∅ ops !! e) as [set|]; simpl in *.
  - rewrite negb_true_iff, bool_decide_eq_false. split.
    + intros [s Hs]%set_choose_L. exists s. by apply Hr.
    + intros [s Hs%Hr] ->. set_solver.
  - split; [done|]. intros [s Hs%Hr]. set_solver.
Qed.
End Presence.

(** ** Concrete runs *)

Module RuntimeExamples.
Import Arbiter.
Definition caps : gmap ResourceKind N := {[lit "cpu" := 4%N; lit "net" := u64_max]}.
Definition cpu (n : N) : ResourceClaim := {| rc_kind := lit "cpu"; rc_quantity := n |}.
Definition net (n : N) : ResourceClaim := {| rc_kind := lit "net"; rc_quantity := n |}.
Definition ops : list op := [Acquire [cpu 2; net 1]; Acquire [cpu 1; cpu 1]; Release 1].

Lemma caps_bounded k : (tally caps k ≤ u64_max)%N.
Proof.
  unfold tally, caps. rewrite lookup_insert, lookup_singleton. unfold u64_max.
  repeat case_match; simpl; lia.
Qed.

(** Split claims are merged, and [u64] overflow is refused. *)
Lemma arbiter_exact_witness :
  is_ok (acquire (run (new caps) ops) [cpu 1; cpu 1]).2 = true
  ∧ is_ok (acquire (run (new caps) ops) [cpu 2; cpu 1]).2 = false
  ∧ is_ok (acquire (run (new caps) ops) [net 1; net u64_max]).2 = false
  ∧ (outstanding (lit "cpu") (ra_reservations (run (new caps) ops)) ≤ 4)%N.
Proof.
  do 3 (split; [vm_compute; reflexivity|]).
  exact (proj1 (arbiter_exact caps ops [] caps_bounded ltac:(vm_compute; reflexivity)) (lit "cpu")).
Defined.

Lemma release_restores_witness :
  let a := run (new caps) ops in
  ra_reservations (release (acquire a [cpu 2; net 7]).1 3) = ra_reservations a.
Proof.
  refine (proj1 (release_restores caps ops [cpu 2; net 7]
    (acquire (run (new caps) ops) [cpu 2; net 7]).1 3 caps_bounded _ _)).
  - vm_compute. reflexivity.
  - apply injective_projections; [reflexivity|]. vm_compute. reflexivity.
Defined.
End RuntimeExamples.
