(* ===== verification/JobStore.v ===== *)
(** * The Job tables and the transactions on them

    Models [crates/server/src/adapters/postgres/job_repository.rs] over the tables
    [jobs], [job_steps], [attempts] (and the parts of [endpoints] and [transfers]
    it reads or writes). The services that drive it are in [JobServices].

    Each repository method is one transaction. It locks the rows it decides on,
    so transactions on one Job are serialised; a run is a sequence of whole
    transactions. The one method that also reads outside its transaction,
    [request_cancellation], takes the state its unlocked scan saw as an argument. *)

From stdpp Require Import prelude gmap strings sorting.
From Stdlib Require Import Strings.Byte NArith ZArith.
From S2P Require Import Prelude.
From S2P Require Import External.
From S2P Require Import Credential.
From S2P Require Import Endpoint.
From S2P Require Import Enrollment.
From S2P Require Import EnrollmentStore.
From S2P Require Import Job.
From S2P Require Import Transfer.

(** ** Tables *)

Record JobRow : Type := { jr_endpoint_id : EndpointId; jr_state : JobState.t }.

(** [jd_endpoints] and [jd_inventory] (the [current_inventory_revision_id] column)
    belong to other repositories and are only read here. The all-or-none check on
    a step's intent columns makes a row of [job_steps] a [JobStep]. *)
Record JobDb : Type := {
  jd_endpoints : gmap EndpointId EndpointAggregate;
  jd_inventory : gmap EndpointId InventoryRevisionId;
  jd_jobs : gmap JobId JobRow;
  jd_steps : gmap JobStepId JobStep;
  jd_attempts : gmap AttemptId Attempt;
  jd_transfers : gmap TransferId Transfer;
  jd_events : gmap Uuid DomainEvent.t;
  jd_audits : gmap Uuid AuditRecord;
}.

Definition with_jobs (db : JobDb) (m : gmap JobId JobRow) : JobDb :=
  {| jd_endpoints := jd_endpoints db; jd_inventory := jd_inventory db; jd_jobs := m;
     jd_steps := jd_steps db; jd_attempts := jd_attempts db; jd_transfers := jd_transfers db;
     jd_events := jd_events db; jd_audits := jd_audits db |}.
Definition with_steps (db : JobDb) (m : gmap JobStepId JobStep) : JobDb :=
  {| jd_endpoints := jd_endpoints db; jd_inventory := jd_inventory db; jd_jobs := jd_jobs db;
     jd_steps := m; jd_attempts := jd_attempts db; jd_transfers := jd_transfers db;
     jd_events := jd_events db; jd_audits := jd_audits db |}.
Definition with_attempts (db : JobDb) (m : gmap AttemptId Attempt) : JobDb :=
  {| jd_endpoints := jd_endpoints db; jd_inventory := jd_inventory db; jd_jobs := jd_jobs db;
     jd_steps := jd_steps db; jd_attempts := m; jd_transfers := jd_transfers db;
     jd_events := jd_events db; jd_audits := jd_audits db |}.
Definition with_transfers (db : JobDb) (m : gmap TransferId Transfer) : JobDb :=
  {| jd_endpoints := jd_endpoints db; jd_inventory := jd_inventory db; jd_jobs := jd_jobs db;
     jd_steps := jd_steps db; jd_attempts := jd_attempts db; jd_transfers := m;
     jd_events := jd_events db; jd_audits := jd_audits db |}.
Definition with_events (db : JobDb) (m : gmap Uuid DomainEvent.t) : JobDb :=
  {| jd_endpoints := jd_endpoints db; jd_inventory := jd_inventory db; jd_jobs := jd_jobs db;
     jd_steps := jd_steps db; jd_attempts := jd_attempts db; jd_transfers := jd_transfers db;
     jd_events := m; jd_audits := jd_audits db |}.
Definition with_audits (db : JobDb) (m : gmap Uuid AuditRecord) : JobDb :=
  {| jd_endpoints := jd_endpoints db; jd_inventory := jd_inventory db; jd_jobs := jd_jobs db;
     jd_steps := jd_steps db; jd_attempts := jd_attempts db; jd_transfers := jd_transfers db;
     jd_events := jd_events db; jd_audits := m |}.

(** ** Statements *)

Definition job_active (s : JobState.t) : bool :=
  match s with JobState.Running | JobState.Cancelling => true | _ => false end.

Definition attempt_active (s : AttemptState.t) : bool :=
  match s with
  | AttemptState.Dispatched | AttemptState.InProgress | AttemptState.AwaitingReconciliation => true
  | _ => false
  end.

(** [UPDATE jobs SET state = $1 WHERE id = $2], checked against the partial unique
    index [jobs_active_endpoint_exclusivity]. *)
Definition update_job_state (db : JobDb) (id : JobId) (state : JobState.t)
  : result Backend.t JobDb :=
  match jd_jobs db !! id with
  | None => Ok db
  | Some row =>
      if job_active state
         && existsb (λ p : JobId * JobRow, negb (bool_decide (p.1 = id))
                           && bool_decide (jr_endpoint_id p.2 = jr_endpoint_id row)
                           && job_active (jr_state p.2)) (map_to_list (jd_jobs db))
      then Err Backend.UniqueViolation
      else Ok (with_jobs db (<[id := {| jr_endpoint_id := jr_endpoint_id row; jr_state := state |}]>
                               (jd_jobs db)))
  end.

(** [UPDATE job_steps SET state = $1 WHERE id = $2]. *)
Definition update_step_state (db : JobDb) (id : JobStepId) (state : JobStepState.t) : JobDb :=
  with_steps db (alter (λ s, step_with_state s state) id (jd_steps db)).

(** [UPDATE job_steps SET state = $1, failure_reason = $2 WHERE id = $3]. *)
Definition update_step_outcome (db : JobDb) (id : JobStepId) (state : JobStepState.t)
    (reason : option JobStepFailureReason.t) : JobDb :=
  with_steps db (alter (λ s,
    {| js_id := js_id s; js_job_id := js_job_id s; js_order := js_order s; js_state := state;
       js_destructive_intent := js_destructive_intent s; js_failure_reason := reason |})
    id (jd_steps db)).

Definition update_attempt_state (db : JobDb) (id : AttemptId) (state : AttemptState.t) : JobDb :=
  with_attempts db (alter (λ a, attempt_with a state) id (jd_attempts db)).

Definition insert_step (s : JobStep) (m : gmap JobStepId JobStep)
  : result Backend.t (gmap JobStepId JobStep) :=
  if (js_order s <? 0)%Z then Err Backend.CheckViolation
  else if existsb (λ p : JobStepId * JobStep, bool_decide (js_job_id p.2 = js_job_id s)
                            && (js_order p.2 =? js_order s)%Z) (map_to_list m)
  then Err Backend.UniqueViolation
  else insert_unique (js_id s)
         {| js_id := js_id s; js_job_id := js_job_id s; js_order := js_order s;
            js_state := js_state s; js_destructive_intent := None; js_failure_reason := None |} m.

Fixpoint insert_steps (steps : list JobStep) (m : gmap JobStepId JobStep)
  : result Backend.t (gmap JobStepId JobStep) :=
  match steps with
  | [] => Ok m
  | s :: rest => m' ← insert_step s m; insert_steps rest m'
  end.

Definition insert_attempt (a : Attempt) (m : gmap AttemptId Attempt)
  : result Backend.t (gmap AttemptId Attempt) :=
  if existsb (λ p : AttemptId * Attempt, bool_decide (at_action_id p.2 = at_action_id a))
       (map_to_list m)
  then Err Backend.UniqueViolation
  else insert_unique (at_id a) a m.

(** [UPDATE transfers SET attempt_id = $1], a unique column. *)
Definition persist_attempt_binding (db : JobDb) (transfer_id : TransferId) (attempt : AttemptId)
  : result Backend.t JobDb :=
  match jd_transfers db !! transfer_id with
  | None => Ok db
  | Some t =>
      if existsb (λ p : TransferId * Transfer, negb (bool_decide (p.1 = transfer_id))
                        && bool_decide (tr_attempt_id p.2 = Some attempt))
           (map_to_list (jd_transfers db))
      then Err Backend.UniqueViolation
      else Ok (with_transfers db (<[transfer_id := {|
        tr_id := tr_id t; tr_endpoint_id := tr_endpoint_id t; tr_job_id := tr_job_id t;
        tr_job_step_id := tr_job_step_id t; tr_artifact_id := tr_artifact_id t;
        tr_direction := tr_direction t; tr_digest_algorithm := tr_digest_algorithm t;
        tr_chunk_size := tr_chunk_size t; tr_source_provenance := tr_source_provenance t;
        tr_attempt_id := Some attempt |}]> (jd_transfers db)))
  end.

(** [SELECT ... FROM job_steps WHERE job_id = $1 ORDER BY step_order ASC]. *)
Definition step_le (s s' : JobStep) : Prop := (js_order s ≤ js_order s')%Z.
#[global] Instance step_le_dec : RelDecision step_le.
Proof. intros s s'. unfold step_le. apply _. Defined.

Definition fetch_job_steps (db : JobDb) (job : JobId) : list JobStep :=
  merge_sort step_le
    (List.filter (λ s, bool_decide (js_job_id s = job)) ((map_to_list (jd_steps db)).*2)).

Definition find_job (db : JobDb) (id : JobId) : option Job :=
  row ← jd_jobs db !! id;
  Some {| job_id := id; job_endpoint_id := jr_endpoint_id row; job_state := jr_state row;
          job_steps := fetch_job_steps db id |}.

Definition find_attempt_by_action (db : JobDb) (action_id : ActionId) : option Attempt :=
  List.find (λ a, bool_decide (at_action_id a = action_id)) ((map_to_list (jd_attempts db)).*2).

(** [SELECT EXISTS(SELECT 1 FROM attempts WHERE job_step_id = $1 AND state IN (...))]. *)
Definition step_has_active_attempt (db : JobDb) (step_id : JobStepId) : bool :=
  existsb (λ a, bool_decide (at_job_step_id a = step_id) && attempt_active (at_state a))
    ((map_to_list (jd_attempts db)).*2).

(** ** Workflow creation, intent, admission, eligibility *)

(** The errors of the repository methods, as [ApplicationError] joins them. *)
Module JobError.
Inductive t : Type :=
| EndpointNotFound (id : EndpointId)
| EndpointNotEnrolled (id : EndpointId)
| EmptyWorkflow
| JobNotFound (id : JobId)
| JobStepNotFound (step : JobStepId) (job : JobId)
| NotEligible
| AlreadyAuthorized (step : JobStepId)
| EndpointNotAvailable
| JobNotRunning (id : JobId)
| NotCurrent (step : JobStepId)
| NoCurrentInventory (id : EndpointId)
| NoCurrentTarget (id : EndpointId)
| TransferNotFound (id : TransferId)
| Rejected (r : FinalDispatchRejection.t)
| TransferRejected (r : TransferDispatchRejection.t)
| UnknownAction
| CancellationNotEligible (id : JobId)
| NoUncertainAttempt (id : JobId)
| Repository (e : Backend.t).
End JobError.

Definition repo_create_workflow (db : JobDb) (job : Job) : JobDb * result JobError.t unit :=
  match jd_endpoints db !! job_endpoint_id job with
  | None => (db, Err (JobError.EndpointNotFound (job_endpoint_id job)))
  | Some ep =>
      if negb (bool_decide (ep_identity ep = IdentityState.Enrolled))
      then (db, Err (JobError.EndpointNotEnrolled (job_endpoint_id job)))
      else
        match (jobs ← insert_unique (job_id job)
                        {| jr_endpoint_id := job_endpoint_id job; jr_state := job_state job |}
                        (jd_jobs db);
               steps ← insert_steps (job_steps job) (jd_steps db);
               Ok (with_steps (with_jobs db jobs) steps)) with
        | Err e => (db, Err (JobError.Repository e))
        | Ok db' => (db', Ok tt)
        end
  end.

Definition repo_authorize_destructive_intent (db : JobDb) (job : JobId) (step_id : JobStepId)
    (decide : JobStep → result DestructiveIntentError.t DestructiveIntent)
  : JobDb * result JobError.t DestructiveIntent :=
  match jd_steps db !! step_id with
  | Some step =>
      if negb (bool_decide (js_job_id step = job))
      then (db, Err (JobError.JobStepNotFound step_id job))
      else
        match decide step with
        | Err DestructiveIntentError.WrongJob => (db, Err (JobError.JobStepNotFound step_id job))
        | Err DestructiveIntentError.NotEligible => (db, Err JobError.NotEligible)
        | Err DestructiveIntentError.AlreadyAuthorized =>
            (db, Err (JobError.AlreadyAuthorized step_id))
        | Ok intent =>
            (with_steps db (alter (λ s,
               {| js_id := js_id s; js_job_id := js_job_id s; js_order := js_order s;
                  js_state := js_state s; js_destructive_intent := Some intent;
                  js_failure_reason := js_failure_reason s |}) step_id (jd_steps db)),
             Ok intent)
        end
  | None => (db, Err (JobError.JobStepNotFound step_id job))
  end.

Definition repo_admit_job (db : JobDb) (id : JobId)
    (decide : Job → Gen (result JobAdmissionError.t JobAdmissionOutcome))
  : Gen (JobDb * result JobError.t Job) :=
  match find_job db id with
  | None => mret (db, Err (JobError.JobNotFound id))
  | Some job =>
      outcome ← decide job;
      mret match outcome with
      | Err JobAdmissionError.NotPending => (db, Err JobError.NotEligible)
      | Ok outcome =>
          (* the UPDATE is guarded by [state = 'Pending'] *)
          if negb (bool_decide (job_state job = JobState.Pending))
          then (db, Err JobError.NotEligible)
          else
            match update_job_state db id (job_state (jao_job outcome)) with
            | Err _ => (db, Err JobError.EndpointNotAvailable)
            | Ok db1 =>
                match insert_events [jao_event outcome] (jd_events db1) with
                | Err e => (db, Err (JobError.Repository e))
                | Ok events => (with_events db1 events, Ok (jao_job outcome))
                end
            end
      end
  end.

Definition repo_satisfy_current_step_preconditions (db : JobDb) (id : JobId)
    (step_id : JobStepId) (decide : Job → result JobStepEligibilityError.t JobStep)
  : JobDb * result JobError.t JobStep :=
  match find_job db id with
  | None => (db, Err (JobError.JobNotFound id))
  | Some job =>
      match decide job with
      | Err JobStepEligibilityError.JobNotRunning => (db, Err (JobError.JobNotRunning id))
      | Err JobStepEligibilityError.StepNotFound => (db, Err (JobError.JobStepNotFound step_id id))
      | Err JobStepEligibilityError.NotCurrent => (db, Err (JobError.NotCurrent step_id))
      | Ok updated => (update_step_state db step_id (js_state updated), Ok updated)
      end
  end.

(** ** Final dispatch

    The decision closures are arguments: they come from the services. *)

Record FinalDispatchLockedFacts : Type := {
  flf_job : Job;
  flf_endpoint : EndpointAggregate;
  flf_existing_active_attempt : bool;
  flf_current_inventory_revision_id : option InventoryRevisionId;
}.

Record FinalDispatchCommit : Type := {
  fc_outcome : FinalDispatchOutcome;
  fc_audit : AuditRecord;
}.

(** [if let Some(pending_step) = &denial.pending_job_step { UPDATE ...; commit }
    else { rollback }]. *)
Definition persist_denial (db : JobDb) (step_id : JobStepId) (pending : option JobStep) : JobDb :=
  match pending with
  | Some step => update_step_state db step_id (js_state step)
  | None => db
  end.

(** The step update and the insertion of the new attempt, shared by both dispatches. *)
Definition persist_dispatch (db : JobDb) (step_id : JobStepId) (step : JobStep) (attempt : Attempt)
  : result Backend.t JobDb :=
  let db1 := update_step_state db step_id (js_state step) in
  attempts ← insert_attempt {| at_id := at_id attempt; at_job_step_id := step_id;
                               at_action_id := at_action_id attempt;
                               at_state := at_state attempt |} (jd_attempts db1);
  Ok (with_attempts db1 attempts).

Definition repo_commit_destructive_dispatch (db : JobDb) (id : JobId) (step_id : JobStepId)
    (decide : FinalDispatchLockedFacts → Gen (result FinalDispatchDenial FinalDispatchCommit))
  : Gen (JobDb * result JobError.t FinalDispatchOutcome) :=
  match find_job db id with
  | None => mret (db, Err (JobError.JobNotFound id))
  | Some job =>
      match jd_endpoints db !! job_endpoint_id job with
      | None => mret (db, Err (JobError.Repository Backend.MissingRow))
      | Some endpoint =>
          decided ← decide {|
            flf_job := job; flf_endpoint := endpoint;
            flf_existing_active_attempt := step_has_active_attempt db step_id;
            flf_current_inventory_revision_id := jd_inventory db !! job_endpoint_id job |};
          mret match decided with
          | Err denial =>
              (persist_denial db step_id (fd_pending_job_step denial),
               Err (JobError.Rejected (fd_rejection denial)))
          | Ok commit =>
              let outcome := fc_outcome commit in
              match (db1 ← persist_dispatch db step_id (fo_job_step outcome) (fo_attempt outcome);
                     audits ← insert_audit (Some (fc_audit commit)) (jd_audits db1);
                     Ok (with_audits db1 audits)) with
              | Err e => (db, Err (JobError.Repository e))
              | Ok db' => (db', Ok outcome)
              end
          end
      end
  end.

Definition repo_commit_transfer_dispatch (db : JobDb) (id : JobId) (step_id : JobStepId)
    (transfer_id : TransferId)
    (decide : TransferDispatchInputs → Gen (result TransferDispatchDenial TransferDispatchOutcome))
  : Gen (JobDb * result JobError.t TransferDispatchOutcome) :=
  match find_job db id with
  | None => mret (db, Err (JobError.JobNotFound id))
  | Some job =>
      match jd_transfers db !! transfer_id with
      | None => mret (db, Err (JobError.TransferNotFound transfer_id))
      | Some transfer =>
          (* [TransferDispatchLockedFacts] and the [step_id] the closure captures *)
          decided ← decide {|
            ti_job := job; ti_step_id := step_id;
            ti_existing_active_attempt := step_has_active_attempt db step_id;
            ti_transfer := transfer |};
          mret match decided with
          | Err denial =>
              (persist_denial db step_id (td_pending_job_step denial),
               Err (JobError.TransferRejected (td_rejection denial)))
          | Ok outcome =>
              match (db1 ← persist_dispatch db step_id (tdo_job_step outcome)
                             (tdo_attempt outcome);
                     persist_attempt_binding db1 transfer_id (at_id (tdo_attempt outcome))) with
              | Err e => (db, Err (JobError.Repository e))
              | Ok db' => (db', Ok outcome)
              end
          end
      end
  end.

(** ** Evidence *)

Record ActionEvidenceLockedFacts : Type := {
  lf_job : Job;
  lf_job_step : JobStep;
  lf_attempt : Attempt;
}.

(** Attempt, then step, then Job, by [action_id]; an action of another Endpoint is
    indistinguishable from an unknown one. *)
Definition lock_by_action (db : JobDb) (action_id : ActionId)
    (authenticated_endpoint_id : EndpointId) : result JobError.t ActionEvidenceLockedFacts :=
  match find_attempt_by_action db action_id with
  | None => Err JobError.UnknownAction
  | Some attempt =>
      match jd_steps db !! at_job_step_id attempt with
      | None => Err (JobError.Repository Backend.MissingRow)
      | Some step =>
          match find_job db (js_job_id step) with
          | None => Err (JobError.Repository Backend.MissingRow)
          | Some job =>
              if negb (bool_decide (job_endpoint_id job = authenticated_endpoint_id))
              then Err JobError.UnknownAction
              else Ok {| lf_job := job; lf_job_step := step; lf_attempt := attempt |}
          end
      end
  end.

(** The writes of an applied outcome. *)
Definition persist_applied (db : JobDb) (applied : Applied) (audit : option AuditRecord)
  : result Backend.t JobDb :=
  let db1 := update_attempt_state db (at_id (ap_attempt applied)) (at_state (ap_attempt applied)) in
  let db2 := update_step_outcome db1 (js_id (ap_job_step applied)) (js_state (ap_job_step applied))
               (js_failure_reason (ap_job_step applied)) in
  db3 ← update_job_state db2 (job_id (ap_job applied)) (job_state (ap_job applied));
  events ← insert_events (ap_events applied) (jd_events db3);
  audits ← insert_audit audit (jd_audits db3);
  Ok (with_audits (with_events db3 events) audits).

(** [ApplyActionEvidenceDecisionOutcome] and its two siblings. *)
Module EvidenceDecision.
Inductive t : Type := Applied (a : Applied) (audit : option AuditRecord) | NoOp | Conflict.
End EvidenceDecision.

(** [ApplyActionEvidenceResult] and its two siblings. *)
Module EvidenceResult.
Inductive t : Type := Applied (a : Applied) | NoOp | Conflict.
End EvidenceResult.

Definition repo_apply_action_evidence (db : JobDb) (action_id : ActionId)
    (authenticated_endpoint_id : EndpointId)
    (decide : ActionEvidenceLockedFacts → Gen EvidenceDecision.t)
  : Gen (JobDb * result JobError.t EvidenceResult.t) :=
  match lock_by_action db action_id authenticated_endpoint_id with
  | Err e => mret (db, Err e)
  | Ok facts =>
      decided ← decide facts;
      mret match decided with
      | EvidenceDecision.NoOp => (db, Ok EvidenceResult.NoOp)
      | EvidenceDecision.Conflict => (db, Ok EvidenceResult.Conflict)
      | EvidenceDecision.Applied applied audit =>
          match persist_applied db applied audit with
          | Err e => (db, Err (JobError.Repository e))
          | Ok db' => (db', Ok (EvidenceResult.Applied applied))
          end
      end
  end.

(** These two methods have the same text over their own outcome types, which have
    no [Conflict]. *)
Definition repo_apply_cancel_ack := repo_apply_action_evidence.
Definition repo_apply_status_report := repo_apply_action_evidence.

(** ** Cancellation requests *)

(** The attempts of one row of [attempts JOIN job_steps] that satisfy [p]. *)
Definition joined_attempts (db : JobDb) (p : JobStep → Attempt → bool) : list AttemptId :=
  omap (λ a : Attempt,
    step ← jd_steps db !! at_job_step_id a;
    if p step a then Some (at_id a) else None) ((map_to_list (jd_attempts db)).*2).

Definition active_attempt_candidate_rows (db : JobDb) (job : JobId)
  : result Backend.t (list AttemptId) :=
  let rows := joined_attempts db (λ step a,
    bool_decide (js_job_id step = job) && bool_decide (js_state step = JobStepState.Dispatching)
    && attempt_active (at_state a)) in
  if (1 <? length rows)%nat then Err Backend.InvariantViolation else Ok rows.

Record RequestCancellationLockedFacts : Type := {
  rc_job : Job;
  rc_active_attempt : option Attempt;
}.

Module CancellationPass.
Inductive t : Type :=
| Retry
| Fail (e : JobError.t)
| Locked (facts : RequestCancellationLockedFacts).
End CancellationPass.

(** One pass of the loop: [pre] is the state the unlocked scan read, [db] the one
    the locks froze. *)
Definition cancellation_pass (pre db : JobDb) (id : JobId) : CancellationPass.t :=
  let locked active :=
    match find_job db id with
    | None => CancellationPass.Fail (JobError.JobNotFound id)
    | Some job => CancellationPass.Locked {| rc_job := job; rc_active_attempt := active |}
    end in
  match active_attempt_candidate_rows pre id with
  | Err e => CancellationPass.Fail (JobError.Repository e)
  | Ok (candidate :: _) =>
      match jd_attempts db !! candidate with
      | None => CancellationPass.Fail (JobError.Repository Backend.MissingRow)
      | Some attempt =>
          if attempt_active (at_state attempt) then locked (Some attempt)
          else CancellationPass.Retry
      end
  | Ok [] =>
      match jd_jobs db !! id with
      | None => CancellationPass.Fail (JobError.JobNotFound id)
      | Some _ =>
          match active_attempt_candidate_rows db id with
          | Err e => CancellationPass.Fail (JobError.Repository e)
          | Ok (_ :: _) => CancellationPass.Retry
          | Ok [] => locked None
          end
      end
  end.

Definition MAX_PASSES : nat := 8.

(** [loop { passes_remaining -= 1; if passes_remaining == 0 { return Err } ... }];
    pass [i] reads [pre i]. *)
Fixpoint cancellation_loop (pre : nat → JobDb) (db : JobDb) (id : JobId)
    (passes_remaining i : nat) : result JobError.t RequestCancellationLockedFacts :=
  match passes_remaining with
  | O | 1 => Err (JobError.Repository Backend.RetryBudgetExceeded)
  | S passes_remaining' =>
      match cancellation_pass (pre i) db id with
      | CancellationPass.Retry => cancellation_loop pre db id passes_remaining' (S i)
      | CancellationPass.Fail e => Err e
      | CancellationPass.Locked facts => Ok facts
      end
  end.

Module CancellationDecided.
Inductive t : Type :=
| EnteredCancelling (job : Job) (attempt_id : AttemptId) (action_id : ActionId)
    (audit : AuditRecord)
| CompletedImmediately (job : Job) (event : DomainEvent.t) (audit : AuditRecord)
| AlreadyCancelling
| AlreadyTerminal.
End CancellationDecided.

Module RequestCancellationResult.
Inductive t : Type :=
| EnteredCancelling (attempt_id : AttemptId) (action_id : ActionId) (endpoint_id : EndpointId)
| CompletedImmediately | AlreadyCancelling | AlreadyTerminal.
End RequestCancellationResult.

(** Passes that retry change nothing, so a request is placed in a run at its last
    pass; what its scans read, [pre], is arbitrary. *)
Definition repo_request_cancellation (pre : nat → JobDb) (db : JobDb) (id : JobId)
    (decide : RequestCancellationLockedFacts
              → Gen (result CancellationRequestError.t CancellationDecided.t))
  : Gen (JobDb * result JobError.t RequestCancellationResult.t) :=
  match cancellation_loop pre db id MAX_PASSES 0 with
  | Err e => mret (db, Err e)
  | Ok facts =>
      decided ← decide facts;
      mret match decided with
      | Err CancellationRequestError.NotEligible =>
          (db, Err (JobError.CancellationNotEligible id))
      | Ok CancellationDecided.AlreadyCancelling =>
          (db, Ok RequestCancellationResult.AlreadyCancelling)
      | Ok CancellationDecided.AlreadyTerminal =>
          (db, Ok RequestCancellationResult.AlreadyTerminal)
      | Ok (CancellationDecided.EnteredCancelling job attempt_id action_id audit) =>
          match (db1 ← update_job_state db id (job_state job);
                 audits ← insert_audit (Some audit) (jd_audits db1);
                 Ok (with_audits db1 audits)) with
          | Err e => (db, Err (JobError.Repository e))
          | Ok db' =>
              (db', Ok (RequestCancellationResult.EnteredCancelling attempt_id action_id
                          (job_endpoint_id job)))
          end
      | Ok (CancellationDecided.CompletedImmediately job event audit) =>
          match (db1 ← update_job_state db id (job_state job);
                 events ← insert_events [event] (jd_events db1);
                 audits ← insert_audit (Some audit) (jd_audits db1);
                 Ok (with_audits (with_events db1 events) audits)) with
          | Err e => (db, Err (JobError.Repository e))
          | Ok db' => (db', Ok RequestCancellationResult.CompletedImmediately)
          end
      end
  end.

(** ** Uncertainty and reconciliation *)

(** [Dispatched] or [InProgress]. *)
Definition attempt_in_flight (s : AttemptState.t) : bool :=
  match s with AttemptState.Dispatched | AttemptState.InProgress => true | _ => false end.

Definition step_endpoint (db : JobDb) (step : JobStep) : option EndpointId :=
  jr_endpoint_id <$> jd_jobs db !! js_job_id step.

Definition repo_mark_endpoint_active_attempt_uncertain (db : JobDb) (endpoint_id : EndpointId)
    (decide : Attempt → option Attempt) : JobDb * result Backend.t (option AttemptId) :=
  let rows := joined_attempts db (λ step a,
    bool_decide (step_endpoint db step = Some endpoint_id)
    && bool_decide (js_state step = JobStepState.Dispatching)
    && attempt_in_flight (at_state a)) in
  if (1 <? length rows)%nat then (db, Err Backend.InvariantViolation)
  else
    match rows with
    | [] => (db, Ok None)
    | candidate :: _ =>
        match jd_attempts db !! candidate ≫= decide with
        | None => (db, Ok None)
        | Some updated =>
            (update_attempt_state db (at_id updated) (at_state updated), Ok (Some (at_id updated)))
        end
    end.

Fixpoint reconcile_each (db : JobDb) (decide : Attempt → option Attempt) (ids : list AttemptId)
  : JobDb * list AttemptId :=
  match ids with
  | [] => (db, [])
  | candidate :: rest =>
      match jd_attempts db !! candidate ≫= decide with
      | None => reconcile_each db decide rest
      | Some updated =>
          let '(db', reconciled) :=
            reconcile_each (update_attempt_state db (at_id updated) (at_state updated)) decide rest in
          (db', at_id updated :: reconciled)
      end
  end.

Definition repo_reconcile_all_active_attempts_on_startup (db : JobDb)
    (decide : Attempt → option Attempt) : JobDb * list AttemptId :=
  reconcile_each db decide
    (at_id <$> List.filter (λ a, attempt_in_flight (at_state a))
                 ((map_to_list (jd_attempts db)).*2)).

Definition repo_find_reconciliation_candidate (db : JobDb) (endpoint_id : EndpointId)
  : result Backend.t (option ActionId) :=
  let rows := omap (λ a : Attempt,
    step ← jd_steps db !! at_job_step_id a;
    if bool_decide (step_endpoint db step = Some endpoint_id)
       && bool_decide (at_state a = AttemptState.AwaitingReconciliation)
    then Some (at_action_id a) else None) ((map_to_list (jd_attempts db)).*2) in
  if (1 <? length rows)%nat then Err Backend.InvariantViolation else Ok (head rows).

Definition repo_action_targets_endpoint (db : JobDb) (action_id : ActionId)
    (authenticated_endpoint_id : EndpointId) : bool :=
  existsb (λ a, bool_decide (at_action_id a = action_id)
                && match jd_steps db !! at_job_step_id a with
                   | None => false
                   | Some step => bool_decide (step_endpoint db step
                                               = Some authenticated_endpoint_id)
                   end) ((map_to_list (jd_attempts db)).*2).

Module CloseDecision.
Inductive t : Type := Applied (a : Applied) (audit : AuditRecord) | AlreadyIndeterminate | NotEligible.
End CloseDecision.

Module CloseIndeterminateResult.
Inductive t : Type := Applied (a : Applied) | AlreadyIndeterminate | NotEligible.
End CloseIndeterminateResult.

Definition repo_close_indeterminate (db : JobDb) (id : JobId)
    (decide : ActionEvidenceLockedFacts → Gen CloseDecision.t)
  : Gen (JobDb * result JobError.t CloseIndeterminateResult.t) :=
  let rows := joined_attempts db (λ step a,
    bool_decide (js_job_id step = id) && bool_decide (js_state step = JobStepState.Dispatching)
    && bool_decide (at_state a = AttemptState.AwaitingReconciliation)) in
  if (1 <? length rows)%nat
  then mret (db, Err (JobError.Repository Backend.InvariantViolation))
  else
    match rows with
    | [] => mret (db, Err (JobError.NoUncertainAttempt id))
    | candidate :: _ =>
        match (attempt ← jd_attempts db !! candidate;
               step ← jd_steps db !! at_job_step_id attempt; Some (attempt, step)) with
        | None => mret (db, Err (JobError.Repository Backend.MissingRow))
        | Some (attempt, step) =>
            match find_job db id with
            | None => mret (db, Err (JobError.JobNotFound id))
            | Some job =>
                decided ← decide {| lf_job := job; lf_job_step := step; lf_attempt := attempt |};
                mret match decided with
                | CloseDecision.AlreadyIndeterminate =>
                    (db, Ok CloseIndeterminateResult.AlreadyIndeterminate)
                | CloseDecision.NotEligible => (db, Ok CloseIndeterminateResult.NotEligible)
                | CloseDecision.Applied applied audit =>
                    match persist_applied db applied (Some audit) with
                    | Err e => (db, Err (JobError.Repository e))
                    | Ok db' => (db', Ok (CloseIndeterminateResult.Applied applied))
                    end
                end
            end
        end
    end.
