(* ===== verification/JobSpec.v ===== *)
(** * The workflow protocol: an abstract specification of the Job tables

    What the Job services promise about [jobs], [job_steps] and [attempts], as a
    small-step relation on those three tables, with the invariants every sequence of
    its steps keeps. [JobSafety] shows that each service call of [JobServices] is a
    sequence of these steps.

    One rule, [ws_stray], is not part of the intended protocol: it closes a Job while
    an Attempt of it may still be active. It is enabled by the flag of the relation,
    so that each result says whether it depends on its absence. *)

From stdpp Require Import prelude gmap.
From Stdlib Require Import Strings.Byte NArith ZArith.
From S2P Require Import Prelude.
From S2P Require Import Endpoint.
From S2P Require Import Job.
From S2P Require Import JobStore.

Record Tables : Type := {
  t_jobs : gmap JobId JobRow;
  t_steps : gmap JobStepId JobStep;
  t_attempts : gmap AttemptId Attempt;
}.

Definition tables (db : JobDb) : Tables :=
  {| t_jobs := jd_jobs db; t_steps := jd_steps db; t_attempts := jd_attempts db |}.

Definition set_job (T : Tables) (id : JobId) (row : JobRow) (st : JobState.t) : Tables :=
  {| t_jobs := <[id := {| jr_endpoint_id := jr_endpoint_id row; jr_state := st |}]> (t_jobs T);
     t_steps := t_steps T; t_attempts := t_attempts T |}.
Definition set_step (T : Tables) (id : JobStepId) (s : JobStep) : Tables :=
  {| t_jobs := t_jobs T; t_steps := <[id := s]> (t_steps T); t_attempts := t_attempts T |}.
Definition set_attempt (T : Tables) (id : AttemptId) (a : Attempt) : Tables :=
  {| t_jobs := t_jobs T; t_steps := t_steps T; t_attempts := <[id := a]> (t_attempts T) |}.

(** ** The vocabulary of the rules *)

(** Every earlier step of the same Job has succeeded. *)
Definition earlier_done (T : Tables) (s : JobStep) : Prop :=
  ∀ id s', t_steps T !! id = Some s' → js_job_id s' = js_job_id s →
    (js_order s' < js_order s)%Z → js_state s' = JobStepState.Succeeded.

(** No other active Job on the Endpoint. *)
Definition no_rival (T : Tables) (id : JobId) (endpoint : EndpointId) : Prop :=
  ∀ id' row, t_jobs T !! id' = Some row → id' ≠ id → jr_endpoint_id row = endpoint →
    job_active (jr_state row) = false.

(** Attempt [a] is active and belongs to Job [job]. *)
Definition active_for (T : Tables) (job : JobId) (a : Attempt) : Prop :=
  ∃ id s, t_attempts T !! id = Some a ∧ attempt_active (at_state a) = true
          ∧ t_steps T !! at_job_step_id a = Some s ∧ js_job_id s = job.

Definition quiet (T : Tables) (job : JobId) : Prop := ∀ a, ¬ active_for T job a.

Definition job_terminal (s : JobState.t) : bool :=
  match s with JobState.Succeeded | JobState.Failed | JobState.Cancelled => true | _ => false end.

Definition fresh_step (job : JobId) (id : JobStepId) (s : JobStep) : Prop :=
  js_id s = id ∧ js_job_id s = job ∧ js_state s = JobStepState.Pending
  ∧ js_destructive_intent s = None ∧ js_failure_reason s = None.

Definition unique_orders (m : gmap JobStepId JobStep) : Prop :=
  ∀ id s id' s', m !! id = Some s → m !! id' = Some s' →
    js_job_id s = js_job_id s' → js_order s = js_order s' → id = id'.

(** At most one active Job per Endpoint. *)
Definition exclusive (m : gmap JobId JobRow) : Prop :=
  ∀ id row id' row', m !! id = Some row → m !! id' = Some row' →
    jr_endpoint_id row = jr_endpoint_id row' → job_active (jr_state row) = true →
    job_active (jr_state row') = true → id = id'.

(** How evidence ends a step, and what that makes of its Job. *)
Inductive step_end (s : JobStep) : JobStep → Prop :=
| se_succeeded : step_end s (step_with_state s JobStepState.Succeeded)
| se_failed r : step_end s (step_failed s r)
| se_cancelled : step_end s (step_with_state s JobStepState.Cancelled).

Definition others_done (T : Tables) (s : JobStep) : Prop :=
  ∀ id s', t_steps T !! id = Some s' → js_job_id s' = js_job_id s → id ≠ js_id s →
    js_state s' = JobStepState.Succeeded.

Definition job_after (T : Tables) (before : JobState.t) (s s' : JobStep) (after : JobState.t)
  : Prop :=
  if decide (before = JobState.Cancelling) then after = JobState.Cancelled
  else
    match js_state s' with
    | JobStepState.Succeeded =>
        (after = JobState.Succeeded ∧ others_done T s)
        ∨ (after = JobState.Running ∧ ¬ others_done T s)
    | JobStepState.Failed => after = JobState.Failed
    | _ => False
    end.

(** ** The protocol *)

Inductive wf_step (stray : bool) (T : Tables) : Tables → Prop :=
| ws_create job row steps' :
    t_jobs T !! job = None → jr_state row = JobState.Pending →
    (∀ id s, t_steps T !! id = Some s → steps' !! id = Some s) →
    (∀ id s, steps' !! id = Some s → t_steps T !! id = Some s ∨ fresh_step job id s) →
    unique_orders steps' →
    wf_step stray T {| t_jobs := <[job := row]> (t_jobs T); t_steps := steps';
                       t_attempts := t_attempts T |}
| ws_admit job row :
    t_jobs T !! job = Some row → jr_state row = JobState.Pending →
    no_rival T job (jr_endpoint_id row) →
    wf_step stray T (set_job T job row JobState.Running)
| ws_cancelling job row :
    t_jobs T !! job = Some row → jr_state row = JobState.Running →
    no_rival T job (jr_endpoint_id row) →
    wf_step stray T (set_job T job row JobState.Cancelling)
| ws_cancelled job row :
    t_jobs T !! job = Some row → jr_state row = JobState.Running → quiet T job →
    wf_step stray T (set_job T job row JobState.Cancelled)
| ws_late_ack job row :
    t_jobs T !! job = Some row → jr_state row = JobState.Cancelling → quiet T job →
    wf_step stray T (set_job T job row JobState.Cancelled)
| ws_stray job row :
    stray = true → t_jobs T !! job = Some row → jr_state row = JobState.Cancelling →
    wf_step stray T (set_job T job row JobState.Cancelled)
| ws_satisfy id s row :
    t_steps T !! id = Some s → js_state s = JobStepState.Pending →
    t_jobs T !! js_job_id s = Some row → jr_state row = JobState.Running → earlier_done T s →
    wf_step stray T (set_step T id (step_with_state s JobStepState.PreconditionsSatisfied))
| ws_intent id s intent :
    t_steps T !! id = Some s → js_state s = JobStepState.Pending →
    js_destructive_intent s = None →
    wf_step stray T (set_step T id
      {| js_id := js_id s; js_job_id := js_job_id s; js_order := js_order s;
         js_state := js_state s; js_destructive_intent := Some intent;
         js_failure_reason := js_failure_reason s |})
| ws_deny id s :
    t_steps T !! id = Some s → js_state s = JobStepState.PreconditionsSatisfied →
    wf_step stray T (set_step T id (step_with_state s JobStepState.Pending))
| ws_dispatch id s row a :
    t_steps T !! id = Some s → js_state s = JobStepState.PreconditionsSatisfied →
    t_jobs T !! js_job_id s = Some row → jr_state row = JobState.Running → earlier_done T s →
    t_attempts T !! at_id a = None → at_job_step_id a = id →
    at_state a = AttemptState.Dispatched →
    (∀ id' a', t_attempts T !! id' = Some a' → at_action_id a' ≠ at_action_id a) →
    wf_step stray T (set_attempt (set_step T id (step_with_state s JobStepState.Dispatching))
                       (at_id a) a)
| ws_attempt id a st :
    t_attempts T !! id = Some a → attempt_active (at_state a) = true → attempt_active st = true →
    wf_step stray T (set_attempt T id (attempt_with a st))
| ws_terminal id a st s s' row after :
    t_attempts T !! id = Some a → attempt_active (at_state a) = true →
    attempt_active st = false →
    t_steps T !! at_job_step_id a = Some s → step_end s s' →
    t_jobs T !! js_job_id s = Some row → job_after T (jr_state row) s s' after →
    (job_active after = true → no_rival T (js_job_id s) (jr_endpoint_id row)) →
    wf_step stray T (set_job (set_step (set_attempt T id (attempt_with a st))
                               (at_job_step_id a) s') (js_job_id s) row after).

(** ** Invariants *)

Record tables_inv (T : Tables) : Prop := {
  ti_step_key : ∀ id s, t_steps T !! id = Some s → js_id s = id;
  ti_step_job : ∀ id s, t_steps T !! id = Some s → is_Some (t_jobs T !! js_job_id s);
  ti_orders : unique_orders (t_steps T);
  ti_reason : ∀ id s, t_steps T !! id = Some s →
    (is_Some (js_failure_reason s) ↔ js_state s = JobStepState.Failed);
  ti_attempt_key : ∀ id a, t_attempts T !! id = Some a → at_id a = id;
  ti_action : ∀ id a id' a', t_attempts T !! id = Some a → t_attempts T !! id' = Some a' →
    at_action_id a = at_action_id a' → id = id';
  ti_attempt_step : ∀ id a, t_attempts T !! id = Some a →
    is_Some (t_steps T !! at_job_step_id a);
  ti_exclusive : exclusive (t_jobs T);
  ti_active : ∀ id a s, t_attempts T !! id = Some a → attempt_active (at_state a) = true →
    t_steps T !! at_job_step_id a = Some s → js_state s = JobStepState.Dispatching;
  ti_one : ∀ id a id' a', t_attempts T !! id = Some a → t_attempts T !! id' = Some a' →
    attempt_active (at_state a) = true → attempt_active (at_state a') = true →
    at_job_step_id a = at_job_step_id a' → id = id';
  ti_dispatching : ∀ id s, t_steps T !! id = Some s → js_state s = JobStepState.Dispatching →
    ∃ aid a, t_attempts T !! aid = Some a ∧ at_job_step_id a = id
             ∧ attempt_active (at_state a) = true;
  ti_linear : ∀ id s, t_steps T !! id = Some s → js_state s ≠ JobStepState.Pending →
    earlier_done T s;
  ti_pending : ∀ job row, t_jobs T !! job = Some row → jr_state row = JobState.Pending →
    ∀ id s, t_steps T !! id = Some s → js_job_id s = job → js_state s = JobStepState.Pending;
  ti_succeeded : ∀ job row, t_jobs T !! job = Some row → jr_state row = JobState.Succeeded →
    ∀ id s, t_steps T !! id = Some s → js_job_id s = job → js_state s = JobStepState.Succeeded;
  ti_failed : ∀ job row, t_jobs T !! job = Some row → jr_state row = JobState.Failed →
    ∀ id s, t_steps T !! id = Some s → js_job_id s = job → js_state s ≠ JobStepState.Dispatching;
}.

(** What only holds when no stray step was taken. *)
Definition cancelled_quiet (T : Tables) : Prop :=
  ∀ job row, t_jobs T !! job = Some row → jr_state row = JobState.Cancelled →
    ∀ id s, t_steps T !! id = Some s → js_job_id s = job → js_state s ≠ JobStepState.Dispatching.

(** ** Consequences *)

Lemma dispatching_unique T id s id' s' :
  tables_inv T → t_steps T !! id = Some s → t_steps T !! id' = Some s' →
  js_job_id s = js_job_id s' → js_state s = JobStepState.Dispatching →
  js_state s' = JobStepState.Dispatching → id = id'.
Proof.
  intros HI Hs Hs' Hj Hd Hd'.
  destruct (Z.lt_trichotomy (js_order s) (js_order s')) as [Hlt|[Heq|Hlt]].
  - pose proof (ti_linear _ HI _ _ Hs' ltac:(congruence) _ _ Hs Hj Hlt). congruence.
  - by eapply (ti_orders _ HI).
  - pose proof (ti_linear _ HI _ _ Hs ltac:(congruence) _ _ Hs' (eq_sym Hj) Hlt). congruence.
Qed.

(** At most one Attempt of a Job is active. *)
Lemma active_unique T job a a' :
  tables_inv T → active_for T job a → active_for T job a' → a = a'.
Proof.
  intros HI (id & s & Ha & Hact & Hs & Hj) (id' & s' & Ha' & Hact' & Hs' & Hj').
  assert (at_job_step_id a = at_job_step_id a') as Heq.
  { eapply dispatching_unique; eauto using ti_active; congruence. }
  assert (id = id') as ->; [by eapply (ti_one _ HI)|]. congruence.
Qed.

(** A Job has an active Attempt exactly when one of its steps is being dispatched. *)
Lemma quiet_iff T job :
  tables_inv T →
  quiet T job ↔ ∀ id s, t_steps T !! id = Some s → js_job_id s = job →
                        js_state s ≠ JobStepState.Dispatching.
Proof.
  intros HI. split.
  - intros Hq id s Hs Hj Hd. destruct (ti_dispatching _ HI _ _ Hs Hd) as (aid & a & Ha & <- & Hact).
    apply (Hq a). by exists aid, s.
  - intros Hn a (id & s & Ha & Hact & Hs & Hj). by apply (Hn _ _ Hs Hj), (ti_active _ HI _ _ _ Ha).
Qed.

(** ** Preservation *)

(** Resolve lookups in updated tables. *)
Ltac upd :=
  repeat match goal with
  | H : <[_ := _]> _ !! _ = Some _ |- _ =>
      apply lookup_insert_Some in H as [[? ?]|[? ?]]; simplify_eq/=
  end.

Lemma is_Some_insert {A} (m : gmap Uuid A) i j x :
  is_Some (m !! i) → is_Some (<[j := x]> m !! i).
Proof. intros Hs. rewrite lookup_insert. case_decide; [by eauto|done]. Qed.

Lemma exclusive_insert T job row st :
  exclusive (t_jobs T) → (job_active st = true → no_rival T job (jr_endpoint_id row)) →
  exclusive (<[job := {| jr_endpoint_id := jr_endpoint_id row; jr_state := st |}]> (t_jobs T)).
Proof.
  intros Hx Hriv id r id' r' H1 H2 He Ha Ha'.
  apply lookup_insert_Some in H1 as [[<- <-]|[Hne1 H1]];
    apply lookup_insert_Some in H2 as [[<- <-]|[Hne2 H2]]; simpl in *.
  - done.
  - pose proof (Hriv Ha _ _ H2 ltac:(done) ltac:(done)). congruence.
  - pose proof (Hriv Ha' _ _ H1 ltac:(done) ltac:(done)). congruence.
  - by eapply Hx.
Qed.

(** A Job's own state changes; steps and attempts are untouched. *)
Lemma set_job_inv T job row st :
  tables_inv T → (job_active st = true → no_rival T job (jr_endpoint_id row)) →
  st ≠ JobState.Pending → st ≠ JobState.Succeeded → st ≠ JobState.Failed →
  tables_inv (set_job T job row st).
Proof.
  intros [] Hriv Hp Hs Hf. split; simpl; eauto using is_Some_insert.
  - by apply exclusive_insert.
  - intros j r H1 H2. upd; eauto.
  - intros j r H1 H2. upd; eauto.
  - intros j r H1 H2. upd; eauto.
Qed.

(** The identity columns of a step never change. *)
Definition same_step (s s' : JobStep) : Prop :=
  js_id s' = js_id s ∧ js_job_id s' = js_job_id s ∧ js_order s' = js_order s.

Lemma earlier_done_update T id s s' s2 s2' :
  t_steps T !! id = Some s → same_step s s' → same_step s2 s2' →
  (js_state s = JobStepState.Succeeded → js_state s' = JobStepState.Succeeded) →
  earlier_done T s2 → earlier_done (set_step T id s') s2'.
Proof.
  intros Hs (Hid & Hj & Ho) (_ & Hj2 & Ho2) Hst He id' s3 Hs3 Hj3 Hlt. simpl in Hs3.
  apply lookup_insert_Some in Hs3 as [[<- <-]|[Hne Hs3]].
  - apply Hst, (He _ _ Hs); congruence.
  - apply (He _ _ Hs3); congruence.
Qed.

(** What every in-place update of a step keeps. *)
Lemma step_columns_update T id s s' :
  tables_inv T → t_steps T !! id = Some s → same_step s s' →
  (∀ i x, <[id := s']> (t_steps T) !! i = Some x → js_id x = i)
  ∧ (∀ i x, <[id := s']> (t_steps T) !! i = Some x → is_Some (t_jobs T !! js_job_id x))
  ∧ unique_orders (<[id := s']> (t_steps T))
  ∧ (∀ i a, t_attempts T !! i = Some a → is_Some (<[id := s']> (t_steps T) !! at_job_step_id a)).
Proof.
  intros HI Hs (Hid & Hj & Ho). repeat split.
  - intros i x Hx. upd; [|by eapply ti_step_key]. rewrite Hid. by eapply ti_step_key.
  - intros i x Hx. upd; [|by eapply ti_step_job]. rewrite Hj. by eapply ti_step_job.
  - intros i x i' x' Hx Hx' Hjj Hoo.
    apply lookup_insert_Some in Hx as [[<- <-]|[? Hx]];
      apply lookup_insert_Some in Hx' as [[<- <-]|[? Hx']]; try done;
      eapply (ti_orders _ HI); eauto; congruence.
  - intros i a Ha. apply is_Some_insert. by eapply ti_attempt_step.
Qed.

Definition before_dispatch (st : JobStepState.t) : Prop :=
  st = JobStepState.Pending ∨ st = JobStepState.PreconditionsSatisfied.

(** Steps that move before dispatch. *)
Lemma set_step_inv T id s s' :
  tables_inv T → t_steps T !! id = Some s → same_step s s' →
  js_failure_reason s' = js_failure_reason s →
  before_dispatch (js_state s) → before_dispatch (js_state s') →
  (js_state s' ≠ JobStepState.Pending →
   earlier_done T s ∧ ∃ row, t_jobs T !! js_job_id s = Some row ∧ jr_state row ≠ JobState.Pending) →
  tables_inv (set_step T id s').
Proof.
  intros HI Hs Hsame Hr Hb Hb' Hgo. pose proof (step_columns_update _ _ _ _ HI Hs Hsame) as (?&?&?&?).
  assert (js_state s ≠ JobStepState.Succeeded ∧ js_state s ≠ JobStepState.Dispatching
          ∧ js_state s ≠ JobStepState.Failed) as (Hns & Hnd & Hnf)
    by (destruct Hb as [->| ->]; done).
  assert (js_state s' ≠ JobStepState.Dispatching ∧ js_state s' ≠ JobStepState.Failed) as (Hnd' & Hnf')
    by (destruct Hb' as [->| ->]; done).
  destruct Hsame as (Hid & Hj & Ho) eqn:Heq; clear Heq.
  split; simpl; try done; try (by apply HI).
  - intros i x Hx. upd; [|by eapply ti_reason]. rewrite Hr.
    rewrite (ti_reason _ HI _ _ Hs). split; congruence.
  - intros i a x Ha Hact Hx. upd; [|by eapply ti_active].
    pose proof (ti_active _ HI _ _ _ Ha Hact Hs). congruence.
  - intros i x Hx Hd. upd; try done. by eapply ti_dispatching.
  - intros i x Hx Hp. eapply (earlier_done_update _ _ s _ x).
    + done.
    + done.
    + done.
    + done.
    + upd; [|by eapply ti_linear].
      intros i' x' Hx' Hj' Ho'. apply (proj1 (Hgo Hp)) with i'; congruence.
  - intros j row Hrow Hst i x Hx Hjx. upd; [|by eapply ti_pending].
    destruct (decide (js_state x = JobStepState.Pending)) as [|Hp]; [done|].
    destruct (Hgo Hp) as (_ & row' & Hrow' & Hst'). congruence.
  - intros j row Hrow Hst i x Hx Hjx. upd; [|by eapply ti_succeeded].
    destruct Hns. eapply ti_succeeded; [done|exact Hrow|done|exact Hs|congruence].
  - intros j row Hrow Hst i x Hx Hjx. upd; [done|by eapply ti_failed].
Qed.

Lemma set_attempt_inv T id a st :
  tables_inv T → t_attempts T !! id = Some a →
  attempt_active (at_state a) = true → attempt_active st = true →
  tables_inv (set_attempt T id (attempt_with a st)).
Proof.
  intros HI Ha Hact Hst. split; simpl; try (by apply HI).
  - intros i x Hx. upd; by eapply ti_attempt_key.
  - intros i x i' x' Hx Hx' He. upd; try done; by eapply ti_action.
  - intros i x Hx. upd; by eapply ti_attempt_step.
  - intros i x s Hx Hax Hs. upd; by eapply ti_active.
  - intros i x i' x' Hx Hx' ? ? He. upd; try done; by eapply ti_one.
  - intros i s Hs Hd. destruct (ti_dispatching _ HI _ _ Hs Hd) as (aid & a' & Ha' & Hj & Hact').
    destruct (decide (aid = id)) as [->|Hne].
    + exists id, (attempt_with a st). rewrite lookup_insert_eq. simplify_eq. done.
    + exists aid, a'. by rewrite lookup_insert_ne.
Qed.

Lemma dispatch_inv T id s row a :
  tables_inv T → t_steps T !! id = Some s → js_state s = JobStepState.PreconditionsSatisfied →
  t_jobs T !! js_job_id s = Some row → jr_state row = JobState.Running → earlier_done T s →
  t_attempts T !! at_id a = None → at_job_step_id a = id → at_state a = AttemptState.Dispatched →
  (∀ id' a', t_attempts T !! id' = Some a' → at_action_id a' ≠ at_action_id a) →
  tables_inv (set_attempt (set_step T id (step_with_state s JobStepState.Dispatching)) (at_id a) a).
Proof.
  intros HI Hs Hps Hrow Hrun Hearly Hfresh Haj Hast Hact.
  assert (same_step s (step_with_state s JobStepState.Dispatching)) as Hsame by done.
  pose proof (step_columns_update _ _ _ _ HI Hs Hsame) as (?&?&?&?).
  split; simpl; try done; try (by apply HI).
  - intros i x Hx. upd; [|by eapply ti_reason]. rewrite (ti_reason _ HI _ _ Hs). split; congruence.
  - intros i x Hx. upd; [done|by eapply ti_attempt_key].
  - intros i x i' x' Hx Hx' He. upd; try done; [naive_solver|naive_solver|by eapply ti_action].
  - intros i x Hx. apply lookup_insert_Some in Hx as [[<- <-]|[? Hx]]; [|by eauto].
    rewrite Haj, lookup_insert_eq. by eauto.
  - intros i x y Hx Hax Hy. apply lookup_insert_Some in Hy as [[_ <-]|[Hne Hy]]; [done|].
    upd; try done. by eapply ti_active.
  - intros i x i' x' Hx Hx' ? ? He.
    assert (∀ i x, t_attempts T !! i = Some x → attempt_active (at_state x) = true →
              at_job_step_id x ≠ at_job_step_id a) as Hno.
    { intros j y Hy Hya Heq. rewrite <-Haj, <-Heq in Hs.
      pose proof (ti_active _ HI _ _ _ Hy Hya Hs). congruence. }
    apply lookup_insert_Some in Hx as [[<- <-]|[? Hx]];
      apply lookup_insert_Some in Hx' as [[<- <-]|[? Hx']].
    + done.
    + by destruct (Hno _ _ Hx').
    + by destruct (Hno _ _ Hx).
    + by eapply ti_one.
  - intros i x Hx Hd. apply lookup_insert_Some in Hx as [[<- <-]|[Hne Hx]].
    + exists (at_id a), a. rewrite lookup_insert_eq. by rewrite Hast.
    + destruct (ti_dispatching _ HI _ _ Hx Hd) as (aid & a' & Ha' & Hj & Hact').
      exists aid, a'. rewrite lookup_insert_ne; [done|congruence].
  - intros i x Hx Hp. apply (earlier_done_update T id s _ x x); try done; [congruence|].
    upd; [done|by eapply ti_linear].
  - intros j r Hr Hst i x Hx Hjx. upd; [congruence|by eapply ti_pending].
  - intros j r Hr Hst i x Hx Hjx. upd; [congruence|by eapply ti_succeeded].
  - intros j r Hr Hst i x Hx Hjx. upd; [congruence|by eapply ti_failed].
Qed.

Lemma step_end_same s s' : step_end s s' → same_step s s'.
Proof. by intros []. Qed.

Lemma step_end_done s s' :
  step_end s s' → js_state s' ≠ JobStepState.Dispatching ∧ js_state s' ≠ JobStepState.Pending.
Proof. by intros []. Qed.

Lemma terminal_inv T id a st s s' row after :
  tables_inv T → t_attempts T !! id = Some a → attempt_active (at_state a) = true →
  attempt_active st = false → t_steps T !! at_job_step_id a = Some s → step_end s s' →
  t_jobs T !! js_job_id s = Some row → job_after T (jr_state row) s s' after →
  (job_active after = true → no_rival T (js_job_id s) (jr_endpoint_id row)) →
  tables_inv (set_job (set_step (set_attempt T id (attempt_with a st)) (at_job_step_id a) s')
                (js_job_id s) row after).
Proof.
  intros HI Ha Hact Hst Hs Hend Hrow Hafter Hriv.
  pose proof (step_end_same _ _ Hend) as Hsame. pose proof (step_end_done _ _ Hend) as [Hnd' Hnp'].
  pose proof (step_columns_update _ _ _ _ HI Hs Hsame) as (?&Hsj&?&?).
  pose proof (ti_active _ HI _ _ _ Ha Hact Hs) as Hd.
  assert (∀ i x, <[at_job_step_id a := s']> (t_steps T) !! i = Some x →
            js_job_id x = js_job_id s → js_state x ≠ JobStepState.Dispatching) as Hnone.
  { intros i x Hx Hj. apply lookup_insert_Some in Hx as [[_ <-]|[Hne Hx]]; [done|].
    intros Hdx. apply Hne. symmetry. by eapply dispatching_unique. }
  destruct Hsame as (Hid & Hj & Ho).
  split; simpl; try done; try (by apply HI).
  - intros i x Hx. apply is_Some_insert. by eapply Hsj.
  - intros i x Hx. apply lookup_insert_Some in Hx as [[_ <-]|[Hne Hx]]; [|by eapply ti_reason].
    pose proof (ti_reason _ HI _ _ Hs) as Hr. rewrite Hd in Hr.
    destruct Hend; simpl; [|by split; eauto|]; rewrite Hr; split; done.
  - intros i x Hx. upd; by eapply ti_attempt_key.
  - intros i x i' x' Hx Hx' He. upd; try done; by eapply ti_action.
  - intros i x Hx. upd; eauto.
  - by apply exclusive_insert; [apply HI|].
  - intros i x y Hx Hax Hy. apply lookup_insert_Some in Hx as [[_ <-]|[Hne Hx]];
      [simpl in Hax; congruence|].
    apply lookup_insert_Some in Hy as [[Heq _]|[_ Hy]]; [|by eapply ti_active].
    destruct Hne. by eapply (ti_one _ HI).
  - intros i x i' x' Hx Hx' Hax Hax' He.
    apply lookup_insert_Some in Hx as [[_ <-]|[_ Hx]]; [simpl in Hax; congruence|].
    apply lookup_insert_Some in Hx' as [[_ <-]|[_ Hx']]; [simpl in Hax'; congruence|].
    by eapply ti_one.
  - intros i x Hx Hdx. apply lookup_insert_Some in Hx as [[_ <-]|[Hne Hx]]; [done|].
    destruct (ti_dispatching _ HI _ _ Hx Hdx) as (aid & a' & Ha' & Hj' & Hact').
    exists aid, a'. rewrite lookup_insert_ne; [done|]. intros ->. congruence.
  - intros i x Hx Hp. apply (earlier_done_update T (at_job_step_id a) s s' x x); try done.
    { by rewrite Hd. }
    apply lookup_insert_Some in Hx as [[_ <-]|[Hne Hx]]; [|by eapply ti_linear].
    intros i' y Hy Hjy Hoy.
    apply (ti_linear _ HI _ _ Hs ltac:(congruence) _ _ Hy); congruence.
  - intros j r Hr Hstr i x Hx Hjx.
    apply lookup_insert_Some in Hr as [[<- <-]|[Hne Hr]].
    { simpl in Hstr. subst after. unfold job_after in Hafter. case_decide; [done|].
      destruct (js_state s'); naive_solver. }
    apply lookup_insert_Some in Hx as [[_ <-]|[_ Hx]]; [congruence|by eapply ti_pending].
  - intros j r Hr Hstr i x Hx Hjx.
    apply lookup_insert_Some in Hr as [[<- <-]|[Hne Hr]].
    { simpl in Hstr. subst after. unfold job_after in Hafter. case_decide; [done|].
      destruct (js_state s') eqn:Hs'; try done. destruct Hafter as [[_ Hall]|[[=] _]].
      apply lookup_insert_Some in Hx as [[_ <-]|[Hnx Hx]]; [done|].
      apply (Hall _ _ Hx); [done|]. rewrite (ti_step_key _ HI _ _ Hs). congruence. }
    apply lookup_insert_Some in Hx as [[_ <-]|[_ Hx]]; [congruence|by eapply ti_succeeded].
  - intros j r Hr Hstr i x Hx Hjx.
    apply lookup_insert_Some in Hr as [[<- <-]|[Hne Hr]]; [by eapply Hnone|].
    apply lookup_insert_Some in Hx as [[_ <-]|[_ Hx]]; [done|by eapply ti_failed].
Qed.

Lemma create_inv T job row steps' :
  tables_inv T → t_jobs T !! job = None → jr_state row = JobState.Pending →
  (∀ id s, t_steps T !! id = Some s → steps' !! id = Some s) →
  (∀ id s, steps' !! id = Some s → t_steps T !! id = Some s ∨ fresh_step job id s) →
  unique_orders steps' →
  tables_inv {| t_jobs := <[job := row]> (t_jobs T); t_steps := steps';
                t_attempts := t_attempts T |}.
Proof.
  intros HI Hnew Hrow Hold Hfr Hord.
  assert (∀ id s, t_steps T !! id = Some s → js_job_id s ≠ job) as Hnj.
  { intros id s Hs Heq. apply (ti_step_job _ HI) in Hs as [? ?]. congruence. }
  split; simpl; try done; try (by apply HI).
  - intros i x [Hx|(? & _)]%Hfr; [by eapply ti_step_key|done].
  - intros i x [Hx|(_ & -> & _)]%Hfr; [|rewrite lookup_insert_eq; by eauto].
    apply is_Some_insert. by eapply ti_step_job.
  - intros i x [Hx|(_ & _ & -> & _ & ->)]%Hfr; [by eapply ti_reason|].
    split; [by intros [? ?]|done].
  - intros i a Ha. destruct (ti_attempt_step _ HI _ _ Ha) as [s Hs]. eauto.
  - intros i r i' r' Hr Hr' He Hact Hact'.
    apply lookup_insert_Some in Hr as [[<- <-]|[? Hr]]; [by rewrite Hrow in Hact|].
    apply lookup_insert_Some in Hr' as [[<- <-]|[? Hr']]; [by rewrite Hrow in Hact'|].
    by eapply (ti_exclusive _ HI).
  - intros i a s Ha Hact Hs. destruct (ti_attempt_step _ HI _ _ Ha) as [s0 Hs0].
    pose proof (Hold _ _ Hs0). simplify_eq. by eapply ti_active.
  - intros i x [Hx|(_ & _ & -> & _)]%Hfr Hd; [by eapply ti_dispatching|done].
  - intros i x [Hx|(_ & _ & -> & _)]%Hfr Hp; [|done].
    intros i' x' [Hx'|(_ & Hj' & _)]%Hfr Hj Ho; simpl in *.
    + exact (ti_linear _ HI _ _ Hx Hp _ _ Hx' Hj Ho).
    + destruct (Hnj _ _ Hx). congruence.
  - intros j r Hr Hst i x [Hx|(_ & _ & Hp & _)]%Hfr Hj; [|done].
    upd; [by destruct (Hnj _ _ Hx)|by eapply ti_pending].
  - intros j r Hr Hst i x [Hx|(_ & Hjx & Hp & _)]%Hfr Hj; upd; try congruence.
    by eapply ti_succeeded.
  - intros j r Hr Hst i x [Hx|(_ & Hjx & Hp & _)]%Hfr Hj; upd; try congruence.
    by eapply ti_failed.
Qed.

(** Every step of the protocol keeps the invariants. *)
Lemma wf_step_inv stray T T' : wf_step stray T T' → tables_inv T → tables_inv T'.
Proof.
  intros Hstep HI. destruct Hstep.
  - by apply create_inv.
  - by apply set_job_inv.
  - by apply set_job_inv.
  - by apply set_job_inv.
  - by apply set_job_inv.
  - by apply set_job_inv.
  - eapply set_step_inv; simpl; try done; [by left|by right|]. intros _. split; [done|].
    exists row. split; [done|congruence].
  - eapply set_step_inv; simpl; try done; by left.
  - eapply set_step_inv; simpl; try done; [by right|by left].
  - by eapply dispatch_inv.
  - by apply set_attempt_inv.
  - by eapply terminal_inv.
Qed.

(** Without stray steps, a cancelled Job has nothing in flight. *)
Lemma wf_step_cancelled_quiet T T' :
  wf_step false T T' → tables_inv T → cancelled_quiet T → cancelled_quiet T'.
Proof.
  intros Hstep HI HC. destruct Hstep; intros j r Hr Hst i x Hx Hj; simpl in *; try done.
  - apply H2 in Hx as [Hx|(_ & _ & -> & _)]; [|done]. upd; [congruence|by eapply HC].
  - upd; by eapply HC.
  - upd; by eapply HC.
  - upd; [|by eapply HC]. by apply (proj1 (quiet_iff _ _ HI) H1 i x Hx).
  - upd; [|by eapply HC]. by apply (proj1 (quiet_iff _ _ HI) H1 i x Hx).
  - upd; [done|by eapply HC].
  - upd; [congruence|by eapply HC].
  - upd; [done|by eapply HC].
  - upd; [congruence|by eapply HC].
  - by eapply HC.
  - pose proof (step_end_done _ _ H3) as [Hnd _].
    apply lookup_insert_Some in Hx as [[_ <-]|[Hne Hx]]; [done|].
    apply lookup_insert_Some in Hr as [[Heq _]|[_ Hr]]; [|by eapply HC].
    intros Hdx. apply Hne. symmetry. eapply dispatching_unique; eauto using ti_active; congruence.
Qed.

(** A finished Job is never reopened: Succeeded and Failed in every run, Cancelled
    as long as nothing of it is in flight. *)
Lemma wf_step_terminal stray T T' job row :
  wf_step stray T T' → tables_inv T → t_jobs T !! job = Some row →
  job_terminal (jr_state row) = true →
  (jr_state row = JobState.Cancelled → quiet T job) →
  t_jobs T' !! job = Some row.
Proof.
  intros Hstep HI Hrow Hterm Hq.
  assert (∀ id s, t_steps T !! id = Some s → js_job_id s = job →
            js_state s ≠ JobStepState.Dispatching) as Hnd.
  { destruct (jr_state row) eqn:Hst; try done.
    - intros id s Hs Hj. by rewrite (ti_succeeded _ HI _ _ Hrow Hst _ _ Hs Hj).
    - intros id s Hs Hj. by eapply (ti_failed _ HI).
    - by apply quiet_iff, Hq. }
  assert (jr_state row ≠ JobState.Pending ∧ jr_state row ≠ JobState.Running
          ∧ jr_state row ≠ JobState.Cancelling) as (? & ? & ?) by by destruct (jr_state row).
  destruct Hstep; simpl; try done; rewrite ?lookup_insert;
    try (case_decide; [subst; simplify_eq; congruence|done]).
  - case_decide as Heq; [|done]. subst job.
    match goal with Hs : t_steps _ !! _ = Some _ |- _ => destruct (Hnd _ _ Hs eq_refl) end.
    by eapply ti_active.
Qed.

(** ** Runs of the protocol *)

Definition protocol (stray : bool) : Tables → Tables → Prop := rtc (wf_step stray).

Lemma protocol_inv stray T T' : protocol stray T T' → tables_inv T → tables_inv T'.
Proof. induction 1; eauto using wf_step_inv. Qed.

Lemma protocol_cancelled_quiet T T' :
  protocol false T T' → tables_inv T → cancelled_quiet T → cancelled_quiet T'.
Proof. induction 1; eauto using wf_step_inv, wf_step_cancelled_quiet. Qed.

(** Succeeded and Failed are final whatever happens. *)
Lemma protocol_terminal stray T T' job row :
  protocol stray T T' → tables_inv T → t_jobs T !! job = Some row →
  jr_state row = JobState.Succeeded ∨ jr_state row = JobState.Failed →
  t_jobs T' !! job = Some row.
Proof.
  induction 1 as [|T T1 T' Hstep _ IH]; [done|]. intros HI Hrow Hst.
  apply IH; [by eapply wf_step_inv| |done].
  eapply wf_step_terminal; eauto; destruct Hst as [->| ->]; done.
Qed.

(** Cancelled is final once nothing of the Job is in flight and no stray step occurs. *)
Lemma protocol_cancelled T T' job row :
  protocol false T T' → tables_inv T → cancelled_quiet T → t_jobs T !! job = Some row →
  jr_state row = JobState.Cancelled → t_jobs T' !! job = Some row.
Proof.
  induction 1 as [|T T1 T' Hstep _ IH]; [done|]. intros HI HC Hrow Hst.
  apply IH; [by eapply wf_step_inv|by eapply wf_step_cancelled_quiet| |done].
  eapply wf_step_terminal; [done|done|done|by rewrite Hst|].
  intros _. apply quiet_iff; [done|]. by eapply HC.
Qed.

(** ** What never changes *)

(** Identity columns of the rows are immutable and no row is ever removed. *)
Definition extends (T T' : Tables) : Prop :=
  (∀ id row, t_jobs T !! id = Some row →
     ∃ row', t_jobs T' !! id = Some row' ∧ jr_endpoint_id row' = jr_endpoint_id row)
  ∧ (∀ id s, t_steps T !! id = Some s → ∃ s', t_steps T' !! id = Some s' ∧ same_step s s')
  ∧ (∀ id a, t_attempts T !! id = Some a →
       ∃ a', t_attempts T' !! id = Some a' ∧ at_job_step_id a' = at_job_step_id a
             ∧ at_action_id a' = at_action_id a).

#[global] Instance extends_refl : Reflexive extends.
Proof. intros T. repeat split; eauto; by eexists. Qed.

#[global] Instance extends_trans : Transitive extends.
Proof.
  intros T1 T2 T3 (Hj & Hs & Ha) (Hj' & Hs' & Ha'). repeat split.
  - intros id row (row' & Hr & He)%Hj. apply Hj' in Hr as (row'' & ? & ?).
    exists row''. split; [done|congruence].
  - intros id s (s' & Hr & Hx & Hy & Hz)%Hs. apply Hs' in Hr as (s'' & ? & ? & ? & ?).
    exists s''. repeat split; congruence.
  - intros id a (a' & Hr & ? & ?)%Ha. apply Ha' in Hr as (a'' & ? & ? & ?).
    exists a''. repeat split; congruence.
Qed.

Lemma extends_set_job T id row st : t_jobs T !! id = Some row → extends T (set_job T id row st).
Proof.
  intros Hrow. repeat split; simpl; eauto; [|by eexists].
  intros id' r Hr. rewrite lookup_insert. case_decide; subst; simplify_eq; by eauto.
Qed.

Lemma extends_set_step T id s s' :
  t_steps T !! id = Some s → same_step s s' → extends T (set_step T id s').
Proof.
  intros Hs Hsame. repeat split; simpl; eauto. intros id' r Hr. rewrite lookup_insert.
  case_decide; subst; simplify_eq; [by eauto|]. by exists r.
Qed.

Lemma extends_set_attempt T id a :
  (∀ a0, t_attempts T !! id = Some a0 →
     at_job_step_id a = at_job_step_id a0 ∧ at_action_id a = at_action_id a0) →
  extends T (set_attempt T id a).
Proof.
  intros Ha. repeat split; simpl; eauto; [by eexists|]. intros id' r Hr. rewrite lookup_insert.
  case_decide; subst; [|by eauto]. exists a. naive_solver.
Qed.

Lemma wf_step_extends stray T T' : wf_step stray T T' → extends T T'.
Proof.
  destruct 1; try (by apply extends_set_job); try (by eapply extends_set_step).
  - repeat split; simpl; [|intros id s Hs; exists s|by eauto].
    + intros id r Hr. exists r. rewrite lookup_insert_ne by congruence. done.
    + split; [by apply H1|done].
  - etrans; [by apply (extends_set_step _ id s (step_with_state s JobStepState.Dispatching))|]. apply extends_set_attempt. simpl. congruence.
  - apply extends_set_attempt. intros. by simplify_eq.
  - etrans; [apply (extends_set_attempt _ id (attempt_with a st)); intros; by simplify_eq|].
    etrans; [by eapply extends_set_step, step_end_same|]. by apply extends_set_job.
Qed.

Lemma protocol_extends stray T T' : protocol stray T T' → extends T T'.
Proof. induction 1; [done|]. etrans; [by eapply wf_step_extends|done]. Qed.
