(* ===== verification/JobServices.v ===== *)
(** * The services that drive Jobs

    Models [JobService], [JobSchedulingService], [DestructiveIntentService],
    [FinalDispatchService], [TransferDispatchService], [ActionDispatchService],
    [ActionEvidenceService], [CancellationService] and [ReconciliationService] of
    [crates/server/src/application/mod.rs], over the Job tables and the runtime
    registries they share. The clock reading ([now]), the answer of
    [TargetRevalidationPort] and the success of a transport send are arguments of
    each call. *)

From stdpp Require Import prelude gmap strings.
From Stdlib Require Import Strings.Byte NArith ZArith.
From S2P Require Import Prelude.
From S2P Require Import External.
From S2P Require Import Credential.
From S2P Require Import Endpoint.
From S2P Require Import Job.
From S2P Require Import Transfer.
From S2P Require Import Runtime.
From S2P Require Import EnrollmentStore.
From S2P Require Import JobStore.

(** The state the services share: the database and the transient registries. *)
Record World : Type := {
  w_db : JobDb;
  w_arbiter : Arbiter.TechnicalResourceArbiter;
  w_registry : Registry.AttemptReservationRegistry;
  w_presence : Presence.PresenceRegistry;
}.

Definition with_db (w : World) (db : JobDb) : World :=
  {| w_db := db; w_arbiter := w_arbiter w; w_registry := w_registry w;
     w_presence := w_presence w |}.

Definition with_arbiter (w : World) (a : Arbiter.TechnicalResourceArbiter) : World :=
  {| w_db := w_db w; w_arbiter := a; w_registry := w_registry w; w_presence := w_presence w |}.

Definition with_registry (w : World) (r : Registry.AttemptReservationRegistry) : World :=
  {| w_db := w_db w; w_arbiter := w_arbiter w; w_registry := r; w_presence := w_presence w |}.

(** [if let Some(reservation) = self.reservations.take(id) { self.arbiter.release(reservation) }]. *)
Definition take_and_release (w : World) (id : AttemptId) : World :=
  let '(registry, taken) := Registry.take (w_registry w) id in
  match taken with
  | None => with_registry w registry
  | Some reservation =>
      with_arbiter (with_registry w registry) (Arbiter.release (w_arbiter w) reservation)
  end.

Module FinalDispatchResult.
Inductive t : Type :=
| ResourceUnavailable
| Rejected (r : FinalDispatchRejection.t)
| Committed (outcome : FinalDispatchOutcome) (reservation : Arbiter.ReservationId).
End FinalDispatchResult.

Module TransferDispatchResult.
Inductive t : Type :=
| ResourceUnavailable
| Rejected (r : TransferDispatchRejection.t)
| Committed (outcome : TransferDispatchOutcome) (reservation : Arbiter.ReservationId).
End TransferDispatchResult.

Module ActionDispatchOutcome.
Inductive t : Type := Sent | SendFailed | AlreadyDispatched | NotDispatchable.
End ActionDispatchOutcome.

Module CancellationRequestResult.
Inductive t : Type :=
| EnteredCancelling (sent : bool)
| CompletedImmediately | AlreadyCancelling | AlreadyTerminal.
End CancellationRequestResult.

Module StatusQuerySendOutcome.
Inductive t : Type := NoneNeeded | Sent | SendFailed.
End StatusQuerySendOutcome.

(** ** Operations

    An operation is one service call. [Environment] is everything the other
    components do to what the Job services only read: Endpoints (never removed),
    inventory, and Transfers. [Restart] loses the transient registries. *)
Module JobOp.
Inductive t : Type :=
| CreateWorkflow (endpoint_id : EndpointId) (step_count : nat)
| Admit (id : JobId) (now : Instant)
| SatisfyPreconditions (id : JobId) (step_id : JobStepId)
| Authorize (target : EndpointId → option TargetFingerprint) (id : JobId) (step_id : JobStepId)
| CommitDestructive (target : EndpointId → option TargetFingerprint) (now : Instant)
    (id : JobId) (step_id : JobStepId) (claims : list Arbiter.ResourceClaim)
| CommitTransfer (id : JobId) (step_id : JobStepId) (transfer_id : TransferId)
    (claims : list Arbiter.ResourceClaim)
| Dispatch (attempt : Attempt) (reservation : Arbiter.ReservationId) (transport_ok : bool)
| Evidence (action_id : ActionId) (endpoint_id : EndpointId) (e : ActionEvidence.t) (now : Instant)
| RequestCancellation (pre : nat → JobDb) (id : JobId) (operator : Actor.t) (now : Instant)
    (transport_ok : bool)
| CancelAck (action_id : ActionId) (endpoint_id : EndpointId) (e : CancelAckEvidence.t)
    (now : Instant)
| MarkUncertain (endpoint_id : EndpointId) (action_id : ActionId)
| ReconcileOnStartup
| StatusReport (action_id : ActionId) (endpoint_id : EndpointId) (e : StatusReportEvidence.t)
    (now : Instant)
| CloseIndeterminate (id : JobId) (operator : Actor.t) (now : Instant)
| SessionRegistered (endpoint_id : EndpointId) (session : Uuid)
| SessionClosed (endpoint_id : EndpointId) (session : Uuid)
| Environment (endpoints : gmap EndpointId EndpointAggregate)
    (inventory : gmap EndpointId InventoryRevisionId) (transfers : gmap TransferId Transfer)
| Restart (capacities : gmap Arbiter.ResourceKind N).
End JobOp.

Definition environment_step (db : JobDb) (endpoints : gmap EndpointId EndpointAggregate)
    (inventory : gmap EndpointId InventoryRevisionId) (transfers : gmap TransferId Transfer)
  : JobDb :=
  {| jd_endpoints := endpoints ∪ jd_endpoints db; jd_inventory := inventory;
     jd_jobs := jd_jobs db; jd_steps := jd_steps db; jd_attempts := jd_attempts db;
     jd_transfers := transfers; jd_events := jd_events db; jd_audits := jd_audits db |}.

(** [{:?}] of an identity newtype, and of an [AttemptState]. *)
Definition debug_id `{UuidDisplay} (name : str) (id : Uuid) : str :=
  name ++ lit "(" ++ uuid_hyphenated id ++ lit ")".

Definition debug_attempt_state (s : AttemptState.t) : str :=
  match s with
  | AttemptState.Dispatched => lit "Dispatched"
  | AttemptState.InProgress => lit "InProgress"
  | AttemptState.AwaitingReconciliation => lit "AwaitingReconciliation"
  | AttemptState.Succeeded => lit "Succeeded"
  | AttemptState.Failed => lit "Failed"
  | AttemptState.Cancelled => lit "Cancelled"
  | AttemptState.Rejected => lit "Rejected"
  | AttemptState.Indeterminate => lit "Indeterminate"
  end.

Section Services.
Context {ent : Entropy} {disp : UuidDisplay}.

(** ** Workflow and scheduling *)

Definition service_create_workflow (w : World) (endpoint_id : EndpointId) (step_count : nat)
  : Gen (World * result JobError.t Job) :=
  created ← create_workflow endpoint_id step_count;
  mret match created with
  | Err _ => (w, Err JobError.EmptyWorkflow)
  | Ok job =>
      let '(db, r) := repo_create_workflow (w_db w) job in
      (with_db w db, match r with Err e => Err e | Ok _ => Ok job end)
  end.

Definition service_admit (w : World) (id : JobId) (now : Instant)
  : Gen (World * result JobError.t Job) :=
  done ← repo_admit_job (w_db w) id (λ job, admit_job job now);
  mret (with_db w done.1, done.2).

Definition service_satisfy_current_step_preconditions (w : World) (id : JobId)
    (step_id : JobStepId) : World * result JobError.t JobStep :=
  let '(db, r) := repo_satisfy_current_step_preconditions (w_db w) id step_id
                    (λ job, satisfy_preliminary_preconditions job step_id) in
  (with_db w db, r).

Definition service_authorize (w : World) (current_target : EndpointId → option TargetFingerprint)
    (id : JobId) (step_id : JobStepId) : World * result JobError.t DestructiveIntent :=
  match find_job (w_db w) id with
  | None => (w, Err (JobError.JobNotFound id))
  | Some job =>
      if negb (existsb (λ s, bool_decide (js_id s = step_id)) (job_steps job))
      then (w, Err (JobError.JobStepNotFound step_id id))
      else
        match jd_inventory (w_db w) !! job_endpoint_id job with
        | None => (w, Err (JobError.NoCurrentInventory (job_endpoint_id job)))
        | Some revision =>
            match current_target (job_endpoint_id job) with
            | None => (w, Err (JobError.NoCurrentTarget (job_endpoint_id job)))
            | Some target =>
                let '(db, r) := repo_authorize_destructive_intent (w_db w) id step_id
                  (λ step, authorize_destructive_intent step id revision target) in
                (with_db w db, r)
            end
        end
  end.

(** ** Final dispatch *)

(** The closure [FinalDispatchService] hands to the repository. *)
Definition final_dispatch_decision (presence : Presence.PresenceRegistry)
    (current_target : EndpointId → option TargetFingerprint) (now : Instant)
    (id : JobId) (step_id : JobStepId) (facts : FinalDispatchLockedFacts)
  : Gen (result FinalDispatchDenial FinalDispatchCommit) :=
  let endpoint := flf_endpoint facts in
  outcome ← evaluate_final_destructive_dispatch {|
    fi_job := flf_job facts;
    fi_step_id := step_id;
    fi_existing_active_attempt := flf_existing_active_attempt facts;
    fi_identity_enrolled := bool_decide (ep_identity endpoint = IdentityState.Enrolled);
    fi_credential_active :=
      match CredentialChain_dimension (ep_credential endpoint) now with
      | CredentialDimension.CredentialActive => true
      | _ => false
      end;
    fi_agent_present := Presence.is_present presence (ep_id endpoint);
    fi_current_inventory_revision_id := flf_current_inventory_revision_id facts;
    fi_current_target_fingerprint := current_target (ep_id endpoint);
    fi_hardware_confidence := ep_hardware_confidence endpoint;
    fi_trusted_bootstrap_established :=
      match ep_current_boot endpoint with
      | Some cb => bool_decide (cb_trusted_bootstrap cb = TrustedBootstrapState.Established)
      | None => false
      end |};
  match outcome with
  | Err denial => mret (Err denial)
  | Ok outcome =>
      let attempt := fo_attempt outcome in
      audit_id ← new_v4;
      mret (Ok {|
        fc_outcome := outcome;
        fc_audit := {|
          au_audit_id := audit_id; au_endpoint_id := ep_id endpoint; au_actor := Actor.System;
          au_occurred_at := now;
          au_detail := lit "destructive dispatch committed for job_step "
            ++ debug_id (lit "JobStepId") step_id ++ lit " attempt "
            ++ debug_id (lit "AttemptId") (at_id attempt) ++ lit " action "
            ++ debug_id (lit "ActionId") (at_action_id attempt);
          au_job_id := Some id; au_job_step_id := Some step_id;
          au_attempt_id := Some (at_id attempt);
          au_action_id := Some (at_action_id attempt) |} |})
  end.

Definition service_commit_destructive_dispatch (w : World)
    (current_target : EndpointId → option TargetFingerprint) (now : Instant)
    (id : JobId) (step_id : JobStepId) (claims : list Arbiter.ResourceClaim)
  : Gen (World * result JobError.t FinalDispatchResult.t) :=
  let '(arbiter, acquired) := Arbiter.acquire (w_arbiter w) claims in
  match acquired with
  | Err _ => mret (w, Ok FinalDispatchResult.ResourceUnavailable)
  | Ok reservation =>
      done ← repo_commit_destructive_dispatch (w_db w) id step_id
               (final_dispatch_decision (w_presence w) current_target now id step_id);
      let '(db, r) := done in
      let w' := with_db (with_arbiter w arbiter) db in
      let released := with_arbiter w' (Arbiter.release arbiter reservation) in
      mret match r with
      | Ok outcome => (w', Ok (FinalDispatchResult.Committed outcome reservation))
      | Err (JobError.Rejected rejection) =>
          (released, Ok (FinalDispatchResult.Rejected rejection))
      | Err e => (released, Err e)
      end
  end.

Definition service_commit_transfer_dispatch (w : World) (id : JobId) (step_id : JobStepId)
    (transfer_id : TransferId) (claims : list Arbiter.ResourceClaim)
  : Gen (World * result JobError.t TransferDispatchResult.t) :=
  let '(arbiter, acquired) := Arbiter.acquire (w_arbiter w) claims in
  match acquired with
  | Err _ => mret (w, Ok TransferDispatchResult.ResourceUnavailable)
  | Ok reservation =>
      done ← repo_commit_transfer_dispatch (w_db w) id step_id transfer_id
               evaluate_transfer_dispatch;
      let '(db, r) := done in
      let w' := with_db (with_arbiter w arbiter) db in
      let released := with_arbiter w' (Arbiter.release arbiter reservation) in
      mret match r with
      | Ok outcome => (w', Ok (TransferDispatchResult.Committed outcome reservation))
      | Err (JobError.TransferRejected rejection) =>
          (released, Ok (TransferDispatchResult.Rejected rejection))
      | Err e => (released, Err e)
      end
  end.

(** [ActionDispatchService::dispatch_message]; [transport_ok] is the transport's answer. *)
Definition service_dispatch (w : World) (attempt : Attempt) (reservation : Arbiter.ReservationId)
    (transport_ok : bool) : World * ActionDispatchOutcome.t :=
  if negb (bool_decide (at_state attempt = AttemptState.Dispatched))
  then (w, ActionDispatchOutcome.NotDispatchable)
  else
    match Registry.register (w_registry w) (at_id attempt) reservation with
    | (_, Registry.RegistrationOutcome.AlreadyRegistered) =>
        (w, ActionDispatchOutcome.AlreadyDispatched)
    | (registry, Registry.RegistrationOutcome.Registered) =>
        (with_registry w registry,
         if transport_ok then ActionDispatchOutcome.Sent else ActionDispatchOutcome.SendFailed)
    end.

(** ** Evidence *)

(** [applied.terminal.then(|| AuditRecord { ... })]; [suffix] ends the text. *)
Definition terminal_audit (job : Job) (applied : Applied) (suffix : str) (now : Instant)
  : Gen (option AuditRecord) :=
  if ap_terminal applied then
    let attempt := ap_attempt applied in
    audit_id ← new_v4;
    mret (Some {|
      au_audit_id := audit_id; au_endpoint_id := job_endpoint_id job; au_actor := Actor.System;
      au_occurred_at := now;
      au_detail := lit "attempt " ++ debug_id (lit "AttemptId") (at_id attempt)
        ++ lit " action " ++ debug_id (lit "ActionId") (at_action_id attempt)
        ++ lit " reached terminal state " ++ debug_attempt_state (at_state attempt)
        ++ lit " for job_step " ++ debug_id (lit "JobStepId") (js_id (ap_job_step applied))
        ++ suffix;
      au_job_id := Some (job_id job); au_job_step_id := Some (js_id (ap_job_step applied));
      au_attempt_id := Some (at_id attempt); au_action_id := Some (at_action_id attempt) |})
  else mret None.

(** [if let Applied(applied) = &result { if applied.terminal { take and release } }]. *)
Definition settle (w : World) (db : JobDb) (r : result JobError.t EvidenceResult.t)
  : World * result JobError.t EvidenceResult.t :=
  let w' := with_db w db in
  (match r with
   | Ok (EvidenceResult.Applied applied) =>
       if ap_terminal applied then take_and_release w' (at_id (ap_attempt applied)) else w'
   | _ => w'
   end, r).

Definition evidence_decision (evidence : ActionEvidence.t) (now : Instant)
    (facts : ActionEvidenceLockedFacts) : Gen EvidenceDecision.t :=
  outcome ← apply_action_evidence (lf_job facts) (lf_job_step facts) (lf_attempt facts) evidence now;
  match outcome with
  | ActionEvidenceOutcome.NoOp => mret EvidenceDecision.NoOp
  | ActionEvidenceOutcome.Conflict => mret EvidenceDecision.Conflict
  | ActionEvidenceOutcome.Applied applied =>
      audit ← terminal_audit (lf_job facts) applied [] now;
      mret (EvidenceDecision.Applied applied audit)
  end.

Definition service_apply_evidence (w : World) (action_id : ActionId)
    (authenticated_endpoint_id : EndpointId) (evidence : ActionEvidence.t) (now : Instant)
  : Gen (World * result JobError.t EvidenceResult.t) :=
  done ← repo_apply_action_evidence (w_db w) action_id authenticated_endpoint_id
           (evidence_decision evidence now);
  mret (settle w done.1 done.2).

(** ** Cancellation *)

Definition request_decision (operator : Actor.t) (now : Instant)
    (facts : RequestCancellationLockedFacts)
  : Gen (result CancellationRequestError.t CancellationDecided.t) :=
  outcome ← request_cancellation (rc_job facts) (rc_active_attempt facts) now;
  match outcome with
  | Err e => mret (Err e)
  | Ok (CancellationRequestOutcome.EnteredCancelling job attempt_id action_id) =>
      audit_id ← new_v4;
      mret (Ok (CancellationDecided.EnteredCancelling job attempt_id action_id {|
        au_audit_id := audit_id; au_endpoint_id := job_endpoint_id job; au_actor := operator;
        au_occurred_at := now;
        au_detail := lit "operator cancellation requested for job "
          ++ debug_id (lit "JobId") (job_id job) ++ lit "; attempt "
          ++ debug_id (lit "AttemptId") attempt_id ++ lit " action "
          ++ debug_id (lit "ActionId") action_id ++ lit " remains active";
        au_job_id := Some (job_id job); au_job_step_id := None;
        au_attempt_id := Some attempt_id; au_action_id := Some action_id |}))
  | Ok (CancellationRequestOutcome.CompletedImmediately job event) =>
      audit_id ← new_v4;
      mret (Ok (CancellationDecided.CompletedImmediately job event {|
        au_audit_id := audit_id; au_endpoint_id := job_endpoint_id job; au_actor := operator;
        au_occurred_at := now;
        au_detail := lit "operator cancellation completed immediately for job "
          ++ debug_id (lit "JobId") (job_id job) ++ lit " (no active attempt)";
        au_job_id := Some (job_id job); au_job_step_id := None;
        au_attempt_id := None; au_action_id := None |}))
  | Ok CancellationRequestOutcome.AlreadyCancelling =>
      mret (Ok CancellationDecided.AlreadyCancelling)
  | Ok CancellationRequestOutcome.AlreadyTerminal =>
      mret (Ok CancellationDecided.AlreadyTerminal)
  end.

Definition service_request_cancellation (pre : nat → JobDb) (w : World) (id : JobId)
    (operator : Actor.t) (now : Instant) (transport_ok : bool)
  : Gen (World * result JobError.t CancellationRequestResult.t) :=
  done ← repo_request_cancellation pre (w_db w) id (request_decision operator now);
  let '(db, r) := done in
  mret (with_db w db,
    match r with
    | Err e => Err e
    | Ok (RequestCancellationResult.EnteredCancelling _ _ _) =>
        Ok (CancellationRequestResult.EnteredCancelling transport_ok)
    | Ok RequestCancellationResult.CompletedImmediately =>
        Ok CancellationRequestResult.CompletedImmediately
    | Ok RequestCancellationResult.AlreadyCancelling =>
        Ok CancellationRequestResult.AlreadyCancelling
    | Ok RequestCancellationResult.AlreadyTerminal =>
        Ok CancellationRequestResult.AlreadyTerminal
    end).

Definition cancel_ack_decision (evidence : CancelAckEvidence.t) (now : Instant)
    (facts : ActionEvidenceLockedFacts) : Gen EvidenceDecision.t :=
  outcome ← apply_cancel_ack (lf_job facts) (lf_job_step facts) (lf_attempt facts) evidence now;
  match outcome with
  | CancelAckOutcome.NoOp => mret EvidenceDecision.NoOp
  | CancelAckOutcome.Applied applied =>
      audit ← terminal_audit (lf_job facts) applied (lit " via cancellation evidence") now;
      mret (EvidenceDecision.Applied applied audit)
  end.

Definition service_apply_cancel_ack (w : World) (action_id : ActionId)
    (authenticated_endpoint_id : EndpointId) (evidence : CancelAckEvidence.t) (now : Instant)
  : Gen (World * result JobError.t EvidenceResult.t) :=
  done ← repo_apply_cancel_ack (w_db w) action_id authenticated_endpoint_id
           (cancel_ack_decision evidence now);
  mret (settle w done.1 done.2).

(** ** Reconciliation *)

Definition service_mark_endpoint_uncertain (w : World) (endpoint_id : EndpointId)
    (expected_action_id : ActionId) : World * result Backend.t (option AttemptId) :=
  let '(db, r) := repo_mark_endpoint_active_attempt_uncertain (w_db w) endpoint_id
    (λ attempt, if negb (bool_decide (at_action_id attempt = expected_action_id)) then None
                else mark_awaiting_reconciliation attempt) in
  (with_db w db, r).

Definition service_reconcile_on_startup (w : World) : World * list AttemptId :=
  let '(db, ids) := repo_reconcile_all_active_attempts_on_startup (w_db w)
                      mark_awaiting_reconciliation in
  (with_db w db, ids).

Definition service_reconcile_on_session_start (w : World) (endpoint_id : EndpointId)
    (transport_ok : bool) : result Backend.t StatusQuerySendOutcome.t :=
  match repo_find_reconciliation_candidate (w_db w) endpoint_id with
  | Err e => Err e
  | Ok None => Ok StatusQuerySendOutcome.NoneNeeded
  | Ok (Some _) =>
      Ok (if transport_ok then StatusQuerySendOutcome.Sent else StatusQuerySendOutcome.SendFailed)
  end.

Definition status_report_decision (evidence : StatusReportEvidence.t) (now : Instant)
    (facts : ActionEvidenceLockedFacts) : Gen EvidenceDecision.t :=
  outcome ← Reconciliation.apply_status_report (lf_job facts) (lf_job_step facts)
              (lf_attempt facts) evidence now;
  match outcome with
  | ReconciliationOutcome.NoOp => mret EvidenceDecision.NoOp
  | ReconciliationOutcome.Applied applied =>
      audit ← terminal_audit (lf_job facts) applied (lit " via reconciliation evidence") now;
      mret (EvidenceDecision.Applied applied audit)
  end.

Definition service_apply_status_report (w : World) (action_id : ActionId)
    (authenticated_endpoint_id : EndpointId) (evidence : StatusReportEvidence.t) (now : Instant)
  : Gen (World * result JobError.t EvidenceResult.t) :=
  done ← repo_apply_status_report (w_db w) action_id authenticated_endpoint_id
           (status_report_decision evidence now);
  mret (settle w done.1 done.2).

Definition close_decision (operator : Actor.t) (now : Instant)
    (facts : ActionEvidenceLockedFacts) : Gen CloseDecision.t :=
  let job := lf_job facts in
  outcome ← Reconciliation.close_indeterminate job (lf_job_step facts) (lf_attempt facts) now;
  match outcome with
  | CloseIndeterminateOutcome.AlreadyIndeterminate => mret CloseDecision.AlreadyIndeterminate
  | CloseIndeterminateOutcome.NotEligible => mret CloseDecision.NotEligible
  | CloseIndeterminateOutcome.Applied applied =>
      let attempt := ap_attempt applied in
      audit_id ← new_v4;
      mret (CloseDecision.Applied applied {|
        au_audit_id := audit_id; au_endpoint_id := job_endpoint_id job; au_actor := operator;
        au_occurred_at := now;
        au_detail := lit "operator closed attempt " ++ debug_id (lit "AttemptId") (at_id attempt)
          ++ lit " action " ++ debug_id (lit "ActionId") (at_action_id attempt)
          ++ lit " Indeterminate for job_step "
          ++ debug_id (lit "JobStepId") (js_id (ap_job_step applied)) ++ lit " (job "
          ++ debug_id (lit "JobId") (job_id job)
          ++ lit "): authoritative execution outcome could not be established";
        au_job_id := Some (job_id job); au_job_step_id := Some (js_id (ap_job_step applied));
        au_attempt_id := Some (at_id attempt); au_action_id := Some (at_action_id attempt) |})
  end.

Definition service_close_indeterminate (w : World) (id : JobId) (operator : Actor.t)
    (now : Instant) : Gen (World * result JobError.t CloseIndeterminateResult.t) :=
  done ← repo_close_indeterminate (w_db w) id (close_decision operator now);
  let w' := with_db w done.1 in
  mret (match done.2 with
        | Ok (CloseIndeterminateResult.Applied applied) =>
            take_and_release w' (at_id (ap_attempt applied))
        | _ => w'
        end, done.2).

(** ** Runs *)

Definition run_job_op (w : World) (o : JobOp.t) : Gen World :=
  match o with
  | JobOp.CreateWorkflow ep n => r ← service_create_workflow w ep n; mret r.1
  | JobOp.Admit id now => r ← service_admit w id now; mret r.1
  | JobOp.SatisfyPreconditions id step =>
      mret (service_satisfy_current_step_preconditions w id step).1
  | JobOp.Authorize target id step => mret (service_authorize w target id step).1
  | JobOp.CommitDestructive target now id step claims =>
      r ← service_commit_destructive_dispatch w target now id step claims; mret r.1
  | JobOp.CommitTransfer id step transfer claims =>
      r ← service_commit_transfer_dispatch w id step transfer claims; mret r.1
  | JobOp.Dispatch attempt reservation ok => mret (service_dispatch w attempt reservation ok).1
  | JobOp.Evidence action ep e now => r ← service_apply_evidence w action ep e now; mret r.1
  | JobOp.RequestCancellation pre id operator now ok =>
      r ← service_request_cancellation pre w id operator now ok; mret r.1
  | JobOp.CancelAck action ep e now => r ← service_apply_cancel_ack w action ep e now; mret r.1
  | JobOp.MarkUncertain ep action => mret (service_mark_endpoint_uncertain w ep action).1
  | JobOp.ReconcileOnStartup => mret (service_reconcile_on_startup w).1
  | JobOp.StatusReport action ep e now =>
      r ← service_apply_status_report w action ep e now; mret r.1
  | JobOp.CloseIndeterminate id operator now =>
      r ← service_close_indeterminate w id operator now; mret r.1
  | JobOp.SessionRegistered ep s =>
      mret {| w_db := w_db w; w_arbiter := w_arbiter w; w_registry := w_registry w;
              w_presence := Presence.register (w_presence w) ep s |}
  | JobOp.SessionClosed ep s =>
      mret {| w_db := w_db w; w_arbiter := w_arbiter w; w_registry := w_registry w;
              w_presence := Presence.unregister (w_presence w) ep s |}
  | JobOp.Environment endpoints inventory transfers =>
      mret (with_db w (environment_step (w_db w) endpoints inventory transfers))
  | JobOp.Restart capacities =>
      mret {| w_db := w_db w; w_arbiter := Arbiter.new capacities; w_registry := ∅;
              w_presence := ∅ |}
  end.

Fixpoint run_job_ops (w : World) (ops : list JobOp.t) : Gen World :=
  match ops with
  | [] => mret w
  | o :: rest => w' ← run_job_op w o; run_job_ops w' rest
  end.
End Services.

Definition empty_job_db : JobDb :=
  {| jd_endpoints := ∅; jd_inventory := ∅; jd_jobs := ∅; jd_steps := ∅; jd_attempts := ∅;
     jd_transfers := ∅; jd_events := ∅; jd_audits := ∅ |}.

Definition empty_world : World :=
  {| w_db := empty_job_db; w_arbiter := Arbiter.new ∅; w_registry := ∅; w_presence := ∅ |}.
