(* ===== verification/JobSafety.v ===== *)
(** * The Job services implement the workflow protocol

    Each service call of [JobServices] is a sequence of steps of the protocol of
    [JobSpec] on the Job tables (refinement), so the protocol's invariants hold in
    every reachable state. The properties of dispatch, evidence, cancellation and
    reconciliation are proved here from that refinement. *)

From stdpp Require Import prelude gmap strings sorting.
From Stdlib Require Import Strings.Byte NArith ZArith.
From S2P Require Import Prelude.
From S2P Require Import External.
From S2P Require Import Credential.
From S2P Require Import Endpoint.
From S2P Require Import Job.
From S2P Require Import Transfer.
From S2P Require Import Runtime.
From S2P Require Import EnrollmentStore.
From S2P Require Import JobStore.
From S2P Require Import JobSpec.
From S2P Require Import JobServices.

(** ** Reading the tables *)

Lemma alter_Some {A} (f : A → A) (m : gmap Uuid A) i x :
  m !! i = Some x → alter f i m = <[i := f x]> m.
Proof.
  intros Hx. apply map_eq. intros j. rewrite lookup_alter, lookup_insert.
  case_decide; subst; [by rewrite Hx|done].
Qed.

Lemma elem_of_values {A} (m : gmap Uuid A) x : x ∈ (map_to_list m).*2 ↔ ∃ i, m !! i = Some x.
Proof.
  rewrite list_elem_of_fmap. split.
  - intros ([i y] & -> & Hin). exists i. by apply elem_of_map_to_list.
  - intros (i & Hi). exists (i, x). split; [done|]. by apply elem_of_map_to_list.
Qed.

Lemma elem_of_fetch db job s :
  s ∈ fetch_job_steps db job ↔ (∃ id, jd_steps db !! id = Some s) ∧ js_job_id s = job.
Proof.
  unfold fetch_job_steps. rewrite merge_sort_Permutation, elem_of_filter_bool, elem_of_values.
  by rewrite bool_decide_eq_true.
Qed.

Lemma find_job_Some db id job :
  find_job db id = Some job ↔
  ∃ row, jd_jobs db !! id = Some row
         ∧ job = {| job_id := id; job_endpoint_id := jr_endpoint_id row; job_state := jr_state row;
                    job_steps := fetch_job_steps db id |}.
Proof. unfold find_job. rewrite bind_Some. naive_solver. Qed.

Lemma find_step_Some db job id s :
  tables_inv (tables db) →
  find_step id (fetch_job_steps db job) = Some s ↔ jd_steps db !! id = Some s ∧ js_job_id s = job.
Proof.
  intros HI. assert (∀ i x, jd_steps db !! i = Some x → js_id x = i) as Hkey by apply HI.
  unfold find_step. rewrite find_Some_iff_unique.
  - rewrite elem_of_fetch, bool_decide_eq_true. split.
    + intros [[[i Hi] Hj] He]. pose proof (Hkey _ _ Hi). split; [congruence|done].
    + intros [Hs Hj]. eauto.
  - intros y z [[i Hi] _]%elem_of_fetch [[j Hj] _]%elem_of_fetch.
    rewrite !bool_decide_eq_true. intros H1 H2.
    pose proof (Hkey _ _ Hi). pose proof (Hkey _ _ Hj).
    assert (i = j) as -> by congruence. congruence.
Qed.

Lemma earlier_done_iff db s :
  earlier_steps_all_succeeded (fetch_job_steps db (js_job_id s)) (js_order s) = true
  ↔ earlier_done (tables db) s.
Proof.
  unfold earlier_steps_all_succeeded. rewrite forallb_elem_of.
  setoid_rewrite elem_of_filter_bool. setoid_rewrite elem_of_fetch.
  setoid_rewrite bool_decide_eq_true. setoid_rewrite Z.ltb_lt. split.
  - intros Hall id s' Hs' Hj Hlt. apply Hall. eauto.
  - intros He s' [[[id Hs'] Hj] Hlt]. by eapply He.
Qed.

Lemma find_attempt_Some db action a :
  find_attempt_by_action db action = Some a →
  (∃ id, jd_attempts db !! id = Some a) ∧ at_action_id a = action.
Proof.
  unfold find_attempt_by_action. intros [Hin Heq]%List.find_some.
  rewrite <-list_elem_of_In, elem_of_values in Hin. by rewrite bool_decide_eq_true in Heq.
Qed.

Lemma step_has_active_attempt_false db id :
  step_has_active_attempt db id = false ↔
  ∀ aid a, jd_attempts db !! aid = Some a → at_job_step_id a = id →
           attempt_active (at_state a) = false.
Proof.
  unfold step_has_active_attempt. rewrite <-not_true_iff_false, List.existsb_exists. split.
  - intros Hn aid a Ha Hj. apply not_true_iff_false. intros Hact. apply Hn. exists a.
    rewrite <-list_elem_of_In, elem_of_values. split; [by eauto|].
    by rewrite bool_decide_eq_true_2.
  - intros Hall (a & Hin & [Hj Hact]%andb_prop).
    rewrite <-list_elem_of_In, elem_of_values in Hin. destruct Hin as [aid Ha].
    apply bool_decide_eq_true in Hj. rewrite (Hall _ _ Ha Hj) in Hact. done.
Qed.

(** ** The statements, as updates of the tables *)

Lemma update_job_state_tables db id row st db' :
  jd_jobs db !! id = Some row → update_job_state db id st = Ok db' →
  tables db' = set_job (tables db) id row st
  ∧ (job_active st = true → no_rival (tables db) id (jr_endpoint_id row)).
Proof.
  unfold update_job_state. intros ->. destruct (job_active st && _) eqn:Hcheck; [done|].
  intros [= <-]. split; [done|]. intros Hact. rewrite Hact in Hcheck. simpl in Hcheck.
  intros id' row' Hrow' Hne He. apply not_true_iff_false. intros Hact'.
  apply not_true_iff_false in Hcheck. apply Hcheck, List.existsb_exists. exists (id', row').
  rewrite <-list_elem_of_In, elem_of_map_to_list. split; [done|]. simpl.
  rewrite bool_decide_eq_false_2, bool_decide_eq_true_2 by done. done.
Qed.

Lemma update_step_state_tables db id s st :
  jd_steps db !! id = Some s →
  tables (update_step_state db id st) = set_step (tables db) id (step_with_state s st).
Proof. intros Hs. unfold update_step_state, tables, set_step. simpl. by erewrite alter_Some. Qed.

Lemma update_attempt_state_tables db id a st :
  jd_attempts db !! id = Some a →
  tables (update_attempt_state db id st) = set_attempt (tables db) id (attempt_with a st).
Proof. intros Ha. unfold update_attempt_state, tables, set_attempt. simpl. by erewrite alter_Some. Qed.

Lemma insert_unique_Ok {A} (id : Uuid) (x : A) m m' :
  insert_unique id x m = Ok m' → m !! id = None ∧ m' = <[id := x]> m.
Proof. unfold insert_unique. by destruct (m !! id); intros [= <-]. Qed.

(** ** What evidence can do *)

(** The outcomes of [apply_action_evidence], [apply_cancel_ack],
    [apply_status_report] and [close_indeterminate], classified. *)
Inductive evidence_effect (job : Job) (step : JobStep) (attempt : Attempt) : Applied → Prop :=
| ee_progress st events terminal :
    attempt_active (at_state attempt) = true → attempt_active st = true → terminal = false →
    evidence_effect job step attempt
      {| ap_attempt := attempt_with attempt st; ap_job_step := step; ap_job := job;
         ap_events := events; ap_terminal := terminal |}
| ee_terminal st step' after events :
    attempt_active (at_state attempt) = true → attempt_active st = false →
    step_end step step' →
    (if decide (job_state job = JobState.Cancelling) then after = JobState.Cancelled
     else match js_state step' with
          | JobStepState.Succeeded =>
              after = if forallb (λ s, bool_decide (js_state s = JobStepState.Succeeded))
                           (replace_step (job_steps job) step')
                      then JobState.Succeeded else JobState.Running
          | JobStepState.Failed => after = JobState.Failed
          | _ => False
          end) →
    evidence_effect job step attempt
      {| ap_attempt := attempt_with attempt st; ap_job_step := step';
         ap_job := job_with job after (replace_step (job_steps job) step');
         ap_events := events; ap_terminal := true |}
| ee_late events :
    attempt_active (at_state attempt) = false → job_state job = JobState.Cancelling →
    evidence_effect job step attempt
      {| ap_attempt := attempt; ap_job_step := step;
         ap_job := job_with job JobState.Cancelled (job_steps job);
         ap_events := events; ap_terminal := true |}.

(** A call that fails or decides nothing leaves the tables as they were. *)
Ltac unchanged := intros; unfold mret, gen_ret in *; simplify_eq/=; reflexivity.

Section Effects.
Context {ent : Entropy}.

Lemma terminal_success_effect job step attempt now k ap k' :
  attempt_active (at_state attempt) = true →
  terminal_success job step attempt now k = (ap, k') → evidence_effect job step attempt ap.
Proof.
  intros Hact. unfold terminal_success. run_gen.
  case_bool_decide as Hc; [|destruct (forallb _ _) eqn:Hall]; intros [= <- <-];
    (apply ee_terminal; [done|done|constructor|]); simpl; case_decide; try done; by rewrite Hall.
Qed.

Lemma terminal_failure_effect job step attempt st reason now k ap k' :
  attempt_active (at_state attempt) = true → attempt_active st = false →
  terminal_failure job step attempt st reason now k = (ap, k') →
  evidence_effect job step attempt ap.
Proof.
  intros Hact Hst. unfold terminal_failure. run_gen. intros [= <- <-].
  apply ee_terminal; [done|done|constructor|]. simpl. case_bool_decide; by case_decide.
Qed.

Lemma recon_success_effect job step attempt now k ap k' :
  attempt_active (at_state attempt) = true →
  Reconciliation.terminal_success job step attempt now k = (ap, k') →
  evidence_effect job step attempt ap.
Proof. apply terminal_success_effect. Qed.

Lemma cancel_effect job step attempt now k ap k' :
  attempt_active (at_state attempt) = true → job_state job = JobState.Cancelling →
  cancel_terminal job step attempt now k = (ap, k') → evidence_effect job step attempt ap.
Proof.
  intros Hact Hc. unfold cancel_terminal. run_gen. intros [= <- <-].
  apply ee_terminal; [done|done|constructor|]. by rewrite decide_True.
Qed.

Lemma action_evidence_effect job step attempt e now k ap k' :
  apply_action_evidence job step attempt e now k = (ActionEvidenceOutcome.Applied ap, k') →
  evidence_effect job step attempt ap.
Proof.
  unfold apply_action_evidence. unfold mbind, gen_bind, mret, gen_ret.
  destruct e, (at_state attempt) eqn:Hst; intros He;
    repeat case_match; simplify_eq;
    first [ by (apply ee_progress; rewrite ?Hst)
          | by (eapply terminal_failure_effect; [rewrite Hst| |eassumption])
          | by (eapply terminal_success_effect; [rewrite Hst|eassumption]) ].
Qed.

Lemma cancel_ack_effect job step attempt e now k ap k' :
  apply_cancel_ack job step attempt e now k = (CancelAckOutcome.Applied ap, k') →
  evidence_effect job step attempt ap.
Proof.
  unfold apply_cancel_ack. unfold mbind, gen_bind, mret, gen_ret.
  case_bool_decide as Hc; simpl; [|done].
  destruct e, (at_state attempt) eqn:Hst; intros He;
    unfold complete_cancellation_now in *; run_gen; repeat case_match; simplify_eq;
    first [ by (apply ee_progress; rewrite ?Hst)
          | by (eapply (cancel_effect _ _ _ now k); [rewrite Hst| |])
          | by (apply ee_late; rewrite ?Hst) ].
Qed.

Lemma status_report_effect job step attempt e now k ap k' :
  Reconciliation.apply_status_report job step attempt e now k
    = (ReconciliationOutcome.Applied ap, k') →
  evidence_effect job step attempt ap.
Proof.
  unfold Reconciliation.apply_status_report. unfold mbind, gen_bind, mret, gen_ret.
  case_bool_decide as Hst; simpl; [|done].
  destruct e; intros He; repeat case_match; simplify_eq; reflect_bools;
    first [ by (apply ee_progress; rewrite ?Hst)
          | by (eapply recon_success_effect; [rewrite Hst|eassumption])
          | by (apply ee_terminal; [rewrite Hst|..|simpl; case_decide]; try constructor) ].
Qed.

Lemma close_effect job step attempt now k ap k' :
  Reconciliation.close_indeterminate job step attempt now k
    = (CloseIndeterminateOutcome.Applied ap, k') →
  evidence_effect job step attempt ap.
Proof.
  unfold Reconciliation.close_indeterminate. run_gen.
  destruct (at_state attempt) eqn:Hst; intros [= <- <-].
  apply ee_terminal; [by rewrite Hst|done|constructor|]. simpl. case_bool_decide; by case_decide.
Qed.
End Effects.

(** ** Evidence follows the protocol *)

Lemma all_done_iff db s s' :
  tables_inv (tables db) → jd_steps db !! js_id s = Some s → js_id s' = js_id s →
  js_state s' = JobStepState.Succeeded →
  forallb (λ x, bool_decide (js_state x = JobStepState.Succeeded))
    (replace_step (fetch_job_steps db (js_job_id s)) s') = true
  ↔ others_done (tables db) s.
Proof.
  intros HI Hs Hid Hst. unfold replace_step. rewrite forallb_elem_of. split.
  - intros Hall i x Hx Hj Hne. specialize (Hall x). rewrite bool_decide_eq_true in Hall.
    apply Hall. rewrite list_elem_of_fmap. exists x. split.
    + rewrite bool_decide_eq_false_2; [done|]. rewrite (ti_step_key _ HI _ _ Hx). congruence.
    + apply elem_of_fetch. eauto.
  - intros Ho x (y & -> & [[i Hy] Hj]%elem_of_fetch)%list_elem_of_fmap.
    rewrite bool_decide_eq_true. case_bool_decide as Heq; [done|].
    apply (Ho i y Hy Hj). rewrite <-(ti_step_key _ HI _ _ Hy). congruence.
Qed.

(** The rows a step update writes. *)
Lemma step_end_row s s' :
  step_end s s' →
  {| js_id := js_id s; js_job_id := js_job_id s; js_order := js_order s; js_state := js_state s';
     js_destructive_intent := js_destructive_intent s; js_failure_reason := js_failure_reason s' |}
  = s'.
Proof. by intros []. Qed.

Definition locked (db : JobDb) (job : Job) (step : JobStep) (attempt : Attempt) : Prop :=
  jd_attempts db !! at_id attempt = Some attempt
  ∧ jd_steps db !! at_job_step_id attempt = Some step
  ∧ find_job db (js_job_id step) = Some job.

Lemma persist_applied_tables db job step attempt ap audit db' row :
  tables_inv (tables db) → locked db job step attempt →
  jd_jobs db !! js_job_id step = Some row →
  at_id (ap_attempt ap) = at_id attempt → same_step step (ap_job_step ap) →
  job_id (ap_job ap) = job_id job →
  persist_applied db ap audit = Ok db' →
  tables db' =
    set_job (set_step (set_attempt (tables db) (at_id attempt)
                         (attempt_with attempt (at_state (ap_attempt ap))))
               (at_job_step_id attempt)
               {| js_id := js_id step; js_job_id := js_job_id step; js_order := js_order step;
                  js_state := js_state (ap_job_step ap);
                  js_destructive_intent := js_destructive_intent step;
                  js_failure_reason := js_failure_reason (ap_job_step ap) |})
      (js_job_id step) row (job_state (ap_job ap))
  ∧ (job_active (job_state (ap_job ap)) = true →
     no_rival (tables db) (js_job_id step) (jr_endpoint_id row)).
Proof.
  intros HI (Ha & Hs & Hjob) Hrow Hid (Hsid & _ & _) Hjid.
  apply find_job_Some in Hjob as (row' & Hrow' & ->). simpl in Hjid.
  unfold persist_applied. intros Hp. rewrite Hid, Hjid, Hsid, (ti_step_key _ HI _ _ Hs) in Hp.
  apply result_bind_Ok in Hp as (db3 & Hup & Hrest).
  apply result_bind_Ok in Hrest as (evs & _ & Hrest).
  apply result_bind_Ok in Hrest as (auds & _ & [= <-]).
  eapply update_job_state_tables in Hup as [Htab Hriv]; [|exact Hrow].
  split; [|exact Hriv].
  change (tables (with_audits (with_events db3 evs) auds)) with (tables db3). rewrite Htab.
  unfold tables, set_job, set_step, set_attempt, update_step_outcome, update_attempt_state. simpl.
  by rewrite (alter_Some _ _ _ attempt), (alter_Some _ _ _ step).
Qed.

Lemma attempt_with_self a : attempt_with a (at_state a) = a.
Proof. by destruct a. Qed.

Lemma step_row_self s :
  {| js_id := js_id s; js_job_id := js_job_id s; js_order := js_order s; js_state := js_state s;
     js_destructive_intent := js_destructive_intent s; js_failure_reason := js_failure_reason s |}
  = s.
Proof. by destruct s. Qed.

Lemma set_job_self T id row : t_jobs T !! id = Some row → set_job T id row (jr_state row) = T.
Proof.
  intros Hr. destruct T as [jobs steps attempts], row. unfold set_job. simpl in *.
  by rewrite insert_id.
Qed.
Lemma set_step_self T id s : t_steps T !! id = Some s → set_step T id s = T.
Proof. intros Hr. destruct T. unfold set_step. simpl in *. by rewrite insert_id. Qed.
Lemma set_attempt_self T id a : t_attempts T !! id = Some a → set_attempt T id a = T.
Proof. intros Hr. destruct T. unfold set_attempt. simpl in *. by rewrite insert_id. Qed.

Lemma effect_identity job step attempt ap :
  evidence_effect job step attempt ap →
  at_id (ap_attempt ap) = at_id attempt ∧ same_step step (ap_job_step ap)
  ∧ job_id (ap_job ap) = job_id job.
Proof. intros []; simpl; repeat split; try done; by apply step_end_same. Qed.

(** A persisted outcome is one step of the protocol. Closing a Job on evidence about
    an Attempt that had already ended is a stray step unless nothing else of the Job is
    in flight. *)
Lemma persist_applied_step stray db job step attempt ap audit db' :
  tables_inv (tables db) → locked db job step attempt →
  evidence_effect job step attempt ap →
  (attempt_active (at_state attempt) = false → stray = true ∨ quiet (tables db) (job_id job)) →
  persist_applied db ap audit = Ok db' →
  wf_step stray (tables db) (tables db').
Proof.
  intros HI Hl He Hstray Hp. pose proof Hl as (Ha & Hs & Hjob).
  apply find_job_Some in Hjob as (row & Hrow & Hjob).
  destruct (effect_identity _ _ _ _ He) as (Hid & Hsame & Hjid).
  pose proof (persist_applied_tables _ _ _ _ _ _ _ _ HI Hl Hrow Hid Hsame Hjid Hp) as [Htab Hriv].
  rewrite Htab. clear Htab Hp. destruct He; simpl in *.
  - rewrite step_row_self, set_step_self by done. rewrite Hjob. simpl.
    rewrite set_job_self by done. by apply ws_attempt.
  - rewrite (step_end_row _ _ H1).
    eapply ws_terminal; try done. subst job. simpl in *. unfold job_after.
    case_decide; [done|]. destruct (js_state step') eqn:Hst; try done.
    pose proof (ti_step_key _ HI _ _ Hs) as Hkey. simpl in Hkey.
    assert (jd_steps db !! js_id step = Some step) as Hs' by by rewrite Hkey.
    pose proof (all_done_iff db step step' HI Hs' (proj1 (step_end_same _ _ H1)) Hst) as Hiff.
    subst after. destruct (forallb _ _).
    + left. split; [done|]. by apply Hiff.
    + right. split; [done|]. intros Ho. by apply Hiff in Ho.
  - rewrite attempt_with_self, step_row_self, set_attempt_self, set_step_self by done.
    subst job. simpl in *. destruct (Hstray H) as [->|Hq]; [by apply ws_stray|by apply ws_late_ack].
Qed.

(** An action that is not the Endpoint's is not found. *)
Lemma foreign_lock db action ep :
  tables_inv (tables db) → repo_action_targets_endpoint db action ep = false →
  lock_by_action db action ep = Err JobError.UnknownAction.
Proof.
  intros HI Hno. unfold lock_by_action.
  destruct (find_attempt_by_action db action) as [a|] eqn:Ha; [|done].
  apply find_attempt_Some in Ha as [[id Ha] Hact].
  destruct (ti_attempt_step _ HI _ _ Ha) as [step Hs]. simpl in Hs. rewrite Hs.
  destruct (ti_step_job _ HI _ _ Hs) as [row Hrow]. simpl in Hrow.
  unfold find_job. rewrite Hrow. simpl. case_bool_decide as Heq; [|done].
  apply not_true_iff_false in Hno. destruct Hno. unfold repo_action_targets_endpoint.
  apply List.existsb_exists. exists a. rewrite <-list_elem_of_In, elem_of_values.
  split; [by eauto|]. rewrite bool_decide_eq_true_2, Hs by done. simpl.
  apply bool_decide_eq_true_2. unfold step_endpoint. by rewrite Hrow, <-Heq.
Qed.

Lemma lock_by_action_Ok db action ep facts :
  tables_inv (tables db) → lock_by_action db action ep = Ok facts →
  locked db (lf_job facts) (lf_job_step facts) (lf_attempt facts)
  ∧ at_action_id (lf_attempt facts) = action ∧ job_endpoint_id (lf_job facts) = ep.
Proof.
  intros HI. unfold lock_by_action.
  destruct (find_attempt_by_action db action) as [a|] eqn:Ha; [|done].
  destruct (jd_steps db !! at_job_step_id a) as [s|] eqn:Hs; [|done].
  destruct (find_job db (js_job_id s)) as [job|] eqn:Hj; [|done].
  case_bool_decide as Hep; simpl; [|done]. intros [= <-]. simpl.
  apply find_attempt_Some in Ha as [[id Ha] Hact].
  split; [|done]. split; [|done]. by rewrite (ti_attempt_key _ HI _ _ Ha).
Qed.

(** ** Refinement, service by service *)

Section Refinement.
Context {ent : Entropy} {disp : UuidDisplay}.

Lemma evidence_refines stray db action ep decide k db' r k' :
  tables_inv (tables db) →
  (∀ facts kd ap audit kd', decide facts kd = (EvidenceDecision.Applied ap audit, kd') →
     evidence_effect (lf_job facts) (lf_job_step facts) (lf_attempt facts) ap) →
  (∀ facts kd ap audit kd', lock_by_action db action ep = Ok facts →
     decide facts kd = (EvidenceDecision.Applied ap audit, kd') →
     attempt_active (at_state (lf_attempt facts)) = false →
     stray = true ∨ quiet (tables db) (job_id (lf_job facts))) →
  repo_apply_action_evidence db action ep decide k = ((db', r), k') →
  protocol stray (tables db) (tables db').
Proof.
  intros HI Heff Hstray. unfold repo_apply_action_evidence.
  destruct (lock_by_action db action ep) as [facts|e] eqn:Hlock;
    unfold mbind, gen_bind, mret, gen_ret; [|unchanged].
  destruct (decide facts k) as [d kd] eqn:Hd. destruct d as [ap audit| |];
    [|unchanged..].
  destruct (persist_applied db ap audit) as [db1|e] eqn:Hp; intros [= <- _ _];
    [|unchanged].
  apply lock_by_action_Ok in Hlock as [Hl _]; [|done].
  apply rtc_once. eapply persist_applied_step; eauto.
Qed.

Lemma action_evidence_refines stray db action ep e now k db' r k' :
  tables_inv (tables db) →
  repo_apply_action_evidence db action ep (evidence_decision e now) k = ((db', r), k') →
  protocol stray (tables db) (tables db').
Proof.
  intros HI. apply evidence_refines; [done| |].
  - intros facts kd ap audit kd'. unfold evidence_decision, mbind, gen_bind.
    destruct (apply_action_evidence _ _ _ _ _ _) as [o ko] eqn:Ho. destruct o; try done.
    destruct (terminal_audit _ _ _ _ _) as [au ka]. intros [= <- _ _].
    by eapply action_evidence_effect.
  - intros facts kd ap audit kd' _. unfold evidence_decision, mbind, gen_bind.
    unfold apply_action_evidence. intros Hd Hin.
    destruct e, (at_state (lf_attempt facts)); done.
Qed.

Lemma status_report_refines stray db action ep e now k db' r k' :
  tables_inv (tables db) →
  repo_apply_status_report db action ep (status_report_decision e now) k = ((db', r), k') →
  protocol stray (tables db) (tables db').
Proof.
  intros HI. apply evidence_refines; [done| |].
  - intros facts kd ap audit kd'. unfold status_report_decision, mbind, gen_bind.
    destruct (Reconciliation.apply_status_report _ _ _ _ _ _) as [o ko] eqn:Ho.
    destruct o; try done. destruct (terminal_audit _ _ _ _ _) as [au ka]. intros [= <- _ _].
    by eapply status_report_effect.
  - intros facts kd ap audit kd' _. unfold status_report_decision, mbind, gen_bind.
    unfold Reconciliation.apply_status_report. case_bool_decide as Hst; [|done].
    rewrite Hst. done.
Qed.

(** An acknowledgement that closes a Job by way of an Attempt other than the one in
    flight. *)
Definition stray_ack (db : JobDb) (action : ActionId) (ep : EndpointId) (e : CancelAckEvidence.t)
  : Prop :=
  e = CancelAckEvidence.AlreadyCompleted
  ∧ ∃ facts, lock_by_action db action ep = Ok facts
      ∧ attempt_active (at_state (lf_attempt facts)) = false
      ∧ ∃ a, active_for (tables db) (job_id (lf_job facts)) a.

Lemma cancel_ack_refines stray db action ep e now k db' r k' :
  tables_inv (tables db) → (stray = true ∨ ¬ stray_ack db action ep e) →
  repo_apply_cancel_ack db action ep (cancel_ack_decision e now) k = ((db', r), k') →
  protocol stray (tables db) (tables db').
Proof.
  intros HI Hns. apply evidence_refines; [done| |].
  - intros facts kd ap audit kd'. unfold cancel_ack_decision, mbind, gen_bind.
    destruct (apply_cancel_ack _ _ _ _ _ _) as [o ko] eqn:Ho. destruct o; try done.
    destruct (terminal_audit _ _ _ _ _) as [au ka]. intros [= <- _ _].
    by eapply cancel_ack_effect.
  - intros facts kd ap audit kd' Hl Hd Hin. destruct Hns as [->|Hns]; [by left|].
    right. intros a Ha. apply Hns. split; [|by exists facts; eauto].
    revert Hd. unfold cancel_ack_decision, mbind, gen_bind, apply_cancel_ack.
    case_bool_decide; simpl; [|done].
    destruct e, (at_state (lf_attempt facts)); done.
Qed.

(** *** Creation *)

Lemma insert_step_Ok s m m' :
  insert_step s m = Ok m' →
  m !! js_id s = None
  ∧ (∀ id x, m !! id = Some x → js_job_id x = js_job_id s → js_order x ≠ js_order s)
  ∧ m' = <[js_id s := {| js_id := js_id s; js_job_id := js_job_id s; js_order := js_order s;
                         js_state := js_state s; js_destructive_intent := None;
                         js_failure_reason := None |}]> m.
Proof.
  unfold insert_step. destruct (js_order s <? 0)%Z; [done|].
  destruct (existsb _ _) eqn:Hex; [done|]. intros [Hnew ->]%insert_unique_Ok.
  split; [done|]. split; [|done]. intros id x Hx Hj Ho.
  apply not_true_iff_false in Hex. apply Hex, List.existsb_exists. exists (id, x).
  rewrite <-list_elem_of_In, elem_of_map_to_list. split; [done|]. simpl.
  rewrite bool_decide_eq_true_2 by done. by rewrite Ho, Z.eqb_refl.
Qed.

Definition new_step (job : JobId) (s : JobStep) : Prop :=
  js_job_id s = job ∧ js_state s = JobStepState.Pending.

Lemma insert_steps_Ok job steps m m' :
  Forall (new_step job) steps → unique_orders m → insert_steps steps m = Ok m' →
  (∀ id s, m !! id = Some s → m' !! id = Some s)
  ∧ (∀ id s, m' !! id = Some s → m !! id = Some s ∨ fresh_step job id s)
  ∧ unique_orders m'.
Proof.
  revert m; induction steps as [|s steps IH]; intros m Hall Hord Hins; simpl in Hins.
  - simplify_eq. eauto.
  - apply Forall_cons in Hall as [[Hj Hp] Hall].
    apply result_bind_Ok in Hins as (m1 & Hs & Hins).
    apply insert_step_Ok in Hs as (Hnew & Hno & ->).
    apply IH in Hins as (Hold & Hfr & Hord'); [|done|].
    + split; [|split; [|done]].
      * intros id x Hx. apply Hold. rewrite lookup_insert_ne; [done|congruence].
      * intros id x [Hx|Hx]%Hfr; [|by right].
        apply lookup_insert_Some in Hx as [[<- <-]|[_ Hx]]; [right|by left]. by repeat split.
    + intros i x i' x' Hx Hx' Hjj Hoo.
      apply lookup_insert_Some in Hx as [[<- <-]|[? Hx]];
        apply lookup_insert_Some in Hx' as [[<- <-]|[? Hx']]; simpl in *.
      * done.
      * by destruct (Hno _ _ Hx').
      * by destruct (Hno _ _ Hx).
      * by eapply Hord.
Qed.

Lemma create_steps_new job o n k steps k' :
  create_steps job o n k = (steps, k') → Forall (new_step job) steps.
Proof.
  revert o k steps k'; induction n as [|n IH]; intros o k steps k'; simpl; run_gen.
  - by intros [= <- _].
  - destruct (create_steps job (S o) n (S k)) as [rest kr] eqn:Hr. intros [= <- _].
    constructor; [done|]. by eapply IH.
Qed.

Lemma create_refines stray w ep n k w' r k' :
  tables_inv (tables (w_db w)) → service_create_workflow w ep n k = ((w', r), k') →
  protocol stray (tables (w_db w)) (tables (w_db w')).
Proof.
  intros HI. unfold service_create_workflow, create_workflow, mbind, gen_bind, mret, gen_ret.
  case_bool_decide; [unchanged|]. unfold new_v4.
  destruct (create_steps _ _ _ _) as [steps ks] eqn:Hc. apply create_steps_new in Hc.
  unfold repo_create_workflow. simpl. destruct (jd_endpoints _ !! ep) as [e|].
  2: { intros [= <- _ _]. unchanged. }
  case_bool_decide; simpl; [|unchanged].
  destruct (insert_unique _ _ _ ≫= _) as [db'|err] eqn:Hins; intros [= <- _ _];
    [|unchanged].
  apply result_bind_Ok in Hins as (jobs & Hj & Hins).
  apply result_bind_Ok in Hins as (m' & Hs & [= <-]).
  apply insert_unique_Ok in Hj as [Hnew ->].
  apply insert_steps_Ok with (job := draw_uuid k) in Hs as (Hold & Hfr & Hord);
    [|done|apply (ti_orders _ HI)].
  apply rtc_once. by apply (ws_create _ (tables (w_db w))).
Qed.

(** *** Admission, eligibility and intent *)

Lemma admit_refines stray db id now k db' r k' :
  repo_admit_job db id (λ job, admit_job job now) k = ((db', r), k') →
  protocol stray (tables db) (tables db').
Proof.
  unfold repo_admit_job. destruct (find_job db id) as [job|] eqn:Hj;
    unfold mbind, gen_bind, mret, gen_ret; [|unchanged].
  apply find_job_Some in Hj as (row & Hrow & ->). unfold admit_job. simpl.
  case_bool_decide as Hst; simpl; [|unchanged].
  destruct (update_job_state db id JobState.Running) as [db1|e] eqn:Hup;
    [|unchanged].
  eapply update_job_state_tables in Hup as [Htab Hriv]; [|done].
  destruct (insert_unique _ _ (jd_events db1)) as [evs|e]; intros [= <- _ _];
    [|unchanged].
  apply rtc_once. change (tables (with_events db1 evs)) with (tables db1). rewrite Htab.
  by apply ws_admit; [| |apply Hriv].
Qed.

Lemma satisfy_refines stray db id step_id db' r :
  tables_inv (tables db) →
  repo_satisfy_current_step_preconditions db id step_id
    (λ job, satisfy_preliminary_preconditions job step_id) = (db', r) →
  protocol stray (tables db) (tables db').
Proof.
  intros HI. unfold repo_satisfy_current_step_preconditions.
  destruct (find_job db id) as [job|] eqn:Hj; [|unchanged].
  apply find_job_Some in Hj as (row & Hrow & ->).
  unfold satisfy_preliminary_preconditions. simpl.
  case_bool_decide as Hrun; simpl; [|unchanged].
  destruct (find_step _ _) as [s|] eqn:Hs; [|unchanged].
  case_bool_decide as Hp; simpl; [|unchanged].
  destruct (earlier_steps_all_succeeded _ _) eqn:He; simpl; intros [= <- _];
    [|unchanged].
  apply find_step_Some in Hs as [Hs <-]; [|done]. apply earlier_done_iff in He.
  apply rtc_once. erewrite update_step_state_tables by done. by eapply ws_satisfy.
Qed.

Lemma intent_refines stray db id step_id revision target db' r :
  repo_authorize_destructive_intent db id step_id
    (λ step, authorize_destructive_intent step id revision target) = (db', r) →
  protocol stray (tables db) (tables db').
Proof.
  unfold repo_authorize_destructive_intent, authorize_destructive_intent.
  destruct (jd_steps db !! step_id) as [s|] eqn:Hs; [|unchanged].
  case_bool_decide as Hj; simpl; [|unchanged].
  case_bool_decide as Hp; simpl; [|unchanged].
  case_bool_decide as Hi; simpl; intros [= <- _]; [unchanged|].
  apply rtc_once. unfold tables at 2. simpl. erewrite alter_Some by done.
  apply (ws_intent stray (tables db) step_id s); [done|done|].
  destruct (js_destructive_intent s); [|done]. by destruct Hi.
Qed.

(** *** Dispatch *)

Lemma insert_attempt_Ok a m m' :
  insert_attempt a m = Ok m' →
  m !! at_id a = None ∧ (∀ id x, m !! id = Some x → at_action_id x ≠ at_action_id a)
  ∧ m' = <[at_id a := a]> m.
Proof.
  unfold insert_attempt. destruct (existsb _ _) eqn:Hex; [done|].
  intros [Hnew ->]%insert_unique_Ok. split; [done|]. split; [|done]. intros id x Hx Ho.
  apply not_true_iff_false in Hex. apply Hex, List.existsb_exists. exists (id, x).
  rewrite <-list_elem_of_In, elem_of_map_to_list. split; [done|]. simpl.
  by rewrite bool_decide_eq_true_2.
Qed.

(** A committed dispatch is the dispatch step of the protocol. *)
Lemma persist_dispatch_step stray db id s row attempt step' db' :
  jd_steps db !! id = Some s → js_state s = JobStepState.PreconditionsSatisfied →
  jd_jobs db !! js_job_id s = Some row → jr_state row = JobState.Running →
  earlier_done (tables db) s →
  js_state step' = JobStepState.Dispatching → at_state attempt = AttemptState.Dispatched →
  persist_dispatch db id step' attempt = Ok db' →
  wf_step stray (tables db) (tables db').
Proof.
  intros Hs Hps Hrow Hrun He Hd Hst. unfold persist_dispatch.
  intros (m' & Hins & [= <-])%result_bind_Ok.
  apply insert_attempt_Ok in Hins as (Hnew & Hact & ->). simpl in *.
  unfold tables at 2. simpl. rewrite (alter_Some _ _ _ s) by done. rewrite Hd, Hst.
  apply (ws_dispatch stray (tables db) id s row
    {| at_id := at_id attempt; at_job_step_id := id; at_action_id := at_action_id attempt;
       at_state := AttemptState.Dispatched |}); done.
Qed.

(** What the gate established, when it lets a dispatch through. *)
Lemma final_dispatch_Ok inputs k o k' :
  evaluate_final_destructive_dispatch inputs k = (Ok o, k') →
  ∃ step intent,
    find_step (fi_step_id inputs) (job_steps (fi_job inputs)) = Some step
    ∧ js_state step = JobStepState.PreconditionsSatisfied
    ∧ job_state (fi_job inputs) = JobState.Running
    ∧ earlier_steps_all_succeeded (job_steps (fi_job inputs)) (js_order step) = true
    ∧ fi_existing_active_attempt inputs = false
    ∧ js_destructive_intent step = Some intent
    ∧ fi_identity_enrolled inputs = true ∧ fi_credential_active inputs = true
    ∧ fi_agent_present inputs = true
    ∧ fi_current_inventory_revision_id inputs = Some (di_authorized_inventory_revision_id intent)
    ∧ fi_current_target_fingerprint inputs = Some (di_authorized_target_fingerprint intent)
    ∧ fi_hardware_confidence inputs = HardwareConfidence.Consistent
    ∧ fi_trusted_bootstrap_established inputs = true
    ∧ o = {| fo_job_step := step_with_state step JobStepState.Dispatching;
             fo_attempt := {| at_id := draw_uuid k; at_job_step_id := js_id step;
                              at_action_id := draw_uuid (S k);
                              at_state := AttemptState.Dispatched |} |}
    ∧ k' = S (S k).
Proof.
  unfold evaluate_final_destructive_dispatch. run_gen. intros Ho.
  repeat (case_match; simplify_eq/=; try done). reflect_bools.
  eexists _, _. by repeat split.
Qed.

(** A denial touches the step only to put it back to [Pending]. *)
Lemma final_dispatch_Err inputs k d k' :
  evaluate_final_destructive_dispatch inputs k = (Err d, k') →
  fd_pending_job_step d = None
  ∨ ∃ step, find_step (fi_step_id inputs) (job_steps (fi_job inputs)) = Some step
            ∧ js_state step = JobStepState.PreconditionsSatisfied
            ∧ fd_pending_job_step d = Some (step_with_state step JobStepState.Pending).
Proof.
  unfold evaluate_final_destructive_dispatch. run_gen. intros Ho.
  repeat (case_match; simplify_eq/=; try done); reflect_bools; try (by left);
    right; eexists; by repeat split.
Qed.

Lemma transfer_dispatch_Ok inputs k o k' :
  evaluate_transfer_dispatch inputs k = (Ok o, k') →
  ∃ step,
    find_step (ti_step_id inputs) (job_steps (ti_job inputs)) = Some step
    ∧ js_state step = JobStepState.PreconditionsSatisfied
    ∧ js_destructive_intent step = None
    ∧ job_state (ti_job inputs) = JobState.Running
    ∧ earlier_steps_all_succeeded (job_steps (ti_job inputs)) (js_order step) = true
    ∧ ti_existing_active_attempt inputs = false
    ∧ bind_attempt (ti_transfer inputs) (tdo_attempt o) = Ok (tdo_transfer o)
    ∧ tdo_job_step o = step_with_state step JobStepState.Dispatching
    ∧ at_state (tdo_attempt o) = AttemptState.Dispatched.
Proof.
  unfold evaluate_transfer_dispatch. run_gen. intros Ho.
  repeat (case_match; simplify_eq/=; try done). reflect_bools.
  eexists. repeat split; try done; by apply eq_None_not_Some.
Qed.

Lemma transfer_dispatch_Err inputs k d k' :
  evaluate_transfer_dispatch inputs k = (Err d, k') →
  td_pending_job_step d = None
  ∨ ∃ step, find_step (ti_step_id inputs) (job_steps (ti_job inputs)) = Some step
            ∧ js_state step = JobStepState.PreconditionsSatisfied
            ∧ td_pending_job_step d = Some (step_with_state step JobStepState.Pending).
Proof.
  unfold evaluate_transfer_dispatch. run_gen. intros Ho.
  repeat (case_match; simplify_eq/=; try done); reflect_bools; try (by left);
    right; eexists; by repeat split.
Qed.

Lemma denial_refines stray db job id pending :
  tables_inv (tables db) →
  (pending = None ∨ ∃ step, find_step id (fetch_job_steps db job) = Some step
     ∧ js_state step = JobStepState.PreconditionsSatisfied
     ∧ pending = Some (step_with_state step JobStepState.Pending)) →
  protocol stray (tables db) (tables (persist_denial db id pending)).
Proof.
  intros HI [->|(s & Hs & Hps & ->)]; [unchanged|].
  apply find_step_Some in Hs as [Hs _]; [|done]. apply rtc_once. simpl.
  erewrite update_step_state_tables by done. by apply ws_deny.
Qed.

Lemma destructive_refines stray presence target now db id step_id k db' r k' :
  tables_inv (tables db) →
  repo_commit_destructive_dispatch db id step_id
    (final_dispatch_decision presence target now id step_id) k = ((db', r), k') →
  protocol stray (tables db) (tables db').
Proof.
  intros HI. unfold repo_commit_destructive_dispatch.
  destruct (find_job db id) as [job|] eqn:Hj; unfold mbind, gen_bind, mret, gen_ret;
    [|unchanged].
  apply find_job_Some in Hj as (row & Hrow & ->). simpl.
  destruct (jd_endpoints db !! _) as [ep|]; [|unchanged].
  unfold final_dispatch_decision, mbind, gen_bind, mret, gen_ret.
  destruct (evaluate_final_destructive_dispatch _ k) as [[o|d] k1] eqn:He; simpl.
  - apply final_dispatch_Ok in He as (s & intent & Hs & Hps & Hrun & Hearly & _ & _ & _ & _ & _
      & _ & _ & _ & _ & -> & _). simpl in *.
    apply find_step_Some in Hs as [Hs <-]; [|done].
    destruct (persist_dispatch _ _ _ _) as [db1|e] eqn:Hp; [|unchanged].
    simpl. destruct (insert_unique _ _ _) as [auds|e];
      intros [= <- _ _]; [|unchanged].
    apply rtc_once. change (tables (with_audits db1 auds)) with (tables db1).
    eapply (persist_dispatch_step stray db step_id s row); [..|exact Hp]; try done.
    by apply earlier_done_iff.
  - intros [= <- _ _]. apply final_dispatch_Err in He. by apply (denial_refines _ _ id).
Qed.

Lemma transfer_refines stray db id step_id transfer_id k db' r k' :
  tables_inv (tables db) →
  repo_commit_transfer_dispatch db id step_id transfer_id evaluate_transfer_dispatch k
    = ((db', r), k') →
  protocol stray (tables db) (tables db').
Proof.
  intros HI. unfold repo_commit_transfer_dispatch.
  destruct (find_job db id) as [job|] eqn:Hj; unfold mbind, gen_bind, mret, gen_ret;
    [|unchanged].
  apply find_job_Some in Hj as (row & Hrow & ->). simpl.
  destruct (jd_transfers db !! _) as [t|]; [|unchanged].
  destruct (evaluate_transfer_dispatch _ k) as [[o|d] k1] eqn:He; simpl.
  - apply transfer_dispatch_Ok in He as (s & Hs & Hps & _ & Hrun & Hearly & _ & _ & Hd & Hst).
    simpl in *. apply find_step_Some in Hs as [Hs <-]; [|done].
    destruct (persist_dispatch _ _ _ _) as [db1|e] eqn:Hp; [|unchanged].
    simpl.
    destruct (persist_attempt_binding _ _ _) as [db2|e] eqn:Hb; intros [= <- _ _];
      [|unchanged].
    apply rtc_once. replace (tables db2) with (tables db1).
    + eapply (persist_dispatch_step stray db step_id s row); [..|exact Hp]; try done.
      * by apply earlier_done_iff.
      * by rewrite Hd.
    + unfold persist_attempt_binding in Hb. repeat (case_match; simplify_eq/=; try done).
  - intros [= <- _ _]. apply transfer_dispatch_Err in He. by apply (denial_refines _ _ id).
Qed.

(** *** Cancellation *)

Lemma joined_attempts_nil db p :
  joined_attempts db p = [] →
  ∀ id a s, jd_attempts db !! id = Some a → jd_steps db !! at_job_step_id a = Some s →
            p s a = false.
Proof.
  unfold joined_attempts. intros Hnil id a s Ha Hs. apply not_true_iff_false. intros Hp.
  assert (at_id a ∈ ([] : list AttemptId)) as Hin.
  { rewrite <-Hnil. apply list_elem_of_omap. exists a. split; [apply elem_of_values; eauto|].
    rewrite Hs. simpl. by rewrite Hp. }
  by apply elem_of_nil in Hin.
Qed.

Lemma joined_attempts_elem db p id :
  id ∈ joined_attempts db p → tables_inv (tables db) →
  ∃ a s, jd_attempts db !! id = Some a ∧ jd_steps db !! at_job_step_id a = Some s ∧ p s a = true.
Proof.
  unfold joined_attempts. intros (a & [i Ha]%elem_of_values & Hx)%list_elem_of_omap HI.
  apply bind_Some in Hx as (s & Hs & Hx). destruct (p s a) eqn:Hp; simplify_eq.
  exists a, s. by rewrite (ti_attempt_key _ HI _ _ Ha).
Qed.

(** An empty scan means nothing of the Job is in flight. *)
Lemma no_candidate_quiet db id :
  tables_inv (tables db) → active_attempt_candidate_rows db id = Ok [] → quiet (tables db) id.
Proof.
  intros HI. unfold active_attempt_candidate_rows. case_match; [done|]. intros [= Hnil].
  intros a (aid & s & Ha & Hact & Hs & Hj).
  pose proof (joined_attempts_nil _ _ Hnil _ _ _ Ha Hs) as Hf. cbv beta in Hf.
  rewrite (bool_decide_eq_true_2 _ Hj),
    (bool_decide_eq_true_2 _ (ti_active _ HI _ _ _ Ha Hact Hs)) in Hf. simpl in Hf. congruence.
Qed.

Lemma cancellation_pass_Locked pre db id facts :
  tables_inv (tables db) → cancellation_pass pre db id = CancellationPass.Locked facts →
  find_job db id = Some (rc_job facts)
  ∧ match rc_active_attempt facts with
    | None => quiet (tables db) id
    | Some a => attempt_active (at_state a) = true
                ∧ ∃ c, c ∈ joined_attempts pre (λ step a,
                         bool_decide (js_job_id step = id)
                         && bool_decide (js_state step = JobStepState.Dispatching)
                         && attempt_active (at_state a)) ∧ jd_attempts db !! c = Some a
    end.
Proof.
  intros HI. unfold cancellation_pass.
  destruct (active_attempt_candidate_rows pre id) as [[|c rest]|e] eqn:Hrows; [| |done].
  - destruct (jd_jobs db !! id); [|done].
    destruct (active_attempt_candidate_rows db id) as [[|]|] eqn:Hpost; [|done..].
    destruct (find_job db id); [|done]. intros [= <-]. simpl. split; [done|].
    by apply no_candidate_quiet.
  - destruct (jd_attempts db !! c) as [a|] eqn:Ha; [|done].
    destruct (attempt_active (at_state a)) eqn:Hact; [|done].
    destruct (find_job db id); [|done]. intros [= <-]. simpl. split; [done|]. split; [done|].
    exists c. split; [|done]. unfold active_attempt_candidate_rows in Hrows.
    case_match; [done|]. injection Hrows as Hrows. rewrite Hrows. by left.
Qed.

Lemma cancellation_loop_Ok pre db id n i facts :
  cancellation_loop pre db id n i = Ok facts →
  ∃ j, cancellation_pass (pre j) db id = CancellationPass.Locked facts.
Proof.
  revert i; induction n as [|n IH]; intros i; simpl; [done|]. destruct n as [|n]; [done|].
  destruct (cancellation_pass (pre i) db id) eqn:Hp; [apply IH|done|].
  intros [= <-]. eauto.
Qed.

Lemma request_refines stray pre db id operator now k db' r k' :
  tables_inv (tables db) →
  repo_request_cancellation pre db id (request_decision operator now) k = ((db', r), k') →
  protocol stray (tables db) (tables db').
Proof.
  intros HI. unfold repo_request_cancellation.
  destruct (cancellation_loop _ _ _ _ _) as [facts|e] eqn:Hloop;
    unfold mbind, gen_bind, mret, gen_ret; [|unchanged].
  apply cancellation_loop_Ok in Hloop as [j Hp]. apply cancellation_pass_Locked in Hp as [Hj Hact];
    [|done].
  apply find_job_Some in Hj as (row & Hrow & Hj).
  unfold request_decision, request_cancellation, mbind, gen_bind, mret, gen_ret.
  rewrite Hj. simpl. destruct (jr_state row) eqn:Hst; try (unchanged).
  destruct (rc_active_attempt facts) as [a|]; simpl.
  - destruct (update_job_state db id JobState.Cancelling) as [db1|e] eqn:Hup;
      [|unchanged].
    simpl.
    destruct (insert_unique _ _ _) as [auds|e]; intros [= <- _ _]; [|unchanged].
    eapply update_job_state_tables in Hup as [Htab Hriv]; [|done]. apply rtc_once.
    change (tables (with_audits db1 auds)) with (tables db1). rewrite Htab.
    by apply ws_cancelling; [| |apply Hriv].
  - destruct (update_job_state db id JobState.Cancelled) as [db1|e] eqn:Hup;
      [|unchanged].
    simpl.
    destruct (insert_unique _ _ (jd_events db1)) as [evs|e]; [|unchanged].
    simpl.
    destruct (insert_unique _ _ (jd_audits db1)) as [auds|e]; intros [= <- _ _];
      [|unchanged].
    eapply update_job_state_tables in Hup as [Htab _]; [|done]. apply rtc_once.
    change (tables (with_audits (with_events db1 evs) auds)) with (tables db1). rewrite Htab.
    by apply ws_cancelled.
Qed.

(** *** Reconciliation *)

Lemma mark_awaiting_Some a a' :
  mark_awaiting_reconciliation a = Some a' →
  attempt_active (at_state a) = true
  ∧ a' = attempt_with a AttemptState.AwaitingReconciliation.
Proof. unfold mark_awaiting_reconciliation. destruct (at_state a); by intros [= <-]. Qed.

(** Writing back a marked attempt. *)
Lemma mark_step stray db c a :
  tables_inv (tables db) → jd_attempts db !! c = Some a →
  attempt_active (at_state a) = true →
  wf_step stray (tables db)
    (tables (update_attempt_state db (at_id a) AttemptState.AwaitingReconciliation)).
Proof.
  intros HI Ha Hact. pose proof (ti_attempt_key _ HI _ _ Ha) as Hkey.
  rewrite Hkey. erewrite update_attempt_state_tables by done. by apply ws_attempt.
Qed.

Lemma mark_uncertain_refines stray w ep action :
  tables_inv (tables (w_db w)) →
  protocol stray (tables (w_db w)) (tables (w_db (service_mark_endpoint_uncertain w ep action).1)).
Proof.
  intros HI. unfold service_mark_endpoint_uncertain, repo_mark_endpoint_active_attempt_uncertain.
  destruct (1 <? _)%nat; [unchanged|]. destruct (joined_attempts _ _) as [|c rest];
    [unchanged|].
  destruct (jd_attempts (w_db w) !! c) as [a|] eqn:Ha; [|unchanged].
  change (Some a ≫= ?f) with (f a). cbv beta. case_bool_decide; simpl; [|unchanged].
  destruct (mark_awaiting_reconciliation a) as [a'|] eqn:Hm; simpl; [|unchanged].
  apply mark_awaiting_Some in Hm as [Hact ->]. simpl. apply rtc_once. by eapply mark_step.
Qed.

Lemma reconcile_each_refines stray db ids :
  tables_inv (tables db) →
  protocol stray (tables db) (tables (reconcile_each db mark_awaiting_reconciliation ids).1).
Proof.
  revert db; induction ids as [|c ids IH]; intros db HI; simpl; [unchanged|].
  destruct (jd_attempts db !! c) as [a|] eqn:Ha; simpl; [|by apply IH].
  destruct (mark_awaiting_reconciliation a) as [a'|] eqn:Hm; simpl; [|by apply IH].
  apply mark_awaiting_Some in Hm as [Hact ->]. simpl.
  pose proof (mark_step stray db c a HI Ha Hact) as Hstep.
  specialize (IH _ (wf_step_inv _ _ _ Hstep HI)).
  destruct (reconcile_each _ _ ids) as [db' out]. simpl in *. by eapply rtc_l.
Qed.

Lemma close_refines stray db id operator now k db' r k' :
  tables_inv (tables db) →
  repo_close_indeterminate db id (close_decision operator now) k = ((db', r), k') →
  protocol stray (tables db) (tables db').
Proof.
  intros HI. unfold repo_close_indeterminate.
  destruct (1 <? _)%nat; [unchanged|].
  destruct (joined_attempts _ _) as [|c rest] eqn:Hrows; [unchanged|].
  destruct (joined_attempts_elem db _ c ltac:(rewrite Hrows; by left) HI) as (a & s & Ha & Hs & Hp).
  rewrite Ha. simpl. rewrite Hs. simpl. reflect_bools.
  destruct (find_job db id) as [job|] eqn:Hj; [|unchanged].
  unfold close_decision, mbind, gen_bind, mret, gen_ret. simpl.
  destruct (Reconciliation.close_indeterminate job s a now k) as [o ko] eqn:Ho.
  destruct o as [ap| |]; [|unchanged..]. unfold new_v4.
  destruct (persist_applied _ _ _) as [db1|e] eqn:Hpers; intros [= <- _ _]; [|unchanged].
  apply close_effect in Ho. apply rtc_once. eapply persist_applied_step; [done| |exact Ho| |exact Hpers].
  - split; [|split]; [by rewrite (ti_attempt_key _ HI _ _ Ha)|done|congruence].
  - intros Hin. by rewrite H0 in Hin.
Qed.

(** *** Whole runs *)

(** The calls that may take a stray step. *)
Definition disciplined (w : World) (o : JobOp.t) : Prop :=
  match o with
  | JobOp.CancelAck action ep e _ => ¬ stray_ack (w_db w) action ep e
  | _ => True
  end.

Lemma take_and_release_db w id : w_db (take_and_release w id) = w_db w.
Proof. unfold take_and_release. simpl. by destruct (w_registry w !! id). Qed.

Lemma settle_db w db r : w_db (settle w db r).1 = db.
Proof.
  unfold settle. destruct r as [[a| |]|]; simpl; try done.
  destruct (ap_terminal a); [by rewrite take_and_release_db|done].
Qed.

(** Every service call is a sequence of protocol steps. *)
Lemma run_job_op_refines stray w o k w' k' :
  tables_inv (tables (w_db w)) → (stray = true ∨ disciplined w o) →
  run_job_op w o k = (w', k') → protocol stray (tables (w_db w)) (tables (w_db w')).
Proof.
  intros HI Hdisc. destruct o; simpl; unfold mbind, gen_bind, mret, gen_ret.
  - destruct (service_create_workflow _ _ _ _) as [[w1 r] k1] eqn:Hr. intros [= <- _].
    by eapply create_refines.
  - unfold service_admit, mbind, gen_bind, mret, gen_ret.
    destruct (repo_admit_job _ _ _ _) as [[db r] k1] eqn:Hr. intros [= <- _].
    by eapply admit_refines.
  - unfold service_satisfy_current_step_preconditions.
    destruct (repo_satisfy_current_step_preconditions _ _ _ _) as [db r] eqn:Hr.
    intros [= <- _]. by eapply satisfy_refines.
  - unfold service_authorize. destruct (find_job _ _); [|unchanged].
    repeat (case_match; try (unchanged)).
    intros [= <- _]. by eapply intent_refines.
  - unfold service_commit_destructive_dispatch.
    destruct (Arbiter.acquire _ _) as [arb [res|e]]; [|unchanged].
    unfold mbind, gen_bind, mret, gen_ret.
    destruct (repo_commit_destructive_dispatch _ _ _ _ _) as [[db r] k1] eqn:Hr.
    apply (destructive_refines stray) in Hr; [|done]. destruct r as [|e]; [by intros [= <- _]|].
    by destruct e; intros [= <- _].
  - unfold service_commit_transfer_dispatch.
    destruct (Arbiter.acquire _ _) as [arb [res|e]]; [|unchanged].
    unfold mbind, gen_bind, mret, gen_ret.
    destruct (repo_commit_transfer_dispatch _ _ _ _ _ _) as [[db r] k1] eqn:Hr.
    apply (transfer_refines stray) in Hr; [|done]. destruct r as [|e]; [by intros [= <- _]|].
    by destruct e; intros [= <- _].
  - unfold service_dispatch. repeat case_match; intros [= <- _]; unchanged.
  - unfold service_apply_evidence, mbind, gen_bind, mret, gen_ret.
    destruct (repo_apply_action_evidence _ _ _ _ _) as [[db r] k1] eqn:Hr. intros Hw.
    apply (f_equal fst) in Hw. change ((settle w db r).1 = w') in Hw. rewrite <-Hw, settle_db.
    by eapply action_evidence_refines.
  - unfold service_request_cancellation, mbind, gen_bind, mret, gen_ret.
    destruct (repo_request_cancellation _ _ _ _ _) as [[db r] k1] eqn:Hr. intros [= <- _].
    by eapply request_refines.
  - unfold service_apply_cancel_ack, mbind, gen_bind, mret, gen_ret.
    destruct (repo_apply_cancel_ack _ _ _ _ _) as [[db r] k1] eqn:Hr. intros Hw.
    apply (f_equal fst) in Hw. change ((settle w db r).1 = w') in Hw. rewrite <-Hw, settle_db.
    by eapply cancel_ack_refines.
  - intros [= <- _]. by apply mark_uncertain_refines.
  - unfold service_reconcile_on_startup, repo_reconcile_all_active_attempts_on_startup.
    pose proof (reconcile_each_refines stray (w_db w)
      (at_id <$> List.filter (λ a, attempt_in_flight (at_state a))
                   (map_to_list (jd_attempts (w_db w))).*2) HI) as Hr.
    destruct (reconcile_each _ _ _) as [db ids]. by intros [= <- _].
  - unfold service_apply_status_report, mbind, gen_bind, mret, gen_ret.
    destruct (repo_apply_status_report _ _ _ _ _) as [[db r] k1] eqn:Hr. intros Hw.
    apply (f_equal fst) in Hw. change ((settle w db r).1 = w') in Hw. rewrite <-Hw, settle_db.
    by eapply status_report_refines.
  - unfold service_close_indeterminate, mbind, gen_bind, mret, gen_ret.
    destruct (repo_close_indeterminate _ _ _ _) as [[db r] k1] eqn:Hr. simpl.
    apply (close_refines stray) in Hr; [|done].
    destruct r as [[ap| |]|]; intros [= <- _]; rewrite ?take_and_release_db; done.
  - intros [= <- _]. unchanged.
  - intros [= <- _]. unchanged.
  - intros [= <- _]. unchanged.
  - intros [= <- _]. unchanged.
Qed.

(** Reachability, with and without stray acknowledgements. *)
Inductive reaches (stray : bool) (w : World) (k : nat) : World → nat → Prop :=
| reaches_refl : reaches stray w k w k
| reaches_step w1 k1 o w2 k2 :
    reaches stray w k w1 k1 → stray = true ∨ disciplined w1 o → run_job_op w1 o k1 = (w2, k2) →
    reaches stray w k w2 k2.

Lemma reaches_refines stray w k w' k' :
  reaches stray w k w' k' → tables_inv (tables (w_db w)) →
  tables_inv (tables (w_db w')) ∧ protocol stray (tables (w_db w)) (tables (w_db w')).
Proof.
  induction 1 as [|w1 k1 o w2 k2 _ IH Hd Hrun]; intros HI; [split; [done|unchanged]|].
  destruct (IH HI) as [HI1 Hp1]. pose proof (run_job_op_refines _ _ _ _ _ _ HI1 Hd Hrun) as Hp2.
  split; [by eapply protocol_inv|]. by etrans.
Qed.

Lemma run_job_ops_reaches w k ops w' k' :
  run_job_ops w ops k = (w', k') → reaches true w k w' k'.
Proof.
  intros Hrun. assert (∀ w0 k0, reaches true w k w0 k0 → run_job_ops w0 ops k0 = (w', k') →
                         reaches true w k w' k') as Hgen.
  { clear. induction ops as [|o ops IH]; intros w0 k0 Hr; simpl; unfold mbind, gen_bind, mret, gen_ret.
    - by intros [= <- <-].
    - destruct (run_job_op w0 o k0) as [w1 k1] eqn:Ho. apply IH.
      eapply reaches_step; [done|by left|done]. }
  eapply Hgen; [apply reaches_refl|done].
Qed.
End Refinement.

Lemma empty_inv : tables_inv (tables empty_job_db).
Proof. by split. Qed.
