(* ===== verification/JobTheorems.v ===== *)
(** * Properties of the Job services

    The properties of workflow creation, dispatch, evidence, cancellation and
    reconciliation, for every state the services can reach; they follow from the
    refinement of [JobSafety] and the invariants of [JobSpec]. *)

From stdpp Require Import prelude gmap strings sorting.
From Stdlib Require Import Strings.Byte NArith ZArith.
From S2P Require Import Prelude.
From S2P Require Import External.
From S2P Require Import Credential.
From S2P Require Import Endpoint.
From S2P Require Import Job.
From S2P Require Import Transfer.
From S2P Require Import Runtime.
From S2P Require Import EnrollmentStore.
From S2P Require Import JobStore.
From S2P Require Import JobSpec.
From S2P Require Import JobServices.
From S2P Require Import JobSafety.

Section Theorems.
Context {ent : Entropy} {disp : UuidDisplay}.

Definition reachable (w : World) (k : nat) : Prop := reaches true empty_world 0 w k.

Lemma reachable_inv w k : reachable w k → tables_inv (tables (w_db w)).
Proof. intros Hr. by apply (reaches_refines _ _ _ _ _ Hr), empty_inv. Qed.

(** C1. The Job services implement the workflow protocol. From every reachable
    state, each service call (including its failures) changes the [jobs],
    [job_steps] and [attempts] tables by a sequence of the protocol's steps, and the
    only call that can take a stray step is an acknowledgement [AlreadyCompleted] of
    an ended Attempt of a Job with another Attempt in flight. *)
Theorem job_services_refine (w : World) (k : nat) (o : JobOp.t) (w' : World) (k' : nat) :
  reachable w k → run_job_op w o k = (w', k') →
  protocol true (tables (w_db w)) (tables (w_db w'))
  ∧ (disciplined w o → protocol false (tables (w_db w)) (tables (w_db w'))).
Proof.
  intros HI%reachable_inv Hrun. split.
  - eapply run_job_op_refines; [done|by left|done].
  - intros Hd. eapply run_job_op_refines; [done|by right|done].
Qed.

(** C3. The durable invariants of a workflow hold in every reachable state: at most
    one Running or Cancelling Job per Endpoint; at most one active Attempt per Job,
    and it belongs to the Job's one step in [Dispatching]; steps leave [Pending] only
    in order, behind succeeded ones; a Job marked Succeeded has only succeeded steps;
    an action identity names one Attempt; a failure reason is recorded exactly for
    failed steps. *)
Theorem job_tables_invariant (ops : list JobOp.t) (w : World) (k : nat) :
  run_job_ops empty_world ops 0 = (w, k) →
  let T := tables (w_db w) in
  exclusive (t_jobs T)
  ∧ (∀ job a a', active_for T job a → active_for T job a' → a = a')
  ∧ (∀ id a s, t_attempts T !! id = Some a → attempt_active (at_state a) = true →
       t_steps T !! at_job_step_id a = Some s → js_state s = JobStepState.Dispatching)
  ∧ (∀ id s, t_steps T !! id = Some s → js_state s ≠ JobStepState.Pending → earlier_done T s)
  ∧ (∀ job row id s, t_jobs T !! job = Some row → jr_state row = JobState.Succeeded →
       t_steps T !! id = Some s → js_job_id s = job → js_state s = JobStepState.Succeeded)
  ∧ (∀ id a id' a', t_attempts T !! id = Some a → t_attempts T !! id' = Some a' →
       at_action_id a = at_action_id a' → id = id')
  ∧ (∀ id s, t_steps T !! id = Some s →
       (is_Some (js_failure_reason s) ↔ js_state s = JobStepState.Failed)).
Proof.
  intros Hrun%run_job_ops_reaches T. pose proof (reachable_inv _ _ Hrun) as HI. fold T in HI.
  split; [apply HI|]. split; [intros; by eapply active_unique|].
  split; [apply HI|]. split; [apply HI|]. split; [|split; apply HI].
  intros job row id s Hrow Hst. by apply (ti_succeeded _ HI _ _ Hrow Hst).
Qed.

(** Finished Jobs stay finished. A Succeeded or Failed Job keeps its state
    through every later call. A Cancelled Job does too, and has no Attempt in
    flight, in every history without a stray acknowledgement. *)
Theorem terminal_jobs_final (stray : bool) (w : World) (k : nat) (w' : World) (k' : nat)
    (job : JobId) (row : JobRow) :
  reaches stray empty_world 0 w k → reaches stray w k w' k' →
  jd_jobs (w_db w) !! job = Some row → job_terminal (jr_state row) = true →
  (jr_state row = JobState.Cancelled → stray = false) →
  jd_jobs (w_db w') !! job = Some row ∧ quiet (tables (w_db w)) job.
Proof.
  intros Hr Hr' Hrow Hterm Hst.
  destruct (reaches_refines _ _ _ _ _ Hr empty_inv) as [HI Hp].
  destruct (reaches_refines _ _ _ _ _ Hr' HI) as [HI' Hp'].
  assert (stray = false → cancelled_quiet (tables (w_db w))) as HC.
  { intros ->. eapply protocol_cancelled_quiet; [exact Hp|apply empty_inv|done]. }
  destruct (jr_state row) eqn:Hs; try done.
  - split; [exact (protocol_terminal _ _ _ _ _ Hp' HI Hrow (or_introl Hs))|].
    apply quiet_iff; [done|]. intros id s Hst' Hj.
    by rewrite (ti_succeeded _ HI _ _ Hrow Hs _ _ Hst' Hj).
  - split; [exact (protocol_terminal _ _ _ _ _ Hp' HI Hrow (or_intror Hs))|].
    apply quiet_iff; [done|].
    by apply (ti_failed _ HI _ _ Hrow).
  - specialize (Hst eq_refl). subst stray.
    split; [exact (protocol_cancelled _ _ _ _ Hp' HI (HC eq_refl) Hrow Hs)|].
    apply quiet_iff; [done|]. by apply (HC eq_refl _ _ Hrow).
Qed.

(** ** Dispatch *)

(** The conditions under which a destructive step may be dispatched: the workflow is
    at that step and nothing of it is in flight, its intent was authorised against
    the current inventory and target, and the Endpoint is enrolled, has a live
    credential, is present, is of consistent hardware and has attested its boot. *)
Definition destructive_gate (w : World) (target : EndpointId → option TargetFingerprint)
    (now : Instant) (id : JobId) (step_id : JobStepId) : Prop :=
  ∃ row s intent ep,
    jd_jobs (w_db w) !! id = Some row ∧ jr_state row = JobState.Running
    ∧ jd_steps (w_db w) !! step_id = Some s ∧ js_job_id s = id
    ∧ js_state s = JobStepState.PreconditionsSatisfied
    ∧ earlier_done (tables (w_db w)) s
    ∧ step_has_active_attempt (w_db w) step_id = false
    ∧ js_destructive_intent s = Some intent
    ∧ jd_endpoints (w_db w) !! jr_endpoint_id row = Some ep
    ∧ ep_identity ep = IdentityState.Enrolled
    ∧ CredentialChain_dimension (ep_credential ep) now = CredentialDimension.CredentialActive
    ∧ Presence.is_present (w_presence w) (ep_id ep) = true
    ∧ jd_inventory (w_db w) !! jr_endpoint_id row
      = Some (di_authorized_inventory_revision_id intent)
    ∧ target (ep_id ep) = Some (di_authorized_target_fingerprint intent)
    ∧ ep_hardware_confidence ep = HardwareConfidence.Consistent
    ∧ ∃ cb, ep_current_boot ep = Some cb
            ∧ cb_trusted_bootstrap cb = TrustedBootstrapState.Established.

(** The identities the next commit draws are not in use. *)
Definition fresh_ids (db : JobDb) (k : nat) : Prop :=
  jd_attempts db !! draw_uuid k = None
  ∧ find_attempt_by_action db (draw_uuid (S k)) = None
  ∧ jd_audits db !! draw_uuid (S (S k)) = None.

(** What a committed destructive dispatch had established and what it wrote. *)
Lemma destructive_commit w target now id step_id k db' o k' :
  tables_inv (tables (w_db w)) →
  repo_commit_destructive_dispatch (w_db w) id step_id
    (final_dispatch_decision (w_presence w) target now id step_id) k = ((db', Ok o), k') →
  destructive_gate w target now id step_id
  ∧ jd_attempts db' = <[at_id (fo_attempt o) := fo_attempt o]> (jd_attempts (w_db w))
  ∧ fo_attempt o = {| at_id := draw_uuid k; at_job_step_id := step_id;
                      at_action_id := draw_uuid (S k); at_state := AttemptState.Dispatched |}.
Proof.
  intros HI. unfold repo_commit_destructive_dispatch.
  destruct (find_job (w_db w) id) as [job|] eqn:Hj; unfold mbind, gen_bind, mret, gen_ret; [|done].
  apply find_job_Some in Hj as (row & Hrow & ->). simpl.
  destruct (jd_endpoints (w_db w) !! _) as [ep|] eqn:Hep; [|done].
  unfold final_dispatch_decision, mbind, gen_bind, mret, gen_ret.
  destruct (evaluate_final_destructive_dispatch _ k) as [[o'|d] k1] eqn:He; [|done]. simpl.
  apply final_dispatch_Ok in He as (s & intent & Hs & Hps & Hrun & Hearly & Hact & Hint & Hid
    & Hcred & Hpres & Hinv & Htgt & Hhw & Htb & -> & _). simpl in *.
  apply find_step_Some in Hs as [Hs Hjs]; [|done].
  destruct (persist_dispatch _ _ _ _) as [db1|e] eqn:Hp; [|done].
  simpl. destruct (insert_unique _ _ _) as [auds|e]; intros [= <- <- _]. simpl.
  unfold persist_dispatch in Hp. apply result_bind_Ok in Hp as (m' & Hins & [= <-]).
  apply insert_attempt_Ok in Hins as (_ & _ & ->). simpl.
  rewrite (ti_step_key _ HI _ _ Hs). split; [|done]. apply bool_decide_eq_true in Hid.
  exists row, s, intent, ep. rewrite <-Hjs in Hearly. repeat split; try done.
  - by apply earlier_done_iff.
  - by destruct (CredentialChain_dimension _ _).
  - destruct (ep_current_boot ep) as [cb|]; [|done]. apply bool_decide_eq_true in Htb. by exists cb.
Qed.

(** Conversely, the gate lets the dispatch through. *)
Lemma destructive_gate_commits w target now id step_id k :
  tables_inv (tables (w_db w)) → fresh_ids (w_db w) k →
  destructive_gate w target now id step_id →
  ∃ db' o k', repo_commit_destructive_dispatch (w_db w) id step_id
    (final_dispatch_decision (w_presence w) target now id step_id) k = ((db', Ok o), k').
Proof.
  intros HI (Hf1 & Hf2 & Hf3) (row & s & intent & ep & Hrow & Hrun & Hs & Hj & Hps & Hearly & Hact
    & Hint & Hep & Hid & Hcred & Hpres & Hinv & Htgt & Hhw & cb & Hcb & Htb).
  unfold repo_commit_destructive_dispatch.
  assert (find_job (w_db w) id = Some {| job_id := id; job_endpoint_id := jr_endpoint_id row;
    job_state := jr_state row; job_steps := fetch_job_steps (w_db w) id |}) as ->
    by (apply find_job_Some; eauto).
  simpl. rewrite Hep.
  unfold final_dispatch_decision, mbind, gen_bind, mret, gen_ret.
  unfold evaluate_final_destructive_dispatch. simpl.
  rewrite (proj2 (find_step_Some (w_db w) id step_id s HI)) by done.
  rewrite (bool_decide_eq_true_2 _ Hps). simpl. rewrite (bool_decide_eq_true_2 _ Hrun). simpl.
  apply earlier_done_iff in Hearly. rewrite Hj in Hearly. rewrite Hearly. simpl.
  rewrite Hact, Hint, (bool_decide_eq_true_2 _ Hid). simpl. rewrite Hcred. simpl.
  rewrite Hpres. simpl. rewrite (bool_decide_eq_true_2 _ Hinv). simpl.
  rewrite (bool_decide_eq_true_2 _ Htgt). simpl. rewrite (bool_decide_eq_true_2 _ Hhw). simpl.
  rewrite Hcb, (bool_decide_eq_true_2 _ Htb). simpl.
  unfold mbind, gen_bind, new_v4, mret, gen_ret. simpl.
  unfold persist_dispatch, insert_attempt. simpl.
  destruct (existsb _ _) eqn:Hex.
  { apply List.existsb_exists in Hex as ([i a] & Hin & Heq). apply bool_decide_eq_true in Heq.
    rewrite <-list_elem_of_In, elem_of_map_to_list in Hin. simpl in *.
    unfold find_attempt_by_action in Hf2. exfalso. eapply List.find_none in Hf2.
    - apply bool_decide_eq_false in Hf2. by apply Hf2.
    - rewrite <-list_elem_of_In. apply elem_of_values. eauto. }
  unfold insert_unique. simpl. rewrite Hf1. simpl. rewrite Hf3. eauto.
Qed.

(** C4. The final gate is exact. In every reachable state in which the next drawn
    identities are unused, a destructive dispatch is committed if and only if the
    technical resources it claims are available and every precondition of
    [destructive_gate] holds at that moment; no precondition compensates for another. *)
Theorem destructive_dispatch_exact (w : World) (k : nat)
    (target : EndpointId → option TargetFingerprint) (now : Instant)
    (id : JobId) (step_id : JobStepId) (claims : list Arbiter.ResourceClaim) :
  reachable w k → fresh_ids (w_db w) k →
  (∃ o reservation, (service_commit_destructive_dispatch w target now id step_id claims k).1.2
                    = Ok (FinalDispatchResult.Committed o reservation))
  ↔ is_ok (Arbiter.acquire (w_arbiter w) claims).2 = true
    ∧ destructive_gate w target now id step_id.
Proof.
  intros HI%reachable_inv Hfresh. unfold service_commit_destructive_dispatch.
  destruct (Arbiter.acquire (w_arbiter w) claims) as [arb [res|e]]; simpl.
  2: { split; [by intros (? & ? & ?)|by intros [? _]]. }
  unfold mbind, gen_bind, mret, gen_ret. split.
  - destruct (repo_commit_destructive_dispatch _ _ _ _ _) as [[db r] k1] eqn:Hr.
    intros (o & rsv & Ho). split; [done|]. destruct r as [o'|e].
    + by apply destructive_commit in Hr as [? _].
    + by destruct e.
  - intros [_ Hg]. destruct (destructive_gate_commits _ _ _ _ _ _ HI Hfresh Hg) as (db & o & k1 & ->).
    simpl. eauto.
Qed.

(** *** Where Attempts come from *)

Lemma update_job_state_attempts db id st db' :
  update_job_state db id st = Ok db' → jd_attempts db' = jd_attempts db.
Proof. unfold update_job_state. intros. by repeat (case_match; simplify_eq/=). Qed.

Lemma persist_applied_attempts db ap audit db' aid :
  persist_applied db ap audit = Ok db' → jd_attempts db !! aid = None →
  jd_attempts db' !! aid = None.
Proof.
  unfold persist_applied. intros (db3 & Hup & Hrest)%result_bind_Ok Hn.
  apply result_bind_Ok in Hrest as (evs & _ & Hrest).
  apply result_bind_Ok in Hrest as (auds & _ & [= <-]). simpl.
  apply update_job_state_attempts in Hup as ->. simpl. by apply lookup_alter_None.
Qed.

Lemma evidence_attempts db action ep decide k db' r k' aid :
  repo_apply_action_evidence db action ep decide k = ((db', r), k') →
  jd_attempts db !! aid = None → jd_attempts db' !! aid = None.
Proof.
  unfold repo_apply_action_evidence, mbind, gen_bind, mret, gen_ret.
  intros He Hn. repeat (case_match; simplify_eq/=; try done). by eapply persist_applied_attempts.
Qed.

Lemma reconcile_each_attempts db ids aid :
  jd_attempts db !! aid = None →
  jd_attempts (reconcile_each db mark_awaiting_reconciliation ids).1 !! aid = None.
Proof.
  revert db; induction ids as [|c ids IH]; intros db Hn; simpl; [done|].
  destruct (jd_attempts db !! c ≫= _) as [a|]; [|by apply IH].
  specialize (IH (update_attempt_state db (at_id a) (at_state a))).
  destruct (reconcile_each (update_attempt_state _ _ _) _ _) as [db' out]. simpl in *.
  apply IH. by apply lookup_alter_None.
Qed.

(** A dispatch that was not committed adds no Attempt. *)
Lemma destructive_no_commit db id step_id decide k db' e k' :
  repo_commit_destructive_dispatch db id step_id decide k = ((db', Err e), k') →
  jd_attempts db' = jd_attempts db.
Proof.
  unfold repo_commit_destructive_dispatch, mbind, gen_bind, mret, gen_ret. intros Hr.
  repeat (case_match; simplify_eq/=; try done).
  match goal with d : FinalDispatchDenial |- _ => by destruct (fd_pending_job_step d) end.
Qed.

Lemma transfer_no_commit db id step_id t decide k db' e k' :
  repo_commit_transfer_dispatch db id step_id t decide k = ((db', Err e), k') →
  jd_attempts db' = jd_attempts db.
Proof.
  unfold repo_commit_transfer_dispatch, mbind, gen_bind, mret, gen_ret. intros Hr.
  repeat (case_match; simplify_eq/=; try done).
  match goal with d : TransferDispatchDenial |- _ => by destruct (td_pending_job_step d) end.
Qed.

(** The conditions of a non-destructive dispatch. *)
Definition transfer_gate (w : World) (id : JobId) (step_id : JobStepId) (transfer_id : TransferId)
  : Prop :=
  ∃ row s t,
    jd_jobs (w_db w) !! id = Some row ∧ jr_state row = JobState.Running
    ∧ jd_steps (w_db w) !! step_id = Some s ∧ js_job_id s = id
    ∧ js_state s = JobStepState.PreconditionsSatisfied
    ∧ earlier_done (tables (w_db w)) s
    ∧ step_has_active_attempt (w_db w) step_id = false
    ∧ js_destructive_intent s = None
    ∧ jd_transfers (w_db w) !! transfer_id = Some t
    ∧ tr_job_id t = id ∧ tr_job_step_id t = step_id ∧ tr_endpoint_id t = jr_endpoint_id row.

Lemma transfer_commit w id step_id transfer_id k db' o k' :
  tables_inv (tables (w_db w)) →
  repo_commit_transfer_dispatch (w_db w) id step_id transfer_id evaluate_transfer_dispatch k
    = ((db', Ok o), k') →
  transfer_gate w id step_id transfer_id
  ∧ jd_attempts db' = <[at_id (tdo_attempt o) :=
      {| at_id := at_id (tdo_attempt o); at_job_step_id := step_id;
         at_action_id := at_action_id (tdo_attempt o); at_state := AttemptState.Dispatched |}]>
      (jd_attempts (w_db w)).
Proof.
  intros HI. unfold repo_commit_transfer_dispatch.
  destruct (find_job (w_db w) id) as [job|] eqn:Hj; unfold mbind, gen_bind, mret, gen_ret; [|done].
  apply find_job_Some in Hj as (row & Hrow & ->). simpl.
  destruct (jd_transfers (w_db w) !! _) as [t|] eqn:Ht; [|done].
  destruct (evaluate_transfer_dispatch _ k) as [[o'|d] k1] eqn:He; [|done]. simpl.
  pose proof He as Hcorr.
  apply transfer_dispatch_Ok in He as (s & Hs & Hps & Hint & Hrun & Hearly & Hact & _ & _ & Hst).
  simpl in *. pose proof Hs as Hs0. apply find_step_Some in Hs as [Hs Hjs]; [|done].
  destruct (persist_dispatch _ _ _ _) as [db1|e] eqn:Hp; [|done]. simpl.
  destruct (persist_attempt_binding _ _ _) as [db2|e] eqn:Hb; intros [= <- <- _].
  unfold persist_dispatch in Hp. apply result_bind_Ok in Hp as (m' & Hins & [= <-]).
  apply insert_attempt_Ok in Hins as (_ & _ & ->). simpl in *. rewrite Hst in Hb. split.
  - exists row, s, t. rewrite <-Hjs in Hearly. apply earlier_done_iff in Hearly.
    unfold evaluate_transfer_dispatch in Hcorr. simpl in Hcorr. rewrite Hs0 in Hcorr.
    repeat (case_match; simplify_eq/=; try done). reflect_bools. repeat split; done.
  - unfold persist_attempt_binding in Hb. by repeat (case_match; simplify_eq/=).
Qed.

Definition commits (o : JobOp.t) : bool :=
  match o with JobOp.CommitDestructive _ _ _ _ _ | JobOp.CommitTransfer _ _ _ _ => true | _ => false end.

Lemma request_attempts pre w id operator now ok k w' r k' :
  service_request_cancellation pre w id operator now ok k = ((w', r), k') →
  jd_attempts (w_db w') = jd_attempts (w_db w).
Proof.
  unfold service_request_cancellation, repo_request_cancellation, mbind, gen_bind, mret, gen_ret.
  intros Hrun. repeat (case_match; simplify_eq/=; try done);
    match goal with H : _ = Ok _ |- _ => apply result_bind_Ok in H as (? & ?Hu & ?H) end;
    apply update_job_state_attempts in Hu;
    repeat match goal with H : _ ≫= _ = Ok _ |- _ => apply result_bind_Ok in H as (? & _ & H) end;
    by simplify_eq/=.
Qed.

Lemma settled_attempts w db r aid :
  (jd_attempts (w_db w) !! aid = None → jd_attempts db !! aid = None) →
  jd_attempts (w_db w) !! aid = None → jd_attempts (w_db (settle w db r).1) !! aid = None.
Proof. intros Hd Hn. rewrite settle_db. auto. Qed.

(** No other call adds an Attempt. *)
Lemma other_calls_add_none w o k w' k' aid :
  commits o = false → run_job_op w o k = (w', k') →
  jd_attempts (w_db w) !! aid = None → jd_attempts (w_db w') !! aid = None.
Proof.
  intros Hc Hrun Hn. destruct o; simpl in Hc, Hrun; try done;
    unfold mbind, gen_bind, mret, gen_ret in Hrun; try (by simplify_eq/=).
  - unfold service_create_workflow, repo_create_workflow, mbind, gen_bind, mret, gen_ret in Hrun.
    repeat (case_match; simplify_eq/=; try done).
    match goal with H : _ = Ok _ |- _ => apply result_bind_Ok in H as (? & _ & H);
      apply result_bind_Ok in H as (? & _ & [= <-]) end. done.
  - unfold service_admit, repo_admit_job, mbind, gen_bind, mret, gen_ret in Hrun.
    repeat (case_match; simplify_eq/=; try done).
    match goal with H : update_job_state _ _ _ = Ok _ |- _ =>
      apply update_job_state_attempts in H end. congruence.
  - unfold service_satisfy_current_step_preconditions, repo_satisfy_current_step_preconditions
      in Hrun. by repeat (case_match; simplify_eq/=; try done).
  - unfold service_authorize, repo_authorize_destructive_intent in Hrun.
    by repeat (case_match; simplify_eq/=; try done).
  - unfold service_dispatch in Hrun. by repeat (case_match; simplify_eq/=; try done).
  - unfold service_apply_evidence, mbind, gen_bind, mret, gen_ret in Hrun.
    destruct (repo_apply_action_evidence _ _ _ _ _) as [[db r] k1] eqn:Hr.
    apply (f_equal fst) in Hrun. change ((settle w db r).1 = w') in Hrun. subst w'.
    apply settled_attempts; [by eapply evidence_attempts|done].
  - destruct (service_request_cancellation _ _ _ _ _ _ _) as [[w1 r] k1] eqn:Hr.
    apply request_attempts in Hr. simplify_eq/=. congruence.
  - unfold service_apply_cancel_ack, mbind, gen_bind, mret, gen_ret in Hrun.
    destruct (repo_apply_cancel_ack _ _ _ _ _) as [[db r] k1] eqn:Hr.
    apply (f_equal fst) in Hrun. change ((settle w db r).1 = w') in Hrun. subst w'.
    apply settled_attempts; [by eapply evidence_attempts|done].
  - unfold service_mark_endpoint_uncertain, repo_mark_endpoint_active_attempt_uncertain in Hrun.
    repeat (case_match; simplify_eq/=; try done). by apply lookup_alter_None.
  - unfold service_reconcile_on_startup, repo_reconcile_all_active_attempts_on_startup in Hrun.
    pose proof (reconcile_each_attempts (w_db w) (at_id <$> List.filter (λ a, attempt_in_flight
      (at_state a)) (map_to_list (jd_attempts (w_db w))).*2) aid Hn) as Hk.
    destruct (reconcile_each _ _ _). by simplify_eq/=.
  - unfold service_apply_status_report, mbind, gen_bind, mret, gen_ret in Hrun.
    destruct (repo_apply_status_report _ _ _ _ _) as [[db r] k1] eqn:Hr.
    apply (f_equal fst) in Hrun. change ((settle w db r).1 = w') in Hrun. subst w'.
    apply settled_attempts; [by eapply evidence_attempts|done].
  - unfold service_close_indeterminate, repo_close_indeterminate, mbind, gen_bind, mret, gen_ret
      in Hrun.
    repeat (case_match; simplify_eq/=; try done). rewrite take_and_release_db. simpl.
    by eapply persist_applied_attempts.
Qed.

(** An Attempt, the only thing an action can be sent for, comes into being in
    exactly two ways, whatever call is made in whatever reachable state: a destructive
    dispatch whose full gate held in the state it was committed in, or a transfer
    dispatch of a step without destructive intent, correlated with its Transfer. It is
    born [Dispatched] for the step that was dispatched. *)
Theorem attempts_only_by_dispatch (w : World) (k : nat) (o : JobOp.t) (w' : World) (k' : nat)
    (aid : AttemptId) (a : Attempt) :
  reachable w k → run_job_op w o k = (w', k') →
  jd_attempts (w_db w) !! aid = None → jd_attempts (w_db w') !! aid = Some a →
  at_state a = AttemptState.Dispatched
  ∧ ((∃ target now id claims, o = JobOp.CommitDestructive target now id (at_job_step_id a) claims
        ∧ destructive_gate w target now id (at_job_step_id a))
     ∨ (∃ id transfer claims, o = JobOp.CommitTransfer id (at_job_step_id a) transfer claims
          ∧ transfer_gate w id (at_job_step_id a) transfer)).
Proof.
  intros HI%reachable_inv Hrun Hn Ha.
  destruct (commits o) eqn:Hc; [|by rewrite (other_calls_add_none _ _ _ _ _ _ Hc Hrun Hn) in Ha].
  destruct o; try done; simpl in Hrun; unfold mbind, gen_bind, mret, gen_ret in Hrun.
  - unfold service_commit_destructive_dispatch in Hrun.
    destruct (Arbiter.acquire _ _) as [arb [res|e]]; simpl in Hrun; [|by simplify_eq].
    unfold mbind, gen_bind, mret, gen_ret in Hrun.
    destruct (repo_commit_destructive_dispatch _ _ _ _ _) as [[db [out|e]] k1] eqn:Hr.
    + simplify_eq/=. apply destructive_commit in Hr as (Hg & Hat & Hout); [|done].
      rewrite Hat in Ha. apply lookup_insert_Some in Ha as [[_ <-]|[_ Ha]]; [|congruence].
      rewrite Hout. simpl. split; [done|]. left. eauto 10.
    + apply destructive_no_commit in Hr. destruct e; simplify_eq/=; congruence.
  - unfold service_commit_transfer_dispatch in Hrun.
    destruct (Arbiter.acquire _ _) as [arb [res|e]]; simpl in Hrun; [|by simplify_eq].
    unfold mbind, gen_bind, mret, gen_ret in Hrun.
    destruct (repo_commit_transfer_dispatch _ _ _ _ _ _) as [[db [out|e]] k1] eqn:Hr.
    + simplify_eq/=. apply transfer_commit in Hr as (Hg & Hat); [|done].
      rewrite Hat in Ha. apply lookup_insert_Some in Ha as [[_ <-]|[_ Ha]]; [|congruence].
      simpl. split; [done|]. right. eauto 10.
    + apply transfer_no_commit in Hr. destruct e; simplify_eq/=; congruence.
Qed.

(** ** Cancellation *)

(** What [request] did, read off its result. *)
Lemma request_result pre w id operator now ok k w' r k' :
  tables_inv (tables (w_db w)) →
  service_request_cancellation pre w id operator now ok k = ((w', Ok r), k') →
  ∃ j facts row, cancellation_pass (pre j) (w_db w) id = CancellationPass.Locked facts
    ∧ jd_jobs (w_db w) !! id = Some row
    ∧ match r with
      | CancellationRequestResult.CompletedImmediately =>
          rc_active_attempt facts = None ∧ jr_state row = JobState.Running
          ∧ jr_state <$> jd_jobs (w_db w') !! id = Some JobState.Cancelled
      | CancellationRequestResult.EnteredCancelling _ =>
          is_Some (rc_active_attempt facts) ∧ jr_state row = JobState.Running
          ∧ jr_state <$> jd_jobs (w_db w') !! id = Some JobState.Cancelling
      | CancellationRequestResult.AlreadyCancelling =>
          jr_state row = JobState.Cancelling ∧ w_db w' = w_db w
      | CancellationRequestResult.AlreadyTerminal =>
          job_terminal (jr_state row) = true ∧ w_db w' = w_db w
      end.
Proof.
  intros HI. unfold service_request_cancellation, repo_request_cancellation.
  destruct (cancellation_loop _ _ _ _ _) as [facts|e] eqn:Hloop;
    unfold mbind, gen_bind, mret, gen_ret; [|done].
  apply cancellation_loop_Ok in Hloop as [j Hp].
  pose proof (cancellation_pass_Locked _ _ _ _ HI Hp) as [Hj _].
  apply find_job_Some in Hj as (row & Hrow & Hj).
  unfold request_decision, request_cancellation, mbind, gen_bind, mret, gen_ret. rewrite Hj. simpl.
  intros Hr. exists j, facts, row. split; [done|]. split; [done|].
  destruct (jr_state row) eqn:Hst; simplify_eq/=; try done.
  destruct (rc_active_attempt facts) as [a|]; simpl in Hr;
    repeat (case_match; simplify_eq/=; try done);
    match goal with H : _ = Ok _ |- _ => apply result_bind_Ok in H as (? & ?Hu & ?H) end;
    repeat match goal with H : result_bind _ _ _ _ = Ok _ |- _ => apply result_bind_Ok in H as (? & _ & H) end;
    simplify_eq/=; (split; [by eauto|]; split; [done|]);
    eapply update_job_state_tables in Hu as [Ht _]; try done;
    apply (f_equal t_jobs) in Ht; simpl in Ht; rewrite Ht, lookup_insert_eq; done.
Qed.

(** The state an earlier scan saw extends to the present. *)
Lemma candidate_still_there db0 db id c a :
  extends (tables db0) (tables db) → tables_inv (tables db0) → tables_inv (tables db) →
  c ∈ joined_attempts db0 (λ step a, bool_decide (js_job_id step = id)
        && bool_decide (js_state step = JobStepState.Dispatching) && attempt_active (at_state a)) →
  jd_attempts db !! c = Some a → attempt_active (at_state a) = true →
  active_for (tables db) id a.
Proof.
  intros (_ & Hsteps & Hatts) HI0 HI Hc Ha Hact.
  apply joined_attempts_elem in Hc as (a0 & s0 & Ha0 & Hs0 & Hp); [|done]. reflect_bools.
  apply Hatts in Ha0 as (a' & Ha' & Hj & _). simpl in Ha'. simplify_eq.
  apply Hsteps in Hs0 as (s & Hs & _ & Hjob & _). simpl in Hs.
  exists c, s. rewrite Hj. repeat split; [done|done|done|congruence].
Qed.

(** C33. Cancellation never races with dispatch. Whatever earlier states its
    unlocked scans happened to read, a request that completes a Job at once found no
    Attempt of it in flight at the moment it committed, and a request that enters
    Cancelling found the one Attempt it must wait for; other answers change nothing. *)
Theorem cancellation_race_free (w : World) (k : nat) (seen : nat → World) (id : JobId)
    (operator : Actor.t) (now : Instant) (ok : bool) (w' : World)
    (r : CancellationRequestResult.t) (k' : nat) :
  (∀ i, ∃ ki, reachable (seen i) ki ∧ reaches true (seen i) ki w k) →
  service_request_cancellation (λ i, w_db (seen i)) w id operator now ok k = ((w', Ok r), k') →
  match r with
  | CancellationRequestResult.CompletedImmediately =>
      quiet (tables (w_db w)) id
      ∧ jr_state <$> jd_jobs (w_db w') !! id = Some JobState.Cancelled
  | CancellationRequestResult.EnteredCancelling _ =>
      (∃ a, active_for (tables (w_db w)) id a)
      ∧ jr_state <$> jd_jobs (w_db w') !! id = Some JobState.Cancelling
  | _ => w_db w' = w_db w
  end.
Proof.
  intros Hseen Hr.
  assert (tables_inv (tables (w_db w))) as HI.
  { destruct (Hseen 0) as (k0 & Hr0 & Hrw). by eapply reaches_refines, reachable_inv. }
  apply request_result in Hr as (j & facts & row & Hp & Hrow & Hres); [|done].
  apply cancellation_pass_Locked in Hp as [_ Hact]; [|done].
  destruct r; [| | by destruct Hres..].
  - destruct Hres as ([a Hsome] & _ & Hst). rewrite Hsome in Hact.
    destruct Hact as (Hactive & c & Hc & Ha). split; [|done]. exists a.
    destruct (Hseen j) as (kj & Hrj & Hrw). pose proof (reachable_inv _ _ Hrj) as HIj.
    apply reaches_refines in Hrw as [_ Hprot]; [|done].
    eapply candidate_still_there; eauto using protocol_extends.
  - destruct Hres as (Hnone & _ & Hst). by rewrite Hnone in Hact.
Qed.

Lemma joined_attempts_NoDup db p :
  tables_inv (tables db) → NoDup (joined_attempts db p).
Proof.
  intros HI. unfold joined_attempts.
  assert (∀ l : list (AttemptId * Attempt), NoDup l.*1 →
    (∀ i a, (i, a) ∈ l → at_id a = i) →
    NoDup (omap (λ a, step ← jd_steps db !! at_job_step_id a;
                 if p step a then Some (at_id a) else None) l.*2)
    ∧ ∀ x, x ∈ omap (λ a, step ← jd_steps db !! at_job_step_id a;
                 if p step a then Some (at_id a) else None) l.*2 → x ∈ l.*1) as Hgen.
  { induction l as [|[i a] l IH]; intros Hnd Hkey.
    { split; [constructor|]. intros x Hx. simpl in Hx. by apply elem_of_nil in Hx. }
    apply NoDup_cons in Hnd as [Hi Hnd]. destruct IH as [IH1 IH2];
      [done|intros; apply Hkey; by right|]. simpl in *.
    destruct (jd_steps db !! at_job_step_id a) as [s|]; simpl.
    2: { split; [done|]. intros x Hx. right. by apply IH2. }
    destruct (p s a); simpl.
    2: { split; [done|]. intros x Hx. right. by apply IH2. }
    pose proof (Hkey i a ltac:(by left)) as Hk. split.
    - constructor; [|done]. rewrite Hk. intros Hx. by apply Hi, IH2.
    - intros x [->|Hx]%elem_of_cons; [rewrite Hk; by left|]. right. by apply IH2. }
  apply Hgen; [apply NoDup_fst_map_to_list|].
  intros i a Ha. apply elem_of_map_to_list in Ha. by apply (ti_attempt_key _ HI).
Qed.

(** Two rows would be two active Attempts of one Job. *)
Lemma one_candidate db id :
  tables_inv (tables db) → ∃ rows, active_attempt_candidate_rows db id = Ok rows.
Proof.
  intros HI. unfold active_attempt_candidate_rows.
  pose proof (joined_attempts_NoDup db (λ step a, bool_decide (js_job_id step = id)
    && bool_decide (js_state step = JobStepState.Dispatching) && attempt_active (at_state a)) HI)
    as Hnd.
  pose proof (λ c Hc, joined_attempts_elem db (λ step a, bool_decide (js_job_id step = id)
    && bool_decide (js_state step = JobStepState.Dispatching) && attempt_active (at_state a)) c Hc HI)
    as Hel.
  destruct (joined_attempts _ _) as [|c1 [|c2 rest]]; simpl; [by eauto|by eauto|].
  apply NoDup_cons in Hnd as [Hne _]. destruct Hne. rewrite elem_of_cons. left.
  destruct (Hel c1 ltac:(by left)) as (a1 & s1 & Ha1 & Hs1 & Hp1).
  destruct (Hel c2 ltac:(by right; left)) as (a2 & s2 & Ha2 & Hs2 & Hp2). reflect_bools.
  assert (a1 = a2) as <-.
  { eapply (active_unique (tables db) id); [done| |]; eexists _, _; eauto. }
  rewrite <-(ti_attempt_key _ HI _ _ Ha1). by rewrite <-(ti_attempt_key _ HI _ _ Ha2).
Qed.

(** An undisturbed cancellation request never gives up: in every reachable
    state, the first pass whose scan reads the current state resolves the request for
    an existing Job, so neither the retry budget nor the single-Attempt invariant
    check of the scan can fail it. *)
Theorem cancellation_resolves (w : World) (k : nat) (id : JobId) (row : JobRow) (n i : nat) :
  reachable w k → jd_jobs (w_db w) !! id = Some row → 2 ≤ n →
  ∃ facts, cancellation_loop (λ _, w_db w) (w_db w) id n i = Ok facts
           ∧ find_job (w_db w) id = Some (rc_job facts)
           ∧ (rc_active_attempt facts = None ↔ quiet (tables (w_db w)) id).
Proof.
  intros HI%reachable_inv Hrow Hn. destruct n as [|[|n]]; [lia..|]. cbn [cancellation_loop].
  destruct (one_candidate (w_db w) id HI) as [rows Hrows].
  assert (∃ job, find_job (w_db w) id = Some job) as [job Hjob]
    by (eexists; apply find_job_Some; eauto).
  unfold cancellation_pass. rewrite Hrows, Hrow, Hjob. destruct rows as [|c rest].
  - eexists. split; [done|]. split; [done|]. simpl. split; [|done].
    intros _. by apply no_candidate_quiet.
  - assert (c ∈ joined_attempts (w_db w) (λ step a, bool_decide (js_job_id step = id)
      && bool_decide (js_state step = JobStepState.Dispatching) && attempt_active (at_state a))) as Hc.
    { unfold active_attempt_candidate_rows in Hrows. case_match; [done|].
      injection Hrows as ->. by left. }
    apply joined_attempts_elem in Hc as (a & s & Ha & Hs & Hp); [|done]. reflect_bools.
    rewrite Ha. rewrite H0. eexists. split; [done|]. split; [done|]. simpl. split; [done|].
    intros Hq. destruct (Hq a). by exists c, s.
Qed.

(** ** Evidence *)

Lemma find_attempt_unique db action id a :
  tables_inv (tables db) → jd_attempts db !! id = Some a → at_action_id a = action →
  find_attempt_by_action db action = Some a.
Proof.
  intros HI Ha Hact. unfold find_attempt_by_action. apply find_Some_iff_unique.
  - intros y z [i Hy]%elem_of_values [j Hz]%elem_of_values. rewrite !bool_decide_eq_true.
    intros H1 H2. assert (i = j) as -> by (eapply (ti_action _ HI); eauto; congruence). congruence.
  - rewrite elem_of_values, bool_decide_eq_true. eauto.
Qed.

(** The state in which each evidence leaves the Attempt it is applied to. *)
Definition evidence_state (e : ActionEvidence.t) : AttemptState.t :=
  match e with
  | ActionEvidence.AckAccepted => AttemptState.InProgress
  | ActionEvidence.AckRejected => AttemptState.Rejected
  | ActionEvidence.ResultSucceeded => AttemptState.Succeeded
  | ActionEvidence.ResultFailed => AttemptState.Failed
  end.

Lemma evidence_state_applied job step a e now k ap k' :
  apply_action_evidence job step a e now k = (ActionEvidenceOutcome.Applied ap, k') →
  at_state (ap_attempt ap) = evidence_state e.
Proof.
  unfold apply_action_evidence, terminal_failure, terminal_success, mbind, gen_bind, mret, gen_ret.
  unfold new_v4. destruct e, (at_state a); intros He; repeat case_match; by simplify_eq/=.
Qed.

Lemma evidence_state_noop job step a e now k :
  at_state a = evidence_state e →
  apply_action_evidence job step a e now k = (ActionEvidenceOutcome.NoOp, k).
Proof. intros Hst. unfold apply_action_evidence. rewrite Hst. by destruct e. Qed.

(** Applying evidence leaves the Attempt findable, in its new state. *)
Lemma applied_relocks db facts ap audit action ep db' stray :
  tables_inv (tables db) → lock_by_action db action ep = Ok facts →
  evidence_effect (lf_job facts) (lf_job_step facts) (lf_attempt facts) ap →
  persist_applied db ap audit = Ok db' → wf_step stray (tables db) (tables db') →
  ∃ facts', lock_by_action db' action ep = Ok facts'
            ∧ lf_attempt facts' = ap_attempt ap.
Proof.
  intros HI Hlock He Hp Hstep. pose proof (wf_step_inv _ _ _ Hstep HI) as HI'.
  apply lock_by_action_Ok in Hlock as (Hl & Hact & Hep); [|done].
  pose proof Hl as (Ha & Hs & Hjob). apply find_job_Some in Hjob as (row & Hrow & Hjob).
  destruct (effect_identity _ _ _ _ He) as (Hid & Hsame & Hjid).
  pose proof (persist_applied_tables _ _ _ _ _ _ _ _ HI Hl Hrow Hid Hsame Hjid Hp) as [Htab _].
  assert (attempt_with (lf_attempt facts) (at_state (ap_attempt ap)) = ap_attempt ap) as Hap
    by (destruct He; simpl; [done|done|by destruct (lf_attempt facts)]).
  assert (jd_attempts db' !! at_id (lf_attempt facts) = Some (ap_attempt ap)) as Ha'.
  { apply (f_equal t_attempts) in Htab. simpl in Htab. by rewrite Htab, lookup_insert_eq, Hap. }
  assert (at_action_id (ap_attempt ap) = action
          ∧ at_job_step_id (ap_attempt ap) = at_job_step_id (lf_attempt facts)) as [Hact' Hstep'].
  { by rewrite <-Hap. }
  apply (f_equal t_steps) in Htab as Hts. apply (f_equal t_jobs) in Htab as Htj. simpl in *.
  unfold lock_by_action. rewrite (find_attempt_unique _ _ _ _ HI' Ha' Hact'), Hstep', Hts.
  rewrite lookup_insert_eq. simpl. unfold find_job. rewrite Htj, lookup_insert_eq. simpl.
  rewrite bool_decide_eq_true_2; [by eauto|]. by rewrite <-Hep, Hjob.
Qed.

Lemma take_and_release_settled w id :
  w_registry (take_and_release w id) !! id = None
  ∧ (∀ r, w_registry w !! id = Some r →
       Arbiter.ra_reservations (w_arbiter (take_and_release w id)) !! r = None).
Proof.
  unfold take_and_release. simpl. destruct (w_registry w !! id) as [r|] eqn:Hr; simpl.
  - rewrite lookup_delete_eq. split; [done|]. intros r' [= <-]. unfold Arbiter.release.
    destruct (Arbiter.ra_reservations (w_arbiter w) !! r) eqn:He; simpl; [|done].
    by rewrite lookup_delete_eq.
  - rewrite lookup_delete_eq. done.
Qed.

(** Evidence is idempotent and settles once. After evidence about an action has
    been applied, delivering it again at any later time changes nothing at all,
    durable state, reservations and registry included; and evidence that ended the
    Attempt removed its reservation mapping and gave the reservation back. *)
Theorem evidence_idempotent (w : World) (k : nat) (action : ActionId) (ep : EndpointId)
    (e : ActionEvidence.t) (now : Instant) (w' : World) (ap : Applied) (k' : nat) :
  reachable w k →
  service_apply_evidence w action ep e now k = ((w', Ok (EvidenceResult.Applied ap)), k') →
  (∀ now' k2, service_apply_evidence w' action ep e now' k2 = ((w', Ok EvidenceResult.NoOp), k2))
  ∧ (ap_terminal ap = true →
     w_registry w' !! at_id (ap_attempt ap) = None
     ∧ ∀ r, w_registry w !! at_id (ap_attempt ap) = Some r →
            Arbiter.ra_reservations (w_arbiter w') !! r = None).
Proof.
  intros HI%reachable_inv. unfold service_apply_evidence at 1, mbind, gen_bind, mret, gen_ret.
  unfold repo_apply_action_evidence, mbind, gen_bind, mret, gen_ret.
  destruct (lock_by_action (w_db w) action ep) as [facts|err] eqn:Hlock; [|done].
  unfold evidence_decision at 1, mbind, gen_bind, mret, gen_ret.
  destruct (apply_action_evidence _ _ _ _ _ k) as [[a| |] ka] eqn:Hev; [|done..].
  destruct (terminal_audit _ _ _ _ _) as [au kt].
  destruct (persist_applied _ _ _) as [db1|err] eqn:Hp; [|done].
  intros Hr. assert (Ok (EvidenceResult.Applied a) = Ok (EvidenceResult.Applied ap)
                     :> result JobError.t EvidenceResult.t) as [= ->]
    by exact (f_equal (λ p, p.1.2) Hr).
  assert (w' = (settle w db1 (Ok (EvidenceResult.Applied ap))).1) as ->
    by (symmetry; exact (f_equal (λ p, p.1.1) Hr)).
  pose proof (action_evidence_effect _ _ _ _ _ _ _ _ Hev) as He.
  pose proof (evidence_state_applied _ _ _ _ _ _ _ _ Hev) as Hst.
  assert (wf_step true (tables (w_db w)) (tables db1)) as Hstep.
  { apply lock_by_action_Ok in Hlock as [Hl _]; [|done].
    eapply persist_applied_step; [done|done|exact He|by left|exact Hp]. }
  split.
  - intros now' k2. destruct (applied_relocks _ _ _ _ _ _ _ _ HI Hlock He Hp Hstep) as (f' & Hl' & Hat).
    unfold service_apply_evidence, mbind, gen_bind, mret, gen_ret.
    unfold repo_apply_action_evidence. rewrite settle_db, Hl'.
    unfold evidence_decision, mbind, gen_bind, mret, gen_ret.
    rewrite evidence_state_noop by (by rewrite Hat). f_equal.
    unfold settle. simpl. destruct (ap_terminal ap); simpl; [|done]. f_equal.
    unfold take_and_release. simpl. by destruct (w_registry w !! at_id (ap_attempt ap)).
  - intros Hterm. unfold settle. cbn [fst]. rewrite Hterm.
    exact (take_and_release_settled (with_db w db1) (at_id (ap_attempt ap))).
Qed.

(** Evidence about somebody else's action is indistinguishable from evidence
    about no action at all: for each kind of evidence, an Endpoint that names an action
    of a Job on another Endpoint gets exactly the answer an unknown action gets, and
    nothing changes. *)
Theorem foreign_evidence_rejected (w : World) (k : nat) (action : ActionId) (ep : EndpointId)
    (now : Instant) (e : ActionEvidence.t) (ack : CancelAckEvidence.t) (s : StatusReportEvidence.t) :
  reachable w k → repo_action_targets_endpoint (w_db w) action ep = false →
  service_apply_evidence w action ep e now k = ((w, Err JobError.UnknownAction), k)
  ∧ service_apply_cancel_ack w action ep ack now k = ((w, Err JobError.UnknownAction), k)
  ∧ service_apply_status_report w action ep s now k = ((w, Err JobError.UnknownAction), k).
Proof.
  intros HI%reachable_inv Hno.
  pose proof (foreign_lock _ _ _ HI Hno) as Hlock.
  assert (with_db w (w_db w) = w) as Hw by by destruct w.
  unfold service_apply_evidence, service_apply_cancel_ack, service_apply_status_report.
  unfold repo_apply_cancel_ack, repo_apply_status_report, repo_apply_action_evidence.
  rewrite Hlock. unfold mbind, gen_bind, mret, gen_ret, settle. simpl. by rewrite Hw.
Qed.

(** ** Creation *)

Lemma as_i32_small i : (Z.of_nat i < 2 ^ 31)%Z → as_i32 i = Z.of_nat i.
Proof. intros Hi. unfold as_i32. rewrite Z.mod_small by lia. lia. Qed.

(** A list whose numbering the column accepts is numbered without wrapping. *)
Lemma numbering_fits steps :
  (∀ i s, steps !! i = Some s → js_order s = as_i32 i) → (∀ s, s ∈ steps → (0 ≤ js_order s)%Z) →
  ∀ i, i < length steps → as_i32 i = Z.of_nat i.
Proof.
  intros Hord Hpos i Hi. apply as_i32_small.
  destruct (Z.lt_ge_cases (Z.of_nat i) (2 ^ 31)) as [|Hge]; [done|].
  destruct (Z_of_nat_complete (2 ^ 31)) as [j Hj]; [lia|].
  destruct (lookup_lt_is_Some_2 steps j) as [s Hs]; [lia|].
  pose proof (Hpos s ltac:(by eapply list_elem_of_lookup_2)) as Hneg.
  rewrite (Hord _ _ Hs) in Hneg. unfold as_i32 in Hneg. rewrite <-Hj in Hneg. done.
Qed.

Lemma create_steps_lookup job o n k steps k' :
  create_steps job o n k = (steps, k') →
  length steps = n
  ∧ ∀ i s, steps !! i = Some s →
      s = {| js_id := draw_uuid (k + i); js_job_id := job; js_order := as_i32 (o + i);
             js_state := JobStepState.Pending; js_destructive_intent := None;
             js_failure_reason := None |}.
Proof.
  revert o k steps k'; induction n as [|n IH]; intros o k steps k'; simpl; run_gen.
  - by intros [= <- _].
  - destruct (create_steps job (S o) n (S k)) as [rest kr] eqn:Hr. intros [= <- _].
    destruct (IH _ _ _ _ Hr) as [Hlen Hl]. split; [simpl; by rewrite Hlen|].
    intros [|i] s Hs; simpl in Hs; [by rewrite !Nat.add_0_r; simplify_eq|].
    rewrite (Hl _ _ Hs). by rewrite !Nat.add_succ_r.
Qed.

(** The row [insert_step] stores. *)
Definition inserted (s : JobStep) : JobStep :=
  {| js_id := js_id s; js_job_id := js_job_id s; js_order := js_order s; js_state := js_state s;
     js_destructive_intent := None; js_failure_reason := None |}.

(** Inserted rows are there, with orders the column accepts, and nothing else is. *)
Lemma insert_steps_present steps m m' :
  insert_steps steps m = Ok m' →
  (∀ id x, m !! id = Some x → m' !! id = Some x)
  ∧ (∀ id x, m' !! id = Some x → m !! id = Some x ∨ ∃ s, s ∈ steps ∧ x = inserted s)
  ∧ NoDup (js_id <$> steps)
  ∧ ∀ s, s ∈ steps → (0 ≤ js_order s)%Z ∧ m !! js_id s = None ∧ m' !! js_id s = Some (inserted s).
Proof.
  revert m; induction steps as [|s steps IH]; intros m Hins; simpl in Hins.
  - simplify_eq. split; [done|]. split; [by left|]. split; [constructor|]. by intros s ?%elem_of_nil.
  - apply result_bind_Ok in Hins as (m1 & Hs & Hins).
    assert (0 ≤ js_order s)%Z as Hpos.
    { unfold insert_step in Hs. destruct (Z.ltb_spec (js_order s) 0); [done|lia]. }
    apply insert_step_Ok in Hs as (Hnew & _ & ->). apply IH in Hins as (Hold & Hfrom & Hnd & Hin).
    split; [|split; [|split]].
    + intros id x Hx. apply Hold. rewrite lookup_insert_ne; [done|congruence].
    + intros id x [Hx|(s' & Hs' & ->)]%Hfrom; [|right; exists s'; split; [by right|done]].
      apply lookup_insert_Some in Hx as [[_ <-]|[_ Hx]]; [right|by left].
      exists s. split; [by left|done].
    + simpl. constructor; [|done]. intros (s' & Heq & Hs')%list_elem_of_fmap.
      destruct (Hin _ Hs') as (_ & Hn & _). rewrite <-Heq, lookup_insert_eq in Hn. done.
    + intros s' [->|Hs']%elem_of_cons.
      * split; [done|]. split; [done|]. apply Hold, lookup_insert_eq.
      * destruct (Hin _ Hs') as (Hp & Hn & Hx). split; [done|]. split; [|done].
        rewrite lookup_insert in Hn. by case_decide.
Qed.

Lemma fetch_NoDup db job : tables_inv (tables db) → NoDup (fetch_job_steps db job).
Proof.
  intros HI. unfold fetch_job_steps. rewrite merge_sort_Permutation.
  rewrite NoDup_ListNoDup. apply List.NoDup_filter. rewrite <-NoDup_ListNoDup.
  apply (NoDup_fmap_1 js_id).
  replace (js_id <$> (map_to_list (jd_steps db)).*2) with (map_to_list (jd_steps db)).*1;
    [apply NoDup_fst_map_to_list|].
  rewrite <-list_fmap_compose. apply list_fmap_ext. intros i [id s] Hi. simpl.
  apply list_elem_of_lookup_2, elem_of_map_to_list in Hi. by rewrite (ti_step_key _ HI _ _ Hi).
Qed.

(** Sorting by order gives the created list back. *)
Lemma fetch_created db job steps :
  tables_inv (tables db) → NoDup steps →
  (∀ i s, steps !! i = Some s → js_order s = Z.of_nat i) →
  (∀ s, s ∈ steps ↔ (∃ id, jd_steps db !! id = Some s) ∧ js_job_id s = job) →
  fetch_job_steps db job = steps.
Proof.
  intros HI Hnd Hord Hel.
  apply (StronglySorted_unique_strong step_le).
  - intros x y Hx%elem_of_fetch%Hel Hy H1 H2. unfold step_le in *.
    apply list_elem_of_lookup in Hx as [i Hi]. apply list_elem_of_lookup in Hy as [j Hj].
    pose proof (Hord _ _ Hi). pose proof (Hord _ _ Hj). assert (i = j) as -> by lia. congruence.
  - apply StronglySorted_merge_sort; [intros x y z|intros x y]; unfold step_le; lia.
  - clear Hnd Hel. revert Hord. generalize 0 as o.
    assert (∀ o, (∀ i s, steps !! i = Some s → js_order s = Z.of_nat (o + i)) →
              StronglySorted step_le steps) as Hs.
    { induction steps as [|s steps IH]; intros o Hord; constructor.
      - apply (IH (S o)). intros i x Hx. rewrite (Hord (S i) x Hx). lia.
      - apply Forall_lookup. intros i x Hx. unfold step_le.
        rewrite (Hord 0 s eq_refl), (Hord (S i) x Hx). lia. }
    intros _ Hord. by apply (Hs 0).
  - apply NoDup_Permutation; [by apply fetch_NoDup|done|]. intros s. by rewrite elem_of_fetch, Hel.
Qed.

(** Creation round-trips. When a workflow of [n] steps is created, reading the
    Job back gives exactly the Job the caller was handed: [n] fresh pending steps
    numbered 0 to [n - 1] in order (an [i32] overflow of the numbering is refused, never
    stored), and no other Job changed. *)
Theorem workflow_roundtrip (w : World) (k : nat) (ep : EndpointId) (n : nat) (w' : World)
    (job : Job) (k' : nat) :
  reachable w k → service_create_workflow w ep n k = ((w', Ok job), k') →
  find_job (w_db w') (job_id job) = Some job
  ∧ find_job (w_db w) (job_id job) = None
  ∧ job_endpoint_id job = ep ∧ job_state job = JobState.Pending ∧ length (job_steps job) = n
  ∧ (∀ i s, job_steps job !! i = Some s → js_order s = Z.of_nat i
        ∧ js_state s = JobStepState.Pending ∧ js_destructive_intent s = None)
  ∧ ∀ other, other ≠ job_id job → jd_jobs (w_db w') !! other = jd_jobs (w_db w) !! other.
Proof.
  intros HI%reachable_inv Hrun. pose proof (create_refines true _ _ _ _ _ _ _ HI Hrun) as Hp.
  apply protocol_inv in Hp as HI'; [|done]. revert Hrun.
  unfold service_create_workflow, create_workflow, mbind, gen_bind, mret, gen_ret.
  case_bool_decide as Hn; [done|]. unfold new_v4.
  destruct (create_steps _ _ _ _) as [steps ks] eqn:Hc.
  apply create_steps_lookup in Hc as [Hlen Hsteps].
  unfold repo_create_workflow. simpl. destruct (jd_endpoints _ !! ep) as [e|]; [|done].
  case_bool_decide; simpl; [|done].
  destruct (insert_unique _ _ _ ≫= _) as [db'|err] eqn:Hins; [|done]. intros [= <- <- _]. simpl.
  apply result_bind_Ok in Hins as (jobs & Hj & Hins).
  apply result_bind_Ok in Hins as (m' & Hs & [= <-]).
  apply insert_unique_Ok in Hj as [Hnew ->].
  apply insert_steps_present in Hs as (Hold & Hfrom & Hnd & Hin).
  assert (∀ s, s ∈ steps → inserted s = s ∧ js_job_id s = draw_uuid k) as Hself.
  { intros s [i Hi]%list_elem_of_lookup. by rewrite (Hsteps _ _ Hi). }
  assert (∀ i s, steps !! i = Some s → js_order s = Z.of_nat i) as Hord.
  { intros i s Hi. rewrite (Hsteps _ _ Hi). apply (numbering_fits steps); [| |by eapply lookup_lt_Some].
    - intros j x Hx. by rewrite (Hsteps _ _ Hx).
    - intros x Hx. by apply Hin. }
  split; [|split; [|split; [done|split; [done|split; [done|split]]]]].
  - unfold find_job. simpl. rewrite lookup_insert_eq. simpl. repeat f_equal.
    apply fetch_created; [done|by eapply NoDup_fmap_1|done|]. simpl. intros s. split.
    + intros Hel. destruct (Hin _ Hel) as (_ & _ & Hx). destruct (Hself _ Hel) as [Heq Hjob].
      rewrite Heq in Hx. eauto.
    + intros [[id Hid] Hjob]. destruct (Hfrom _ _ Hid) as [Hid0|(s' & Hs' & ->)].
      * apply (ti_step_job _ HI) in Hid0 as [r Hr]. simpl in Hr. congruence.
      * by rewrite (proj1 (Hself _ Hs')).
  - unfold find_job. by rewrite Hnew.
  - intros i s Hi. rewrite (Hord _ _ Hi), (Hsteps _ _ Hi). done.
  - intros other Hne. simpl in *. by rewrite lookup_insert_ne.
Qed.
End Theorems.
