(* ===== verification/JobExamples.v ===== *)
(** * A concrete workflow, run

    A two-step destructive workflow on one Endpoint, from an empty database, under
    the reference instances of [External]: the hypotheses of the theorems of
    [JobTheorems] hold on it, and it exhibits the one departure of the services from the
    intended protocol. *)

From stdpp Require Import prelude gmap strings.
From Stdlib Require Import Strings.Byte NArith ZArith.
From S2P Require Import Prelude.
From S2P Require Import External.
From S2P Require Import Credential.
From S2P Require Import Endpoint.
From S2P Require Import Job.
From S2P Require Import Transfer.
From S2P Require Import Runtime.
From S2P Require Import EnrollmentStore.
From S2P Require Import JobStore.
From S2P Require Import JobSpec.
From S2P Require Import JobServices.
From S2P Require Import JobSafety.
From S2P Require Import JobTheorems.

Module JobExamples.
Import Reference.
#[local] Existing Instances counter_entropy raw_uuid.

Definition u (n : N) : Uuid := be_array 16 n.
Definition ep9 : EndpointId := u 900.
Definition rev9 : InventoryRevisionId := u 901.
Definition disk : TargetFingerprint := lit "disk-0".
Definition disk_of (e : EndpointId) : option TargetFingerprint :=
  if bool_decide (e = ep9) then Some disk else None.

Definition aggregate9 : EndpointAggregate :=
  {| ep_id := ep9; ep_inventory_signal := lit "mac-9"; ep_identity := IdentityState.Enrolled;
     ep_credential := {|
       chain_predecessor := {| cs_lookup_id := be_array _ 1;
                               cs_hash := {| ch_salt := be_array _ 2; ch_digest := be_array _ 3 |};
                               cs_issued_at := 0; cs_expires_at := 1000 |};
       chain_successor := None; chain_revoked := false |};
     ep_hardware_confidence := HardwareConfidence.Consistent;
     ep_current_boot := Some {| cb_boot_context_id := be_array _ 4;
                                cb_boot_nonce := be_array _ 5;
                                cb_trusted_bootstrap := TrustedBootstrapState.Established |};
     ep_created_at := 0; ep_updated_at := 0 |}.

Definition job0 : JobId := u 0.
Definition step1 : JobStepId := u 1.
Definition step2 : JobStepId := u 2.
Definition action1 : ActionId := u 5.
Definition action2 : ActionId := u 9.

Definition setup : list JobOp.t :=
  [JobOp.Environment {[ep9 := aggregate9]} {[ep9 := rev9]} ∅;
   JobOp.SessionRegistered ep9 (u 902);
   JobOp.CreateWorkflow ep9 2;
   JobOp.Admit job0 10;
   JobOp.Authorize disk_of job0 step1;
   JobOp.Authorize disk_of job0 step2;
   JobOp.SatisfyPreconditions job0 step1].

(** The first step is dispatched and succeeds, the second is dispatched. *)
Definition first_dispatch : JobOp.t := JobOp.CommitDestructive disk_of 20 job0 step1 [].
Definition middle : list JobOp.t :=
  [first_dispatch;
   JobOp.Dispatch {| at_id := u 4; at_job_step_id := step1; at_action_id := action1;
                     at_state := AttemptState.Dispatched |} 1 true].
Definition second : list JobOp.t :=
  [JobOp.Evidence action1 ep9 ActionEvidence.ResultSucceeded 30;
   JobOp.SatisfyPreconditions job0 step2;
   JobOp.CommitDestructive disk_of 40 job0 step2 []].
Definition ready := run_job_ops empty_world setup 0.
Definition dispatched := run_job_ops empty_world (setup ++ middle) 0.
Definition advanced := run_job_ops empty_world (setup ++ middle ++ second) 0.

(** A cancellation is requested, and the acknowledgement names the first action. *)
Definition cancel_ops : list JobOp.t :=
  [JobOp.RequestCancellation (λ _, w_db advanced.1) job0 (Actor.Operator (lit "ops")) 50 true].
Definition stray_op : JobOp.t := JobOp.CancelAck action1 ep9 CancelAckEvidence.AlreadyCompleted 60.

Definition cancelling := run_job_ops empty_world (setup ++ middle ++ second ++ cancel_ops) 0.
Definition strayed :=
  run_job_ops empty_world (setup ++ middle ++ second ++ cancel_ops ++ [stray_op]) 0.
Definition revived := run_job_op strayed.1 (JobOp.Evidence action2 ep9 ActionEvidence.ResultSucceeded 70)
                        strayed.2.

Lemma reachable_run ops :
  reachable (run_job_ops empty_world ops 0).1 (run_job_ops empty_world ops 0).2.
Proof. apply run_job_ops_reaches with ops. apply surjective_pairing. Qed.

Definition job_state_of (w : World) : option JobState.t := jr_state <$> jd_jobs (w_db w) !! job0.

(** ** The departure from the protocol *)

(** C39. A stray acknowledgement reopens a cancelled Job. The first step of a Job
    succeeded and the second is in flight when a cancellation is requested; an
    acknowledgement [AlreadyCompleted] that names the first, ended action closes the Job
    as Cancelled although the second Attempt is still active, and the success of that
    Attempt then turns the Cancelled Job into a Succeeded one. *)
Theorem stray_ack_reopens_job :
  ∃ w k w' k',
    reachable w k
    ∧ jr_state <$> jd_jobs (w_db w) !! job0 = Some JobState.Cancelled
    ∧ (∃ a, active_for (tables (w_db w)) job0 a)
    ∧ run_job_op w (JobOp.Evidence action2 ep9 ActionEvidence.ResultSucceeded 70) k = (w', k')
    ∧ jr_state <$> jd_jobs (w_db w') !! job0 = Some JobState.Succeeded.
Proof.
  exists strayed.1, strayed.2, revived.1, revived.2. split; [apply reachable_run|].
  split; [vm_compute; reflexivity|]. split; [|split].
  - exists {| at_id := u 8; at_job_step_id := step2; at_action_id := action2;
              at_state := AttemptState.Dispatched |}, (u 8),
           {| js_id := step2; js_job_id := job0; js_order := 1;
              js_state := JobStepState.Dispatching;
              js_destructive_intent := Some {| di_authorized_inventory_revision_id := rev9;
                                               di_authorized_target_fingerprint := disk |};
              js_failure_reason := None |}.
    split; [by_evaluation|]. split; [done|]. split; [by_evaluation|done].
  - apply surjective_pairing.
  - vm_compute. reflexivity.
Qed.

(** ** Witnesses *)

Lemma run_job_ops_app w ops ops' k :
  run_job_ops w (ops ++ ops') k
  = run_job_ops (run_job_ops w ops k).1 ops' (run_job_ops w ops k).2.
Proof.
  revert w k; induction ops as [|o ops IH]; intros w k; simpl; [done|].
  unfold mbind, gen_bind. destruct (run_job_op w o k) as [w1 k1]. apply IH.
Qed.

Definition no_ack (o : JobOp.t) : bool :=
  match o with JobOp.CancelAck _ _ _ _ => false | _ => true end.

(** Runs without acknowledgements have no stray step. *)
Lemma reaches_no_ack w ops k :
  forallb no_ack ops = true →
  reaches false w k (run_job_ops w ops k).1 (run_job_ops w ops k).2.
Proof.
  induction ops as [|o ops IH] using rev_ind; intros Hall; [apply reaches_refl|].
  rewrite forallb_app in Hall. apply andb_prop in Hall as [Hall Ho]. simpl in Ho.
  rewrite run_job_ops_app. eapply reaches_step; [by apply IH| |].
  - right. instantiate (1 := o). by destruct o.
  - simpl. unfold mbind, gen_bind. destruct (run_job_op _ _ _). done.
Qed.

Lemma job_services_refine_witness :
  protocol false (tables (w_db ready.1)) (tables (w_db (run_job_op ready.1 first_dispatch ready.2).1)).
Proof.
  exact (proj2 (job_services_refine ready.1 ready.2 first_dispatch _ _ (reachable_run setup)
    (surjective_pairing _)) I).
Defined.

Lemma job_tables_invariant_witness : exclusive (t_jobs (tables (w_db advanced.1))).
Proof.
  exact (proj1 (job_tables_invariant (setup ++ middle ++ second) advanced.1 advanced.2
    (surjective_pairing _))).
Defined.

(** Cancelled before anything is dispatched, then poked again. *)
Definition early_cancel : list JobOp.t :=
  setup ++ [JobOp.RequestCancellation (λ _, empty_job_db) job0 Actor.System 15 true].
Definition poke : list JobOp.t := [first_dispatch; JobOp.Admit job0 30].

Lemma terminal_jobs_final_witness :
  jd_jobs (w_db (run_job_ops (run_job_ops empty_world early_cancel 0).1 poke
                   (run_job_ops empty_world early_cancel 0).2).1) !! job0
  = Some {| jr_endpoint_id := ep9; jr_state := JobState.Cancelled |}.
Proof.
  refine (proj1 (terminal_jobs_final false (run_job_ops empty_world early_cancel 0).1
    (run_job_ops empty_world early_cancel 0).2 _ _ job0
    {| jr_endpoint_id := ep9; jr_state := JobState.Cancelled |}
    (reaches_no_ack _ _ _ _) (reaches_no_ack _ _ _ _) _ _ _)).
  - reflexivity.
  - reflexivity.
  - vm_compute. reflexivity.
  - reflexivity.
  - reflexivity.
Defined.

Lemma fresh_ready : fresh_ids (w_db ready.1) ready.2.
Proof. repeat split; vm_compute; reflexivity. Qed.

Definition committed (r : result JobError.t FinalDispatchResult.t) : bool :=
  match r with Ok (FinalDispatchResult.Committed _ _) => true | _ => false end.

Lemma committed_ex r :
  committed r = true → ∃ o reservation, r = Ok (FinalDispatchResult.Committed o reservation).
Proof. destruct r as [[]|]; try done. eauto. Qed.

Lemma destructive_dispatch_exact_witness : destructive_gate ready.1 disk_of 20 job0 step1.
Proof.
  refine (proj2 (proj1 (destructive_dispatch_exact ready.1 ready.2 disk_of 20 job0 step1 []
    (reachable_run setup) fresh_ready) (committed_ex _ _))).
  vm_compute. reflexivity.
Defined.

Definition attempt1 : Attempt :=
  {| at_id := u 4; at_job_step_id := step1; at_action_id := action1;
     at_state := AttemptState.Dispatched |}.

Lemma attempts_only_by_dispatch_witness :
  (∃ target now id claims, first_dispatch = JobOp.CommitDestructive target now id step1 claims
     ∧ destructive_gate ready.1 target now id step1)
  ∨ (∃ id transfer claims, first_dispatch = JobOp.CommitTransfer id step1 transfer claims
       ∧ transfer_gate ready.1 id step1 transfer).
Proof.
  refine (proj2 (attempts_only_by_dispatch ready.1 ready.2 first_dispatch _ _ (u 4) attempt1
    (reachable_run setup) (surjective_pairing _) _ _)).
  - vm_compute. reflexivity.
  - by_evaluation.
Defined.

(** The first scan is stale, the second is not. *)
Definition seen (i : nat) : World := match i with 0 => dispatched.1 | _ => advanced.1 end.

Lemma seen_reaches i : ∃ ki, reachable (seen i) ki ∧ reaches true (seen i) ki advanced.1 advanced.2.
Proof.
  destruct i as [|i].
  - exists dispatched.2. split; [apply reachable_run|].
    apply run_job_ops_reaches with second. unfold dispatched, advanced, seen.
    rewrite (app_assoc setup middle second), (run_job_ops_app empty_world (setup ++ middle) second).
    apply surjective_pairing.
  - exists advanced.2. split; [apply reachable_run|apply reaches_refl].
Qed.

Definition request := service_request_cancellation (λ i, w_db (seen i)) advanced.1 job0
                        Actor.System 50 true advanced.2.

Lemma cancellation_race_free_witness : ∃ a, active_for (tables (w_db advanced.1)) job0 a.
Proof.
  refine (proj1 (cancellation_race_free advanced.1 advanced.2 seen job0 Actor.System 50 true
    request.1.1 (CancellationRequestResult.EnteredCancelling true) request.2 seen_reaches _)).
  assert (request.1.2 = Ok (CancellationRequestResult.EnteredCancelling true)) as Hr
    by (vm_compute; reflexivity).
  rewrite <-Hr, <-surjective_pairing. apply surjective_pairing.
Defined.

Lemma cancellation_resolves_witness :
  ∃ facts, cancellation_loop (λ _, w_db advanced.1) (w_db advanced.1) job0 MAX_PASSES 0 = Ok facts
           ∧ find_job (w_db advanced.1) job0 = Some (rc_job facts)
           ∧ (rc_active_attempt facts = None ↔ quiet (tables (w_db advanced.1)) job0).
Proof.
  refine (cancellation_resolves advanced.1 advanced.2 job0
    {| jr_endpoint_id := ep9; jr_state := JobState.Running |} MAX_PASSES 0
    (reachable_run (setup ++ middle ++ second)) _ _).
  - vm_compute. reflexivity.
  - vm_compute. lia.
Defined.

Definition success := service_apply_evidence dispatched.1 action1 ep9
                        ActionEvidence.ResultSucceeded 30 dispatched.2.
Definition applied_of (r : result JobError.t EvidenceResult.t) (d : Applied) : Applied :=
  match r with Ok (EvidenceResult.Applied a) => a | _ => d end.
Definition no_applied : Applied :=
  {| ap_attempt := attempt1; ap_job_step := step_failed
       {| js_id := step1; js_job_id := job0; js_order := 0; js_state := JobStepState.Pending;
          js_destructive_intent := None; js_failure_reason := None |}
       JobStepFailureReason.ExecutionFailed;
     ap_job := {| job_id := job0; job_endpoint_id := ep9; job_state := JobState.Pending;
                  job_steps := [] |};
     ap_events := []; ap_terminal := false |}.

Lemma applied_of_eq (x : World * result JobError.t EvidenceResult.t * nat) d :
  match x.1.2 with Ok (EvidenceResult.Applied _) => true | _ => false end = true →
  x = ((x.1.1, Ok (EvidenceResult.Applied (applied_of x.1.2 d))), x.2).
Proof. destruct x as [[w [[]|]] k]; by intros. Qed.

Lemma evidence_idempotent_witness :
  service_apply_evidence success.1.1 action1 ep9 ActionEvidence.ResultSucceeded 99 success.2
  = ((success.1.1, Ok EvidenceResult.NoOp), success.2).
Proof.
  refine (proj1 (evidence_idempotent dispatched.1 dispatched.2 action1 ep9
    ActionEvidence.ResultSucceeded 30 success.1.1 (applied_of success.1.2 no_applied) success.2
    (reachable_run (setup ++ middle)) (applied_of_eq _ _ _)) 99%Z success.2).
  vm_compute. reflexivity.
Defined.

Lemma foreign_evidence_rejected_witness :
  service_apply_evidence dispatched.1 action1 (u 77) ActionEvidence.ResultFailed 5 dispatched.2
  = ((dispatched.1, Err JobError.UnknownAction), dispatched.2).
Proof.
  refine (proj1 (foreign_evidence_rejected dispatched.1 dispatched.2 action1 (u 77) 5
    ActionEvidence.ResultFailed CancelAckEvidence.Cancelled StatusReportEvidence.Running
    (reachable_run (setup ++ middle)) _)).
  vm_compute. reflexivity.
Defined.

Definition base := run_job_ops empty_world (take 1 setup) 0.
Definition created := service_create_workflow base.1 ep9 3 base.2.
Definition created_job : Job :=
  match created.1.2 with Ok j => j | Err _ => ap_job no_applied end.

Lemma created_eq : created = ((created.1.1, Ok created_job), created.2).
Proof.
  assert (is_ok created.1.2 = true) as Hok by (vm_compute; reflexivity).
  unfold created_job. destruct created as [[w [j|]] k]; [done|]. by simpl in Hok.
Qed.

Lemma workflow_roundtrip_witness :
  find_job (w_db created.1.1) (job_id created_job) = Some created_job.
Proof.
  exact (proj1 (workflow_roundtrip base.1 base.2 ep9 3 created.1.1 created_job created.2
    (reachable_run (take 1 setup)) created_eq)).
Defined.
End JobExamples.
