(* ===== verification/TransferAuth.v ===== *)
(** * Transfer authorization

    Models [crates/domain/src/transfer_authorization.rs], the runtime services
    [crates/server/src/runtime/replay_cache.rs] and [capability_store.rs], and
    [TransferAuthorizationService] of [crates/server/src/application/mod.rs]. The
    durable snapshot a request is decided against ([load_authorization_state], one
    locking read) is an argument of each call. *)

From stdpp Require Import prelude gmap strings sorting.
From Stdlib Require Import Strings.Byte NArith ZArith.
From S2P Require Import Prelude.
From S2P Require Import External.
From S2P Require Import Credential.
From S2P Require Import Endpoint.
From S2P Require Import EnrollmentStore.
From S2P Require Import Job.
From S2P Require Import Transfer.

(** ** Wire values *)

Module ProofFieldError.
Inductive t : Type :=
| WireLength | InvalidCharacters | InvalidEncoding | InvalidDecodedLength | NonCanonical
| InvalidKey.
End ProofFieldError.

Definition PROOF_PUBLIC_KEY_BYTES : nat := 32.
Definition PROOF_PUBLIC_KEY_WIRE_LEN : nat := 43.
Definition PROOF_ID_BYTES : nat := 16.
Definition PROOF_ID_WIRE_LEN : nat := 22.
Definition PROOF_SIGNATURE_BYTES : nat := 64.
Definition PROOF_SIGNATURE_WIRE_LEN : nat := 86.
Definition CAPABILITY_TOKEN_SECRET_BYTES : nat := 32.
Definition CAPABILITY_ID_BYTES : nat := 32.

Abbreviation ProofId := (array PROOF_ID_BYTES).
Abbreviation ProofSignature := (array PROOF_SIGNATURE_BYTES).
Abbreviation CapabilityId := (array CAPABILITY_ID_BYTES).
Abbreviation ProcessAuthorizationEpoch := Uuid.

Section WireValues.
Context {b64 : Base64}.

(** The parsers of the three wire fields start with the same four checks. *)
Definition decode_fixed (n wire_len : nat) (value : str)
  : result ProofFieldError.t (array n) :=
  if negb (bool_decide (length value = wire_len)) then Err ProofFieldError.WireLength
  else if negb (forallb is_canonical_base64url_char value)
  then Err ProofFieldError.InvalidCharacters
  else
    decoded ← ok_or ProofFieldError.InvalidEncoding (b64_decode value);
    ok_or ProofFieldError.InvalidDecodedLength (try_into n decoded).

Definition ProofId_to_wire_value (p : ProofId) : str := b64_encode (array_bytes p).

Definition ProofId_parse_wire_value (value : str) : result ProofFieldError.t ProofId :=
  candidate ← decode_fixed PROOF_ID_BYTES PROOF_ID_WIRE_LEN value;
  if negb (bool_decide (ProofId_to_wire_value candidate = value))
  then Err ProofFieldError.NonCanonical else Ok candidate.

Definition ProofSignature_to_wire_value (s : ProofSignature) : str := b64_encode (array_bytes s).

Definition ProofSignature_parse_wire_value (value : str)
  : result ProofFieldError.t ProofSignature :=
  candidate ← decode_fixed PROOF_SIGNATURE_BYTES PROOF_SIGNATURE_WIRE_LEN value;
  if negb (bool_decide (ProofSignature_to_wire_value candidate = value))
  then Err ProofFieldError.NonCanonical else Ok candidate.

Context {ed : Ed25519}.

(** [ProofPublicKey] wraps a [VerifyingKey]. *)
Definition ProofPublicKey_from_bytes (bytes : array PROOF_PUBLIC_KEY_BYTES)
  : result ProofFieldError.t VerifyingKey :=
  ok_or ProofFieldError.InvalidKey (vk_from_bytes bytes).

Definition ProofPublicKey_to_wire_value (k : VerifyingKey) : str :=
  b64_encode (array_bytes (vk_to_bytes k)).

Definition ProofPublicKey_parse_wire_value (value : str)
  : result ProofFieldError.t VerifyingKey :=
  bytes ← decode_fixed PROOF_PUBLIC_KEY_BYTES PROOF_PUBLIC_KEY_WIRE_LEN value;
  candidate ← ProofPublicKey_from_bytes bytes;
  if negb (bool_decide (ProofPublicKey_to_wire_value candidate = value))
  then Err ProofFieldError.NonCanonical else Ok candidate.

Context {sha : Sha256}.

Definition ProofKeyThumbprint_from_public_key (k : VerifyingKey) : array 32 :=
  sha256 (array_bytes (vk_to_bytes k)).

(** [CapabilityToken] is a string; [CapabilityId] its digest. *)
Definition CapabilityToken_generate `{Entropy} : Gen str :=
  bytes ← fill_bytes CAPABILITY_TOKEN_SECRET_BYTES;
  mret (b64_encode (array_bytes bytes)).

Definition CapabilityId_from_token_bytes (token_utf8 : str) : CapabilityId := sha256 token_utf8.
End WireValues.

(** ** The canonical proof transcript *)

Module AuthorizationOperation.
Inductive t : Type := ChunkUpload | ResumeDiscovery | SealManifest.
#[global] Instance t_eq_dec : EqDecision t.
Proof. solve_decision. Defined.

Definition transcript_byte (o : t) : N :=
  match o with ChunkUpload => 1 | ResumeDiscovery => 2 | SealManifest => 3 end.

Definition requires_chunk_index (o : t) : bool :=
  match o with ChunkUpload => true | _ => false end.
End AuthorizationOperation.

Definition direction_transcript_byte (d : TransferDirection.t) : N :=
  match d with TransferDirection.AgentToServer => 1 end.

Definition PROOF_TRANSCRIPT_DOMAIN : str := lit "bamep.m1.data-plane-transfer.proof".
Definition PROOF_TRANSCRIPT_SCHEMA_VERSION : N := 1.
Definition PROOF_TRANSCRIPT_LEN : nat := 137.

Record ProofTranscriptFields : Type := {
  pf_operation : AuthorizationOperation.t;
  pf_transfer_id : TransferId;
  pf_artifact_id : ArtifactId;
  pf_direction : TransferDirection.t;
  pf_chunk_index : option N;
  pf_proof_id : ProofId;
  pf_issued_at_millis : N;
}.

(** [buf[offset..offset + len].copy_from_slice(src); offset += len], from the left. *)
Fixpoint write_fields (buf : list byte) (offset : nat) (fields : list (list byte)) : list byte :=
  match fields with
  | [] => buf
  | src :: rest => write_fields (copy_from_slice buf offset src) (offset + length src) rest
  end.

Definition build_proof_transcript (capability_id : CapabilityId) (fields : ProofTranscriptFields)
  : list byte :=
  write_fields (replicate PROOF_TRANSCRIPT_LEN x00) 0
    [be_bytes 2 (N.of_nat (length PROOF_TRANSCRIPT_DOMAIN));
     PROOF_TRANSCRIPT_DOMAIN;
     be_bytes 2 PROOF_TRANSCRIPT_SCHEMA_VERSION;
     array_bytes capability_id;
     [byte_of_N (AuthorizationOperation.transcript_byte (pf_operation fields))];
     array_bytes (pf_transfer_id fields);
     array_bytes (pf_artifact_id fields);
     [byte_of_N (direction_transcript_byte (pf_direction fields))];
     [byte_of_N (match pf_chunk_index fields with Some _ => 1 | None => 0 end)];
     be_bytes 8 (default 0%N (pf_chunk_index fields));
     array_bytes (pf_proof_id fields);
     be_bytes 8 (pf_issued_at_millis fields)].

Definition verify_proof_signature `{Ed25519} (public_key : VerifyingKey) (transcript : list byte)
    (signature : ProofSignature) : bool :=
  verify_strict public_key transcript signature.

(** ** Capability bindings and current-state predicates *)

Module AuthorizationDenialReason.
Inductive t : Type :=
| CapabilityNotFound | CapabilityExpired | CapabilityWrongEpoch | TransferMismatch
| ArtifactMismatch | DirectionMismatch | OperationChunkIndexRuleViolation | SignatureInvalid
| ProofTooStale | ProofTooFarInFuture | ProofReplayed | TransferNotAttemptBound | UnknownAttempt
| AttemptNotEligible | WrongActionCorrelation | EndpointMismatch | CredentialNotActive
| OperationNotCurrentlyEligible.
End AuthorizationDenialReason.

Record CapabilityBinding `{Ed25519} : Type := {
  cap_endpoint_id : EndpointId;
  cap_transfer_id : TransferId;
  cap_artifact_id : ArtifactId;
  cap_direction : TransferDirection.t;
  cap_attempt_id : AttemptId;
  cap_proof_public_key : VerifyingKey;
  cap_expires_at : Instant;
  cap_epoch : ProcessAuthorizationEpoch;
}.

Record RequestedOperation : Type := {
  rq_operation : AuthorizationOperation.t;
  rq_transfer_id : TransferId;
  rq_artifact_id : ArtifactId;
  rq_direction : TransferDirection.t;
  rq_chunk_index : option N;
}.

Definition capability_is_current `{Ed25519} (binding : CapabilityBinding) (now : Instant)
    (current_epoch : ProcessAuthorizationEpoch) : result AuthorizationDenialReason.t unit :=
  if negb (bool_decide (cap_epoch binding = current_epoch))
  then Err AuthorizationDenialReason.CapabilityWrongEpoch
  else if (cap_expires_at binding <=? now)%Z then Err AuthorizationDenialReason.CapabilityExpired
  else Ok tt.

Definition capability_matches_request `{Ed25519} (binding : CapabilityBinding)
    (requested : RequestedOperation) : result AuthorizationDenialReason.t unit :=
  if negb (bool_decide (cap_transfer_id binding = rq_transfer_id requested))
  then Err AuthorizationDenialReason.TransferMismatch
  else if negb (bool_decide (cap_artifact_id binding = rq_artifact_id requested))
  then Err AuthorizationDenialReason.ArtifactMismatch
  else if negb (bool_decide (cap_direction binding = rq_direction requested))
  then Err AuthorizationDenialReason.DirectionMismatch
  else if negb (Bool.eqb (AuthorizationOperation.requires_chunk_index (rq_operation requested))
                    (bool_decide (is_Some (rq_chunk_index requested))))
  then Err AuthorizationDenialReason.OperationChunkIndexRuleViolation
  else Ok tt.

Definition data_plane_operation_is_current (operation : AuthorizationOperation.t)
    (artifact_state : ArtifactState.t) (manifest_sealed chunk_index_has_durable_identity : bool)
  : result AuthorizationDenialReason.t unit :=
  let denied := Err AuthorizationDenialReason.OperationNotCurrentlyEligible in
  match artifact_state with
  | ArtifactState.Verified | ArtifactState.Failed => denied
  | ArtifactState.PendingVerification =>
      match operation with
      | AuthorizationOperation.SealManifest | AuthorizationOperation.ResumeDiscovery => Ok tt
      | AuthorizationOperation.ChunkUpload => denied
      end
  | ArtifactState.Incomplete =>
      match operation with
      | AuthorizationOperation.ResumeDiscovery | AuthorizationOperation.SealManifest => Ok tt
      | AuthorizationOperation.ChunkUpload =>
          if manifest_sealed && negb chunk_index_has_durable_identity then denied else Ok tt
      end
  end.

(** *** Freshness *)

Definition PROOF_FRESHNESS_PAST_WINDOW_MILLIS : Z := 120000.
Definition PROOF_FRESHNESS_FUTURE_SKEW_MILLIS : Z := 30000.
Definition DEFAULT_CAPABILITY_TTL_MILLIS : Z := 5 * 60 * 1000.

Definition proof_replay_valid_until_millis (issued_at_millis : N) : Z :=
  (Z.of_N issued_at_millis + PROOF_FRESHNESS_PAST_WINDOW_MILLIS)%Z.

Definition proof_is_fresh (issued_at_millis : N) (now : Instant)
  : result AuthorizationDenialReason.t unit :=
  let delta_millis := (timestamp_millis now - Z.of_N issued_at_millis)%Z in
  if (PROOF_FRESHNESS_PAST_WINDOW_MILLIS <? delta_millis)%Z
  then Err AuthorizationDenialReason.ProofTooStale
  else if (delta_millis <? - PROOF_FRESHNESS_FUTURE_SKEW_MILLIS)%Z
  then Err AuthorizationDenialReason.ProofTooFarInFuture
  else Ok tt.

(** ** [ReplayCache] *)

Module Replay.
Inductive ReplayRejection : Type := Replayed | CapacitySaturated.

Record ReplayCache : Type := {
  rc_capacity : nat;
  rc_seen : gmap ProofId Instant;
}.

Definition with_capacity (capacity : nat) : ReplayCache :=
  {| rc_capacity := capacity `max` 1; rc_seen := ∅ |}.

Definition check_and_insert (c : ReplayCache) (proof_id : ProofId) (now : Instant)
    (replay_valid_until : Instant) : ReplayCache * result ReplayRejection unit :=
  let seen := filter (λ p, now ≤ p.2)%Z (rc_seen c) in
  let retained := {| rc_capacity := rc_capacity c; rc_seen := seen |} in
  let at_capacity := (rc_capacity c <=? size seen)%nat in
  match seen !! proof_id with
  | Some _ => (retained, Err Replayed)
  | None =>
      if at_capacity then (retained, Err CapacitySaturated)
      else ({| rc_capacity := rc_capacity c; rc_seen := <[proof_id := replay_valid_until]> seen |},
            Ok tt)
  end.
End Replay.

(** ** [CapabilityStore] *)

Module Capabilities.
Inductive CapabilityIssueError : Type := Saturated | IdCollision.

Record CapabilityStore `{Ed25519} : Type := {
  cst_epoch : ProcessAuthorizationEpoch;
  cst_capacity : nat;
  cst_capabilities : gmap CapabilityId CapabilityBinding;
}.

Section Store.
Context {ed : Ed25519}.

Definition with_capacity `{Entropy} (capacity : nat) : Gen CapabilityStore :=
  epoch ← new_v4;
  mret {| cst_epoch := epoch; cst_capacity := capacity `max` 1; cst_capabilities := ∅ |}.

Definition with_capabilities (s : CapabilityStore) (m : gmap CapabilityId CapabilityBinding)
  : CapabilityStore :=
  {| cst_epoch := cst_epoch s; cst_capacity := cst_capacity s; cst_capabilities := m |}.

Definition issue (s : CapabilityStore) (id : CapabilityId) (binding : CapabilityBinding)
  : CapabilityStore * result CapabilityIssueError unit :=
  let at_capacity := (cst_capacity s <=? size (cst_capabilities s))%nat in
  match cst_capabilities s !! id with
  | Some _ => (s, Err IdCollision)
  | None =>
      if at_capacity then (s, Err Saturated)
      else (with_capabilities s (<[id := binding]> (cst_capabilities s)), Ok tt)
  end.

Definition lookup (s : CapabilityStore) (id : CapabilityId) : option CapabilityBinding :=
  cst_capabilities s !! id.

Definition evict_expired (s : CapabilityStore) (now : Instant) : CapabilityStore :=
  with_capabilities s (filter (λ p, now < cap_expires_at p.2)%Z (cst_capabilities s)).
End Store.
End Capabilities.

(** ** [TransferAuthorizationService] *)

(** The last representable [DateTime<Utc>]. *)
Class ChronoRange : Type := MAX_UTC : Instant.

Record AuthorizationDurableState : Type := {
  ad_transfer : Transfer;
  ad_artifact : Artifact;
  ad_manifest : ChunkManifest;
  ad_held_chunk_indices : gset ChunkIndex;
  ad_attempt : option Attempt;
  ad_endpoint : EndpointAggregate;
}.

Record WorkerAuthorizationQueryInput : Type := {
  wq_token : str;
  wq_operation : AuthorizationOperation.t;
  wq_transfer_id : TransferId;
  wq_chunk_index : option N;
  wq_proof_id : str;
  wq_issued_at_millis : N;
  wq_signature : str;
}.

Record AuthState `{Ed25519} : Type := {
  as_capabilities : Capabilities.CapabilityStore;
  as_replay : Replay.ReplayCache;
}.

Module TransferAuthorizationOutcome.
Inductive t : Type :=
| Granted (token : str) (expires_at : Instant) (data_plane_base_url : str)
| Denied | ProtocolViolation.
End TransferAuthorizationOutcome.

Module WorkerAuthorizationOutcome.
Inductive t : Type :=
| Approved (digest_algorithm : DigestAlgorithm.t) (chunk_size : N)
    (expected_chunk_digest : option str)
| Denied.
End WorkerAuthorizationOutcome.

Record ResumeHeldChunk : Type := { rh_chunk_index : N; rh_digest_wire : str }.

Record ResumeSnapshotFacts : Type := {
  rs_transfer_id : TransferId;
  rs_sealed : bool;
  rs_digest_algorithm : DigestAlgorithm.t;
  rs_chunk_size : N;
  rs_expected_chunk_count : option N;
  rs_held : list ResumeHeldChunk;
}.

Module ResumeAuthorizationOutcome.
Inductive t : Type := Approved (facts : ResumeSnapshotFacts) | Denied.
End ResumeAuthorizationOutcome.

Section Authorization.
Context {b64 : Base64} {sha : Sha256} {ed : Ed25519} {ent : Entropy} {chrono : ChronoRange}.

Definition credential_active (ep : EndpointAggregate) (now : Instant) : bool :=
  match CredentialChain_dimension (ep_credential ep) now with
  | CredentialDimension.CredentialActive => true
  | _ => false
  end.

(** [issue]; [loaded] is the answer of [load_authorization_state]. *)
Definition service_issue (s : AuthState) (loaded : result Backend.t (option AuthorizationDurableState))
    (capability_ttl : Duration) (data_plane_base_url : str) (now : Instant)
    (endpoint_id : EndpointId) (presented_action_id : ActionId) (transfer_id : TransferId)
    (proof_public_key_wire : str)
  : Gen (AuthState * result Backend.t TransferAuthorizationOutcome.t) :=
  let denied := mret (s, Ok TransferAuthorizationOutcome.Denied) in
  match ProofPublicKey_parse_wire_value proof_public_key_wire with
  | Err _ => denied
  | Ok public_key =>
      match loaded with
      | Err e => mret (s, Err e)
      | Ok None => denied
      | Ok (Some state) =>
          if negb (bool_decide (tr_endpoint_id (ad_transfer state) = endpoint_id)) then denied
          else
            match ad_attempt state with
            | None => denied
            | Some attempt =>
                if negb (bool_decide (at_state attempt = AttemptState.InProgress)) then denied
                else if negb (bool_decide (presented_action_id = at_action_id attempt))
                then mret (s, Ok TransferAuthorizationOutcome.ProtocolViolation)
                else if negb (credential_active (ad_endpoint state) now) then denied
                else
                  token ← CapabilityToken_generate;
                  let capability_id := CapabilityId_from_token_bytes token in
                  let expires_at := (now + capability_ttl)%Z in
                  let binding := {|
                    cap_endpoint_id := endpoint_id; cap_transfer_id := transfer_id;
                    cap_artifact_id := tr_artifact_id (ad_transfer state);
                    cap_direction := tr_direction (ad_transfer state);
                    cap_attempt_id := at_id attempt; cap_proof_public_key := public_key;
                    cap_expires_at := expires_at;
                    cap_epoch := Capabilities.cst_epoch (as_capabilities s) |} in
                  let evicted := Capabilities.evict_expired (as_capabilities s) now in
                  let '(store, r) := Capabilities.issue evicted capability_id binding in
                  let s' := {| as_capabilities := store; as_replay := as_replay s |} in
                  mret (s', Ok match r with
                               | Err _ => TransferAuthorizationOutcome.Denied
                               | Ok _ => TransferAuthorizationOutcome.Granted token expires_at
                                           data_plane_base_url
                               end)
            end
      end
  end.

(** [DateTime::from_timestamp_millis(...clamp(i64::MIN, i64::MAX)).unwrap_or(MAX_UTC)]. *)
Definition i64_max : Z := 9223372036854775807.
Definition replay_valid_until (issued_at_millis : N) : Instant :=
  let ms := Z.min (proof_replay_valid_until_millis issued_at_millis) i64_max in
  if (from_timestamp_millis ms <=? MAX_UTC)%Z then from_timestamp_millis ms else MAX_UTC.

(** [u32::try_from(index)]. *)
Definition try_u32 (n : N) : option N := if (n <? 2 ^ 32)%N then Some n else None.

(** Steps 1 to 5 of [authorize_request]: everything decided from the request, the
    capability store and the clock. Gives the binding and the parsed [proof_id]. *)
Definition authorize_proof (store : Capabilities.CapabilityStore)
    (input : WorkerAuthorizationQueryInput) (now : Instant)
  : option (CapabilityBinding * ProofId) :=
  let capability_id := CapabilityId_from_token_bytes (wq_token input) in
  match Capabilities.lookup store capability_id with
  | None => None
  | Some binding =>
      if negb (is_ok (capability_is_current binding now (Capabilities.cst_epoch store))) then None
      else if negb (is_ok (capability_matches_request binding {|
                rq_operation := wq_operation input; rq_transfer_id := wq_transfer_id input;
                rq_artifact_id := cap_artifact_id binding; rq_direction := cap_direction binding;
                rq_chunk_index := wq_chunk_index input |})) then None
      else
        match ProofId_parse_wire_value (wq_proof_id input) with
        | Err _ => None
        | Ok proof_id =>
            match ProofSignature_parse_wire_value (wq_signature input) with
            | Err _ => None
            | Ok signature =>
                if negb (is_ok (proof_is_fresh (wq_issued_at_millis input) now)) then None
                else if negb (verify_proof_signature (cap_proof_public_key binding)
                          (build_proof_transcript capability_id {|
                             pf_operation := wq_operation input;
                             pf_transfer_id := wq_transfer_id input;
                             pf_artifact_id := cap_artifact_id binding;
                             pf_direction := cap_direction binding;
                             pf_chunk_index := wq_chunk_index input;
                             pf_proof_id := proof_id;
                             pf_issued_at_millis := wq_issued_at_millis input |}) signature)
                then None
                else Some (binding, proof_id)
            end
        end
  end.

(** Step 6: the durable snapshot against the binding. *)
Definition authorize_durable (binding : CapabilityBinding) (input : WorkerAuthorizationQueryInput)
    (now : Instant) (state : AuthorizationDurableState) : bool :=
  let transfer := ad_transfer state in
  if negb (bool_decide (tr_endpoint_id transfer = cap_endpoint_id binding))
     || negb (bool_decide (tr_artifact_id transfer = cap_artifact_id binding))
     || negb (bool_decide (tr_direction transfer = cap_direction binding)) then false
  else
    match ad_attempt state with
    | None => false
    | Some attempt =>
        if negb (bool_decide (at_id attempt = cap_attempt_id binding)) then false
        else if negb (bool_decide (at_state attempt = AttemptState.InProgress)) then false
        else if negb (credential_active (ad_endpoint state) now) then false
        else
          let eligible has_identity :=
            is_ok (data_plane_operation_is_current (wq_operation input)
                     (ar_state (ad_artifact state)) (cm_sealed (ad_manifest state)) has_identity) in
          match wq_chunk_index input with
          | None => eligible false
          | Some index =>
              match try_u32 index with
              | None => false
              | Some index =>
                  eligible (bool_decide (is_Some (expected_chunk (ad_manifest state) index)))
              end
          end
    end.

Definition authorize_request (s : AuthState)
    (loaded : result Backend.t (option AuthorizationDurableState))
    (input : WorkerAuthorizationQueryInput) (now : Instant)
  : AuthState * result Backend.t (option AuthorizationDurableState) :=
  match authorize_proof (as_capabilities s) input now with
  | None => (s, Ok None)
  | Some (binding, proof_id) =>
      match loaded with
      | Err e => (s, Err e)
      | Ok None => (s, Ok None)
      | Ok (Some state) =>
          if negb (authorize_durable binding input now state) then (s, Ok None)
          else
            let '(replay, r) := Replay.check_and_insert (as_replay s) proof_id now
                                  (replay_valid_until (wq_issued_at_millis input)) in
            ({| as_capabilities := as_capabilities s; as_replay := replay |},
             Ok match r with Err _ => None | Ok _ => Some state end)
      end
  end.

Definition service_decide (s : AuthState)
    (loaded : result Backend.t (option AuthorizationDurableState))
    (input : WorkerAuthorizationQueryInput) (now : Instant)
  : AuthState * result Backend.t WorkerAuthorizationOutcome.t :=
  let '(s', r) := authorize_request s loaded input now in
  (s', match r with
       | Err e => Err e
       | Ok None => Ok WorkerAuthorizationOutcome.Denied
       | Ok (Some state) =>
           Ok (WorkerAuthorizationOutcome.Approved
                 (cm_digest_algorithm (ad_manifest state)) (cm_chunk_size (ad_manifest state))
                 (index ← wq_chunk_index input ≫= try_u32;
                  chunk ← expected_chunk (ad_manifest state) index;
                  Some (Digest_to_wire_value (ec_digest chunk))))
       end).

(** The loop over [held_chunk_indices] (a [BTreeSet]: ascending). *)
Fixpoint held_chunks (manifest : ChunkManifest) (indices : list ChunkIndex)
  : result Backend.t (list ResumeHeldChunk) :=
  match indices with
  | [] => Ok []
  | index :: rest =>
      expected ← ok_or Backend.InvariantViolation (expected_chunk manifest index);
      held ← held_chunks manifest rest;
      Ok ({| rh_chunk_index := index;
             rh_digest_wire := Digest_to_wire_value (ec_digest expected) |} :: held)
  end.

Definition ascending (s : gset ChunkIndex) : list ChunkIndex := merge_sort N.le (elements s).

Definition service_authorize_resume_discovery (s : AuthState)
    (loaded : result Backend.t (option AuthorizationDurableState))
    (input : WorkerAuthorizationQueryInput) (now : Instant)
  : AuthState * result Backend.t ResumeAuthorizationOutcome.t :=
  let '(s', r) := authorize_request s loaded input now in
  (s', match r with
       | Err e => Err e
       | Ok None => Ok ResumeAuthorizationOutcome.Denied
       | Ok (Some state) =>
           held ← held_chunks (ad_manifest state) (ascending (ad_held_chunk_indices state));
           Ok (ResumeAuthorizationOutcome.Approved {|
             rs_transfer_id := tr_id (ad_transfer state);
             rs_sealed := cm_sealed (ad_manifest state);
             rs_digest_algorithm := cm_digest_algorithm (ad_manifest state);
             rs_chunk_size := cm_chunk_size (ad_manifest state);
             rs_expected_chunk_count :=
               if cm_sealed (ad_manifest state) then cm_chunk_count (ad_manifest state) else None;
             rs_held := held |})
       end).
End Authorization.
