(* ===== verification/TransferAuthSafety.v ===== *)
(** * Properties of transfer authorization

    Wire fields and the signed transcript, what an approval implies over whole
    histories of the service, replay protection, and the two circumstances in which
    replay protection lapses. *)

From stdpp Require Import prelude gmap strings.
From Stdlib Require Import Strings.Byte NArith ZArith.
From S2P Require Import Prelude.
From S2P Require Import External.
From S2P Require Import Credential.
From S2P Require Import Endpoint.
From S2P Require Import EnrollmentStore.
From S2P Require Import Job.
From S2P Require Import Transfer.
From S2P Require Import TransferAuth.

(** ** Wire fields *)

Section WireFields.
Context {b64 : Base64} {b64_laws : Base64Laws}.

Lemma decode_fixed_encode n wire_len (a : array n) :
  (n * 4 + 2) / 3 = wire_len → decode_fixed n wire_len (b64_encode (array_bytes a)) = Ok a.
Proof.
  intros Hlen. unfold decode_fixed.
  rewrite bool_decide_eq_true_2 by (rewrite b64_encode_length; by autorewrite with bamep).
  rewrite b64_encode_alphabet. simpl. rewrite b64_decode_encode. simpl. by rewrite try_into_bytes.
Qed.

Lemma ProofId_parse_iff v p : ProofId_parse_wire_value v = Ok p ↔ v = ProofId_to_wire_value p.
Proof.
  unfold ProofId_parse_wire_value. split.
  - intros (c & _ & Hc)%result_bind_Ok. case_bool_decide; by simplify_eq/=.
  - intros ->. pose proof (decode_fixed_encode PROOF_ID_BYTES PROOF_ID_WIRE_LEN p eq_refl) as Hd.
    change (b64_encode (array_bytes p)) with (ProofId_to_wire_value p) in Hd. rewrite Hd.
    change (Ok p ≫= ?f) with (f p). cbv beta. by rewrite bool_decide_eq_true_2.
Qed.

Lemma ProofSignature_parse_iff v s :
  ProofSignature_parse_wire_value v = Ok s ↔ v = ProofSignature_to_wire_value s.
Proof.
  unfold ProofSignature_parse_wire_value. split.
  - intros (c & _ & Hc)%result_bind_Ok. case_bool_decide; by simplify_eq/=.
  - intros ->. pose proof (decode_fixed_encode PROOF_SIGNATURE_BYTES PROOF_SIGNATURE_WIRE_LEN s eq_refl) as Hd.
    change (b64_encode (array_bytes s)) with (ProofSignature_to_wire_value s) in Hd. rewrite Hd.
    change (Ok s ≫= ?f) with (f s). cbv beta. by rewrite bool_decide_eq_true_2.
Qed.

Context {ed : Ed25519} {ed_laws : Ed25519Laws}.

Lemma ProofPublicKey_parse_iff v k :
  ProofPublicKey_parse_wire_value v = Ok k
  ↔ v = ProofPublicKey_to_wire_value k ∧ vk_from_bytes (vk_to_bytes k) = Some k.
Proof.
  unfold ProofPublicKey_parse_wire_value, ProofPublicKey_from_bytes. split.
  - intros (bytes & _ & Hb)%result_bind_Ok. apply result_bind_Ok in Hb as (c & Hc & Hb).
    apply ok_or_Ok in Hc. case_bool_decide; simplify_eq/=. split; [done|].
    by rewrite (vk_to_from _ _ Hc).
  - intros [-> Hk].
    pose proof (decode_fixed_encode PROOF_PUBLIC_KEY_BYTES PROOF_PUBLIC_KEY_WIRE_LEN (vk_to_bytes k)
      eq_refl) as Hd.
    change (b64_encode (array_bytes (vk_to_bytes k))) with (ProofPublicKey_to_wire_value k) in Hd.
    rewrite Hd.
    change (Ok (vk_to_bytes k) ≫= ?f) with (f (vk_to_bytes k)). cbv beta. rewrite Hk. simpl.
    unfold mbind, result_bind. by rewrite bool_decide_eq_true_2.
Qed.

(** The wire forms of proof identities, signatures and public keys are
    canonical: a parser accepts exactly the one string its printer produces, for every
    value (for a key, every key that survives its own byte form, as the public half of a
    signing key does), so no second spelling of an authorization field is accepted. *)
Theorem proof_fields_canonical :
  (∀ v p, ProofId_parse_wire_value v = Ok p ↔ v = ProofId_to_wire_value p)
  ∧ (∀ v s, ProofSignature_parse_wire_value v = Ok s ↔ v = ProofSignature_to_wire_value s)
  ∧ (∀ v k, ProofPublicKey_parse_wire_value v = Ok k
            ↔ v = ProofPublicKey_to_wire_value k ∧ vk_from_bytes (vk_to_bytes k) = Some k)
  ∧ (∀ sk, ProofPublicKey_parse_wire_value (ProofPublicKey_to_wire_value (sk_verifying_key sk))
           = Ok (sk_verifying_key sk)).
Proof.
  split; [apply ProofId_parse_iff|]. split; [apply ProofSignature_parse_iff|].
  split; [apply ProofPublicKey_parse_iff|]. intros sk. apply ProofPublicKey_parse_iff.
  split; [done|apply vk_from_to].
Qed.
End WireFields.

(** ** The transcript *)

Lemma write_fields_app done rest fields :
  length (concat fields) ≤ length rest →
  write_fields (done ++ rest) (length done) fields
  = (done ++ concat fields) ++ drop (length (concat fields)) rest.
Proof.
  revert done rest; induction fields as [|src fields IH]; intros done rest Hlen; simpl in *.
  - by rewrite app_nil_r, drop_0.
  - rewrite length_app in Hlen. rewrite copy_from_slice_snoc by lia.
    rewrite <-length_app. rewrite IH by (rewrite length_drop; lia).
    rewrite length_app, drop_drop. by rewrite <-!app_assoc.
Qed.

(** The fields in order, with nothing between them. *)
Definition transcript_fields (c : CapabilityId) (f : ProofTranscriptFields) : list (list byte) :=
  [be_bytes 2 (N.of_nat (length PROOF_TRANSCRIPT_DOMAIN));
   PROOF_TRANSCRIPT_DOMAIN;
   be_bytes 2 PROOF_TRANSCRIPT_SCHEMA_VERSION;
   array_bytes c;
   [byte_of_N (AuthorizationOperation.transcript_byte (pf_operation f))];
   array_bytes (pf_transfer_id f);
   array_bytes (pf_artifact_id f);
   [byte_of_N (direction_transcript_byte (pf_direction f))];
   [byte_of_N (match pf_chunk_index f with Some _ => 1 | None => 0 end)];
   be_bytes 8 (default 0%N (pf_chunk_index f));
   array_bytes (pf_proof_id f);
   be_bytes 8 (pf_issued_at_millis f)].

Lemma transcript_fields_length c f : length (concat (transcript_fields c f)) = PROOF_TRANSCRIPT_LEN.
Proof.
  unfold transcript_fields. cbn [concat]. autorewrite with bamep.
  reflexivity.
Qed.

Lemma transcript_concat c f : build_proof_transcript c f = concat (transcript_fields c f).
Proof.
  unfold build_proof_transcript. fold (transcript_fields c f).
  pose proof (transcript_fields_length c f) as Hlen.
  generalize dependent (transcript_fields c f). generalize PROOF_TRANSCRIPT_LEN as n. intros n l Hlen.
  pose proof (write_fields_app [] (replicate n x00) l) as H.
  rewrite app_nil_l, length_replicate in H. change (length (@nil byte)) with 0 in H.
  rewrite H, Hlen, drop_ge by (rewrite ?length_replicate; lia). by rewrite app_nil_r.
Qed.

(** Same-length prefixes can be peeled off one by one. *)
Lemma concat_inj (l l' : list (list byte)) :
  length <$> l = length <$> l' → concat l = concat l' → l = l'.
Proof.
  revert l'; induction l as [|x l IH]; intros [|x' l'] Hlen Heq; simpl in *; try done.
  injection Hlen as Hx Hl. apply app_inj_1 in Heq as [-> Heq]; [|done]. f_equal. by apply IH.
Qed.

(** The signed transcript is a faithful encoding. It is exactly 137 bytes, and
    two transcripts coincide only if capability, operation, transfer, artifact,
    direction, chunk index (its absence included), proof identity and issue time all
    coincide; so two different requests never have the same signed message. *)
Theorem transcript_injective (c c' : CapabilityId) (f f' : ProofTranscriptFields) :
  (default 0 (pf_chunk_index f) < 2 ^ 64)%N → (default 0 (pf_chunk_index f') < 2 ^ 64)%N →
  (pf_issued_at_millis f < 2 ^ 64)%N → (pf_issued_at_millis f' < 2 ^ 64)%N →
  length (build_proof_transcript c f) = PROOF_TRANSCRIPT_LEN
  ∧ (build_proof_transcript c f = build_proof_transcript c' f' → c = c' ∧ f = f').
Proof.
  intros Hci Hci' Hia Hia'. rewrite !transcript_concat. split; [apply transcript_fields_length|].
  intros Heq. apply concat_inj in Heq.
  2: { unfold transcript_fields. cbn [fmap list_fmap]. by autorewrite with bamep. }
  pose proof (λ i, f_equal (λ l, nth i l []) Heq) as Hnth. unfold transcript_fields in Hnth.
  pose proof (Hnth 3) as Hc. pose proof (Hnth 4) as Hop. pose proof (Hnth 5) as Ht.
  pose proof (Hnth 6) as Ha. pose proof (Hnth 8) as Hpres. pose proof (Hnth 9) as Hidx.
  pose proof (Hnth 10) as Hp. pose proof (Hnth 11) as Hiat.
  cbn [nth] in Hc, Hop, Ht, Ha, Hpres, Hidx, Hp, Hiat. clear Heq Hnth.
  apply array_eq in Hc, Ht, Ha, Hp.
  apply (be_bytes_inj 8) in Hidx; [|done..]. apply (be_bytes_inj 8) in Hiat; [|done..].
  split; [done|]. destruct f as [o t a d ci p ia], f' as [o' t' a' d' ci' p' ia']. simpl in *.
  subst. destruct d, d'. f_equal.
  - injection Hop as Hop. apply (f_equal Byte.to_N) in Hop. rewrite !to_N_byte_of_N in Hop. by destruct o, o'.
  - destruct ci, ci'; simpl in *; try done; by subst.
Qed.

(** ** Histories of the service *)

Module AuthOp.
Inductive t : Type :=
| Issue (loaded : result Backend.t (option AuthorizationDurableState)) (ttl : Duration) (url : str)
    (now : Instant) (endpoint_id : EndpointId) (action_id : ActionId) (transfer_id : TransferId)
    (proof_public_key_wire : str)
| Authorize (loaded : result Backend.t (option AuthorizationDurableState))
    (input : WorkerAuthorizationQueryInput) (now : Instant).

Definition time (o : t) : Instant :=
  match o with Issue _ _ _ now _ _ _ _ => now | Authorize _ _ now => now end.
End AuthOp.

Section History.
Context {b64 : Base64} {sha : Sha256} {ed : Ed25519} {ent : Entropy} {chrono : ChronoRange}.

Definition run_auth_op (s : AuthState) (o : AuthOp.t) : Gen AuthState :=
  match o with
  | AuthOp.Issue loaded ttl url now ep action transfer key =>
      r ← service_issue s loaded ttl url now ep action transfer key; mret r.1
  | AuthOp.Authorize loaded input now => mret (authorize_request s loaded input now).1
  end.

Fixpoint run_auth (s : AuthState) (ops : list AuthOp.t) : Gen AuthState :=
  match ops with
  | [] => mret s
  | o :: rest => s' ← run_auth_op s o; run_auth s' rest
  end.

(** The grant a capability in the store stems from. *)
Definition granted_by (epoch : ProcessAuthorizationEpoch) (ops : list AuthOp.t)
    (b : CapabilityBinding) : Prop :=
  ∃ st ttl url now action key attempt,
    AuthOp.Issue (Ok (Some st)) ttl url now (cap_endpoint_id b) action (cap_transfer_id b) key ∈ ops
    ∧ ProofPublicKey_parse_wire_value key = Ok (cap_proof_public_key b)
    ∧ tr_endpoint_id (ad_transfer st) = cap_endpoint_id b
    ∧ tr_artifact_id (ad_transfer st) = cap_artifact_id b
    ∧ ad_attempt st = Some attempt ∧ at_id attempt = cap_attempt_id b
    ∧ at_action_id attempt = action ∧ at_state attempt = AttemptState.InProgress
    ∧ credential_active (ad_endpoint st) now = true
    ∧ cap_expires_at b = (now + ttl)%Z ∧ cap_epoch b = epoch.

Definition store_granted (ops : list AuthOp.t) (s : AuthState) : Prop :=
  ∀ id b, Capabilities.cst_capabilities (as_capabilities s) !! id = Some b →
    granted_by (Capabilities.cst_epoch (as_capabilities s)) ops b.

Lemma granted_by_mono epoch ops ops' b :
  ops ⊆ ops' → granted_by epoch ops b → granted_by epoch ops' b.
Proof.
  intros Hsub (st & ttl & url & now & action & key & attempt & Hin & Hrest).
  exists st, ttl, url, now, action, key, attempt. split; [by apply Hsub|done].
Qed.

Lemma authorize_request_store s loaded input now :
  as_capabilities (authorize_request s loaded input now).1 = as_capabilities s.
Proof. unfold authorize_request. by repeat case_match. Qed.

Lemma issue_store s id b s' r :
  Capabilities.issue s id b = (s', r) →
  Capabilities.cst_epoch s' = Capabilities.cst_epoch s
  ∧ ∀ i x, Capabilities.cst_capabilities s' !! i = Some x →
      Capabilities.cst_capabilities s !! i = Some x ∨ x = b.
Proof.
  unfold Capabilities.issue. repeat case_match; intros [= <- <-]; (split; [done|]); try (by left).
  intros i x Hx. simpl in Hx. apply lookup_insert_Some in Hx as [[_ <-]|[_ Hx]]; [by right|by left].
Qed.

Lemma service_issue_granted s loaded ttl url now ep action transfer key k s' r k' ops :
  service_issue s loaded ttl url now ep action transfer key k = ((s', r), k') →
  store_granted ops s →
  store_granted (AuthOp.Issue loaded ttl url now ep action transfer key :: ops) s'
  ∧ Capabilities.cst_epoch (as_capabilities s') = Capabilities.cst_epoch (as_capabilities s).
Proof.
  intros Hrun Hs.
  assert (store_granted (AuthOp.Issue loaded ttl url now ep action transfer key :: ops) s) as Hsame.
  { intros id b Hb. eapply granted_by_mono; [|by eapply Hs]. set_solver. }
  unfold service_issue, CapabilityToken_generate, fill_bytes, mbind, gen_bind, mret, gen_ret in Hrun.
  destruct (ProofPublicKey_parse_wire_value key) as [vk|] eqn:Hvk; [|by simplify_eq].
  destruct loaded as [[st|]|]; [|by simplify_eq..].
  case_bool_decide as Hep; simpl in Hrun; [|by simplify_eq].
  destruct (ad_attempt st) as [a|] eqn:Ha; [|by simplify_eq].
  case_bool_decide as Hst; simpl in Hrun; [|by simplify_eq].
  case_bool_decide as Hact; simpl in Hrun; [|by simplify_eq].
  destruct (credential_active (ad_endpoint st) now) eqn:Hc; simpl in Hrun; [|by simplify_eq].
  destruct (Capabilities.issue _ _ _) as [store res] eqn:Hi. simplify_eq/=.
  apply issue_store in Hi as [Hepoch Hin]. simpl in *. split; [|done].
  intros id b Hb. simpl in *. rewrite Hepoch. apply Hin in Hb as [Hb| ->].
  - apply map_lookup_filter_Some in Hb as [Hb _]. by apply (Hsame id).
  - exists st, ttl, url, now, (at_action_id a), key, a. simpl. split; [by left|].
    by repeat split.
Qed.

Lemma run_auth_granted ops past s k s' k' :
  run_auth s ops k = (s', k') → store_granted past s →
  store_granted (past ++ ops) s'
  ∧ Capabilities.cst_epoch (as_capabilities s') = Capabilities.cst_epoch (as_capabilities s).
Proof.
  revert past s k; induction ops as [|o ops IH]; intros past s k; simpl;
    unfold mbind, gen_bind, mret, gen_ret.
  - intros [= <- _] Hs. by rewrite app_nil_r.
  - destruct (run_auth_op s o k) as [s1 k1] eqn:Ho. intros Hrun Hs.
    assert (store_granted (past ++ [o]) s1
            ∧ Capabilities.cst_epoch (as_capabilities s1)
              = Capabilities.cst_epoch (as_capabilities s)) as [Hs1 He].
    { destruct o; simpl in Ho; unfold mbind, gen_bind, mret, gen_ret in Ho.
      - destruct (service_issue _ _ _ _ _ _ _ _ _ _) as [[s2 r] k2] eqn:Hi. simplify_eq/=.
        eapply service_issue_granted in Hi as [Hi He]; [|exact Hs]. split; [|done].
        intros id b Hb. eapply granted_by_mono; [|by eapply Hi]. set_solver.
      - simplify_eq/=. pose proof (authorize_request_store s loaded input now) as Hstore.
        split; [|by rewrite Hstore]. intros id b Hb. rewrite Hstore in *.
        eapply granted_by_mono; [|by eapply Hs]. set_solver. }
    destruct (IH _ _ _ Hrun Hs1) as [Hfin He2]. rewrite <-app_assoc in Hfin. split; [done|].
    by rewrite He2, He.
Qed.

(** The conditions the first five steps establish. *)
Lemma authorize_proof_Some store input now b p :
  authorize_proof store input now = Some (b, p) →
  Capabilities.cst_capabilities store !! CapabilityId_from_token_bytes (wq_token input) = Some b
  ∧ cap_epoch b = Capabilities.cst_epoch store ∧ (now < cap_expires_at b)%Z
  ∧ cap_transfer_id b = wq_transfer_id input
  ∧ (AuthorizationOperation.requires_chunk_index (wq_operation input) = true
     ↔ is_Some (wq_chunk_index input))
  ∧ ProofId_parse_wire_value (wq_proof_id input) = Ok p
  ∧ (timestamp_millis now - Z.of_N (wq_issued_at_millis input)
     ≤ PROOF_FRESHNESS_PAST_WINDOW_MILLIS)%Z
  ∧ ∃ sig, ProofSignature_parse_wire_value (wq_signature input) = Ok sig
      ∧ verify_strict (cap_proof_public_key b)
          (build_proof_transcript (CapabilityId_from_token_bytes (wq_token input)) {|
             pf_operation := wq_operation input; pf_transfer_id := wq_transfer_id input;
             pf_artifact_id := cap_artifact_id b; pf_direction := cap_direction b;
             pf_chunk_index := wq_chunk_index input; pf_proof_id := p;
             pf_issued_at_millis := wq_issued_at_millis input |}) sig = true.
Proof.
  unfold authorize_proof, Capabilities.lookup, capability_is_current, capability_matches_request,
    proof_is_fresh, verify_proof_signature. simpl. intros Ha.
  repeat (case_match; simplify_eq/=; try done). reflect_bools. repeat split; try done.
  - intros Hr. apply (bool_decide_eq_true_1 (is_Some (wq_chunk_index input))).
    match goal with H : Bool.eqb _ _ = true |- _ => apply Bool.eqb_prop in H end. congruence.
  - intros Hi. apply (bool_decide_eq_true_2 (is_Some (wq_chunk_index input))) in Hi.
    match goal with H : Bool.eqb _ _ = true |- _ => apply Bool.eqb_prop in H end. congruence.
  - eauto.
Qed.

Lemma authorize_durable_true b input now st :
  authorize_durable b input now st = true →
  tr_endpoint_id (ad_transfer st) = cap_endpoint_id b
  ∧ tr_artifact_id (ad_transfer st) = cap_artifact_id b
  ∧ credential_active (ad_endpoint st) now = true
  ∧ ar_state (ad_artifact st) ≠ ArtifactState.Verified
  ∧ ar_state (ad_artifact st) ≠ ArtifactState.Failed
  ∧ ∃ a, ad_attempt st = Some a ∧ at_id a = cap_attempt_id b
         ∧ at_state a = AttemptState.InProgress.
Proof.
  unfold authorize_durable, data_plane_operation_is_current. intros Ha.
  repeat (case_match; simplify_eq/=; try done); reflect_bools; repeat split; try congruence; eauto.
Qed.

(** C11. An approval implies a grant. In any history of the service that starts with
    an empty capability store, a request is approved only if this process earlier
    granted a capability for its transfer, artifact and Attempt to the Endpoint owning the
    transfer, while that Attempt was in progress and the credential live; and at the moment of approval the
    capability has not expired, the request's own signature verifies under the key
    named in the grant over exactly this operation, the very same Attempt is still in
    progress, the credential is still live and the Artifact is not finished. *)
Theorem approval_implies_grant (s : AuthState) (ops : list AuthOp.t) (k : nat) (s1 : AuthState)
    (k1 : nat) (loaded : result Backend.t (option AuthorizationDurableState))
    (input : WorkerAuthorizationQueryInput) (now : Instant) (s2 : AuthState)
    (st : AuthorizationDurableState) :
  Capabilities.cst_capabilities (as_capabilities s) = ∅ →
  run_auth s ops k = (s1, k1) → authorize_request s1 loaded input now = (s2, Ok (Some st)) →
  ∃ b p sig a,
    granted_by (Capabilities.cst_epoch (as_capabilities s)) ops b
    ∧ cap_transfer_id b = wq_transfer_id input ∧ (now < cap_expires_at b)%Z
    ∧ ProofId_parse_wire_value (wq_proof_id input) = Ok p
    ∧ ProofSignature_parse_wire_value (wq_signature input) = Ok sig
    ∧ verify_strict (cap_proof_public_key b)
        (build_proof_transcript (CapabilityId_from_token_bytes (wq_token input)) {|
           pf_operation := wq_operation input; pf_transfer_id := wq_transfer_id input;
           pf_artifact_id := cap_artifact_id b; pf_direction := cap_direction b;
           pf_chunk_index := wq_chunk_index input; pf_proof_id := p;
           pf_issued_at_millis := wq_issued_at_millis input |}) sig = true
    ∧ loaded = Ok (Some st) ∧ tr_endpoint_id (ad_transfer st) = cap_endpoint_id b
    ∧ ad_attempt st = Some a ∧ at_id a = cap_attempt_id b
    ∧ at_state a = AttemptState.InProgress ∧ credential_active (ad_endpoint st) now = true
    ∧ ar_state (ad_artifact st) ≠ ArtifactState.Verified
    ∧ ar_state (ad_artifact st) ≠ ArtifactState.Failed.
Proof.
  intros Hempty Hrun Hauth.
  apply run_auth_granted with (past := []) in Hrun as [Hgr He];
    [|intros id b Hb; by rewrite Hempty, lookup_empty in Hb].
  unfold authorize_request in Hauth.
  destruct (authorize_proof _ _ _) as [[b p]|] eqn:Hp; [|by simplify_eq].
  destruct loaded as [[st'|]|]; [|by simplify_eq..].
  destruct (authorize_durable b input now st') eqn:Hd; simpl in Hauth; [|by simplify_eq].
  destruct (Replay.check_and_insert _ _ _ _) as [rc [u|e]]; simplify_eq/=.
  apply authorize_proof_Some in Hp as (Hb & Hepoch & Hexp & Ht & _ & Hpid & _ & sig & Hsig & Hver).
  apply authorize_durable_true in Hd as (Hep & _ & Hcred & Hv & Hf & a & Ha & Haid & Hast).
  exists b, p, sig, a. rewrite <-He. split; [by eapply Hgr|]. by repeat split.
Qed.

(** ** Replay protection *)

Lemma check_and_insert_keeps c p now until q v :
  Replay.rc_seen c !! q = Some v → (now ≤ v)%Z →
  Replay.rc_seen (Replay.check_and_insert c p now until).1 !! q = Some v.
Proof.
  intros Hq Hv.
  assert (filter (λ x : ProofId * Instant, (now ≤ x.2)%Z) (Replay.rc_seen c) !! q = Some v) as Hf
    by by apply map_lookup_filter_Some.
  unfold Replay.check_and_insert. repeat case_match; simpl; try done.
  rewrite lookup_insert_ne; [done|congruence].
Qed.

Lemma check_and_insert_Ok c p now until :
  is_ok (Replay.check_and_insert c p now until).2 = true →
  Replay.rc_seen (Replay.check_and_insert c p now until).1 !! p = Some until.
Proof.
  unfold Replay.check_and_insert. repeat case_match; try done. intros _. simpl.
  by rewrite lookup_insert_eq.
Qed.

Lemma check_and_insert_live c p now until v :
  Replay.rc_seen c !! p = Some v → (now ≤ v)%Z →
  (Replay.check_and_insert c p now until).2 = Err Replay.Replayed.
Proof.
  intros Hp Hv. unfold Replay.check_and_insert.
  assert (filter (λ x : ProofId * Instant, (now ≤ x.2)%Z) (Replay.rc_seen c) !! p = Some v) as ->
    by by apply map_lookup_filter_Some.
  done.
Qed.

Lemma run_auth_op_replay s o k s' k' q v :
  run_auth_op s o k = (s', k') → Replay.rc_seen (as_replay s) !! q = Some v →
  (AuthOp.time o ≤ v)%Z → Replay.rc_seen (as_replay s') !! q = Some v.
Proof.
  intros Ho Hq Hv. destruct o; simpl in *; unfold mbind, gen_bind, mret, gen_ret in Ho.
  - unfold service_issue, CapabilityToken_generate, mbind, gen_bind, mret, gen_ret, fill_bytes in Ho.
    by repeat (case_match; simplify_eq/=; try done).
  - simplify_eq/=. unfold authorize_request.
    destruct (authorize_proof _ _ _) as [[b p]|]; [|done].
    destruct loaded as [[st|]|]; [|done..]. destruct (authorize_durable _ _ _ _); [|done]. simpl.
    pose proof (check_and_insert_keeps (as_replay s) p now
      (replay_valid_until (wq_issued_at_millis input)) q v Hq Hv) as Hk.
    destruct (Replay.check_and_insert _ _ _ _). done.
Qed.

Lemma run_auth_replay ops s k s' k' q v :
  run_auth s ops k = (s', k') → Replay.rc_seen (as_replay s) !! q = Some v →
  Forall (λ o, AuthOp.time o ≤ v)%Z ops → Replay.rc_seen (as_replay s') !! q = Some v.
Proof.
  revert s k; induction ops as [|o ops IH]; intros s k; simpl; unfold mbind, gen_bind, mret, gen_ret.
  - by intros [= <- _].
  - destruct (run_auth_op s o k) as [s1 k1] eqn:Ho. intros Hrun Hq [Ht Hall]%Forall_cons.
    eapply IH; [done| |done]. by eapply run_auth_op_replay.
Qed.

(** A proof that is still fresh is still remembered, on a clock of whole
    milliseconds. *)
Lemma fresh_retained issued now :
  whole_millis now → (now ≤ MAX_UTC)%Z → (timestamp_millis MAX_UTC ≤ i64_max)%Z →
  (timestamp_millis now - Z.of_N issued ≤ PROOF_FRESHNESS_PAST_WINDOW_MILLIS)%Z →
  (now ≤ replay_valid_until issued)%Z.
Proof.
  intros Hw Hmax Hi64 Hfresh. unfold replay_valid_until.
  destruct (Z.leb_spec (from_timestamp_millis
    (Z.min (proof_replay_valid_until_millis issued) i64_max)) MAX_UTC); [|done].
  apply timestamp_millis_le_iff; [done|]. unfold proof_replay_valid_until_millis.
  assert (timestamp_millis now ≤ timestamp_millis MAX_UTC)%Z
    by (apply Z.div_le_mono; [done|done]). lia.
Qed.

(** C34. No proof is accepted twice. Once a request has been approved, no request
    carrying the same proof identity and issue time is approved later, whatever other
    requests are served in between, provided the clock does not run backwards past the
    later request and reads whole milliseconds then. *)
Theorem no_replay (s : AuthState) (loaded loaded' : result Backend.t (option AuthorizationDurableState))
    (input input' : WorkerAuthorizationQueryInput) (now now' : Instant) (s1 : AuthState)
    (st : AuthorizationDurableState) (ops : list AuthOp.t) (k : nat) (s2 : AuthState) (k2 : nat) :
  authorize_request s loaded input now = (s1, Ok (Some st)) →
  run_auth s1 ops k = (s2, k2) →
  wq_proof_id input' = wq_proof_id input →
  wq_issued_at_millis input' = wq_issued_at_millis input →
  Forall (λ o, AuthOp.time o ≤ now')%Z ops → whole_millis now' →
  (now' ≤ MAX_UTC)%Z → (timestamp_millis MAX_UTC ≤ i64_max)%Z →
  ∀ st', (authorize_request s2 loaded' input' now').2 ≠ Ok (Some st').
Proof.
  intros Happ Hrun Hpid Hiss Hops Hw Hmax Hi64 st'. unfold authorize_request in *.
  destruct (authorize_proof (as_capabilities s) input now) as [[b p]|] eqn:Hp; [|by simplify_eq].
  destruct loaded as [[st0|]|]; [|by simplify_eq..].
  destruct (authorize_durable b input now st0); simpl in Happ; [|by simplify_eq].
  pose proof (check_and_insert_Ok (as_replay s) p now
    (replay_valid_until (wq_issued_at_millis input))) as Hin.
  destruct (Replay.check_and_insert _ _ _ _) as [rc [u|e]]; simplify_eq/=.
  specialize (Hin eq_refl).
  destruct (authorize_proof (as_capabilities s2) input' now') as [[b' p']|] eqn:Hp'; [|done].
  apply authorize_proof_Some in Hp as (_ & _ & _ & _ & _ & Hpp & _).
  apply authorize_proof_Some in Hp' as (_ & _ & _ & _ & _ & Hpp' & Hfresh & _).
  rewrite Hpid, Hpp in Hpp'. injection Hpp' as <-. rewrite Hiss in *.
  pose proof (fresh_retained _ _ Hw Hmax Hi64 Hfresh) as Hle.
  eapply run_auth_replay in Hrun; [|exact Hin|].
  2: { eapply Forall_impl; [exact Hops|]. intros o Ho. simpl in Ho. lia. }
  destruct loaded' as [[st1|]|]; [|done..].
  destruct (authorize_durable b' input' now' st1); [|done]. simpl.
  pose proof (check_and_insert_live _ _ _ (replay_valid_until (wq_issued_at_millis input)) _ Hrun Hle)
    as Hrej.
  destruct (Replay.check_and_insert _ _ _ _) as [rc' r']. simpl in *. by rewrite Hrej.
Qed.
End History.
