(* ===== verification/TransferAuthExamples.v ===== *)
(** * Transfer authorization, run

    One capability granted and used, under the reference instances of [External]: the
    hypotheses of the theorems of [TransferAuthSafety] hold on it, and the two
    circumstances in which a used proof is accepted again. *)

From stdpp Require Import prelude gmap strings.
From Stdlib Require Import Strings.Byte NArith ZArith.
From S2P Require Import Prelude.
From S2P Require Import External.
From S2P Require Import Credential.
From S2P Require Import Endpoint.
From S2P Require Import EnrollmentStore.
From S2P Require Import Job.
From S2P Require Import Transfer.
From S2P Require Import TransferAuth.
From S2P Require Import TransferAuthSafety.

Module TransferAuthExamples.
Import Reference.
#[local] Existing Instances base64 base64_laws toy_sha256 toy_ed25519 toy_ed25519_laws
  counter_entropy.

(** The end of the year 9999. *)
#[local] Instance last_instant : ChronoRange := from_timestamp_millis 253402300799999.

Definition u (n : N) : Uuid := be_array 16 n.
Definition ep : EndpointAggregate :=
  {| ep_id := u 1; ep_inventory_signal := lit "mac-1"; ep_identity := IdentityState.Enrolled;
     ep_credential := {|
       chain_predecessor := {| cs_lookup_id := be_array _ 1;
                               cs_hash := {| ch_salt := be_array _ 2; ch_digest := be_array _ 3 |};
                               cs_issued_at := 0; cs_expires_at := from_timestamp_millis 900000 |};
       chain_successor := None; chain_revoked := false |};
     ep_hardware_confidence := HardwareConfidence.Consistent; ep_current_boot := None;
     ep_created_at := 0; ep_updated_at := 0 |}.

Definition attempt : Attempt :=
  {| at_id := u 2; at_job_step_id := u 3; at_action_id := u 4;
     at_state := AttemptState.InProgress |}.

Definition durable : AuthorizationDurableState := {|
  ad_transfer := {| tr_id := u 5; tr_artifact_id := u 6; tr_endpoint_id := u 1; tr_job_id := u 7;
                    tr_job_step_id := u 3; tr_attempt_id := Some (u 2);
                    tr_direction := TransferDirection.AgentToServer;
                    tr_digest_algorithm := DigestAlgorithm.Sha256; tr_chunk_size := 4096;
                    tr_source_provenance := lit "disk-0" |};
  ad_artifact := new_incomplete (u 6);
  ad_manifest := ChunkManifest_new (u 6) DigestAlgorithm.Sha256 4096;
  ad_held_chunk_indices := ∅;
  ad_attempt := Some attempt;
  ad_endpoint := ep |}.

Definition key : array 32 := be_array 32 77.
Definition empty_state : AuthState :=
  {| as_capabilities := {| Capabilities.cst_epoch := u 8; Capabilities.cst_capacity := 16;
                           Capabilities.cst_capabilities := ∅ |};
     as_replay := Replay.with_capacity 16 |}.

(** The grant, at the first instant, and the token it hands out. *)
Definition grant : AuthOp.t :=
  AuthOp.Issue (Ok (Some durable)) (from_timestamp_millis DEFAULT_CAPABILITY_TTL_MILLIS)
    (lit "https://server/data") 0 (u 1) (u 4) (u 5) (ProofPublicKey_to_wire_value key).
Definition token : str := b64_encode (array_bytes (be_array 32 0)).

(** A signed request of the holder for chunk 0. *)
Definition request (proof : ProofId) (issued_at_millis : N) : WorkerAuthorizationQueryInput := {|
  wq_token := token; wq_operation := AuthorizationOperation.ChunkUpload;
  wq_transfer_id := u 5; wq_chunk_index := Some 0%N;
  wq_proof_id := ProofId_to_wire_value proof; wq_issued_at_millis := issued_at_millis;
  wq_signature := ProofSignature_to_wire_value
    (sk_sign key (build_proof_transcript (CapabilityId_from_token_bytes token) {|
       pf_operation := AuthorizationOperation.ChunkUpload; pf_transfer_id := u 5;
       pf_artifact_id := u 6; pf_direction := TransferDirection.AgentToServer;
       pf_chunk_index := Some 0%N; pf_proof_id := proof;
       pf_issued_at_millis := issued_at_millis |})) |}.

Definition proof1 : ProofId := be_array 16 1.
Definition proof2 : ProofId := be_array 16 2.
Definition at_ms (ms : Z) : Instant := from_timestamp_millis ms.

Definition granted : AuthState := (run_auth empty_state [grant] 0).1.
Definition serve (s : AuthState) (i : WorkerAuthorizationQueryInput) (now : Instant) :=
  authorize_request s (Ok (Some durable)) i now.
Definition approved (r : AuthState * result Backend.t (option AuthorizationDurableState)) : bool :=
  match r.2 with Ok (Some _) => true | _ => false end.

(** ** Where replay protection lapses *)


(** A clock that is set back makes a replay possible. The proof is used, another
    request past its deadline evicts its record, the clock returns to a moment at which
    the proof is fresh, and the same request is approved again. *)
Theorem clock_rollback_replays :
  let first := serve granted (request proof1 1000) (at_ms 1000) in
  let other := serve first.1 (request proof2 130000) (at_ms 130000) in
  approved first = true ∧ approved other = true
  ∧ approved (serve first.1 (request proof1 1000) (at_ms 2000)) = false
  ∧ approved (serve other.1 (request proof1 1000) (at_ms 2000)) = true.
Proof. vm_compute. repeat split; reflexivity. Qed.

(** ** The theorems on this run *)

Lemma proof_fields_canonical_witness :
  ProofId_parse_wire_value (ProofId_to_wire_value proof1) = Ok proof1
  ∧ ProofPublicKey_parse_wire_value (ProofPublicKey_to_wire_value key) = Ok key.
Proof.
  split.
  - by apply (proj1 proof_fields_canonical).
  - exact (proj2 (proj2 (proj2 proof_fields_canonical)) key).
Defined.

Definition fields (index : option N) : ProofTranscriptFields := {|
  pf_operation := AuthorizationOperation.ChunkUpload; pf_transfer_id := u 5;
  pf_artifact_id := u 6; pf_direction := TransferDirection.AgentToServer;
  pf_chunk_index := index; pf_proof_id := proof1; pf_issued_at_millis := 1000 |}.

Lemma transcript_injective_witness :
  length (build_proof_transcript (be_array 32 1) (fields None)) = PROOF_TRANSCRIPT_LEN
  ∧ build_proof_transcript (be_array 32 1) (fields None)
    ≠ build_proof_transcript (be_array 32 1) (fields (Some 0%N)).
Proof.
  destruct (transcript_injective (be_array 32 1) (be_array 32 1) (fields None) (fields (Some 0%N)))
    as [Hlen Hinj]; [reflexivity..|].
  split; [exact Hlen|]. intros Heq. apply Hinj in Heq as [_ Hf]. discriminate Hf.
Defined.

Definition first := serve granted (request proof1 1000) (at_ms 1000).

Lemma first_approved : first = (first.1, Ok (Some durable)).
Proof. apply injective_projections; [reflexivity|]. vm_compute. reflexivity. Qed.

Lemma approval_implies_grant_witness :
  ∃ b, granted_by (u 8) [grant] b ∧ cap_transfer_id b = u 5.
Proof.
  destruct (approval_implies_grant empty_state [grant] 0 granted (run_auth empty_state [grant] 0).2
    (Ok (Some durable)) (request proof1 1000) (at_ms 1000) first.1 durable)
    as (b & _ & _ & _ & Hg & Ht & _).
  - reflexivity.
  - apply surjective_pairing.
  - exact first_approved.
  - exists b. split; [exact Hg|exact Ht].
Defined.

Lemma no_replay_witness :
  (serve (run_auth first.1 [AuthOp.Authorize (Ok (Some durable)) (request proof2 1000) (at_ms 1500)] 1).1
     (request proof1 1000) (at_ms 2000)).2 ≠ Ok (Some durable).
Proof.
  apply (no_replay granted (Ok (Some durable)) (Ok (Some durable)) (request proof1 1000)
    (request proof1 1000) (at_ms 1000) (at_ms 2000) first.1 durable
    [AuthOp.Authorize (Ok (Some durable)) (request proof2 1000) (at_ms 1500)] 1 _
    (run_auth first.1 [AuthOp.Authorize (Ok (Some durable)) (request proof2 1000) (at_ms 1500)] 1).2).
  - exact first_approved.
  - apply surjective_pairing.
  - reflexivity.
  - reflexivity.
  - repeat constructor. vm_compute. discriminate.
  - vm_compute. reflexivity.
  - vm_compute. discriminate.
  - vm_compute. discriminate.
Defined.
End TransferAuthExamples.
