(* ===== verification/TransferStore.v ===== *)
(** * The transfer tables, the transactions on them and the data-plane services

    Models [crates/server/src/adapters/postgres/transfer_repository.rs] and
    [authorization_repository.rs] over the tables [artifacts], [transfers],
    [chunk_manifests] and [chunk_identities] of
    [crates/server/migrations/0001_initial_schema.sql], and the services
    [TransferService], [ChunkAcceptanceService], [ManifestSealService] and
    [ArtifactVerificationService] of [crates/server/src/application/mod.rs].

    Every method locks the [transfers] row first and keeps the lock to the end of its
    transaction, so transactions on one Transfer are serialised: each is one step. *)

From stdpp Require Import prelude gmap strings sorting.
From Stdlib Require Import Strings.Byte NArith ZArith.
From S2P Require Import Prelude.
From S2P Require Import External.
From S2P Require Import Credential.
From S2P Require Import Endpoint.
From S2P Require Import EnrollmentStore.
From S2P Require Import Job.
From S2P Require Import Transfer.
From S2P Require Import JobStore.
From S2P Require Import TransferAuth.

(** ** Columns *)

(** [n as i32] of a [u32], and [z as u32] of an [i32]. *)
Definition u32_as_i32 (n : N) : Z := ((Z.of_N n + 2 ^ 31) mod 2 ^ 32 - 2 ^ 31)%Z.
Definition i32_as_u32 (z : Z) : N := Z.to_N (z mod 2 ^ 32).

Record ArtifactRow : Type := {
  afr_state : ArtifactState.t;
  afr_capture_consistency : CaptureConsistency.t;
}.

Record ManifestRow : Type := {
  mr_sealed : bool;
  mr_chunk_count : option Z;
  mr_artifact_digest : option (list byte);
}.

Record ChunkRow : Type := {
  cr_size : Z;
  cr_digest : list byte;
  cr_held : bool;
}.

(** [td_jobs] holds [transfers] and the tables of the Job repository. *)
Record TransferDb : Type := {
  td_jobs : JobDb;
  td_artifacts : gmap ArtifactId ArtifactRow;
  td_manifests : gmap ArtifactId ManifestRow;
  td_chunks : gmap (ArtifactId * Z) ChunkRow;
}.

Definition td_transfers (db : TransferDb) : gmap TransferId Transfer := jd_transfers (td_jobs db).

Definition with_td_jobs (db : TransferDb) (j : JobDb) : TransferDb :=
  {| td_jobs := j; td_artifacts := td_artifacts db; td_manifests := td_manifests db;
     td_chunks := td_chunks db |}.
Definition with_artifacts (db : TransferDb) (m : gmap ArtifactId ArtifactRow) : TransferDb :=
  {| td_jobs := td_jobs db; td_artifacts := m; td_manifests := td_manifests db;
     td_chunks := td_chunks db |}.
Definition with_manifests (db : TransferDb) (m : gmap ArtifactId ManifestRow) : TransferDb :=
  {| td_jobs := td_jobs db; td_artifacts := td_artifacts db; td_manifests := m;
     td_chunks := td_chunks db |}.
Definition with_chunks (db : TransferDb) (m : gmap (ArtifactId * Z) ChunkRow) : TransferDb :=
  {| td_jobs := td_jobs db; td_artifacts := td_artifacts db; td_manifests := td_manifests db;
     td_chunks := m |}.

(** ** Statements *)

(** [UPDATE artifacts SET state = $1 WHERE id = $2]. *)
Definition update_artifact_state (db : TransferDb) (id : ArtifactId) (state : ArtifactState.t)
  : TransferDb :=
  with_artifacts db (alter (λ row,
    {| afr_state := state; afr_capture_consistency := afr_capture_consistency row |})
    id (td_artifacts db)).

(** [INSERT INTO chunk_identities], with the CHECKs of its columns. *)
Definition insert_chunk (db : TransferDb) (id : ArtifactId) (index : ChunkIndex) (size : N)
    (digest : Digest) (held : bool) : result Backend.t TransferDb :=
  if (u32_as_i32 index <? 0)%Z || (u32_as_i32 size <=? 0)%Z
     || negb (bool_decide (length digest = 32))
  then Err Backend.CheckViolation
  else
    chunks ← insert_unique (id, u32_as_i32 index)
               {| cr_size := u32_as_i32 size; cr_digest := digest; cr_held := held |}
               (td_chunks db);
    Ok (with_chunks db chunks).

(** [UPDATE chunk_identities SET held = TRUE WHERE artifact_id = $1 AND chunk_index = $2]. *)
Definition mark_held (db : TransferDb) (id : ArtifactId) (index : ChunkIndex) : TransferDb :=
  with_chunks db (alter (λ row,
    {| cr_size := cr_size row; cr_digest := cr_digest row; cr_held := true |})
    (id, u32_as_i32 index) (td_chunks db)).

(** [UPDATE chunk_manifests SET sealed = TRUE, chunk_count = $1, artifact_digest = $2]. *)
Definition update_sealed (db : TransferDb) (id : ArtifactId) (chunk_count : N) (digest : Digest)
  : result Backend.t TransferDb :=
  match td_manifests db !! id with
  | None => Ok db
  | Some _ =>
      if (u32_as_i32 chunk_count <? 0)%Z || negb (bool_decide (length digest = 32))
      then Err Backend.CheckViolation
      else Ok (with_manifests db (<[id := {| mr_sealed := true;
                                            mr_chunk_count := Some (u32_as_i32 chunk_count);
                                            mr_artifact_digest := Some digest |}]>
                                    (td_manifests db)))
  end.

(** [SELECT ... FROM chunk_identities WHERE artifact_id = $1 ORDER BY chunk_index ASC]. *)
Definition chunk_le (p q : Z * ChunkRow) : Prop := (p.1 ≤ q.1)%Z.
#[global] Instance chunk_le_dec : RelDecision chunk_le.
Proof. intros p q. unfold chunk_le. apply _. Defined.

Definition chunk_rows (db : TransferDb) (id : ArtifactId) : list (Z * ChunkRow) :=
  merge_sort chunk_le
    (omap (λ p : (ArtifactId * Z) * ChunkRow,
             if bool_decide (p.1.1 = id) then Some (p.1.2, p.2) else None)
       (map_to_list (td_chunks db))).

(** ** Locked reads *)

Record TransferLockedFacts : Type := {
  tf_transfer : Transfer;
  tf_artifact : Artifact;
  tf_manifest : ChunkManifest;
  tf_held_chunk_indices : gset ChunkIndex;
}.

(** The loop that replays the rows into a fresh manifest. *)
Fixpoint replay_chunks (rows : list (Z * ChunkRow)) (manifest : ChunkManifest)
    (held : gset ChunkIndex) : result Backend.t (ChunkManifest * gset ChunkIndex) :=
  match rows with
  | [] => Ok (manifest, held)
  | (index, row) :: rest =>
      match record_expected_chunk manifest (i32_as_u32 index) (i32_as_u32 (cr_size row))
              (cr_digest row) with
      | Ok (ChunkRecordOutcome.Added m) =>
          replay_chunks rest m (if cr_held row then {[i32_as_u32 index]} ∪ held else held)
      | _ => Err Backend.InvariantViolation
      end
  end.

(** Sealing is reapplied last. *)
Definition replay_seal (row : ManifestRow) (manifest : ChunkManifest)
  : result Backend.t ChunkManifest :=
  if mr_sealed row then
    chunk_count ← ok_or Backend.UnexpectedNull (mr_chunk_count row);
    artifact_digest ← ok_or Backend.UnexpectedNull (mr_artifact_digest row);
    match seal manifest (i32_as_u32 chunk_count) artifact_digest with
    | Ok (SealOutcome.Sealed m) => Ok m
    | _ => Err Backend.InvariantViolation
    end
  else Ok manifest.

Definition load_locked_transfer_and_artifact (db : TransferDb) (transfer_id : TransferId)
  : result Backend.t (option (Transfer * Artifact)) :=
  match td_transfers db !! transfer_id with
  | None => Ok None
  | Some transfer =>
      match ChunkSize_new (tr_chunk_size transfer), td_artifacts db !! tr_artifact_id transfer with
      | Err _, _ => Err Backend.InvariantViolation
      | Ok _, None => Err Backend.MissingRow
      | Ok _, Some row =>
          Ok (Some (transfer, {| ar_id := tr_artifact_id transfer; ar_state := afr_state row;
                                 ar_capture_consistency := afr_capture_consistency row |}))
      end
  end.

(** It starts with the text of [load_locked_transfer_and_artifact]. *)
Definition load_locked_facts (db : TransferDb) (transfer_id : TransferId)
  : result Backend.t (option TransferLockedFacts) :=
  locked ← load_locked_transfer_and_artifact db transfer_id;
  match locked with
  | None => Ok None
  | Some (transfer, artifact) =>
      row ← ok_or Backend.MissingRow (td_manifests db !! ar_id artifact);
      let manifest := ChunkManifest_new (ar_id artifact) (tr_digest_algorithm transfer)
                        (tr_chunk_size transfer) in
      replayed ← replay_chunks (chunk_rows db (ar_id artifact)) manifest ∅;
      manifest ← replay_seal row replayed.1;
      Ok (Some {| tf_transfer := transfer; tf_artifact := artifact; tf_manifest := manifest;
                  tf_held_chunk_indices := replayed.2 |})
  end.

Definition load_attempt_for_update (db : TransferDb) (id : AttemptId) : option Attempt :=
  jd_attempts (td_jobs db) !! id.

Definition load_endpoint (db : TransferDb) (id : EndpointId) : result Backend.t EndpointAggregate :=
  ok_or (Backend.MissingEndpoint id) (jd_endpoints (td_jobs db) !! id).

Definition load_authorization_state (db : TransferDb) (transfer_id : TransferId)
  : result Backend.t (option AuthorizationDurableState) :=
  facts ← load_locked_facts db transfer_id;
  match facts with
  | None => Ok None
  | Some facts =>
      attempt ← match tr_attempt_id (tf_transfer facts) with
        | Some id => a ← ok_or Backend.MissingRow (load_attempt_for_update db id); Ok (Some a)
        | None => Ok None
        end;
      endpoint ← load_endpoint db (tr_endpoint_id (tf_transfer facts));
      Ok (Some {| ad_transfer := tf_transfer facts; ad_artifact := tf_artifact facts;
                  ad_manifest := tf_manifest facts;
                  ad_held_chunk_indices := tf_held_chunk_indices facts;
                  ad_attempt := attempt; ad_endpoint := endpoint |})
  end.

(** ** Repository methods *)

(** The error enums of the transfer methods, joined as [ApplicationError] joins them. *)
Module TransferError.
Inductive t : Type :=
| TransferNotFound (id : TransferId)
| EndpointNotFound (id : EndpointId)
| JobNotFound (id : JobId)
| JobEndpointMismatch (id : JobId) (endpoint_id : EndpointId)
| JobStepNotFound (step_id : JobStepId) (id : JobId)
| RecordChunk (e : ChunkRecordError.t)
| AcceptChunk (e : ChunkAcceptError.t)
| Seal (e : SealError.t)
| Transition (e : ArtifactTransitionError.t)
| Binding (e : TransferBindingError.t)
| Repository (e : Backend.t).
End TransferError.

(** The first statement of every mutating method:
    [let Some(facts) = load_locked_facts(..).await? else { rollback; NotFound }]. *)
Definition locked {A} (db : TransferDb) (transfer_id : TransferId)
    (k : TransferLockedFacts → TransferDb * result TransferError.t A)
  : TransferDb * result TransferError.t A :=
  match load_locked_facts db transfer_id with
  | Err e => (db, Err (TransferError.Repository e))
  | Ok None => (db, Err (TransferError.TransferNotFound transfer_id))
  | Ok (Some facts) => k facts
  end.

(** The last statements: a failed write rolls the transaction back. *)
Definition commit {A} (db : TransferDb) (written : result Backend.t TransferDb) (a : A)
  : TransferDb * result TransferError.t A :=
  match written with
  | Err e => (db, Err (TransferError.Repository e))
  | Ok db' => (db', Ok a)
  end.

(** [INSERT INTO transfers]: unique [artifact_id] and [attempt_id], [chunk_size > 0],
    [attempt_id] references [attempts]. *)
Definition insert_transfer (db : TransferDb) (t : Transfer) : result Backend.t TransferDb :=
  if existsb (λ p : TransferId * Transfer,
                bool_decide (tr_artifact_id p.2 = tr_artifact_id t)
                || bool_decide (is_Some (tr_attempt_id t) ∧ tr_attempt_id p.2 = tr_attempt_id t))
       (map_to_list (td_transfers db))
  then Err Backend.UniqueViolation
  else if (u32_as_i32 (tr_chunk_size t) <=? 0)%Z then Err Backend.CheckViolation
  else if match tr_attempt_id t with
          | Some a => bool_decide (load_attempt_for_update db a = None)
          | None => false
          end
  then Err Backend.MissingRow
  else
    transfers ← insert_unique (tr_id t) t (td_transfers db);
    Ok (with_td_jobs db (with_transfers (td_jobs db) transfers)).

Definition repo_create_transfer_context (db : TransferDb) (context : TransferContext)
  : TransferDb * result TransferError.t unit :=
  let transfer := tc_transfer context in
  let artifact := tc_artifact context in
  match jd_endpoints (td_jobs db) !! tr_endpoint_id transfer with
  | None => (db, Err (TransferError.EndpointNotFound (tr_endpoint_id transfer)))
  | Some _ =>
      match jd_jobs (td_jobs db) !! tr_job_id transfer with
      | None => (db, Err (TransferError.JobNotFound (tr_job_id transfer)))
      | Some row =>
          if negb (bool_decide (jr_endpoint_id row = tr_endpoint_id transfer))
          then (db, Err (TransferError.JobEndpointMismatch (tr_job_id transfer)
                           (tr_endpoint_id transfer)))
          else if negb (existsb (λ s, bool_decide (js_job_id s = tr_job_id transfer))
                          (option_list (jd_steps (td_jobs db) !! tr_job_step_id transfer)))
          then (db, Err (TransferError.JobStepNotFound (tr_job_step_id transfer)
                           (tr_job_id transfer)))
          else
            commit db
              (artifacts ← insert_unique (ar_id artifact)
                 {| afr_state := ar_state artifact;
                    afr_capture_consistency := ar_capture_consistency artifact |}
                 (td_artifacts db);
               db1 ← insert_transfer (with_artifacts db artifacts) transfer;
               manifests ← insert_unique (ar_id artifact)
                 {| mr_sealed := false; mr_chunk_count := None; mr_artifact_digest := None |}
                 (td_manifests db1);
               Ok (with_manifests db1 manifests)) tt
      end
  end.

Definition repo_find_transfer_context (db : TransferDb) (transfer_id : TransferId)
  : result Backend.t (option (TransferContext * gset ChunkIndex)) :=
  facts ← load_locked_facts db transfer_id;
  Ok (f ← facts;
      Some ({| tc_transfer := tf_transfer f; tc_artifact := tf_artifact f;
               tc_manifest := tf_manifest f |}, tf_held_chunk_indices f)).

Definition repo_record_expected_chunk (db : TransferDb) (transfer_id : TransferId)
    (decide : TransferLockedFacts → result ChunkRecordError.t ChunkRecordOutcome.t)
  : TransferDb * result TransferError.t ChunkRecordOutcome.t :=
  locked db transfer_id (λ facts,
    match decide facts with
    | Err e => (db, Err (TransferError.RecordChunk e))
    | Ok outcome =>
        commit db
          (match outcome with
           | ChunkRecordOutcome.AlreadyRecorded => Ok db
           | ChunkRecordOutcome.Added manifest =>
               new_index ← ok_or Backend.InvariantViolation
                 (List.find (λ i, bool_decide (expected_chunk (tf_manifest facts) i = None))
                    (ascending (chunk_indices manifest)));
               expected ← ok_or Backend.InvariantViolation (expected_chunk manifest new_index);
               insert_chunk db (ar_id (tf_artifact facts)) new_index (ec_size expected)
                 (ec_digest expected) false
           end) outcome
    end).

Module AcceptChunkOutcome.
Inductive t : Type := Accepted | AlreadyHeld.
End AcceptChunkOutcome.

Definition repo_accept_verified_chunk (db : TransferDb) (transfer_id : TransferId)
    (index : ChunkIndex) (decide : TransferLockedFacts → result ChunkAcceptError.t unit)
  : TransferDb * result TransferError.t AcceptChunkOutcome.t :=
  locked db transfer_id (λ facts,
    match decide facts with
    | Err e => (db, Err (TransferError.AcceptChunk e))
    | Ok _ =>
        if bool_decide (index ∈ tf_held_chunk_indices facts)
        then (db, Ok AcceptChunkOutcome.AlreadyHeld)
        else (mark_held db (ar_id (tf_artifact facts)) index, Ok AcceptChunkOutcome.Accepted)
    end).

Definition repo_seal_manifest (db : TransferDb) (transfer_id : TransferId)
    (decide : TransferLockedFacts → result SealError.t SealOutcome.t)
  : TransferDb * result TransferError.t SealOutcome.t :=
  locked db transfer_id (λ facts,
    match decide facts with
    | Err e => (db, Err (TransferError.Seal e))
    | Ok outcome =>
        commit db
          (match outcome with
           | SealOutcome.AlreadySealed => Ok db
           | SealOutcome.Sealed manifest =>
               chunk_count ← ok_or Backend.InvariantViolation (cm_chunk_count manifest);
               artifact_digest ← ok_or Backend.InvariantViolation (cm_artifact_digest manifest);
               update_sealed db (ar_id (tf_artifact facts)) chunk_count artifact_digest
           end) outcome
    end).

(** Also [begin_artifact_verification], [complete_artifact_verification] and
    [fail_incomplete_artifact], which only call it. *)
Definition commit_artifact_transition (db : TransferDb) (transfer_id : TransferId)
    (decide : TransferLockedFacts → result ArtifactTransitionError.t Artifact)
  : TransferDb * result TransferError.t Artifact :=
  locked db transfer_id (λ facts,
    match decide facts with
    | Err e => (db, Err (TransferError.Transition e))
    | Ok updated => (update_artifact_state db (ar_id updated) (ar_state updated), Ok updated)
    end).

Definition repo_bind_attempt (db : TransferDb) (transfer_id : TransferId)
    (decide : TransferLockedFacts → result TransferBindingError.t Transfer)
  : TransferDb * result TransferError.t Transfer :=
  locked db transfer_id (λ facts,
    match decide facts with
    | Err e => (db, Err (TransferError.Binding e))
    | Ok bound =>
        commit db
          (match tr_attempt_id bound with
           | None => Ok db
           | Some id =>
               if bool_decide (load_attempt_for_update db id = None) then Err Backend.MissingRow
               else jobs ← persist_attempt_binding (td_jobs db) transfer_id id;
                    Ok (with_td_jobs db jobs)
           end) bound
    end).

(** *** Chunk acceptance, seal and verification commits *)

Module ChunkAcceptanceDecided.
Inductive t : Type :=
| Commit (record : ChunkRecordOutcome.t) | RejectConflict | RejectNotContinuable | FailClosed.
End ChunkAcceptanceDecided.

Module ChunkAcceptanceCommit.
Inductive t : Type :=
| Committed | AlreadyCommitted | RejectedConflict | RejectedNotContinuable | FailClosed.
#[global] Instance t_eq_dec : EqDecision t.
Proof. solve_decision. Defined.
End ChunkAcceptanceCommit.

(** The owning Attempt, if the Transfer is bound and the row exists. *)
Definition owning_attempt (db : TransferDb) (transfer : Transfer) : option Attempt :=
  id ← tr_attempt_id transfer; load_attempt_for_update db id.

Definition repo_commit_chunk_acceptance (db : TransferDb) (transfer_id : TransferId)
    (index : ChunkIndex)
    (decide : TransferLockedFacts → option Attempt → ChunkAcceptanceDecided.t)
  : TransferDb * result TransferError.t ChunkAcceptanceCommit.t :=
  locked db transfer_id (λ facts,
    match decide facts (owning_attempt db (tf_transfer facts)) with
    | ChunkAcceptanceDecided.RejectConflict => (db, Ok ChunkAcceptanceCommit.RejectedConflict)
    | ChunkAcceptanceDecided.RejectNotContinuable =>
        (db, Ok ChunkAcceptanceCommit.RejectedNotContinuable)
    | ChunkAcceptanceDecided.FailClosed => (db, Ok ChunkAcceptanceCommit.FailClosed)
    | ChunkAcceptanceDecided.Commit (ChunkRecordOutcome.Added manifest) =>
        commit db
          (expected ← ok_or Backend.InvariantViolation (expected_chunk manifest index);
           insert_chunk db (ar_id (tf_artifact facts)) index (ec_size expected)
             (ec_digest expected) true) ChunkAcceptanceCommit.Committed
    | ChunkAcceptanceDecided.Commit ChunkRecordOutcome.AlreadyRecorded =>
        if bool_decide (index ∈ tf_held_chunk_indices facts)
        then (db, Ok ChunkAcceptanceCommit.AlreadyCommitted)
        else (mark_held db (ar_id (tf_artifact facts)) index,
              Ok ChunkAcceptanceCommit.Committed)
    end).

Record SealedManifestDurableFacts : Type := {
  sm_artifact_id : ArtifactId;
  sm_digest_algorithm : DigestAlgorithm.t;
  sm_chunk_size : N;
  sm_chunk_count : N;
  sm_expected_artifact_digest : str;
}.

Module ManifestSealDecided.
Inductive t : Type :=
| Seal (chunk_count : N) (artifact_digest : Digest)
| AlreadyPending | RejectIncomplete | RejectAlreadySealed | Denied | FailClosed.
End ManifestSealDecided.

Module ManifestSealCommit.
Inductive t : Type :=
| Sealed (facts : SealedManifestDurableFacts)
| AlreadyPending (facts : SealedManifestDurableFacts)
| RejectedIncomplete | RejectedAlreadySealed | Denied | FailClosed.
End ManifestSealCommit.

Module ArtifactVerificationDecided.
Inductive t : Type := Commit (updated : Artifact) | FailClosed.
End ArtifactVerificationDecided.

Module ArtifactVerificationCommit.
Inductive t : Type := Committed (verified : bool) | FailClosed.
End ArtifactVerificationCommit.

Section Commits.
Context {b64 : Base64}.

(** What the adapter does with a seal decision, in the transaction that locked [snapshot]. *)
Definition persist_seal (db : TransferDb) (snapshot : AuthorizationDurableState)
    (decided : ManifestSealDecided.t) : TransferDb * result TransferError.t ManifestSealCommit.t :=
  let sealed_facts digest_wire chunk_count :=
    {| sm_artifact_id := ar_id (ad_artifact snapshot);
       sm_digest_algorithm := cm_digest_algorithm (ad_manifest snapshot);
       sm_chunk_size := cm_chunk_size (ad_manifest snapshot);
       sm_chunk_count := chunk_count; sm_expected_artifact_digest := digest_wire |} in
  match decided with
  | ManifestSealDecided.Denied => (db, Ok ManifestSealCommit.Denied)
  | ManifestSealDecided.FailClosed => (db, Ok ManifestSealCommit.FailClosed)
  | ManifestSealDecided.RejectIncomplete => (db, Ok ManifestSealCommit.RejectedIncomplete)
  | ManifestSealDecided.RejectAlreadySealed => (db, Ok ManifestSealCommit.RejectedAlreadySealed)
  | ManifestSealDecided.AlreadyPending =>
      (db, match cm_chunk_count (ad_manifest snapshot), cm_artifact_digest (ad_manifest snapshot) with
           | Some chunk_count, Some digest =>
               Ok (ManifestSealCommit.AlreadyPending
                     (sealed_facts (Digest_to_wire_value digest) chunk_count))
           | _, _ => Err (TransferError.Repository Backend.InvariantViolation)
           end)
  | ManifestSealDecided.Seal chunk_count artifact_digest =>
      commit db
        (db1 ← update_sealed db (ar_id (ad_artifact snapshot)) chunk_count artifact_digest;
         Ok (update_artifact_state db1 (ar_id (ad_artifact snapshot))
               ArtifactState.PendingVerification))
        (ManifestSealCommit.Sealed (sealed_facts (Digest_to_wire_value artifact_digest) chunk_count))
  end.

(** [decide] also updates the replay cache it shares with the authorization service. *)
Definition repo_commit_manifest_seal (db : TransferDb) (replay : Replay.ReplayCache)
    (transfer_id : TransferId)
    (decide : Replay.ReplayCache → AuthorizationDurableState →
              Replay.ReplayCache * ManifestSealDecided.t)
  : (TransferDb * Replay.ReplayCache) * result TransferError.t ManifestSealCommit.t :=
  match load_locked_facts db transfer_id with
  | Err e => ((db, replay), Err (TransferError.Repository e))
  | Ok None => ((db, replay), Err (TransferError.TransferNotFound transfer_id))
  | Ok (Some facts) =>
      match load_endpoint db (tr_endpoint_id (tf_transfer facts)) with
      | Err e => ((db, replay), Err (TransferError.Repository e))
      | Ok endpoint =>
          let snapshot := {|
            ad_transfer := tf_transfer facts; ad_artifact := tf_artifact facts;
            ad_manifest := tf_manifest facts;
            ad_held_chunk_indices := tf_held_chunk_indices facts;
            ad_attempt := owning_attempt db (tf_transfer facts); ad_endpoint := endpoint |} in
          let '(replay', decided) := decide replay snapshot in
          let '(db', r) := persist_seal db snapshot decided in
          ((db', replay'), r)
      end
  end.

Definition repo_commit_artifact_verification (db : TransferDb) (transfer_id : TransferId)
    (decide : TransferLockedFacts → ArtifactVerificationDecided.t)
  : TransferDb * result TransferError.t ArtifactVerificationCommit.t :=
  locked db transfer_id (λ facts,
    match decide facts with
    | ArtifactVerificationDecided.FailClosed => (db, Ok ArtifactVerificationCommit.FailClosed)
    | ArtifactVerificationDecided.Commit updated =>
        (update_artifact_state db (ar_id updated) (ar_state updated),
         Ok (ArtifactVerificationCommit.Committed
               (bool_decide (ar_state updated = ArtifactState.Verified))))
    end).
End Commits.

(** ** [TransferService] *)

Definition service_create_transfer_context `{Entropy} (db : TransferDb) (endpoint_id : EndpointId)
    (id : JobId) (step_id : JobStepId) (direction : TransferDirection.t)
    (digest_algorithm : DigestAlgorithm.t) (chunk_size : N) (source_provenance : str)
  : Gen (TransferDb * result TransferError.t TransferContext) :=
  context ← create_transfer_context endpoint_id id step_id direction digest_algorithm chunk_size
              source_provenance;
  mret match repo_create_transfer_context db context with
  | (db', Err e) => (db', Err e)
  | (db', Ok _) => (db', Ok context)
  end.

Definition service_record_expected_chunk (db : TransferDb) (transfer_id : TransferId)
    (index : ChunkIndex) (size : N) (digest_bytes : list byte)
  : TransferDb * result TransferError.t ChunkRecordOutcome.t :=
  repo_record_expected_chunk db transfer_id (λ facts,
    record_expected_chunk (tf_manifest facts) index size digest_bytes).

Definition service_accept_verified_chunk (db : TransferDb) (transfer_id : TransferId)
    (index : ChunkIndex) (verified_digest_bytes : list byte)
  : TransferDb * result TransferError.t AcceptChunkOutcome.t :=
  repo_accept_verified_chunk db transfer_id index (λ facts,
    validate_verified_chunk (tf_manifest facts) index verified_digest_bytes).

Definition service_seal_manifest (db : TransferDb) (transfer_id : TransferId) (chunk_count : N)
    (artifact_digest_bytes : list byte) : TransferDb * result TransferError.t SealOutcome.t :=
  repo_seal_manifest db transfer_id (λ facts,
    seal (tf_manifest facts) chunk_count artifact_digest_bytes).

Definition service_begin_artifact_verification (db : TransferDb) (transfer_id : TransferId)
  : TransferDb * result TransferError.t Artifact :=
  commit_artifact_transition db transfer_id (λ facts,
    begin_verification (tf_artifact facts) (tf_manifest facts) (tf_held_chunk_indices facts)).

Definition service_complete_artifact_verification (db : TransferDb) (transfer_id : TransferId)
    (digest_matches : bool) : TransferDb * result TransferError.t Artifact :=
  commit_artifact_transition db transfer_id (λ facts,
    complete_verification (tf_artifact facts) digest_matches).

Definition service_fail_incomplete_artifact (db : TransferDb) (transfer_id : TransferId)
  : TransferDb * result TransferError.t Artifact :=
  commit_artifact_transition db transfer_id (λ facts, fail_incomplete (tf_artifact facts)).

Definition service_bind_attempt (db : TransferDb) (transfer_id : TransferId) (attempt : Attempt)
  : TransferDb * result TransferError.t Transfer :=
  repo_bind_attempt db transfer_id (λ facts, bind_attempt (tf_transfer facts) attempt).

(** ** [ChunkAcceptanceService], [ManifestSealService], [ArtifactVerificationService] *)

Section DataPlane.
Context {b64 : Base64}.

Definition chunk_acceptance_decision (index : ChunkIndex) (digest : str) (size : N)
    (facts : TransferLockedFacts) (attempt : option Attempt) : ChunkAcceptanceDecided.t :=
  let manifest := tf_manifest facts in
  let has_identity := bool_decide (is_Some (expected_chunk manifest index)) in
  if negb (is_ok (data_plane_operation_is_current AuthorizationOperation.ChunkUpload
                    (ar_state (tf_artifact facts)) (cm_sealed manifest) has_identity))
  then ChunkAcceptanceDecided.RejectNotContinuable
  else if negb (existsb (λ a, bool_decide (at_state a = AttemptState.InProgress))
                  (option_list attempt))
  then ChunkAcceptanceDecided.RejectNotContinuable
  else if (size =? 0)%N || (cm_chunk_size manifest <? size)%N
  then ChunkAcceptanceDecided.FailClosed
  else
    match Digest_parse_wire_value (cm_digest_algorithm manifest) digest with
    | Err _ => ChunkAcceptanceDecided.FailClosed
    | Ok digest =>
        let record :=
          match record_expected_chunk manifest index size digest with
          | Ok outcome => ChunkAcceptanceDecided.Commit outcome
          | Err (ChunkRecordError.Conflict _) => ChunkAcceptanceDecided.FailClosed
          | Err ChunkRecordError.NotContinuable => ChunkAcceptanceDecided.RejectNotContinuable
          | Err (ChunkRecordError.BadDigestLength _) => ChunkAcceptanceDecided.FailClosed
          end in
        match expected_chunk manifest index with
        | Some existing =>
            if negb (bool_decide (ec_digest existing = digest))
            then ChunkAcceptanceDecided.RejectConflict
            else if negb (bool_decide (ec_size existing = size))
            then ChunkAcceptanceDecided.FailClosed
            else record
        | None => record
        end
    end.

Definition service_commit_chunk_acceptance (db : TransferDb) (transfer_id : TransferId)
    (chunk_index : N) (digest : str) (size : N)
  : TransferDb * result TransferError.t ChunkAcceptanceCommit.t :=
  match try_u32 chunk_index with
  | None => (db, Ok ChunkAcceptanceCommit.FailClosed)
  | Some index =>
      match repo_commit_chunk_acceptance db transfer_id index
              (chunk_acceptance_decision index digest size) with
      | (db', Err (TransferError.TransferNotFound _)) => (db', Ok ChunkAcceptanceCommit.FailClosed)
      | other => other
      end
  end.

Context {sha : Sha256} {ed : Ed25519} {chrono : ChronoRange}.

Record ManifestSealInput : Type := {
  ms_token : str;
  ms_transfer_id : TransferId;
  ms_proof_id : str;
  ms_issued_at_millis : N;
  ms_signature : str;
  ms_chunk_count : N;
  ms_artifact_digest : str;
}.

(** The seal request as the authorization request it also is. *)
Definition seal_query (input : ManifestSealInput) : WorkerAuthorizationQueryInput := {|
  wq_token := ms_token input; wq_operation := AuthorizationOperation.SealManifest;
  wq_transfer_id := ms_transfer_id input; wq_chunk_index := None;
  wq_proof_id := ms_proof_id input; wq_issued_at_millis := ms_issued_at_millis input;
  wq_signature := ms_signature input |}.

(** The part of the decision after authorization and replay check. *)
Definition seal_composition (chunk_count : N) (digest : Digest) (state : AuthorizationDurableState)
  : ManifestSealDecided.t :=
  match ar_state (ad_artifact state) with
  | ArtifactState.Incomplete =>
      if cm_sealed (ad_manifest state) then ManifestSealDecided.FailClosed
      else
        match seal (ad_manifest state) chunk_count digest with
        | Ok (SealOutcome.Sealed sealed) =>
            match begin_verification (ad_artifact state) sealed (ad_held_chunk_indices state) with
            | Ok _ => ManifestSealDecided.Seal chunk_count digest
            | Err ArtifactTransitionError.IncompleteChunks => ManifestSealDecided.RejectIncomplete
            | Err _ => ManifestSealDecided.FailClosed
            end
        | Err SealError.IncompleteChunkSet | Err SealError.NonContiguousIndices =>
            ManifestSealDecided.RejectIncomplete
        | Ok _ | Err _ => ManifestSealDecided.FailClosed
        end
  | ArtifactState.PendingVerification =>
      if negb (cm_sealed (ad_manifest state)) then ManifestSealDecided.FailClosed
      else
        match seal (ad_manifest state) chunk_count digest with
        | Ok SealOutcome.AlreadySealed => ManifestSealDecided.AlreadyPending
        | Err SealError.ConflictingReseal => ManifestSealDecided.RejectAlreadySealed
        | Ok _ | Err _ => ManifestSealDecided.FailClosed
        end
  | ArtifactState.Verified | ArtifactState.Failed => ManifestSealDecided.Denied
  end.

(** The closure handed to the repository. Its checks on the durable state are those of
    [authorize_durable] for the operation [SealManifest]. *)
Definition manifest_seal_decision (binding : CapabilityBinding) (proof_id : ProofId)
    (input : ManifestSealInput) (chunk_count : N) (now : Instant) (replay : Replay.ReplayCache)
    (state : AuthorizationDurableState) : Replay.ReplayCache * ManifestSealDecided.t :=
  if negb (authorize_durable binding (seal_query input) now state)
  then (replay, ManifestSealDecided.Denied)
  else
    match Digest_parse_wire_value (cm_digest_algorithm (ad_manifest state))
            (ms_artifact_digest input) with
    | Err _ => (replay, ManifestSealDecided.FailClosed)
    | Ok digest =>
        let '(replay', r) := Replay.check_and_insert replay proof_id now
                               (replay_valid_until (ms_issued_at_millis input)) in
        (replay', match r with
                  | Err _ => ManifestSealDecided.Denied
                  | Ok _ => seal_composition chunk_count digest state
                  end)
    end.

(** The checks before the transaction are those of [authorize_proof]. *)
Definition service_commit_manifest_seal (db : TransferDb) (s : AuthState)
    (input : ManifestSealInput) (now : Instant)
  : (TransferDb * AuthState) * result TransferError.t ManifestSealCommit.t :=
  match authorize_proof (as_capabilities s) (seal_query input) now with
  | None => ((db, s), Ok ManifestSealCommit.Denied)
  | Some (binding, proof_id) =>
      match try_u32 (ms_chunk_count input) with
      | None => ((db, s), Ok ManifestSealCommit.FailClosed)
      | Some chunk_count =>
          let '((db', replay'), r) := repo_commit_manifest_seal db (as_replay s)
            (ms_transfer_id input)
            (manifest_seal_decision binding proof_id input chunk_count now) in
          ((db', {| as_capabilities := as_capabilities s; as_replay := replay' |}),
           match r with
           | Err (TransferError.TransferNotFound _) => Ok ManifestSealCommit.Denied
           | other => other
           end)
      end
  end.

Record ArtifactVerificationInput : Type := {
  av_transfer_id : TransferId;
  av_artifact_id : ArtifactId;
  av_chunk_count : N;
  av_bound_expected_artifact_digest : str;
  av_computed_artifact_digest : str;
}.

Definition artifact_verification_decision (input : ArtifactVerificationInput)
    (facts : TransferLockedFacts) : ArtifactVerificationDecided.t :=
  if negb (bool_decide (ar_id (tf_artifact facts) = av_artifact_id input))
     || negb (bool_decide (tr_artifact_id (tf_transfer facts) = av_artifact_id input))
     || negb (bool_decide (ar_state (tf_artifact facts) = ArtifactState.PendingVerification))
     || negb (cm_sealed (tf_manifest facts))
     || negb (bool_decide (cm_chunk_count (tf_manifest facts) = Some (av_chunk_count input)))
  then ArtifactVerificationDecided.FailClosed
  else
    match cm_artifact_digest (tf_manifest facts) with
    | None => ArtifactVerificationDecided.FailClosed
    | Some expected =>
        if negb (bool_decide (Digest_to_wire_value expected
                              = av_bound_expected_artifact_digest input))
        then ArtifactVerificationDecided.FailClosed
        else
          match Digest_parse_wire_value (cm_digest_algorithm (tf_manifest facts))
                  (av_computed_artifact_digest input) with
          | Err _ => ArtifactVerificationDecided.FailClosed
          | Ok computed =>
              match complete_verification (tf_artifact facts) (bool_decide (computed = expected)) with
              | Ok updated => ArtifactVerificationDecided.Commit updated
              | Err _ => ArtifactVerificationDecided.FailClosed
              end
          end
    end.

Definition service_commit_artifact_verification (db : TransferDb)
    (input : ArtifactVerificationInput)
  : TransferDb * result TransferError.t ArtifactVerificationCommit.t :=
  match repo_commit_artifact_verification db (av_transfer_id input)
          (artifact_verification_decision input) with
  | (db', Err (TransferError.TransferNotFound _)) => (db', Ok ArtifactVerificationCommit.FailClosed)
  | other => other
  end.
End DataPlane.
