(* ===== verification/TransferEvidence.v ===== *)
(** * Terminal evidence about transfers, and runs of the whole data plane

    Models [TransferTerminalEvidenceService] and its four decision functions in
    [crates/server/src/application/mod.rs], and
    [PostgresJobRepository::apply_transfer_terminal_evidence] of [job_repository.rs]:
    the transaction that ends a transfer's Attempt and fails its Artifact together.
    [TransferWorld] and [run_transfer_op] put these services beside the Job services and
    the authorization service, over one database. *)

From stdpp Require Import prelude gmap strings.
From Stdlib Require Import Strings.Byte NArith ZArith.
From S2P Require Import Prelude.
From S2P Require Import External.
From S2P Require Import Credential.
From S2P Require Import Endpoint.
From S2P Require Import EnrollmentStore.
From S2P Require Import Job.
From S2P Require Import Transfer.
From S2P Require Import Runtime.
From S2P Require Import JobStore.
From S2P Require Import JobServices.
From S2P Require Import TransferAuth.
From S2P Require Import TransferStore.

(** ** Data *)

Module TransferResultCode.
Inductive t : Type :=
| TransferVerified | ArtifactVerificationFailed | ChunkVerificationFailed | TransferAbandoned.

(** [{:?}]. *)
Definition debug (c : t) : str :=
  match c with
  | TransferVerified => lit "TransferVerified"
  | ArtifactVerificationFailed => lit "ArtifactVerificationFailed"
  | ChunkVerificationFailed => lit "ChunkVerificationFailed"
  | TransferAbandoned => lit "TransferAbandoned"
  end.
End TransferResultCode.

Record TransferResultDetail : Type := {
  trd_code : TransferResultCode.t;
  trd_artifact_id : Uuid;
}.

Record TransferTerminalEvidenceLockedFacts : Type := {
  te_job : Job;
  te_job_step : JobStep;
  te_attempt : Attempt;
  te_transfer : Transfer;
  te_artifact : Artifact;
}.

Module TransferEvidenceDecision.
Inductive t : Type :=
| Applied (a : Applied) (audit : option AuditRecord) (artifact_failed : option Artifact)
| NoOp | Conflict | FailClosed.
End TransferEvidenceDecision.

Module TransferEvidenceResult.
Inductive t : Type := Applied (a : Applied) | NoOp | Conflict | FailClosed | NotTransferAction.
End TransferEvidenceResult.

Module TransferTerminalOutcome.
Inductive t : Type := Consumed | FailClosed.
End TransferTerminalOutcome.

(** [TransferCancelAckOutcome] and [TransferStatusReportOutcome]. *)
Module TransferRoutedOutcome.
Inductive t : Type := Consumed | NotTransferAction.
End TransferRoutedOutcome.

Module TransferActionClassification.
Inductive t : Type := DataPlaneTransfer | SimulatedExecution | Unknown.
End TransferActionClassification.

(** ** The transaction *)

(** [UPDATE artifacts SET state = 'Failed' WHERE id = $1 AND state = 'Incomplete'], and
    whether it changed a row. *)
Definition persist_incomplete_artifact_failed (db : TransferDb) (id : ArtifactId)
  : TransferDb * bool :=
  match td_artifacts db !! id with
  | Some row =>
      if bool_decide (afr_state row = ArtifactState.Incomplete)
      then (update_artifact_state db id ArtifactState.Failed, true)
      else (db, false)
  | None => (db, false)
  end.

(** [SELECT t.id FROM transfers t JOIN attempts a ON a.id = t.attempt_id
    WHERE a.action_id = $1]. *)
Definition transfer_of_action (db : TransferDb) (action_id : ActionId) : option TransferId :=
  fst <$> List.find (λ p : TransferId * Transfer,
    match owning_attempt db p.2 with
    | Some a => bool_decide (at_action_id a = action_id)
    | None => false
    end) (map_to_list (td_transfers db)).

Definition repo_action_has_bound_transfer (db : TransferDb) (action_id : ActionId) : bool :=
  bool_decide (is_Some (transfer_of_action db action_id)).

(** The locks of [apply_transfer_terminal_evidence]; [Ok None] is an action without a
    Transfer. *)
Definition lock_transfer_evidence (db : TransferDb) (action_id : ActionId)
    (authenticated_endpoint_id : EndpointId)
  : result JobError.t (option TransferTerminalEvidenceLockedFacts) :=
  match transfer_of_action db action_id with
  | None => Ok None
  | Some transfer_id =>
      match load_locked_transfer_and_artifact db transfer_id with
      | Err e => Err (JobError.Repository e)
      | Ok None => Err (JobError.Repository Backend.MissingRow)
      | Ok (Some (transfer, artifact)) =>
          match tr_attempt_id transfer with
          | None => Ok None
          | Some bound =>
              match load_attempt_for_update db bound with
              | None => Err (JobError.Repository Backend.MissingRow)
              | Some attempt =>
                  if negb (bool_decide (at_action_id attempt = action_id))
                  then Err (JobError.Repository Backend.InvariantViolation)
                  else
                    match jd_steps (td_jobs db) !! at_job_step_id attempt with
                    | None => Err (JobError.Repository Backend.MissingRow)
                    | Some step =>
                        match find_job (td_jobs db) (js_job_id step) with
                        | None => Err (JobError.Repository Backend.MissingRow)
                        | Some job =>
                            if negb (bool_decide (job_endpoint_id job = authenticated_endpoint_id))
                            then Err JobError.UnknownAction
                            else Ok (Some {| te_job := job; te_job_step := step;
                                             te_attempt := attempt; te_transfer := transfer;
                                             te_artifact := artifact |})
                        end
                    end
              end
          end
      end
  end.

Definition repo_apply_transfer_terminal_evidence (db : TransferDb) (action_id : ActionId)
    (authenticated_endpoint_id : EndpointId)
    (decide : TransferTerminalEvidenceLockedFacts → Gen TransferEvidenceDecision.t)
  : Gen (TransferDb * result JobError.t TransferEvidenceResult.t) :=
  match lock_transfer_evidence db action_id authenticated_endpoint_id with
  | Err e => mret (db, Err e)
  | Ok None => mret (db, Ok TransferEvidenceResult.NotTransferAction)
  | Ok (Some facts) =>
      decided ← decide facts;
      mret match decided with
      | TransferEvidenceDecision.NoOp => (db, Ok TransferEvidenceResult.NoOp)
      | TransferEvidenceDecision.Conflict => (db, Ok TransferEvidenceResult.Conflict)
      | TransferEvidenceDecision.FailClosed => (db, Ok TransferEvidenceResult.FailClosed)
      | TransferEvidenceDecision.Applied applied audit artifact_failed =>
          let '(db1, moved) :=
            match artifact_failed with
            | Some _ => persist_incomplete_artifact_failed db (ar_id (te_artifact facts))
            | None => (db, true)
            end in
          if negb moved then (db, Ok TransferEvidenceResult.FailClosed)
          else
            match persist_applied (td_jobs db1) applied audit with
            | Err e => (db, Err (JobError.Repository e))
            | Ok jobs => (with_td_jobs db1 jobs, Ok (TransferEvidenceResult.Applied applied))
            end
      end
  end.

(** ** The decisions *)

Section Decisions.
Context {ent : Entropy} {disp : UuidDisplay}.

(** What the Artifact must be for a result to apply, and what becomes of it: [None] is
    [FailClosed], [Some (Some failed)] fails an [Incomplete] Artifact. *)
Definition artifact_gate (code : TransferResultCode.t) (artifact : Artifact)
  : option (option Artifact) :=
  match code with
  | TransferResultCode.TransferVerified =>
      if bool_decide (ar_state artifact = ArtifactState.Verified) then Some None else None
  | TransferResultCode.ArtifactVerificationFailed =>
      if bool_decide (ar_state artifact = ArtifactState.Failed) then Some None else None
  | TransferResultCode.ChunkVerificationFailed | TransferResultCode.TransferAbandoned =>
      match ar_state artifact with
      | ArtifactState.Incomplete =>
          match fail_incomplete artifact with
          | Ok failed => Some (Some failed)
          | Err _ => None
          end
      | _ => None
      end
  end.

Definition decide_transfer_terminal_evidence (detail : TransferResultDetail) (now : Instant)
    (facts : TransferTerminalEvidenceLockedFacts) : Gen TransferEvidenceDecision.t :=
  let artifact := te_artifact facts in
  if negb (bool_decide (trd_artifact_id detail = ar_id artifact))
     || negb (bool_decide (tr_artifact_id (te_transfer facts) = ar_id artifact))
     || negb (bool_decide (tr_attempt_id (te_transfer facts) = Some (at_id (te_attempt facts))))
  then mret TransferEvidenceDecision.FailClosed
  else
    let evidence :=
      match trd_code detail with
      | TransferResultCode.TransferVerified => ActionEvidence.ResultSucceeded
      | _ => ActionEvidence.ResultFailed
      end in
    outcome ← apply_action_evidence (te_job facts) (te_job_step facts) (te_attempt facts)
                evidence now;
    match outcome with
    | ActionEvidenceOutcome.NoOp => mret TransferEvidenceDecision.NoOp
    | ActionEvidenceOutcome.Conflict => mret TransferEvidenceDecision.Conflict
    | ActionEvidenceOutcome.Applied applied =>
        match artifact_gate (trd_code detail) artifact with
        | None => mret TransferEvidenceDecision.FailClosed
        | Some artifact_failed =>
            audit ← terminal_audit (te_job facts) applied
                      (lit " (bamep.m1.data-plane-transfer: "
                       ++ TransferResultCode.debug (trd_code detail)
                       ++ (if artifact_failed then lit ", artifact Incomplete -> Failed" else [])
                       ++ lit ")") now;
            mret (TransferEvidenceDecision.Applied applied audit artifact_failed)
        end
    end.

(** The correlation check and the Artifact leg of the other three decisions: the
    Artifact fails when the decision ended the Attempt in [ended] and it is still
    [Incomplete]. *)
Definition correlated (facts : TransferTerminalEvidenceLockedFacts) : bool :=
  bool_decide (tr_artifact_id (te_transfer facts) = ar_id (te_artifact facts))
  && bool_decide (tr_attempt_id (te_transfer facts) = Some (at_id (te_attempt facts))).

Definition with_artifact_leg (facts : TransferTerminalEvidenceLockedFacts) (applied : Applied)
    (ended : AttemptState.t) (text failed_text : str) (now : Instant)
  : Gen TransferEvidenceDecision.t :=
  let fails_artifact :=
    ap_terminal applied && bool_decide (at_state (ap_attempt applied) = ended)
    && bool_decide (ar_state (te_artifact facts) = ArtifactState.Incomplete) in
  match (if fails_artifact then
           match fail_incomplete (te_artifact facts) with
           | Ok failed => Some (Some failed)
           | Err _ => None
           end
         else Some None) with
  | None => mret TransferEvidenceDecision.NoOp
  | Some artifact_failed =>
      audit ← terminal_audit (te_job facts) applied
                (text ++ (if artifact_failed then failed_text else [])) now;
      mret (TransferEvidenceDecision.Applied applied audit artifact_failed)
  end.

Definition decide_transfer_cancel_ack (evidence : CancelAckEvidence.t) (now : Instant)
    (facts : TransferTerminalEvidenceLockedFacts) : Gen TransferEvidenceDecision.t :=
  if negb (correlated facts) then mret TransferEvidenceDecision.NoOp
  else
    outcome ← apply_cancel_ack (te_job facts) (te_job_step facts) (te_attempt facts) evidence now;
    match outcome with
    | CancelAckOutcome.NoOp => mret TransferEvidenceDecision.NoOp
    | CancelAckOutcome.Applied applied =>
        with_artifact_leg facts applied AttemptState.Cancelled
          (lit " via cancellation evidence")
          (lit " (bamep.m1.data-plane-transfer: artifact Incomplete -> Failed)") now
    end.

Definition decide_transfer_status_report (evidence : StatusReportEvidence.t)
    (ended : AttemptState.t) (now : Instant) (facts : TransferTerminalEvidenceLockedFacts)
  : Gen TransferEvidenceDecision.t :=
  if negb (correlated facts) then mret TransferEvidenceDecision.NoOp
  else
    outcome ← Reconciliation.apply_status_report (te_job facts) (te_job_step facts)
                (te_attempt facts) evidence now;
    match outcome with
    | ReconciliationOutcome.NoOp => mret TransferEvidenceDecision.NoOp
    | ReconciliationOutcome.Applied applied =>
        with_artifact_leg facts applied ended (lit " via reconciliation evidence")
          (lit ", artifact Incomplete -> Failed") now
    end.

Definition decide_transfer_status_report_cancelled :=
  decide_transfer_status_report StatusReportEvidence.Cancelled AttemptState.Cancelled.
Definition decide_transfer_status_report_failed :=
  decide_transfer_status_report StatusReportEvidence.Failed AttemptState.Failed.
End Decisions.

(** ** The state of the data plane *)

(** The Job services' world, the other tables of the database and the two stores of the
    authorization service. *)
Record TransferWorld `{Ed25519} : Type := {
  tw_world : World;
  tw_artifacts : gmap ArtifactId ArtifactRow;
  tw_manifests : gmap ArtifactId ManifestRow;
  tw_chunks : gmap (ArtifactId * Z) ChunkRow;
  tw_auth : AuthState;
}.

Module TransferOp.
Inductive t : Type :=
| Job (o : JobOp.t)
| CreateTransferContext (endpoint_id : EndpointId) (id : JobId) (step_id : JobStepId)
    (direction : TransferDirection.t) (digest_algorithm : DigestAlgorithm.t) (chunk_size : N)
    (source_provenance : str)
| RecordExpectedChunk (id : TransferId) (index : ChunkIndex) (size : N) (digest : list byte)
| AcceptVerifiedChunk (id : TransferId) (index : ChunkIndex) (digest : list byte)
| SealManifest (id : TransferId) (chunk_count : N) (digest : list byte)
| BeginVerification (id : TransferId)
| CompleteVerification (id : TransferId) (digest_matches : bool)
| FailIncomplete (id : TransferId)
| BindAttempt (id : TransferId) (attempt : Attempt)
| CommitChunkAcceptance (id : TransferId) (chunk_index : N) (digest : str) (size : N)
| CommitManifestSeal (input : ManifestSealInput) (now : Instant)
| CommitArtifactVerification (input : ArtifactVerificationInput)
| Issue (capability_ttl : Duration) (data_plane_base_url : str) (now : Instant)
    (endpoint_id : EndpointId) (action_id : ActionId) (id : TransferId) (proof_public_key : str)
| Decide (input : WorkerAuthorizationQueryInput) (now : Instant)
| TransferResult (action_id : ActionId) (endpoint_id : EndpointId) (detail : TransferResultDetail)
    (now : Instant)
| TransferCancelAck (action_id : ActionId) (endpoint_id : EndpointId) (e : CancelAckEvidence.t)
    (now : Instant)
| TransferStatusCancelled (action_id : ActionId) (endpoint_id : EndpointId) (now : Instant)
| TransferStatusFailed (action_id : ActionId) (endpoint_id : EndpointId) (now : Instant).
End TransferOp.

Section Services.
Context {b64 : Base64} {sha : Sha256} {ed : Ed25519} {ent : Entropy} {chrono : ChronoRange}
  {disp : UuidDisplay}.

Definition tw_db (w : TransferWorld) : TransferDb :=
  {| td_jobs := w_db (tw_world w); td_artifacts := tw_artifacts w;
     td_manifests := tw_manifests w; td_chunks := tw_chunks w |}.

Definition tw_with_db (w : TransferWorld) (db : TransferDb) : TransferWorld :=
  {| tw_world := with_db (tw_world w) (td_jobs db); tw_artifacts := td_artifacts db;
     tw_manifests := td_manifests db; tw_chunks := td_chunks db; tw_auth := tw_auth w |}.

Definition tw_with_world (w : TransferWorld) (world : World) : TransferWorld :=
  {| tw_world := world; tw_artifacts := tw_artifacts w; tw_manifests := tw_manifests w;
     tw_chunks := tw_chunks w; tw_auth := tw_auth w |}.

Definition tw_with_auth (w : TransferWorld) (auth : AuthState) : TransferWorld :=
  {| tw_world := tw_world w; tw_artifacts := tw_artifacts w; tw_manifests := tw_manifests w;
     tw_chunks := tw_chunks w; tw_auth := auth |}.

(** [TransferTerminalEvidenceService::classify]. *)
Definition service_classify (w : TransferWorld) (action_id : ActionId)
    (authenticated_endpoint_id : EndpointId) : TransferActionClassification.t :=
  if negb (repo_action_targets_endpoint (w_db (tw_world w)) action_id authenticated_endpoint_id)
  then TransferActionClassification.Unknown
  else if repo_action_has_bound_transfer (tw_db w) action_id
  then TransferActionClassification.DataPlaneTransfer
  else TransferActionClassification.SimulatedExecution.

(** The transaction, and the release of the reservation on a terminal result. *)
Definition apply_and_settle (w : TransferWorld) (action_id : ActionId)
    (authenticated_endpoint_id : EndpointId)
    (decide : TransferTerminalEvidenceLockedFacts → Gen TransferEvidenceDecision.t)
  : Gen (TransferWorld * result JobError.t TransferEvidenceResult.t) :=
  done ← repo_apply_transfer_terminal_evidence (tw_db w) action_id authenticated_endpoint_id decide;
  let w' := tw_with_db w done.1 in
  mret (match done.2 with
        | Ok (TransferEvidenceResult.Applied applied) =>
            if ap_terminal applied
            then tw_with_world w' (take_and_release (tw_world w') (at_id (ap_attempt applied)))
            else w'
        | _ => w'
        end, done.2).

Definition service_transfer_apply (w : TransferWorld) (action_id : ActionId)
    (authenticated_endpoint_id : EndpointId) (detail : TransferResultDetail) (now : Instant)
  : Gen (TransferWorld * result JobError.t TransferTerminalOutcome.t) :=
  done ← apply_and_settle w action_id authenticated_endpoint_id
           (decide_transfer_terminal_evidence detail now);
  mret (done.1, match done.2 with
                | Err e => Err e
                | Ok (TransferEvidenceResult.Applied _) | Ok TransferEvidenceResult.NoOp
                | Ok TransferEvidenceResult.Conflict => Ok TransferTerminalOutcome.Consumed
                | Ok TransferEvidenceResult.FailClosed
                | Ok TransferEvidenceResult.NotTransferAction =>
                    Ok TransferTerminalOutcome.FailClosed
                end).

(** The answer of the three routed methods. *)
Definition routed (r : result JobError.t TransferEvidenceResult.t)
  : result JobError.t TransferRoutedOutcome.t :=
  match r with
  | Err e => Err e
  | Ok (TransferEvidenceResult.Applied _) | Ok TransferEvidenceResult.NoOp =>
      Ok TransferRoutedOutcome.Consumed
  | Ok TransferEvidenceResult.NotTransferAction => Ok TransferRoutedOutcome.NotTransferAction
  | Ok TransferEvidenceResult.Conflict | Ok TransferEvidenceResult.FailClosed =>
      Err (JobError.Repository Backend.InvariantViolation)
  end.

Definition service_transfer_cancel_ack (w : TransferWorld) (action_id : ActionId)
    (authenticated_endpoint_id : EndpointId) (evidence : CancelAckEvidence.t) (now : Instant)
  : Gen (TransferWorld * result JobError.t TransferRoutedOutcome.t) :=
  done ← apply_and_settle w action_id authenticated_endpoint_id
           (decide_transfer_cancel_ack evidence now);
  mret (done.1, routed done.2).

Definition service_transfer_status_report_cancelled (w : TransferWorld) (action_id : ActionId)
    (authenticated_endpoint_id : EndpointId) (now : Instant)
  : Gen (TransferWorld * result JobError.t TransferRoutedOutcome.t) :=
  done ← apply_and_settle w action_id authenticated_endpoint_id
           (decide_transfer_status_report_cancelled now);
  mret (done.1, routed done.2).

Definition service_transfer_status_report_failed (w : TransferWorld) (action_id : ActionId)
    (authenticated_endpoint_id : EndpointId) (now : Instant)
  : Gen (TransferWorld * result JobError.t TransferRoutedOutcome.t) :=
  done ← apply_and_settle w action_id authenticated_endpoint_id
           (decide_transfer_status_report_failed now);
  mret (done.1, routed done.2).

(** ** Runs *)

(** In a run of the whole data plane the environment of the Job services no longer writes
    [transfers]: the services of this file do. *)
Definition own_transfers (db : JobDb) (o : JobOp.t) : JobOp.t :=
  match o with
  | JobOp.Environment endpoints inventory _ =>
      JobOp.Environment endpoints inventory (jd_transfers db)
  | _ => o
  end.

(** A restart also loses the capabilities, under a new epoch, and the replay cache. *)
Definition restarted (o : JobOp.t) (auth : AuthState) : Gen AuthState :=
  match o with
  | JobOp.Restart _ =>
      store ← Capabilities.with_capacity (Capabilities.cst_capacity (as_capabilities auth));
      mret {| as_capabilities := store;
              as_replay := Replay.with_capacity (Replay.rc_capacity (as_replay auth)) |}
  | _ => mret auth
  end.

Definition run_transfer_op (w : TransferWorld) (o : TransferOp.t) : Gen TransferWorld :=
  let db := tw_db w in
  match o with
  | TransferOp.Job o =>
      world ← run_job_op (tw_world w) (own_transfers (w_db (tw_world w)) o);
      auth ← restarted o (tw_auth w);
      mret (tw_with_auth (tw_with_world w world) auth)
  | TransferOp.CreateTransferContext ep id step direction algorithm chunk_size provenance =>
      r ← service_create_transfer_context db ep id step direction algorithm chunk_size provenance;
      mret (tw_with_db w r.1)
  | TransferOp.RecordExpectedChunk id index size digest =>
      mret (tw_with_db w (service_record_expected_chunk db id index size digest).1)
  | TransferOp.AcceptVerifiedChunk id index digest =>
      mret (tw_with_db w (service_accept_verified_chunk db id index digest).1)
  | TransferOp.SealManifest id chunk_count digest =>
      mret (tw_with_db w (service_seal_manifest db id chunk_count digest).1)
  | TransferOp.BeginVerification id =>
      mret (tw_with_db w (service_begin_artifact_verification db id).1)
  | TransferOp.CompleteVerification id matches =>
      mret (tw_with_db w (service_complete_artifact_verification db id matches).1)
  | TransferOp.FailIncomplete id => mret (tw_with_db w (service_fail_incomplete_artifact db id).1)
  | TransferOp.BindAttempt id attempt => mret (tw_with_db w (service_bind_attempt db id attempt).1)
  | TransferOp.CommitChunkAcceptance id index digest size =>
      mret (tw_with_db w (service_commit_chunk_acceptance db id index digest size).1)
  | TransferOp.CommitManifestSeal input now =>
      let r := service_commit_manifest_seal db (tw_auth w) input now in
      mret (tw_with_auth (tw_with_db w r.1.1) r.1.2)
  | TransferOp.CommitArtifactVerification input =>
      mret (tw_with_db w (service_commit_artifact_verification db input).1)
  | TransferOp.Issue ttl url now ep action id key =>
      r ← service_issue (tw_auth w) (load_authorization_state db id) ttl url now ep action id key;
      mret (tw_with_auth w r.1)
  | TransferOp.Decide input now =>
      mret (tw_with_auth w (service_decide (tw_auth w)
                              (load_authorization_state db (wq_transfer_id input)) input now).1)
  | TransferOp.TransferResult action ep detail now =>
      r ← service_transfer_apply w action ep detail now; mret r.1
  | TransferOp.TransferCancelAck action ep e now =>
      r ← service_transfer_cancel_ack w action ep e now; mret r.1
  | TransferOp.TransferStatusCancelled action ep now =>
      r ← service_transfer_status_report_cancelled w action ep now; mret r.1
  | TransferOp.TransferStatusFailed action ep now =>
      r ← service_transfer_status_report_failed w action ep now; mret r.1
  end.

Fixpoint run_transfer_ops (w : TransferWorld) (ops : list TransferOp.t) : Gen TransferWorld :=
  match ops with
  | [] => mret w
  | o :: rest => w' ← run_transfer_op w o; run_transfer_ops w' rest
  end.

(** An empty database and empty stores. *)
Definition empty_transfer_world (epoch : ProcessAuthorizationEpoch) (capacity : nat)
  : TransferWorld :=
  {| tw_world := empty_world; tw_artifacts := ∅; tw_manifests := ∅; tw_chunks := ∅;
     tw_auth := {| as_capabilities := {| Capabilities.cst_epoch := epoch;
                                         Capabilities.cst_capacity := capacity;
                                         Capabilities.cst_capabilities := ∅ |};
                   as_replay := Replay.with_capacity capacity |} |}.
End Services.
