(* ===== verification/TransferSpec.v ===== *)
(** * What the data plane promises about an upload

    The abstract specification of one Artifact's upload: its state, the chunks its
    manifest names, the chunks that are held, and the seal. [upload_step] lists the only
    ways an upload may change; each is one transaction. The lemmas are what follows from
    the steps alone, by induction on them. [TransferSafety] shows that the services
    implement it. *)

From stdpp Require Import prelude gmap strings.
From Stdlib Require Import Strings.Byte NArith ZArith.
From S2P Require Import Prelude.
From S2P Require Import External.
From S2P Require Import Credential.
From S2P Require Import Transfer.

Record Upload : Type := {
  up_state : ArtifactState.t;
  up_chunks : gmap N ExpectedChunk;
  up_held : gset N;
  up_seal : option (N * Digest);
}.

Definition fresh_upload : Upload :=
  {| up_state := ArtifactState.Incomplete; up_chunks := ∅; up_held := ∅; up_seal := None |}.

Definition up_with_state (u : Upload) (st : ArtifactState.t) : Upload :=
  {| up_state := st; up_chunks := up_chunks u; up_held := up_held u; up_seal := up_seal u |}.

(** Every named chunk is held. *)
Definition complete (u : Upload) : Prop := dom (up_chunks u) ⊆ up_held u.

(** A chunk identity the database can store: its numbers fit an [i32]. *)
Definition storable (c : ExpectedChunk) : Prop :=
  (ec_index c < 2 ^ 31)%N ∧ (0 < ec_size c < 2 ^ 31)%N ∧ length (ec_digest c) = 32.

(** The chunks named are 0, ..., n - 1. *)
Definition sealable (u : Upload) (n : N) (d : Digest) : Prop :=
  up_seal u = None ∧ dom (up_chunks u) = below n ∧ (n < 2 ^ 31)%N ∧ length d = 32.

Definition with_seal (u : Upload) (n : N) (d : Digest) : Upload :=
  {| up_state := up_state u; up_chunks := up_chunks u; up_held := up_held u;
     up_seal := Some (n, d) |}.

Inductive upload_step (u : Upload) : Upload → Prop :=
| us_name c held :
    (* a new identity, with or without its bytes *)
    up_seal u = None → up_chunks u !! ec_index c = None → storable c →
    upload_step u {| up_state := up_state u; up_chunks := <[ec_index c := c]> (up_chunks u);
                     up_held := if held : bool then {[ec_index c]} ∪ up_held u else up_held u;
                     up_seal := None |}
| us_hold i :
    is_Some (up_chunks u !! i) →
    upload_step u {| up_state := up_state u; up_chunks := up_chunks u;
                     up_held := {[i]} ∪ up_held u; up_seal := up_seal u |}
| us_seal n d : sealable u n d → upload_step u (with_seal u n d)
| us_begin :
    up_state u = ArtifactState.Incomplete → is_Some (up_seal u) → complete u →
    upload_step u (up_with_state u ArtifactState.PendingVerification)
| us_seal_begin n d :
    up_state u = ArtifactState.Incomplete → sealable u n d → complete u →
    upload_step u (up_with_state (with_seal u n d) ArtifactState.PendingVerification)
| us_decide st :
    up_state u = ArtifactState.PendingVerification →
    st = ArtifactState.Verified ∨ st = ArtifactState.Failed →
    upload_step u (up_with_state u st)
| us_abandon :
    up_state u = ArtifactState.Incomplete →
    upload_step u (up_with_state u ArtifactState.Failed).

(** ** The invariant *)

Record upload_wf (u : Upload) : Prop := {
  uw_chunk i c : up_chunks u !! i = Some c → ec_index c = i ∧ storable c;
  uw_held : up_held u ⊆ dom (up_chunks u);
  uw_seal n d : up_seal u = Some (n, d) →
    dom (up_chunks u) = below n ∧ (n < 2 ^ 31)%N ∧ length d = 32;
  uw_pending : up_state u = ArtifactState.PendingVerification
               ∨ up_state u = ArtifactState.Verified → is_Some (up_seal u) ∧ complete u;
}.

Lemma fresh_wf : upload_wf fresh_upload.
Proof. split; simpl; [intros ? ? Hl; by rewrite lookup_empty in Hl|set_solver|done|naive_solver]. Qed.

Lemma name_wf u c (held : bool) :
  up_seal u = None → up_chunks u !! ec_index c = None → storable c → upload_wf u →
  upload_wf {| up_state := up_state u; up_chunks := <[ec_index c := c]> (up_chunks u);
               up_held := if held then {[ec_index c]} ∪ up_held u else up_held u;
               up_seal := None |}.
Proof.
  intros Hs Hn Hc [W1 W2 W3 W4]. split; simpl.
  - intros i c'. rewrite lookup_insert_Some. intros [[<- <-]|[_ Hi]]; [done|by apply W1].
  - rewrite dom_insert. destruct held; set_solver.
  - done.
  - intros Hst. destruct (W4 Hst) as [[? Hseal] _]. congruence.
Qed.

Lemma upload_step_wf u u' : upload_step u u' → upload_wf u → upload_wf u'.
Proof.
  intros Hst W. destruct Hst as [c held Hs Hn Hc|i Hi|n d Hd|H1 H2 H3|n d H1 Hd H3|st H1 H2|H1].
  { by apply name_wf. }
  all: destruct W as [W1 W2 W3 W4]; try destruct Hd as (Hs & Hdom & Hn & Hl);
    split; simpl; try done.
  - apply elem_of_dom in Hi. set_solver.
  - intros Hst. destruct (W4 Hst) as [? Hc]. split; [done|]. unfold complete in *. simpl. set_solver.
  - by intros ? ? [= <- <-].
  - intros Hst. destruct (W4 Hst) as [[? ?] _]. congruence.
  - by intros ? ? [= <- <-].
  - intros _. by apply W4; left.
  - by intros [?|?].
Qed.

(** ** What no step undoes *)

(** [u'] is a later state of [u]. *)
Record upload_le (u u' : Upload) : Prop := {
  ul_chunks : up_chunks u ⊆ up_chunks u';
  ul_held : up_held u ⊆ up_held u';
  ul_seal : is_Some (up_seal u) → up_seal u' = up_seal u ∧ up_chunks u' = up_chunks u;
  ul_terminal : up_state u = ArtifactState.Verified ∨ up_state u = ArtifactState.Failed →
    up_state u' = up_state u;
  ul_left : up_state u ≠ ArtifactState.Incomplete → up_state u' ≠ ArtifactState.Incomplete;
}.

#[global] Instance upload_le_preorder : PreOrder upload_le.
Proof.
  split.
  - intros u. by split.
  - intros u1 u2 u3 [A1 A2 A3 A4 A5] [B1 B2 B3 B4 B5]. split; [by etrans|set_solver| | |naive_solver].
    + intros Hs. destruct (A3 Hs) as [E1 E2]. rewrite <-E1 in Hs. destruct (B3 Hs). split; congruence.
    + intros Hs. pose proof (A4 Hs) as E. rewrite <-E in Hs. rewrite <-E. by apply B4.
Qed.

Lemma upload_step_le u u' : upload_step u u' → upload_le u u'.
Proof.
  intros Hst. destruct Hst as [c held Hs Hn Hc|i Hi|n d Hd|H1 H2 H3|n d H1 Hd H3|st H1 H2|H1];
    try destruct Hd as (Hs & _); split; simpl; try done; try (by rewrite Hs; intros []);
    try (by rewrite H1; intros [|]); try congruence.
  - by apply insert_subseteq.
  - destruct held; set_solver.
  - set_solver.
  - intros _. by destruct H2 as [->| ->].
Qed.

(** Zero or one step. *)
Definition upload_may (u u' : Upload) : Prop := u' = u ∨ upload_step u u'.

Lemma upload_may_wf u u' : upload_may u u' → upload_wf u → upload_wf u'.
Proof. intros [->|?]; [done|by apply upload_step_wf]. Qed.

Lemma upload_steps_le u u' : rtc upload_step u u' → upload_le u u'.
Proof. induction 1 as [|u1 u2 u3 H12 _ IH]; [done|]. etrans; [by apply upload_step_le|done]. Qed.

Lemma upload_steps_wf u u' : rtc upload_step u u' → upload_wf u → upload_wf u'.
Proof. induction 1; [done|]. intros ?. eauto using upload_step_wf. Qed.

(** An upload that is verified was complete and sealed, with the same chunks, when it
    left [Incomplete]: it cannot have been extended since. *)
Lemma verified_sealed u : upload_wf u → up_state u = ArtifactState.Verified →
  ∃ n d, up_seal u = Some (n, d) ∧ dom (up_chunks u) = below n ∧ up_held u = below n.
Proof.
  intros W Hv. destruct (uw_pending _ W (or_intror Hv)) as [[[n d] Hs] Hc].
  destruct (uw_seal _ W _ _ Hs) as (Hd & _ & _). exists n, d. split; [done|]. split; [done|].
  apply set_eq. intros i. rewrite <-Hd. pose proof (uw_held _ W). unfold complete in Hc. set_solver.
Qed.
