(* ===== verification/TransferSafety.v ===== *)
(** * The transfer tables: what every run of the data plane keeps

    Reading the rows back into a manifest, the invariant of the tables, and its
    preservation by every service call. The properties are in [TransferTheorems]. *)

From stdpp Require Import prelude gmap strings sorting.
From Stdlib Require Import Strings.Byte NArith ZArith.
From S2P Require Import Prelude.
From S2P Require Import External.
From S2P Require Import Credential.
From S2P Require Import Endpoint.
From S2P Require Import EnrollmentStore.
From S2P Require Import Job.
From S2P Require Import Transfer.
From S2P Require Import Runtime.
From S2P Require Import JobStore.
From S2P Require Import JobSpec.
From S2P Require Import JobServices.
From S2P Require Import JobSafety.
From S2P Require Import TransferAuth.
From S2P Require Import TransferStore.
From S2P Require Import TransferEvidence.
From S2P Require Import TransferSpec.

(** ** Casts *)

Lemma u32_as_i32_range n : (- 2 ^ 31 ≤ u32_as_i32 n < 2 ^ 31)%Z.
Proof. unfold u32_as_i32. pose proof (Z.mod_pos_bound (Z.of_N n + 2 ^ 31) (2 ^ 32)). lia. Qed.

(** A [u32] that stays non-negative as [i32] is unchanged. *)
Lemma u32_as_i32_nonneg n :
  (n < 2 ^ 32)%N → (0 ≤ u32_as_i32 n)%Z → u32_as_i32 n = Z.of_N n ∧ (n < 2 ^ 31)%N.
Proof.
  unfold u32_as_i32. intros Hn Hnn. destruct (decide (n < 2 ^ 31)%N).
  - rewrite Z.mod_small in * by lia. split; [lia|done].
  - exfalso.
    assert ((Z.of_N n + 2 ^ 31) mod 2 ^ 32 = Z.of_N n + 2 ^ 31 - 2 ^ 32)%Z; [|lia].
    symmetry. apply (Z.mod_unique_pos _ _ 1); lia.
Qed.

Lemma u32_as_i32_small n : (n < 2 ^ 31)%N → u32_as_i32 n = Z.of_N n.
Proof. unfold u32_as_i32. intros Hn. rewrite Z.mod_small by lia. lia. Qed.

Lemma i32_as_u32_nonneg z : (0 ≤ z < 2 ^ 31)%Z → i32_as_u32 z = Z.to_N z.
Proof. unfold i32_as_u32. intros Hz. by rewrite Z.mod_small by lia. Qed.

Lemma try_u32_Some n i : try_u32 n = Some i → i = n ∧ (i < 2 ^ 32)%N.
Proof. unfold try_u32. case_match eqn:E; [|done]. intros [= <-]. by apply N.ltb_lt in E. Qed.

(** ** Reading chunk rows *)

Lemma elem_of_chunk_rows db id z row :
  (z, row) ∈ chunk_rows db id ↔ td_chunks db !! (id, z) = Some row.
Proof.
  unfold chunk_rows. rewrite merge_sort_Permutation, list_elem_of_omap. split.
  - intros ([[id' z'] row'] & Hin & Hp). simpl in Hp. case_bool_decide; simplify_eq.
    by apply elem_of_map_to_list in Hin.
  - intros Hrow. exists ((id, z), row). rewrite elem_of_map_to_list. split; [done|]. simpl.
    by rewrite bool_decide_eq_true_2.
Qed.

Lemma NoDup_chunk_rows db id : NoDup (chunk_rows db id).*1.
Proof.
  unfold chunk_rows. rewrite merge_sort_Permutation.
  pose proof (NoDup_fst_map_to_list (td_chunks db)) as Hnd. revert Hnd.
  generalize (map_to_list (td_chunks db)). intros l.
  induction l as [|[[id' z] row] l IH]; simpl; [constructor|].
  intros [Hnotin Hnd]%NoDup_cons. case_bool_decide; simpl; [subst id'|by apply IH].
  constructor; [|by apply IH]. intros Hin. apply Hnotin.
  apply list_elem_of_fmap in Hin as ([z' r'] & ? & Hin). simpl in *. subst z'.
  apply list_elem_of_omap in Hin as ([[i2 z2] r2] & Hin & Hp). simpl in Hp.
  case_bool_decide; simplify_eq. apply list_elem_of_fmap. by exists ((id, z, r')).
Qed.

(** The chunk a row describes. *)
Definition chunk_of (i : ChunkIndex) (row : ChunkRow) : ExpectedChunk :=
  {| ec_index := i; ec_size := Z.to_N (cr_size row); ec_digest := cr_digest row |}.

Definition row_wf (z : Z) (row : ChunkRow) : Prop :=
  (0 ≤ z < 2 ^ 31)%Z ∧ (0 < cr_size row < 2 ^ 31)%Z ∧ length (cr_digest row) = 32.

(** [m'] is [m] with [chunks] instead of its own. *)
Definition with_cm_chunks (m : ChunkManifest) (chunks : gmap N ExpectedChunk) : ChunkManifest :=
  {| cm_artifact_id := cm_artifact_id m; cm_digest_algorithm := cm_digest_algorithm m;
     cm_chunk_size := cm_chunk_size m; cm_chunks := chunks; cm_sealed := cm_sealed m;
     cm_chunk_count := cm_chunk_count m; cm_artifact_digest := cm_artifact_digest m |}.

Lemma record_fresh m i size d :
  cm_sealed m = false → cm_chunks m !! i = None → length d = 32 →
  record_expected_chunk m i size d
  = Ok (ChunkRecordOutcome.Added (with_cm_chunks m
          (<[i := {| ec_index := i; ec_size := size; ec_digest := d |}]> (cm_chunks m)))).
Proof.
  intros Hs Hi Hd. unfold record_expected_chunk, Digest_new.
  destruct (cm_digest_algorithm m) eqn:Halg. simpl.
  rewrite bool_decide_eq_true_2 by done. unfold mbind, result_bind. simpl. rewrite Hi, Hs.
  unfold with_cm_chunks. by rewrite Halg, Hs.
Qed.

Lemma replay_chunks_ok rows m held :
  cm_sealed m = false → NoDup rows.*1 → (∀ z row, (z, row) ∈ rows → row_wf z row) →
  (∀ z row, (z, row) ∈ rows → cm_chunks m !! Z.to_N z = None) →
  ∃ chunks held', replay_chunks rows m held = Ok (with_cm_chunks m chunks, held')
    ∧ (∀ i c, chunks !! i = Some c ↔
         cm_chunks m !! i = Some c ∨ ∃ row, (Z.of_N i, row) ∈ rows ∧ c = chunk_of i row)
    ∧ (∀ i, i ∈ held' ↔ i ∈ held ∨ ∃ row, (Z.of_N i, row) ∈ rows ∧ cr_held row = true).
Proof.
  revert m held; induction rows as [|[z row] rows IH]; intros m held Hs Hnd Hwf Hnone; simpl.
  - exists (cm_chunks m), held. split; [by destruct m|]. split; intros; set_solver.
  - apply NoDup_cons in Hnd as [Hz Hnd].
    destruct (Hwf z row ltac:(left)) as (Hzr & Hsz & Hd).
    rewrite !i32_as_u32_nonneg by lia. rewrite record_fresh; [|done| |done].
    2: { apply (Hnone z row). left. }
    set (m1 := with_cm_chunks m _).
    assert (∀ z' row', (z', row') ∈ rows → Z.to_N z' ≠ Z.to_N z) as Hne.
    { intros z' row' Hin Heq. destruct (Hwf z' row' ltac:(by right)) as (? & _ & _).
      assert (z' = z) as -> by lia. apply Hz, list_elem_of_fmap. by exists (z, row'). }
    destruct (IH m1 (if cr_held row then {[Z.to_N z]} ∪ held else held) Hs Hnd) as
      (chunks & held' & Hrun & Hch & Hh).
    + intros. apply Hwf. by right.
    + intros z' row' Hin. simpl. rewrite lookup_insert_ne by (symmetry; by eapply Hne).
      apply (Hnone z' row'). by right.
    + exists chunks, held'. split; [exact Hrun|]. split.
      * intros i c. rewrite Hch. simpl. rewrite lookup_insert_Some. split.
        -- intros [[[<- <-]|[? ?]]|(row' & Hin & ->)].
           ++ right. exists row. rewrite Z2N.id by lia. split; [left|done].
           ++ by left.
           ++ right. exists row'. split; [by right|done].
        -- intros [Hi|(row' & Hin & ->)].
           ++ left. right. split; [|done]. intros <-.
              rewrite (Hnone z row ltac:(left)) in Hi. done.
           ++ apply list_elem_of_In in Hin. destruct Hin as [[= Hzi <-]|Hin].
              ** left. left. subst z. by rewrite N2Z.id.
              ** right. exists row'. split; [by apply list_elem_of_In|done].
      * intros i. rewrite Hh. split.
        -- intros [Hi|(row' & Hin & Hr)].
           ++ destruct (cr_held row) eqn:Hr; [|by left].
              apply elem_of_union in Hi as [Hi|Hi]; [|by left].
              apply elem_of_singleton in Hi as ->. right. exists row.
              rewrite Z2N.id by lia. split; [left|done].
           ++ right. exists row'. split; [by right|done].
        -- intros [Hi|(row' & Hin & Hr)].
           ++ left. destruct (cr_held row); set_solver.
           ++ apply list_elem_of_In in Hin. destruct Hin as [[= Hzi <-]|Hin].
              ** left. subst z. rewrite Hr, N2Z.id. set_solver.
              ** right. exists row'. split; [by apply list_elem_of_In|done].
Qed.

(** ** The rows of an upload *)

Definition seal_row (s : option (N * Digest)) : ManifestRow :=
  match s with
  | None => {| mr_sealed := false; mr_chunk_count := None; mr_artifact_digest := None |}
  | Some (n, d) =>
      {| mr_sealed := true; mr_chunk_count := Some (Z.of_N n); mr_artifact_digest := Some d |}
  end.

Definition chunk_row (u : Upload) (i : ChunkIndex) (c : ExpectedChunk) : ChunkRow :=
  {| cr_size := Z.of_N (ec_size c); cr_digest := ec_digest c;
     cr_held := bool_decide (i ∈ up_held u) |}.

(** The tables store upload [u] under Artifact [a]. *)
Record shows (db : TransferDb) (a : ArtifactId) (u : Upload) : Prop := {
  sh_artifact : ∃ cc, td_artifacts db !! a
                      = Some {| afr_state := up_state u; afr_capture_consistency := cc |};
  sh_manifest : td_manifests db !! a = Some (seal_row (up_seal u));
  sh_chunks z row : td_chunks db !! (a, z) = Some row ↔
    ∃ i c, z = Z.of_N i ∧ up_chunks u !! i = Some c ∧ row = chunk_row u i c;
}.

(** The tables are in order: every Artifact has an upload, every other row an Artifact. *)
Record td_wf (db : TransferDb) : Prop := {
  tdw_transfer id t : td_transfers db !! id = Some t →
    tr_id t = id ∧ (0 < tr_chunk_size t < 2 ^ 31)%N ∧ is_Some (td_artifacts db !! tr_artifact_id t);
  tdw_unique id id' t t' : td_transfers db !! id = Some t → td_transfers db !! id' = Some t' →
    tr_artifact_id t = tr_artifact_id t' → id = id';
  tdw_upload a : is_Some (td_artifacts db !! a) → ∃ u, shows db a u ∧ upload_wf u;
  tdw_manifest a : is_Some (td_manifests db !! a) → is_Some (td_artifacts db !! a);
  tdw_chunk a z : is_Some (td_chunks db !! (a, z)) → is_Some (td_artifacts db !! a);
}.

(** The upload is determined by its rows. *)
Lemma shows_inj db a u u' :
  shows db a u → shows db a u' → upload_wf u → upload_wf u' → u = u'.
Proof.
  intros [[cc A] B C] [[cc' A'] B' C'] W W'. rewrite A in A'. rewrite B in B'.
  assert (up_seal u = up_seal u') as Hseal.
  { destruct (up_seal u) as [[n d]|], (up_seal u') as [[n' d']|]; simpl in B'; try done.
    assert (n = n') by (injection B'; lia). by injection B' as ? ->; subst. }
  assert (∀ v v', upload_wf v → upload_wf v' →
    (∀ z row, td_chunks db !! (a, z) = Some row ↔
       ∃ i c, z = Z.of_N i ∧ up_chunks v !! i = Some c ∧ row = chunk_row v i c) →
    (∀ z row, td_chunks db !! (a, z) = Some row ↔
       ∃ i c, z = Z.of_N i ∧ up_chunks v' !! i = Some c ∧ row = chunk_row v' i c) →
    ∀ i c, up_chunks v !! i = Some c →
      up_chunks v' !! i = Some c ∧ (i ∈ up_held v → i ∈ up_held v')) as Hsub.
  { intros v v' V V' Hv Hv' i c Hc.
    destruct (proj1 (Hv' (Z.of_N i) (chunk_row v i c))) as (j & c' & Hj & Hc' & Hrow).
    { apply Hv. eauto. }
    assert (j = i) as -> by lia. injection Hrow as Hsz Hd Hh.
    assert (c = c') as <-.
    { destruct (uw_chunk _ V _ _ Hc), (uw_chunk _ V' _ _ Hc'), c, c'; simpl in *. f_equal; [congruence|lia|done]. }
    split; [done|]. intros Hin. rewrite bool_decide_eq_true_2 in Hh by done.
    symmetry in Hh. by apply bool_decide_eq_true in Hh. }
  pose proof (Hsub u u' W W' C C') as H1. pose proof (Hsub u' u W' W C' C) as H2.
  destruct u as [st ch he se], u' as [st' ch' he' se']; simpl in *. injection A' as -> ->.
  f_equal; [|apply set_eq; intros i|done].
  - apply map_eq. intros i. destruct (ch !! i) as [c|] eqn:E.
    + symmetry. by apply H1.
    + destruct (ch' !! i) as [c'|] eqn:E'; [|done]. apply H2 in E' as [? _]. congruence.
  - split; intros Hi.
    + assert (i ∈ dom ch) as [c Hc]%elem_of_dom by (by apply (uw_held _ W)). by apply (H1 _ _ Hc).
    + assert (i ∈ dom ch') as [c Hc]%elem_of_dom by (by apply (uw_held _ W')). by apply (H2 _ _ Hc).
Qed.

(** ** Locked facts *)

Definition manifest_of (t : Transfer) (u : Upload) : ChunkManifest :=
  {| cm_artifact_id := tr_artifact_id t; cm_digest_algorithm := tr_digest_algorithm t;
     cm_chunk_size := tr_chunk_size t; cm_chunks := up_chunks u;
     cm_sealed := bool_decide (is_Some (up_seal u)); cm_chunk_count := fst <$> up_seal u;
     cm_artifact_digest := snd <$> up_seal u |}.

Definition facts_of (t : Transfer) (cc : CaptureConsistency.t) (u : Upload) : TransferLockedFacts :=
  {| tf_transfer := t;
     tf_artifact := {| ar_id := tr_artifact_id t; ar_state := up_state u;
                       ar_capture_consistency := cc |};
     tf_manifest := manifest_of t u; tf_held_chunk_indices := up_held u |}.

Lemma digest_len_32 alg : DigestAlgorithm.digest_len alg = 32.
Proof. by destruct alg. Qed.

(** The rows replay to the manifest they were written from. *)
Lemma replay_rows db a u m :
  shows db a u → upload_wf u → cm_sealed m = false → cm_chunks m = ∅ →
  replay_chunks (chunk_rows db a) m ∅ = Ok (with_cm_chunks m (up_chunks u), up_held u).
Proof.
  intros Hs W Hm He. pose proof (sh_chunks _ _ _ Hs) as Hc.
  destruct (replay_chunks_ok (chunk_rows db a) m ∅) as (chunks & held & -> & Hch & Hh).
  - done.
  - apply NoDup_chunk_rows.
  - intros z row. rewrite elem_of_chunk_rows, Hc. intros (i & c & -> & Hi & ->).
    destruct (uw_chunk _ W _ _ Hi) as [<- (? & ? & ?)]. split; [lia|]. simpl. split; [lia|done].
  - intros z row _. by rewrite He, lookup_empty.
  - assert (∀ i row, (Z.of_N i, row) ∈ chunk_rows db a ↔
              ∃ c, up_chunks u !! i = Some c ∧ row = chunk_row u i c) as Hrows.
    { intros i row. rewrite elem_of_chunk_rows, Hc. split; [|naive_solver].
      intros (j & c & Hj & ? & ?). assert (i = j) as -> by lia. eauto. }
    assert (∀ i c, up_chunks u !! i = Some c → chunk_of i (chunk_row u i c) = c) as Hof.
    { intros i c Hi. destruct (uw_chunk _ W _ _ Hi) as [<- _]. destruct c. unfold chunk_of. simpl.
      by rewrite N2Z.id. }
    assert (chunks = up_chunks u) as ->.
    { apply map_eq. intros i. apply option_eq. intros c. rewrite Hch, He, lookup_empty.
      setoid_rewrite Hrows. split.
      - intros [?|(row & (c' & Hi & ->) & ->)]; [done|]. by rewrite Hof.
      - intros Hi. right. exists (chunk_row u i c). split; [by eauto|by rewrite Hof]. }
    f_equal. f_equal. apply set_eq. intros i. rewrite Hh. setoid_rewrite Hrows. split.
    + intros [?|(row & (c & Hi & ->) & Hr)]; [set_solver|]. by apply bool_decide_eq_true_1 in Hr.
    + intros Hi. right. assert (i ∈ dom (up_chunks u)) as [c Hc']%elem_of_dom
        by (by apply (uw_held _ W)). exists (chunk_row u i c). split; [by eauto|].
      by apply bool_decide_eq_true_2.
Qed.

Lemma replay_sealed t u :
  upload_wf u →
  replay_seal (seal_row (up_seal u))
    (with_cm_chunks (ChunkManifest_new (tr_artifact_id t) (tr_digest_algorithm t)
                       (tr_chunk_size t)) (up_chunks u)) = Ok (manifest_of t u).
Proof.
  intros W. unfold replay_seal, manifest_of. destruct (up_seal u) as [[n d]|] eqn:Hs; [|done].
  destruct (uw_seal _ W _ _ Hs) as (Hd & Hn & Hl). simpl. unfold mbind, result_bind. simpl.
  rewrite i32_as_u32_nonneg, N2Z.id by lia.
  erewrite (proj2 (seal_Ok _ n d _)); [done|]. split_and!; [done| |done|done].
  simpl. by rewrite digest_len_32.
Qed.

Lemma load_facts db id t :
  td_wf db → td_transfers db !! id = Some t →
  ∃ u cc, shows db (tr_artifact_id t) u ∧ upload_wf u
          ∧ load_locked_facts db id = Ok (Some (facts_of t cc u)).
Proof.
  intros W Ht. destruct (tdw_transfer _ W _ _ Ht) as (Hid & Hsz & Ha).
  destruct (tdw_upload _ W _ Ha) as (u & Hs & Hu). pose proof Hs as [[cc Hrow] Hm _].
  exists u, cc. split; [done|]. split; [done|].
  unfold load_locked_facts, load_locked_transfer_and_artifact. rewrite Ht.
  unfold ChunkSize_new. rewrite (proj2 (N.eqb_neq _ _)), Hrow by lia.
  unfold mbind, result_bind at 1. simpl. rewrite Hm. unfold result_bind at 1. simpl.
  rewrite (replay_rows _ _ _ _ Hs Hu) by done. unfold result_bind at 1. simpl.
  by rewrite replay_sealed.
Qed.

(** ** One transaction *)

(** The same Transfer, perhaps bound to its Attempt since. *)
Definition same_transfer (t t' : Transfer) : Prop :=
  (tr_attempt_id t = None ∨ tr_attempt_id t' = tr_attempt_id t)
  ∧ t' = {| tr_id := tr_id t; tr_endpoint_id := tr_endpoint_id t; tr_job_id := tr_job_id t;
            tr_job_step_id := tr_job_step_id t; tr_artifact_id := tr_artifact_id t;
            tr_direction := tr_direction t; tr_digest_algorithm := tr_digest_algorithm t;
            tr_chunk_size := tr_chunk_size t; tr_source_provenance := tr_source_provenance t;
            tr_attempt_id := tr_attempt_id t' |}.

#[global] Instance same_transfer_preorder : PreOrder same_transfer.
Proof.
  split; [intros []; split; [by right|done]|].
  intros t1 t2 t3 [A1 A2] [B1 B2]. split.
  - destruct A1 as [?|A1]; [by left|]. destruct B1 as [B1|B1]; [left|right]; congruence.
  - rewrite A2 in B2. exact B2.
Qed.

(** What a transaction may do to the transfer tables: each Artifact's upload takes at most
    one step, a new Artifact starts fresh, a Transfer is at most bound. *)
Record evolves (db db' : TransferDb) : Prop := {
  ev_wf : td_wf db';
  ev_upload a u : shows db a u → upload_wf u → ∃ u', shows db' a u' ∧ upload_may u u';
  ev_new a : td_artifacts db !! a = None → is_Some (td_artifacts db' !! a) →
    shows db' a fresh_upload;
  ev_transfer id t : td_transfers db !! id = Some t →
    ∃ t', td_transfers db' !! id = Some t' ∧ same_transfer t t';
}.

Lemma evolves_refl db : td_wf db → evolves db db.
Proof.
  intros W. split; [done| |intros a Hn [? ?]; congruence|intros id t ?; by exists t].
  intros a u Hs _. exists u. split; [done|by left].
Qed.

(** The rows of Artifact [b] are the same. *)
Definition same_rows (db db' : TransferDb) (b : ArtifactId) : Prop :=
  td_artifacts db' !! b = td_artifacts db !! b ∧ td_manifests db' !! b = td_manifests db !! b
  ∧ ∀ z, td_chunks db' !! (b, z) = td_chunks db !! (b, z).

Lemma shows_same_rows db db' b u : same_rows db db' b → shows db b u → shows db' b u.
Proof.
  intros (Ha & Hm & Hc) [A B C]. split; [by rewrite Ha|by rewrite Hm|]. intros z row.
  rewrite Hc. apply C.
Qed.

(** Writes to the rows of one Artifact that amount to a step of its upload. *)
Lemma local_change db db' a u u' :
  td_wf db → td_transfers db' = td_transfers db → (∀ b, b ≠ a → same_rows db db' b) →
  shows db a u → upload_wf u → shows db' a u' → upload_step u u' → evolves db db'.
Proof.
  intros W Ht Helse Hs Hu Hs' Hst.
  assert (∀ b, is_Some (td_artifacts db' !! b) ↔ is_Some (td_artifacts db !! b)) as Hdom.
  { intros b. destruct (decide (b = a)) as [->|Hb]; [|by rewrite (proj1 (Helse b Hb))].
    destruct Hs as [[? ->] _ _], Hs' as [[? ->] _ _]. by split; intros; eexists. }
  split; [split| | |].
  - intros id t. rewrite Ht, Hdom. apply W.
  - rewrite Ht. apply W.
  - intros b. rewrite Hdom. intros (v & Hv & Wv)%(tdw_upload _ W).
    destruct (decide (b = a)) as [->|Hb].
    + exists u'. split; [done|by eapply upload_step_wf].
    + exists v. split; [eapply shows_same_rows; [by apply Helse|done]|done].
  - intros b. rewrite Hdom. destruct (decide (b = a)) as [->|Hb].
    + intros _. by destruct (sh_artifact _ _ _ Hs) as [? ->].
    + destruct (Helse b Hb) as (_ & -> & _). apply W.
  - intros b z. rewrite Hdom. destruct (decide (b = a)) as [->|Hb].
    + intros _. by destruct (sh_artifact _ _ _ Hs) as [? ->].
    + destruct (Helse b Hb) as (_ & _ & ->). apply W.
  - intros b v Hv Wv. destruct (decide (b = a)) as [->|Hb].
    + assert (v = u) as -> by by eapply shows_inj. exists u'. split; [done|by right].
    + exists v. split; [eapply shows_same_rows; [by apply Helse|done]|by left].
  - intros b Hn [? ?]%Hdom. congruence.
  - rewrite Ht. intros id t ?. by exists t.
Qed.

(** *** The statements, as steps *)

Lemma update_artifact_shows db a u st :
  shows db a u → shows (update_artifact_state db a st) a (up_with_state u st).
Proof.
  intros [[cc A] B C]. split; simpl; [|done|done].
  exists cc. by rewrite lookup_alter_eq, A.
Qed.

Lemma update_artifact_elsewhere db a st b : b ≠ a → same_rows db (update_artifact_state db a st) b.
Proof. intros Hb. split; [|done]. simpl. by rewrite lookup_alter_ne. Qed.

Lemma update_artifact_evolves db a u st :
  td_wf db → shows db a u → upload_wf u → upload_step u (up_with_state u st) →
  evolves db (update_artifact_state db a st).
Proof.
  intros W Hs Hu Hst. eapply local_change; try done.
  - intros b. apply update_artifact_elsewhere.
  - by apply update_artifact_shows.
Qed.

(** Naming a chunk leaves the rows of the others alone, and marks the new one as asked. *)
Lemma named_row u c (held : bool) i c' :
  upload_wf u → up_chunks u !! ec_index c = None →
  <[ec_index c := c]> (up_chunks u) !! i = Some c' →
  let u' := {| up_state := up_state u; up_chunks := <[ec_index c := c]> (up_chunks u);
               up_held := if held then {[ec_index c]} ∪ up_held u else up_held u;
               up_seal := None |} in
  chunk_row u' i c' = if decide (i = ec_index c)
    then {| cr_size := Z.of_N (ec_size c); cr_digest := ec_digest c; cr_held := held |}
    else chunk_row u i c'.
Proof.
  intros Hu Hn Hi u'. unfold chunk_row. simpl. case_decide as He.
  - subst i. rewrite lookup_insert_eq in Hi. injection Hi as <-. f_equal.
    destruct held; [apply bool_decide_eq_true_2; set_solver|apply bool_decide_eq_false_2].
    intros [? ?]%(uw_held _ Hu)%elem_of_dom. congruence.
  - f_equal. apply bool_decide_ext. destruct held; set_solver.
Qed.

Lemma insert_chunk_evolves db a u c (held : bool) db' :
  td_wf db → shows db a u → upload_wf u → up_seal u = None →
  up_chunks u !! ec_index c = None → (ec_index c < 2 ^ 32)%N → (ec_size c < 2 ^ 32)%N →
  insert_chunk db a (ec_index c) (ec_size c) (ec_digest c) held = Ok db' → evolves db db'.
Proof.
  intros W Hs Hu Hseal Hn Hi Hsz. unfold insert_chunk.
  destruct (_ || _) eqn:Hchk; [done|]. intros (chunks & Hins & [= <-])%result_bind_Ok.
  apply orb_false_elim in Hchk as [[Hneg Hpos]%orb_false_elim Hlen].
  apply negb_false_iff, bool_decide_eq_true in Hlen.
  apply u32_as_i32_nonneg in Hi as [Ei Hi]; [|by apply Z.ltb_ge].
  apply Z.leb_gt in Hpos. apply u32_as_i32_nonneg in Hsz as [Es Hsz]; [|lia].
  rewrite Ei, Es in *. unfold insert_unique in Hins.
  destruct (td_chunks db !! _) eqn:Hfree; [done|]. injection Hins as <-.
  eapply (local_change _ _ a u _ W); [done| |done|done| |eapply (us_name u c held); [done|done|]].
  - intros b Hb. split; [done|]. split; [done|]. intros z. simpl.
    rewrite lookup_insert_ne; [done|]. by intros [= <- _].
  - split; [by apply Hs|by simpl; rewrite (sh_manifest _ _ _ Hs), Hseal|]. simpl.
    intros z row. rewrite lookup_insert_Some, (sh_chunks _ _ _ Hs). split.
    + intros [[[= <-] <-]|[Hne (i & c' & -> & Hc' & ->)]].
      * exists (ec_index c), c. rewrite (named_row u c held _ _ Hu Hn) by apply lookup_insert_eq.
        rewrite lookup_insert_eq, decide_True by done. done.
      * assert (ec_index c ≠ i) by (intros <-; done). exists i, c'.
        rewrite (named_row u c held _ _ Hu Hn) by (by rewrite lookup_insert_ne).
        rewrite lookup_insert_ne, decide_False by done. done.
    + intros (i & c' & -> & Hc' & ->). rewrite (named_row u c held _ _ Hu Hn Hc').
      apply lookup_insert_Some in Hc' as [[<- <-]|[Hne Hc']].
      * left. by rewrite decide_True.
      * right. rewrite decide_False by done. split; [intros [= ?]; lia|by eauto].
  - split; [done|]. split; [lia|done].
Qed.

Lemma mark_held_evolves db a u i :
  td_wf db → shows db a u → upload_wf u → is_Some (up_chunks u !! i) →
  evolves db (mark_held db a i).
Proof.
  intros W Hs Hu [c Hc]. destruct (uw_chunk _ Hu _ _ Hc) as [<- (Hi & _ & _)].
  unfold mark_held. rewrite u32_as_i32_small by done.
  eapply (local_change _ _ a u _ W); [done| |done|done| |apply (us_hold u (ec_index c)); by eauto].
  - intros b Hb. split; [done|]. split; [done|]. intros z. simpl.
    rewrite lookup_alter_ne; [done|]. by intros [= <- _].
  - split; [by apply Hs|by apply Hs|]. simpl. intros z row.
    destruct (decide (z = Z.of_N (ec_index c))) as [->|Hz].
    + rewrite lookup_alter_eq, fmap_Some. setoid_rewrite (sh_chunks _ _ _ Hs). split.
      * intros (r & (i & c' & ? & Hc' & ->) & ->). assert (i = ec_index c) as -> by lia.
        exists (ec_index c), c'. split; [done|]. split; [done|]. unfold chunk_row. simpl. f_equal.
        symmetry. apply bool_decide_eq_true_2. set_solver.
      * intros (i & c' & ? & Hc' & ->). assert (i = ec_index c) as -> by lia.
        exists (chunk_row u (ec_index c) c'). split; [by eauto|]. unfold chunk_row. simpl. f_equal.
        apply bool_decide_eq_true_2. set_solver.
    + rewrite lookup_alter_ne by congruence. rewrite (sh_chunks _ _ _ Hs).
      assert (∀ i c', z = Z.of_N i →
        chunk_row {| up_state := up_state u; up_chunks := up_chunks u;
                     up_held := {[ec_index c]} ∪ up_held u; up_seal := up_seal u |} i c'
        = chunk_row u i c') as Hrow.
      { intros i c' ->. unfold chunk_row. simpl. f_equal. apply bool_decide_ext.
        assert (i ≠ ec_index c) by congruence. set_solver. }
      split; intros (i & c' & E & Hc' & ->); exists i, c'; rewrite ?(Hrow i c' E); done.
Qed.

Lemma update_sealed_shows db a u n d db' :
  shows db a u → (n < 2 ^ 32)%N → update_sealed db a n d = Ok db' →
  shows db' a (with_seal u n d) ∧ (n < 2 ^ 31)%N ∧ length d = 32
  ∧ td_transfers db' = td_transfers db ∧ ∀ b, b ≠ a → same_rows db db' b.
Proof.
  intros Hs Hn. unfold update_sealed. rewrite (sh_manifest _ _ _ Hs).
  destruct (_ || _) eqn:Hchk; [done|]. intros [= <-].
  apply orb_false_elim in Hchk as [Hneg Hlen].
  apply negb_false_iff, bool_decide_eq_true in Hlen.
  apply u32_as_i32_nonneg in Hn as [Ei Hi]; [|by apply Z.ltb_ge].
  split; [|split; [done|]; split; [done|]; split; [done|]].
  - split; [apply Hs|simpl; by rewrite lookup_insert_eq, Ei|apply Hs].
  - intros b Hb. split; [done|]. split; [|done]. simpl. by rewrite lookup_insert_ne.
Qed.

Lemma update_sealed_evolves db a u n d db' :
  td_wf db → shows db a u → upload_wf u → up_seal u = None → dom (up_chunks u) = below n →
  (n < 2 ^ 32)%N → update_sealed db a n d = Ok db' → evolves db db'.
Proof.
  intros W Hs Hu Hseal Hdom Hn Hup.
  destruct (update_sealed_shows _ _ _ _ _ _ Hs Hn Hup) as (Hs' & Hn' & Hd & Ht & Helse).
  eapply local_change; try done. apply us_seal. by split_and!.
Qed.

Lemma seal_begin_evolves db a u n d db' :
  td_wf db → shows db a u → upload_wf u → up_state u = ArtifactState.Incomplete →
  up_seal u = None → dom (up_chunks u) = below n → complete u → (n < 2 ^ 32)%N →
  update_sealed db a n d = Ok db' →
  evolves db (update_artifact_state db' a ArtifactState.PendingVerification).
Proof.
  intros W Hs Hu Hst Hseal Hdom Hc Hn Hup.
  destruct (update_sealed_shows _ _ _ _ _ _ Hs Hn Hup) as (Hs' & Hn' & Hd & Ht & Helse).
  eapply local_change; [done|exact Ht| |done|done|by apply update_artifact_shows|].
  - intros b Hb. destruct (Helse b Hb) as (H1 & H2 & H3).
    destruct (update_artifact_elsewhere db' a ArtifactState.PendingVerification b Hb) as (K1 & K2 & K3).
    split; [congruence|]. split; [congruence|]. intros z. by rewrite K3, H3.
  - apply us_seal_begin; [done| |done]. by split_and!.
Qed.

(** A change of the Job tables that keeps the Transfers. *)
Definition same_transfers (db db' : JobDb) : Prop :=
  ∀ id, option_Forall2 same_transfer (jd_transfers db !! id) (jd_transfers db' !! id).

Lemma jobs_evolve db jobs :
  td_wf db → same_transfers (td_jobs db) jobs → evolves db (with_td_jobs db jobs).
Proof.
  intros W Hsame.
  assert (∀ id t', jd_transfers jobs !! id = Some t' →
            ∃ t, td_transfers db !! id = Some t ∧ same_transfer t t') as Hback.
  { intros id t' Ht'. pose proof (Hsame id) as Hid. rewrite Ht' in Hid.
    inversion Hid as [t ? Hst Ht|]; subst. eauto. }
  split; [split| | |]; try apply W.
  - intros id t' (t & Ht & [_ ->])%Hback. by apply W in Ht.
  - intros id id' t1 t2 (t1' & Ht1 & [_ ->])%Hback (t2' & Ht2 & [_ ->])%Hback. simpl.
    by apply (tdw_unique _ W).
  - intros a (u & Hs & Hu)%(tdw_upload _ W). exists u. split; [|done].
    by eapply shows_same_rows; [|exact Hs].
  - intros a u Hs Hu. exists u. split; [by eapply shows_same_rows; [|exact Hs]|by left].
  - intros a Hn [? Hsome]. simpl in Hsome. congruence.
  - intros id t Ht. pose proof (Hsame id) as Hid. change (jd_transfers (td_jobs db) !! id = Some t) in Ht.
    rewrite Ht in Hid. inversion Hid as [? t' Hst E Ht'|]; subst. by exists t'.
Qed.

(** *** Creation *)

Lemma insert_transfer_Ok db t db' :
  insert_transfer db t = Ok db' →
  (∀ id t', td_transfers db !! id = Some t' → tr_artifact_id t' ≠ tr_artifact_id t)
  ∧ (0 < u32_as_i32 (tr_chunk_size t))%Z ∧ td_transfers db !! tr_id t = None
  ∧ db' = with_td_jobs db (with_transfers (td_jobs db) (<[tr_id t := t]> (td_transfers db))).
Proof.
  unfold insert_transfer. destruct (existsb _ _) eqn:Hex; [done|].
  destruct (_ <=? _)%Z eqn:Hsz; [done|]. match goal with |- context [if ?b then Err Backend.MissingRow else _] => destruct b end; [done|].
  intros (transfers & Hins & [= <-])%result_bind_Ok. apply insert_unique_Ok in Hins as [Hnone ->].
  apply Z.leb_gt in Hsz. split_and!; [|done|done|done].
  intros id t' Ht' Heq. apply not_true_iff_false in Hex. apply Hex, List.existsb_exists.
  exists (id, t'). rewrite <-list_elem_of_In, elem_of_map_to_list. split; [done|]. simpl.
  by rewrite bool_decide_eq_true_2.
Qed.

(** Fresh rows for Artifact [a]. *)
Lemma fresh_shows db db' a cc :
  td_wf db → td_artifacts db !! a = None →
  td_artifacts db' !! a
    = Some {| afr_state := ArtifactState.Incomplete; afr_capture_consistency := cc |} →
  td_manifests db' !! a = Some (seal_row None) → td_chunks db' = td_chunks db →
  shows db' a fresh_upload.
Proof.
  intros W Hn Ha Hm Hc. split; [by exists cc|done|]. intros z row. rewrite Hc. split.
  - intros Hrow. destruct (tdw_chunk _ W a z) as [? ?]; [by eauto|congruence].
  - intros (i & c & _ & Hl & _). simpl in Hl. by rewrite lookup_empty in Hl.
Qed.

(** The rows [create_transfer_context] inserts. *)
Lemma new_upload_evolves db db' t cc :
  td_wf db → (0 < tr_chunk_size t < 2 ^ 31)%N → td_transfers db !! tr_id t = None →
  (∀ id t', td_transfers db !! id = Some t' → tr_artifact_id t' ≠ tr_artifact_id t) →
  td_artifacts db !! tr_artifact_id t = None →
  td_transfers db' = <[tr_id t := t]> (td_transfers db) →
  td_artifacts db' = <[tr_artifact_id t := {| afr_state := ArtifactState.Incomplete;
                                              afr_capture_consistency := cc |}]> (td_artifacts db) →
  td_manifests db' = <[tr_artifact_id t := seal_row None]> (td_manifests db) →
  td_chunks db' = td_chunks db → evolves db db'.
Proof.
  intros W Hsz Hnt Huniq Hna Ht Ha Hm Hc. set (a := tr_artifact_id t) in *.
  assert (shows db' a fresh_upload) as Hfresh.
  { eapply fresh_shows; [done|done| | |done]; [rewrite Ha|rewrite Hm]; by rewrite lookup_insert_eq. }
  assert (∀ b u, shows db b u → shows db' b u) as Helse.
  { intros b u Hs. eapply shows_same_rows; [|done].
    assert (a ≠ b) by (intros <-; destruct (sh_artifact _ _ _ Hs); congruence).
    split_and!; [by rewrite Ha, lookup_insert_ne|by rewrite Hm, lookup_insert_ne|by rewrite Hc]. }
  assert (∀ b, is_Some (td_artifacts db' !! b) ↔ b = a ∨ is_Some (td_artifacts db !! b)) as Hdom.
  { intros b. rewrite Ha. destruct (decide (b = a)) as [->|Hb].
    - rewrite lookup_insert_eq. naive_solver.
    - rewrite lookup_insert_ne by done. naive_solver. }
  split; [split| | |].
  - intros id t'. rewrite Ht, lookup_insert_Some, Hdom.
    intros [[<- <-]|[_ (H1 & H2 & H3)%(tdw_transfer _ W)]]; [split; [done|split; [done|by left]]|auto].
  - intros i j t1 t2. rewrite Ht, !lookup_insert_Some.
    intros [[<- <-]|[_ H1]] [[<- <-]|[_ H2]] Heq; [done| | |by eapply (tdw_unique _ W)].
    + exfalso. by apply (Huniq _ _ H2).
    + exfalso. by apply (Huniq _ _ H1).
  - intros b [->|(u & Hs & Hu)%(tdw_upload _ W)]%Hdom; [exists fresh_upload; by auto using fresh_wf|].
    exists u. auto.
  - intros b. rewrite Hdom, Hm. destruct (decide (b = a)) as [->|Hb]; [by left|].
    rewrite lookup_insert_ne by done. intros ?%(tdw_manifest _ W). by right.
  - intros b z. rewrite Hc, Hdom. intros ?%(tdw_chunk _ W). by right.
  - intros b u Hs Hu. exists u. split; [by apply Helse|by left].
  - intros b Hnb [->|[? ?]]%Hdom; [done|congruence].
  - intros id t' Ht'. exists t'. split; [|done]. rewrite Ht, lookup_insert_ne; [done|congruence].
Qed.

Lemma create_evolves db context db' r :
  td_wf db → (tr_chunk_size (tc_transfer context) < 2 ^ 32)%N →
  tr_artifact_id (tc_transfer context) = ar_id (tc_artifact context) →
  ar_state (tc_artifact context) = ArtifactState.Incomplete →
  repo_create_transfer_context db context = (db', r) → evolves db db'.
Proof.
  intros W Hsz Hid Hst. unfold repo_create_transfer_context.
  destruct (jd_endpoints _ !! _); [|intros [= <- _]; by apply evolves_refl].
  destruct (jd_jobs _ !! _) as [row|]; [|intros [= <- _]; by apply evolves_refl].
  case_bool_decide; simpl; [|intros [= <- _]; by apply evolves_refl].
  destruct (existsb _ _); simpl; [|intros [= <- _]; by apply evolves_refl].
  unfold commit. destruct (insert_unique _ _ _ ≫= _) as [db1|?] eqn:Hw; intros [= <- _];
    [|by apply evolves_refl].
  apply result_bind_Ok in Hw as (arts & Harts & Hw).
  apply result_bind_Ok in Hw as (db2 & Hins & Hw).
  apply result_bind_Ok in Hw as (mans & Hmans & [= <-]).
  apply insert_unique_Ok in Harts as [Hna ->].
  apply insert_transfer_Ok in Hins as (Huniq & Hpos & Hnt & ->).
  apply insert_unique_Ok in Hmans as [Hnm ->].
  apply u32_as_i32_nonneg in Hsz as [Esz Hsz]; [|lia].
  eapply new_upload_evolves; [done| |exact Hnt|exact Huniq|by rewrite Hid|done|..|done].
  - lia.
  - simpl. by rewrite Hid, Hst.
  - simpl. by rewrite Hid.
Qed.

(** ** The services *)

#[local] Hint Resolve evolves_refl : core.

(** A transaction that locks Transfer [id] finds its rows, or there is no such Transfer. *)
Lemma locked_cases {A} db id (k : TransferLockedFacts → TransferDb * result TransferError.t A) :
  td_wf db →
  (td_transfers db !! id = None ∧ locked db id k = (db, Err (TransferError.TransferNotFound id)))
  ∨ ∃ t u cc, td_transfers db !! id = Some t ∧ shows db (tr_artifact_id t) u ∧ upload_wf u
      ∧ locked db id k = k (facts_of t cc u).
Proof.
  intros W. unfold locked. destruct (td_transfers db !! id) as [t|] eqn:Ht.
  - right. destruct (load_facts db id t W Ht) as (u & cc & Hs & Hu & ->). by eauto 10.
  - left. split; [done|]. unfold load_locked_facts, load_locked_transfer_and_artifact.
    by rewrite Ht.
Qed.

(** So every such transaction evolves the tables if its body does. *)
Lemma locked_evolves {A} db id (k : TransferLockedFacts → TransferDb * result TransferError.t A) :
  td_wf db →
  (∀ t u cc, td_transfers db !! id = Some t → shows db (tr_artifact_id t) u → upload_wf u →
     evolves db (k (facts_of t cc u)).1) →
  evolves db (locked db id k).1.
Proof.
  intros W Hk. destruct (locked_cases db id k W) as [[_ ->]|(t & u & cc & Ht & Hs & Hu & ->)]; eauto.
Qed.

Lemma commit_evolves {A} db written (a : A) :
  td_wf db → (∀ db', written = Ok db' → evolves db db') → evolves db (commit db written a).1.
Proof. intros W Hw. destruct written; simpl; auto. Qed.

(** The index the adapter reads back from the grown manifest is the one that was added. *)
Lemma added_index m i c :
  cm_chunks m !! i = None →
  List.find (λ j, bool_decide (expected_chunk m j = None))
    (ascending (dom (<[i := c]> (cm_chunks m)))) = Some i.
Proof.
  intros Hi. apply find_Some_iff_unique.
  - intros y z Hy Hz. rewrite !bool_decide_eq_true. unfold expected_chunk.
    rewrite <-!not_elem_of_dom. unfold ascending in *. rewrite merge_sort_Permutation in Hy, Hz.
    rewrite elem_of_elements in Hy, Hz. set_solver.
  - unfold ascending. rewrite merge_sort_Permutation, elem_of_elements.
    split; [set_solver|]. by apply bool_decide_eq_true_2.
Qed.

Lemma record_evolves db id index size digest :
  td_wf db → (index < 2 ^ 32)%N → (size < 2 ^ 32)%N →
  evolves db (service_record_expected_chunk db id index size digest).1.
Proof.
  intros W Hi Hsz. apply locked_evolves; [done|]. intros t u cc Ht Hs Hu. simpl.
  destruct (record_expected_chunk _ _ _ _) as [[m|]|e] eqn:Hr; [|by apply commit_evolves; auto; intros ? [= <-]; auto|auto].
  apply commit_evolves; [done|]. intros db'. apply record_Added in Hr as (Hd & Hn & Hse & ->).
  simpl in *. unfold chunk_indices. simpl. rewrite (added_index (manifest_of t u)) by done.
  unfold mbind, result_bind, expected_chunk. simpl. rewrite lookup_insert_eq. simpl.
  apply bool_decide_eq_false in Hse. rewrite <-eq_None_not_Some in Hse.
  by apply (insert_chunk_evolves db _ u {| ec_index := index; ec_size := size; ec_digest := digest |}).
Qed.

Lemma accept_evolves db id index digest :
  td_wf db → evolves db (service_accept_verified_chunk db id index digest).1.
Proof.
  intros W. apply locked_evolves; [done|]. intros t u cc Ht Hs Hu. simpl.
  destruct (validate_verified_chunk _ _ _) as [[]|e] eqn:Hv; [|auto].
  case_bool_decide; [auto|]. simpl. eapply mark_held_evolves; [done..|].
  unfold validate_verified_chunk in Hv. apply result_bind_Ok in Hv as (c & Hc%ok_or_Ok & _). by exists c.
Qed.

Lemma manifest_sealed_false t u : cm_sealed (manifest_of t u) = false → up_seal u = None.
Proof. simpl. rewrite bool_decide_eq_false, <-eq_None_not_Some. done. Qed.

Lemma seal_evolves db id n d :
  td_wf db → (n < 2 ^ 32)%N → evolves db (service_seal_manifest db id n d).1.
Proof.
  intros W Hn. apply locked_evolves; [done|]. intros t u cc Ht Hs Hu. simpl.
  destruct (seal _ _ _) as [[m|]|e] eqn:Hr; [|by apply commit_evolves; auto; intros ? [= <-]; auto|auto].
  apply commit_evolves; [done|]. intros db'. apply seal_Ok in Hr as (Hse & Hl & Hi & ->).
  unfold mbind, result_bind. simpl. eapply update_sealed_evolves; try done.
  by apply (manifest_sealed_false t).
Qed.

Lemma begin_Ok artifact m held updated :
  begin_verification artifact m held = Ok updated →
  ar_state artifact = ArtifactState.Incomplete ∧ cm_sealed m = true ∧ chunk_indices m ⊆ held
  ∧ updated = artifact_with artifact ArtifactState.PendingVerification.
Proof.
  unfold begin_verification. repeat (case_bool_decide; simpl; [|done]).
  destruct (cm_sealed m); [simpl|done]. repeat (case_bool_decide; simpl; [|done]).
  by intros [= <-].
Qed.

Lemma begin_evolves db id : td_wf db → evolves db (service_begin_artifact_verification db id).1.
Proof.
  intros W. apply locked_evolves; [done|]. intros t u cc Ht Hs Hu. simpl.
  destruct (begin_verification _ _ _) as [up|e] eqn:Hb; [|auto].
  apply begin_Ok in Hb as (Hst & Hse%bool_decide_eq_true & Hc & ->).
  eapply update_artifact_evolves; [done..|]. by apply us_begin.
Qed.

Lemma complete_evolves db id b :
  td_wf db → evolves db (service_complete_artifact_verification db id b).1.
Proof.
  intros W. apply locked_evolves; [done|]. intros t u cc Ht Hs Hu. simpl.
  unfold complete_verification. case_bool_decide as Hst; simpl; [|auto].
  eapply update_artifact_evolves; [done..|]. apply us_decide; [done|]. destruct b; auto.
Qed.

Lemma fail_evolves db id : td_wf db → evolves db (service_fail_incomplete_artifact db id).1.
Proof.
  intros W. apply locked_evolves; [done|]. intros t u cc Ht Hs Hu. simpl.
  unfold fail_incomplete. case_bool_decide as Hst; simpl; [|auto].
  eapply update_artifact_evolves; [done..|]. by apply us_abandon.
Qed.

Lemma bind_Ok t attempt bound :
  bind_attempt t attempt = Ok bound →
  tr_attempt_id bound = Some (at_id attempt)
  ∧ (tr_attempt_id t = None ∨ tr_attempt_id t = Some (at_id attempt)).
Proof.
  unfold bind_attempt. case_bool_decide; simpl; [|done].
  destruct (tr_attempt_id t) as [e|]; [|intros [= <-]; by auto].
  case_bool_decide; simpl; [|done]. intros [= <-]. subst. by auto.
Qed.

Lemma same_transfers_eq db db' : jd_transfers db' = jd_transfers db → same_transfers db db'.
Proof. intros E id. rewrite E. destruct (jd_transfers db !! id); by constructor. Qed.

Lemma binding_same_transfers db id aid db' t :
  jd_transfers db !! id = Some t → tr_attempt_id t = None ∨ tr_attempt_id t = Some aid →
  persist_attempt_binding db id aid = Ok db' → same_transfers db db'.
Proof.
  intros Ht Hb. unfold persist_attempt_binding. rewrite Ht. destruct (existsb _ _); [done|].
  intros [= <-] id'. simpl. destruct (decide (id' = id)) as [->|Hne].
  - rewrite Ht, lookup_insert_eq. constructor. split; [|done]. simpl. destruct Hb; auto.
  - rewrite lookup_insert_ne by done. destruct (jd_transfers db !! id'); by constructor.
Qed.

Lemma bind_evolves db id attempt : td_wf db → evolves db (service_bind_attempt db id attempt).1.
Proof.
  intros W. apply locked_evolves; [done|]. intros t u cc Ht Hs Hu. simpl.
  destruct (bind_attempt t attempt) as [bound|e] eqn:Hb; [|auto].
  apply commit_evolves; [done|]. intros db'. apply bind_Ok in Hb as [-> Hb].
  case_bool_decide; [done|]. intros (jobs & Hj & [= <-])%result_bind_Ok.
  apply jobs_evolve; [done|]. by eapply binding_same_transfers.
Qed.

Section DataPlane.
Context {b64 : Base64}.

(** What a committed chunk acceptance rests on. *)
Lemma chunk_decision_commit index digest size facts attempt record :
  chunk_acceptance_decision index digest size facts attempt = ChunkAcceptanceDecided.Commit record →
  ∃ d, Digest_parse_wire_value (cm_digest_algorithm (tf_manifest facts)) digest = Ok d
    ∧ record_expected_chunk (tf_manifest facts) index size d = Ok record
    ∧ (0 < size ≤ cm_chunk_size (tf_manifest facts))%N
    ∧ ar_state (tf_artifact facts) = ArtifactState.Incomplete
    ∧ ∃ a, attempt = Some a ∧ at_state a = AttemptState.InProgress.
Proof.
  unfold chunk_acceptance_decision.
  destruct (is_ok _) eqn:Hok; simpl; [|done].
  destruct (existsb _ _) eqn:Hact; simpl; [|done].
  destruct (_ || _) eqn:Hsz; [done|].
  destruct (Digest_parse_wire_value _ _) as [d|e] eqn:Hd; [|done].
  intros Hc. exists d. split; [done|].
  assert (record_expected_chunk (tf_manifest facts) index size d = Ok record) as Hr.
  { split_matches. }
  apply orb_false_elim in Hsz as [Hz%N.eqb_neq Hle%N.ltb_ge].
  split; [done|]. split; [lia|]. split.
  - unfold data_plane_operation_is_current in Hok. by destruct (ar_state (tf_artifact facts)).
  - destruct attempt as [a|]; [|done]. simpl in Hact. rewrite orb_false_r in Hact.
    exists a. split; [done|]. by apply bool_decide_eq_true in Hact.
Qed.

Lemma acceptance_evolves db id index digest size :
  td_wf db → evolves db (service_commit_chunk_acceptance db id index digest size).1.
Proof.
  intros W. unfold service_commit_chunk_acceptance.
  destruct (try_u32 index) as [i|] eqn:Hi; [|auto].
  destruct (try_u32_Some _ _ Hi) as [_ Hlt].
  assert (evolves db (repo_commit_chunk_acceptance db id i (chunk_acceptance_decision i digest size)).1)
    as He.
  2: { destruct (repo_commit_chunk_acceptance _ _ _ _) as [db' [o|[]]]; exact He. }
  apply locked_evolves; [done|]. intros t u cc Ht Hs Hu. simpl.
  destruct (tdw_transfer _ W _ _ Ht) as (_ & Hcs & _).
  destruct (chunk_acceptance_decision _ _ _ _ _) as [r| | |] eqn:Hdec; [|auto..].
  apply chunk_decision_commit in Hdec as (d & Hd & Hr & Hsz & _). simpl in *.
  destruct r as [m|].
  - apply record_Added in Hr as (Hl & Hn & Hse & ->). apply commit_evolves; [done|].
    intros db'. unfold mbind, result_bind, expected_chunk. simpl. rewrite lookup_insert_eq. simpl.
    apply (insert_chunk_evolves db _ u {| ec_index := i; ec_size := size; ec_digest := d |});
      try done; [by apply (manifest_sealed_false t)|simpl; lia].
  - case_bool_decide; [auto|]. simpl. eapply mark_held_evolves; [done..|].
    unfold record_expected_chunk in Hr. apply result_bind_Ok in Hr as (d' & _ & Hr). simpl in Hr.
    destruct (up_chunks u !! i); [by eauto|]. by case_bool_decide.
Qed.

Lemma verification_decision_commit input facts updated :
  artifact_verification_decision input facts = ArtifactVerificationDecided.Commit updated →
  ∃ expected computed, ar_state (tf_artifact facts) = ArtifactState.PendingVerification
    ∧ ar_id (tf_artifact facts) = av_artifact_id input
    ∧ cm_chunk_count (tf_manifest facts) = Some (av_chunk_count input)
    ∧ cm_artifact_digest (tf_manifest facts) = Some expected
    ∧ Digest_parse_wire_value (cm_digest_algorithm (tf_manifest facts))
        (av_computed_artifact_digest input) = Ok computed
    ∧ updated = artifact_with (tf_artifact facts)
        (if decide (computed = expected) then ArtifactState.Verified else ArtifactState.Failed).
Proof.
  unfold artifact_verification_decision.
  do 2 (case_bool_decide; simpl; [|done]). case_bool_decide as Hst; simpl; [|done].
  destruct (cm_sealed _); simpl; [|done]. case_bool_decide as Hcount; simpl; [|done].
  destruct (cm_artifact_digest _) as [expected|]; [|done]. case_bool_decide; simpl; [|done].
  destruct (Digest_parse_wire_value _ _) as [computed|] eqn:Hd; [|done].
  unfold complete_verification. rewrite Hst, bool_decide_eq_true_2 by done. simpl.
  intros [= <-]. exists expected, computed. split_and!; try done.
  by case_bool_decide; case_decide.
Qed.

Lemma verification_evolves db input :
  td_wf db → evolves db (service_commit_artifact_verification db input).1.
Proof.
  intros W. unfold service_commit_artifact_verification.
  assert (evolves db (repo_commit_artifact_verification db (av_transfer_id input)
                        (artifact_verification_decision input)).1) as He.
  2: { destruct (repo_commit_artifact_verification _ _ _) as [db' [o|[]]]; exact He. }
  apply locked_evolves; [done|]. intros t u cc Ht Hs Hu. simpl.
  destruct (artifact_verification_decision _ _) as [up|] eqn:Hdec; [|auto].
  apply verification_decision_commit in Hdec as (e & c & Hst & _ & _ & _ & _ & ->). simpl.
  eapply update_artifact_evolves; [done..|]. apply us_decide; [done|]. case_decide; auto.
Qed.
End DataPlane.

Section Sealing.
Context {b64 : Base64} {sha : Sha256} {ed : Ed25519} {chrono : ChronoRange}.

(** The authorization snapshot of a Transfer whose upload is [u]. *)
Definition snapshot_of (db : TransferDb) (t : Transfer) (cc : CaptureConsistency.t) (u : Upload)
    (ep : EndpointAggregate) : AuthorizationDurableState :=
  {| ad_transfer := t;
     ad_artifact := {| ar_id := tr_artifact_id t; ar_state := up_state u;
                       ar_capture_consistency := cc |};
     ad_manifest := manifest_of t u; ad_held_chunk_indices := up_held u;
     ad_attempt := owning_attempt db t; ad_endpoint := ep |}.

Lemma seal_composition_Seal db t cc u ep n d n' d' :
  seal_composition n d (snapshot_of db t cc u ep) = ManifestSealDecided.Seal n' d' →
  n' = n ∧ d' = d ∧ up_state u = ArtifactState.Incomplete ∧ up_seal u = None
  ∧ dom (up_chunks u) = below n ∧ complete u ∧ length d = 32.
Proof.
  unfold seal_composition. simpl. destruct (up_state u) eqn:Hst; [| |done..].
  - case_bool_decide as Hse; [done|]. rewrite <-eq_None_not_Some in Hse.
    destruct (seal _ _ _) as [[m|]|[]] eqn:Hr; try done.
    apply seal_Ok in Hr as (_ & Hl & Hi & ->).
    destruct (begin_verification _ _ _) as [up|[]] eqn:Hb; try done. intros [= <- <-].
    apply begin_Ok in Hb as (_ & _ & Hc & _). rewrite digest_len_32 in Hl. done.
  - case_bool_decide; simpl; [|done]. by destruct (seal _ _ _) as [[]|[]].
Qed.

(** The decision commits a seal only by way of [seal_composition]. *)
Lemma seal_decision_cases binding proof input n now replay state replay' decided :
  manifest_seal_decision binding proof input n now replay state = (replay', decided) →
  (replay' = replay
   ∧ (decided = ManifestSealDecided.Denied ∨ decided = ManifestSealDecided.FailClosed))
  ∨ (authorize_durable binding (seal_query input) now state = true
     ∧ ∃ d r, Digest_parse_wire_value (cm_digest_algorithm (ad_manifest state))
                (ms_artifact_digest input) = Ok d
         ∧ Replay.check_and_insert replay proof now
             (replay_valid_until (ms_issued_at_millis input)) = (replay', r)
         ∧ ((decided = ManifestSealDecided.Denied ∧ is_ok r = false)
            ∨ (decided = seal_composition n d state ∧ is_ok r = true))).
Proof.
  unfold manifest_seal_decision. destruct (authorize_durable _ _ _ _); simpl;
    [|intros [= <- <-]; by auto].
  destruct (Digest_parse_wire_value _ _) as [d|]; [|intros [= <- <-]; by auto].
  destruct (Replay.check_and_insert _ _ _ _) as [rc r] eqn:Hr.
  intros [= <- <-]. right. split; [done|]. exists d, r. split; [done|]. split; [done|].
  destruct r; simpl; auto.
Qed.

Lemma persist_seal_evolves db t cc u ep d n decided :
  td_wf db → shows db (tr_artifact_id t) u → upload_wf u → (n < 2 ^ 32)%N →
  decided = ManifestSealDecided.Denied ∨ decided = ManifestSealDecided.FailClosed
    ∨ decided = seal_composition n d (snapshot_of db t cc u ep) →
  evolves db (persist_seal db (snapshot_of db t cc u ep) decided).1.
Proof.
  intros W Hs Hu Hn [->|[->|Hdec]]; simpl; [by auto..|].
  destruct decided as [n' d'| | | | |] eqn:E; simpl; [|by auto..].
  symmetry in Hdec. apply seal_composition_Seal in Hdec as (-> & -> & Hst & Hse & Hd & Hc & Hl).
  destruct (update_sealed _ _ _ _) as [db1|e] eqn:Hup; simpl; [|auto].
  by eapply seal_begin_evolves.
Qed.

Lemma load_facts_none db id : td_transfers db !! id = None → load_locked_facts db id = Ok None.
Proof.
  intros Ht. unfold load_locked_facts, load_locked_transfer_and_artifact. by rewrite Ht.
Qed.

Lemma manifest_seal_evolves db s input now :
  td_wf db → evolves db (service_commit_manifest_seal db s input now).1.1.
Proof.
  intros W. unfold service_commit_manifest_seal.
  destruct (authorize_proof _ _ _) as [[binding proof]|]; [|auto].
  destruct (try_u32 _) as [n|] eqn:Hn; [|auto].
  destruct (try_u32_Some _ _ Hn) as [_ Hlt].
  unfold repo_commit_manifest_seal.
  destruct (td_transfers db !! ms_transfer_id input) as [t|] eqn:Ht;
    [|rewrite load_facts_none by done; auto].
  destruct (load_facts _ _ _ W Ht) as (u & cc & Hs & Hu & ->). simpl.
  destruct (load_endpoint _ _) as [ep|e]; [|auto].
  change {| ad_transfer := t |} with (snapshot_of db t cc u ep).
  destruct (manifest_seal_decision _ _ _ _ _ _ _) as [replay' decided] eqn:Hdec.
  destruct (persist_seal _ _ _) as [db' r] eqn:Hp. simpl.
  apply seal_decision_cases in Hdec as
    [[_ [->| ->]]|(_ & d & r' & _ & _ & [[-> _]|[-> _]])]; simpl in Hp;
    [by injection Hp as <- _; auto..|].
  pose proof (persist_seal_evolves db t cc u ep d n _ W Hs Hu Hlt (or_intror (or_intror eq_refl))) as He.
  rewrite Hp in He. exact He.
Qed.
End Sealing.

(** ** The Job services and the Transfers *)

Lemma update_job_state_transfers db id st db' :
  update_job_state db id st = Ok db' → jd_transfers db' = jd_transfers db.
Proof. unfold update_job_state. intros. by repeat (case_match; simplify_eq/=). Qed.

Lemma persist_applied_transfers db ap audit db' :
  persist_applied db ap audit = Ok db' → jd_transfers db' = jd_transfers db.
Proof.
  unfold persist_applied. intros (db3 & Hup & Hrest)%result_bind_Ok.
  apply result_bind_Ok in Hrest as (evs & _ & Hrest).
  apply result_bind_Ok in Hrest as (auds & _ & [= <-]). simpl.
  by apply update_job_state_transfers in Hup as ->.
Qed.

Lemma evidence_transfers db action ep decide k db' r k' :
  repo_apply_action_evidence db action ep decide k = ((db', r), k') →
  jd_transfers db' = jd_transfers db.
Proof.
  unfold repo_apply_action_evidence, mbind, gen_bind, mret, gen_ret.
  intros He. repeat (case_match; simplify_eq/=; try done). by eapply persist_applied_transfers.
Qed.

Lemma reconcile_each_transfers db ids :
  jd_transfers (reconcile_each db mark_awaiting_reconciliation ids).1 = jd_transfers db.
Proof.
  revert db; induction ids as [|c ids IH]; intros db; simpl; [done|].
  destruct (jd_attempts db !! c ≫= _) as [a|]; [|by apply IH].
  specialize (IH (update_attempt_state db (at_id a) (at_state a))).
  by destruct (reconcile_each (update_attempt_state _ _ _) _ _) as [db' out].
Qed.

Section JobTransfers.
Context {ent : Entropy} {disp : UuidDisplay}.

Lemma transfer_dispatch_same_transfers db id step_id transfer_id k db' r k' :
  repo_commit_transfer_dispatch db id step_id transfer_id evaluate_transfer_dispatch k
    = ((db', r), k') → same_transfers db db'.
Proof.
  unfold repo_commit_transfer_dispatch.
  destruct (find_job db id) as [job|]; unfold mbind, gen_bind, mret, gen_ret;
    [|intros [= <- _ _]; by apply same_transfers_eq].
  destruct (jd_transfers db !! transfer_id) as [t|] eqn:Ht;
    [|intros [= <- _ _]; by apply same_transfers_eq].
  destruct (evaluate_transfer_dispatch _ k) as [[o|d] k1] eqn:He.
  2: { intros [= <- _ _]. apply same_transfers_eq. by destruct (td_pending_job_step d). }
  destruct (result_bind _ _) as [db1|e] eqn:Hp; intros [= <- _ _]; [|by apply same_transfers_eq].
  apply result_bind_Ok in Hp as (db2 & Hp & Hb).
  assert (jd_transfers db2 = jd_transfers db) as E.
  { unfold persist_dispatch in Hp. by apply result_bind_Ok in Hp as (m & _ & [= <-]). }
  assert (tr_attempt_id t = None ∨ tr_attempt_id t = Some (at_id (tdo_attempt o))) as Hbind.
  { unfold evaluate_transfer_dispatch in He. run_gen. unfold new_v4 in He.
    repeat (case_match; simplify_eq/=; try done); unfold mret, gen_ret, mbind, gen_bind in *;
    simplify_eq/=; repeat (case_match; simplify_eq/=);
    by match goal with H : bind_attempt _ _ = Ok _ |- _ => apply bind_Ok in H as [_ ?] end. }
  intros i. rewrite <-E. rewrite <-E in Ht. by apply (binding_same_transfers _ _ _ _ _ Ht Hbind Hb).
Qed.

(** No other Job service touches them. *)
Lemma other_job_ops_transfers w o k w' k' :
  match o with
  | JobOp.CommitTransfer _ _ _ _ | JobOp.Environment _ _ _ => False
  | _ => True
  end →
  run_job_op w o k = (w', k') → jd_transfers (w_db w') = jd_transfers (w_db w).
Proof.
  intros Hc Hrun. destruct o; simpl in Hc, Hrun; try done;
    unfold mbind, gen_bind, mret, gen_ret in Hrun; try (by simplify_eq/=).
  - unfold service_create_workflow, repo_create_workflow, mbind, gen_bind, mret, gen_ret in Hrun.
    repeat (case_match; simplify_eq/=; try done).
    match goal with H : _ = Ok _ |- _ => apply result_bind_Ok in H as (? & _ & H);
      apply result_bind_Ok in H as (? & _ & [= <-]) end. done.
  - unfold service_admit, repo_admit_job, mbind, gen_bind, mret, gen_ret in Hrun.
    repeat (case_match; simplify_eq/=; try done).
    match goal with H : update_job_state _ _ _ = Ok _ |- _ =>
      by apply update_job_state_transfers in H end.
  - unfold service_satisfy_current_step_preconditions, repo_satisfy_current_step_preconditions
      in Hrun. by repeat (case_match; simplify_eq/=; try done).
  - unfold service_authorize, repo_authorize_destructive_intent in Hrun.
    by repeat (case_match; simplify_eq/=; try done).
  - unfold service_commit_destructive_dispatch, repo_commit_destructive_dispatch, persist_denial,
      persist_dispatch, mbind, gen_bind, mret, gen_ret in Hrun.
    repeat (case_match; simplify_eq/=; try done);
    match goal with H : _ = Ok _ |- _ => apply result_bind_Ok in H as (? & Hp & H);
      apply result_bind_Ok in H as (? & _ & [= <-]); apply result_bind_Ok in Hp as (? & _ & [= <-])
    end; done.
  - unfold service_dispatch in Hrun. by repeat (case_match; simplify_eq/=; try done).
  - unfold service_apply_evidence, mbind, gen_bind, mret, gen_ret in Hrun.
    destruct (repo_apply_action_evidence _ _ _ _ _) as [[db r] k1] eqn:Hr.
    apply (f_equal fst) in Hrun. change ((settle w db r).1 = w') in Hrun. subst w'.
    rewrite settle_db. by eapply evidence_transfers.
  - unfold service_request_cancellation, repo_request_cancellation, mbind, gen_bind, mret, gen_ret
      in Hrun.
    repeat (case_match; simplify_eq/=; try done);
    match goal with H : _ = Ok _ |- _ => apply result_bind_Ok in H as (? & ?Hu & ?H) end;
    apply update_job_state_transfers in Hu;
    repeat match goal with H : _ ≫= _ = Ok _ |- _ => apply result_bind_Ok in H as (? & _ & H) end;
    by simplify_eq/=.
  - unfold service_apply_cancel_ack, mbind, gen_bind, mret, gen_ret in Hrun.
    destruct (repo_apply_cancel_ack _ _ _ _ _) as [[db r] k1] eqn:Hr.
    apply (f_equal fst) in Hrun. change ((settle w db r).1 = w') in Hrun. subst w'.
    rewrite settle_db. by eapply evidence_transfers.
  - unfold service_mark_endpoint_uncertain, repo_mark_endpoint_active_attempt_uncertain in Hrun.
    by repeat (case_match; simplify_eq/=; try done).
  - unfold service_reconcile_on_startup, repo_reconcile_all_active_attempts_on_startup in Hrun.
    pose proof (reconcile_each_transfers (w_db w) (at_id <$> List.filter (λ a, attempt_in_flight
      (at_state a)) (map_to_list (jd_attempts (w_db w))).*2)) as Hk.
    destruct (reconcile_each _ _ _). by simplify_eq/=.
  - unfold service_apply_status_report, mbind, gen_bind, mret, gen_ret in Hrun.
    destruct (repo_apply_status_report _ _ _ _ _) as [[db r] k1] eqn:Hr.
    apply (f_equal fst) in Hrun. change ((settle w db r).1 = w') in Hrun. subst w'.
    rewrite settle_db. by eapply evidence_transfers.
  - unfold service_close_indeterminate, repo_close_indeterminate, mbind, gen_bind, mret, gen_ret
      in Hrun.
    repeat (case_match; simplify_eq/=; try done). rewrite take_and_release_db. simpl.
    by eapply persist_applied_transfers.
Qed.

Lemma job_op_same_transfers w o k w' k' :
  run_job_op w (own_transfers (w_db w) o) k = (w', k') → same_transfers (w_db w) (w_db w').
Proof.
  destruct o; try (intros Hr; apply same_transfers_eq; by eapply (other_job_ops_transfers w _ k _ k');
                   [|exact Hr]).
  - simpl. unfold mbind, gen_bind, mret, gen_ret, service_commit_transfer_dispatch.
    destruct (Arbiter.acquire _ _) as [arb [res|e]];
      [|unfold mret, gen_ret; intros [= <- _]; by apply same_transfers_eq].
    unfold mbind, gen_bind, mret, gen_ret.
    destruct (repo_commit_transfer_dispatch _ _ _ _ _ _) as [[db r] k1] eqn:Hr.
    apply transfer_dispatch_same_transfers in Hr.
    destruct r as [|e]; [|destruct e]; by intros [= <- _].
  - simpl. unfold mret, gen_ret. intros [= <- _]. by apply same_transfers_eq.
Qed.
End JobTransfers.

(** ** Terminal evidence *)

Lemma evolves_jobs db db1 jobs :
  evolves db db1 → same_transfers (td_jobs db1) jobs → evolves db (with_td_jobs db1 jobs).
Proof.
  intros [W1 U1 N1 T1] Hsame. destruct (jobs_evolve db1 jobs W1 Hsame) as [W2 _ _ T2].
  assert (∀ a u, shows db1 a u → shows (with_td_jobs db1 jobs) a u) as Hs.
  { intros a u. by apply shows_same_rows. }
  split; [done| | |].
  - intros a u Ha Hu. destruct (U1 a u Ha Hu) as (u' & Hu' & Hm). by eauto.
  - intros a Hn Hsome. apply Hs. by apply N1.
  - intros id t Ht. destruct (T1 _ _ Ht) as (t1 & Ht1 & S1). destruct (T2 _ _ Ht1) as (t2 & Ht2 & S2).
    exists t2. split; [done|by etrans].
Qed.

(** What a decision may order: an effect of the workflow, and the failure of the Artifact
    only while it is [Incomplete]. *)
Definition sound_decision
    (decide : TransferTerminalEvidenceLockedFacts → Gen TransferEvidenceDecision.t) : Prop :=
  ∀ facts k ap audit art k',
    decide facts k = (TransferEvidenceDecision.Applied ap audit art, k') →
    evidence_effect (te_job facts) (te_job_step facts) (te_attempt facts) ap
    ∧ (is_Some art → ar_state (te_artifact facts) = ArtifactState.Incomplete).

Section Evidence.
Context {ent : Entropy} {disp : UuidDisplay}.

Lemma with_artifact_leg_Applied facts applied ended text failed_text now k ap audit art k' :
  with_artifact_leg facts applied ended text failed_text now k
    = (TransferEvidenceDecision.Applied ap audit art, k') →
  ap = applied
  ∧ (is_Some art → ar_state (te_artifact facts) = ArtifactState.Incomplete)
  ∧ (ap_terminal applied = true → at_state (ap_attempt applied) = ended →
     ar_state (te_artifact facts) = ArtifactState.Incomplete → is_Some art).
Proof.
  unfold with_artifact_leg, fail_incomplete. unfold mbind, gen_bind, mret, gen_ret.
  destruct (ap_terminal applied) eqn:Ht; simpl.
  - case_bool_decide as He; simpl.
    + case_bool_decide as Hi; simpl; destruct (terminal_audit _ _ _ _ _); intros [= <- _ <- _];
        (split; [done|split; [by intros [? ?]|by eauto]]).
    + destruct (terminal_audit _ _ _ _ _). intros [= <- _ <- _].
      split; [done|split; [by intros [? ?]|done]].
  - destruct (terminal_audit _ _ _ _ _). intros [= <- _ <- _].
    split; [done|split; [by intros [? ?]|done]].
Qed.

Lemma terminal_decision_sound detail now :
  sound_decision (decide_transfer_terminal_evidence detail now).
Proof.
  intros facts k ap audit art k'. unfold decide_transfer_terminal_evidence, mbind, gen_bind.
  destruct (_ || _); [done|].
  destruct (apply_action_evidence _ _ _ _ _ _) as [o k1] eqn:Ho. destruct o as [a| |]; [|done..].
  destruct (artifact_gate _ _) as [g|] eqn:Hg; [|done].
  destruct (terminal_audit _ _ _ _ _) as [au k2]. unfold mret, gen_ret. intros [= -> _ <- _].
  split; [by eapply action_evidence_effect|]. intros [art' ->].
  unfold artifact_gate in Hg. by split_matches.
Qed.

Lemma cancel_decision_sound e now : sound_decision (decide_transfer_cancel_ack e now).
Proof.
  intros facts k ap audit art k'. unfold decide_transfer_cancel_ack, mbind, gen_bind.
  destruct (correlated facts); [simpl|done].
  destruct (apply_cancel_ack _ _ _ _ _ _) as [o k1] eqn:Ho. destruct o as [a|]; [|done].
  intros (-> & Hi & _)%with_artifact_leg_Applied. split; [by eapply cancel_ack_effect|done].
Qed.

Lemma status_decision_sound e ended now : sound_decision (decide_transfer_status_report e ended now).
Proof.
  intros facts k ap audit art k'. unfold decide_transfer_status_report, mbind, gen_bind.
  destruct (correlated facts); [simpl|done].
  destruct (Reconciliation.apply_status_report _ _ _ _ _ _) as [o k1] eqn:Ho. destruct o as [a|]; [|done].
  intros (-> & Hi & _)%with_artifact_leg_Applied. split; [by eapply status_report_effect|done].
Qed.

Lemma lock_transfer_evidence_Ok db action ep facts :
  tables_inv (tables (td_jobs db)) → td_wf db →
  lock_transfer_evidence db action ep = Ok (Some facts) →
  JobSafety.locked (td_jobs db) (te_job facts) (te_job_step facts) (te_attempt facts)
  ∧ at_action_id (te_attempt facts) = action ∧ job_endpoint_id (te_job facts) = ep
  ∧ tr_attempt_id (te_transfer facts) = Some (at_id (te_attempt facts))
  ∧ ar_id (te_artifact facts) = tr_artifact_id (te_transfer facts)
  ∧ (∃ id, td_transfers db !! id = Some (te_transfer facts))
  ∧ ∃ u, shows db (ar_id (te_artifact facts)) u ∧ upload_wf u
         ∧ up_state u = ar_state (te_artifact facts).
Proof.
  intros HI W. unfold lock_transfer_evidence, load_locked_transfer_and_artifact.
  destruct (transfer_of_action db action) as [id|]; [|done].
  destruct (td_transfers db !! id) as [t|] eqn:Ht; [|done].
  destruct (tdw_transfer _ W _ _ Ht) as (_ & _ & Ha).
  destruct (tdw_upload _ W _ Ha) as (u & Hs & Hu). pose proof Hs as [[cc Hrow] _ _]. rewrite Hrow.
  destruct (ChunkSize_new _); [|done]. destruct (tr_attempt_id t) as [bound|] eqn:Hb; [|done].
  destruct (load_attempt_for_update db bound) as [attempt|] eqn:Hat; [|done].
  case_bool_decide as Hact; simpl; [|done].
  destruct (jd_steps _ !! _) as [step|] eqn:Hst; [|done].
  destruct (find_job _ _) as [job|] eqn:Hj; [|done].
  case_bool_decide as Hep; simpl; [|done]. intros [= <-]. simpl.
  assert (at_id attempt = bound) as Hid by by apply (ti_attempt_key _ HI).
  unfold load_attempt_for_update in Hat. rewrite <-Hid in Hat.
  split; [by split|]. split_and!; [done|done|congruence|done|by eauto|].
  by exists u.
Qed.

Lemma transfer_evidence_evolves db action ep decide k db' r k' :
  tables_inv (tables (td_jobs db)) → td_wf db → sound_decision decide →
  repo_apply_transfer_terminal_evidence db action ep decide k = ((db', r), k') → evolves db db'.
Proof.
  intros HI W Hdec. unfold repo_apply_transfer_terminal_evidence, mbind, gen_bind, mret, gen_ret.
  destruct (lock_transfer_evidence db action ep) as [[facts|]|e] eqn:Hl;
    [|intros [= <- _ _]; auto..].
  destruct (decide facts k) as [d k1] eqn:Hd.
  destruct d as [ap audit art| | |]; [|intros [= <- _ _]; auto..].
  apply Hdec in Hd as [_ Hart].
  apply lock_transfer_evidence_Ok in Hl as (_ & _ & _ & _ & _ & _ & u & Hs & Hu & Hst); [|done..].
  assert (∀ db1 moved, match art with
            | Some _ => persist_incomplete_artifact_failed db (ar_id (te_artifact facts))
            | None => (db, true) end = (db1, moved) → evolves db db1) as Hleg.
  { intros db1 moved. destruct art as [x|]; [|intros [= <- _]; auto].
    unfold persist_incomplete_artifact_failed. destruct (sh_artifact _ _ _ Hs) as [cc ->]. simpl.
    case_bool_decide as Hi; intros [= <- _]; [|auto].
    eapply update_artifact_evolves; [done..|]. by apply us_abandon. }
  destruct (match art with Some _ => _ | None => _ end) as [db1 moved] eqn:Hm.
  specialize (Hleg _ _ eq_refl). destruct moved; simpl; [|intros [= <- _ _]; auto].
  destruct (persist_applied (td_jobs db1) ap audit) as [jobs|e] eqn:Hp; intros [= <- _ _]; [|auto].
  apply evolves_jobs; [done|]. by apply same_transfers_eq, (persist_applied_transfers _ _ _ _ Hp).
Qed.

(** The Artifact's leg does not touch the Job tables. *)
Lemma artifact_leg_jobs (art : option Artifact) db id :
  td_jobs (match art with
           | Some _ => persist_incomplete_artifact_failed db id
           | None => (db, true)
           end).1 = td_jobs db.
Proof. destruct art; [|done]. unfold persist_incomplete_artifact_failed. by split_matches. Qed.

Lemma transfer_evidence_refines stray db action ep decide k db' r k' :
  tables_inv (tables (td_jobs db)) → td_wf db → sound_decision decide →
  (∀ facts kd ap audit art kd', lock_transfer_evidence db action ep = Ok (Some facts) →
     decide facts kd = (TransferEvidenceDecision.Applied ap audit art, kd') →
     attempt_active (at_state (te_attempt facts)) = false →
     stray = true ∨ quiet (tables (td_jobs db)) (job_id (te_job facts))) →
  repo_apply_transfer_terminal_evidence db action ep decide k = ((db', r), k') →
  protocol stray (tables (td_jobs db)) (tables (td_jobs db')).
Proof.
  intros HI W Hdec Hstray.
  unfold repo_apply_transfer_terminal_evidence, mbind, gen_bind, mret, gen_ret.
  destruct (lock_transfer_evidence db action ep) as [[facts|]|e] eqn:Hl;
    [|intros [= <- _ _]; reflexivity..].
  destruct (decide facts k) as [d k1] eqn:Hd.
  destruct d as [ap audit art| | |]; [|intros [= <- _ _]; reflexivity..].
  pose proof (artifact_leg_jobs art db (ar_id (te_artifact facts))) as Hj.
  destruct (match art with Some _ => _ | None => _ end) as [db1 moved]. simpl in Hj.
  destruct moved; simpl; [|intros [= <- _ _]; reflexivity].
  rewrite Hj. destruct (persist_applied (td_jobs db) ap audit) as [jobs|e] eqn:Hp;
    intros [= <- _ _]; [|reflexivity].
  pose proof (Hdec _ _ _ _ _ _ Hd) as [He _].
  pose proof (lock_transfer_evidence_Ok _ _ _ _ HI W Hl) as (Hlk & _).
  apply rtc_once. eapply persist_applied_step; eauto.
Qed.
End Evidence.

(** ** Whole runs *)

(** The data-plane services write no Job table: [transfers] is not one of [tables]. *)
Definition keeps_jobs (db db' : TransferDb) : Prop := tables (td_jobs db') = tables (td_jobs db).

(** What holds of the database after a locked transaction. *)
Lemma locked_post {A} (P : TransferDb → Prop) db id
    (k : TransferLockedFacts → TransferDb * result TransferError.t A) :
  P db → (∀ facts, load_locked_facts db id = Ok (Some facts) → P (k facts).1) →
  P (locked db id k).1.
Proof. intros Hdb Hk. unfold locked. destruct (load_locked_facts db id) as [[facts|]|]; auto. Qed.

Lemma commit_post {A} (P : TransferDb → Prop) db written (a : A) :
  P db → (∀ db', written = Ok db' → P db') → P (commit db written a).1.
Proof. intros Hdb Hw. destruct written; simpl; auto. Qed.

Lemma insert_chunk_keeps db id i size d held db' :
  insert_chunk db id i size d held = Ok db' → keeps_jobs db db'.
Proof.
  unfold insert_chunk. destruct (_ || _); [done|]. by intros (chunks & _ & [= <-])%result_bind_Ok.
Qed.

Lemma update_sealed_keeps db id n d db' : update_sealed db id n d = Ok db' → keeps_jobs db db'.
Proof. unfold update_sealed. intros. by split_matches. Qed.

Lemma binding_keeps db id aid db' : persist_attempt_binding db id aid = Ok db' → tables db' = tables db.
Proof. unfold persist_attempt_binding. intros. by split_matches. Qed.

Lemma create_keeps db context : keeps_jobs db (repo_create_transfer_context db context).1.
Proof.
  unfold repo_create_transfer_context. do 2 (case_match; [|done]). do 2 (case_match; [done|]).
  apply (commit_post (keeps_jobs db)); [done|]. intros db' (arts & _ & Hw)%result_bind_Ok.
  apply result_bind_Ok in Hw as (db2 & Hins & Hw).
  apply result_bind_Ok in Hw as (mans & _ & [= <-]). by apply insert_transfer_Ok in Hins as (_ & _ & _ & ->).
Qed.

Section Runs.
Context {b64 : Base64} {sha : Sha256} {ed : Ed25519} {ent : Entropy} {chrono : ChronoRange}
  {disp : UuidDisplay}.

Lemma service_calls_keep db :
  (∀ id i size d, keeps_jobs db (service_record_expected_chunk db id i size d).1)
  ∧ (∀ id i d, keeps_jobs db (service_accept_verified_chunk db id i d).1)
  ∧ (∀ id n d, keeps_jobs db (service_seal_manifest db id n d).1)
  ∧ (∀ id decide, keeps_jobs db (commit_artifact_transition db id decide).1)
  ∧ (∀ id a, keeps_jobs db (service_bind_attempt db id a).1)
  ∧ (∀ id i d size, keeps_jobs db (service_commit_chunk_acceptance db id i d size).1)
  ∧ (∀ s input now, keeps_jobs db (service_commit_manifest_seal db s input now).1.1)
  ∧ (∀ input, keeps_jobs db (service_commit_artifact_verification db input).1).
Proof.
  split_and!.
  - intros id i size d. apply (locked_post (keeps_jobs db)); [done|]. intros facts _.
    destruct (record_expected_chunk _ _ _ _) as [[m|]|]; [|done..]. apply (commit_post (keeps_jobs db)); [done|].
    intros db' (j & _ & Hw)%result_bind_Ok. apply result_bind_Ok in Hw as (c & _ & Hw).
    by eapply insert_chunk_keeps.
  - intros id i d. apply (locked_post (keeps_jobs db)); [done|]. intros facts _. by split_matches.
  - intros id n d. apply (locked_post (keeps_jobs db)); [done|]. intros facts _.
    destruct (seal _ _ _) as [[m|]|]; [|done..]. apply (commit_post (keeps_jobs db)); [done|].
    intros db' (c & _ & Hw)%result_bind_Ok. apply result_bind_Ok in Hw as (dg & _ & Hw).
    by eapply update_sealed_keeps.
  - intros id decide. apply (locked_post (keeps_jobs db)); [done|]. intros facts _. by destruct (decide facts).
  - intros id a. apply (locked_post (keeps_jobs db)); [done|]. intros facts _. destruct (bind_attempt _ _) as [b|]; [|done].
    apply (commit_post (keeps_jobs db)); [done|]. intros db'. destruct (tr_attempt_id b); [|by intros [= <-]].
    case_bool_decide; [done|]. intros (jobs & Hb & [= <-])%result_bind_Ok. by eapply binding_keeps.
  - intros id i d size. unfold service_commit_chunk_acceptance. destruct (try_u32 i) as [j|]; [|done].
    assert (keeps_jobs db (repo_commit_chunk_acceptance db id j
      (chunk_acceptance_decision j d size)).1) as Hk.
    2: { by destruct (repo_commit_chunk_acceptance _ _ _ _) as [db' [o|[]]]. }
    apply (locked_post (keeps_jobs db)); [done|]. intros facts _.
    destruct (chunk_acceptance_decision _ _ _ _ _) as [[m|]| | |]; [|by case_bool_decide|done..].
    apply (commit_post (keeps_jobs db)); [done|]. intros db' (c & _ & Hw)%result_bind_Ok. by eapply insert_chunk_keeps.
  - intros s input now. unfold service_commit_manifest_seal, repo_commit_manifest_seal.
    repeat (case_match; simplify_eq/=; try done).
    all: match goal with H : persist_seal _ _ ?d = _ |- _ => destruct d; simpl in H; simplify_eq; try done end.
    all: match goal with H : commit _ (?w ≫= _) _ = _ |- _ => destruct w eqn:Hup; simpl in H; simplify_eq/=; try done end.
    all: by apply update_sealed_keeps in Hup.
  - intros input. unfold service_commit_artifact_verification.
    assert (keeps_jobs db (repo_commit_artifact_verification db (av_transfer_id input)
      (artifact_verification_decision input)).1) as Hk.
    2: { by destruct (repo_commit_artifact_verification _ _ _) as [db' [o|[]]]. }
    apply (locked_post (keeps_jobs db)); [done|]. intros facts _. by destruct (artifact_verification_decision _ _).
Qed.

Lemma tw_db_with w db : tw_db (tw_with_db w db) = db.
Proof. by destruct db. Qed.

(** Every argument is in the range of its Rust type. *)
Definition in_range (o : TransferOp.t) : Prop :=
  match o with
  | TransferOp.CreateTransferContext _ _ _ _ _ chunk_size _ => (chunk_size < 2 ^ 32)%N
  | TransferOp.RecordExpectedChunk _ index size _ => (index < 2 ^ 32)%N ∧ (size < 2 ^ 32)%N
  | TransferOp.SealManifest _ chunk_count _ => (chunk_count < 2 ^ 32)%N
  | _ => True
  end.

(** An acknowledgement that closes a Job by way of a transfer Attempt that has ended, while
    another of its Attempts is in flight. *)
Definition stray_transfer_ack (db : TransferDb) (action : ActionId) (ep : EndpointId)
    (e : CancelAckEvidence.t) : Prop :=
  e = CancelAckEvidence.AlreadyCompleted
  ∧ ∃ facts, lock_transfer_evidence db action ep = Ok (Some facts)
      ∧ attempt_active (at_state (te_attempt facts)) = false
      ∧ ∃ a, active_for (tables (td_jobs db)) (job_id (te_job facts)) a.

Definition transfer_disciplined (w : TransferWorld) (o : TransferOp.t) : Prop :=
  match o with
  | TransferOp.Job o => disciplined (tw_world w) o
  | TransferOp.TransferCancelAck action ep e _ => ¬ stray_transfer_ack (tw_db w) action ep e
  | _ => True
  end.

(** One operation, on both halves of the database. *)
Definition op_ok (stray : bool) (w w' : TransferWorld) : Prop :=
  evolves (tw_db w) (tw_db w')
  ∧ protocol stray (tables (w_db (tw_world w))) (tables (w_db (tw_world w'))).

Lemma kept_ok stray w db :
  evolves (tw_db w) db → keeps_jobs (tw_db w) db → op_ok stray w (tw_with_db w db).
Proof.
  intros He Hk. split; [by rewrite tw_db_with|]. unfold keeps_jobs in Hk. simpl in *. by rewrite Hk.
Qed.

Lemma apply_and_settle_ok stray w action ep decide k w' r k' :
  tables_inv (tables (w_db (tw_world w))) → td_wf (tw_db w) → sound_decision decide →
  (∀ facts kd ap audit art kd', lock_transfer_evidence (tw_db w) action ep = Ok (Some facts) →
     decide facts kd = (TransferEvidenceDecision.Applied ap audit art, kd') →
     attempt_active (at_state (te_attempt facts)) = false →
     stray = true ∨ quiet (tables (w_db (tw_world w))) (job_id (te_job facts))) →
  apply_and_settle w action ep decide k = ((w', r), k') → op_ok stray w w'.
Proof.
  intros HI W Hdec Hstray. unfold apply_and_settle, mbind, gen_bind, mret, gen_ret.
  destruct (repo_apply_transfer_terminal_evidence _ _ _ _ _) as [[db r1] k1] eqn:Hr.
  intros Hw. apply (f_equal fst) in Hw. apply (f_equal fst) in Hw. simpl in Hw.
  pose proof (transfer_evidence_evolves (tw_db w) _ _ _ _ _ _ _ HI W Hdec Hr) as He.
  pose proof (transfer_evidence_refines stray (tw_db w) _ _ _ _ _ _ _ HI W Hdec Hstray Hr) as Hp.
  assert (tw_db w' = db) as E.
  { subst w'. repeat case_match; rewrite ?tw_db_with; try done.
    unfold tw_db. simpl. rewrite take_and_release_db. by destruct db. }
  split; [by rewrite E|]. change (w_db (tw_world w')) with (td_jobs (tw_db w')). by rewrite E.
Qed.

Lemma evidence_not_stray facts detail now kd ap audit art kd' :
  decide_transfer_terminal_evidence detail now facts kd
    = (TransferEvidenceDecision.Applied ap audit art, kd') →
  attempt_active (at_state (te_attempt facts)) = true.
Proof.
  unfold decide_transfer_terminal_evidence, mbind, gen_bind. destruct (_ || _); [done|].
  unfold apply_action_evidence. unfold mbind, gen_bind, mret, gen_ret.
  by destruct (trd_code detail), (at_state (te_attempt facts)).
Qed.

Lemma status_not_stray facts e ended now kd ap audit art kd' :
  decide_transfer_status_report e ended now facts kd
    = (TransferEvidenceDecision.Applied ap audit art, kd') →
  attempt_active (at_state (te_attempt facts)) = true.
Proof.
  unfold decide_transfer_status_report, mbind, gen_bind. destruct (correlated facts); [simpl|done].
  unfold Reconciliation.apply_status_report. case_bool_decide as Hst; [by rewrite Hst|done].
Qed.

Lemma cancel_stray facts e now kd ap audit art kd' :
  decide_transfer_cancel_ack e now facts kd
    = (TransferEvidenceDecision.Applied ap audit art, kd') →
  attempt_active (at_state (te_attempt facts)) = false → e = CancelAckEvidence.AlreadyCompleted.
Proof.
  unfold decide_transfer_cancel_ack, mbind, gen_bind. destruct (correlated facts); [simpl|done].
  unfold apply_cancel_ack. unfold mbind, gen_bind, mret, gen_ret.
  case_bool_decide; simpl; [|done].
  by destruct e, (at_state (te_attempt facts)).
Qed.

(** Every operation, in every state. *)
Lemma run_transfer_op_ok stray w o k w' k' :
  tables_inv (tables (w_db (tw_world w))) → td_wf (tw_db w) → in_range o →
  stray = true ∨ transfer_disciplined w o →
  run_transfer_op w o k = (w', k') → op_ok stray w w'.
Proof.
  intros HI W Hr Hd. destruct (service_calls_keep (tw_db w)) as (K1 & K2 & K3 & K4 & K5 & K6 & K7 & K8).
  assert (op_ok stray w w) as Hrefl by (split; [by apply evolves_refl|reflexivity]).
  destruct o; simpl in Hr; unfold run_transfer_op, mbind, gen_bind, mret, gen_ret.
  - destruct (run_job_op _ _ _) as [world k1] eqn:Ho. destruct (restarted _ _ _) as [auth k2].
    intros [= <- _]. split.
    + apply (jobs_evolve (tw_db w) (w_db world)); [done|]. by eapply job_op_same_transfers.
    + eapply run_job_op_refines; [done| |exact Ho]. destruct Hd as [->|Hd]; [by left|right].
      by destruct o.
  - unfold service_create_transfer_context, create_transfer_context. run_gen.
    destruct (repo_create_transfer_context _ _) as [db r] eqn:Hc. pose proof Hc as He.
    apply create_evolves in He; [|done..].
    match type of Hc with repo_create_transfer_context _ ?c = _ =>
      pose proof (create_keeps (tw_db w) c) as Hk end. rewrite Hc in Hk.
    destruct r; intros [= <- _]; by apply kept_ok.
  - destruct Hr. intros [= <- _]. apply kept_ok; [by apply record_evolves|done].
  - intros [= <- _]. apply kept_ok; [by apply accept_evolves|done].
  - intros [= <- _]. apply kept_ok; [by apply seal_evolves|done].
  - intros [= <- _]. apply kept_ok; [by apply begin_evolves|apply K4].
  - intros [= <- _]. apply kept_ok; [by apply complete_evolves|apply K4].
  - intros [= <- _]. apply kept_ok; [by apply fail_evolves|apply K4].
  - intros [= <- _]. apply kept_ok; [by apply bind_evolves|done].
  - intros [= <- _]. apply kept_ok; [by apply acceptance_evolves|done].
  - intros [= <- _]. apply (kept_ok stray w _); [by apply manifest_seal_evolves|done].
  - intros [= <- _]. apply kept_ok; [by apply verification_evolves|done].
  - destruct (service_issue _ _ _ _ _ _ _ _ _ _) as [r k1]. by intros [= <- _].
  - by intros [= <- _].
  - unfold service_transfer_apply, mbind, gen_bind, mret, gen_ret.
    destruct (apply_and_settle _ _ _ _ _) as [[w1 r] k1] eqn:Ha. intros [= <- _].
    eapply apply_and_settle_ok; [done|done|apply terminal_decision_sound| |exact Ha].
    intros facts kd ap audit art kd' _ Hdec Hact. apply evidence_not_stray in Hdec. congruence.
  - unfold service_transfer_cancel_ack, mbind, gen_bind, mret, gen_ret.
    destruct (apply_and_settle _ _ _ _ _) as [[w1 r] k1] eqn:Ha. intros [= <- _].
    eapply apply_and_settle_ok; [done|done|apply cancel_decision_sound| |exact Ha].
    intros facts kd ap audit art kd' Hl Hdec Hact. destruct Hd as [->|Hns]; [by left|right].
    intros a Hac. apply Hns. split; [by eapply cancel_stray|by eauto 10].
  - unfold service_transfer_status_report_cancelled, mbind, gen_bind, mret, gen_ret.
    destruct (apply_and_settle _ _ _ _ _) as [[w1 r] k1] eqn:Ha. intros [= <- _].
    eapply apply_and_settle_ok; [done|done|apply status_decision_sound| |exact Ha].
    intros facts kd ap audit art kd' _ Hdec Hact. apply status_not_stray in Hdec. congruence.
  - unfold service_transfer_status_report_failed, mbind, gen_bind, mret, gen_ret.
    destruct (apply_and_settle _ _ _ _ _) as [[w1 r] k1] eqn:Ha. intros [= <- _].
    eapply apply_and_settle_ok; [done|done|apply status_decision_sound| |exact Ha].
    intros facts kd ap audit art kd' _ Hdec Hact. apply status_not_stray in Hdec. congruence.
Qed.

(** Runs of operations in range, with or without stray acknowledgements; other parts of
    the server may draw random values in between. *)
Inductive treaches (stray : bool) (w : TransferWorld) (k : nat) : TransferWorld → nat → Prop :=
| treaches_refl : treaches stray w k w k
| treaches_step w1 k1 o w2 k2 :
    treaches stray w k w1 k1 → in_range o → stray = true ∨ transfer_disciplined w1 o →
    run_transfer_op w1 o k1 = (w2, k2) → treaches stray w k w2 k2
| treaches_draw w1 k1 k2 : treaches stray w k w1 k1 → k1 ≤ k2 → treaches stray w k w1 k2.

Definition world_wf (w : TransferWorld) : Prop :=
  tables_inv (tables (w_db (tw_world w))) ∧ td_wf (tw_db w).

Lemma op_ok_wf stray w w' : op_ok stray w w' → world_wf w → world_wf w'.
Proof. intros [He Hp] [HI W]. split; [by eapply protocol_inv|apply He]. Qed.

Lemma empty_world_wf epoch capacity : world_wf (empty_transfer_world epoch capacity).
Proof.
  split; [by apply empty_inv|]. split; unfold td_transfers; simpl.
  - intros id t. by rewrite lookup_empty.
  - intros id id' t t'. by rewrite lookup_empty.
  - intros a [? Ha]. by rewrite lookup_empty in Ha.
  - intros a [? Ha]. by rewrite lookup_empty in Ha.
  - intros a z [? Ha]. by rewrite lookup_empty in Ha.
Qed.

(** Every state of a run is in order, and every upload has only taken steps. *)
Lemma treaches_ok stray w k w' k' :
  treaches stray w k w' k' → world_wf w →
  world_wf w'
  ∧ protocol stray (tables (w_db (tw_world w))) (tables (w_db (tw_world w')))
  ∧ (∀ a u, shows (tw_db w) a u → upload_wf u →
       ∃ u', shows (tw_db w') a u' ∧ rtc upload_step u u')
  ∧ (∀ a, td_artifacts (tw_db w) !! a = None → is_Some (td_artifacts (tw_db w') !! a) →
       ∃ u, shows (tw_db w') a u ∧ rtc upload_step fresh_upload u)
  ∧ (∀ id t, td_transfers (tw_db w) !! id = Some t →
       ∃ t', td_transfers (tw_db w') !! id = Some t' ∧ same_transfer t t').
Proof.
  induction 1 as [|w1 k1 o w2 k2 _ IH Hr Hd Hrun|]; intros Hw; [..|by eauto].
  - split; [done|]. split; [reflexivity|]. split; [by eauto using rtc_refl|].
    split; [intros a Hn [? ?]; congruence|]. intros id t ?. by exists t.
  - destruct (IH Hw) as ([HI1 W1] & Hp1 & Hu1 & Hf1 & Ht1).
    pose proof (run_transfer_op_ok _ _ _ _ _ _ HI1 W1 Hr Hd Hrun) as Hok.
    split; [by eapply op_ok_wf|]. destruct Hok as [[W2 U2 N2 T2] Hp2]. split; [by etrans|].
    assert (∀ a u0 u1, upload_wf u0 → shows (tw_db w1) a u1 → rtc upload_step u0 u1 →
              ∃ u2, shows (tw_db w2) a u2 ∧ rtc upload_step u0 u2) as Hgo.
    { intros a u0 u1 Hu0 Ha1 Hs1.
      destruct (U2 a u1 Ha1) as (u2 & Ha2 & [->|Hs2]); [by eapply upload_steps_wf|by eauto|].
      exists u2. split; [done|]. eapply rtc_r; eauto. }
    split; [|split].
    + intros a u Ha Hu. destruct (Hu1 a u Ha Hu) as (u1 & Ha1 & Hs1). by eapply Hgo.
    + intros a Hn Hsome. destruct (td_artifacts (tw_db w1) !! a) as [row|] eqn:E1.
      * destruct (Hf1 a Hn) as (u1 & Ha1 & Hs1); [by eauto|]. eapply Hgo; eauto using fresh_wf.
      * exists fresh_upload. split; [by apply N2|reflexivity].
    + intros id t Ht. destruct (Ht1 id t Ht) as (t1 & Hid1 & S1).
      destruct (T2 id t1 Hid1) as (t2 & Hid2 & S2). exists t2. split; [done|by etrans].
Qed.

Lemma run_transfer_ops_reaches w k ops w' k' :
  Forall in_range ops → run_transfer_ops w ops k = (w', k') → treaches true w k w' k'.
Proof.
  assert (∀ w0 k0, treaches true w k w0 k0 → Forall in_range ops →
            run_transfer_ops w0 ops k0 = (w', k') → treaches true w k w' k') as Hgen.
  { induction ops as [|o ops IH]; intros w0 k0 Hr Hin; simpl; unfold mbind, gen_bind, mret, gen_ret.
    - by intros [= <- <-].
    - apply Forall_cons in Hin as [Ho Hin]. destruct (run_transfer_op w0 o k0) as [w1 k1] eqn:Hrun.
      apply IH; [|done]. eapply treaches_step; [done|done|by left|done]. }
  intros Hin. apply Hgen; [apply treaches_refl|done].
Qed.
End Runs.
