(* ===== verification/TransferTheorems.v ===== *)
(** * The data plane: properties

    What holds of every run of the transfer services, the Job services and the
    authorization service over one database: refinement of the upload specification,
    integrity of the stored manifests, and what chunk acceptance, sealing, verification
    and terminal evidence decide. *)

From stdpp Require Import prelude gmap strings sorting.
From Stdlib Require Import Strings.Byte NArith ZArith.
From S2P Require Import Prelude.
From S2P Require Import External.
From S2P Require Import Credential.
From S2P Require Import Endpoint.
From S2P Require Import EnrollmentStore.
From S2P Require Import Job.
From S2P Require Import Transfer.
From S2P Require Import Runtime.
From S2P Require Import JobStore.
From S2P Require Import JobSpec.
From S2P Require Import JobServices.
From S2P Require Import JobSafety.
From S2P Require Import JobTheorems.
From S2P Require Import TransferAuth.
From S2P Require Import TransferStore.
From S2P Require Import TransferEvidence.
From S2P Require Import TransferSpec.
From S2P Require Import TransferSafety.

Section Theorems.
Context {b64 : Base64} {sha : Sha256} {ed : Ed25519} {ent : Entropy} {chrono : ChronoRange}
  {disp : UuidDisplay}.

Definition treachable (w : TransferWorld) (k : nat) : Prop :=
  ∃ epoch capacity, treaches true (empty_transfer_world epoch capacity) 0 w k.

Lemma treachable_wf w k : treachable w k → world_wf w.
Proof.
  intros (epoch & capacity & Hr). eapply treaches_ok; [done|]. apply empty_world_wf.
Qed.

(** C2. The data-plane services implement the upload specification, and the workflow
    protocol with it. From every reachable state, each operation moves the upload of each
    Artifact by at most one step of [upload_step] (so a transaction is never seen half
    done), starts a new Artifact empty, binds a Transfer to at most one Attempt for good
    and changes nothing else of it, and moves the Job tables by protocol steps. *)
Theorem data_plane_refines (w : TransferWorld) (k : nat) (o : TransferOp.t) (w' : TransferWorld)
    (k' : nat) :
  treachable w k → in_range o → run_transfer_op w o k = (w', k') →
  (∀ a, is_Some (td_artifacts (tw_db w) !! a) →
     ∃ u u', shows (tw_db w) a u ∧ shows (tw_db w') a u' ∧ (u' = u ∨ upload_step u u'))
  ∧ (∀ a, td_artifacts (tw_db w) !! a = None → is_Some (td_artifacts (tw_db w') !! a) →
       shows (tw_db w') a fresh_upload)
  ∧ (∀ id t, td_transfers (tw_db w) !! id = Some t →
       ∃ t', td_transfers (tw_db w') !! id = Some t' ∧ same_transfer t t')
  ∧ protocol true (tables (w_db (tw_world w))) (tables (w_db (tw_world w')))
  ∧ (transfer_disciplined w o →
     protocol false (tables (w_db (tw_world w))) (tables (w_db (tw_world w')))).
Proof.
  intros [HI W]%treachable_wf Hr Hrun.
  destruct (run_transfer_op_ok true _ _ _ _ _ HI W Hr (or_introl eq_refl) Hrun) as [[W2 U N T] Hp].
  split; [|split; [done|split; [done|split; [done|]]]].
  - intros a (u & Hs & Hu)%(tdw_upload _ W). destruct (U a u Hs Hu) as (u' & Hs' & Hm). by exists u, u'.
  - intros Hd. by apply (run_transfer_op_ok false _ _ _ _ _ HI W Hr (or_intror Hd) Hrun).
Qed.

(** What is stored can always be read back. In every reachable state the locked read
    of a Transfer succeeds exactly when the Transfer exists, and yields a well-formed
    manifest (unique indices, digests of the algorithm's length, complete if sealed) whose
    held chunks are among the named ones; an Artifact past [Incomplete], unless it failed,
    has a sealed manifest with every chunk held. *)
Theorem stored_manifests_wellformed (w : TransferWorld) (k : nat) (id : TransferId) :
  treachable w k →
  match td_transfers (tw_db w) !! id with
  | None => load_locked_facts (tw_db w) id = Ok None
  | Some t => ∃ facts, load_locked_facts (tw_db w) id = Ok (Some facts)
      ∧ tf_transfer facts = t ∧ tr_id t = id
      ∧ ar_id (tf_artifact facts) = tr_artifact_id t
      ∧ cm_artifact_id (tf_manifest facts) = tr_artifact_id t
      ∧ manifest_wf (tf_manifest facts)
      ∧ tf_held_chunk_indices facts ⊆ chunk_indices (tf_manifest facts)
      ∧ (ar_state (tf_artifact facts) = ArtifactState.PendingVerification
         ∨ ar_state (tf_artifact facts) = ArtifactState.Verified →
         cm_sealed (tf_manifest facts) = true
         ∧ chunk_indices (tf_manifest facts) ⊆ tf_held_chunk_indices facts)
  end.
Proof.
  intros [HI W]%treachable_wf. destruct (td_transfers (tw_db w) !! id) as [t|] eqn:Ht;
    [|by apply load_facts_none].
  destruct (load_facts _ _ _ W Ht) as (u & cc & Hs & Hu & ->). exists (facts_of t cc u).
  split; [done|]. split; [done|]. split; [by apply W|]. split; [done|]. split; [done|].
  split; [|split].
  - split; simpl.
    + intros i c Hc. rewrite digest_len_32. by destruct (uw_chunk _ Hu _ _ Hc) as [? (_ & _ & ?)].
    + intros Hse%bool_decide_eq_true. destruct Hse as [[n d] Hse]. rewrite Hse. exists n, d.
      rewrite digest_len_32. by destruct (uw_seal _ Hu _ _ Hse) as (? & _ & ?).
    + intros Hse%bool_decide_eq_false. rewrite <-eq_None_not_Some in Hse. by rewrite Hse.
  - apply (uw_held _ Hu).
  - simpl. intros Hst. destruct (uw_pending _ Hu Hst) as [Hse Hc].
    split; [by apply bool_decide_eq_true_2|done].
Qed.

(** Reading one Transfer at two points of a run. *)
Lemma loads_in_order stray w k w' k' id t u :
  treaches stray w k w' k' → world_wf w → td_transfers (tw_db w) !! id = Some t →
  shows (tw_db w) (tr_artifact_id t) u → upload_wf u →
  ∃ t' u' cc', load_locked_facts (tw_db w') id = Ok (Some (facts_of t' cc' u')) ∧ upload_wf u'
    ∧ same_transfer t t' ∧ upload_le u u'.
Proof.
  intros Hr Hw Ht Hs Hu. destruct (treaches_ok _ _ _ _ _ Hr Hw) as ([_ W'] & _ & Hu' & _ & Ht').
  destruct (Ht' _ _ Ht) as (t' & Hid' & Hsame). destruct (Hu' _ _ Hs Hu) as (v & Hv & Hst).
  destruct (load_facts _ _ _ W' Hid') as (u' & cc' & Hs' & Hu2 & Hl').
  assert (tr_artifact_id t' = tr_artifact_id t) as Ea by (by destruct Hsame as [_ ->]).
  rewrite Ea in Hs'. assert (u' = v) as -> by (eapply shows_inj; eauto using upload_steps_wf).
  exists t', v, cc'. split_and!; try done. by apply upload_steps_le.
Qed.

(** Nothing stored is taken back. Between any two points of a run, of the same
    Transfer: a named chunk keeps its identity, a held chunk stays held, a sealed manifest
    never changes, an Artifact that is [Verified] or [Failed] stays so, and the Transfer
    keeps its chunk size, algorithm, Artifact and, once bound, its Attempt. *)
Theorem stored_data_append_only (stray : bool) (w : TransferWorld) (k : nat) (w' : TransferWorld)
    (k' : nat) (id : TransferId) (facts : TransferLockedFacts) :
  treachable w k → treaches stray w k w' k' →
  load_locked_facts (tw_db w) id = Ok (Some facts) →
  ∃ facts', load_locked_facts (tw_db w') id = Ok (Some facts')
    ∧ (∀ i c, expected_chunk (tf_manifest facts) i = Some c →
         expected_chunk (tf_manifest facts') i = Some c)
    ∧ tf_held_chunk_indices facts ⊆ tf_held_chunk_indices facts'
    ∧ (cm_sealed (tf_manifest facts) = true → tf_manifest facts' = tf_manifest facts)
    ∧ (artifact_is_terminal (tf_artifact facts) = true →
       ar_state (tf_artifact facts') = ar_state (tf_artifact facts))
    ∧ same_transfer (tf_transfer facts) (tf_transfer facts').
Proof.
  intros Hw%treachable_wf Hr Hf. destruct (td_transfers (tw_db w) !! id) as [t|] eqn:Ht;
    [|by rewrite load_facts_none in Hf].
  destruct (load_facts _ _ _ (proj2 Hw) Ht) as (u & cc & Hs & Hu & Hl0). rewrite Hl0 in Hf.
  injection Hf as <-.
  destruct (loads_in_order _ _ _ _ _ _ _ _ Hr Hw Ht Hs Hu) as (t' & u' & cc' & Hl & _ & Hsame & Hle).
  exists (facts_of t' cc' u'). split; [done|]. split_and!; simpl.
  - intros i c Hc. unfold expected_chunk in *. simpl in *. by eapply lookup_weaken, Hle.
  - apply Hle.
  - intros Hse%bool_decide_eq_true. destruct (ul_seal _ _ Hle Hse) as [E1 E2].
    unfold manifest_of. destruct Hsame as [_ ->]. simpl. by rewrite E1, E2.
  - intros Hend. apply (ul_terminal _ _ Hle). unfold artifact_is_terminal in Hend. simpl in Hend.
    destruct (up_state u); auto; done.
  - done.
Qed.

(** ** Verification *)

(** No Artifact is newly [Verified]. *)
Definition no_new_verified (db db' : TransferDb) : Prop :=
  ∀ a row', td_artifacts db' !! a = Some row' → afr_state row' = ArtifactState.Verified →
    ∃ row, td_artifacts db !! a = Some row ∧ afr_state row = ArtifactState.Verified.

Lemma same_artifacts_verified db db' : td_artifacts db' = td_artifacts db → no_new_verified db db'.
Proof. intros E a row'. rewrite E. by eauto. Qed.

Lemma update_artifact_verified db a st :
  st ≠ ArtifactState.Verified → no_new_verified db (update_artifact_state db a st).
Proof.
  intros Hst b row'. simpl. rewrite lookup_alter_Some.
  intros [(_ & row & _ & ->)|[_ Hb]]; [done|by eauto].
Qed.

Lemma insert_chunk_artifacts db id i size d held db' :
  insert_chunk db id i size d held = Ok db' → td_artifacts db' = td_artifacts db.
Proof.
  unfold insert_chunk. destruct (_ || _); [done|]. by intros (chunks & _ & [= <-])%result_bind_Ok.
Qed.

Lemma update_sealed_artifacts db id n d db' :
  update_sealed db id n d = Ok db' → td_artifacts db' = td_artifacts db.
Proof. unfold update_sealed. intros. by split_matches. Qed.

(** The calls of [TransferService] and the commits, one by one. *)
Lemma service_calls_verify_nothing db :
  let P := no_new_verified db in
  (∀ context, ar_state (tc_artifact context) = ArtifactState.Incomplete →
     P (repo_create_transfer_context db context).1)
  ∧ (∀ id i size d, P (service_record_expected_chunk db id i size d).1)
  ∧ (∀ id i d, P (service_accept_verified_chunk db id i d).1)
  ∧ (∀ id n d, P (service_seal_manifest db id n d).1)
  ∧ (∀ id, P (service_begin_artifact_verification db id).1)
  ∧ (∀ id, P (service_complete_artifact_verification db id false).1)
  ∧ (∀ id, P (service_fail_incomplete_artifact db id).1)
  ∧ (∀ id a, P (service_bind_attempt db id a).1)
  ∧ (∀ id i d size, P (service_commit_chunk_acceptance db id i d size).1)
  ∧ (∀ s input now, P (service_commit_manifest_seal db s input now).1.1).
Proof.
  intros P. assert (P db) as Hdb by by apply same_artifacts_verified.
  assert (∀ db', td_artifacts db' = td_artifacts db → P db') as Hsame
    by by apply same_artifacts_verified.
  split_and!.
  - intros context Hst. unfold repo_create_transfer_context.
    do 2 (case_match; [|done]). do 2 (case_match; [done|]).
    apply (commit_post P); [done|]. intros db' (arts & Ha & Hw)%result_bind_Ok.
    apply result_bind_Ok in Hw as (db2 & Hins & Hw).
    apply result_bind_Ok in Hw as (mans & _ & [= <-]).
    apply insert_transfer_Ok in Hins as (_ & _ & _ & ->).
    apply insert_unique_Ok in Ha as [_ ->]. intros a row'. simpl. rewrite lookup_insert_Some.
    intros [[_ <-]|[_ ?]]; simpl; [congruence|by eauto].
  - intros id i size d. apply (locked_post P); [done|]. intros facts _.
    destruct (record_expected_chunk _ _ _ _) as [[m|]|]; [|done..]. apply (commit_post P); [done|].
    intros db' (j & _ & Hw)%result_bind_Ok. apply result_bind_Ok in Hw as (c & _ & Hw).
    by eapply Hsame, insert_chunk_artifacts.
  - intros id i d. apply (locked_post P); [done|]. intros facts _.
    split_matches; by apply Hsame.
  - intros id n d. apply (locked_post P); [done|]. intros facts _.
    destruct (seal _ _ _) as [[m|]|]; [|done..]. apply (commit_post P); [done|].
    intros db' (c & _ & Hw)%result_bind_Ok. apply result_bind_Ok in Hw as (dg & _ & Hw).
    by eapply Hsame, update_sealed_artifacts.
  - intros id. apply (locked_post P); [done|]. intros facts _.
    destruct (begin_verification _ _ _) as [up|] eqn:Hb; [|done].
    apply begin_Ok in Hb as (_ & _ & _ & ->). by apply update_artifact_verified.
  - intros id. apply (locked_post P); [done|]. intros facts _.
    unfold complete_verification. case_bool_decide; [|done]. by apply update_artifact_verified.
  - intros id. apply (locked_post P); [done|]. intros facts _.
    unfold fail_incomplete. case_bool_decide; [|done]. by apply update_artifact_verified.
  - intros id a. apply (locked_post P); [done|]. intros facts _.
    destruct (bind_attempt _ _) as [b|]; [|done].
    apply (commit_post P); [done|]. intros db'. destruct (tr_attempt_id b); [|by intros [= <-]].
    case_bool_decide; [done|]. intros (jobs & Hb & [= <-])%result_bind_Ok. by apply Hsame.
  - intros id i d size. unfold service_commit_chunk_acceptance. destruct (try_u32 i) as [j|]; [|done].
    assert (P (repo_commit_chunk_acceptance db id j (chunk_acceptance_decision j d size)).1) as Hk.
    2: { by destruct (repo_commit_chunk_acceptance _ _ _ _) as [db' [o|[]]]. }
    apply (locked_post P); [done|]. intros facts _.
    destruct (chunk_acceptance_decision _ _ _ _ _) as [[m|]| | |];
      [|case_bool_decide; [done|by apply Hsame]|done..].
    apply (commit_post P); [done|]. intros db' (c & _ & Hw)%result_bind_Ok.
    by eapply Hsame, insert_chunk_artifacts.
  - intros s input now. unfold service_commit_manifest_seal, repo_commit_manifest_seal.
    repeat (case_match; simplify_eq/=; try done).
    all: match goal with H : persist_seal _ _ ?d = _ |- _ => destruct d; simpl in H; simplify_eq; try done end.
    all: match goal with H : commit _ (?w ≫= _) _ = _ |- _ => destruct w eqn:Hup; simpl in H; simplify_eq/=; try done end.
    all: apply update_sealed_artifacts in Hup; intros art row'; simpl; rewrite Hup, lookup_alter_Some.
    all: intros [(_ & row & _ & ->)|[_ Hb]]; [done|by eauto].
Qed.

Lemma evidence_verifies_nothing db action ep decide k db' r k' :
  repo_apply_transfer_terminal_evidence db action ep decide k = ((db', r), k') →
  no_new_verified db db'.
Proof.
  assert (no_new_verified db db) as Hdb by by apply same_artifacts_verified.
  unfold repo_apply_transfer_terminal_evidence, mbind, gen_bind, mret, gen_ret. intros Hr.
  repeat (case_match; simplify_eq/=; try done); unfold persist_incomplete_artifact_failed in *;
    repeat (case_match; simplify_eq/=; try done);
    by apply (update_artifact_verified db (ar_id _)).
Qed.

Lemma settle_verifies_nothing w action ep decide k w' r k' :
  apply_and_settle w action ep decide k = ((w', r), k') → no_new_verified (tw_db w) (tw_db w').
Proof.
  unfold apply_and_settle, mbind, gen_bind, mret, gen_ret.
  destruct (repo_apply_transfer_terminal_evidence _ _ _ _ _) as [[db r1] k1] eqn:Hr.
  intros Hw. apply (f_equal fst) in Hw. apply (f_equal fst) in Hw. simpl in Hw.
  apply evidence_verifies_nothing in Hr. subst w'. by repeat case_match.
Qed.

(** Only the two verification calls can. *)
Lemma other_calls_verify_nothing w o k w' k' :
  match o with
  | TransferOp.CompleteVerification _ true | TransferOp.CommitArtifactVerification _ => False
  | _ => True
  end →
  run_transfer_op w o k = (w', k') → no_new_verified (tw_db w) (tw_db w').
Proof.
  intros Ho. assert (no_new_verified (tw_db w) (tw_db w)) as Hrefl by by apply same_artifacts_verified.
  destruct (service_calls_verify_nothing (tw_db w))
    as (K0 & K1 & K2 & K3 & K4 & K5 & K6 & K7 & K8 & K9).
  destruct o; simpl in Ho; try done; unfold run_transfer_op, mbind, gen_bind, mret, gen_ret.
  - destruct (run_job_op _ _ _) as [world k1]. destruct (restarted _ _ _). by intros [= <- _].
  - unfold service_create_transfer_context, create_transfer_context. run_gen.
    match goal with |- context [repo_create_transfer_context _ ?c] => specialize (K0 c eq_refl);
      destruct (repo_create_transfer_context (tw_db w) c) as [db r] end.
    destruct r; by intros [= <- _].
  - intros [= <- _]. apply K1.
  - intros [= <- _]. apply K2.
  - intros [= <- _]. apply K3.
  - intros [= <- _]. apply K4.
  - destruct digest_matches; [done|]. intros [= <- _]. apply K5.
  - intros [= <- _]. apply K6.
  - intros [= <- _]. apply K7.
  - intros [= <- _]. apply K8.
  - intros [= <- _]. apply K9.
  - destruct (service_issue _ _ _ _ _ _ _ _ _ _) as [r k1]. by intros [= <- _].
  - by intros [= <- _].
  - unfold service_transfer_apply, mbind, gen_bind, mret, gen_ret.
    destruct (apply_and_settle _ _ _ _ _) as [[w1 r] k1] eqn:Ha. intros [= <- _].
    by eapply settle_verifies_nothing.
  - unfold service_transfer_cancel_ack, mbind, gen_bind, mret, gen_ret.
    destruct (apply_and_settle _ _ _ _ _) as [[w1 r] k1] eqn:Ha. intros [= <- _].
    by eapply settle_verifies_nothing.
  - unfold service_transfer_status_report_cancelled, mbind, gen_bind, mret, gen_ret.
    destruct (apply_and_settle _ _ _ _ _) as [[w1 r] k1] eqn:Ha. intros [= <- _].
    by eapply settle_verifies_nothing.
  - unfold service_transfer_status_report_failed, mbind, gen_bind, mret, gen_ret.
    destruct (apply_and_settle _ _ _ _ _) as [[w1 r] k1] eqn:Ha. intros [= <- _].
    by eapply settle_verifies_nothing.
Qed.

(** A transition of the Artifact of Transfer [id] touches no other Artifact's row. *)
Lemma transition_row db t a st row row' :
  td_artifacts (update_artifact_state db (tr_artifact_id t) st) !! a = Some row' →
  td_artifacts db !! a = Some row → afr_state row' ≠ afr_state row →
  a = tr_artifact_id t ∧ afr_state row' = st.
Proof.
  simpl. rewrite lookup_alter_Some. intros [(-> & row0 & _ & ->)|[_ Hb]] Hrow Hne; [done|].
  congruence.
Qed.

Lemma pending_complete t u :
  upload_wf u → up_state u = ArtifactState.PendingVerification →
  cm_sealed (manifest_of t u) = true ∧ dom (up_chunks u) ⊆ up_held u.
Proof.
  intros Hu Hp. destruct (uw_pending _ Hu (or_introl Hp)) as [Hse Hc].
  split; [by apply bool_decide_eq_true_2|done].
Qed.

(** How an Artifact becomes [Verified]. *)
Lemma newly_verified (w : TransferWorld) (k : nat) (o : TransferOp.t)
    (w' : TransferWorld) (k' : nat) (a : ArtifactId) (row row' : ArtifactRow) :
  world_wf w → run_transfer_op w o k = (w', k') →
  td_artifacts (tw_db w) !! a = Some row → afr_state row ≠ ArtifactState.Verified →
  td_artifacts (tw_db w') !! a = Some row' → afr_state row' = ArtifactState.Verified →
  ∃ id facts, load_locked_facts (tw_db w) id = Ok (Some facts) ∧ ar_id (tf_artifact facts) = a
    ∧ ar_state (tf_artifact facts) = ArtifactState.PendingVerification
    ∧ cm_sealed (tf_manifest facts) = true
    ∧ chunk_indices (tf_manifest facts) ⊆ tf_held_chunk_indices facts
    ∧ (o = TransferOp.CompleteVerification id true
       ∨ ∃ input d, o = TransferOp.CommitArtifactVerification input
           ∧ av_transfer_id input = id ∧ av_artifact_id input = a
           ∧ cm_chunk_count (tf_manifest facts) = Some (av_chunk_count input)
           ∧ cm_artifact_digest (tf_manifest facts) = Some d
           ∧ Digest_parse_wire_value (cm_digest_algorithm (tf_manifest facts))
               (av_computed_artifact_digest input) = Ok d).
Proof.
  intros [HI W] Hrun Hrow Hst Hrow' Hst'.
  assert (afr_state row' ≠ afr_state row) as Hne by congruence.
  pose proof (λ H, other_calls_verify_nothing _ _ _ _ _ H Hrun a row' Hrow' Hst') as Hother.
  destruct o as [| | | | | |id matches| | | | |input| | | | | |];
    try (destruct (Hother I) as (? & ? & ?); congruence).
  - destruct matches.
    2: { destruct (Hother I) as (? & ? & ?); congruence. }
    unfold run_transfer_op, mret, gen_ret in Hrun. injection Hrun as <- _.
    rewrite tw_db_with in Hrow'. unfold service_complete_artifact_verification in Hrow'.
    destruct (td_transfers (tw_db w) !! id) as [t|] eqn:Ht.
    2: { unfold commit_artifact_transition, locked in Hrow'. rewrite load_facts_none in Hrow' by done.
         simpl in *. congruence. }
    destruct (load_facts _ _ _ W Ht) as (u & cc & Hs & Hu & Hl).
    unfold commit_artifact_transition, locked, complete_verification in Hrow'. rewrite Hl in Hrow'.
    simpl in Hrow'. case_bool_decide as Hp; simpl in Hrow'; [|simpl in Hrow; congruence].
    destruct (transition_row (tw_db w) t _ _ _ _ Hrow' Hrow Hne) as [-> _].
    exists id, (facts_of t cc u). destruct (pending_complete t u Hu Hp). by split_and!; auto.
  - unfold run_transfer_op, mret, gen_ret in Hrun. injection Hrun as <- _.
    rewrite tw_db_with in Hrow'. unfold service_commit_artifact_verification in Hrow'.
    destruct (td_transfers (tw_db w) !! av_transfer_id input) as [t|] eqn:Ht.
    2: { unfold repo_commit_artifact_verification, locked in Hrow'.
         rewrite load_facts_none in Hrow' by done. simpl in *. congruence. }
    destruct (load_facts _ _ _ W Ht) as (u & cc & Hs & Hu & Hl).
    unfold repo_commit_artifact_verification, locked in Hrow'. rewrite Hl in Hrow'.
    destruct (artifact_verification_decision input _) as [up|] eqn:Hdec; simpl in Hrow';
      [|simpl in Hrow; congruence].
    apply verification_decision_commit in Hdec as (d & c & Hp & Hid & Hn & Hd & Hc & ->).
    destruct (transition_row (tw_db w) t _ _ _ _ Hrow' Hrow Hne) as [-> Hv].
    rewrite Hst' in Hv. case_decide as Heq; [subst c|done].
    exists (av_transfer_id input), (facts_of t cc u). destruct (pending_complete t u Hu Hp).
    split_and!; try done. right. by exists input, d.
Qed.

(** C12. An Artifact becomes [Verified] in two ways only, and never before its upload was
    complete: it was [PendingVerification], its manifest sealed and every chunk held, and
    either the worker reported, for this Transfer and Artifact and the sealed chunk count,
    a digest whose decoded value is the sealed one, or the local verifier's answer was
    recorded as a match. *)
Theorem verified_only_by_matching_digest (w : TransferWorld) (k : nat) (o : TransferOp.t)
    (w' : TransferWorld) (k' : nat) (a : ArtifactId) (row row' : ArtifactRow) :
  treachable w k → run_transfer_op w o k = (w', k') →
  td_artifacts (tw_db w) !! a = Some row → afr_state row ≠ ArtifactState.Verified →
  td_artifacts (tw_db w') !! a = Some row' → afr_state row' = ArtifactState.Verified →
  ∃ id facts, load_locked_facts (tw_db w) id = Ok (Some facts) ∧ ar_id (tf_artifact facts) = a
    ∧ ar_state (tf_artifact facts) = ArtifactState.PendingVerification
    ∧ cm_sealed (tf_manifest facts) = true
    ∧ chunk_indices (tf_manifest facts) ⊆ tf_held_chunk_indices facts
    ∧ (o = TransferOp.CompleteVerification id true
       ∨ ∃ input d, o = TransferOp.CommitArtifactVerification input
           ∧ av_transfer_id input = id ∧ av_artifact_id input = a
           ∧ cm_chunk_count (tf_manifest facts) = Some (av_chunk_count input)
           ∧ cm_artifact_digest (tf_manifest facts) = Some d
           ∧ Digest_parse_wire_value (cm_digest_algorithm (tf_manifest facts))
               (av_computed_artifact_digest input) = Ok d).
Proof. intros Hw%treachable_wf. by apply newly_verified. Qed.

(** ** Chunk acceptance *)

(** The Transfer still takes chunks: its Artifact is [Incomplete] and its Attempt runs. *)
Definition open_for_chunks (db : TransferDb) (facts : TransferLockedFacts) : Prop :=
  ar_state (tf_artifact facts) = ArtifactState.Incomplete
  ∧ ∃ a, owning_attempt db (tf_transfer facts) = Some a ∧ at_state a = AttemptState.InProgress.

(** What the service answers about a chunk that is already held. *)
Lemma acceptance_of_held db id index i facts c digest size :
  load_locked_facts db id = Ok (Some facts) → try_u32 index = Some i →
  expected_chunk (tf_manifest facts) i = Some c → i ∈ tf_held_chunk_indices facts →
  length (ec_digest c) = 32 →
  ∃ r, service_commit_chunk_acceptance db id index digest size = (db, Ok r)
    ∧ r ≠ ChunkAcceptanceCommit.Committed
    ∧ (r = ChunkAcceptanceCommit.AlreadyCommitted →
       ec_size c = size
       ∧ Digest_parse_wire_value (cm_digest_algorithm (tf_manifest facts)) digest
         = Ok (ec_digest c))
    ∧ (∀ d, open_for_chunks db facts → (0 < size ≤ cm_chunk_size (tf_manifest facts))%N →
         Digest_parse_wire_value (cm_digest_algorithm (tf_manifest facts)) digest = Ok d →
         r = if decide (d = ec_digest c) then
               if decide (ec_size c = size) then ChunkAcceptanceCommit.AlreadyCommitted
               else ChunkAcceptanceCommit.FailClosed
             else ChunkAcceptanceCommit.RejectedConflict).
Proof.
  intros Hl Hi Hc Hh Hlen.
  unfold service_commit_chunk_acceptance, repo_commit_chunk_acceptance, locked.
  rewrite Hi, Hl. unfold chunk_acceptance_decision. rewrite Hc.
  rewrite (bool_decide_eq_true_2 (is_Some (Some c))) by (by eexists).
  set (m := tf_manifest facts) in *. set (ok := is_ok _).
  assert (open_for_chunks db facts → ok = true) as Hok.
  { intros [Hst _]. unfold ok, data_plane_operation_is_current. rewrite Hst. simpl.
    by destruct (cm_sealed m). }
  destruct ok; simpl; [|eexists; split; [done|]; split; [done|]; split; [done|];
                        by intros d Ho%Hok].
  destruct (existsb _ _) eqn:Hact; simpl.
  2: { eexists. split; [done|]. split; [done|]. split; [done|]. intros d [_ (a & Ha & Hst)].
       rewrite Ha in Hact. simpl in Hact. by rewrite bool_decide_eq_true_2 in Hact. }
  destruct (_ || _) eqn:Hsz.
  { eexists. split; [done|]. split; [done|]. split; [done|]. intros d _ Hr.
    apply orb_true_elim in Hsz as [Hz%N.eqb_eq|Hz%N.ltb_lt]; lia. }
  destruct (Digest_parse_wire_value _ digest) as [d'|e] eqn:Hd;
    [|eexists; split; [done|]; split; [done|]; split; done].
  case_bool_decide as He; simpl.
  2: { eexists. split; [done|]. split; [done|]. split; [done|]. intros d _ _ [= <-].
       by rewrite decide_False by congruence. }
  subst d'. case_bool_decide as Hs; simpl.
  2: { eexists. split; [done|]. split; [done|]. split; [done|]. intros d _ _ [= <-].
       by rewrite decide_True, decide_False. }
  assert (record_expected_chunk m i size (ec_digest c) = Ok ChunkRecordOutcome.AlreadyRecorded) as ->.
  { unfold record_expected_chunk, Digest_new. rewrite digest_len_32, bool_decide_eq_true_2 by done.
    unfold expected_chunk in Hc. unfold mbind, result_bind. simpl. rewrite Hc.
    by rewrite !bool_decide_eq_true_2. }
  rewrite bool_decide_eq_true_2 by done.
  eexists. split; [done|]. split; [done|]. split; [done|]. intros d _ _ [= <-].
  by rewrite !decide_True.
Qed.

(** A committed chunk is in the tables, held, with the digest and size of the request. *)
Lemma committed_row db id index digest size db1 :
  td_wf db →
  service_commit_chunk_acceptance db id index digest size
    = (db1, Ok ChunkAcceptanceCommit.Committed) →
  ∃ i t d, try_u32 index = Some i ∧ td_transfers db !! id = Some t ∧ td_transfers db1 = td_transfers db
    ∧ Digest_parse_wire_value (tr_digest_algorithm t) digest = Ok d
    ∧ td_chunks db1 !! (tr_artifact_id t, Z.of_N i)
      = Some {| cr_size := Z.of_N size; cr_digest := d; cr_held := true |}.
Proof.
  intros W. unfold service_commit_chunk_acceptance.
  destruct (try_u32 index) as [i|] eqn:Hi; [|done].
  unfold repo_commit_chunk_acceptance, locked.
  destruct (td_transfers db !! id) as [t|] eqn:Ht; [|by rewrite load_facts_none].
  destruct (load_facts _ _ _ W Ht) as (u & cc & Hs & Hu & ->).
  destruct (tdw_transfer _ W _ _ Ht) as (_ & Hcs & _).
  destruct (chunk_acceptance_decision _ _ _ _ _) as [r| | |] eqn:Hdec; [|done..].
  apply chunk_decision_commit in Hdec as (d & Hd & Hr & Hsz & _). simpl in *.
  intros Hc. exists i, t, d. split; [done|]. split; [done|]. destruct r as [m|].
  - apply record_Added in Hr as (Hl & Hn & Hse & ->).
    unfold mbind, result_bind, expected_chunk in Hc. simpl in Hc. rewrite lookup_insert_eq in Hc.
    simpl in Hc. unfold insert_chunk in Hc. destruct (_ || _) eqn:Hchk; [done|]. simpl in Hc.
    destruct (insert_unique _ _ _) as [chunks|] eqn:Hins; [|done]. simpl in Hc.
    injection Hc as <-. split; [done|]. split; [done|].
    unfold insert_unique in Hins. case_match; [done|]. injection Hins as <-. simpl.
    apply orb_false_elim in Hchk as [[Hneg%Z.ltb_ge _]%orb_false_elim _].
    destruct (try_u32_Some _ _ Hi) as [_ Hlt].
    apply u32_as_i32_nonneg in Hlt as [-> _]; [|done].
    rewrite lookup_insert_eq. by rewrite (u32_as_i32_small size) by lia.
  - case_bool_decide; [done|]. injection Hc as <-. split; [done|]. split; [done|].
    unfold record_expected_chunk in Hr. apply result_bind_Ok in Hr as (d' & Hd' & Hr). simpl in Hr.
    apply map_err_Ok, Digest_new_Ok in Hd' as [-> _].
    destruct (up_chunks u !! i) as [c|] eqn:Hc; [|by case_bool_decide].
    destruct (bool_decide (ec_size c = size) && _) eqn:Hb; [|done].
    apply andb_prop in Hb as [<-%bool_decide_eq_true <-%bool_decide_eq_true].
    destruct (uw_chunk _ Hu _ _ Hc) as [Ei (Hlt & _)]. simpl.
    rewrite u32_as_i32_small by lia. rewrite lookup_alter_eq.
    by rewrite (proj2 (sh_chunks _ _ _ Hs (Z.of_N i) (chunk_row u i c))) by eauto.
Qed.

Lemma Digest_parse_canonical alg digest d :
  Digest_parse_wire_value alg digest = Ok d → digest = Digest_to_wire_value d.
Proof.
  unfold Digest_parse_wire_value. intros (b & _ & H)%result_bind_Ok.
  apply result_bind_Ok in H as (d' & _ & H). case_bool_decide; simpl in H; [|done].
  by injection H as <-.
Qed.

(** A chunk is committed at most once, by the first writer. After a commit, whatever
    else happens in between, another commit of the same index changes nothing: it is never
    answered [Committed]; it is answered [AlreadyCommitted] only to a request for the very
    same digest and size; and while the Transfer still takes chunks, a repetition is
    answered [AlreadyCommitted] and another digest [RejectedConflict]. *)
Theorem chunk_committed_once (stray : bool) (w : TransferWorld) (k : nat) (id : TransferId)
    (index size : N) (digest : str) (db1 : TransferDb) (w' : TransferWorld) (k' : nat)
    (digest' : str) (size' : N) :
  treachable w k →
  service_commit_chunk_acceptance (tw_db w) id index digest size
    = (db1, Ok ChunkAcceptanceCommit.Committed) →
  treaches stray (tw_with_db w db1) k w' k' →
  ∃ r facts, service_commit_chunk_acceptance (tw_db w') id index digest' size' = (tw_db w', Ok r)
    ∧ load_locked_facts (tw_db w') id = Ok (Some facts)
    ∧ r ≠ ChunkAcceptanceCommit.Committed
    ∧ (r = ChunkAcceptanceCommit.AlreadyCommitted → digest' = digest ∧ size' = size)
    ∧ (open_for_chunks (tw_db w') facts → (0 < size' ≤ cm_chunk_size (tf_manifest facts))%N →
       is_ok (Digest_parse_wire_value (cm_digest_algorithm (tf_manifest facts)) digest') = true →
       (digest' = digest → size' = size → r = ChunkAcceptanceCommit.AlreadyCommitted)
       ∧ (digest' ≠ digest → r = ChunkAcceptanceCommit.RejectedConflict)).
Proof.
  intros [HI W]%treachable_wf Hcom Hr.
  destruct (committed_row _ _ _ _ _ _ W Hcom) as (i & t & d & Hi & Ht & Ht1 & Hd & Hrow).
  assert (world_wf (tw_with_db w db1)) as Hw1.
  { eapply (op_ok_wf true w); [|done]. pose proof (service_calls_keep (tw_db w)) as (_ & _ & _ & _ & _ & K & _).
    pose proof (acceptance_evolves (tw_db w) id index digest size W) as He.
    specialize (K id index digest size). rewrite Hcom in He, K. by apply kept_ok. }
  assert (td_transfers (tw_db (tw_with_db w db1)) !! id = Some t) as Ht1' by (by rewrite tw_db_with, Ht1).
  destruct (load_facts _ _ _ (proj2 Hw1) Ht1') as (u1 & cc & Hs1 & Hu1 & Hl1).
  destruct (loads_in_order _ _ _ _ _ _ _ _ Hr Hw1 Ht1' Hs1 Hu1)
    as (t' & u' & cc' & Hl' & Hu' & Hsame & Hle).
  rewrite tw_db_with in Hs1. apply (sh_chunks _ _ _ Hs1) in Hrow as (j & c & Hj & Hc & Ec).
  assert (j = i) as -> by lia. injection Ec as Esz Ed Eh. symmetry in Eh.
  apply bool_decide_eq_true in Eh. assert (ec_size c = size) as <- by lia. subst d.
  assert (up_chunks u' !! i = Some c) as Hc' by (by eapply lookup_weaken, Hle).
  assert (i ∈ up_held u') as Hh' by (by apply (ul_held _ _ Hle)).
  destruct (uw_chunk _ Hu' _ _ Hc') as [_ (_ & _ & Hlen)].
  destruct (acceptance_of_held (tw_db w') id index i (facts_of t' cc' u') c digest' size' Hl' Hi Hc' Hh' Hlen)
    as (r & Hres & Hnc & Hac & Hopen).
  exists r, (facts_of t' cc' u'). assert (tr_digest_algorithm t' = tr_digest_algorithm t) as Ealg
    by (by destruct Hsame as [_ ->]). simpl in *. rewrite Ealg in *.
  pose proof (Digest_parse_canonical _ _ _ Hd) as Ew. split_and!; try done.
  - intros Hra. destruct (Hac Hra) as [<- Hd'%Digest_parse_canonical]. by rewrite Ew.
  - intros Ho Hsz Hok. destruct (Digest_parse_wire_value _ digest') as [d'|] eqn:Hd'; [|done].
    specialize (Hopen d' Ho Hsz eq_refl). split.
    + intros -> ->. rewrite Hd in Hd'. injection Hd' as <-. by rewrite !decide_True in Hopen.
    + intros Hne. rewrite decide_False in Hopen; [done|]. intros ->.
      by apply Digest_parse_canonical in Hd' as ->.
Qed.

(** ** Sealing *)

(** The facts a seal answers with. *)
Definition sealed_facts (t : Transfer) (n : N) (d : Digest) : SealedManifestDurableFacts :=
  {| sm_artifact_id := tr_artifact_id t; sm_digest_algorithm := tr_digest_algorithm t;
     sm_chunk_size := tr_chunk_size t; sm_chunk_count := n;
     sm_expected_artifact_digest := Digest_to_wire_value d |}.

(** A seal request reached its decision: authorized on the capability and on the durable
    state, with a digest that parses. *)
Definition seal_authorized (w : TransferWorld) (input : ManifestSealInput) (now : Instant)
    (facts : TransferLockedFacts) (d : Digest) : Prop :=
  load_locked_facts (tw_db w) (ms_transfer_id input) = Ok (Some facts)
  ∧ Digest_parse_wire_value (cm_digest_algorithm (tf_manifest facts)) (ms_artifact_digest input) = Ok d
  ∧ ∃ binding proof a,
      authorize_proof (as_capabilities (tw_auth w)) (seal_query input) now = Some (binding, proof)
      ∧ owning_attempt (tw_db w) (tf_transfer facts) = Some a
      ∧ at_id a = cap_attempt_id binding ∧ at_state a = AttemptState.InProgress
      ∧ tr_artifact_id (tf_transfer facts) = cap_artifact_id binding.

Lemma authorize_durable_attempt binding input now state :
  authorize_durable binding input now state = true →
  ∃ a, ad_attempt state = Some a ∧ at_id a = cap_attempt_id binding
       ∧ at_state a = AttemptState.InProgress
       ∧ tr_artifact_id (ad_transfer state) = cap_artifact_id binding.
Proof.
  unfold authorize_durable. destruct (_ || _) eqn:Hc; [done|]. reflect_bools.
  destruct (ad_attempt state) as [a|]; [|done]. do 2 (case_bool_decide; simpl; [|done]). naive_solver.
Qed.

Lemma seal_AlreadySealed m n d :
  seal m n d = Ok SealOutcome.AlreadySealed →
  cm_chunk_count m = Some n ∧ cm_artifact_digest m = Some d.
Proof.
  unfold seal. intros (d' & Hd & Hs)%result_bind_Ok. apply map_err_Ok, Digest_new_Ok in Hd as [-> _].
  destruct (cm_sealed m); [|by split_matches].
  destruct (bool_decide _ && _) eqn:Hb; [|done].
  by apply andb_prop in Hb as [Hn%bool_decide_eq_true Hd%bool_decide_eq_true].
Qed.

Lemma seal_composition_pending db t cc u ep n d :
  seal_composition n d (snapshot_of db t cc u ep) = ManifestSealDecided.AlreadyPending →
  up_state u = ArtifactState.PendingVerification ∧ up_seal u = Some (n, d).
Proof.
  unfold seal_composition. simpl. destruct (up_state u) eqn:Hst; [| |done..].
  - case_bool_decide; [done|]. destruct (seal _ _ _) as [[m|]|[]]; try done.
    by destruct (begin_verification _ _ _) as [|[]].
  - case_bool_decide as Hse; simpl; [|done].
    destruct (seal _ _ _) as [[m|]|[]] eqn:Hs; try done.
    apply seal_AlreadySealed in Hs as [Hn Hd]. simpl in *.
    intros _. split; [done|]. destruct (up_seal u) as [[n' d']|]; simpl in *; congruence.
Qed.

(** The answers to a request whose decision was [seal_composition]. *)
Lemma persist_seal_cases db t cc u ep n d db' r :
  shows db (tr_artifact_id t) u → upload_wf u → (n < 2 ^ 32)%N →
  persist_seal db (snapshot_of db t cc u ep) (seal_composition n d (snapshot_of db t cc u ep))
    = (db', r) →
  match r with
  | Ok (ManifestSealCommit.Sealed sf) =>
      up_state u = ArtifactState.Incomplete ∧ up_seal u = None ∧ dom (up_chunks u) = below n
      ∧ complete u ∧ sf = sealed_facts t n d ∧ td_transfers db' = td_transfers db
      ∧ shows db' (tr_artifact_id t)
          (up_with_state (with_seal u n d) ArtifactState.PendingVerification)
      ∧ upload_step u (up_with_state (with_seal u n d) ArtifactState.PendingVerification)
  | Ok (ManifestSealCommit.AlreadyPending sf) =>
      db' = db ∧ up_state u = ArtifactState.PendingVerification ∧ up_seal u = Some (n, d)
      ∧ sf = sealed_facts t n d
  | _ => db' = db
  end.
Proof.
  intros Hs Hu Hn. destruct (seal_composition _ _ _) as [n' d'| | | | |] eqn:Hc; simpl;
    [| |by intros [= <- <-]..].
  - apply seal_composition_Seal in Hc as (-> & -> & Hst & Hse & Hd & Hcomp & Hl).
    destruct (update_sealed _ _ _ _) as [db1|e] eqn:Hup; simpl; intros [= <- <-]; [|done].
    destruct (update_sealed_shows _ _ _ _ _ _ Hs Hn Hup) as (Hs' & Hn' & _ & Ht & _).
    split_and!; try done; [by apply update_artifact_shows|].
    apply us_seal_begin; [done|by split_and!|done].
  - apply seal_composition_pending in Hc as [Hst Hse]. rewrite Hse. simpl. by intros [= <- <-].
Qed.

(** C29. Sealing is all or nothing. [Sealed] is answered only to an authorized request of
    the running Attempt, when the manifest was open, exactly the chunks
    0, ..., chunk_count - 1 were named and all were held; then the manifest is sealed with
    that count and digest and the Artifact is [PendingVerification], in one transaction.
    [AlreadyPending] is answered only when this very count and digest are already sealed.
    With every other answer, errors included, the tables are as they were. *)
Theorem seal_commit_atomic (w : TransferWorld) (k : nat) (input : ManifestSealInput)
    (now : Instant) (db' : TransferDb) (s' : AuthState)
    (r : result TransferError.t ManifestSealCommit.t) :
  treachable w k →
  service_commit_manifest_seal (tw_db w) (tw_auth w) input now = ((db', s'), r) →
  match r with
  | Ok (ManifestSealCommit.Sealed sf) =>
      ∃ facts d, seal_authorized w input now facts d
        ∧ ar_state (tf_artifact facts) = ArtifactState.Incomplete
        ∧ cm_sealed (tf_manifest facts) = false
        ∧ (∀ i, i ∈ chunk_indices (tf_manifest facts) ↔ (i < ms_chunk_count input)%N)
        ∧ tf_held_chunk_indices facts = chunk_indices (tf_manifest facts)
        ∧ sf = sealed_facts (tf_transfer facts) (ms_chunk_count input) d
        ∧ ∃ facts', load_locked_facts db' (ms_transfer_id input) = Ok (Some facts')
            ∧ ar_state (tf_artifact facts') = ArtifactState.PendingVerification
            ∧ cm_sealed (tf_manifest facts') = true
            ∧ cm_chunk_count (tf_manifest facts') = Some (ms_chunk_count input)
            ∧ cm_artifact_digest (tf_manifest facts') = Some d
            ∧ cm_chunks (tf_manifest facts') = cm_chunks (tf_manifest facts)
            ∧ tf_transfer facts' = tf_transfer facts
  | Ok (ManifestSealCommit.AlreadyPending sf) =>
      db' = tw_db w
      ∧ ∃ facts d, seal_authorized w input now facts d
          ∧ ar_state (tf_artifact facts) = ArtifactState.PendingVerification
          ∧ cm_chunk_count (tf_manifest facts) = Some (ms_chunk_count input)
          ∧ cm_artifact_digest (tf_manifest facts) = Some d
          ∧ sf = sealed_facts (tf_transfer facts) (ms_chunk_count input) d
  | _ => db' = tw_db w
  end.
Proof.
  intros [HI W]%treachable_wf.
  pose proof (manifest_seal_evolves (tw_db w) (tw_auth w) input now W) as He.
  unfold service_commit_manifest_seal in *.
  destruct (authorize_proof _ _ _) as [[binding proof]|] eqn:Hproof; [|by intros [= <- _ <-]].
  destruct (try_u32 _) as [n|] eqn:Hn; [|by intros [= <- _ <-]].
  apply try_u32_Some in Hn as [-> Hlt].
  unfold repo_commit_manifest_seal in *.
  destruct (td_transfers (tw_db w) !! ms_transfer_id input) as [t|] eqn:Ht;
    [|rewrite load_facts_none by done; by intros [= <- _ <-]].
  destruct (load_facts _ _ _ W Ht) as (u & cc & Hs & Hu & Hl). rewrite Hl in *. simpl in *.
  destruct (load_endpoint _ _) as [ep|e]; [|by intros [= <- _ <-]].
  change {| ad_transfer := t |} with (snapshot_of (tw_db w) t cc u ep) in *.
  destruct (manifest_seal_decision _ _ _ _ _ _ _) as [replay' decided] eqn:Hdec.
  destruct (persist_seal _ _ _) as [db1 r1] eqn:Hp. simpl in *. intros [= <- _ <-].
  apply seal_decision_cases in Hdec as
    [[_ [->| ->]]|(Hauth & d & r' & Hd & _ & [[-> _]|[-> _]])];
    [by injection Hp as <- <-..|].
  apply authorize_durable_attempt in Hauth as (a & Ha & Hid & Hst & Hart).
  assert (seal_authorized w input now (facts_of t cc u) d) as Hsa by (split_and!; eauto 10).
  apply persist_seal_cases in Hp; [|done..].
  destruct r1 as [[sf|sf| | | |]|e]; [| |done..|by destruct e].
  - destruct Hp as (Hinc & Hse & Hdom & Hcomp & -> & Ht' & Hs' & Hstep).
    exists (facts_of t cc u), d. split; [done|]. split; [done|]. split.
    { simpl. apply bool_decide_eq_false_2. by rewrite Hse; intros []. }
    split; [intros i; simpl; unfold chunk_indices; simpl; by rewrite Hdom, elem_of_below|].
    split; [apply set_eq; intros i; pose proof (uw_held _ Hu); unfold complete in Hcomp; set_solver|].
    split; [done|].
    destruct (load_facts db1 (ms_transfer_id input) t (ev_wf _ _ He)) as (u' & cc' & Hu' & Wu' & Hl');
      [by rewrite Ht'|].
    assert (u' = up_with_state (with_seal u (ms_chunk_count input) d) ArtifactState.PendingVerification)
      as ->.
    { eapply shows_inj; eauto using upload_step_wf. }
    by exists (facts_of t cc' (up_with_state (with_seal u (ms_chunk_count input) d)
                                 ArtifactState.PendingVerification)).
  - destruct Hp as (-> & Hpend & Hse & ->). split; [done|]. exists (facts_of t cc u), d.
    simpl. by rewrite Hse.
Qed.

(** ** Terminal evidence *)

Lemma persist_applied_attempt db ap audit db' aid :
  persist_applied db ap audit = Ok db' → aid ≠ at_id (ap_attempt ap) →
  jd_attempts db' !! aid = jd_attempts db !! aid.
Proof.
  unfold persist_applied. intros (db3 & Hup & Hrest)%result_bind_Ok Hne.
  apply result_bind_Ok in Hrest as (evs & _ & Hrest).
  apply result_bind_Ok in Hrest as (auds & _ & [= <-]). simpl.
  apply update_job_state_attempts in Hup as ->. simpl. by rewrite lookup_alter_ne.
Qed.

Lemma persist_applied_attempt_self db ap audit db' a :
  persist_applied db ap audit = Ok db' → jd_attempts db !! at_id (ap_attempt ap) = Some a →
  jd_attempts db' !! at_id (ap_attempt ap) = Some (attempt_with a (at_state (ap_attempt ap))).
Proof.
  unfold persist_applied. intros (db3 & Hup & Hrest)%result_bind_Ok Ha.
  apply result_bind_Ok in Hrest as (evs & _ & Hrest).
  apply result_bind_Ok in Hrest as (auds & _ & [= <-]). simpl.
  apply update_job_state_attempts in Hup as ->. simpl. by rewrite lookup_alter_eq, Ha.
Qed.

(** What [decide_transfer_terminal_evidence] rests on. *)
Lemma terminal_decision_gate detail now facts k ap audit art k' :
  decide_transfer_terminal_evidence detail now facts k
    = (TransferEvidenceDecision.Applied ap audit art, k') →
  trd_artifact_id detail = ar_id (te_artifact facts)
  ∧ artifact_gate (trd_code detail) (te_artifact facts) = Some art
  ∧ at_id (ap_attempt ap) = at_id (te_attempt facts)
  ∧ at_state (ap_attempt ap) = match trd_code detail with
                               | TransferResultCode.TransferVerified => AttemptState.Succeeded
                               | _ => AttemptState.Failed
                               end.
Proof.
  unfold decide_transfer_terminal_evidence, mbind, gen_bind.
  destruct (_ || _) eqn:Hc; [done|].
  apply orb_false_elim in Hc as [[Hid%negb_false_iff%bool_decide_eq_true _]%orb_false_elim _].
  destruct (apply_action_evidence _ _ _ _ _ _) as [o k1] eqn:Ho. destruct o as [a| |]; [|done..].
  destruct (artifact_gate _ _) as [g|] eqn:Hg; [|done].
  destruct (terminal_audit _ _ _ _ _) as [au k2]. unfold mret, gen_ret. intros [= -> _ <- _].
  split; [done|]. split; [done|]. split.
  - apply action_evidence_effect, effect_identity in Ho. apply Ho.
  - apply evidence_state_applied in Ho. rewrite Ho. by destruct (trd_code detail).
Qed.

(** The row of an Artifact that passed the gate, after its leg of the transaction. *)
Lemma gate_row db u artifact code art db1 :
  shows db (ar_id artifact) u → up_state u = ar_state artifact →
  artifact_gate code artifact = Some art →
  match art with
  | Some _ => persist_incomplete_artifact_failed db (ar_id artifact)
  | None => (db, true)
  end = (db1, true) →
  ∃ row, td_artifacts db1 !! ar_id artifact = Some row
    ∧ afr_state row = match code with
                      | TransferResultCode.TransferVerified => ArtifactState.Verified
                      | _ => ArtifactState.Failed
                      end.
Proof.
  intros Hs Hst Hg. destruct (sh_artifact _ _ _ Hs) as [cc Hrow]. rewrite Hst in Hrow.
  destruct art as [x|].
  - unfold persist_incomplete_artifact_failed. rewrite Hrow. simpl. case_bool_decide as Hi; [|done].
    intros [= <-]. simpl. rewrite lookup_alter_eq, Hrow. eexists. split; [done|]. simpl.
    unfold artifact_gate in Hg. by split_matches.
  - intros [= <-]. rewrite Hrow. eexists. split; [done|]. simpl. unfold artifact_gate in Hg.
    repeat (case_match; simplify_eq/=; try done); reflect_bools; congruence.
Qed.

(** C30. A transfer's Attempt and its Artifact end together. If a transfer result changes
    an Attempt, it came from the Attempt's own Endpoint, named its action and its
    Artifact, and afterwards either the Attempt succeeded and the Artifact is [Verified],
    or the Attempt failed and the Artifact is [Failed]: a success is never recorded over an
    unverified Artifact, and a failure leaves none open. *)
Theorem transfer_ends_together (w : TransferWorld) (k : nat) (action : ActionId) (ep : EndpointId)
    (detail : TransferResultDetail) (now : Instant) (w' : TransferWorld) (k' : nat)
    (aid : AttemptId) (a a' : Attempt) :
  treachable w k → run_transfer_op w (TransferOp.TransferResult action ep detail now) k = (w', k') →
  jd_attempts (w_db (tw_world w)) !! aid = Some a →
  jd_attempts (w_db (tw_world w')) !! aid = Some a' → at_state a' ≠ at_state a →
  at_action_id a = action
  ∧ (∃ s row, jd_steps (w_db (tw_world w)) !! at_job_step_id a = Some s
       ∧ jd_jobs (w_db (tw_world w)) !! js_job_id s = Some row ∧ jr_endpoint_id row = ep)
  ∧ ∃ id t row, td_transfers (tw_db w) !! id = Some t ∧ tr_attempt_id t = Some aid
      ∧ tr_artifact_id t = trd_artifact_id detail
      ∧ td_artifacts (tw_db w') !! tr_artifact_id t = Some row
      ∧ match trd_code detail with
        | TransferResultCode.TransferVerified =>
            at_state a' = AttemptState.Succeeded ∧ afr_state row = ArtifactState.Verified
        | _ => at_state a' = AttemptState.Failed ∧ afr_state row = ArtifactState.Failed
        end.
Proof.
  intros [HI W]%treachable_wf. unfold run_transfer_op, service_transfer_apply, mbind, gen_bind.
  destruct (apply_and_settle _ _ _ _ _) as [[w1 r1] k1] eqn:Ha. unfold mret, gen_ret. intros [= <- _].
  unfold apply_and_settle, mbind, gen_bind, mret, gen_ret in Ha.
  destruct (repo_apply_transfer_terminal_evidence _ _ _ _ _) as [[db r] k2] eqn:Hr.
  assert (tw_db w1 = db) as Edb.
  { apply (f_equal fst) in Ha. apply (f_equal fst) in Ha. simpl in Ha. subst w1.
    repeat case_match; rewrite ?tw_db_with; try done.
    unfold tw_db. simpl. rewrite take_and_release_db. by destruct db. }
  clear Ha. intros Hat Hat' Hne. change (w_db (tw_world w1)) with (td_jobs (tw_db w1)) in Hat'.
  rewrite Edb in *.
  unfold repo_apply_transfer_terminal_evidence, mbind, gen_bind, mret, gen_ret in Hr.
  destruct (lock_transfer_evidence _ _ _) as [[facts|]|e] eqn:Hl; [|simplify_eq/=; congruence..].
  destruct (decide_transfer_terminal_evidence _ _ _ _) as [[ap audit art| | |] k3] eqn:Hd;
    [|simplify_eq/=; congruence..].
  apply (lock_transfer_evidence_Ok (tw_db w)) in Hl
    as ((La & Ls & Lj) & Hact & Hep & Hbound & Hart & (id & Hid) & u & Hs & Hu & Hst); [|done..].
  apply terminal_decision_gate in Hd as (Hda & Hg & Hai & Has).
  pose proof (artifact_leg_jobs art (tw_db w) (ar_id (te_artifact facts))) as Hj.
  destruct (match art with Some _ => _ | None => _ end) as [db1 moved] eqn:Hm. simpl in Hj.
  destruct moved; simpl in Hr; [|simplify_eq/=; congruence].
  destruct (gate_row _ _ _ _ _ _ Hs Hst Hg Hm) as (row & Hrow & Hrst).
  destruct (persist_applied (td_jobs db1) ap audit) as [jobs|e] eqn:Hp; [|simplify_eq/=; congruence].
  injection Hr as <- _ _. simpl in Hat'.
  rewrite Hj in Hp. destruct (decide (aid = at_id (ap_attempt ap))) as [->|Hnaid].
  2: { rewrite (persist_applied_attempt _ _ _ _ _ Hp Hnaid) in Hat'. simpl in Hat'. congruence. }
  simpl in La, Ls, Lj. rewrite Hai in Hat. rewrite La in Hat. injection Hat as <-.
  rewrite <-Hai in La. rewrite (persist_applied_attempt_self _ _ _ _ _ Hp La) in Hat'.
  injection Hat' as <-. apply find_job_Some in Lj as (jrow & Hjrow & Ej).
  split; [done|]. split.
  { exists (te_job_step facts), jrow. split; [done|]. split; [done|]. by rewrite <-Hep, Ej. }
  exists id, (te_transfer facts), row. split; [done|]. split; [by rewrite Hai|].
  split; [congruence|]. split; [by rewrite <-Hart|]. simpl.
  rewrite Has. destruct (trd_code detail); done.
Qed.
End Theorems.
