(* ===== verification/TransferExamples.v ===== *)
(** * An upload, run

    One workflow step that uploads a one-chunk Artifact, from an empty database to the
    verified Artifact and the succeeded Job, under the reference instances of [External]:
    the hypotheses of the theorems of [TransferTheorems] hold along it. *)

From stdpp Require Import prelude gmap strings.
From Stdlib Require Import Strings.Byte NArith ZArith.
From S2P Require Import Prelude.
From S2P Require Import External.
From S2P Require Import Credential.
From S2P Require Import Endpoint.
From S2P Require Import EnrollmentStore.
From S2P Require Import Job.
From S2P Require Import Transfer.
From S2P Require Import Runtime.
From S2P Require Import JobStore.
From S2P Require Import JobSpec.
From S2P Require Import JobServices.
From S2P Require Import JobSafety.
From S2P Require Import TransferAuth.
From S2P Require Import TransferStore.
From S2P Require Import TransferEvidence.
From S2P Require Import TransferSpec.
From S2P Require Import TransferSafety.
From S2P Require Import TransferTheorems.

Module TransferExamples.
Import Reference.
#[local] Existing Instances base64 base64_laws toy_sha256 toy_ed25519 toy_ed25519_laws
  counter_entropy raw_uuid.

(** The end of the year 9999. *)
#[local] Instance last_instant : ChronoRange := from_timestamp_millis 253402300799999.

Definition u (n : N) : Uuid := be_array 16 n.
Definition ep9 : EndpointId := u 900.
Definition aggregate9 : EndpointAggregate :=
  {| ep_id := ep9; ep_inventory_signal := lit "mac-9"; ep_identity := IdentityState.Enrolled;
     ep_credential := {|
       chain_predecessor := {| cs_lookup_id := be_array _ 1;
                               cs_hash := {| ch_salt := be_array _ 2; ch_digest := be_array _ 3 |};
                               cs_issued_at := 0; cs_expires_at := from_timestamp_millis 900000 |};
       chain_successor := None; chain_revoked := false |};
     ep_hardware_confidence := HardwareConfidence.Consistent; ep_current_boot := None;
     ep_created_at := 0; ep_updated_at := 0 |}.

Definition job0 : JobId := u 0.
Definition step1 : JobStepId := u 1.

Definition setup : list TransferOp.t :=
  [TransferOp.Job (JobOp.Environment {[ep9 := aggregate9]} ∅ ∅);
   TransferOp.Job (JobOp.CreateWorkflow ep9 1);
   TransferOp.Job (JobOp.Admit job0 10);
   TransferOp.CreateTransferContext ep9 job0 step1 TransferDirection.AgentToServer
     DigestAlgorithm.Sha256 4096 (lit "disk-0")].

Definition transfer4 : TransferId := u 4.
Definition artifact3 : ArtifactId := u 3.
Definition attempt5 : AttemptId := u 5.
Definition action6 : ActionId := u 6.
Definition key : array 32 := be_array 32 77.

(** The step is dispatched, the Endpoint acknowledges and is granted a capability. *)
Definition dispatch : list TransferOp.t :=
  [TransferOp.Job (JobOp.SatisfyPreconditions job0 step1);
   TransferOp.Job (JobOp.CommitTransfer job0 step1 transfer4 []);
   TransferOp.Job (JobOp.Evidence action6 ep9 ActionEvidence.AckAccepted 20);
   TransferOp.Issue (from_timestamp_millis DEFAULT_CAPABILITY_TTL_MILLIS)
     (lit "https://server/data") 0 ep9 action6 transfer4 (ProofPublicKey_to_wire_value key)].

(** The chunk and the whole Artifact, by digest. *)
Definition chunk_digest : Digest := array_bytes (be_array 32 1234).
Definition artifact_digest : Digest := array_bytes (be_array 32 5678).
Definition accept : TransferOp.t :=
  TransferOp.CommitChunkAcceptance transfer4 0 (Digest_to_wire_value chunk_digest) 100.

Definition token : str := b64_encode (array_bytes (be_array 32 7)).
Definition proof1 : ProofId := be_array 16 1.
Definition seal_input : ManifestSealInput := {|
  ms_token := token; ms_transfer_id := transfer4; ms_proof_id := ProofId_to_wire_value proof1;
  ms_issued_at_millis := 1000;
  ms_signature := ProofSignature_to_wire_value
    (sk_sign key (build_proof_transcript (CapabilityId_from_token_bytes token) {|
       pf_operation := AuthorizationOperation.SealManifest; pf_transfer_id := transfer4;
       pf_artifact_id := artifact3; pf_direction := TransferDirection.AgentToServer;
       pf_chunk_index := None; pf_proof_id := proof1; pf_issued_at_millis := 1000 |}));
  ms_chunk_count := 1; ms_artifact_digest := Digest_to_wire_value artifact_digest |}.
Definition seal_op : TransferOp.t :=
  TransferOp.CommitManifestSeal seal_input (from_timestamp_millis 1000).

Definition verify_input : ArtifactVerificationInput :=
  {| av_transfer_id := transfer4; av_artifact_id := artifact3; av_chunk_count := 1;
     av_bound_expected_artifact_digest := Digest_to_wire_value artifact_digest;
     av_computed_artifact_digest := Digest_to_wire_value artifact_digest |}.
Definition verify_op : TransferOp.t := TransferOp.CommitArtifactVerification verify_input.

Definition verified_detail : TransferResultDetail :=
  {| trd_code := TransferResultCode.TransferVerified; trd_artifact_id := artifact3 |}.
Definition result_op : TransferOp.t := TransferOp.TransferResult action6 ep9 verified_detail 50.

Definition start : TransferWorld := empty_transfer_world (u 8) 16.
Definition run (ops : list TransferOp.t) : TransferWorld * nat := run_transfer_ops start ops 0.

Definition ready := run (setup ++ dispatch).
Definition accepted := run (setup ++ dispatch ++ [accept]).
Definition sealed := run (setup ++ dispatch ++ [accept; seal_op]).
Definition verified := run (setup ++ dispatch ++ [accept; seal_op; verify_op]).
Definition finished := run (setup ++ dispatch ++ [accept; seal_op; verify_op; result_op]).

Lemma run_reachable ops : Forall in_range ops → treachable (run ops).1 (run ops).2.
Proof.
  intros Hin. exists (u 8), 16. apply run_transfer_ops_reaches with ops; [done|].
  apply surjective_pairing.
Qed.

Lemma ready_reachable : treachable ready.1 ready.2.
Proof. apply run_reachable. repeat constructor; simpl; lia. Qed.
Lemma accepted_reachable : treachable accepted.1 accepted.2.
Proof. apply run_reachable. repeat constructor; simpl; lia. Qed.
Lemma sealed_reachable : treachable sealed.1 sealed.2.
Proof. apply run_reachable. repeat constructor; simpl; lia. Qed.
Lemma verified_reachable : treachable verified.1 verified.2.
Proof. apply run_reachable. repeat constructor; simpl; lia. Qed.

Definition no_facts : TransferLockedFacts :=
  {| tf_transfer := {| tr_id := u 0; tr_artifact_id := u 0; tr_endpoint_id := u 0; tr_job_id := u 0;
                       tr_job_step_id := u 0; tr_attempt_id := None;
                       tr_direction := TransferDirection.AgentToServer;
                       tr_digest_algorithm := DigestAlgorithm.Sha256; tr_chunk_size := 0;
                       tr_source_provenance := [] |};
     tf_artifact := new_incomplete (u 0);
     tf_manifest := ChunkManifest_new (u 0) DigestAlgorithm.Sha256 0;
     tf_held_chunk_indices := ∅ |}.

(** The facts of the Transfer at a point of the run. *)
Definition facts_at (db : TransferDb) : TransferLockedFacts :=
  match load_locked_facts db transfer4 with Ok (Some f) => f | _ => no_facts end.

Definition loads (db : TransferDb) : bool :=
  match load_locked_facts db transfer4 with Ok (Some _) => true | _ => false end.

Lemma facts_at_eq db :
  loads db = true → load_locked_facts db transfer4 = Ok (Some (facts_at db)).
Proof. unfold loads, facts_at. by destruct (load_locked_facts db transfer4) as [[]|]. Qed.

(** ** Witnesses *)

Lemma data_plane_refines_witness :
  protocol false (tables (w_db (tw_world accepted.1)))
    (tables (w_db (tw_world (run_transfer_op accepted.1 seal_op accepted.2).1))).
Proof.
  refine (proj2 (proj2 (proj2 (proj2 (data_plane_refines accepted.1 accepted.2 seal_op _ _
    accepted_reachable I (surjective_pairing _))))) I).
Defined.

Lemma stored_manifests_wellformed_witness :
  ∃ facts, load_locked_facts (tw_db sealed.1) transfer4 = Ok (Some facts)
           ∧ manifest_wf (tf_manifest facts).
Proof.
  pose proof (stored_manifests_wellformed sealed.1 sealed.2 transfer4
    sealed_reachable) as H.
  destruct (td_transfers (tw_db sealed.1) !! transfer4) as [t|] eqn:E.
  - destruct H as (facts & Hl & _ & _ & _ & _ & Hwf & _). exists facts. split; [exact Hl|exact Hwf].
  - exfalso. assert (bool_decide (td_transfers (tw_db sealed.1) !! transfer4 = None) = false) as Hn
      by (vm_compute; reflexivity).
    apply bool_decide_eq_false in Hn. exact (Hn E).
Defined.

Lemma sealed_to_verified : treaches true sealed.1 sealed.2 verified.1 verified.2.
Proof.
  apply (treaches_step _ _ _ sealed.1 sealed.2 verify_op); [apply treaches_refl|exact I|by left|].
  assert (∀ w k, run_transfer_ops w (setup ++ dispatch ++ [accept; seal_op; verify_op]) k
    = let r := run_transfer_ops w (setup ++ dispatch ++ [accept; seal_op]) k in
      run_transfer_op r.1 verify_op r.2) as Happ.
  { change [accept; seal_op; verify_op] with ([accept; seal_op] ++ [verify_op]).
    rewrite !app_assoc. generalize ((setup ++ dispatch) ++ [accept; seal_op]). intros l w k. revert w k. induction l as [|o l IH]; intros w k; simpl;
      unfold mbind, gen_bind, mret, gen_ret; [by destruct (run_transfer_op w verify_op k)|].
    destruct (run_transfer_op w o k). apply IH. }
  unfold verified, sealed, run. rewrite Happ. apply surjective_pairing.
Qed.

Lemma sealed_loads :
  load_locked_facts (tw_db sealed.1) transfer4 = Ok (Some (facts_at (tw_db sealed.1))).
Proof. apply facts_at_eq. vm_compute. reflexivity. Qed.

Lemma stored_data_append_only_witness :
  ∃ facts', load_locked_facts (tw_db verified.1) transfer4 = Ok (Some facts')
            ∧ tf_manifest facts' = tf_manifest (facts_at (tw_db sealed.1)).
Proof.
  destruct (stored_data_append_only true sealed.1 sealed.2 verified.1 verified.2 transfer4
    (facts_at (tw_db sealed.1)) sealed_reachable
    sealed_to_verified sealed_loads)
    as (facts' & Hl & _ & _ & Hs & _).
  exists facts'. split; [exact Hl|]. apply Hs. vm_compute. reflexivity.
Defined.

Definition row_at (db : TransferDb) : ArtifactRow :=
  default {| afr_state := ArtifactState.Failed; afr_capture_consistency := CaptureConsistency.NotApplicable |}
    (td_artifacts db !! artifact3).

Lemma row_at_eq db :
  bool_decide (is_Some (td_artifacts db !! artifact3)) = true →
  td_artifacts db !! artifact3 = Some (row_at db).
Proof. intros [row Hr]%bool_decide_eq_true. unfold row_at. by rewrite Hr. Qed.

Definition after_verify := run_transfer_op sealed.1 verify_op sealed.2.

Lemma verified_only_by_matching_digest_witness :
  ∃ id facts, load_locked_facts (tw_db sealed.1) id = Ok (Some facts)
    ∧ ar_state (tf_artifact facts) = ArtifactState.PendingVerification.
Proof.
  assert (td_artifacts (tw_db sealed.1) !! artifact3 = Some (row_at (tw_db sealed.1))) as H1
    by (apply row_at_eq; vm_compute; reflexivity).
  assert (td_artifacts (tw_db after_verify.1) !! artifact3 = Some (row_at (tw_db after_verify.1)))
    as H2 by (apply row_at_eq; vm_compute; reflexivity).
  assert (afr_state (row_at (tw_db sealed.1)) ≠ ArtifactState.Verified) as H3
    by (vm_compute; discriminate).
  assert (afr_state (row_at (tw_db after_verify.1)) = ArtifactState.Verified) as H4
    by (vm_compute; reflexivity).
  destruct (verified_only_by_matching_digest sealed.1 sealed.2 verify_op after_verify.1 after_verify.2
    artifact3 _ _ sealed_reachable (surjective_pairing _) H1 H3 H2 H4)
    as (id & facts & Hl & _ & Hp & _).
  exists id, facts. split; [exact Hl|exact Hp].
Defined.

Definition chunk_commit := service_commit_chunk_acceptance (tw_db ready.1) transfer4 0
                             (Digest_to_wire_value chunk_digest) 100.

Lemma chunk_commit_eq :
  service_commit_chunk_acceptance (tw_db ready.1) transfer4 0 (Digest_to_wire_value chunk_digest) 100
  = (chunk_commit.1, Ok ChunkAcceptanceCommit.Committed).
Proof.
  fold chunk_commit.
  assert (match chunk_commit.2 with Ok ChunkAcceptanceCommit.Committed => true | _ => false end = true)
    as H by (vm_compute; reflexivity).
  destruct chunk_commit as [db [[]|]]; done.
Qed.

Lemma chunk_committed_once_witness :
  ∃ r facts, service_commit_chunk_acceptance (tw_db (tw_with_db ready.1 chunk_commit.1)) transfer4 0
               (Digest_to_wire_value artifact_digest) 100
             = (tw_db (tw_with_db ready.1 chunk_commit.1), Ok r)
    ∧ load_locked_facts (tw_db (tw_with_db ready.1 chunk_commit.1)) transfer4 = Ok (Some facts)
    ∧ r ≠ ChunkAcceptanceCommit.Committed.
Proof.
  destruct (chunk_committed_once true ready.1 ready.2 transfer4 0 100
    (Digest_to_wire_value chunk_digest) chunk_commit.1 _ _ (Digest_to_wire_value artifact_digest) 100
    ready_reachable chunk_commit_eq (treaches_refl _ _ _))
    as (r & facts & Hc & Hl & Hn & _).
  exists r, facts. split; [exact Hc|]. split; [exact Hl|exact Hn].
Defined.

Definition seal_commit := service_commit_manifest_seal (tw_db accepted.1) (tw_auth accepted.1)
                            seal_input (from_timestamp_millis 1000).

Lemma seal_commit_atomic_witness :
  ∃ facts', load_locked_facts seal_commit.1.1 transfer4 = Ok (Some facts')
            ∧ ar_state (tf_artifact facts') = ArtifactState.PendingVerification.
Proof.
  pose proof (seal_commit_atomic accepted.1 accepted.2 seal_input (from_timestamp_millis 1000)
    seal_commit.1.1 seal_commit.1.2 seal_commit.2
    accepted_reachable
    (eq_trans (surjective_pairing _) (f_equal (λ x, (x, seal_commit.2)) (surjective_pairing _)))) as H.
  assert (match seal_commit.2 with Ok (ManifestSealCommit.Sealed _) => true | _ => false end = true)
    as Hs by (vm_compute; reflexivity).
  destruct seal_commit.2 as [[sf|sf| | | |]|]; try discriminate Hs.
  destruct H as (_ & _ & _ & _ & _ & _ & _ & _ & facts' & Hl & Hp & _).
  exists facts'. split; [exact Hl|exact Hp].
Defined.

Definition attempt_at (w : TransferWorld) : Attempt :=
  default {| at_id := u 0; at_job_step_id := u 0; at_action_id := u 0; at_state := AttemptState.Failed |}
    (jd_attempts (w_db (tw_world w)) !! attempt5).

Lemma attempt_at_eq w :
  bool_decide (is_Some (jd_attempts (w_db (tw_world w)) !! attempt5)) = true →
  jd_attempts (w_db (tw_world w)) !! attempt5 = Some (attempt_at w).
Proof. intros [a Ha]%bool_decide_eq_true. unfold attempt_at. by rewrite Ha. Qed.

Definition ended := run_transfer_op verified.1 result_op verified.2.

Lemma transfer_ends_together_witness :
  ∃ row, td_artifacts (tw_db ended.1) !! artifact3 = Some row
         ∧ afr_state row = ArtifactState.Verified.
Proof.
  assert (jd_attempts (w_db (tw_world verified.1)) !! attempt5 = Some (attempt_at verified.1)) as H1
    by (apply attempt_at_eq; vm_compute; reflexivity).
  assert (jd_attempts (w_db (tw_world ended.1)) !! attempt5 = Some (attempt_at ended.1)) as H2
    by (apply attempt_at_eq; vm_compute; reflexivity).
  assert (at_state (attempt_at ended.1) ≠ at_state (attempt_at verified.1)) as H3
    by (vm_compute; discriminate).
  destruct (transfer_ends_together verified.1 verified.2 action6 ep9 verified_detail 50 ended.1 ended.2
    attempt5 _ _ verified_reachable (surjective_pairing _) H1 H2 H3)
    as (_ & _ & id & t & row & _ & _ & Ha & Hrow & _ & Hv).
  exists row. rewrite Ha in Hrow. split; [exact Hrow|exact Hv].
Defined.
End TransferExamples.
