(* ===== verification/WorkerProtocol.v ===== *)
(** * Messages of the Worker protocol

    Models [crates/worker-protocol/src/envelope.rs] and [messages.rs]: the envelope every
    message carries, the fifteen message types with their constructors, and the semantic
    validation of received messages. A message is its envelope and its body, as the source
    flattens them; a constructor draws the fresh message identity and so is a generator.
    At the end, what the constructors produce is shown to pass the validation. *)

From stdpp Require Import prelude strings.
From Stdlib Require Import Strings.Byte NArith.
From S2P Require Import Prelude.
From S2P Require Import External.

(** ** The envelope *)

Definition PROTOCOL_VERSION_V1 : str := lit "1".

(** [ProtocolVersion]: the textual value, not validated. *)
Definition ProtocolVersion : Type := str.
Definition ProtocolVersion_v1 : ProtocolVersion := PROTOCOL_VERSION_V1.
Definition ProtocolVersion_is_v1 (v : ProtocolVersion) : bool := bool_decide (v = PROTOCOL_VERSION_V1).

Record Envelope : Type := {
  env_protocol_version : ProtocolVersion;
  env_message_id : Uuid;
}.

Section EnvelopeOps.
Context {ent : Entropy} {kind : UuidKind}.

Definition Envelope_new : Gen Envelope :=
  id ← new_v4; mret {| env_protocol_version := ProtocolVersion_v1; env_message_id := id |}.

Definition is_uuid_v4 (id : Uuid) : bool :=
  (uuid_version_num id =? 4)%N && uuid_variant_is_rfc4122 id.

Definition Envelope_is_valid (e : Envelope) : bool :=
  ProtocolVersion_is_v1 (env_protocol_version e) && is_uuid_v4 (env_message_id e).
End EnvelopeOps.

(** The struct [<Name>Message] of each message type: envelope and body. *)
Record Message (B : Type) : Type := { envelope : Envelope; body : B }.
Arguments envelope {B} m.
Arguments body {B} m.
Arguments Build_Message {B} envelope body.

Definition with_envelope `{Entropy} {B} (b : B) : Gen (Message B) :=
  e ← Envelope_new; mret (Build_Message e b).

(** ** Handshake *)

Record WorkerHelloBody : Type := {
  wh_worker_protocol_version : ProtocolVersion;
  wh_worker_instance_id : Uuid;
}.

Definition WorkerHelloMessage_new `{Entropy} (worker_instance_id : Uuid)
  : Gen (Message WorkerHelloBody) :=
  with_envelope {| wh_worker_protocol_version := ProtocolVersion_v1;
                   wh_worker_instance_id := worker_instance_id |}.

Definition WorkerHelloMessage_is_valid `{UuidKind} (m : Message WorkerHelloBody) : bool :=
  Envelope_is_valid (envelope m)
  && ProtocolVersion_is_v1 (wh_worker_protocol_version (body m))
  && is_uuid_v4 (wh_worker_instance_id (body m)).

Record ServerHelloBody : Type := {
  sh_in_reply_to : Uuid;
  sh_server_protocol_version : ProtocolVersion;
  sh_compatible : bool;
}.

Definition ServerHelloMessage_new `{Entropy} (in_reply_to : Uuid) : Gen (Message ServerHelloBody) :=
  with_envelope {| sh_in_reply_to := in_reply_to;
                   sh_server_protocol_version := ProtocolVersion_v1; sh_compatible := true |}.

Definition ServerHelloMessage_is_valid_reply_to `{UuidKind} (m : Message ServerHelloBody)
    (sent_hello_id : Uuid) : bool :=
  Envelope_is_valid (envelope m)
  && ProtocolVersion_is_v1 (sh_server_protocol_version (body m))
  && sh_compatible (body m)
  && bool_decide (sh_in_reply_to (body m) = sent_hello_id).

Module HandshakeRejectionReason.
Inductive t : Type := IncompatibleVersion.
End HandshakeRejectionReason.

Record HandshakeRejectedBody : Type := {
  hr_in_reply_to : Uuid;
  hr_reason : HandshakeRejectionReason.t;
}.

Definition HandshakeRejectedMessage_incompatible_version `{Entropy} (in_reply_to : Uuid)
  : Gen (Message HandshakeRejectedBody) :=
  with_envelope {| hr_in_reply_to := in_reply_to;
                   hr_reason := HandshakeRejectionReason.IncompatibleVersion |}.

Definition HandshakeRejectedMessage_is_valid_reply_to `{UuidKind}
    (m : Message HandshakeRejectedBody) (sent_hello_id : Uuid) : bool :=
  Envelope_is_valid (envelope m) && bool_decide (hr_in_reply_to (body m) = sent_hello_id).

(** ** Shared vocabulary *)

Module WireDigestAlgorithm.
Inductive t : Type := Sha256.
End WireDigestAlgorithm.

Module WireArtifactStatus.
Inductive t : Type := Verified | Failed.
End WireArtifactStatus.

(** ** Authorization of a chunk upload *)

Record AuthorizationQueryBody : Type := {
  aq_token : str;
  aq_transfer_id : Uuid;
  aq_chunk_index : N;
  aq_proof_id : str;
  aq_issued_at : N;
  aq_signature : str;
}.

Definition AuthorizationQueryMessage_new `{Entropy} (token : str) (transfer_id : Uuid)
    (chunk_index : N) (proof_id : str) (issued_at : N) (signature : str)
  : Gen (Message AuthorizationQueryBody) :=
  with_envelope {| aq_token := token; aq_transfer_id := transfer_id; aq_chunk_index := chunk_index;
                   aq_proof_id := proof_id; aq_issued_at := issued_at; aq_signature := signature |}.

Module AuthorizationDecisionOutcome.
Inductive t : Type := Approved | Denied.
End AuthorizationDecisionOutcome.

Record AuthorizationDecisionBody : Type := {
  adm_in_reply_to : Uuid;
  adm_decision : AuthorizationDecisionOutcome.t;
  adm_digest_algorithm : option WireDigestAlgorithm.t;
  adm_chunk_size : option N;
  adm_acceptance_handle : option str;
  adm_expected_chunk_digest : option str;
}.

Definition AuthorizationDecisionMessage_approved `{Entropy} (in_reply_to : Uuid)
    (digest_algorithm : WireDigestAlgorithm.t) (chunk_size : N) (acceptance_handle : str)
    (expected_chunk_digest : option str) : Gen (Message AuthorizationDecisionBody) :=
  with_envelope {| adm_in_reply_to := in_reply_to;
                   adm_decision := AuthorizationDecisionOutcome.Approved;
                   adm_digest_algorithm := Some digest_algorithm;
                   adm_chunk_size := Some chunk_size;
                   adm_acceptance_handle := Some acceptance_handle;
                   adm_expected_chunk_digest := expected_chunk_digest |}.

Definition AuthorizationDecisionMessage_denied `{Entropy} (in_reply_to : Uuid)
  : Gen (Message AuthorizationDecisionBody) :=
  with_envelope {| adm_in_reply_to := in_reply_to;
                   adm_decision := AuthorizationDecisionOutcome.Denied;
                   adm_digest_algorithm := None; adm_chunk_size := None;
                   adm_acceptance_handle := None; adm_expected_chunk_digest := None |}.

Definition AuthorizationDecisionMessage_is_reply_to `{UuidKind}
    (m : Message AuthorizationDecisionBody) (request_message_id : Uuid) : bool :=
  Envelope_is_valid (envelope m) && bool_decide (adm_in_reply_to (body m) = request_message_id).

(** ** Durable acceptance of a verified chunk *)

Record ChunkAcceptanceRequestBody : Type := {
  car_acceptance_handle : str;
  car_transfer_id : Uuid;
  car_chunk_index : N;
  car_digest : str;
  car_size : N;
}.

Definition ChunkAcceptanceRequestMessage_new `{Entropy} (acceptance_handle : str)
    (transfer_id : Uuid) (chunk_index : N) (digest : str) (size : N)
  : Gen (Message ChunkAcceptanceRequestBody) :=
  with_envelope {| car_acceptance_handle := acceptance_handle; car_transfer_id := transfer_id;
                   car_chunk_index := chunk_index; car_digest := digest; car_size := size |}.

Module ChunkAcceptanceOutcome.
Inductive t : Type := Committed | AlreadyCommitted | Rejected.
End ChunkAcceptanceOutcome.

Module ChunkAcceptanceRejectionReason.
Inductive t : Type := ChunkIdentityConflict | TransferNotContinuable.
End ChunkAcceptanceRejectionReason.

Record ChunkAcceptanceDecisionBody : Type := {
  cad_in_reply_to : Uuid;
  cad_outcome : ChunkAcceptanceOutcome.t;
  cad_reason : option ChunkAcceptanceRejectionReason.t;
}.

Definition ChunkAcceptanceDecisionMessage_with_outcome `{Entropy} (in_reply_to : Uuid)
    (outcome : ChunkAcceptanceOutcome.t) (reason : option ChunkAcceptanceRejectionReason.t)
  : Gen (Message ChunkAcceptanceDecisionBody) :=
  with_envelope {| cad_in_reply_to := in_reply_to; cad_outcome := outcome; cad_reason := reason |}.

Definition ChunkAcceptanceDecisionMessage_committed `{Entropy} (in_reply_to : Uuid) :=
  ChunkAcceptanceDecisionMessage_with_outcome in_reply_to ChunkAcceptanceOutcome.Committed None.
Definition ChunkAcceptanceDecisionMessage_already_committed `{Entropy} (in_reply_to : Uuid) :=
  ChunkAcceptanceDecisionMessage_with_outcome in_reply_to ChunkAcceptanceOutcome.AlreadyCommitted
    None.
Definition ChunkAcceptanceDecisionMessage_rejected `{Entropy} (in_reply_to : Uuid)
    (reason : ChunkAcceptanceRejectionReason.t) :=
  ChunkAcceptanceDecisionMessage_with_outcome in_reply_to ChunkAcceptanceOutcome.Rejected
    (Some reason).

Definition ChunkAcceptanceDecisionMessage_is_reply_to `{UuidKind}
    (m : Message ChunkAcceptanceDecisionBody) (request_message_id : Uuid) : bool :=
  Envelope_is_valid (envelope m) && bool_decide (cad_in_reply_to (body m) = request_message_id).

(** ** Resume discovery *)

Record ResumeDiscoveryQueryBody : Type := {
  rdq_token : str;
  rdq_transfer_id : Uuid;
  rdq_proof_id : str;
  rdq_issued_at : N;
  rdq_signature : str;
}.

Definition ResumeDiscoveryQueryMessage_new `{Entropy} (token : str) (transfer_id : Uuid)
    (proof_id : str) (issued_at : N) (signature : str) : Gen (Message ResumeDiscoveryQueryBody) :=
  with_envelope {| rdq_token := token; rdq_transfer_id := transfer_id; rdq_proof_id := proof_id;
                   rdq_issued_at := issued_at; rdq_signature := signature |}.

Record HeldChunk : Type := { hc_chunk_index : N; hc_digest : str }.

Module ResumeDiscoveryDecision.
Inductive t : Type := Approved | Denied.
#[global] Instance t_eq_dec : EqDecision t.
Proof. solve_decision. Defined.
End ResumeDiscoveryDecision.

Record ResumeDiscoveryPageBody : Type := {
  rp_in_reply_to : Uuid;
  rp_decision : ResumeDiscoveryDecision.t;
  rp_transfer_id : option Uuid;
  rp_sealed : option bool;
  rp_digest_algorithm : option WireDigestAlgorithm.t;
  rp_chunk_size : option N;
  rp_expected_chunk_count : option N;
  rp_held_chunks : option (list HeldChunk);
  rp_resume_cursor : option str;
}.

Definition ResumeDiscoveryPageMessage_denied `{Entropy} (in_reply_to : Uuid)
  : Gen (Message ResumeDiscoveryPageBody) :=
  with_envelope {| rp_in_reply_to := in_reply_to; rp_decision := ResumeDiscoveryDecision.Denied;
                   rp_transfer_id := None; rp_sealed := None; rp_digest_algorithm := None;
                   rp_chunk_size := None; rp_expected_chunk_count := None;
                   rp_held_chunks := None; rp_resume_cursor := None |}.

Definition ResumeDiscoveryPageMessage_first_page `{Entropy} (in_reply_to transfer_id : Uuid)
    (sealed : bool) (digest_algorithm : WireDigestAlgorithm.t) (chunk_size : N)
    (expected_chunk_count : option N) (held_chunks : list HeldChunk) (resume_cursor : option str)
  : Gen (Message ResumeDiscoveryPageBody) :=
  with_envelope {| rp_in_reply_to := in_reply_to; rp_decision := ResumeDiscoveryDecision.Approved;
                   rp_transfer_id := Some transfer_id; rp_sealed := Some sealed;
                   rp_digest_algorithm := Some digest_algorithm;
                   rp_chunk_size := Some chunk_size;
                   rp_expected_chunk_count := expected_chunk_count;
                   rp_held_chunks := Some held_chunks; rp_resume_cursor := resume_cursor |}.

Definition ResumeDiscoveryPageMessage_continuation_page `{Entropy} (in_reply_to : Uuid)
    (held_chunks : list HeldChunk) (resume_cursor : option str)
  : Gen (Message ResumeDiscoveryPageBody) :=
  with_envelope {| rp_in_reply_to := in_reply_to; rp_decision := ResumeDiscoveryDecision.Approved;
                   rp_transfer_id := None; rp_sealed := None; rp_digest_algorithm := None;
                   rp_chunk_size := None; rp_expected_chunk_count := None;
                   rp_held_chunks := Some held_chunks; rp_resume_cursor := resume_cursor |}.

Definition ResumeDiscoveryPageMessage_is_reply_to `{UuidKind} (m : Message ResumeDiscoveryPageBody)
    (request_message_id : Uuid) : bool :=
  Envelope_is_valid (envelope m) && bool_decide (rp_in_reply_to (body m) = request_message_id).

Record ResumeDiscoveryContinueBody : Type := { rc_resume_cursor : str }.

Definition ResumeDiscoveryContinueMessage_new `{Entropy} (resume_cursor : str)
  : Gen (Message ResumeDiscoveryContinueBody) :=
  with_envelope {| rc_resume_cursor := resume_cursor |}.

(** ** Sealing *)

Record ManifestSealRequestBody : Type := {
  msr_token : str;
  msr_transfer_id : Uuid;
  msr_proof_id : str;
  msr_issued_at : N;
  msr_signature : str;
  msr_chunk_count : N;
  msr_artifact_digest : str;
}.

Definition ManifestSealRequestMessage_new `{Entropy} (token : str) (transfer_id : Uuid)
    (proof_id : str) (issued_at : N) (signature : str) (chunk_count : N) (artifact_digest : str)
  : Gen (Message ManifestSealRequestBody) :=
  with_envelope {| msr_token := token; msr_transfer_id := transfer_id; msr_proof_id := proof_id;
                   msr_issued_at := issued_at; msr_signature := signature;
                   msr_chunk_count := chunk_count; msr_artifact_digest := artifact_digest |}.

Module ManifestSealOutcome.
Inductive t : Type := Sealed | AlreadyPendingVerification | Rejected | Denied.
End ManifestSealOutcome.

Module ManifestSealRejectionReason.
Inductive t : Type := IncompleteManifest | ManifestAlreadySealed.
End ManifestSealRejectionReason.

Record ManifestSealDecisionBody : Type := {
  msd_in_reply_to : Uuid;
  msd_outcome : ManifestSealOutcome.t;
  msd_reason : option ManifestSealRejectionReason.t;
  msd_verification_handle : option str;
  msd_artifact_id : option Uuid;
  msd_digest_algorithm : option WireDigestAlgorithm.t;
  msd_chunk_size : option N;
  msd_chunk_count : option N;
  msd_expected_artifact_digest : option str;
}.

Record SealedManifestFacts : Type := {
  smf_verification_handle : str;
  smf_artifact_id : Uuid;
  smf_digest_algorithm : WireDigestAlgorithm.t;
  smf_chunk_size : N;
  smf_chunk_count : N;
  smf_expected_artifact_digest : str;
}.

Definition ManifestSealDecisionMessage_bare `{Entropy} (in_reply_to : Uuid)
    (outcome : ManifestSealOutcome.t) (reason : option ManifestSealRejectionReason.t)
  : Gen (Message ManifestSealDecisionBody) :=
  with_envelope {| msd_in_reply_to := in_reply_to; msd_outcome := outcome; msd_reason := reason;
                   msd_verification_handle := None; msd_artifact_id := None;
                   msd_digest_algorithm := None; msd_chunk_size := None; msd_chunk_count := None;
                   msd_expected_artifact_digest := None |}.

Definition ManifestSealDecisionMessage_committed `{Entropy} (in_reply_to : Uuid)
    (outcome : ManifestSealOutcome.t) (facts : SealedManifestFacts)
  : Gen (Message ManifestSealDecisionBody) :=
  with_envelope {| msd_in_reply_to := in_reply_to; msd_outcome := outcome; msd_reason := None;
                   msd_verification_handle := Some (smf_verification_handle facts);
                   msd_artifact_id := Some (smf_artifact_id facts);
                   msd_digest_algorithm := Some (smf_digest_algorithm facts);
                   msd_chunk_size := Some (smf_chunk_size facts);
                   msd_chunk_count := Some (smf_chunk_count facts);
                   msd_expected_artifact_digest := Some (smf_expected_artifact_digest facts) |}.

Definition ManifestSealDecisionMessage_denied `{Entropy} (in_reply_to : Uuid) :=
  ManifestSealDecisionMessage_bare in_reply_to ManifestSealOutcome.Denied None.
Definition ManifestSealDecisionMessage_rejected `{Entropy} (in_reply_to : Uuid)
    (reason : ManifestSealRejectionReason.t) :=
  ManifestSealDecisionMessage_bare in_reply_to ManifestSealOutcome.Rejected (Some reason).
Definition ManifestSealDecisionMessage_sealed `{Entropy} (in_reply_to : Uuid)
    (facts : SealedManifestFacts) :=
  ManifestSealDecisionMessage_committed in_reply_to ManifestSealOutcome.Sealed facts.
Definition ManifestSealDecisionMessage_already_pending_verification `{Entropy} (in_reply_to : Uuid)
    (facts : SealedManifestFacts) :=
  ManifestSealDecisionMessage_committed in_reply_to ManifestSealOutcome.AlreadyPendingVerification
    facts.

Definition ManifestSealDecisionMessage_is_reply_to `{UuidKind}
    (m : Message ManifestSealDecisionBody) (request_message_id : Uuid) : bool :=
  Envelope_is_valid (envelope m) && bool_decide (msd_in_reply_to (body m) = request_message_id).

(** ** Verification of the full Artifact *)

Record ArtifactVerificationReportBody : Type := {
  avr_verification_handle : str;
  avr_computed_artifact_digest : str;
}.

Definition ArtifactVerificationReportMessage_new `{Entropy}
    (verification_handle computed_artifact_digest : str)
  : Gen (Message ArtifactVerificationReportBody) :=
  with_envelope {| avr_verification_handle := verification_handle;
                   avr_computed_artifact_digest := computed_artifact_digest |}.

Module ArtifactVerificationAckOutcome.
Inductive t : Type := Committed.
End ArtifactVerificationAckOutcome.

Record ArtifactVerificationAckBody : Type := {
  ava_in_reply_to : Uuid;
  ava_outcome : ArtifactVerificationAckOutcome.t;
  ava_artifact_status : WireArtifactStatus.t;
}.

Definition ArtifactVerificationAckMessage_committed `{Entropy} (in_reply_to : Uuid)
    (artifact_status : WireArtifactStatus.t) : Gen (Message ArtifactVerificationAckBody) :=
  with_envelope {| ava_in_reply_to := in_reply_to;
                   ava_outcome := ArtifactVerificationAckOutcome.Committed;
                   ava_artifact_status := artifact_status |}.

Definition ArtifactVerificationAckMessage_is_reply_to `{UuidKind}
    (m : Message ArtifactVerificationAckBody) (request_message_id : Uuid) : bool :=
  Envelope_is_valid (envelope m) && bool_decide (ava_in_reply_to (body m) = request_message_id).

(** ** Protocol errors *)

Record ProtocolErrorBody : Type := {
  pe_code : str;
  pe_message : option str;
  pe_in_reply_to : option Uuid;
}.

Definition ProtocolErrorMessage_new `{Entropy} (code : str) : Gen (Message ProtocolErrorBody) :=
  with_envelope {| pe_code := code; pe_message := None; pe_in_reply_to := None |}.

Definition ProtocolErrorMessage_with_message (m : Message ProtocolErrorBody) (message : str)
  : Message ProtocolErrorBody :=
  Build_Message (envelope m) {| pe_code := pe_code (body m); pe_message := Some message;
                                pe_in_reply_to := pe_in_reply_to (body m) |}.

Definition ProtocolErrorMessage_with_in_reply_to (m : Message ProtocolErrorBody)
    (in_reply_to : Uuid) : Message ProtocolErrorBody :=
  Build_Message (envelope m) {| pe_code := pe_code (body m); pe_message := pe_message (body m);
                                pe_in_reply_to := Some in_reply_to |}.

(** ** Validation of shapes *)

Record InvalidMessageShape : Type := { ims_message_type : str; ims_detail : str }.

Definition shape (message_type detail : str) : InvalidMessageShape :=
  {| ims_message_type := message_type; ims_detail := detail |}.

(** [Option::is_some]. *)
Definition some {A} (o : option A) : bool := match o with Some _ => true | None => false end.

Definition AuthorizationDecisionBody_validate_shape (b : AuthorizationDecisionBody)
  : result InvalidMessageShape unit :=
  match adm_decision b with
  | AuthorizationDecisionOutcome.Approved =>
      if negb (some (adm_digest_algorithm b)) || negb (some (adm_chunk_size b))
         || negb (some (adm_acceptance_handle b))
      then Err (shape (lit "AuthorizationDecision")
                  (lit "an approved decision must carry digest_algorithm, chunk_size, and acceptance_handle"))
      else Ok ()
  | AuthorizationDecisionOutcome.Denied =>
      if some (adm_digest_algorithm b) || some (adm_chunk_size b)
         || some (adm_acceptance_handle b) || some (adm_expected_chunk_digest b)
      then Err (shape (lit "AuthorizationDecision")
                  (lit "a denied decision must carry nothing beyond `decision`"))
      else Ok ()
  end.

Definition ChunkAcceptanceDecisionBody_validate_shape (b : ChunkAcceptanceDecisionBody)
  : result InvalidMessageShape unit :=
  match cad_outcome b with
  | ChunkAcceptanceOutcome.Committed | ChunkAcceptanceOutcome.AlreadyCommitted =>
      if some (cad_reason b)
      then Err (shape (lit "ChunkAcceptanceDecision")
                  (lit "a committed/already_committed outcome must not carry a reason"))
      else Ok ()
  | ChunkAcceptanceOutcome.Rejected =>
      if negb (some (cad_reason b))
      then Err (shape (lit "ChunkAcceptanceDecision") (lit "a rejected outcome must carry a reason"))
      else Ok ()
  end.

Definition ResumeDiscoveryPageBody_validate_shape (b : ResumeDiscoveryPageBody)
  : result InvalidMessageShape unit :=
  match rp_decision b with
  | ResumeDiscoveryDecision.Denied =>
      if some (rp_transfer_id b) || some (rp_sealed b) || some (rp_digest_algorithm b)
         || some (rp_chunk_size b) || some (rp_expected_chunk_count b)
         || some (rp_held_chunks b) || some (rp_resume_cursor b)
      then Err (shape (lit "ResumeDiscoveryPage")
                  (lit "a denied resume-discovery page must carry no durable/state field"))
      else Ok ()
  | ResumeDiscoveryDecision.Approved =>
      if negb (some (rp_held_chunks b))
      then Err (shape (lit "ResumeDiscoveryPage")
                  (lit "an approved resume-discovery page must carry held_chunks"))
      else if negb (Bool.eqb (some (rp_expected_chunk_count b))
                      (bool_decide (rp_sealed b = Some true)))
      then Err (shape (lit "ResumeDiscoveryPage")
                  (lit "expected_chunk_count must be present iff sealed == true"))
      else Ok ()
  end.

Definition ManifestSealDecisionBody_validate_shape (b : ManifestSealDecisionBody)
  : result InvalidMessageShape unit :=
  let any_success_field :=
    some (msd_verification_handle b) || some (msd_artifact_id b) || some (msd_digest_algorithm b)
    || some (msd_chunk_size b) || some (msd_chunk_count b)
    || some (msd_expected_artifact_digest b) in
  let all_success_fields :=
    some (msd_verification_handle b) && some (msd_artifact_id b) && some (msd_digest_algorithm b)
    && some (msd_chunk_size b) && some (msd_chunk_count b)
    && some (msd_expected_artifact_digest b) in
  match msd_outcome b with
  | ManifestSealOutcome.Sealed | ManifestSealOutcome.AlreadyPendingVerification =>
      if some (msd_reason b)
      then Err (shape (lit "ManifestSealDecision")
                  (lit "a sealed/already_pending_verification outcome must not carry a reason"))
      else if negb all_success_fields
      then Err (shape (lit "ManifestSealDecision")
                  (lit "a sealed/already_pending_verification outcome must carry the complete sealed-manifest fact bundle (verification_handle, artifact_id, digest_algorithm, chunk_size, chunk_count, expected_artifact_digest)"))
      else Ok ()
  | ManifestSealOutcome.Rejected =>
      if negb (some (msd_reason b))
      then Err (shape (lit "ManifestSealDecision") (lit "a rejected outcome must carry a reason"))
      else if any_success_field
      then Err (shape (lit "ManifestSealDecision")
                  (lit "a rejected outcome must not carry any sealed-manifest fact"))
      else Ok ()
  | ManifestSealOutcome.Denied =>
      if some (msd_reason b)
      then Err (shape (lit "ManifestSealDecision") (lit "a denied outcome must not carry a reason"))
      else if any_success_field
      then Err (shape (lit "ManifestSealDecision")
                  (lit "a denied outcome must not carry any sealed-manifest fact"))
      else Ok ()
  end.

(** The two readings of an approved page by its consumer. *)
Record ResumeFirstPage : Type := {
  fp_transfer_id : Uuid;
  fp_sealed : bool;
  fp_digest_algorithm : WireDigestAlgorithm.t;
  fp_chunk_size : N;
  fp_expected_chunk_count : option N;
  fp_held_chunks : list HeldChunk;
  fp_resume_cursor : option str;
}.

Record ResumeContinuationPage : Type := {
  cp_held_chunks : list HeldChunk;
  cp_resume_cursor : option str;
}.

Definition approved_first_page (m : Message ResumeDiscoveryPageBody)
  : result InvalidMessageShape ResumeFirstPage :=
  let b := body m in
  if negb (bool_decide (rp_decision b = ResumeDiscoveryDecision.Approved))
  then Err (shape (lit "ResumeDiscoveryPage")
              (lit "expected an approved first page, got a denied page"))
  else
    match rp_transfer_id b, rp_sealed b, rp_digest_algorithm b, rp_chunk_size b, rp_held_chunks b with
    | Some transfer_id, Some sealed, Some digest_algorithm, Some chunk_size, Some held_chunks =>
        if negb (Bool.eqb (some (rp_expected_chunk_count b)) sealed)
        then Err (shape (lit "ResumeDiscoveryPage")
                    (lit "expected_chunk_count must be present iff sealed == true"))
        else Ok {| fp_transfer_id := transfer_id; fp_sealed := sealed;
                   fp_digest_algorithm := digest_algorithm; fp_chunk_size := chunk_size;
                   fp_expected_chunk_count := rp_expected_chunk_count b;
                   fp_held_chunks := held_chunks; fp_resume_cursor := rp_resume_cursor b |}
    | _, _, _, _, _ =>
        Err (shape (lit "ResumeDiscoveryPage")
               (lit "an approved first page must carry transfer_id, sealed, digest_algorithm, chunk_size, and held_chunks"))
    end.

Definition approved_continuation_page (m : Message ResumeDiscoveryPageBody)
  : result InvalidMessageShape ResumeContinuationPage :=
  let b := body m in
  if negb (bool_decide (rp_decision b = ResumeDiscoveryDecision.Approved))
  then Err (shape (lit "ResumeDiscoveryPage")
              (lit "expected an approved continuation page, got a denied page"))
  else
    match rp_held_chunks b with
    | None => Err (shape (lit "ResumeDiscoveryPage")
                     (lit "an approved continuation page must carry held_chunks"))
    | Some held_chunks =>
        if some (rp_transfer_id b) || some (rp_sealed b) || some (rp_digest_algorithm b)
           || some (rp_chunk_size b) || some (rp_expected_chunk_count b)
        then Err (shape (lit "ResumeDiscoveryPage")
                    (lit "a continuation page must not carry any manifest-level field"))
        else Ok {| cp_held_chunks := held_chunks; cp_resume_cursor := rp_resume_cursor b |}
    end.

(** ** The union of messages *)

Module WorkerProtocolMessage.
Inductive t : Type :=
| WorkerHello (m : Message WorkerHelloBody)
| ServerHello (m : Message ServerHelloBody)
| HandshakeRejected (m : Message HandshakeRejectedBody)
| AuthorizationQuery (m : Message AuthorizationQueryBody)
| AuthorizationDecision (m : Message AuthorizationDecisionBody)
| ChunkAcceptanceRequest (m : Message ChunkAcceptanceRequestBody)
| ChunkAcceptanceDecision (m : Message ChunkAcceptanceDecisionBody)
| ResumeDiscoveryQuery (m : Message ResumeDiscoveryQueryBody)
| ResumeDiscoveryPage (m : Message ResumeDiscoveryPageBody)
| ResumeDiscoveryContinue (m : Message ResumeDiscoveryContinueBody)
| ManifestSealRequest (m : Message ManifestSealRequestBody)
| ManifestSealDecision (m : Message ManifestSealDecisionBody)
| ArtifactVerificationReport (m : Message ArtifactVerificationReportBody)
| ArtifactVerificationAck (m : Message ArtifactVerificationAckBody)
| ProtocolError (m : Message ProtocolErrorBody).

Definition get_envelope (m : t) : Envelope :=
  match m with
  | WorkerHello m => envelope m
  | ServerHello m => envelope m
  | HandshakeRejected m => envelope m
  | AuthorizationQuery m => envelope m
  | AuthorizationDecision m => envelope m
  | ChunkAcceptanceRequest m => envelope m
  | ChunkAcceptanceDecision m => envelope m
  | ResumeDiscoveryQuery m => envelope m
  | ResumeDiscoveryPage m => envelope m
  | ResumeDiscoveryContinue m => envelope m
  | ManifestSealRequest m => envelope m
  | ManifestSealDecision m => envelope m
  | ArtifactVerificationReport m => envelope m
  | ArtifactVerificationAck m => envelope m
  | ProtocolError m => envelope m
  end.

Definition validate_shape (m : t) : result InvalidMessageShape unit :=
  match m with
  | AuthorizationDecision m => AuthorizationDecisionBody_validate_shape (body m)
  | ChunkAcceptanceDecision m => ChunkAcceptanceDecisionBody_validate_shape (body m)
  | ResumeDiscoveryPage m => ResumeDiscoveryPageBody_validate_shape (body m)
  | ManifestSealDecision m => ManifestSealDecisionBody_validate_shape (body m)
  | _ => Ok ()
  end.

(** The identity of the message this one answers, where its body names one. *)
Definition in_reply_to (m : t) : option Uuid :=
  match m with
  | ServerHello m => Some (sh_in_reply_to (body m))
  | HandshakeRejected m => Some (hr_in_reply_to (body m))
  | AuthorizationDecision m => Some (adm_in_reply_to (body m))
  | ChunkAcceptanceDecision m => Some (cad_in_reply_to (body m))
  | ResumeDiscoveryPage m => Some (rp_in_reply_to (body m))
  | ManifestSealDecision m => Some (msd_in_reply_to (body m))
  | ArtifactVerificationAck m => Some (ava_in_reply_to (body m))
  | ProtocolError m => pe_in_reply_to (body m)
  | _ => None
  end.
End WorkerProtocolMessage.

(** ** Fresh envelopes *)

Lemma fresh_envelope_valid `{UuidV4Laws} (k : nat) :
  Envelope_is_valid (Envelope_new k).1 = true.
Proof.
  destruct (draw_uuid_v4 k) as [Hv Hr]. unfold Envelope_is_valid, is_uuid_v4. simpl.
  by rewrite Hv, Hr.
Qed.

Lemma with_envelope_run `{Entropy} {B} (b : B) (k : nat) :
  with_envelope b k = (Build_Message (Envelope_new k).1 b, S k).
Proof. done. Qed.

(** The consumer of a page reads back exactly what the server put in it, and never takes
    one kind of page for the other. *)
Lemma first_page_read `{Entropy} reply tid sealed alg size count held cursor k :
  some count = sealed →
  let m := (ResumeDiscoveryPageMessage_first_page reply tid sealed alg size count held cursor k).1 in
  approved_first_page m
    = Ok {| fp_transfer_id := tid; fp_sealed := sealed; fp_digest_algorithm := alg;
            fp_chunk_size := size; fp_expected_chunk_count := count; fp_held_chunks := held;
            fp_resume_cursor := cursor |}
  ∧ is_ok (approved_continuation_page m) = false.
Proof. intros <-. unfold approved_first_page. simpl. by rewrite Bool.eqb_reflx. Qed.

Lemma continuation_page_read `{Entropy} reply held cursor k :
  let m := (ResumeDiscoveryPageMessage_continuation_page reply held cursor k).1 in
  approved_continuation_page m = Ok {| cp_held_chunks := held; cp_resume_cursor := cursor |}
  ∧ is_ok (approved_first_page m) = false.
Proof. done. Qed.
