(* ===== verification/WorkerFraming.v ===== *)
(** * Framing and codec of the Worker protocol

    Models [crates/worker-protocol/src/framing.rs] and [codec.rs]: the 4-byte big-endian
    length prefix over a byte stream, the 1 MiB bound, the UTF-8 check, and the JSON codec
    with its classification of unknown types and illegal shapes. [serde_json] and the
    derived serialization are third-party code and a parameter, [Json]; UTF-8 validity is
    the standard library's and is written out. What is sent is what is received, and a
    frame that announces too much is refused before any of its payload is read. *)

From stdpp Require Import prelude strings.
From Stdlib Require Import Strings.Byte NArith.
From S2P Require Import Prelude.
From S2P Require Import External.
From S2P Require Import WorkerProtocol.

(** ** [std::str::from_utf8] *)

Definition byte_in (lo hi : N) (b : byte) : bool :=
  ((lo <=? Byte.to_N b) && (Byte.to_N b <=? hi))%N.

(** A continuation byte. *)
Definition continuation (b : byte) : bool := byte_in 128 191 b.

(** The well-formed byte sequences of the Unicode standard: no overlong form, no
    surrogate, nothing above U+10FFFF. *)
Fixpoint utf8_valid (s : list byte) : bool :=
  match s with
  | [] => true
  | b0 :: s0 =>
      if byte_in 0 127 b0 then utf8_valid s0
      else match s0 with
           | [] => false
           | b1 :: s1 =>
               if byte_in 194 223 b0 then continuation b1 && utf8_valid s1
               else match s1 with
                    | [] => false
                    | b2 :: s2 =>
                        if byte_in 224 239 b0 then
                          byte_in (if (Byte.to_N b0 =? 224)%N then 160 else 128)
                                   (if (Byte.to_N b0 =? 237)%N then 159 else 191) b1
                          && continuation b2 && utf8_valid s2
                        else match s2 with
                             | [] => false
                             | b3 :: s3 =>
                                 if byte_in 240 244 b0 then
                                   byte_in (if (Byte.to_N b0 =? 240)%N then 144 else 128)
                                            (if (Byte.to_N b0 =? 244)%N then 143 else 191) b1
                                   && continuation b2 && continuation b3 && utf8_valid s3
                                 else false
                             end
                    end
           end
  end.

(** ** Streams

    A reader is what the peer has sent and how the stream then ends; a writer is what was
    written, how much more the peer takes before writing fails, and whether flushing
    works. *)

Module StreamEnd.
Inductive t : Type := UnexpectedEof | OtherError.
End StreamEnd.

Record Reader : Type := { rd_bytes : list byte; rd_end : StreamEnd.t }.

Record Writer : Type := {
  wr_written : list byte;
  wr_room : option nat;
  wr_flushes : bool;
}.

Definition MAX_FRAME_PAYLOAD_BYTES : N := 1048576.
Definition LENGTH_PREFIX_BYTES : nat := 4.

Module FrameReadError.
Inductive t : Type := Eof | OversizedFrame (declared max : N) | Io | InvalidUtf8.
End FrameReadError.

Module FrameWriteError.
Inductive t : Type := OversizedFrame (declared max : N) | Io.
End FrameWriteError.

(** [AsyncReadExt::read_exact], and the source's wrapper around it. *)
Definition read_exact_or_eof (n : nat) (r : Reader)
  : result FrameReadError.t (list byte) * Reader :=
  if (n =? 0)%nat then (Ok [], r)
  else if (n <=? length (rd_bytes r))%nat
  then (Ok (take n (rd_bytes r)), {| rd_bytes := drop n (rd_bytes r); rd_end := rd_end r |})
  else (Err match rd_end r with
            | StreamEnd.UnexpectedEof => FrameReadError.Eof
            | StreamEnd.OtherError => FrameReadError.Io
            end, {| rd_bytes := []; rd_end := rd_end r |}).

Definition read_frame (r : Reader) : result FrameReadError.t (list byte) * Reader :=
  let '(prefix, r1) := read_exact_or_eof LENGTH_PREFIX_BYTES r in
  match prefix with
  | Err e => (Err e, r1)
  | Ok length_prefix =>
      let declared := from_be length_prefix in
      if (MAX_FRAME_PAYLOAD_BYTES <? declared)%N
      then (Err (FrameReadError.OversizedFrame declared MAX_FRAME_PAYLOAD_BYTES), r1)
      else read_exact_or_eof (N.to_nat declared) r1
  end.

(** [AsyncWriteExt::write_all]. *)
Definition write_all (w : Writer) (l : list byte) : result FrameWriteError.t unit * Writer :=
  match wr_room w with
  | None => (Ok (), {| wr_written := wr_written w ++ l; wr_room := None;
                       wr_flushes := wr_flushes w |})
  | Some room =>
      (if (length l <=? room)%nat then Ok () else Err FrameWriteError.Io,
       {| wr_written := wr_written w ++ take room l; wr_room := Some (room - length l);
          wr_flushes := wr_flushes w |})
  end.

Definition write_frame (w : Writer) (payload : list byte) : result FrameWriteError.t unit * Writer :=
  if (MAX_FRAME_PAYLOAD_BYTES <? N.of_nat (length payload))%N
  then (Err (FrameWriteError.OversizedFrame (N.of_nat (length payload)) MAX_FRAME_PAYLOAD_BYTES), w)
  else
    let length_prefix := be_bytes 4 (N.of_nat (length payload)) in
    match write_all w length_prefix with
    | (Err e, w1) => (Err e, w1)
    | (Ok _, w1) =>
        match write_all w1 payload with
        | (Err e, w2) => (Err e, w2)
        | (Ok _, w2) => (if wr_flushes w2 then Ok () else Err FrameWriteError.Io, w2)
        end
    end.

(** ** The codec *)

(** The wire value of [type]: the variant's name. *)
Definition message_type (m : WorkerProtocolMessage.t) : str :=
  match m with
  | WorkerProtocolMessage.WorkerHello _ => lit "WorkerHello"
  | WorkerProtocolMessage.ServerHello _ => lit "ServerHello"
  | WorkerProtocolMessage.HandshakeRejected _ => lit "HandshakeRejected"
  | WorkerProtocolMessage.AuthorizationQuery _ => lit "AuthorizationQuery"
  | WorkerProtocolMessage.AuthorizationDecision _ => lit "AuthorizationDecision"
  | WorkerProtocolMessage.ChunkAcceptanceRequest _ => lit "ChunkAcceptanceRequest"
  | WorkerProtocolMessage.ChunkAcceptanceDecision _ => lit "ChunkAcceptanceDecision"
  | WorkerProtocolMessage.ResumeDiscoveryQuery _ => lit "ResumeDiscoveryQuery"
  | WorkerProtocolMessage.ResumeDiscoveryPage _ => lit "ResumeDiscoveryPage"
  | WorkerProtocolMessage.ResumeDiscoveryContinue _ => lit "ResumeDiscoveryContinue"
  | WorkerProtocolMessage.ManifestSealRequest _ => lit "ManifestSealRequest"
  | WorkerProtocolMessage.ManifestSealDecision _ => lit "ManifestSealDecision"
  | WorkerProtocolMessage.ArtifactVerificationReport _ => lit "ArtifactVerificationReport"
  | WorkerProtocolMessage.ArtifactVerificationAck _ => lit "ArtifactVerificationAck"
  | WorkerProtocolMessage.ProtocolError _ => lit "ProtocolError"
  end.

Definition KNOWN_MESSAGE_TYPES : list str :=
  [lit "WorkerHello"; lit "ServerHello"; lit "HandshakeRejected"; lit "AuthorizationQuery";
   lit "AuthorizationDecision"; lit "ChunkAcceptanceRequest"; lit "ChunkAcceptanceDecision";
   lit "ResumeDiscoveryQuery"; lit "ResumeDiscoveryPage"; lit "ResumeDiscoveryContinue";
   lit "ManifestSealRequest"; lit "ManifestSealDecision"; lit "ArtifactVerificationReport";
   lit "ArtifactVerificationAck"; lit "ProtocolError"].

(** [serde_json] with the derived implementations of the message types: parsing into a
    value, the value's string field [type], reading a message from a value, and printing a
    message. *)
Class Json : Type := {
  JsonValue : Type;
  json_from_str : str → option JsonValue;
  json_type : JsonValue → option str;
  json_from_value : JsonValue → option WorkerProtocolMessage.t;
  json_to_string : WorkerProtocolMessage.t → option str;
}.

(** What is printed is UTF-8, carries the variant's name as its [type] and reads back. *)
Class JsonLaws `{Json} : Prop :=
  json_roundtrip m s : json_to_string m = Some s →
    utf8_valid s = true
    ∧ ∃ v, json_from_str s = Some v ∧ json_type v = Some (message_type m)
           ∧ json_from_value v = Some m.

Module DecodeError.
Inductive t : Type := Malformed | UnknownType (type_name : str) | InvalidShape (s : InvalidMessageShape).
End DecodeError.

Module ReceiveError.
Inductive t : Type := Frame (e : FrameReadError.t) | Decode (e : DecodeError.t).
End ReceiveError.

Module SendError.
Inductive t : Type := Frame (e : FrameWriteError.t) | Encode.
End SendError.

Section Codec.
Context {json : Json}.

Definition encode (m : WorkerProtocolMessage.t) : option str := json_to_string m.

Definition decode (text : str) : result DecodeError.t WorkerProtocolMessage.t :=
  match json_from_str text with
  | None => Err DecodeError.Malformed
  | Some value =>
      match json_type value with
      | Some type_name =>
          if bool_decide (type_name ∉ KNOWN_MESSAGE_TYPES)
          then Err (DecodeError.UnknownType type_name)
          else
            match json_from_value value with
            | None => Err DecodeError.Malformed
            | Some message =>
                match WorkerProtocolMessage.validate_shape message with
                | Err s => Err (DecodeError.InvalidShape s)
                | Ok _ => Ok message
                end
            end
      | None =>
          match json_from_value value with
          | None => Err DecodeError.Malformed
          | Some message =>
              match WorkerProtocolMessage.validate_shape message with
              | Err s => Err (DecodeError.InvalidShape s)
              | Ok _ => Ok message
              end
          end
      end
  end.

Definition receive (r : Reader) : result ReceiveError.t WorkerProtocolMessage.t * Reader :=
  match read_frame r with
  | (Err e, r') => (Err (ReceiveError.Frame e), r')
  | (Ok payload, r') =>
      if utf8_valid payload then (map_err ReceiveError.Decode (decode payload), r')
      else (Err (ReceiveError.Frame FrameReadError.InvalidUtf8), r')
  end.

Definition send (w : Writer) (m : WorkerProtocolMessage.t) : result SendError.t unit * Writer :=
  match encode m with
  | None => (Err SendError.Encode, w)
  | Some text =>
      let '(r, w') := write_frame w text in (map_err SendError.Frame r, w')
  end.
End Codec.

(** ** Frames *)

(** A frame on the wire. *)
Definition framed (payload : list byte) : list byte :=
  be_bytes 4 (N.of_nat (length payload)) ++ payload.

(** Payloads a frame may carry. *)
Definition fits (payload : list byte) : Prop :=
  (N.of_nat (length payload) ≤ MAX_FRAME_PAYLOAD_BYTES)%N.

Lemma read_exact_app n l rest e :
  length l = n →
  read_exact_or_eof n {| rd_bytes := l ++ rest; rd_end := e |}
    = (Ok l, {| rd_bytes := rest; rd_end := e |}).
Proof.
  intros <-. unfold read_exact_or_eof. cbn [rd_bytes rd_end]. case_match eqn:Hn.
  - apply Nat.eqb_eq in Hn. by destruct l.
  - rewrite (proj2 (Nat.leb_le _ _)) by (rewrite length_app; lia).
    by rewrite take_app_length, drop_app_length.
Qed.

Lemma read_exact_Ok n r l r' :
  read_exact_or_eof n r = (Ok l, r') →
  length l = n ∧ rd_bytes r = l ++ rd_bytes r' ∧ rd_end r' = rd_end r.
Proof.
  unfold read_exact_or_eof. case_match eqn:Hn.
  - apply Nat.eqb_eq in Hn. by intros [= <- <-].
  - case_match eqn:Hle; [|done]. apply Nat.leb_le in Hle. intros [= <- <-]. simpl.
    rewrite length_take, take_drop. split; [lia|done].
Qed.

Lemma read_exact_Err n r err r' :
  read_exact_or_eof n r = (Err err, r') →
  rd_bytes r' = []
  ∧ err = match rd_end r with StreamEnd.UnexpectedEof => FrameReadError.Eof
                            | StreamEnd.OtherError => FrameReadError.Io end.
Proof. unfold read_exact_or_eof. case_match; [done|]. case_match; [done|]. by intros [= <- <-]. Qed.

Lemma frame_prefix payload :
  fits payload → from_be (be_bytes 4 (N.of_nat (length payload))) = N.of_nat (length payload).
Proof.
  unfold fits, MAX_FRAME_PAYLOAD_BYTES. intros. apply from_be_bytes_small.
  change (256 ^ N.of_nat 4)%N with 4294967296%N. lia.
Qed.

Lemma read_framed payload rest e :
  fits payload →
  read_frame {| rd_bytes := framed payload ++ rest; rd_end := e |}
    = (Ok payload, {| rd_bytes := rest; rd_end := e |}).
Proof.
  intros Hf. unfold read_frame, framed. rewrite <-app_assoc, read_exact_app
    by (by rewrite length_be_bytes).
  rewrite frame_prefix by done.
  rewrite (proj2 (N.ltb_ge _ _)) by done. rewrite Nat2N.id. by apply read_exact_app.
Qed.

Lemma write_framed w payload :
  fits payload → wr_room w = None → wr_flushes w = true →
  write_frame w payload
    = (Ok (), {| wr_written := wr_written w ++ framed payload; wr_room := None; wr_flushes := true |}).
Proof.
  intros Hf Hr Hfl. unfold write_frame, fits in *.
  rewrite (proj2 (N.ltb_ge _ _)) by done. unfold write_all. rewrite Hr. cbn -[be_bytes].
  rewrite Hfl. unfold framed. by rewrite app_assoc.
Qed.

(** [read_frame] accepts exactly the frames, and what it returns is what was framed. *)
Lemma read_frame_exact r payload r' :
  read_frame r = (Ok payload, r') ↔
  rd_bytes r = framed payload ++ rd_bytes r' ∧ fits payload ∧ rd_end r' = rd_end r.
Proof.
  split.
  - unfold read_frame. destruct (read_exact_or_eof LENGTH_PREFIX_BYTES r) as [[p|e] r1] eqn:Hp; [|done].
    apply read_exact_Ok in Hp as (Hlen & Hb & He). case_match eqn:Hmax; [done|].
    apply N.ltb_ge in Hmax. intros (Hlen' & Hb' & He')%read_exact_Ok.
    rewrite Hb, Hb', He'. unfold fits, framed. rewrite Hlen', N2Nat.id.
    split; [|done]. rewrite <-app_assoc. f_equal. rewrite <-(be_bytes_from_be p) at 1.
    by rewrite Hlen.
  - destruct r as [b e], r' as [b' e']. simpl. intros (-> & Hf & ->). by apply read_framed.
Qed.

(** ** Messages on a stream *)

Lemma message_type_known m : message_type m ∈ KNOWN_MESSAGE_TYPES.
Proof. destruct m; apply (bool_decide_eq_true_1 _); vm_compute; reflexivity. Qed.

Section Streams.
Context {json : Json} {jl : JsonLaws}.

(** A message that can be sent: it is legal, it is printable and it fits a frame. *)
Definition sendable (m : WorkerProtocolMessage.t) : Prop :=
  WorkerProtocolMessage.validate_shape m = Ok ()
  ∧ ∃ s, json_to_string m = Some s ∧ fits s.

Lemma decode_encoded m s :
  json_to_string m = Some s → WorkerProtocolMessage.validate_shape m = Ok () → decode s = Ok m.
Proof.
  intros (_ & v & Hv & Ht & Hm)%json_roundtrip Hs. unfold decode. rewrite Hv, Ht, Hm, Hs.
  rewrite bool_decide_eq_false_2; [done|]. intros []. apply message_type_known.
Qed.

(** Whatever arrives as a message is legal and of a known type. *)
Lemma decode_legal s m : decode s = Ok m → WorkerProtocolMessage.validate_shape m = Ok ().
Proof. unfold decode. intros. repeat case_match; simplify_eq; by repeat match goal with u : unit |- _ => destruct u end. Qed.

(** [send] over messages, and [receive] until the stream is used up. *)
Fixpoint send_all (w : Writer) (ms : list WorkerProtocolMessage.t) : Writer :=
  match ms with [] => w | m :: ms' => send_all (send w m).2 ms' end.

Fixpoint receive_n (n : nat) (r : Reader)
  : list (result ReceiveError.t WorkerProtocolMessage.t) * Reader :=
  match n with
  | O => ([], r)
  | S n' =>
      let '(x, r1) := receive r in
      let '(xs, r2) := receive_n n' r1 in (x :: xs, r2)
  end.

Lemma send_sendable w m s :
  json_to_string m = Some s → fits s → wr_room w = None → wr_flushes w = true →
  send w m = (Ok (), {| wr_written := wr_written w ++ framed s; wr_room := None; wr_flushes := true |}).
Proof. intros Hs Hf Hr Hfl. unfold send, encode. by rewrite Hs, write_framed. Qed.

Lemma receive_framed m s rest e :
  json_to_string m = Some s → fits s → WorkerProtocolMessage.validate_shape m = Ok () →
  receive {| rd_bytes := framed s ++ rest; rd_end := e |} = (Ok m, {| rd_bytes := rest; rd_end := e |}).
Proof.
  intros Hs Hf Hv. unfold receive. rewrite read_framed by done.
  destruct (json_roundtrip m s Hs) as [-> _]. by rewrite (decode_encoded m s).
Qed.

(** What a writer that accepts everything has sent is a sequence of frames. *)
Lemma send_all_frames w ms :
  Forall sendable ms → wr_room w = None → wr_flushes w = true →
  ∃ ss, Forall2 (λ m s, json_to_string m = Some s ∧ fits s
                        ∧ WorkerProtocolMessage.validate_shape m = Ok ()) ms ss
        ∧ wr_written (send_all w ms) = wr_written w ++ concat (framed <$> ss).
Proof.
  intros Hms. revert w. induction Hms as [|m ms (Hv & s & Hs & Hf) _ IH]; intros w Hr Hfl.
  - exists []. simpl. by rewrite app_nil_r.
  - simpl. rewrite (send_sendable w m s) by done. simpl.
    destruct (IH {| wr_written := wr_written w ++ framed s; wr_room := None; wr_flushes := true |}
                 eq_refl eq_refl) as (ss & Hss & ->).
    exists (s :: ss). split; [by constructor|]. simpl. by rewrite <-app_assoc.
Qed.

Lemma receive_frames ms ss rest e :
  Forall2 (λ m s, json_to_string m = Some s ∧ fits s
                  ∧ WorkerProtocolMessage.validate_shape m = Ok ()) ms ss →
  receive_n (length ms) {| rd_bytes := concat (framed <$> ss) ++ rest; rd_end := e |}
    = (Ok <$> ms, {| rd_bytes := rest; rd_end := e |}).
Proof.
  induction 1 as [|m s ms ss (Hs & Hf & Hv) _ IH]; [done|]. cbn -[framed].
  rewrite <-app_assoc, (receive_framed m s) by done. by rewrite IH.
Qed.
End Streams.

(** C38. What one side sends the other receives. Any sequence of legal messages whose
    printed form fits a frame, sent one after the other on a stream that takes them,
    arrives as exactly these messages in this order, and the stream stands right behind
    the last frame, whatever follows. *)
Theorem worker_stream_roundtrip `{JsonLaws} (ms : list WorkerProtocolMessage.t) (rest : list byte)
    (e : StreamEnd.t) :
  Forall sendable ms →
  receive_n (length ms)
    {| rd_bytes := wr_written (send_all {| wr_written := []; wr_room := None; wr_flushes := true |} ms)
                   ++ rest;
       rd_end := e |}
  = (Ok <$> ms, {| rd_bytes := rest; rd_end := e |}).
Proof.
  intros Hms. edestruct (send_all_frames {| wr_written := []; wr_room := None; wr_flushes := true |}
    ms Hms eq_refl eq_refl) as (ss & Hss & ->). by apply receive_frames.
Qed.

(** Reading a frame is exact and bounded. A payload is returned exactly when the
    stream starts with its frame, and it has at most 1 MiB. A prefix that announces more is
    refused with only its four bytes read. Every other failure means that no complete
    frame is there, and the stream is used up. *)
Theorem frame_reading_exact (r : Reader) :
  match read_frame r with
  | (Ok payload, r') =>
      rd_bytes r = framed payload ++ rd_bytes r' ∧ fits payload
  | (Err (FrameReadError.OversizedFrame declared max), r') =>
      ∃ prefix, length prefix = 4 ∧ rd_bytes r = prefix ++ rd_bytes r'
        ∧ declared = from_be prefix ∧ max = MAX_FRAME_PAYLOAD_BYTES ∧ (max < declared)%N
  | (Err err, r') =>
      rd_bytes r' = []
      ∧ err = match rd_end r with StreamEnd.UnexpectedEof => FrameReadError.Eof
                                | StreamEnd.OtherError => FrameReadError.Io end
      ∧ ∀ payload rest, fits payload → rd_bytes r ≠ framed payload ++ rest
  end.
Proof.
  destruct (read_frame r) as [[payload|err] r'] eqn:Hr.
  { apply read_frame_exact in Hr as (? & ? & ?). done. }
  assert (∀ payload rest, fits payload → rd_bytes r ≠ framed payload ++ rest) as Hno.
  { intros payload rest Hf Hb.
    assert (read_frame r = (Ok payload, {| rd_bytes := rest; rd_end := rd_end r |})) as Hr'
      by (by apply read_frame_exact). congruence. }
  revert Hr. unfold read_frame.
  destruct (read_exact_or_eof LENGTH_PREFIX_BYTES r) as [[p|e1] r1] eqn:Hp.
  - apply read_exact_Ok in Hp as (Hlen & Hb & He). case_match eqn:Hmax.
    + intros [= <- <-]. exists p. by apply N.ltb_lt in Hmax.
    + intros Hp%read_exact_Err. rewrite He in Hp. destruct Hp as [-> ->].
      by destruct (rd_end r).
  - intros [= <- <-]. apply read_exact_Err in Hp as [-> ->]. by destruct (rd_end r).
Qed.
