(* ===== verification/WorkerOperations.v ===== *)
(** * Connection generations and transient operation handles

    Models [crates/server/src/runtime/worker_authority.rs] and
    [transient_worker_operations.rs]: the registry of the one current Worker connection,
    and the store in which that connection keeps the handles and cursors it has issued.
    Every operation of the store runs under the registry's lock in shared mode, after the
    check that the store's generation is current; supersession takes that lock
    exclusively. So an operation is one step that reads the registry and changes only its
    own store. [begin_generation] increments its counter before it takes the lock, and is
    two steps, [fetch_generation] and [install_generation]. *)

From stdpp Require Import prelude gmap strings.
From Stdlib Require Import Strings.Byte NArith.
From S2P Require Import Prelude.
From S2P Require Import External.
From S2P Require Import Transfer.

(** ** The registry *)

Abbreviation ConnectionGeneration := N.

Module WorkerControlState.
Inductive t : Type :=
| NoConnection
| Active (generation : ConnectionGeneration) (worker_instance_id : Uuid).

Definition is_available (s : t) : bool := match s with Active _ _ => true | NoConnection => false end.
End WorkerControlState.

(** [observed_operations] is a weak reference to a store; the generation that owns the
    store stands for it. *)
Record WorkerAuthorityRegistry : Type := {
  wa_state : WorkerControlState.t;
  wa_observed_operations : option ConnectionGeneration;
  wa_operations_capacity : nat;
  wa_next_generation : N;
}.

Definition WorkerAuthorityRegistry_with_operations_capacity (operations_capacity : nat)
  : WorkerAuthorityRegistry := {|
  wa_state := WorkerControlState.NoConnection;
  wa_observed_operations := None;
  wa_operations_capacity := operations_capacity `max` 1;
  wa_next_generation := 1;
|}.

Definition is_current (reg : WorkerAuthorityRegistry) (generation : ConnectionGeneration) : bool :=
  match wa_state reg with
  | WorkerControlState.Active current _ => bool_decide (current = generation)
  | WorkerControlState.NoConnection => false
  end.

(** [linearized_on]: [critical] runs if and only if [generation] is current. *)
Definition linearized_on {T} (reg : WorkerAuthorityRegistry) (generation : ConnectionGeneration)
    (critical : T) : option T :=
  match wa_state reg with
  | WorkerControlState.Active current _ =>
      if bool_decide (current = generation) then Some critical else None
  | WorkerControlState.NoConnection => None
  end.

(** [next_generation.fetch_add(1)], a [u64] that wraps. *)
Definition fetch_generation (reg : WorkerAuthorityRegistry)
  : ConnectionGeneration * WorkerAuthorityRegistry :=
  (wa_next_generation reg,
   {| wa_state := wa_state reg; wa_observed_operations := wa_observed_operations reg;
      wa_operations_capacity := wa_operations_capacity reg;
      wa_next_generation := (wa_next_generation reg + 1) mod 2 ^ 64 |}).

Definition install_generation (reg : WorkerAuthorityRegistry) (generation : ConnectionGeneration)
    (worker_instance_id : Uuid) : WorkerAuthorityRegistry := {|
  wa_state := WorkerControlState.Active generation worker_instance_id;
  wa_observed_operations := None;
  wa_operations_capacity := wa_operations_capacity reg;
  wa_next_generation := wa_next_generation reg;
|}.

(** [begin_generation], undisturbed. *)
Definition begin_generation (reg : WorkerAuthorityRegistry) (worker_instance_id : Uuid)
  : ConnectionGeneration * WorkerAuthorityRegistry :=
  let '(generation, reg1) := fetch_generation reg in
  (generation, install_generation reg1 generation worker_instance_id).

Definition end_generation (reg : WorkerAuthorityRegistry) (generation : ConnectionGeneration)
  : WorkerAuthorityRegistry :=
  match wa_state reg with
  | WorkerControlState.Active current _ =>
      if bool_decide (current = generation)
      then {| wa_state := WorkerControlState.NoConnection; wa_observed_operations := None;
              wa_operations_capacity := wa_operations_capacity reg;
              wa_next_generation := wa_next_generation reg |}
      else reg
  | WorkerControlState.NoConnection => reg
  end.

Definition set_current_operations (reg : WorkerAuthorityRegistry)
    (generation store : ConnectionGeneration) : WorkerAuthorityRegistry :=
  default reg (linearized_on reg generation
    {| wa_state := wa_state reg; wa_observed_operations := Some store;
       wa_operations_capacity := wa_operations_capacity reg;
       wa_next_generation := wa_next_generation reg |}).

(** ** Bindings *)

Module TransientOperationError.
Inductive t : Type :=
| Saturated | IdCollision | StaleGeneration | UnknownHandle | WrongKind | BindingMismatch.
#[global] Instance t_eq_dec : EqDecision t.
Proof. solve_decision. Defined.
End TransientOperationError.

Module HandleKind.
Inductive t : Type := Acceptance | Verification | ResumeCursor.

Definition prefix (k : t) : str :=
  match k with
  | Acceptance => lit "acc"
  | Verification => lit "ver"
  | ResumeCursor => lit "res"
  end.
End HandleKind.

Record AcceptanceBinding : Type := {
  ab_transfer_id : TransferId;
  ab_chunk_index : N;
  ab_proof_id : str;
}.

Record VerificationBinding : Type := {
  vb_transfer_id : TransferId;
  vb_artifact_id : ArtifactId;
  vb_chunk_count : N;
  vb_expected_artifact_digest : str;
  vb_proof_id : str;
}.

Record ResumeCursorState : Type := {
  rcs_snapshot_id : Uuid;
  rcs_next_chunk_index : N;
}.

Record ResumeCursorBinding : Type := {
  rcb_transfer_id : TransferId;
  rcb_proof_id : str;
  rcb_state : ResumeCursorState;
}.

Module Binding.
Inductive t : Type :=
| Acceptance (b : AcceptanceBinding)
| Verification (b : VerificationBinding)
| ResumeCursor (b : ResumeCursorBinding).
End Binding.

Record HeldChunkEntry : Type := { hce_chunk_index : N; hce_digest : str }.

Record ResumeSnapshot : Type := {
  rsn_transfer_id : TransferId;
  rsn_sealed : bool;
  rsn_digest_algorithm : DigestAlgorithm.t;
  rsn_chunk_size : N;
  rsn_expected_chunk_count : option N;
  rsn_held : list HeldChunkEntry;
}.

(** ** The store of one generation *)

Definition DEFAULT_TRANSIENT_WORKER_OPERATION_STORE_CAPACITY : nat := 1024.
Definition DEFAULT_RESUME_SNAPSHOT_CAPACITY : nat := 64.
Definition MINT_ATTEMPTS : nat := 4.

Definition WorkerAuthorityRegistry_new : WorkerAuthorityRegistry :=
  WorkerAuthorityRegistry_with_operations_capacity
    DEFAULT_TRANSIENT_WORKER_OPERATION_STORE_CAPACITY.

Record TransientWorkerOperationStore : Type := {
  st_generation : ConnectionGeneration;
  st_capacity : nat;
  st_resume_snapshot_capacity : nat;
  st_bindings : gmap str Binding.t;
  st_resume_snapshots : gmap Uuid ResumeSnapshot;
}.

Definition TransientWorkerOperationStore_new (generation : ConnectionGeneration) (capacity : nat)
  : TransientWorkerOperationStore := {|
  st_generation := generation;
  st_capacity := capacity `max` 1;
  st_resume_snapshot_capacity := DEFAULT_RESUME_SNAPSHOT_CAPACITY;
  st_bindings := ∅;
  st_resume_snapshots := ∅;
|}.

(** [with_resume_snapshot_capacity]: at least one. *)
Definition with_resume_snapshot_capacity (s : TransientWorkerOperationStore) (n : nat)
  : TransientWorkerOperationStore := {|
  st_generation := st_generation s; st_capacity := st_capacity s;
  st_resume_snapshot_capacity := n `max` 1;
  st_bindings := st_bindings s; st_resume_snapshots := st_resume_snapshots s |}.

Definition with_bindings_map (s : TransientWorkerOperationStore) (m : gmap str Binding.t)
  : TransientWorkerOperationStore := {|
  st_generation := st_generation s; st_capacity := st_capacity s;
  st_resume_snapshot_capacity := st_resume_snapshot_capacity s;
  st_bindings := m; st_resume_snapshots := st_resume_snapshots s |}.

Definition with_snapshots_map (s : TransientWorkerOperationStore) (m : gmap Uuid ResumeSnapshot)
  : TransientWorkerOperationStore := {|
  st_generation := st_generation s; st_capacity := st_capacity s;
  st_resume_snapshot_capacity := st_resume_snapshot_capacity s;
  st_bindings := st_bindings s; st_resume_snapshots := m |}.

Section Store.
Context {ent : Entropy} {simple : UuidSimple}.

(** [csprng_id_source]. *)
Definition csprng_id_source (kind : HandleKind.t) : Gen str :=
  id ← new_v4; mret (HandleKind.prefix kind ++ lit "_" ++ uuid_simple id).

(** The loops that look for an identity not in use. *)
Fixpoint choose {A} (attempts : nat) (source : Gen A) (taken : A → bool) : Gen (option A) :=
  match attempts with
  | O => mret None
  | S n =>
      candidate ← source;
      if taken candidate then choose n source taken else mret (Some candidate)
  end.

Definition in_use {V} (m : gmap str V) (id : str) : bool := bool_decide (is_Some (m !! id)).

Implicit Types (reg : WorkerAuthorityRegistry) (s : TransientWorkerOperationStore).

(** [with_bindings] and [with_snapshots]: nothing happens once the generation is stale. *)
Definition with_current {A} reg s
    (op : Gen (TransientWorkerOperationStore * result TransientOperationError.t A))
  : Gen (TransientWorkerOperationStore * result TransientOperationError.t A) :=
  default (mret (s, Err TransientOperationError.StaleGeneration))
    (linearized_on reg (st_generation s) op).

Definition insert_fresh reg s (kind : HandleKind.t) (binding : Binding.t)
  : Gen (TransientWorkerOperationStore * result TransientOperationError.t str) :=
  with_current reg s
    (if (st_capacity s <=? size (st_bindings s))%nat
     then mret (s, Err TransientOperationError.Saturated)
     else
       chosen ← choose MINT_ATTEMPTS (csprng_id_source kind) (in_use (st_bindings s));
       match chosen with
       | None => mret (s, Err TransientOperationError.IdCollision)
       | Some id => mret (with_bindings_map s (<[id := binding]> (st_bindings s)), Ok id)
       end).

Definition mint_acceptance reg s (binding : AcceptanceBinding) :=
  insert_fresh reg s HandleKind.Acceptance (Binding.Acceptance binding).
Definition mint_verification reg s (binding : VerificationBinding) :=
  insert_fresh reg s HandleKind.Verification (Binding.Verification binding).
Definition mint_resume_cursor reg s (binding : ResumeCursorBinding) :=
  insert_fresh reg s HandleKind.ResumeCursor (Binding.ResumeCursor binding).

Definition consume_acceptance reg s (handle : str) (transfer_id : TransferId) (chunk_index : N)
  : Gen (TransientWorkerOperationStore * result TransientOperationError.t AcceptanceBinding) :=
  with_current reg s (mret
    match st_bindings s !! handle with
    | None => (s, Err TransientOperationError.UnknownHandle)
    | Some (Binding.Acceptance b) =>
        if bool_decide (ab_transfer_id b = transfer_id) && bool_decide (ab_chunk_index b = chunk_index)
        then (with_bindings_map s (delete handle (st_bindings s)), Ok b)
        else (s, Err TransientOperationError.BindingMismatch)
    | Some _ => (s, Err TransientOperationError.WrongKind)
    end).

Definition consume_verification reg s (handle : str)
  : Gen (TransientWorkerOperationStore * result TransientOperationError.t VerificationBinding) :=
  with_current reg s (mret
    match st_bindings s !! handle with
    | None => (s, Err TransientOperationError.UnknownHandle)
    | Some (Binding.Verification b) =>
        (with_bindings_map s (delete handle (st_bindings s)), Ok b)
    | Some _ => (s, Err TransientOperationError.WrongKind)
    end).

(** The successor is chosen before the current cursor is removed. *)
Definition advance_resume_cursor reg s (cursor : str) (transfer_id : TransferId)
    (next : option ResumeCursorState)
  : Gen (TransientWorkerOperationStore * result TransientOperationError.t (option str)) :=
  with_current reg s
    match st_bindings s !! cursor with
    | None => mret (s, Err TransientOperationError.UnknownHandle)
    | Some (Binding.ResumeCursor b) =>
        if negb (bool_decide (rcb_transfer_id b = transfer_id))
        then mret (s, Err TransientOperationError.BindingMismatch)
        else
          match next with
          | None => mret (with_bindings_map s (delete cursor (st_bindings s)), Ok None)
          | Some state =>
              chosen ← choose MINT_ATTEMPTS (csprng_id_source HandleKind.ResumeCursor)
                         (λ id, bool_decide (id = cursor) || in_use (st_bindings s) id);
              match chosen with
              | None => mret (s, Err TransientOperationError.IdCollision)
              | Some id =>
                  mret (with_bindings_map s
                          (<[id := Binding.ResumeCursor {| rcb_transfer_id := transfer_id;
                                                           rcb_proof_id := rcb_proof_id b;
                                                           rcb_state := state |}]>
                             (delete cursor (st_bindings s))), Ok (Some id))
              end
          end
    | Some _ => mret (s, Err TransientOperationError.WrongKind)
    end.

(** The reads. *)
Definition acceptance_binding reg s (handle : str) : option AcceptanceBinding :=
  linearized_on reg (st_generation s) (st_bindings s !! handle) ≫= λ b,
  match b with Some (Binding.Acceptance b) => Some b | _ => None end.
Definition verification_binding reg s (handle : str) : option VerificationBinding :=
  linearized_on reg (st_generation s) (st_bindings s !! handle) ≫= λ b,
  match b with Some (Binding.Verification b) => Some b | _ => None end.
Definition resume_cursor_binding reg s (cursor : str) : option ResumeCursorBinding :=
  linearized_on reg (st_generation s) (st_bindings s !! cursor) ≫= λ b,
  match b with Some (Binding.ResumeCursor b) => Some b | _ => None end.

Definition resume_snapshot reg s (snapshot_id : Uuid) : option ResumeSnapshot :=
  linearized_on reg (st_generation s) (st_resume_snapshots s !! snapshot_id) ≫= id.

Definition live_count reg s : nat :=
  default 0 (linearized_on reg (st_generation s) (size (st_bindings s))).

Definition live_resume_snapshot_count reg s : nat :=
  default 0 (linearized_on reg (st_generation s) (size (st_resume_snapshots s))).

Definition register_resume_snapshot reg s (snapshot : ResumeSnapshot)
  : Gen (TransientWorkerOperationStore * result TransientOperationError.t Uuid) :=
  with_current reg s
    (if (st_resume_snapshot_capacity s <=? size (st_resume_snapshots s))%nat
     then mret (s, Err TransientOperationError.Saturated)
     else
       chosen ← choose MINT_ATTEMPTS new_v4
                  (λ id, bool_decide (is_Some (st_resume_snapshots s !! id)));
       match chosen with
       | None => mret (s, Err TransientOperationError.IdCollision)
       | Some id =>
           mret (with_snapshots_map s (<[id := snapshot]> (st_resume_snapshots s)), Ok id)
       end).

Definition drop_resume_snapshot reg s (snapshot_id : Uuid) : TransientWorkerOperationStore :=
  default s (linearized_on reg (st_generation s)
    (with_snapshots_map s (delete snapshot_id (st_resume_snapshots s)))).
End Store.

(** ** Facts about the registry *)

Lemma linearized_on_is_current {T} reg g (c : T) :
  linearized_on reg g c = if is_current reg g then Some c else None.
Proof. unfold linearized_on, is_current. by destruct (wa_state reg). Qed.

Lemma is_current_Active reg g :
  is_current reg g = true ↔ ∃ i, wa_state reg = WorkerControlState.Active g i.
Proof.
  unfold is_current. destruct (wa_state reg); split; try naive_solver.
  - intros ->%bool_decide_eq_true. eauto.
  - intros [i [= -> ->]]. by apply bool_decide_eq_true_2.
Qed.

Lemma with_current_cases `{Entropy} {A} reg s
    (op : Gen (TransientWorkerOperationStore * result TransientOperationError.t A)) k :
  with_current reg s op k
    = if is_current reg (st_generation s) then op k
      else ((s, Err TransientOperationError.StaleGeneration), k).
Proof. unfold with_current. rewrite linearized_on_is_current. by destruct (is_current _ _). Qed.


Lemma choose_untaken {A} n (source : Gen A) taken k a k' :
  choose n source taken k = (Some a, k') → taken a = false.
Proof.
  revert k. induction n as [|n IH]; intros k; [done|]. cbn [choose].
  unfold mbind, gen_bind, mret, gen_ret. destruct (source k) as [x k1].
  destruct (taken x) eqn:Ht; [apply IH|]. by intros [= <- _].
Qed.
