(* ===== verification/WorkerControl.v ===== *)
(** * The server's side of the Worker control plane

    Models [crates/server/src/adapters/worker_control_plane.rs]: the handshake, the
    request loop of a connection and its handlers, over the registry and the stores of
    [WorkerOperations], the messages of [WorkerProtocol] and the data-plane services of
    [TransferStore] and [TransferAuth].

    Connections are tasks that run in parallel. A handler is a program, [proc], whose
    atomic actions are calls: one service call, one operation of the connection's store,
    one message received or sent. Each call takes effect at once on the shared state; any
    number of steps of other connections, and of the rest of the server, may lie between
    two calls of a handler. A task can also be dropped where it waits; its guard then ends
    its generation. Listening, the socket file and its permissions are input and output
    and are left out. *)

From stdpp Require Import prelude gmap strings.
From Stdlib Require Import Strings.Byte NArith ZArith.
From S2P Require Import Prelude.
From S2P Require Import External.
From S2P Require Import Endpoint.
From S2P Require Import EnrollmentStore.
From S2P Require Import Job.
From S2P Require Import Transfer.
From S2P Require Import JobServices.
From S2P Require Import TransferAuth.
From S2P Require Import TransferStore.
From S2P Require Import TransferEvidence.
From S2P Require Import WorkerProtocol.
From S2P Require Import WorkerFraming.
From S2P Require Import WorkerOperations.

(** The text of [{:?}] of a string: the standard library's table of printable characters
    decides what it escapes. *)
Class StrDebug : Type := str_debug : str → str.

(** ** Calls and programs *)

(** What the [select!] of the request loop yields. *)
Module Incoming.
Inductive t : Type :=
| Received (r : result ReceiveError.t WorkerProtocolMessage.t)
| ShutdownChanged (shutdown : bool).
End Incoming.

Module Call.
Inductive t : Type :=
| Stamp
| Receive
| Send (m : WorkerProtocolMessage.t)
| Decide (input : WorkerAuthorizationQueryInput)
| AuthorizeResumeDiscovery (input : WorkerAuthorizationQueryInput)
| CommitChunkAcceptance (transfer_id : TransferId) (chunk_index : N) (digest : str) (size : N)
| CommitManifestSeal (input : ManifestSealInput)
| CommitArtifactVerification (input : ArtifactVerificationInput)
| MintAcceptance (b : AcceptanceBinding)
| ConsumeAcceptance (handle : str) (transfer_id : TransferId) (chunk_index : N)
| MintVerification (b : VerificationBinding)
| ConsumeVerification (handle : str)
| RegisterResumeSnapshot (s : ResumeSnapshot)
| MintResumeCursor (b : ResumeCursorBinding)
| GetResumeCursorBinding (cursor : str)
| GetResumeSnapshot (snapshot_id : Uuid)
| AdvanceResumeCursor (cursor : str) (transfer_id : TransferId) (next : option ResumeCursorState)
| DropResumeSnapshot (snapshot_id : Uuid).

(** [Stamp] gives a message constructor its place in the sequence of draws. *)
Definition answer (c : t) : Type :=
  match c with
  | Stamp => nat
  | Receive => Incoming.t
  | Send _ => bool
  | Decide _ => result Backend.t WorkerAuthorizationOutcome.t
  | AuthorizeResumeDiscovery _ => result Backend.t ResumeAuthorizationOutcome.t
  | CommitChunkAcceptance _ _ _ _ => result TransferError.t ChunkAcceptanceCommit.t
  | CommitManifestSeal _ => result TransferError.t ManifestSealCommit.t
  | CommitArtifactVerification _ => result TransferError.t ArtifactVerificationCommit.t
  | MintAcceptance _ | MintVerification _ | MintResumeCursor _ =>
      result TransientOperationError.t str
  | ConsumeAcceptance _ _ _ => result TransientOperationError.t AcceptanceBinding
  | ConsumeVerification _ => result TransientOperationError.t VerificationBinding
  | RegisterResumeSnapshot _ => result TransientOperationError.t Uuid
  | GetResumeCursorBinding _ => option ResumeCursorBinding
  | GetResumeSnapshot _ => option ResumeSnapshot
  | AdvanceResumeCursor _ _ _ => result TransientOperationError.t (option str)
  | DropResumeSnapshot _ => unit
  end.
End Call.

(** A task: finished, panicking, or about to make a call. *)
Inductive proc (A : Type) : Type :=
| Ret (a : A)
| Panic
| Do (c : Call.t) (k : Call.answer c → proc A).
Arguments Ret {A} a.
Arguments Panic {A}.
Arguments Do {A} c k.

#[global] Instance proc_ret : MRet proc := λ A a, Ret a.
#[global] Instance proc_bind : MBind proc := λ A B f,
  fix bind p := match p with
                | Ret a => f a
                | Panic => Panic
                | Do c k => Do c (λ r, bind (k r))
                end.

#[global] Instance proc_fmap : FMap proc := λ A B f p, p ≫= λ a, Ret (f a).

Definition call (c : Call.t) : proc (Call.answer c) := Do c Ret.

(** A message constructor draws the message identity. *)
Definition stamp {B} (constructor : Gen (Message B)) : proc (Message B) :=
  k ← call Call.Stamp; mret (constructor k).1.

(** Indexing and slicing, which panic out of range; [u64] addition of one. *)
Definition index_at {A} (l : list A) (i : nat) : proc A :=
  match l !! i with Some a => Ret a | None => Panic end.
Definition slice {A} (l : list A) (from to : nat) : proc (list A) :=
  if (from <=? to)%nat && (to <=? length l)%nat then Ret (take (to - from) (drop from l)) else Panic.
Definition u64_succ (n : N) : N := ((n + 1) mod 2 ^ 64)%N.

(** [partition_point] of a list that [pred] splits: the length of the part it holds on. *)
Fixpoint partition_point {A} (pred : A → bool) (l : list A) : nat :=
  match l with
  | [] => 0
  | a :: l' => if pred a then S (partition_point pred l') else 0
  end.

Definition RESUME_PAGE_MAX_HELD_CHUNKS : nat := N.to_nat 8192.
Definition MAX_CONSECUTIVE_ACCEPT_ERRORS : N := 10.
Definition accept_failure_is_terminal (consecutive_failures : N) : bool :=
  (MAX_CONSECUTIVE_ACCEPT_ERRORS <=? consecutive_failures)%N.

Definition to_wire_digest_algorithm (a : DigestAlgorithm.t) : WireDigestAlgorithm.t :=
  match a with DigestAlgorithm.Sha256 => WireDigestAlgorithm.Sha256 end.

Definition held_chunk_wire (entry : HeldChunkEntry) : HeldChunk :=
  {| hc_chunk_index := hce_chunk_index entry; hc_digest := hce_digest entry |}.

(** ** Handlers *)

Section Handlers.
Context {ent : Entropy}.

Definition decide_authorization_query (query : Message AuthorizationQueryBody)
  : proc (Message AuthorizationDecisionBody) :=
  let q := body query in
  let request_id := env_message_id (envelope query) in
  outcome ← call (Call.Decide {|
    wq_token := aq_token q; wq_operation := AuthorizationOperation.ChunkUpload;
    wq_transfer_id := aq_transfer_id q; wq_chunk_index := Some (aq_chunk_index q);
    wq_proof_id := aq_proof_id q; wq_issued_at_millis := aq_issued_at q;
    wq_signature := aq_signature q |});
  match outcome with
  | Ok (WorkerAuthorizationOutcome.Approved digest_algorithm chunk_size expected_chunk_digest) =>
      minted ← call (Call.MintAcceptance {|
        ab_transfer_id := aq_transfer_id q; ab_chunk_index := aq_chunk_index q;
        ab_proof_id := aq_proof_id q |});
      match minted with
      | Ok acceptance_handle =>
          stamp (AuthorizationDecisionMessage_approved request_id
                   (to_wire_digest_algorithm digest_algorithm) chunk_size acceptance_handle
                   expected_chunk_digest)
      | Err _ => stamp (AuthorizationDecisionMessage_denied request_id)
      end
  | Ok WorkerAuthorizationOutcome.Denied | Err _ =>
      stamp (AuthorizationDecisionMessage_denied request_id)
  end.

Definition handle_chunk_acceptance (request : Message ChunkAcceptanceRequestBody)
  : proc (option (Message ChunkAcceptanceDecisionBody)) :=
  let r := body request in
  let in_reply_to := env_message_id (envelope request) in
  consumed ← call (Call.ConsumeAcceptance (car_acceptance_handle r) (car_transfer_id r)
                     (car_chunk_index r));
  match consumed with
  | Err _ => mret None
  | Ok binding =>
      commit ← call (Call.CommitChunkAcceptance (car_transfer_id r) (car_chunk_index r)
                       (car_digest r) (car_size r));
      match commit with
      | Ok ChunkAcceptanceCommit.Committed =>
          Some <$> stamp (ChunkAcceptanceDecisionMessage_committed in_reply_to)
      | Ok ChunkAcceptanceCommit.AlreadyCommitted =>
          Some <$> stamp (ChunkAcceptanceDecisionMessage_already_committed in_reply_to)
      | Ok ChunkAcceptanceCommit.RejectedConflict =>
          Some <$> stamp (ChunkAcceptanceDecisionMessage_rejected in_reply_to
                            ChunkAcceptanceRejectionReason.ChunkIdentityConflict)
      | Ok ChunkAcceptanceCommit.RejectedNotContinuable =>
          Some <$> stamp (ChunkAcceptanceDecisionMessage_rejected in_reply_to
                            ChunkAcceptanceRejectionReason.TransferNotContinuable)
      | Ok ChunkAcceptanceCommit.FailClosed | Err _ => mret None
      end
  end.

Definition handle_manifest_seal (request : Message ManifestSealRequestBody)
  : proc (option (Message ManifestSealDecisionBody)) :=
  let r := body request in
  let in_reply_to := env_message_id (envelope request) in
  let finish (outcome_is_sealed : bool) (facts : SealedManifestDurableFacts) :=
    minted ← call (Call.MintVerification {|
      vb_transfer_id := msr_transfer_id r; vb_artifact_id := sm_artifact_id facts;
      vb_chunk_count := sm_chunk_count facts;
      vb_expected_artifact_digest := sm_expected_artifact_digest facts;
      vb_proof_id := msr_proof_id r |});
    match minted with
    | Err _ => mret None
    | Ok verification_handle =>
        let sealed_facts := {|
          smf_verification_handle := verification_handle;
          smf_artifact_id := sm_artifact_id facts;
          smf_digest_algorithm := to_wire_digest_algorithm (sm_digest_algorithm facts);
          smf_chunk_size := sm_chunk_size facts; smf_chunk_count := sm_chunk_count facts;
          smf_expected_artifact_digest := sm_expected_artifact_digest facts |} in
        Some <$> stamp (if outcome_is_sealed
                        then ManifestSealDecisionMessage_sealed in_reply_to sealed_facts
                        else ManifestSealDecisionMessage_already_pending_verification in_reply_to
                               sealed_facts)
    end in
  commit ← call (Call.CommitManifestSeal {|
    ms_token := msr_token r; ms_transfer_id := msr_transfer_id r; ms_proof_id := msr_proof_id r;
    ms_issued_at_millis := msr_issued_at r; ms_signature := msr_signature r;
    ms_chunk_count := msr_chunk_count r; ms_artifact_digest := msr_artifact_digest r |});
  match commit with
  | Err _ => mret None
  | Ok (ManifestSealCommit.Sealed facts) => finish true facts
  | Ok (ManifestSealCommit.AlreadyPending facts) => finish false facts
  | Ok ManifestSealCommit.RejectedIncomplete =>
      Some <$> stamp (ManifestSealDecisionMessage_rejected in_reply_to
                        ManifestSealRejectionReason.IncompleteManifest)
  | Ok ManifestSealCommit.RejectedAlreadySealed =>
      Some <$> stamp (ManifestSealDecisionMessage_rejected in_reply_to
                        ManifestSealRejectionReason.ManifestAlreadySealed)
  | Ok ManifestSealCommit.Denied =>
      Some <$> stamp (ManifestSealDecisionMessage_denied in_reply_to)
  | Ok ManifestSealCommit.FailClosed => mret None
  end.

Definition handle_artifact_verification (report : Message ArtifactVerificationReportBody)
  : proc (option (Message ArtifactVerificationAckBody)) :=
  let in_reply_to := env_message_id (envelope report) in
  consumed ← call (Call.ConsumeVerification (avr_verification_handle (body report)));
  match consumed with
  | Err _ => mret None
  | Ok binding =>
      commit ← call (Call.CommitArtifactVerification {|
        av_transfer_id := vb_transfer_id binding; av_artifact_id := vb_artifact_id binding;
        av_chunk_count := vb_chunk_count binding;
        av_bound_expected_artifact_digest := vb_expected_artifact_digest binding;
        av_computed_artifact_digest := avr_computed_artifact_digest (body report) |});
      match commit with
      | Ok (ArtifactVerificationCommit.Committed verified) =>
          Some <$> stamp (ArtifactVerificationAckMessage_committed in_reply_to
                            (if verified then WireArtifactStatus.Verified
                             else WireArtifactStatus.Failed))
      | Ok ArtifactVerificationCommit.FailClosed | Err _ => mret None
      end
  end.

Definition handle_resume_discovery_query (page_size : nat)
    (query : Message ResumeDiscoveryQueryBody) : proc (Message ResumeDiscoveryPageBody) :=
  let q := body query in
  let in_reply_to := env_message_id (envelope query) in
  let transfer_id := rdq_transfer_id q in
  outcome ← call (Call.AuthorizeResumeDiscovery {|
    wq_token := rdq_token q; wq_operation := AuthorizationOperation.ResumeDiscovery;
    wq_transfer_id := rdq_transfer_id q; wq_chunk_index := None;
    wq_proof_id := rdq_proof_id q; wq_issued_at_millis := rdq_issued_at q;
    wq_signature := rdq_signature q |});
  match outcome with
  | Ok ResumeAuthorizationOutcome.Denied | Err _ =>
      stamp (ResumeDiscoveryPageMessage_denied in_reply_to)
  | Ok (ResumeAuthorizationOutcome.Approved snapshot) =>
      let algorithm := to_wire_digest_algorithm (rs_digest_algorithm snapshot) in
      let held := (λ h, {| hce_chunk_index := rh_chunk_index h; hce_digest := rh_digest_wire h |})
                    <$> rs_held snapshot in
      let page_end := page_size `min` length held in
      first ← slice held 0 page_end;
      let page cursor :=
        stamp (ResumeDiscoveryPageMessage_first_page in_reply_to transfer_id (rs_sealed snapshot)
                 algorithm (rs_chunk_size snapshot) (rs_expected_chunk_count snapshot)
                 (held_chunk_wire <$> first) cursor) in
      if negb (page_end <? length held)%nat then page None
      else
        last ← index_at held (page_end - 1);
        registered ← call (Call.RegisterResumeSnapshot {|
          rsn_transfer_id := transfer_id; rsn_sealed := rs_sealed snapshot;
          rsn_digest_algorithm := rs_digest_algorithm snapshot;
          rsn_chunk_size := rs_chunk_size snapshot;
          rsn_expected_chunk_count := rs_expected_chunk_count snapshot; rsn_held := held |});
        match registered with
        | Err _ => stamp (ResumeDiscoveryPageMessage_denied in_reply_to)
        | Ok snapshot_id =>
            minted ← call (Call.MintResumeCursor {|
              rcb_transfer_id := transfer_id; rcb_proof_id := rdq_proof_id q;
              rcb_state := {| rcs_snapshot_id := snapshot_id;
                              rcs_next_chunk_index := u64_succ (hce_chunk_index last) |} |});
            match minted with
            | Ok cursor => page (Some cursor)
            | Err _ =>
                _ ← call (Call.DropResumeSnapshot snapshot_id);
                stamp (ResumeDiscoveryPageMessage_denied in_reply_to)
            end
        end
  end.

Definition handle_resume_discovery_continue (page_size : nat)
    (cont : Message ResumeDiscoveryContinueBody) : proc (Message ResumeDiscoveryPageBody) :=
  let in_reply_to := env_message_id (envelope cont) in
  let cursor := rc_resume_cursor (body cont) in
  bound ← call (Call.GetResumeCursorBinding cursor);
  match bound with
  | None => stamp (ResumeDiscoveryPageMessage_denied in_reply_to)
  | Some binding =>
      let snapshot_id := rcs_snapshot_id (rcb_state binding) in
      let next_chunk_index := rcs_next_chunk_index (rcb_state binding) in
      found ← call (Call.GetResumeSnapshot snapshot_id);
      match found with
      | None => stamp (ResumeDiscoveryPageMessage_denied in_reply_to)
      | Some snapshot =>
          let held := rsn_held snapshot in
          let start := partition_point (λ e, hce_chunk_index e <? next_chunk_index)%N held in
          let stop := (start + page_size) `min` length held in
          part ← slice held start stop;
          if (stop <? length held)%nat then
            last ← index_at held (stop - 1);
            advanced ← call (Call.AdvanceResumeCursor cursor (rcb_transfer_id binding)
              (Some {| rcs_snapshot_id := snapshot_id;
                       rcs_next_chunk_index := u64_succ (hce_chunk_index last) |}));
            match advanced with
            | Ok (Some next_cursor) =>
                stamp (ResumeDiscoveryPageMessage_continuation_page in_reply_to
                         (held_chunk_wire <$> part) (Some next_cursor))
            | Ok None | Err _ =>
                _ ← call (Call.DropResumeSnapshot snapshot_id);
                stamp (ResumeDiscoveryPageMessage_denied in_reply_to)
            end
          else
            advanced ← call (Call.AdvanceResumeCursor cursor (rcb_transfer_id binding) None);
            _ ← call (Call.DropResumeSnapshot snapshot_id);
            match advanced with
            | Ok None =>
                stamp (ResumeDiscoveryPageMessage_continuation_page in_reply_to
                         (held_chunk_wire <$> part) None)
            | _ => stamp (ResumeDiscoveryPageMessage_denied in_reply_to)
            end
      end
  end.
End Handlers.

(** ** One turn of the request loop *)

Module Flow.
Inductive t : Type := Continue | Break.
End Flow.

Section Loop.
Context {ent : Entropy} {dbg : StrDebug}.

(** [if send(..).is_err() { break }]. *)
Definition send_or_break (m : WorkerProtocolMessage.t) : proc Flow.t :=
  ok ← call (Call.Send m); mret (if ok : bool then Flow.Continue else Flow.Break).

Definition send_if_any {B} (wrap : Message B → WorkerProtocolMessage.t) (m : option (Message B))
  : proc Flow.t :=
  match m with Some m => send_or_break (wrap m) | None => mret Flow.Continue end.

Definition unknown_type_error (type_name : str) : Gen (Message ProtocolErrorBody) :=
  m ← ProtocolErrorMessage_new (lit "unknown_message_type");
  mret (ProtocolErrorMessage_with_message m (lit "unrecognized type " ++ str_debug type_name)).

(** The arms of [match received]. *)
Definition serve (resume_page_size : nat) (m : WorkerProtocolMessage.t) : proc Flow.t :=
  match m with
  | WorkerProtocolMessage.AuthorizationQuery query =>
      response ← decide_authorization_query query;
      send_or_break (WorkerProtocolMessage.AuthorizationDecision response)
  | WorkerProtocolMessage.ChunkAcceptanceRequest request =>
      decision ← handle_chunk_acceptance request;
      send_if_any WorkerProtocolMessage.ChunkAcceptanceDecision decision
  | WorkerProtocolMessage.ResumeDiscoveryQuery query =>
      page ← handle_resume_discovery_query resume_page_size query;
      send_or_break (WorkerProtocolMessage.ResumeDiscoveryPage page)
  | WorkerProtocolMessage.ResumeDiscoveryContinue cont =>
      page ← handle_resume_discovery_continue resume_page_size cont;
      send_or_break (WorkerProtocolMessage.ResumeDiscoveryPage page)
  | WorkerProtocolMessage.ManifestSealRequest request =>
      decision ← handle_manifest_seal request;
      send_if_any WorkerProtocolMessage.ManifestSealDecision decision
  | WorkerProtocolMessage.ArtifactVerificationReport report =>
      ack ← handle_artifact_verification report;
      send_if_any WorkerProtocolMessage.ArtifactVerificationAck ack
  | _ =>
      e ← stamp (ProtocolErrorMessage_new (lit "unexpected_message"));
      _ ← call (Call.Send (WorkerProtocolMessage.ProtocolError e));
      mret Flow.Continue
  end.

Definition turn (resume_page_size : nat) : proc Flow.t :=
  incoming ← call Call.Receive;
  match incoming with
  | Incoming.Received (Ok m) => serve resume_page_size m
  | Incoming.Received (Err (ReceiveError.Decode (DecodeError.UnknownType type_name))) =>
      e ← stamp (unknown_type_error type_name);
      _ ← call (Call.Send (WorkerProtocolMessage.ProtocolError e));
      mret Flow.Continue
  | Incoming.Received (Err _) => mret Flow.Break
  | Incoming.ShutdownChanged shutdown =>
      mret (if shutdown : bool then Flow.Break else Flow.Continue)
  end.

(** ** Handshake *)

End Loop.

Module HandshakeError.
Inductive t : Type :=
| Receive (e : ReceiveError.t)
| Send
| PreHandshakeViolation
| IncompatibleVersion
| MalformedIdentity
| UnknownMessageType.
End HandshakeError.

(** The reply to the first message, and the outcome when sending it worked ([sent]). *)
Definition handshake_as_server `{Entropy, UuidKind, StrDebug}
    (first : result ReceiveError.t WorkerProtocolMessage.t) (sent : bool)
  : Gen (option WorkerProtocolMessage.t * result HandshakeError.t Uuid) :=
  match first with
  | Err (ReceiveError.Decode (DecodeError.UnknownType type_name)) =>
      e ← unknown_type_error type_name;
      mret (Some (WorkerProtocolMessage.ProtocolError e), Err HandshakeError.UnknownMessageType)
  | Err err => mret (None, Err (HandshakeError.Receive err))
  | Ok (WorkerProtocolMessage.WorkerHello hello) =>
      if negb (Envelope_is_valid (envelope hello))
         || negb (is_uuid_v4 (wh_worker_instance_id (body hello)))
      then
        e ← ProtocolErrorMessage_new (lit "malformed_handshake_identity");
        mret (Some (WorkerProtocolMessage.ProtocolError
                      (ProtocolErrorMessage_with_in_reply_to e (env_message_id (envelope hello)))),
              Err HandshakeError.MalformedIdentity)
      else if negb (ProtocolVersion_is_v1 (wh_worker_protocol_version (body hello)))
      then
        m ← HandshakeRejectedMessage_incompatible_version (env_message_id (envelope hello));
        mret (Some (WorkerProtocolMessage.HandshakeRejected m),
              Err HandshakeError.IncompatibleVersion)
      else
        m ← ServerHelloMessage_new (env_message_id (envelope hello));
        mret (Some (WorkerProtocolMessage.ServerHello m),
              if sent then Ok (wh_worker_instance_id (body hello)) else Err HandshakeError.Send)
  | Ok _ =>
      e ← ProtocolErrorMessage_new (lit "pre_handshake_violation");
      mret (Some (WorkerProtocolMessage.ProtocolError e), Err HandshakeError.PreHandshakeViolation)
  end.

(** ** Connections and the server *)

(** Where the task of a connection stands: before its handshake, about to draw its
    generation, about to install it, about to publish its fresh store, in its loop. *)
Module Phase.
Inductive t : Type :=
| Handshaking
| Starting (worker_instance_id : Uuid)
| Installing (generation : ConnectionGeneration) (worker_instance_id : Uuid)
| Opening (operations : TransientWorkerOperationStore)
| Serving (operations : TransientWorkerOperationStore) (rest : proc Flow.t).
End Phase.

Record ControlWorld `{Ed25519} : Type := {
  cw_transfer : TransferWorld;
  cw_registry : WorkerAuthorityRegistry;
  cw_connections : gmap nat Phase.t;
  cw_resume_page_size : nat;
}.

(** What a step takes from outside: the clock, what arrives, whether sending works. *)
Record Env : Type := {
  en_now : Instant;
  en_first : result ReceiveError.t WorkerProtocolMessage.t;
  en_incoming : Incoming.t;
  en_sent : bool;
}.

Module Step.
Inductive t : Type :=
| Accept (c : nat)
| Run (c : nat) (e : Env)
| Cancel (c : nat)
| Server (o : TransferOp.t).
End Step.

Module Event.
Inductive t : Type :=
| Shook (c : nat) (first : result ReceiveError.t WorkerProtocolMessage.t)
    (reply : option WorkerProtocolMessage.t) (r : result HandshakeError.t Uuid)
| Began (c : nat) (g : ConnectionGeneration)
| Called (c : nat) (g : ConnectionGeneration) (call : Call.t) (answer : Call.answer call)
| Panicked (c : nat)
| Closed (c : nat)
| Restarted.
End Event.

Section Control.
Context {b64 : Base64} {sha : Sha256} {ed : Ed25519} {ent : Entropy} {chrono : ChronoRange}
  {disp : UuidDisplay} {simple : UuidSimple} {kind : UuidKind} {dbg : StrDebug}.
Implicit Types (w : ControlWorld) (tw : TransferWorld) (reg : WorkerAuthorityRegistry)
  (s : TransientWorkerOperationStore).

Definition cw_with_connection w (c : nat) (p : Phase.t) : ControlWorld :=
  {| cw_transfer := cw_transfer w; cw_registry := cw_registry w;
     cw_connections := <[c := p]> (cw_connections w);
     cw_resume_page_size := cw_resume_page_size w |}.

Definition cw_with_registry w reg : ControlWorld :=
  {| cw_transfer := cw_transfer w; cw_registry := reg; cw_connections := cw_connections w;
     cw_resume_page_size := cw_resume_page_size w |}.

Definition cw_with_transfer w tw : ControlWorld :=
  {| cw_transfer := tw; cw_registry := cw_registry w; cw_connections := cw_connections w;
     cw_resume_page_size := cw_resume_page_size w |}.

(** The task ends: its store is dropped, and the guard ends its generation if it began. *)
Definition close w (c : nat) (generation : option ConnectionGeneration) : ControlWorld :=
  {| cw_transfer := cw_transfer w;
     cw_registry := match generation with
                    | Some g => end_generation (cw_registry w) g
                    | None => cw_registry w
                    end;
     cw_connections := delete c (cw_connections w);
     cw_resume_page_size := cw_resume_page_size w |}.

(** One call of a serving connection: the shared world, its own store and the answer. *)
Definition exec tw reg s (e : Env) (c : Call.t)
  : Gen (TransferWorld * TransientWorkerOperationStore * Call.answer c) :=
  let db := tw_db tw in
  match c with
  | Call.Stamp => λ k, ((tw, s, k), S k)
  | Call.Receive => mret (tw, s, en_incoming e)
  | Call.Send _ => mret (tw, s, en_sent e)
  | Call.Decide input =>
      let r := service_decide (tw_auth tw) (load_authorization_state db (wq_transfer_id input))
                 input (en_now e) in
      mret (tw_with_auth tw r.1, s, r.2)
  | Call.AuthorizeResumeDiscovery input =>
      let r := service_authorize_resume_discovery (tw_auth tw)
                 (load_authorization_state db (wq_transfer_id input)) input (en_now e) in
      mret (tw_with_auth tw r.1, s, r.2)
  | Call.CommitChunkAcceptance id index digest size =>
      let r := service_commit_chunk_acceptance db id index digest size in
      mret (tw_with_db tw r.1, s, r.2)
  | Call.CommitManifestSeal input =>
      let r := service_commit_manifest_seal db (tw_auth tw) input (en_now e) in
      mret (tw_with_auth (tw_with_db tw r.1.1) r.1.2, s, r.2)
  | Call.CommitArtifactVerification input =>
      let r := service_commit_artifact_verification db input in
      mret (tw_with_db tw r.1, s, r.2)
  | Call.MintAcceptance b => r ← mint_acceptance reg s b; mret (tw, r.1, r.2)
  | Call.ConsumeAcceptance h t i => r ← consume_acceptance reg s h t i; mret (tw, r.1, r.2)
  | Call.MintVerification b => r ← mint_verification reg s b; mret (tw, r.1, r.2)
  | Call.ConsumeVerification h => r ← consume_verification reg s h; mret (tw, r.1, r.2)
  | Call.RegisterResumeSnapshot snapshot =>
      r ← register_resume_snapshot reg s snapshot; mret (tw, r.1, r.2)
  | Call.MintResumeCursor b => r ← mint_resume_cursor reg s b; mret (tw, r.1, r.2)
  | Call.GetResumeCursorBinding cursor => mret (tw, s, resume_cursor_binding reg s cursor)
  | Call.GetResumeSnapshot id => mret (tw, s, resume_snapshot reg s id)
  | Call.AdvanceResumeCursor cursor t next =>
      r ← advance_resume_cursor reg s cursor t next; mret (tw, r.1, r.2)
  | Call.DropResumeSnapshot id => mret (tw, drop_resume_snapshot reg s id, ())
  end.

(** After a call: the loop goes around, or the task ends. *)
Definition resume_with w (c : nat) s (rest : proc Flow.t) : ControlWorld * list Event.t :=
  match rest with
  | Ret Flow.Continue => (cw_with_connection w c (Phase.Serving s (turn (cw_resume_page_size w))), [])
  | Ret Flow.Break => (close w c (Some (st_generation s)), [Event.Closed c])
  | Panic => (close w c (Some (st_generation s)), [Event.Panicked c; Event.Closed c])
  | Do _ _ => (cw_with_connection w c (Phase.Serving s rest), [])
  end.

Definition run_connection w (c : nat) (e : Env) (p : Phase.t) : Gen (ControlWorld * list Event.t) :=
  match p with
  | Phase.Handshaking =>
      r ← handshake_as_server (en_first e) (en_sent e);
      let shook := Event.Shook c (en_first e) r.1 r.2 in
      mret match r.2 with
           | Ok id => (cw_with_connection w c (Phase.Starting id), [shook])
           | Err _ => (close w c None, [shook; Event.Closed c])
           end
  | Phase.Starting id =>
      let '(g, reg) := fetch_generation (cw_registry w) in
      mret (cw_with_connection (cw_with_registry w reg) c (Phase.Installing g id), [])
  | Phase.Installing g id =>
      let reg := install_generation (cw_registry w) g id in
      mret (cw_with_connection (cw_with_registry w reg) c
              (Phase.Opening (TransientWorkerOperationStore_new g (wa_operations_capacity reg))),
            [Event.Began c g])
  | Phase.Opening s =>
      let reg := set_current_operations (cw_registry w) (st_generation s) (st_generation s) in
      mret (cw_with_connection (cw_with_registry w reg) c
              (Phase.Serving s (turn (cw_resume_page_size w))), [])
  | Phase.Serving s (Do call k) =>
      r ← exec (cw_transfer w) (cw_registry w) s e call;
      let '(tw, s', answer) := r in
      let '(w', closed) := resume_with (cw_with_transfer w tw) c s' (k answer) in
      mret (w', Event.Called c (st_generation s) call answer :: closed)
  | Phase.Serving s rest => mret (resume_with w c s rest)
  end.

(** A task is dropped only where it waits: in its handshake or in its loop. *)
Definition cancel w (c : nat) (p : Phase.t) : ControlWorld * list Event.t :=
  match p with
  | Phase.Handshaking => (close w c None, [Event.Closed c])
  | Phase.Serving s _ => (close w c (Some (st_generation s)), [Event.Closed c])
  | _ => (w, [])
  end.

(** A restart of the process loses the registry and every connection. *)
Definition restarted_control w (o : TransferOp.t) : ControlWorld * list Event.t :=
  match o with
  | TransferOp.Job (JobOp.Restart _) =>
      ({| cw_transfer := cw_transfer w;
          cw_registry := WorkerAuthorityRegistry_with_operations_capacity
                           (wa_operations_capacity (cw_registry w));
          cw_connections := ∅; cw_resume_page_size := cw_resume_page_size w |}, [Event.Restarted])
  | _ => (w, [])
  end.

Definition control_step w (st : Step.t) : Gen (ControlWorld * list Event.t) :=
  match st with
  | Step.Accept c =>
      mret (match cw_connections w !! c with
            | None => cw_with_connection w c Phase.Handshaking
            | Some _ => w
            end, [])
  | Step.Run c e =>
      match cw_connections w !! c with
      | Some p => run_connection w c e p
      | None => mret (w, [])
      end
  | Step.Cancel c =>
      mret match cw_connections w !! c with
           | Some p => cancel w c p
           | None => (w, [])
           end
  | Step.Server o =>
      tw ← run_transfer_op (cw_transfer w) o;
      let '(w', events) := restarted_control w o in
      mret (cw_with_transfer w' tw, events)
  end.

Fixpoint control_run w (sts : list Step.t) : Gen (ControlWorld * list Event.t) :=
  match sts with
  | [] => mret (w, [])
  | st :: rest =>
      r ← control_step w st;
      r' ← control_run r.1 rest;
      mret (r'.1, r.2 ++ r'.2)
  end.

(** [bind]: the configured page size is at least one. *)
Definition empty_control (tw : TransferWorld) (operations_capacity resume_page_size : nat)
  : ControlWorld :=
  {| cw_transfer := tw;
     cw_registry := WorkerAuthorityRegistry_with_operations_capacity operations_capacity;
     cw_connections := ∅; cw_resume_page_size := resume_page_size `max` 1 |}.
End Control.
