(* ===== verification/WorkerSafety.v ===== *)
(** * Runs of the control plane

    The steps of [WorkerControl] as a labelled transition relation, the runs of
    interleaved connections, and the principle by which a property of one connection's
    task is carried through every interleaving: it need only be kept by the task's own
    calls. *)

From stdpp Require Import prelude gmap strings sorting.
From Stdlib Require Import Strings.Byte NArith ZArith.
From S2P Require Import Prelude.
From S2P Require Import External.
From S2P Require Import Endpoint.
From S2P Require Import EnrollmentStore.
From S2P Require Import Job.
From S2P Require Import Transfer.
From S2P Require Import JobServices.
From S2P Require Import TransferAuth.
From S2P Require Import TransferStore.
From S2P Require Import TransferEvidence.
From S2P Require Import TransferSpec.
From S2P Require Import TransferSafety.
From S2P Require Import WorkerProtocol.
From S2P Require Import WorkerFraming.
From S2P Require Import WorkerOperations.
From S2P Require Import WorkerControl.

Section Runs.
Context {b64 : Base64} {sha : Sha256} {ed : Ed25519} {ent : Entropy} {chrono : ChronoRange}
  {disp : UuidDisplay} {simple : UuidSimple} {kind : UuidKind} {dbg : StrDebug}.
Implicit Types (w : ControlWorld) (tr : list Event.t) (s : TransientWorkerOperationStore)
  (c k : nat) (p : proc Flow.t).

(** ** Steps *)

(** What remains of the task after a call, when it goes on. *)
Definition continue_with w p : proc Flow.t :=
  match p with Ret Flow.Continue => turn (cw_resume_page_size w) | _ => p end.

(** The task goes on. *)
Definition goes_on p : Prop := match p with Ret Flow.Break | Panic => False | _ => True end.

Inductive cstep w k : list Event.t → ControlWorld → nat → Prop :=
| cs_idle : cstep w k [] w k
| cs_accept c :
    cw_connections w !! c = None → cstep w k [] (cw_with_connection w c Phase.Handshaking) k
| cs_shook c first sent reply id k' :
    cw_connections w !! c = Some Phase.Handshaking →
    handshake_as_server first sent k = ((reply, Ok id), k') →
    cstep w k [Event.Shook c first reply (Ok id)] (cw_with_connection w c (Phase.Starting id)) k'
| cs_refused c first sent reply err k' :
    cw_connections w !! c = Some Phase.Handshaking →
    handshake_as_server first sent k = ((reply, Err err), k') →
    cstep w k [Event.Shook c first reply (Err err); Event.Closed c] (close w c None) k'
| cs_fetch c id :
    cw_connections w !! c = Some (Phase.Starting id) →
    cstep w k [] (cw_with_connection (cw_with_registry w (fetch_generation (cw_registry w)).2) c
                    (Phase.Installing (wa_next_generation (cw_registry w)) id)) k
| cs_install c g id :
    cw_connections w !! c = Some (Phase.Installing g id) →
    cstep w k [Event.Began c g]
      (cw_with_connection (cw_with_registry w (install_generation (cw_registry w) g id)) c
         (Phase.Opening (TransientWorkerOperationStore_new g
                           (wa_operations_capacity (cw_registry w))))) k
| cs_open c s :
    cw_connections w !! c = Some (Phase.Opening s) →
    cstep w k [] (cw_with_connection
                    (cw_with_registry w (set_current_operations (cw_registry w) (st_generation s)
                                           (st_generation s))) c
                    (Phase.Serving s (turn (cw_resume_page_size w)))) k
| cs_call c s call rest e tw s' a k' :
    cw_connections w !! c = Some (Phase.Serving s (Do call rest)) →
    exec (cw_transfer w) (cw_registry w) s e call k = ((tw, s', a), k') →
    goes_on (rest a) →
    cstep w k [Event.Called c (st_generation s) call a]
      (cw_with_connection (cw_with_transfer w tw) c (Phase.Serving s' (continue_with w (rest a)))) k'
| cs_last c s call rest e tw s' a k' :
    cw_connections w !! c = Some (Phase.Serving s (Do call rest)) →
    exec (cw_transfer w) (cw_registry w) s e call k = ((tw, s', a), k') →
    rest a = Ret Flow.Break →
    cstep w k [Event.Called c (st_generation s) call a; Event.Closed c]
      (close (cw_with_transfer w tw) c (Some (st_generation s'))) k'
| cs_panic c s call rest e tw s' a k' :
    cw_connections w !! c = Some (Phase.Serving s (Do call rest)) →
    exec (cw_transfer w) (cw_registry w) s e call k = ((tw, s', a), k') →
    rest a = Panic →
    cstep w k [Event.Called c (st_generation s) call a; Event.Panicked c; Event.Closed c]
      (close (cw_with_transfer w tw) c (Some (st_generation s'))) k'
| cs_panicked c s :
    cw_connections w !! c = Some (Phase.Serving s Panic) →
    cstep w k [Event.Panicked c; Event.Closed c] (close w c (Some (st_generation s))) k
| cs_around c s :
    cw_connections w !! c = Some (Phase.Serving s (Ret Flow.Continue)) →
    cstep w k [] (cw_with_connection w c (Phase.Serving s (turn (cw_resume_page_size w)))) k
| cs_drop c s p :
    cw_connections w !! c = Some (Phase.Serving s p) →
    cstep w k [Event.Closed c] (close w c (Some (st_generation s))) k
| cs_hangup c :
    cw_connections w !! c = Some Phase.Handshaking → cstep w k [Event.Closed c] (close w c None) k
| cs_server o tw k' :
    in_range o → run_transfer_op (cw_transfer w) o k = (tw, k') →
    (∀ ops, o ≠ TransferOp.Job (JobOp.Restart ops)) →
    cstep w k [] (cw_with_transfer w tw) k'
| cs_restart ops tw k' :
    run_transfer_op (cw_transfer w) (TransferOp.Job (JobOp.Restart ops)) k = (tw, k') →
    cstep w k [Event.Restarted]
      (cw_with_transfer (restarted_control w (TransferOp.Job (JobOp.Restart ops))).1 tw) k'.

Definition step_in_range (st : Step.t) : Prop :=
  match st with Step.Server o => in_range o | _ => True end.

(** Runs of [n] steps, with their traces. *)
Inductive creaches w k : nat → list Event.t → ControlWorld → nat → Prop :=
| cr_refl : creaches w k 0 [] w k
| cr_step n tr w1 k1 ev w2 k2 :
    creaches w k n tr w1 k1 → cstep w1 k1 ev w2 k2 → creaches w k (S n) (tr ++ ev) w2 k2.

Lemma resume_with_cstep w k c s call rest e tw s' a k' w' ev :
  cw_connections w !! c = Some (Phase.Serving s (Do call rest)) →
  exec (cw_transfer w) (cw_registry w) s e call k = ((tw, s', a), k') →
  resume_with (cw_with_transfer w tw) c s' (rest a) = (w', ev) →
  cstep w k (Event.Called c (st_generation s) call a :: ev) w' k'.
Proof.
  intros Hc He. unfold resume_with. destruct (rest a) as [[]| |c1 k1] eqn:Hra; intros [= <- <-].
  - pose proof (cs_call w k c s call rest e tw s' a k' Hc He) as H. rewrite Hra in H. exact (H I).
  - by eapply cs_last.
  - by eapply cs_panic.
  - pose proof (cs_call w k c s call rest e tw s' a k' Hc He) as H. rewrite Hra in H. exact (H I).
Qed.

Lemma run_connection_cstep w k c e ph w' ev k' :
  cw_connections w !! c = Some ph → run_connection w c e ph k = ((w', ev), k') →
  cstep w k ev w' k'.
Proof.
  intros Hc. unfold run_connection. destruct ph as [|id|g id|s|s [[]| |call rest]];
    unfold mbind, gen_bind, mret, gen_ret.
  - destruct (handshake_as_server _ _ _) as [[reply [id|err]] k1] eqn:Hh; intros [= <- <- <-].
    + by eapply cs_shook.
    + by eapply cs_refused.
  - simpl. intros [= <- <- <-]. by apply cs_fetch.
  - simpl. intros [= <- <- <-]. by apply cs_install.
  - simpl. intros [= <- <- <-]. by apply cs_open.
  - simpl. intros [= <- <- <-]. by apply cs_around.
  - simpl. intros [= <- <- <-]. by eapply cs_drop.
  - simpl. intros [= <- <- <-]. by eapply cs_panicked.
  - destruct (exec _ _ _ _ _ _) as [[[tw s'] a] k1] eqn:He.
    destruct (resume_with _ _ _ _) as [w1 ev1] eqn:Hr. intros [= <- <- <-].
    by eapply resume_with_cstep.
Qed.

Lemma control_step_cstep w k st w' ev k' :
  step_in_range st → control_step w st k = ((w', ev), k') → cstep w k ev w' k'.
Proof.
  intros Hin. unfold control_step. destruct st as [c|c e|c|o]; unfold mbind, gen_bind, mret, gen_ret.
  - intros [= <- <- <-]. destruct (cw_connections w !! c) eqn:Hc; [apply cs_idle|by apply cs_accept].
  - destruct (cw_connections w !! c) as [ph|] eqn:Hc.
    + by apply run_connection_cstep.
    + intros [= <- <- <-]. apply cs_idle.
  - destruct (cw_connections w !! c) as [[]|] eqn:Hc; simpl; intros [= <- <- <-];
      eauto using cstep.
  - destruct (run_transfer_op _ _ _) as [tw k1] eqn:Ho.
    destruct o as [[]| | | | | | | | | | | | | | | | |]; simpl; intros [= <- <- <-];
      first [eapply cs_server; [exact Hin|exact Ho|discriminate] | eapply cs_restart; exact Ho].
Qed.

Lemma control_run_creaches w k sts w' tr k' :
  Forall step_in_range sts → control_run w sts k = ((w', tr), k') →
  creaches w k (length sts) tr w' k'.
Proof.
  assert (∀ n tr0 w0 k0, creaches w k n tr0 w0 k0 → Forall step_in_range sts →
            control_run w0 sts k0 = ((w', tr), k') →
            creaches w k (n + length sts) (tr0 ++ tr) w' k') as Hgen.
  { revert tr. induction sts as [|st sts IH]; intros tr n tr0 w0 k0 Hr Hin; simpl;
      unfold mbind, gen_bind, mret, gen_ret.
    - intros [= <- <- <-]. by rewrite Nat.add_0_r, app_nil_r.
    - apply Forall_cons in Hin as [Hst Hin].
      destruct (control_step w0 st k0) as [[w1 ev] k1] eqn:Hs. simpl.
      destruct (control_run w1 sts k1) as [[w2 tr1] k2] eqn:Hrun. intros [= <- <- <-].
      rewrite app_assoc, <-Nat.add_succ_comm. apply (IH _ _ _ w1 k1); [|done|done].
      eapply cr_step; [done|]. by eapply control_step_cstep. }
  intros Hin Hrun. by apply (Hgen 0 [] w k (cr_refl w k)).
Qed.

(** ** The durable state *)

(** A generator only moves forward. *)
Definition forward {A} (g : Gen A) : Prop := ∀ k, k ≤ (g k).2.

Lemma forward_ret {A} (a : A) : forward (mret a).
Proof. intros k. done. Qed.
Lemma forward_bind {A B} (g : Gen A) (f : A → Gen B) :
  forward g → (∀ a, forward (f a)) → forward (g ≫= f).
Proof.
  intros Hg Hf k. unfold mbind, gen_bind. specialize (Hg k). destruct (g k) as [a k1].
  simpl in Hg. specialize (Hf a k1). lia.
Qed.
Lemma forward_new_v4 : forward new_v4.
Proof. intros k. simpl. lia. Qed.
Lemma forward_choose {A} n (g : Gen A) taken : forward g → forward (choose n g taken).
Proof.
  intros Hg. induction n; [apply forward_ret|]. apply forward_bind; [done|]. intros a.
  case_match; [done|apply forward_ret].
Qed.
Lemma forward_with_current {A} reg s
    (op : Gen (TransientWorkerOperationStore * result TransientOperationError.t A)) :
  forward op → forward (with_current reg s op).
Proof. intros H k. rewrite with_current_cases. case_match; [apply H|done]. Qed.

Ltac forward := repeat first
  [ progress intros | case_match | apply forward_with_current | apply forward_bind
  | apply forward_choose | apply forward_ret | apply forward_new_v4
  | progress unfold csprng_id_source, mint_acceptance, mint_verification, mint_resume_cursor,
      insert_fresh, consume_acceptance, consume_verification, register_resume_snapshot,
      advance_resume_cursor, with_envelope, Envelope_new, unknown_type_error,
      ProtocolErrorMessage_new, HandshakeRejectedMessage_incompatible_version,
      ServerHelloMessage_new ].

Lemma forward_handshake first sent : forward (handshake_as_server first sent).
Proof. unfold handshake_as_server. forward. Qed.

Lemma treaches_trans stray tw k tw1 k1 tw2 k2 :
  treaches stray tw k tw1 k1 → treaches stray tw1 k1 tw2 k2 → treaches stray tw k tw2 k2.
Proof. intros H1. induction 1; eauto using treaches_step, treaches_draw. Qed.

Lemma treaches_op tw k o tw' k' :
  in_range o → run_transfer_op tw o k = (tw', k') → treaches true tw k tw' k'.
Proof. intros Hin Hrun. eapply treaches_step; [apply treaches_refl|done|by left|done]. Qed.

Lemma treaches_same stray tw k k' : k ≤ k' → treaches stray tw k tw k'.
Proof. eauto using treaches_draw, treaches_refl. Qed.

(** Authorizing a resume query changes what deciding the same query changes. *)
Lemma resume_decides (auth : AuthState) loaded input now :
  (service_authorize_resume_discovery auth loaded input now).1
    = (service_decide auth loaded input now).1.
Proof.
  unfold service_authorize_resume_discovery, service_decide.
  by destruct (authorize_request _ _ _ _).
Qed.

(** The durable state stays as it is, or one operation of the data plane runs on it. *)
Definition one_op (tw : TransferWorld) (k : nat) (tw' : TransferWorld) (k' : nat) : Prop :=
  (tw' = tw ∧ k ≤ k') ∨ ∃ o, in_range o ∧ run_transfer_op tw o k = (tw', k').

Lemma one_op_treaches tw k tw' k' : one_op tw k tw' k' → treaches true tw k tw' k'.
Proof. intros [[-> ?]|(o & ? & ?)]; [by apply treaches_same|by eapply treaches_op]. Qed.

Lemma exec_op tw reg s e call k tw' s' a k' :
  exec tw reg s e call k = ((tw', s', a), k') → one_op tw k tw' k'.
Proof.
  assert (∀ (B : Type) (g : Gen (TransientWorkerOperationStore * B)) (s2 : TransientWorkerOperationStore) (b : B),
            forward g → (r ← g; mret (tw, r.1, r.2)) k = ((tw', s2, b), k') →
            one_op tw k tw' k') as Hstore.
  { intros B g s2 b Hg. unfold mbind, gen_bind, mret, gen_ret. specialize (Hg k).
    destruct (g k) as [[s3 b3] k1]. simpl in *. intros [= <- <- <- <-]. by left. }
  destruct call; cbn [exec]; try (eapply Hstore; by forward).
  all: unfold mret, gen_ret; intros [= <- <- <- <-]; try (left; split; [done|lia]); right.
  - by exists (TransferOp.Decide input (en_now e)).
  - rewrite resume_decides. by exists (TransferOp.Decide input (en_now e)).
  - by exists (TransferOp.CommitChunkAcceptance transfer_id chunk_index digest size).
  - by exists (TransferOp.CommitManifestSeal input (en_now e)).
  - by exists (TransferOp.CommitArtifactVerification input).
Qed.

Lemma cstep_op w k ev w' k' :
  cstep w k ev w' k' → one_op (cw_transfer w) k (cw_transfer w') k'.
Proof.
  destruct 1 as [|?|c first sent reply id k' ? Hh|c first sent reply err k' ? Hh|? ?|? ? ?|? ?
    |c s call rest e tw s' a k' _ He _|c s call rest e tw s' a k' _ He _
    |c s call rest e tw s' a k' _ He _|? ?|? ?|? ? ?|?|o tw k' Hin Ho _|ops tw k' Ho]; simpl.
  all: try (by left).
  - left. split; [done|]. pose proof (forward_handshake first sent k) as Hf. by rewrite Hh in Hf.
  - left. split; [done|]. pose proof (forward_handshake first sent k) as Hf. by rewrite Hh in Hf.
  - by eapply exec_op.
  - by eapply exec_op.
  - by eapply exec_op.
  - right. by exists o.
  - right. by exists (TransferOp.Job (JobOp.Restart ops)).
Qed.

Lemma creaches_treaches w k n tr w' k' :
  creaches w k n tr w' k' → treaches true (cw_transfer w) k (cw_transfer w') k'.
Proof.
  induction 1 as [|n tr w1 k1 ev w2 k2 _ IH Hs]; [apply treaches_refl|].
  eapply treaches_trans; [done|]. by eapply one_op_treaches, cstep_op.
Qed.

Lemma creaches_page_size w k n tr w' k' :
  creaches w k n tr w' k' → cw_resume_page_size w' = cw_resume_page_size w.
Proof. induction 1 as [|n tr w1 k1 ev w2 k2 _ IH Hs]; [done|]. rewrite <-IH. by destruct Hs. Qed.

Lemma end_generation_capacity reg g :
  wa_operations_capacity (end_generation reg g) = wa_operations_capacity reg.
Proof. unfold end_generation. by repeat case_match. Qed.

Lemma creaches_capacity w k n tr w' k' :
  creaches w k n tr w' k' → 1 ≤ wa_operations_capacity (cw_registry w) →
  wa_operations_capacity (cw_registry w') = wa_operations_capacity (cw_registry w).
Proof.
  intros Hr Hcap. induction Hr as [|n tr w1 k1 ev w2 k2 _ IH Hs]; [done|]. rewrite <-IH.
  destruct Hs; simpl; rewrite ?end_generation_capacity; try done; [|lia].
  unfold set_current_operations. rewrite linearized_on_is_current. by case_match.
Qed.
End Runs.

(** ** Invariants of a task

    A ghost state follows the calls of one connection since its generation began. *)

Section Ghost.
Context {G : Type} (g0 : G) (upd : G → ∀ call, Call.answer call → G).

Definition ghost_event (c : nat) (g : G) (ev : Event.t) : G :=
  match ev with
  | Event.Began c' _ => if decide (c' = c) then g0 else g
  | Event.Called c' _ call a => if decide (c' = c) then upd g call a else g
  | _ => g
  end.

Definition ghost (c : nat) (tr : list Event.t) : G := foldl (ghost_event c) g0 tr.

Lemma ghost_app c tr ev : ghost c (tr ++ ev) = foldl (ghost_event c) (ghost c tr) ev.
Proof. unfold ghost. by rewrite foldl_app. Qed.
End Ghost.

Section Tasks.
Context {b64 : Base64} {sha : Sha256} {ed : Ed25519} {ent : Entropy} {chrono : ChronoRange}
  {disp : UuidDisplay} {simple : UuidSimple} {kind : UuidKind} {dbg : StrDebug}.
Context {G : Type} (g0 : G) (upd : G → ∀ call, Call.answer call → G).
Context (I : G → TransientWorkerOperationStore → proc Flow.t → Prop) (page_size capacity : nat).

(** What makes [I] an invariant: it holds of a fresh store at the head of the loop, it is
    kept by every call whatever the rest of the server did before, and it lets the loop go
    around. *)
Hypothesis I_new : ∀ g, I g0 (TransientWorkerOperationStore_new g capacity) (turn page_size).
Hypothesis I_around : ∀ g s, I g s (Ret Flow.Continue) → I g s (turn page_size).
Hypothesis I_call : ∀ g s call rest tw reg e k tw' s' a k',
  world_wf tw → I g s (Do call rest) →
  exec tw reg s e call k = ((tw', s', a), k') → I (upd g call a) s' (rest a).

Definition phase_inv (g : G) (ph : Phase.t) : Prop :=
  match ph with
  | Phase.Opening s => I g s (turn page_size)
  | Phase.Serving s p => I g s p
  | _ => True
  end.

Definition tasks_ok (tr : list Event.t) (w : ControlWorld) : Prop :=
  ∀ c ph, cw_connections w !! c = Some ph → phase_inv (ghost g0 upd c tr) ph.

Definition event_ok (tr : list Event.t) (i : nat) : Prop :=
  ∀ c g call a, tr !! i = Some (Event.Called c g call a) →
    ∃ s rest, st_generation s = g ∧ I (ghost g0 upd c (take i tr)) s (Do call rest).

(** A step of connection [c] leaves the ghost state of the others alone. *)
Lemma tasks_ok_update tr ev w w' c ph :
  tasks_ok tr w → (∀ c', c' ≠ c → cw_connections w' !! c' = cw_connections w !! c') →
  (∀ c' g, c' ≠ c → foldl (ghost_event g0 upd c') g ev = g) →
  cw_connections w' !! c = ph → from_option (phase_inv (ghost g0 upd c (tr ++ ev))) True ph →
  tasks_ok (tr ++ ev) w'.
Proof.
  intros Hw Hsame Hev Hc Hph c' ph' Hc'. destruct (decide (c' = c)) as [->|Hne].
  - rewrite Hc in Hc'. by rewrite Hc' in Hph.
  - rewrite ghost_app, Hev by done. apply Hw. by rewrite <-Hsame.
Qed.

Lemma continue_with_inv w g s p :
  cw_resume_page_size w = page_size → I g s p → I g s (continue_with w p).
Proof. intros <- Hi. destruct p as [[]| |]; simpl; [by apply I_around|done..]. Qed.

Ltac others := simpl; intros;
  first [by rewrite lookup_insert_ne | by rewrite lookup_delete_ne | by rewrite !decide_False by done | done].

Lemma cstep_tasks w k ev w' k' tr :
  cstep w k ev w' k' → world_wf (cw_transfer w) → cw_resume_page_size w = page_size →
  wa_operations_capacity (cw_registry w) = capacity → tasks_ok tr w → tasks_ok (tr ++ ev) w'.
Proof.
  intros Hstep Hwf Hps Hcap Hw.
  destruct Hstep as [|c Hc|c first sent reply id k' Hc _|c first sent reply err k' Hc _|c id Hc
    |c g id Hc|c s Hc|c s call rest e tw s' a k' Hc He Hend|c s call rest e tw s' a k' Hc He Hend
    |c s call rest e tw s' a k' Hc He Hend|c s Hc|c s Hc|c s p Hc|c Hc|o tw k' _ _ _|ops tw k' _].
  - by rewrite app_nil_r.
  - eapply (tasks_ok_update tr [] w _ c); [done|others|others|by apply lookup_insert_eq|done].
  - eapply (tasks_ok_update tr _ w _ c); [done|others|others|by apply lookup_insert_eq|done].
  - eapply (tasks_ok_update tr _ w _ c); [done|others|others|by apply lookup_delete_eq|done].
  - eapply (tasks_ok_update tr [] w _ c); [done|others|others|by apply lookup_insert_eq|done].
  - eapply (tasks_ok_update tr _ w _ c); [done|others|others|by apply lookup_insert_eq|].
    simpl. rewrite ghost_app, Hcap. simpl. rewrite decide_True by done. apply I_new.
  - eapply (tasks_ok_update tr [] w _ c); [done|others|others|by apply lookup_insert_eq|].
    simpl. rewrite ghost_app, Hps. exact (Hw c _ Hc).
  - eapply (tasks_ok_update tr _ w _ c); [done|others|others|by apply lookup_insert_eq|].
    simpl. rewrite ghost_app. simpl. rewrite decide_True by done.
    apply continue_with_inv; [done|]. eapply I_call; [done|exact (Hw c _ Hc)|done].
  - eapply (tasks_ok_update tr _ w _ c); [done|others|others|by apply lookup_delete_eq|done].
  - eapply (tasks_ok_update tr _ w _ c); [done|others|others|by apply lookup_delete_eq|done].
  - eapply (tasks_ok_update tr _ w _ c); [done|others|others|by apply lookup_delete_eq|done].
  - eapply (tasks_ok_update tr [] w _ c); [done|others|others|by apply lookup_insert_eq|].
    simpl. rewrite ghost_app, Hps. apply I_around. exact (Hw c _ Hc).
  - eapply (tasks_ok_update tr _ w _ c); [done|others|others|by apply lookup_delete_eq|done].
  - eapply (tasks_ok_update tr _ w _ c); [done|others|others|by apply lookup_delete_eq|done].
  - by rewrite app_nil_r.
  - intros c ph. simpl. by rewrite lookup_empty.
Qed.

(** Every call was made from a task that satisfied the invariant. *)
Lemma cstep_event w k ev w' k' tr i c g call a :
  cstep w k ev w' k' → tasks_ok tr w → ev !! i = Some (Event.Called c g call a) →
  i = 0 ∧ ∃ s rest, st_generation s = g ∧ I (ghost g0 upd c tr) s (Do call rest).
Proof.
  intros Hstep Hw.
  destruct Hstep as [|?|? ? ? ? ? ? ? ?|? ? ? ? ? ? ? ?|? ? ?|? ? ? ?|? ? ?
    |c1 s call1 rest e tw s' a1 k' Hc He Hend|c1 s call1 rest e tw s' a1 k' Hc He Hend
    |c1 s call1 rest e tw s' a1 k' Hc He Hend|? ? ?|? ? ?|? ? ? ?|? ?|? ? ? ? ? ?|? ? ? ?];
    try (destruct i as [|[|[|i]]]; simpl; by intros [=]).
  all: destruct i as [|[|[|i]]]; simpl; intros [= <- <- Hcall Ha]; subst call;
    (split; [done|]; exists s, rest; split; [done|exact (Hw _ _ Hc)]).
Qed.

(** The start of a run. *)
Definition starts (w0 : ControlWorld) : Prop :=
  cw_connections w0 = ∅ ∧ world_wf (cw_transfer w0) ∧ cw_resume_page_size w0 = page_size
  ∧ wa_operations_capacity (cw_registry w0) = capacity ∧ 1 ≤ capacity.

Lemma starts_reaches w0 k0 n tr w k :
  creaches w0 k0 n tr w k → starts w0 →
  world_wf (cw_transfer w) ∧ cw_resume_page_size w = page_size
  ∧ wa_operations_capacity (cw_registry w) = capacity.
Proof.
  intros Hr (_ & Hwf & <- & Hcap & Hle). split; [|split].
  - eapply treaches_ok; [by eapply creaches_treaches|done].
  - by eapply creaches_page_size.
  - rewrite <-Hcap. eapply creaches_capacity; [done|lia].
Qed.

Lemma creaches_tasks w0 k0 n tr w k :
  creaches w0 k0 n tr w k → starts w0 → tasks_ok tr w ∧ ∀ i, event_ok tr i.
Proof.
  intros Hr H0. induction Hr as [|n tr w1 k1 ev w2 k2 Hr IH Hstep].
  - split; [|by intros i c g call a]. intros c ph. destruct H0 as [-> _]. by rewrite lookup_empty.
  - destruct IH as [Hw He]. destruct (starts_reaches _ _ _ _ _ _ Hr H0) as (Hwf1 & Hps1 & Hcap1).
    split; [by eapply cstep_tasks|]. intros i c g call a.
    destruct (decide (i < length tr)) as [Hi|Hi].
    + rewrite lookup_app_l, take_app_le by lia. apply He.
    + rewrite lookup_app_r by lia. intros Hev.
      destruct (cstep_event _ _ _ _ _ tr _ _ _ _ _ Hstep Hw Hev) as (Hi0 & s & rest & Hs & Hi1).
      exists s, rest. split; [done|]. replace i with (length tr) by lia.
      by rewrite take_app_length.
Qed.

(** If no panicking task satisfies the invariant, no handler ever panics. *)
Lemma creaches_no_panic w0 k0 n tr w k :
  (∀ g s, ¬ I g s Panic) →
  creaches w0 k0 n tr w k → starts w0 → ∀ c, Event.Panicked c ∉ tr.
Proof.
  intros Hno Hr H0 c. induction Hr as [|n tr w1 k1 ev w2 k2 Hr IH Hstep].
  { by apply not_elem_of_nil. }
  destruct (creaches_tasks _ _ _ _ _ _ Hr H0) as [Hw _].
  destruct (starts_reaches _ _ _ _ _ _ Hr H0) as (Hwf1 & _ & _).
  rewrite elem_of_app. intros [Hin|Hin]; [by apply IH|].
  destruct Hstep as [|?|? ? ? ? ? ? ? ?|? ? ? ? ? ? ? ?|? ? ?|? ? ? ?|? ? ?|? ? ? ? ? ? ? ? ? ? ? ?
    |? ? ? ? ? ? ? ? ? ? ? ?|c1 s call1 rest e tw s' a1 k' Hc He Hend|c1 s Hc|? ? ?|? ? ? ?|? ?
    |? ? ? ? ? ?|? ? ? ?].
  all: try (exfalso; clear -Hin;
    repeat (apply elem_of_cons in Hin as [Hin|Hin]; [discriminate Hin|]); by apply not_elem_of_nil in Hin).
  - apply (Hno (upd (ghost g0 upd c1 tr) call1 a1) s'). rewrite <-Hend.
    eapply I_call; [done|exact (Hw _ _ Hc)|done].
  - exact (Hno _ _ (Hw _ _ Hc)).
Qed.
End Tasks.

(** ** What calls can answer *)

(** The chunks a resume query may be shown: those of a stored manifest. *)
Definition snapshot_ok (f : ResumeSnapshotFacts) : Prop :=
  some (rs_expected_chunk_count f) = rs_sealed f
  ∧ StronglySorted N.lt (rh_chunk_index <$> rs_held f)
  ∧ Forall (λ h, rh_chunk_index h < 2 ^ 32)%N (rs_held f).

Definition answer_ok (call : Call.t) : Call.answer call → Prop :=
  match call with
  | Call.ConsumeAcceptance _ t i => λ a,
      match a with Ok b => ab_transfer_id b = t ∧ ab_chunk_index b = i | Err _ => True end
  | Call.AuthorizeResumeDiscovery _ => λ a,
      match a with Ok (ResumeAuthorizationOutcome.Approved f) => snapshot_ok f | _ => True end
  | _ => λ _, True
  end.

(** [empty_control] starts a run. *)
Lemma empty_starts `{Ed25519} tw cap page_size :
  world_wf tw → starts (page_size `max` 1) (cap `max` 1) (empty_control tw cap page_size).
Proof. intros Hwf. unfold starts. simpl. split_and!; [done|done|done|done|lia]. Qed.

Section Answers.
Context {b64 : Base64} {sha : Sha256} {ed : Ed25519} {ent : Entropy} {chrono : ChronoRange}
  {disp : UuidDisplay} {simple : UuidSimple} {kind : UuidKind} {dbg : StrDebug}.

Lemma authorized_state s loaded input now state :
  (authorize_request s loaded input now).2 = Ok (Some state) → loaded = Ok (Some state).
Proof. unfold authorize_request. by repeat case_match; simpl; intros; simplify_eq. Qed.

(** The held chunks, by the recursion that lists them. *)
Lemma held_chunks_spec manifest indices held :
  held_chunks manifest indices = Ok held →
  rh_chunk_index <$> held = indices
  ∧ Forall (λ h, ∃ chunk, expected_chunk manifest (rh_chunk_index h) = Some chunk
                          ∧ rh_digest_wire h = Digest_to_wire_value (ec_digest chunk)) held.
Proof.
  revert held. induction indices as [|i indices IH]; intros held; simpl; [by intros [= <-]|].
  intros (chunk & Hc%ok_or_Ok & (rest & Hr & [= <-])%result_bind_Ok)%result_bind_Ok.
  destruct (IH _ Hr) as [<- Hf]. simpl. split; [done|]. constructor; [|done]. by exists chunk.
Qed.

Lemma ascending_sorted (X : gset ChunkIndex) : StronglySorted N.lt (ascending X).
Proof.
  unfold ascending.
  assert (StronglySorted N.le (merge_sort N.le (elements X))) as Hs
    by (apply (StronglySorted_merge_sort N.le)).
  assert (NoDup (merge_sort N.le (elements X))) as Hn.
  { rewrite merge_sort_Permutation. apply NoDup_elements. }
  revert Hs Hn. generalize (merge_sort N.le (elements X)) as l.
  induction l as [|a l IH]; intros Hs Hn; [constructor|].
  apply NoDup_cons in Hn as [Ha Hn]. inversion_clear Hs as [|? ? Hs' Hle]. constructor; [by apply IH|].
  rewrite Forall_forall in *. intros b Hb. specialize (Hle b Hb).
  assert (a ≠ b) by (intros ->; done). lia.
Qed.

Lemma ascending_elem (X : gset ChunkIndex) i : i ∈ ascending X ↔ i ∈ X.
Proof. unfold ascending. by rewrite merge_sort_Permutation, elem_of_elements. Qed.

(** An approved resume query shows the held chunks of the locked manifest, in order. *)
Lemma resume_approved tw input now f :
  world_wf tw →
  (service_authorize_resume_discovery (tw_auth tw)
     (load_authorization_state (tw_db tw) (wq_transfer_id input)) input now).2
    = Ok (ResumeAuthorizationOutcome.Approved f) →
  ∃ facts, load_locked_facts (tw_db tw) (wq_transfer_id input) = Ok (Some facts)
    ∧ rh_chunk_index <$> rs_held f = ascending (tf_held_chunk_indices facts)
    ∧ Forall (λ h, ∃ chunk, expected_chunk (tf_manifest facts) (rh_chunk_index h) = Some chunk
                            ∧ rh_digest_wire h = Digest_to_wire_value (ec_digest chunk)) (rs_held f)
    ∧ rs_sealed f = cm_sealed (tf_manifest facts)
    ∧ rs_expected_chunk_count f
        = (if cm_sealed (tf_manifest facts) then cm_chunk_count (tf_manifest facts) else None)
    ∧ snapshot_ok f.
Proof.
  intros [_ W]. unfold service_authorize_resume_discovery.
  destruct (authorize_request _ _ _ _) as [s' r] eqn:Ha. simpl.
  destruct r as [[state|]|e]; simpl; [|done..].
  assert (load_authorization_state (tw_db tw) (wq_transfer_id input) = Ok (Some state)) as Hl.
  { eapply authorized_state. by rewrite Ha. }
  intros (held & Hh & [= <-])%result_bind_Ok. simpl.
  apply held_chunks_spec in Hh as [Hi Hf].
  unfold load_authorization_state in Hl. apply result_bind_Ok in Hl as ([facts|] & Hfacts & Hl); [|done].
  apply result_bind_Ok in Hl as (att & _ & (ep & _ & [= <-])%result_bind_Ok). simpl in *.
  destruct (td_transfers (tw_db tw) !! wq_transfer_id input) as [t|] eqn:Ht;
    [|by rewrite load_facts_none in Hfacts].
  destruct (load_facts _ _ _ W Ht) as (u & cc & _ & Hu & Hl). rewrite Hl in Hfacts.
  injection Hfacts as <-. simpl in *.
  exists (facts_of t cc u). split; [done|]. split; [done|]. split; [done|]. split; [done|].
  split; [done|]. split_and!; simpl.
  - by destruct (up_seal u).
  - rewrite Hi. apply ascending_sorted.
  - rewrite Forall_forall in *. intros h Hin. destruct (Hf h Hin) as (chunk & Hc & _).
    destruct (uw_chunk _ Hu _ _ Hc) as [<- [? _]]. lia.
Qed.

Lemma exec_answer_ok tw reg s e call k tw' s' a k' :
  world_wf tw → exec tw reg s e call k = ((tw', s', a), k') → answer_ok call a.
Proof.
  intros Hwf. destruct call; try done; cbn [exec].
  - unfold mret, gen_ret. intros [= <- <- <- <-]. simpl.
    destruct (service_authorize_resume_discovery _ _ _ _).2 as [[f|]|] eqn:Ha; [|done..].
    destruct (resume_approved _ _ _ _ Hwf Ha) as (facts & H). apply H.
  - unfold mbind, gen_bind, mret, gen_ret, consume_acceptance. rewrite with_current_cases.
    destruct (is_current _ _); simpl; intros [= <- <- <- <-]; [|done].
    destruct (st_bindings s !! handle) as [[b| |]|]; simpl; [|done..].
    destruct (bool_decide (ab_transfer_id b = _)) eqn:H1, (bool_decide (ab_chunk_index b = _)) eqn:H2;
      simpl; try done.
    by rewrite bool_decide_eq_true in H1, H2.
Qed.
End Answers.

(** ** Reasoning about a task

    [wp g p Q]: from ghost state [g] the task [p] makes only calls that [pre] allows, never
    panics, and ends with [Q]. *)
Section Wp.
Context {G : Type} (pre : G → Call.t → Prop) (upd : G → ∀ call, Call.answer call → G).

Fixpoint wp {A} (g : G) (p : proc A) (Q : G → A → Prop) : Prop :=
  match p with
  | Ret a => Q g a
  | Panic => False
  | Do call rest => pre g call ∧ ∀ a, answer_ok call a → wp (upd g call a) (rest a) Q
  end.

Lemma wp_mono {A} (p : proc A) g (Q Q' : G → A → Prop) :
  (∀ g a, Q g a → Q' g a) → wp g p Q → wp g p Q'.
Proof.
  intros HQ. revert g. induction p as [a| |call rest IH]; intros g; simpl; [apply HQ|done|].
  intros [Hpre Hrest]. split; [done|]. intros a Ha. by apply IH, Hrest.
Qed.

Lemma wp_bind {A B} (p : proc A) (f : A → proc B) g Q :
  wp g p (λ g' a, wp g' (f a) Q) → wp g (p ≫= f) Q.
Proof.
  revert g. induction p as [a| |call rest IH]; intros g; simpl; [done|done|].
  intros [Hpre Hrest]. split; [done|]. intros a Ha. by apply IH, Hrest.
Qed.

Lemma wp_fmap {A B} (p : proc A) (f : A → B) g Q :
  wp g p (λ g' a, Q g' (f a)) → wp g (f <$> p) Q.
Proof. intros H. unfold fmap, proc_fmap. apply wp_bind. by eapply wp_mono, H. Qed.

Lemma wp_call call g (Q : G → Call.answer call → Prop) :
  pre g call → (∀ a, answer_ok call a → Q (upd g call a) a) → wp g (WorkerControl.call call) Q.
Proof. by split. Qed.

Lemma wp_call_bind {B} call (f : Call.answer call → proc B) g Q :
  pre g call → (∀ a, answer_ok call a → wp (upd g call a) (f a) Q) →
  wp g (WorkerControl.call call ≫= f) Q.
Proof. intros Hp Hf. apply wp_bind. by apply wp_call. Qed.

Lemma wp_stamp {B} (constructor : Gen (Message B)) g (Q : G → Message B → Prop) :
  pre g Call.Stamp → (∀ k : nat, Q (upd g Call.Stamp k) (constructor k).1) →
  wp g (stamp constructor) Q.
Proof. intros Hp HQ. apply wp_call_bind; [done|]. intros k _. apply HQ. Qed.

Lemma wp_slice {A} (l : list A) from to g (Q : G → list A → Prop) :
  from ≤ to → to ≤ length l → Q g (take (to - from) (drop from l)) → wp g (slice l from to) Q.
Proof.
  intros H1 H2 HQ. unfold slice.
  rewrite (proj2 (Nat.leb_le _ _) H1), (proj2 (Nat.leb_le _ _) H2). done.
Qed.

Lemma wp_index_at {A} (l : list A) i g (Q : G → A → Prop) :
  i < length l → (∀ a, l !! i = Some a → Q g a) → wp g (index_at l i) Q.
Proof.
  intros Hi HQ. unfold index_at. destruct (lookup_lt_is_Some_2 _ _ Hi) as [a Ha].
  rewrite Ha. by apply HQ.
Qed.
End Wp.

Lemma partition_point_le {A} (pred : A → bool) l : partition_point pred l ≤ length l.
Proof. induction l; simpl; [done|]. case_match; lia. Qed.
