(* ===== verification/WorkerTheorems.v ===== *)
(** * Properties of the control plane

    Over every interleaving of Worker connections with each other and with the rest of the
    server: handles are spent at most as often as they were granted, only the latest
    connection can use its handles, stores stay within their capacity and no handler
    panics, every message sent is legal and answers the request, the durable state is
    reached by data-plane operations alone, and paginated resume answers add up to the
    whole list. *)

From stdpp Require Import prelude gmap strings sorting.
From Stdlib Require Import Strings.Byte NArith ZArith.
From S2P Require Import Prelude.
From S2P Require Import External.
From S2P Require Import Endpoint.
From S2P Require Import EnrollmentStore.
From S2P Require Import Job.
From S2P Require Import Transfer.
From S2P Require Import JobServices.
From S2P Require Import TransferAuth.
From S2P Require Import TransferStore.
From S2P Require Import TransferEvidence.
From S2P Require Import TransferSpec.
From S2P Require Import TransferSafety.
From S2P Require Import TransferTheorems.
From S2P Require Import WorkerProtocol.
From S2P Require Import WorkerFraming.
From S2P Require Import WorkerOperations.
From S2P Require Import WorkerControl.
From S2P Require Import WorkerSafety.

(** ** Grants and what is spent of them

    A kind of operation is counted by the calls that grant it, the bindings that carry the
    grant, and the calls that spend it. *)

Section Ledger.
Context {b64 : Base64} {sha : Sha256} {ed : Ed25519} {ent : Entropy} {chrono : ChronoRange}
  {disp : UuidDisplay} {simple : UuidSimple} {kind : UuidKind} {dbg : StrDebug}.
Context (counted : Binding.t → bool) (grants : ∀ call, Call.answer call → bool)
  (spends : Call.t → bool).
Hypothesis cursor_uncounted : ∀ b, counted (Binding.ResumeCursor b) = false.

Definition mints (call : Call.t) : nat :=
  match call with
  | Call.MintAcceptance b => Nat.b2n (counted (Binding.Acceptance b))
  | Call.MintVerification b => Nat.b2n (counted (Binding.Verification b))
  | _ => 0
  end.

(** What a failed mint or a successful consumption gives back to the task. *)
Definition returned (call : Call.t) : Call.answer call → nat :=
  match call with
  | Call.MintAcceptance b => λ a,
      match a with Err _ => Nat.b2n (counted (Binding.Acceptance b)) | Ok _ => 0 end
  | Call.MintVerification b => λ a,
      match a with Err _ => Nat.b2n (counted (Binding.Verification b)) | Ok _ => 0 end
  | Call.ConsumeAcceptance _ _ _ => λ a,
      match a with Ok b => Nat.b2n (counted (Binding.Acceptance b)) | Err _ => 0 end
  | Call.ConsumeVerification _ => λ a,
      match a with Ok b => Nat.b2n (counted (Binding.Verification b)) | Err _ => 0 end
  | _ => λ _, 0
  end.

Definition live (s : TransientWorkerOperationStore) : nat :=
  size (filter (λ hb : str * Binding.t, counted hb.2 = true) (st_bindings s)).

Lemma live_insert s h b :
  st_bindings s !! h = None →
  live (with_bindings_map s (<[h := b]> (st_bindings s))) = live s + Nat.b2n (counted b).
Proof.
  intros Hh. unfold live. simpl. destruct (counted b) eqn:Hb; simpl.
  - rewrite map_filter_insert_True, map_size_insert_None; [lia| |done].
    apply map_lookup_filter_None. by left.
  - rewrite map_filter_insert_False by (simpl; congruence). by rewrite delete_id.
Qed.

Lemma live_delete s h b :
  st_bindings s !! h = Some b →
  live (with_bindings_map s (delete h (st_bindings s))) + Nat.b2n (counted b) = live s.
Proof.
  intros Hh. rewrite <-(live_insert (with_bindings_map s (delete h (st_bindings s))) h b)
    by apply lookup_delete_eq.
  simpl. by rewrite insert_delete_id.
Qed.

Lemma insert_fresh_live reg s hk b k s' r k' :
  insert_fresh reg s hk b k = ((s', r), k') →
  live s' + match r with Err _ => Nat.b2n (counted b) | Ok _ => 0 end
    ≤ live s + Nat.b2n (counted b).
Proof.
  unfold insert_fresh. rewrite with_current_cases.
  destruct (is_current _ _); [|intros [= <- <- _]; lia].
  case_match; [intros [= <- <- _]; lia|]. unfold mbind, gen_bind, mret, gen_ret.
  destruct (choose _ _ _ _) as [[id|] k1] eqn:Hch; [|intros [= <- <- _]; lia].
  apply choose_untaken in Hch as Hu. intros [= <- <- _].
  rewrite live_insert; [lia|]. unfold in_use in Hu. rewrite bool_decide_eq_false in Hu.
  by apply eq_None_not_Some.
Qed.

Lemma live_same s s' : st_bindings s' = st_bindings s → live s' = live s.
Proof. unfold live. by intros ->. Qed.

Lemma exec_balance tw reg s e call k tw' s' a k' :
  exec tw reg s e call k = ((tw', s', a), k') →
  live s' + returned call a ≤ live s + mints call.
Proof.
  destruct call; cbn [exec mints returned]; unfold mbind, gen_bind, mret, gen_ret;
    try (intros [= _ <- _ _]; simpl; lia).
  - unfold mint_acceptance. destruct (insert_fresh _ _ _ _ _) as [[s1 r] k1] eqn:Hi.
    intros [= _ <- <- _]. by apply insert_fresh_live in Hi.
  - unfold consume_acceptance. rewrite with_current_cases. unfold mret, gen_ret.
    destruct (is_current _ _); [|intros [= _ <- <- _]; simpl; lia].
    destruct (st_bindings s !! handle) as [[b| |]|] eqn:Hb; [|intros [= _ <- <- _]; simpl; lia..].
    case_match; intros [= _ <- <- _]; simpl; [|lia].
    by rewrite (live_delete _ _ _ Hb), Nat.add_0_r.
  - unfold mint_verification. destruct (insert_fresh _ _ _ _ _) as [[s1 r] k1] eqn:Hi.
    intros [= _ <- <- _]. by apply insert_fresh_live in Hi.
  - unfold consume_verification. rewrite with_current_cases. unfold mret, gen_ret.
    destruct (is_current _ _); [|intros [= _ <- <- _]; simpl; lia].
    destruct (st_bindings s !! handle) as [[|b|]|] eqn:Hb; try (intros [= _ <- <- _]; simpl; lia).
    intros [= _ <- <- _]. simpl. by rewrite (live_delete _ _ _ Hb), Nat.add_0_r.
  - unfold register_resume_snapshot. rewrite with_current_cases. unfold mbind, gen_bind, mret, gen_ret.
    destruct (is_current _ _); [|intros [= _ <- <- _]; simpl; lia].
    destruct (_ <=? _)%nat; [intros [= _ <- <- _]; simpl; lia|].
    destruct (choose _ _ _ _) as [[id|] k1]; intros [= _ <- <- _]; simpl;
      [rewrite (live_same s); [lia|done]|lia].
  - unfold mint_resume_cursor. destruct (insert_fresh _ _ _ _ _) as [[s1 r] k1] eqn:Hi.
    intros [= _ <- <- _]. apply insert_fresh_live in Hi. rewrite cursor_uncounted in Hi.
    simpl in *. destruct r; lia.
  - unfold advance_resume_cursor. rewrite with_current_cases. unfold mbind, gen_bind, mret, gen_ret.
    destruct (is_current _ _); [|intros [= _ <- <- _]; simpl; lia].
    destruct (st_bindings s !! cursor) as [[| |b]|] eqn:Hb; try (intros [= _ <- <- _]; simpl; lia).
    destruct (negb _); [intros [= _ <- <- _]; simpl; lia|].
    pose proof (live_delete _ _ _ Hb) as Hd. rewrite cursor_uncounted in Hd. simpl in Hd.
    destruct next as [state|]; [|intros [= _ <- <- _]; simpl; lia].
    destruct (choose _ _ _ _) as [[id|] k1] eqn:Hch; intros [= _ <- <- _]; simpl; [|lia].
    apply choose_untaken in Hch. apply orb_false_elim in Hch as [Hne Hu].
    unfold in_use in Hu. rewrite bool_decide_eq_false in Hne, Hu.
    pose proof (live_insert (with_bindings_map s (delete cursor (st_bindings s))) id
      (Binding.ResumeCursor {| rcb_transfer_id := transfer_id; rcb_proof_id := rcb_proof_id b;
                               rcb_state := state |})) as Hi.
    unfold with_bindings_map in Hi, Hd |- *. simpl in Hi, Hd |- *. rewrite cursor_uncounted in Hi.
    rewrite Hi; [simpl; lia|].
    rewrite lookup_delete_ne by done. by apply eq_None_not_Some.
  - intros [= _ <- _ _]. simpl. unfold drop_resume_snapshot. rewrite linearized_on_is_current.
    destruct (is_current _ _); simpl; [rewrite (live_same s); [lia|done]|lia].
Qed.

(** The task may spend, or turn into a binding, only what it was granted or got back. *)
Definition cost (call : Call.t) : nat := Nat.b2n (spends call) + mints call.
Definition pays (slack : nat) (call : Call.t) : Prop := cost call ≤ slack.
Definition settle_slack (slack : nat) (call : Call.t) (a : Call.answer call) : nat :=
  slack - cost call + Nat.b2n (grants call a) + returned call a.

(** Grants and spendings of a connection since its generation began. *)
Definition count_call (g : nat * nat) (call : Call.t) (a : Call.answer call) : nat * nat :=
  (g.1 + Nat.b2n (grants call a), g.2 + Nat.b2n (spends call)).
Definition granted (c : nat) (tr : list Event.t) : nat := (ghost (0, 0) count_call c tr).1.
Definition spent (c : nat) (tr : list Event.t) : nat := (ghost (0, 0) count_call c tr).2.

Definition ledger_inv (g : nat * nat) (s : TransientWorkerOperationStore) (p : proc Flow.t) : Prop :=
  ∃ slack, wp pays settle_slack slack p (λ _ _, True) ∧ g.2 + live s + slack ≤ g.1.

Lemma spent_within_granted page_size capacity w0 k0 n tr w k i c g call a :
  wp pays settle_slack 0 (turn page_size) (λ _ _, True) →
  creaches w0 k0 n tr w k → starts page_size capacity w0 →
  tr !! i = Some (Event.Called c g call a) → spends call = true →
  spent c (take i tr) < granted c (take i tr).
Proof.
  intros Hturn Hr H0 Hev Hsp.
  destruct (creaches_tasks (0, 0) count_call ledger_inv page_size capacity) with
    (w0 := w0) (k0 := k0) (n := n) (tr := tr) (w := w) (k := k) as [_ He]; try done.
  - intros g'. by exists 0.
  - intros [gr sp] s (slack & _ & Hle). exists 0. split; [done|]. simpl in *. lia.
  - intros [gr sp] s call' rest tw reg e k1 tw' s' a' k2 Hw (slack & [Hpay Hrest] & Hle) Hex.
    exists (settle_slack slack call' a').
    split; [by eapply Hrest, exec_answer_ok|].
    apply exec_balance in Hex. unfold settle_slack, pays, cost in *. simpl in *. lia.
  - destruct (He i c g call a Hev) as (s & rest & _ & slack & [Hpay _] & Hle).
    unfold pays, cost in Hpay. rewrite Hsp in Hpay. unfold spent, granted. simpl in *. lia.
Qed.
End Ledger.

(** The two kinds of handle: acceptance of chunk [i] of transfer [t], and verification of
    a sealed identity. *)
Definition acceptance_counted (t : TransferId) (i : N) (b : Binding.t) : bool :=
  match b with
  | Binding.Acceptance b => bool_decide (ab_transfer_id b = t) && bool_decide (ab_chunk_index b = i)
  | _ => false
  end.

(** An approved authorization of the upload of this chunk. *)
Definition upload_approved (t : TransferId) (i : N) (call : Call.t) : Call.answer call → bool :=
  match call with
  | Call.Decide input => λ a,
      bool_decide (wq_transfer_id input = t) && bool_decide (wq_chunk_index input = Some i)
      && match a with Ok (WorkerAuthorizationOutcome.Approved _ _ _) => true | _ => false end
  | _ => λ _, false
  end.

(** A durable commit of this chunk is attempted. *)
Definition chunk_commit (t : TransferId) (i : N) (call : Call.t) : bool :=
  match call with
  | Call.CommitChunkAcceptance t' i' _ _ => bool_decide (t' = t) && bool_decide (i' = i)
  | _ => false
  end.

(** The identity a verification is about: transfer, Artifact, chunk count, digest. *)
Definition SealedIdentity : Type := TransferId * ArtifactId * N * str.

Definition verification_counted (x : SealedIdentity) (b : Binding.t) : bool :=
  match b with
  | Binding.Verification b =>
      bool_decide ((vb_transfer_id b, vb_artifact_id b, vb_chunk_count b,
                    vb_expected_artifact_digest b) = x)
  | _ => false
  end.

(** A seal request was answered with this identity, newly sealed or already pending. *)
Definition seal_reported (x : SealedIdentity) (call : Call.t) : Call.answer call → bool :=
  match call with
  | Call.CommitManifestSeal input => λ a,
      match a with
      | Ok (ManifestSealCommit.Sealed f) | Ok (ManifestSealCommit.AlreadyPending f) =>
          bool_decide ((ms_transfer_id input, sm_artifact_id f, sm_chunk_count f,
                        sm_expected_artifact_digest f) = x)
      | _ => false
      end
  | _ => λ _, false
  end.

Definition verification_commit (x : SealedIdentity) (call : Call.t) : bool :=
  match call with
  | Call.CommitArtifactVerification input =>
      bool_decide ((av_transfer_id input, av_artifact_id input, av_chunk_count input,
                    av_bound_expected_artifact_digest input) = x)
  | _ => false
  end.

Ltac wp_step :=
  match goal with
  | |- wp _ _ _ (call _ ≫= _) _ => apply wp_call_bind; [|intros ? ?]
  | |- wp _ _ _ (call _) _ => apply wp_call; [|intros ? ?]
  | |- wp _ _ _ (stamp _) _ => apply wp_stamp; [|intros ?]
  | |- wp _ _ _ (slice _ _ _) _ => apply wp_slice
  | |- wp _ _ _ (index_at _ _) _ => apply wp_index_at; [|intros ? ?]
  | |- wp _ _ _ (_ <$> _) _ => apply wp_fmap
  | |- wp _ _ _ (_ ≫= _) _ => apply wp_bind
  | |- wp _ _ _ (mret _) _ => cbn [wp mret proc_ret]
  | |- wp _ _ _ (Ret _) _ => cbn [wp]
  | |- wp _ _ _ (if ?b then _ else _) _ => destruct b eqn:?
  | |- wp _ _ _ (match ?x with _ => _ end) _ => destruct x eqn:?
  | |- wp _ _ _ (let _ := _ in _) _ => cbv zeta
  end.
Ltac wp_go := repeat wp_step.

(** The slices and indices of the resume handlers are in range. *)
Ltac in_bounds :=
  repeat match goal with
  | H : negb _ = false |- _ => apply negb_false_iff in H
  | H : (_ <? _)%nat = true |- _ => apply Nat.ltb_lt in H
  | |- context [partition_point ?f ?l] =>
      lazymatch goal with
      | _ : partition_point f l ≤ length l |- _ => fail
      | _ => pose proof (partition_point_le f l)
      end
  end; rewrite ?length_fmap in *; simpl in *; lia.

Section TurnsPay.
Context {ent : Entropy} {dbg : StrDebug}.

Ltac pay := unfold pays, cost, settle_slack in *; simpl in *; try lia.
Ltac unfold_turn := unfold turn, serve, send_or_break, send_if_any, decide_authorization_query,
  handle_chunk_acceptance, handle_manifest_seal, handle_artifact_verification,
  handle_resume_discovery_query, handle_resume_discovery_continue.

Lemma turn_pays_acceptance t i page_size :
  1 ≤ page_size →
  wp (pays (acceptance_counted t i) (chunk_commit t i))
     (settle_slack (acceptance_counted t i) (upload_approved t i) (chunk_commit t i))
     0 (turn page_size) (λ _ _, True).
Proof.
  intros Hps. unfold_turn. wp_go; first [done | in_bounds | solve [pay] | idtac].
  all: unfold pays, cost, settle_slack; simpl in *; try (split; [lia|done]).
  - rewrite (bool_decide_ext (Some (aq_chunk_index (body m)) = Some i) (aq_chunk_index (body m) = i))
      by naive_solver. rewrite andb_true_r. lia.
  - destruct H0 as [-> ->]. lia.
Qed.

Lemma turn_pays_verification x page_size :
  1 ≤ page_size →
  wp (pays (verification_counted x) (verification_commit x))
     (settle_slack (verification_counted x) (seal_reported x) (verification_commit x))
     0 (turn page_size) (λ _ _, True).
Proof.
  intros Hps. unfold_turn. wp_go; first [done | in_bounds | solve [pay] | idtac].
  all: unfold pays, cost, settle_slack; simpl in *; try (split; [lia|done]).
Qed.
End TurnsPay.

(** ** The durable state *)

Section Durable.
Context {b64 : Base64} {sha : Sha256} {ed : Ed25519} {ent : Entropy} {chrono : ChronoRange}
  {disp : UuidDisplay} {simple : UuidSimple} {kind : UuidKind} {dbg : StrDebug}.

(** The control plane refines the data plane. Whatever connections, handshakes,
    cancellations and services interleave, the durable state is one the data-plane
    operations reach by themselves, so all that holds of those states holds here; and
    each step of the control plane performs at most one of those operations on it. *)
Theorem control_plane_refines (tw : TransferWorld) (cap page_size k0 n : nat) (tr : list Event.t)
    (w : ControlWorld) (k : nat) :
  treachable tw k0 → creaches (empty_control tw cap page_size) k0 n tr w k →
  treachable (cw_transfer w) k
  ∧ ∀ ev w' k', cstep w k ev w' k' →
      cw_transfer w' = cw_transfer w
      ∨ ∃ o, in_range o ∧ run_transfer_op (cw_transfer w) o k = (cw_transfer w', k').
Proof.
  intros (epoch & capacity & H0) Hr. split.
  - exists epoch, capacity. eapply treaches_trans; [done|]. by apply creaches_treaches in Hr.
  - intros ev w' k' [[? _]|?]%cstep_op; auto.
Qed.
End Durable.

Section Discipline.
Context {b64 : Base64} {sha : Sha256} {ed : Ed25519} {ent : Entropy} {chrono : ChronoRange}
  {disp : UuidDisplay} {simple : UuidSimple} {kind : UuidKind} {dbg : StrDebug}.

(** C16. Handles are spent at most once, on the connection that was granted them. In any
    interleaving of connections and services: when a connection attempts the durable
    commit of a chunk, its current generation has been granted the upload of this very
    chunk more often than it has already attempted to commit it; and when it reports the
    verification of an Artifact, it has been told the seal of this very Artifact, chunk
    count and digest more often than it has already reported on it. *)
Theorem handles_spent_once (tw : TransferWorld) (cap page_size k0 n : nat) (tr : list Event.t)
    (w : ControlWorld) (k i c : nat) (g : ConnectionGeneration) (call : Call.t)
    (a : Call.answer call) :
  treachable tw k0 → creaches (empty_control tw cap page_size) k0 n tr w k →
  tr !! i = Some (Event.Called c g call a) →
  (∀ t j, chunk_commit t j call = true →
     spent (upload_approved t j) (chunk_commit t j) c (take i tr)
       < granted (upload_approved t j) (chunk_commit t j) c (take i tr))
  ∧ (∀ x, verification_commit x call = true →
       spent (seal_reported x) (verification_commit x) c (take i tr)
         < granted (seal_reported x) (verification_commit x) c (take i tr)).
Proof.
  intros Hwf%treachable_wf Hr Hev. split.
  - intros t j. eapply (spent_within_granted (acceptance_counted t j)); try done;
      [|by apply empty_starts]. apply turn_pays_acceptance. lia.
  - intros x. eapply (spent_within_granted (verification_counted x)); try done;
      [|by apply empty_starts]. apply turn_pays_verification. lia.
Qed.
End Discipline.

(** ** The one authoritative connection *)

(** The connection whose generation began last, unless it has closed since. *)
Definition latest_event (l : option nat) (ev : Event.t) : option nat :=
  match ev with
  | Event.Began c _ => Some c
  | Event.Closed c => if decide (l = Some c) then None else l
  | Event.Restarted => None
  | _ => l
  end.
Definition latest (tr : list Event.t) : option nat := foldl latest_event None tr.

Lemma latest_app tr ev : latest (tr ++ ev) = foldl latest_event (latest tr) ev.
Proof. unfold latest. by rewrite foldl_app. Qed.

(** The generation a connection drew, and the one it has begun. *)
Definition drawn (ph : Phase.t) : option ConnectionGeneration :=
  match ph with
  | Phase.Installing g _ => Some g
  | Phase.Opening s | Phase.Serving s _ => Some (st_generation s)
  | _ => None
  end.
Definition begun (ph : Phase.t) : option ConnectionGeneration :=
  match ph with Phase.Opening s | Phase.Serving s _ => Some (st_generation s) | _ => None end.

Lemma begun_drawn ph g : begun ph = Some g → drawn ph = Some g.
Proof. by destruct ph. Qed.

(** A call that issued, used up or read something of the connection's store. *)
Definition authority_used (call : Call.t) : Call.answer call → bool :=
  match call with
  | Call.MintAcceptance _ | Call.MintVerification _ | Call.MintResumeCursor _
  | Call.ConsumeAcceptance _ _ _ | Call.ConsumeVerification _ | Call.RegisterResumeSnapshot _
  | Call.AdvanceResumeCursor _ _ _ => λ a, is_ok a
  | Call.GetResumeCursorBinding _ | Call.GetResumeSnapshot _ => λ a, some a
  | _ => λ _, false
  end.

Definition acts (ev : Event.t) : option nat :=
  match ev with
  | Event.Called c _ call a => if authority_used call a then Some c else None
  | _ => None
  end.

Section Authority.
Context {b64 : Base64} {sha : Sha256} {ed : Ed25519} {ent : Entropy} {chrono : ChronoRange}
  {disp : UuidDisplay} {simple : UuidSimple} {kind : UuidKind} {dbg : StrDebug}.

Lemma with_current_generation {A} reg s
    (op : Gen (TransientWorkerOperationStore * result TransientOperationError.t A)) k :
  (∀ k, st_generation (op k).1.1 = st_generation s) →
  st_generation (with_current reg s op k).1.1 = st_generation s.
Proof. intros H. rewrite with_current_cases. by case_match. Qed.

Lemma with_current_used {A} reg s
    (op : Gen (TransientWorkerOperationStore * result TransientOperationError.t A)) k :
  is_ok (with_current reg s op k).1.2 = true → is_current reg (st_generation s) = true.
Proof. rewrite with_current_cases. by case_match. Qed.

Ltac store_op := intros ?; repeat (case_match; try done);
  unfold mbind, gen_bind, mret, gen_ret in *;
  repeat (case_match; simplify_eq/=; try done).

(** A call works on its own store: the store keeps its generation and its bounds. *)
Lemma exec_generation tw reg s e call k tw' s' a k' :
  exec tw reg s e call k = ((tw', s', a), k') → st_generation s' = st_generation s.
Proof.
  assert (∀ (B : Type) (g : Gen (TransientWorkerOperationStore * result TransientOperationError.t B)) s2 b,
            st_generation (g k).1.1 = st_generation s →
            (r ← g; mret (tw, r.1, r.2)) k = ((tw', s2, b), k') →
            st_generation s2 = st_generation s) as Hstore.
  { intros B g s2 b Hg. unfold mbind, gen_bind, mret, gen_ret.
    destruct (g k) as [[s3 b3] k1]. simpl in *. by intros [= <- <- <- <-]. }
  destruct call; cbn [exec]; try (by intros [= <- <- <- <-]).
  1-7: eapply Hstore; apply with_current_generation; store_op.
  intros [= <- <- <- <-]. unfold drop_resume_snapshot. rewrite linearized_on_is_current.
  by case_match.
Qed.

Lemma exec_used tw reg s e call k tw' s' a k' :
  exec tw reg s e call k = ((tw', s', a), k') → authority_used call a = true →
  is_current reg (st_generation s) = true.
Proof.
  assert (∀ (B : Type) (g : Gen (TransientWorkerOperationStore * result TransientOperationError.t B)) s2 b,
            (is_ok (g k).1.2 = true → is_current reg (st_generation s) = true) →
            (r ← g; mret (tw, r.1, r.2)) k = ((tw', s2, b), k') →
            is_ok b = true → is_current reg (st_generation s) = true) as Hstore.
  { intros B g s2 b Hg. unfold mbind, gen_bind, mret, gen_ret.
    destruct (g k) as [[s3 b3] k1]. simpl in *. by intros [= <- <- <- <-]. }
  destruct call; cbn [exec authority_used]; try done;
    try (eapply Hstore; apply with_current_used).
  all: intros [= <- <- <- <-]; unfold resume_cursor_binding, resume_snapshot;
    rewrite linearized_on_is_current; by destruct (is_current _ _).
Qed.

Record authority_inv (n : nat) (tr : list Event.t) (w : ControlWorld) : Prop := {
  ai_next : (1 ≤ wa_next_generation (cw_registry w) ≤ N.of_nat n + 1)%N;
  ai_drawn c ph g : cw_connections w !! c = Some ph → drawn ph = Some g →
    (g < wa_next_generation (cw_registry w))%N;
  ai_distinct c c' ph ph' g : cw_connections w !! c = Some ph → cw_connections w !! c' = Some ph' →
    drawn ph = Some g → drawn ph' = Some g → c = c';
  ai_latest : match latest tr with
              | Some c => ∃ g id ph, wa_state (cw_registry w) = WorkerControlState.Active g id
                            ∧ cw_connections w !! c = Some ph ∧ begun ph = Some g
              | None => wa_state (cw_registry w) = WorkerControlState.NoConnection
              end;
}.

(** The current generation is the latest connection's. *)
Lemma current_latest n tr w g :
  authority_inv n tr w →
  is_current (cw_registry w) g = true ↔
  ∃ c ph, latest tr = Some c ∧ cw_connections w !! c = Some ph ∧ begun ph = Some g.
Proof.
  intros [_ _ _ Hl]. rewrite is_current_Active. split.
  - intros [id Hs]. destruct (latest tr) as [c|]; [|congruence].
    destruct Hl as (g' & id' & ph & Hs' & Hc & Hb). exists c, ph. naive_solver congruence.
  - intros (c & ph & Ht & Hc & Hb). rewrite Ht in Hl.
    destruct Hl as (g' & id' & ph' & Hs' & Hc' & Hb'). exists id'. naive_solver congruence.
Qed.

(** Changing connection [c] only, within its drawn generation, and not the registry. *)
Lemma authority_phase n tr tr' w w' c ph' :
  authority_inv n tr w → latest tr' = latest tr →
  cw_connections w' = <[c := ph']> (cw_connections w) →
  drawn ph' = cw_connections w !! c ≫= drawn → begun ph' = cw_connections w !! c ≫= begun →
  wa_state (cw_registry w') = wa_state (cw_registry w) →
  wa_next_generation (cw_registry w') = wa_next_generation (cw_registry w) →
  authority_inv (S n) tr' w'.
Proof.
  intros [H1 H2 H3 H4] Ht Hw Hd Hb Hs Hn.
  assert (∀ c1 ph1 g, cw_connections w' !! c1 = Some ph1 → drawn ph1 = Some g →
            ∃ ph2, cw_connections w !! c1 = Some ph2 ∧ drawn ph2 = Some g) as Hold.
  { intros c1 ph1 g. rewrite Hw, lookup_insert_Some. intros [[<- <-]|[_ H]]; [|by eauto].
    rewrite Hd. intros (ph2 & ? & ?)%bind_Some. by eauto. }
  split; rewrite ?Hn, ?Hs, ?Ht.
  - lia.
  - intros c1 ph1 g Hc1 Hd1. destruct (Hold _ _ _ Hc1 Hd1) as (ph2 & Hc2 & Hd2). by eapply H2.
  - intros c1 c2 ph1 ph2 g Hc1 Hc2 Hd1 Hd2.
    destruct (Hold _ _ _ Hc1 Hd1) as (ph3 & Hc3 & Hd3).
    destruct (Hold _ _ _ Hc2 Hd2) as (ph4 & Hc4 & Hd4). by eapply H3.
  - destruct (latest tr) as [c1|]; [|done]. destruct H4 as (g & id & ph1 & Ha & Hc1 & Hb1).
    destruct (decide (c1 = c)) as [->|Hne].
    + exists g, id, ph'. rewrite Hw, lookup_insert_eq, Hb, Hc1. done.
    + exists g, id, ph1. by rewrite Hw, lookup_insert_ne.
Qed.

(** Closing connection [c]. *)
Lemma authority_close n tr tr' w w' c ph g :
  authority_inv n tr w → latest tr' = latest_event (latest tr) (Event.Closed c) →
  cw_connections w !! c = Some ph → begun ph = g → drawn ph = g →
  cw_connections w' = delete c (cw_connections w) →
  cw_registry w' = match g with Some g => end_generation (cw_registry w) g | None => cw_registry w end →
  authority_inv (S n) tr' w'.
Proof.
  intros [H1 H2 H3 H4] Ht Hc Hb Hd Hw Hreg.
  assert (wa_next_generation (cw_registry w') = wa_next_generation (cw_registry w)) as Hn.
  { rewrite Hreg. destruct g; [|done]. unfold end_generation. by repeat case_match. }
  split; rewrite ?Hn.
  - lia.
  - intros c1 ph1 g1. rewrite Hw, lookup_delete_Some. intros [_ Hc1]. by eapply H2.
  - intros c1 c2 ph1 ph2 g1. rewrite Hw, !lookup_delete_Some. intros [_ Hc1] [_ Hc2].
    by eapply H3.
  - rewrite Ht, Hreg. simpl. destruct (latest tr) as [c1|]; [|].
    + destruct H4 as (g1 & id & ph1 & Ha & Hc1 & Hb1). destruct (decide (Some c1 = Some c)) as [[= ->]|Hne].
      * simplify_eq. rewrite Hb1. unfold end_generation. rewrite Ha. by rewrite bool_decide_eq_true_2.
      * assert (c1 ≠ c) by congruence. exists g1, id, ph1. rewrite Hw, lookup_delete_ne by done.
        split; [|done]. destruct g as [g|]; [|done]. unfold end_generation. rewrite Ha.
        rewrite bool_decide_eq_false_2; [done|]. intros ->.
        assert (c1 = c); [|done]. eapply H3; [done|done|by apply begun_drawn|done].
    + destruct (decide _); [done|]. destruct g; [|done]. unfold end_generation. by rewrite H4.
Qed.

(** Drawing a generation: it is new. *)
Lemma authority_fetch n tr w c id :
  authority_inv n tr w → (N.of_nat n < 2 ^ 64 - 2)%N →
  cw_connections w !! c = Some (Phase.Starting id) →
  authority_inv (S n) tr
    (cw_with_connection (cw_with_registry w (fetch_generation (cw_registry w)).2) c
       (Phase.Installing (wa_next_generation (cw_registry w)) id)).
Proof.
  intros [H1 H2 H3 H4] Hn Hc.
  assert (((wa_next_generation (cw_registry w) + 1) mod 2 ^ 64)%N
          = (wa_next_generation (cw_registry w) + 1)%N) as Hmod by (apply N.mod_small; lia).
  split; simpl; rewrite ?Hmod.
  - lia.
  - intros c1 ph1 g. rewrite lookup_insert_Some. intros [[<- <-]|[_ Hc1]] Hd; simpl in *.
    + simplify_eq. lia.
    + specialize (H2 _ _ _ Hc1 Hd). lia.
  - intros c1 c2 ph1 ph2 g. rewrite !lookup_insert_Some.
    intros [[<- <-]|[Hn1 Hc1]] [[<- <-]|[Hn2 Hc2]] Hd1 Hd2; simpl in *; simplify_eq; [done|..].
    + specialize (H2 _ _ _ Hc2 Hd2). lia.
    + specialize (H2 _ _ _ Hc1 Hd1). lia.
    + by eapply H3.
  - destruct (latest tr) as [c1|]; [|done]. destruct H4 as (g & id1 & ph1 & Ha & Hc1 & Hb1).
    exists g, id1, ph1. split; [done|]. split; [|done]. rewrite lookup_insert_ne; [done|]. intros ->. by simplify_eq.
Qed.

(** Installing it: this connection is the latest. *)
Lemma authority_install n tr w c g id :
  authority_inv n tr w → cw_connections w !! c = Some (Phase.Installing g id) →
  authority_inv (S n) (tr ++ [Event.Began c g])
    (cw_with_connection (cw_with_registry w (install_generation (cw_registry w) g id)) c
       (Phase.Opening (TransientWorkerOperationStore_new g
                         (wa_operations_capacity (cw_registry w))))).
Proof.
  intros [H1 H2 H3 H4] Hc. split; simpl.
  - lia.
  - intros c1 ph1 g1. rewrite lookup_insert_Some. intros [[<- <-]|[_ Hc1]] Hd.
    + exact (H2 _ _ _ Hc Hd).
    + exact (H2 _ _ _ Hc1 Hd).
  - intros c1 c2 ph1 ph2 g1. rewrite !lookup_insert_Some.
    intros [[<- <-]|[Hn1 Hc1]] [[<- <-]|[Hn2 Hc2]] Hd1 Hd2; [done|..].
    + exact (H3 _ _ _ _ _ Hc Hc2 Hd1 Hd2).
    + exact (H3 _ _ _ _ _ Hc1 Hc Hd1 Hd2).
    + exact (H3 _ _ _ _ _ Hc1 Hc2 Hd1 Hd2).
  - rewrite latest_app. simpl. eexists g, id, _. rewrite lookup_insert_eq. done.
Qed.

Lemma cstep_authority n tr w k ev w' k' :
  cstep w k ev w' k' → authority_inv n tr w → (N.of_nat n < 2 ^ 64 - 2)%N →
  authority_inv (S n) (tr ++ ev) w'.
Proof.
  intros Hstep Hi Hn.
  assert (∀ ev, foldl latest_event (latest tr) ev = latest tr → latest (tr ++ ev) = latest tr) as Hl.
  { intros ev' <-. by rewrite latest_app. }
  destruct Hstep as [|c Hc|c first sent reply id k' Hc _|c first sent reply err k' Hc _|c id Hc
    |c g id Hc|c s Hc|c s call rest e tw s' a k' Hc He Hend|c s call rest e tw s' a k' Hc He Hend
    |c s call rest e tw s' a k' Hc He Hend|c s Hc|c s Hc|c s p Hc|c Hc|o tw k' _ _ _|ops tw k' _].
  - rewrite app_nil_r. destruct Hi. by split; simpl; [lia|..].
  - eapply (authority_phase n tr); [done|by apply Hl|done|by rewrite Hc..|done|done].
  - eapply (authority_phase n tr); [done|by apply Hl|done|by rewrite Hc..|done|done].
  - eapply (authority_close n tr); [done|by rewrite latest_app|done|done|done|done|done].
  - rewrite app_nil_r. by apply authority_fetch.
  - by apply authority_install.
  - eapply (authority_phase n tr); [done|by apply Hl|done|by rewrite Hc..| |];
      simpl; unfold set_current_operations; rewrite linearized_on_is_current; by case_match.
  - pose proof (exec_generation _ _ _ _ _ _ _ _ _ _ He) as Hg.
    eapply (authority_phase n tr); [done|by apply Hl|done|rewrite Hc; simpl; by rewrite Hg..|done|done].
  - pose proof (exec_generation _ _ _ _ _ _ _ _ _ _ He) as Hg. rewrite Hg.
    eapply (authority_close n tr); [done|by rewrite latest_app|done|done|done|done|done].
  - pose proof (exec_generation _ _ _ _ _ _ _ _ _ _ He) as Hg. rewrite Hg.
    eapply (authority_close n tr); [done|by rewrite latest_app|done|done|done|done|done].
  - eapply (authority_close n tr); [done|by rewrite latest_app|done|done|done|done|done].
  - eapply (authority_phase n tr); [done|by apply Hl|done|by rewrite Hc..|done|done].
  - eapply (authority_close n tr); [done|by rewrite latest_app|done|done|done|done|done].
  - eapply (authority_close n tr); [done|by rewrite latest_app|done|done|done|done|done].
  - rewrite app_nil_r. destruct Hi. by split; simpl; [lia|..].
  - split; simpl.
    + lia.
    + intros c ph g. by rewrite lookup_empty.
    + intros c c' ph ph' g. by rewrite lookup_empty.
    + by rewrite latest_app.
Qed.

Lemma creaches_authority tw cap page_size k0 n tr w k :
  creaches (empty_control tw cap page_size) k0 n tr w k → (N.of_nat n < 2 ^ 64 - 1)%N →
  authority_inv n tr w
  ∧ ∀ i ev c, tr !! i = Some ev → acts ev = Some c → latest (take i tr) = Some c.
Proof.
  intros Hr. induction Hr as [|n tr w1 k1 ev w2 k2 Hr IH Hstep]; intros Hn.
  - split; [|done]. split; simpl; [lia|by intros ? ? ?; rewrite lookup_empty
      |by intros ? ? ? ? ?; rewrite lookup_empty|done].
  - destruct IH as [Hi He]; [lia|]. split; [eapply cstep_authority; [done|done|lia]|].
    intros i ev' c Hev Hused. destruct (decide (i < length tr)) as [Hlt|Hge].
    { rewrite lookup_app_l in Hev by done. rewrite take_app_le by lia. by eapply He. }
    rewrite lookup_app_r in Hev by lia.
    assert (∃ ph, i - length tr = 0 ∧ cw_connections w1 !! c = Some ph
              ∧ ∃ gen, begun ph = Some gen ∧ is_current (cw_registry w1) gen = true)
      as (ph & Hi0 & Hc & gen & Hb & Hcur).
    { revert Hev. generalize (i - length tr) as j. intros j.
      destruct Hstep as [|?|? ? ? ? ? ? ? ?|? ? ? ? ? ? ? ?|? ? ?|? ? ? ?|? ? ?
        |c1 s call1 rest e tw1 s' a1 k' Hc Hex Hend|c1 s call1 rest e tw1 s' a1 k' Hc Hex Hend
        |c1 s call1 rest e tw1 s' a1 k' Hc Hex Hend|? ? ?|? ? ?|? ? ? ?|? ?|? ? ? ? ? ?|? ? ? ?];
        try (destruct j as [|[|[|j]]]; simpl; intros [=]; by subst).
      all: destruct j as [|[|[|j]]]; simpl; intros [= <-]; simpl in Hused; try done.
      all: destruct (authority_used call1 a1) eqn:Hu; [|done]; injection Hused as <-.
      all: eauto 10 using exec_used. }
    replace i with (length tr) by lia. rewrite take_app_length.
    apply (current_latest _ _ _ _ Hi) in Hcur as (c' & ph' & Hlat & Hc' & Hb').
    rewrite Hlat. f_equal. eapply (ai_distinct _ _ _ Hi); [done|done|by apply begun_drawn..].
Qed.

(** C17. Only the latest connection acts. At every point of an interleaving of fewer than
    2^64 - 1 steps, the registry's current generation is that of the connection whose
    generation began last and which has not closed since, whatever other connections do
    and in whichever order they end. A handle or cursor is issued, used up or read only by
    that connection: one that was superseded never again succeeds. *)
Theorem only_latest_connection_acts (tw : TransferWorld) (cap page_size k0 n : nat)
    (tr : list Event.t) (w : ControlWorld) (k : nat) :
  creaches (empty_control tw cap page_size) k0 n tr w k → (N.of_nat n < 2 ^ 64 - 1)%N →
  (∀ g, is_current (cw_registry w) g = true ↔
     ∃ c ph, latest tr = Some c ∧ cw_connections w !! c = Some ph ∧ begun ph = Some g)
  ∧ ∀ i ev c, tr !! i = Some ev → acts ev = Some c → latest (take i tr) = Some c.
Proof.
  intros Hr Hn. destruct (creaches_authority _ _ _ _ _ _ _ _ Hr Hn) as [Hi Hacts].
  split; [|done]. intros g. by apply (current_latest n).
Qed.
End Authority.

(** ** Bounds *)

Section Bounds.
Context {b64 : Base64} {sha : Sha256} {ed : Ed25519} {ent : Entropy} {chrono : ChronoRange}
  {disp : UuidDisplay} {simple : UuidSimple} {kind : UuidKind} {dbg : StrDebug}.

Definition within_capacity (s : TransientWorkerOperationStore) : Prop :=
  size (st_bindings s) ≤ st_capacity s
  ∧ size (st_resume_snapshots s) ≤ st_resume_snapshot_capacity s.

Lemma new_within_capacity g cap : within_capacity (TransientWorkerOperationStore_new g cap).
Proof. split; simpl; rewrite map_size_empty; lia. Qed.

(** What an operation of the store must do to keep its bounds. *)
Definition keeps_bounds (s s' : TransientWorkerOperationStore) : Prop :=
  st_capacity s' = st_capacity s
  ∧ st_resume_snapshot_capacity s' = st_resume_snapshot_capacity s
  ∧ (within_capacity s → within_capacity s').

Lemma keeps_bounds_refl s : keeps_bounds s s.
Proof. done. Qed.

Lemma keeps_bounds_bindings s m :
  (size (st_bindings s) ≤ st_capacity s → size m ≤ st_capacity s) →
  keeps_bounds s (with_bindings_map s m).
Proof. intros H. split; [done|]. split; [done|]. intros [H1 H2]. split; simpl; auto. Qed.

Lemma keeps_bounds_snapshots s m :
  (size (st_resume_snapshots s) ≤ st_resume_snapshot_capacity s →
   size m ≤ st_resume_snapshot_capacity s) →
  keeps_bounds s (with_snapshots_map s m).
Proof. intros H. split; [done|]. split; [done|]. intros [H1 H2]. split; simpl; auto. Qed.

Lemma size_insert_lt {K V} `{Countable K} (m : gmap K V) i x n :
  (n <=? size m)%nat = false → size (<[i := x]> m) ≤ n.
Proof.
  intros Hn%Nat.leb_gt. rewrite map_size_insert. case_match; simpl; lia.
Qed.

Lemma size_delete_le {K V} `{Countable K} (m : gmap K V) i : size (delete i m) ≤ size m.
Proof. rewrite map_size_delete. case_match; simpl; lia. Qed.

Lemma with_current_bounds {A} reg s
    (op : Gen (TransientWorkerOperationStore * result TransientOperationError.t A)) k :
  (∀ k, keeps_bounds s (op k).1.1) → keeps_bounds s (with_current reg s op k).1.1.
Proof. intros H. rewrite with_current_cases. by case_match. Qed.

Lemma exec_bounds tw reg s e call k tw' s' a k' :
  exec tw reg s e call k = ((tw', s', a), k') → keeps_bounds s s'.
Proof.
  assert (∀ (B : Type) (g : Gen (TransientWorkerOperationStore * result TransientOperationError.t B)) s2 b,
            keeps_bounds s (g k).1.1 →
            (r ← g; mret (tw, r.1, r.2)) k = ((tw', s2, b), k') → keeps_bounds s s2) as Hstore.
  { intros B g s2 b Hg. unfold mbind, gen_bind, mret, gen_ret.
    destruct (g k) as [[s3 b3] k1]. simpl in *. by intros [= <- <- <- <-]. }
  assert (∀ hk b k, keeps_bounds s (insert_fresh reg s hk b k).1.1) as Hmint.
  { intros hk b k2. apply with_current_bounds. intros k3.
    destruct (_ <=? _)%nat eqn:Hs; [apply keeps_bounds_refl|]. unfold mbind, gen_bind.
    destruct (choose _ _ _ _) as [[id|] k4]; [|apply keeps_bounds_refl].
    apply keeps_bounds_bindings. intros _. by apply size_insert_lt. }
  destruct call; cbn [exec]; try (by intros [= <- <- <- <-]).
  - eapply Hstore, Hmint.
  - eapply Hstore, with_current_bounds. intros k3. repeat case_match; try apply keeps_bounds_refl.
    apply keeps_bounds_bindings. intros. etrans; [apply size_delete_le|done].
  - eapply Hstore, Hmint.
  - eapply Hstore, with_current_bounds. intros k3. repeat case_match; try apply keeps_bounds_refl.
    apply keeps_bounds_bindings. intros. etrans; [apply size_delete_le|done].
  - eapply Hstore, with_current_bounds. intros k3.
    destruct (_ <=? _)%nat eqn:Hs; [apply keeps_bounds_refl|]. unfold mbind, gen_bind.
    destruct (choose _ _ _ _) as [[id|] k4]; [|apply keeps_bounds_refl].
    apply keeps_bounds_snapshots. intros _. by apply size_insert_lt.
  - eapply Hstore, Hmint.
  - eapply Hstore, with_current_bounds. intros k3.
    destruct (st_bindings s !! cursor) as [[| |b]|] eqn:Hb; try apply keeps_bounds_refl.
    destruct (negb _); [apply keeps_bounds_refl|].
    destruct next as [state|].
    + unfold mbind, gen_bind. destruct (choose _ _ _ _) as [[id|] k4]; [|apply keeps_bounds_refl].
      apply keeps_bounds_bindings. intros Hle. rewrite map_size_insert, map_size_delete, Hb. simpl.
      assert (size (st_bindings s) ≠ 0).
      { intros H%map_size_empty_inv. by rewrite H, lookup_empty in Hb. }
      case_match; simpl; lia.
    + apply keeps_bounds_bindings. intros. etrans; [apply size_delete_le|done].
  - intros [= <- <- <- <-]. unfold drop_resume_snapshot. rewrite linearized_on_is_current.
    destruct (is_current _ _); [|apply keeps_bounds_refl]. apply keeps_bounds_snapshots.
    intros. etrans; [apply size_delete_le|done].
Qed.

(** No call is forbidden; a task satisfies this when it never panics. *)
Definition any_call (g : unit) (call : Call.t) : Prop := True.
Definition no_ghost (g : unit) (call : Call.t) (a : Call.answer call) : unit := ().

Lemma turn_never_panics page_size :
  1 ≤ page_size → wp any_call no_ghost () (turn page_size) (λ _ _, True).
Proof.
  intros Hps. unfold turn, serve, send_or_break, send_if_any, decide_authorization_query,
    handle_chunk_acceptance, handle_manifest_seal, handle_artifact_verification,
    handle_resume_discovery_query, handle_resume_discovery_continue.
  wp_go; first [done | in_bounds | by split].
Qed.

Definition bounded_task (cap : nat) (g : unit) (s : TransientWorkerOperationStore)
    (p : proc Flow.t) : Prop :=
  within_capacity s ∧ st_capacity s = cap ∧ st_resume_snapshot_capacity s = DEFAULT_RESUME_SNAPSHOT_CAPACITY
  ∧ wp any_call no_ghost () p (λ _ _, True).

(** C37. Stores stay bounded and handlers do not panic. In any interleaving each
    connection holds at most the configured number of handles and cursors (at least one)
    and at most 64 resume snapshots, and no handler ever panics: the slices and indices of
    the resume pages are always in range. *)
Theorem stores_bounded (tw : TransferWorld) (cap page_size k0 n : nat) (tr : list Event.t)
    (w : ControlWorld) (k : nat) :
  treachable tw k0 → creaches (empty_control tw cap page_size) k0 n tr w k →
  (∀ c s p, cw_connections w !! c = Some (Phase.Serving s p) →
     size (st_bindings s) ≤ cap `max` 1 ∧ size (st_resume_snapshots s) ≤ 64)
  ∧ ∀ c, Event.Panicked c ∉ tr.
Proof.
  intros Hwf%treachable_wf Hr. pose proof (empty_starts tw cap page_size Hwf) as Hs.
  assert (1 ≤ page_size `max` 1) as Hps by lia.
  assert (∀ g s call rest tw reg e k tw' s' a k', world_wf tw →
            bounded_task (cap `max` 1) g s (Do call rest) →
            exec tw reg s e call k = ((tw', s', a), k') →
            bounded_task (cap `max` 1) (no_ghost g call a) s' (rest a)) as Hcall.
  { intros [] s call rest tw1 reg e k1 tw' s' a k2 Hw (Hin & Hc & Hsc & [_ Hwp]) Hex.
    destruct (exec_bounds _ _ _ _ _ _ _ _ _ _ Hex) as (H1 & H2 & H3).
    split_and!; [by apply H3|congruence|congruence|by eapply Hwp, exec_answer_ok]. }
  split.
  - intros c s p Hc.
    edestruct (creaches_tasks () no_ghost (bounded_task (cap `max` 1)) (page_size `max` 1)
                 (cap `max` 1)) as [Hw _]; [..|exact Hcall|exact Hr|exact Hs|].
    + intros g. split_and!; [apply new_within_capacity|simpl; lia|done|by apply turn_never_panics].
    + intros [] s1 (? & ? & ? & _). split_and!; [done..|by apply turn_never_panics].
    + destruct (Hw c _ Hc) as ([H1 H2] & Hcap & Hsc & _). rewrite Hcap in H1. rewrite Hsc in H2.
      done.
  - eapply (creaches_no_panic () no_ghost (bounded_task (cap `max` 1)) (page_size `max` 1)
              (cap `max` 1)); [..|exact Hcall| |exact Hr|exact Hs].
    + intros g. split_and!; [apply new_within_capacity|simpl; lia|done|by apply turn_never_panics].
    + intros [] s1 (? & ? & ? & _). split_and!; [done..|by apply turn_never_panics].
    + by intros g s1 (_ & _ & _ & Hp).
Qed.
End Bounds.
