(* ===== verification/WorkerReplies.v ===== *)
(** * What the server answers a Worker

    Every message the server sends on a connection is legal, freshly stamped and the only
    answer to the message it received last, of the type that request calls for; a
    generation begins only after a valid hello. Two places where the code departs from its
    comments are shown by what it does: a connection is kept after an unexpected message,
    and the envelope of a request is not checked. *)

From stdpp Require Import prelude gmap strings sorting.
From Stdlib Require Import Strings.Byte NArith ZArith.
From S2P Require Import Prelude.
From S2P Require Import External.
From S2P Require Import Endpoint.
From S2P Require Import EnrollmentStore.
From S2P Require Import Job.
From S2P Require Import Transfer.
From S2P Require Import TransferAuth.
From S2P Require Import TransferStore.
From S2P Require Import TransferEvidence.
From S2P Require Import TransferSafety.
From S2P Require Import TransferTheorems.
From S2P Require Import WorkerProtocol.
From S2P Require Import WorkerFraming.
From S2P Require Import WorkerOperations.
From S2P Require Import WorkerControl.
From S2P Require Import WorkerSafety.
From S2P Require Import WorkerTheorems.

(** The last message of a connection, and whether it has been answered. *)
Record Exchange : Type := {
  ex_request : option WorkerProtocolMessage.t;
  ex_replied : bool;
}.

Definition no_exchange : Exchange := {| ex_request := None; ex_replied := true |}.

Definition exchange_call (g : Exchange) (call : Call.t) : Call.answer call → Exchange :=
  match call with
  | Call.Receive => λ a,
      {| ex_request := match a with Incoming.Received (Ok m) => Some m | _ => None end;
         ex_replied := false |}
  | Call.Send _ => λ _, {| ex_request := ex_request g; ex_replied := true |}
  | _ => λ _, g
  end.

Definition exchange (c : nat) (tr : list Event.t) : Exchange := ghost no_exchange exchange_call c tr.

Section Answers.
Context {kind : UuidKind}.

Definition request_id (m : WorkerProtocolMessage.t) : Uuid :=
  env_message_id (WorkerProtocolMessage.get_envelope m).

(** The answer a request calls for. *)
Definition answers (request reply : WorkerProtocolMessage.t) : Prop :=
  match request, reply with
  | WorkerProtocolMessage.AuthorizationQuery _, WorkerProtocolMessage.AuthorizationDecision d =>
      AuthorizationDecisionMessage_is_reply_to d (request_id request) = true
  | WorkerProtocolMessage.ChunkAcceptanceRequest _, WorkerProtocolMessage.ChunkAcceptanceDecision d =>
      ChunkAcceptanceDecisionMessage_is_reply_to d (request_id request) = true
  | WorkerProtocolMessage.ManifestSealRequest _, WorkerProtocolMessage.ManifestSealDecision d =>
      ManifestSealDecisionMessage_is_reply_to d (request_id request) = true
  | WorkerProtocolMessage.ArtifactVerificationReport _, WorkerProtocolMessage.ArtifactVerificationAck d =>
      ArtifactVerificationAckMessage_is_reply_to d (request_id request) = true
  | WorkerProtocolMessage.ResumeDiscoveryQuery q, WorkerProtocolMessage.ResumeDiscoveryPage p =>
      ResumeDiscoveryPageMessage_is_reply_to p (request_id request) = true
      ∧ (rp_decision (body p) = ResumeDiscoveryDecision.Denied
         ∨ ∃ page, approved_first_page p = Ok page
                   ∧ fp_transfer_id page = rdq_transfer_id (body q))
  | WorkerProtocolMessage.ResumeDiscoveryContinue _, WorkerProtocolMessage.ResumeDiscoveryPage p =>
      ResumeDiscoveryPageMessage_is_reply_to p (request_id request) = true
      ∧ (rp_decision (body p) = ResumeDiscoveryDecision.Denied
         ∨ is_ok (approved_continuation_page p) = true)
  | (WorkerProtocolMessage.AuthorizationQuery _ | WorkerProtocolMessage.ChunkAcceptanceRequest _
     | WorkerProtocolMessage.ManifestSealRequest _
     | WorkerProtocolMessage.ArtifactVerificationReport _
     | WorkerProtocolMessage.ResumeDiscoveryQuery _
     | WorkerProtocolMessage.ResumeDiscoveryContinue _), _ => False
  | _, WorkerProtocolMessage.ProtocolError e => pe_code (body e) = lit "unexpected_message"
  | _, _ => False
  end.

Definition reply_ok (g : Exchange) (m : WorkerProtocolMessage.t) : Prop :=
  WorkerProtocolMessage.validate_shape m = Ok ()
  ∧ Envelope_is_valid (WorkerProtocolMessage.get_envelope m) = true
  ∧ ex_replied g = false
  ∧ match ex_request g with
    | Some request => answers request m
    | None => ∃ e, m = WorkerProtocolMessage.ProtocolError e
                   ∧ pe_code (body e) = lit "unknown_message_type"
    end.

Definition sends_replies (g : Exchange) (call : Call.t) : Prop :=
  match call with Call.Send m => reply_ok g m | _ => True end.
End Answers.

Section Replies.
Context {ent : Entropy} {kind : UuidKind} {laws : UuidV4Laws} {dbg : StrDebug}.

Ltac reply_parts k :=
  pose proof (fresh_envelope_valid k) as Hv; simpl in Hv.
Ltac is_reply Hv := unfold AuthorizationDecisionMessage_is_reply_to,
  ChunkAcceptanceDecisionMessage_is_reply_to, ManifestSealDecisionMessage_is_reply_to,
  ArtifactVerificationAckMessage_is_reply_to, ResumeDiscoveryPageMessage_is_reply_to; simpl;
  rewrite Hv, bool_decide_eq_true_2; done.

(** The four pages. *)
Lemma denied_query_reply g q k :
  ex_request g = Some (WorkerProtocolMessage.ResumeDiscoveryQuery q) → ex_replied g = false →
  reply_ok g (WorkerProtocolMessage.ResumeDiscoveryPage
                (ResumeDiscoveryPageMessage_denied (env_message_id (envelope q)) k).1).
Proof.
  reply_parts k. intros Hg Hr. unfold reply_ok. rewrite Hg.
  split_and!; [done|done|done|]. split; [is_reply Hv|by left].
Qed.

Lemma first_page_reply g q sealed alg size count held cursor k :
  ex_request g = Some (WorkerProtocolMessage.ResumeDiscoveryQuery q) → ex_replied g = false →
  some count = sealed →
  reply_ok g (WorkerProtocolMessage.ResumeDiscoveryPage
                (ResumeDiscoveryPageMessage_first_page (env_message_id (envelope q))
                   (rdq_transfer_id (body q)) sealed alg size count held cursor k).1).
Proof.
  reply_parts k. intros Hg Hr Hs. unfold reply_ok. rewrite Hg. split_and!; [|done|done|split].
  - simpl. unfold ResumeDiscoveryPageBody_validate_shape. simpl. subst sealed. by destruct count.
  - is_reply Hv.
  - right. eexists. by split; [apply first_page_read|].
Qed.

Lemma denied_continue_reply g q k :
  ex_request g = Some (WorkerProtocolMessage.ResumeDiscoveryContinue q) → ex_replied g = false →
  reply_ok g (WorkerProtocolMessage.ResumeDiscoveryPage
                (ResumeDiscoveryPageMessage_denied (env_message_id (envelope q)) k).1).
Proof.
  reply_parts k. intros Hg Hr. unfold reply_ok. rewrite Hg.
  split_and!; [done|done|done|]. split; [is_reply Hv|by left].
Qed.

Lemma continuation_page_reply g q held cursor k :
  ex_request g = Some (WorkerProtocolMessage.ResumeDiscoveryContinue q) → ex_replied g = false →
  reply_ok g (WorkerProtocolMessage.ResumeDiscoveryPage
                (ResumeDiscoveryPageMessage_continuation_page (env_message_id (envelope q)) held
                   cursor k).1).
Proof.
  reply_parts k. intros Hg Hr. unfold reply_ok. rewrite Hg.
  split_and!; [done|done|done|]. split; [is_reply Hv|by right].
Qed.

Ltac reply := match goal with
  | |- sends_replies _ (Call.Send (WorkerProtocolMessage.ResumeDiscoveryPage _)) =>
      first [ by apply denied_query_reply | by apply continuation_page_reply
            | by apply denied_continue_reply
            | apply first_page_reply; [done|done|by match goal with H : answer_ok _ _ |- _ => apply H end] ]
  | k : nat |- sends_replies _ (Call.Send _) =>
      reply_parts k; unfold sends_replies, reply_ok; simpl in *; split_and!;
      [done|done|done|first [done | by eexists
        | by match goal with H : Envelope_is_valid _ = true |- _ => is_reply H end]]
  end.

Lemma turn_replies page_size g :
  1 ≤ page_size → wp sends_replies exchange_call g (turn page_size) (λ _ _, True).
Proof.
  intros Hps. unfold turn, serve, send_or_break, send_if_any, decide_authorization_query,
    handle_chunk_acceptance, handle_manifest_seal, handle_artifact_verification,
    handle_resume_discovery_query, handle_resume_discovery_continue.
  wp_go; try exact I; try (by split); try in_bounds.
  all: unfold send_if_any, send_or_break; wp_go; try exact I; reply.
Qed.

(** What a handshake may answer and conclude. *)
Definition handshake_ok (first : result ReceiveError.t WorkerProtocolMessage.t)
    (reply : option WorkerProtocolMessage.t) (r : result HandshakeError.t Uuid) : Prop :=
  (∀ m, reply = Some m → WorkerProtocolMessage.validate_shape m = Ok ()
                         ∧ Envelope_is_valid (WorkerProtocolMessage.get_envelope m) = true)
  ∧ match r with
    | Ok id => ∃ hello sh, first = Ok (WorkerProtocolMessage.WorkerHello hello)
        ∧ WorkerHelloMessage_is_valid hello = true ∧ id = wh_worker_instance_id (body hello)
        ∧ reply = Some (WorkerProtocolMessage.ServerHello sh)
        ∧ ServerHelloMessage_is_valid_reply_to sh (env_message_id (envelope hello)) = true
    | Err _ => True
    end.

Lemma handshake_as_server_ok first sent k reply r k' :
  handshake_as_server first sent k = ((reply, r), k') → handshake_ok first reply r.
Proof.
  pose proof (fresh_envelope_valid k) as Hv. simpl in Hv.
  unfold handshake_as_server, unknown_type_error, ProtocolErrorMessage_new,
    HandshakeRejectedMessage_incompatible_version, ServerHelloMessage_new, mbind, gen_bind, mret,
    gen_ret.
  destruct first as [m|[e|[| |]]]; simpl; try (intros [= <- <- <-]; split; naive_solver).
  destruct m as [hello| | | | | | | | | | | | | |]; simpl;
    try (intros [= <- <- <-]; split; naive_solver).
  destruct (negb _ || negb _) eqn:Hid; [intros [= <- <- <-]; split; naive_solver|].
  destruct (negb (ProtocolVersion_is_v1 _)) eqn:Hp; [intros [= <- <- <-]; split; naive_solver|].
  apply orb_false_elim in Hid as [H1%negb_false_iff H2%negb_false_iff]. apply negb_false_iff in Hp.
  intros [= <- <- <-]. split; [naive_solver|]. destruct sent; [|done].
  eexists hello, _. split; [done|]. split; [|split; [done|]; split; [done|]].
  - unfold WorkerHelloMessage_is_valid. by rewrite H1, H2, Hp.
  - unfold ServerHelloMessage_is_valid_reply_to. simpl. rewrite Hv.
    rewrite bool_decide_eq_true_2; done.
Qed.
End Replies.

Section Theorems.
Context {b64 : Base64} {sha : Sha256} {ed : Ed25519} {ent : Entropy} {chrono : ChronoRange}
  {disp : UuidDisplay} {simple : UuidSimple} {kind : UuidKind} {laws : UuidV4Laws} {dbg : StrDebug}.

Lemma shook_ok w k n tr w' k' c first reply r :
  creaches w k n tr w' k' → Event.Shook c first reply r ∈ tr → handshake_ok first reply r.
Proof.
  induction 1 as [|n tr w1 k1 ev w2 k2 _ IH Hstep]; [by intros ?%elem_of_nil|].
  rewrite elem_of_app. intros [Hin|Hin]; [by apply IH|]. clear IH.
  destruct Hstep; repeat (apply elem_of_cons in Hin as [[=]|Hin]);
    try (by apply elem_of_nil in Hin); subst; by eapply handshake_as_server_ok.
Qed.

(** C32. Every message the server sends is legal and answers its request. In any
    interleaving, what a connection sends in its loop passes the receiver's validation,
    carries a valid envelope, is the only answer to the last message it received, names
    that message and is of the type it calls for (a page that reads as a first page to a
    query, as a continuation to a cursor); only an unknown or unexpected message gets a
    protocol error. A handshake succeeds only for a valid hello, which is answered by a
    [ServerHello] the Worker accepts. *)
Theorem replies_legal (tw : TransferWorld) (cap page_size k0 n : nat) (tr : list Event.t)
    (w : ControlWorld) (k : nat) :
  treachable tw k0 → creaches (empty_control tw cap page_size) k0 n tr w k →
  (∀ i c g m sent, tr !! i = Some (Event.Called c g (Call.Send m) sent) →
     reply_ok (exchange c (take i tr)) m)
  ∧ (∀ c first reply r, Event.Shook c first reply r ∈ tr → handshake_ok first reply r).
Proof.
  intros Hwf%treachable_wf Hr. split; [|by intros; eapply shook_ok].
  intros i c g m sent Hev. assert (1 ≤ page_size `max` 1) as Hps by lia.
  edestruct (creaches_tasks no_exchange exchange_call
    (λ g s p, wp sends_replies exchange_call g p (λ _ _, True)) (page_size `max` 1) (cap `max` 1))
    as [_ He]; [..|exact Hr|by apply empty_starts|].
  - intros g'. by apply turn_replies.
  - intros g' s _. by apply turn_replies.
  - intros g' s call rest tw' reg e k1 tw1 s' a k2 Hw [_ Hwp] Hex. by eapply Hwp, exec_answer_ok.
  - destruct (He i c g _ sent Hev) as (s & rest & _ & Hpre & _). exact Hpre.
Qed.
End Theorems.

(** ** How a turn ends *)

(** What arrived in this turn, and whether sending its answer failed. *)
Definition arrival (g : option Incoming.t * bool) (call : Call.t)
  : Call.answer call → option Incoming.t * bool :=
  match call with
  | Call.Receive => λ a, (Some a, false)
  | Call.Send _ => λ a, (g.1, negb a)
  | _ => λ _, g
  end.

Definition is_request (m : WorkerProtocolMessage.t) : bool :=
  match m with
  | WorkerProtocolMessage.AuthorizationQuery _ | WorkerProtocolMessage.ChunkAcceptanceRequest _
  | WorkerProtocolMessage.ResumeDiscoveryQuery _ | WorkerProtocolMessage.ResumeDiscoveryContinue _
  | WorkerProtocolMessage.ManifestSealRequest _
  | WorkerProtocolMessage.ArtifactVerificationReport _ => true
  | _ => false
  end.

Definition ends_loop (g : option Incoming.t * bool) : bool :=
  match g.1 with
  | Some (Incoming.Received (Ok m)) => is_request m && g.2
  | Some (Incoming.Received (Err (ReceiveError.Decode (DecodeError.UnknownType _)))) => false
  | Some (Incoming.Received (Err _)) => true
  | Some (Incoming.ShutdownChanged shutdown) => shutdown
  | None => false
  end.

Definition any_arrival (g : option Incoming.t * bool) (call : Call.t) : Prop := True.

(** When the request loop of a connection ends. Whatever the calls of a turn answer,
    the loop breaks if and only if receiving failed otherwise than by an unknown message
    type, shutdown was signalled, or the answer to a request could not be sent. In
    particular a message that is no request, and one of unknown type, is answered by a
    protocol error and the loop goes on, although the comment above the loop says that
    every message other than a query ends it. *)
Theorem loop_ends_exactly `{Entropy, StrDebug} (resume_page_size : nat) :
  wp any_arrival arrival (None, false) (turn (S resume_page_size))
    (λ g flow, flow = Flow.Break ↔ ends_loop g = true).
Proof.
  assert (1 ≤ S resume_page_size) as Hps by lia. revert Hps. generalize (S resume_page_size) as ps.
  intros ps Hps. unfold turn, serve, send_or_break, send_if_any, decide_authorization_query,
    handle_chunk_acceptance, handle_manifest_seal, handle_artifact_verification,
    handle_resume_discovery_query, handle_resume_discovery_continue.
  wp_go; first [done | in_bounds | clear; simpl; repeat case_match; by split
    | clear; split; [done|]; intros []; simpl; by split].
Qed.

(** ** Envelopes of requests *)

Definition with_envelope_of (e : Envelope) (m : WorkerProtocolMessage.t) : WorkerProtocolMessage.t :=
  match m with
  | WorkerProtocolMessage.AuthorizationQuery q =>
      WorkerProtocolMessage.AuthorizationQuery {| envelope := e; body := body q |}
  | WorkerProtocolMessage.ChunkAcceptanceRequest q =>
      WorkerProtocolMessage.ChunkAcceptanceRequest {| envelope := e; body := body q |}
  | WorkerProtocolMessage.ResumeDiscoveryQuery q =>
      WorkerProtocolMessage.ResumeDiscoveryQuery {| envelope := e; body := body q |}
  | WorkerProtocolMessage.ResumeDiscoveryContinue q =>
      WorkerProtocolMessage.ResumeDiscoveryContinue {| envelope := e; body := body q |}
  | WorkerProtocolMessage.ManifestSealRequest q =>
      WorkerProtocolMessage.ManifestSealRequest {| envelope := e; body := body q |}
  | WorkerProtocolMessage.ArtifactVerificationReport q =>
      WorkerProtocolMessage.ArtifactVerificationReport {| envelope := e; body := body q |}
  | m => m
  end.

(** The first call of a task. *)
Definition first_call {A} (p : proc A) : option Call.t :=
  match p with Do call _ => Some call | _ => None end.

(** The envelope of a request is never checked. For every request and every envelope,
    one of another protocol version or with an identity that is no version-4 UUID included,
    the server makes the same first call: it authorizes, consumes or commits what the body
    says, although the documentation of [Envelope::is_valid] has a receiver validate the
    envelope of every inbound message. *)
Theorem request_envelopes_unchecked `{Entropy, StrDebug} (resume_page_size : nat) (e : Envelope)
    (m : WorkerProtocolMessage.t) :
  first_call (serve resume_page_size (with_envelope_of e m)) = first_call (serve resume_page_size m)
  ∧ (is_request m = true →
     WorkerProtocolMessage.get_envelope (with_envelope_of e m) = e
     ∧ first_call (serve resume_page_size m) ≠ Some Call.Stamp).
Proof. destruct m; by split. Qed.
