(* ===== verification/WorkerResume.v ===== *)
(** * Paginated resume discovery

    The held chunks of a Transfer are handed to a Worker page by page, through cursors and
    a snapshot kept in the connection's store. Whatever other requests and connections do
    in between, the pages of one query add up to exactly the list that was held when the
    query was authorized. *)

From stdpp Require Import prelude gmap strings sorting.
From Stdlib Require Import Strings.Byte NArith ZArith.
From S2P Require Import Prelude.
From S2P Require Import External.
From S2P Require Import Endpoint.
From S2P Require Import EnrollmentStore.
From S2P Require Import Job.
From S2P Require Import Transfer.
From S2P Require Import TransferAuth.
From S2P Require Import TransferStore.
From S2P Require Import TransferEvidence.
From S2P Require Import TransferSafety.
From S2P Require Import TransferTheorems.
From S2P Require Import WorkerProtocol.
From S2P Require Import WorkerFraming.
From S2P Require Import WorkerOperations.
From S2P Require Import WorkerControl.
From S2P Require Import WorkerSafety.
From S2P Require Import WorkerTheorems.

(** ** Positions in an ascending list *)

Definition ascending_entries (held : list HeldChunkEntry) : Prop :=
  StronglySorted N.lt (hce_chunk_index <$> held) ∧ Forall (λ e, hce_chunk_index e < 2 ^ 32)%N held.

Definition before (next : N) (e : HeldChunkEntry) : bool := (hce_chunk_index e <? next)%N.

Lemma partition_point_all {A} (pred : A → bool) l i a :
  l !! i = Some a → i < partition_point pred l → pred a = true.
Proof.
  revert i. induction l as [|b l IH]; intros [|i]; simpl; try done.
  - intros [= ->]. case_match; [done|lia].
  - intros Hl. case_match; [|lia]. intros Hi. apply (IH i); [done|lia].
Qed.

(** Right behind the chunk at [i]. *)
Lemma partition_point_behind held i e :
  ascending_entries held → held !! i = Some e →
  partition_point (before (u64_succ (hce_chunk_index e))) held = S i.
Proof.
  intros [Hs Hb] Hi.
  assert (u64_succ (hce_chunk_index e) = hce_chunk_index e + 1)%N as ->.
  { rewrite Forall_forall in Hb. specialize (Hb e (list_elem_of_lookup_2 _ _ _ Hi)).
    unfold u64_succ. apply N.mod_small. lia. }
  clear Hb. revert i Hi. induction held as [|x held IH]; intros i Hi; [done|].
  simpl in Hs. inversion_clear Hs as [|? ? Hs' Hlt]. simpl. unfold before at 1.
  destruct i as [|i]; simpl in Hi.
  - injection Hi as ->. rewrite (proj2 (N.ltb_lt _ _)) by lia. f_equal.
    destruct held as [|y held]; [done|]. simpl. unfold before. rewrite (proj2 (N.ltb_ge _ _)); [done|].
    apply Forall_cons in Hlt as [Hlt _]. lia.
  - rewrite (proj2 (N.ltb_lt _ _)).
    + f_equal. by apply IH.
    + rewrite Forall_forall in Hlt.
      assert (hce_chunk_index x < hce_chunk_index e)%N; [|lia]. apply Hlt.
      apply list_elem_of_fmap. exists e. split; [done|]. by eapply list_elem_of_lookup_2.
Qed.

(** ** What the connection has handed out *)

(** Since the last message of the connection: what an authorization listed. For each
    cursor announced to the Worker: the whole list it is about and the part of it handed
    out so far. And which snapshot identities were drawn, with whether one came twice. *)
Record Pages : Type := {
  pg_request : option WorkerProtocolMessage.t;
  pg_listed : option (list HeldChunk);
  pg_cursors : gmap str (list HeldChunk * list HeldChunk);
  pg_snapshots : gset Uuid;
  pg_repeated : bool;
}.

Definition no_pages : Pages :=
  {| pg_request := None; pg_listed := None; pg_cursors := ∅; pg_snapshots := ∅;
     pg_repeated := false |}.

Definition listed_wire (f : ResumeSnapshotFacts) : list HeldChunk :=
  (λ h, {| hc_chunk_index := rh_chunk_index h; hc_digest := rh_digest_wire h |}) <$> rs_held f.

(** The list a page continues, and what was handed out of it before. *)
Definition page_base (g : Pages) : option (list HeldChunk * list HeldChunk) :=
  match pg_request g with
  | Some (WorkerProtocolMessage.ResumeDiscoveryQuery _) =>
      whole ← pg_listed g; Some (whole, [])
  | Some (WorkerProtocolMessage.ResumeDiscoveryContinue cont) =>
      pg_cursors g !! rc_resume_cursor (body cont)
  | _ => None
  end.

Definition hand_out (g : Pages) (page : ResumeDiscoveryPageBody) : Pages :=
  match rp_held_chunks page, rp_resume_cursor page, page_base g with
  | Some chunks, Some cursor, Some (whole, before) =>
      {| pg_request := pg_request g; pg_listed := pg_listed g;
         pg_cursors := <[cursor := (whole, before ++ chunks)]> (pg_cursors g);
         pg_snapshots := pg_snapshots g; pg_repeated := pg_repeated g |}
  | _, _, _ => g
  end.

Definition pages_call (g : Pages) (call : Call.t) : Call.answer call → Pages :=
  match call with
  | Call.Receive => λ a,
      {| pg_request := match a with Incoming.Received (Ok m) => Some m | _ => None end;
         pg_listed := None; pg_cursors := pg_cursors g; pg_snapshots := pg_snapshots g;
         pg_repeated := pg_repeated g |}
  | Call.AuthorizeResumeDiscovery _ => λ a,
      match a with
      | Ok (ResumeAuthorizationOutcome.Approved f) =>
          {| pg_request := pg_request g; pg_listed := Some (listed_wire f);
             pg_cursors := pg_cursors g; pg_snapshots := pg_snapshots g;
             pg_repeated := pg_repeated g |}
      | _ => g
      end
  | Call.RegisterResumeSnapshot _ => λ a,
      match a with
      | Ok id => {| pg_request := pg_request g; pg_listed := pg_listed g;
                    pg_cursors := pg_cursors g; pg_snapshots := {[ id ]} ∪ pg_snapshots g;
                    pg_repeated := pg_repeated g || bool_decide (id ∈ pg_snapshots g) |}
      | Err _ => g
      end
  | Call.Send (WorkerProtocolMessage.ResumeDiscoveryPage page) => λ _, hand_out g (body page)
  | _ => λ _, g
  end.

Definition pages (c : nat) (tr : list Event.t) : Pages := ghost no_pages pages_call c tr.

(** An approved page continues what was handed out before without gap or repetition, has
    at most [page_size] chunks, carries a cursor if and only if something is left, and
    then is not empty. *)
Definition page_ok (page_size : nat) (g : Pages) (page : ResumeDiscoveryPageBody) : Prop :=
  ∀ chunks, rp_held_chunks page = Some chunks →
    ∃ whole before rest, page_base g = Some (whole, before)
      ∧ whole = before ++ chunks ++ rest
      ∧ length chunks ≤ page_size
      ∧ (rp_resume_cursor page = None ↔ rest = [])
      ∧ (rp_resume_cursor page ≠ None → chunks ≠ []).

Definition pages_pre (page_size : nat) (g : Pages) (call : Call.t) : Prop :=
  match call with
  | Call.Send (WorkerProtocolMessage.ResumeDiscoveryPage page) =>
      pg_repeated g = false → page_ok page_size g (body page)
  | _ => True
  end.

(** ** Cursors and snapshots of the store *)

Definition entries_wire (held : list HeldChunkEntry) : list HeldChunk := held_chunk_wire <$> held.

(** A live cursor whose snapshot is there stands right behind what was handed out. *)
Definition cursor_ok (g : Pages) (s : TransientWorkerOperationStore) (cursor : str)
    (b : ResumeCursorBinding) : Prop :=
  rcs_snapshot_id (rcb_state b) ∈ pg_snapshots g
  ∧ ∀ snapshot, st_resume_snapshots s !! rcs_snapshot_id (rcb_state b) = Some snapshot →
      ascending_entries (rsn_held snapshot)
      ∧ let n := partition_point (before (rcs_next_chunk_index (rcb_state b))) (rsn_held snapshot) in
        n < length (rsn_held snapshot)
        ∧ pg_cursors g !! cursor
          = Some (entries_wire (rsn_held snapshot), entries_wire (take n (rsn_held snapshot))).

(** All cursors but [skip], which was issued and is about to be announced. *)
Definition cursors_but (skip : option str) (g : Pages) (s : TransientWorkerOperationStore) : Prop :=
  (∀ id, is_Some (st_resume_snapshots s !! id) → id ∈ pg_snapshots g)
  ∧ ∀ cursor b, st_bindings s !! cursor = Some (Binding.ResumeCursor b) → skip ≠ Some cursor →
      cursor_ok g s cursor b.

Definition cursors_ok (g : Pages) (s : TransientWorkerOperationStore) : Prop :=
  pg_repeated g = false → cursors_but None g s.

(** Nothing was added. *)
Definition shrinks (s s' : TransientWorkerOperationStore) : Prop :=
  st_resume_snapshots s' ⊆ st_resume_snapshots s
  ∧ ∀ cursor b, st_bindings s' !! cursor = Some (Binding.ResumeCursor b) →
      st_bindings s !! cursor = Some (Binding.ResumeCursor b).

Lemma cursors_but_shrinks skip g s s' : cursors_but skip g s → shrinks s s' → cursors_but skip g s'.
Proof.
  intros [H1 H2] [Hs Hc]. split.
  - intros id [x Hx]. apply H1. exists x. by eapply lookup_weaken.
  - intros cursor b Hb Hne. destruct (H2 _ _ (Hc _ _ Hb) Hne) as [Hin Hok]. split; [done|].
    intros snapshot Hsn. apply Hok. by eapply lookup_weaken.
Qed.

(** Only the part of the ghost state that concerns cursors matters. *)
Lemma cursors_but_ghost skip g g' s :
  pg_cursors g' = pg_cursors g → pg_snapshots g' = pg_snapshots g →
  cursors_but skip g s → cursors_but skip g' s.
Proof. intros Hc Hs. unfold cursors_but, cursor_ok. by rewrite Hc, Hs. Qed.

Lemma shrinks_refl s : shrinks s s.
Proof. done. Qed.
Lemma shrinks_delete s h : shrinks s (with_bindings_map s (delete h (st_bindings s))).
Proof. split; [done|]. simpl. by intros cursor b [_ ?]%lookup_delete_Some. Qed.
Lemma shrinks_insert s h b m :
  (∀ c, b ≠ Binding.ResumeCursor c) → m = <[h := b]> (st_bindings s) →
  shrinks s (with_bindings_map s m).
Proof.
  intros Hb ->. split; [done|]. simpl. intros cursor c [[_ ->]|[_ ?]]%lookup_insert_Some; [|done].
  by destruct (Hb c).
Qed.

(** ** What the calls do to cursors and snapshots *)

Definition grows (call : Call.t) : bool :=
  match call with
  | Call.RegisterResumeSnapshot _ | Call.MintResumeCursor _
  | Call.AdvanceResumeCursor _ _ (Some _) => true
  | _ => false
  end.

Section Effects.
Context {b64 : Base64} {sha : Sha256} {ed : Ed25519} {ent : Entropy} {chrono : ChronoRange}
  {disp : UuidDisplay} {simple : UuidSimple} {kind : UuidKind} {dbg : StrDebug}.

Lemma insert_fresh_spec reg s hk b k s' r k' :
  insert_fresh reg s hk b k = ((s', r), k') →
  match r with
  | Ok h => st_bindings s !! h = None ∧ s' = with_bindings_map s (<[h := b]> (st_bindings s))
  | Err _ => s' = s
  end.
Proof.
  unfold insert_fresh. rewrite with_current_cases.
  destruct (is_current _ _); [|by intros [= <- <- _]].
  case_match; [by intros [= <- <- _]|]. unfold mbind, gen_bind, mret, gen_ret.
  destruct (choose _ _ _ _) as [[id|] k1] eqn:Hch; [|by intros [= <- <- _]].
  apply choose_untaken in Hch as Hu. intros [= <- <- _]. split; [|done].
  unfold in_use in Hu. rewrite bool_decide_eq_false in Hu. by apply eq_None_not_Some.
Qed.

Lemma insert_fresh_shrinks reg s hk b k s' r k' :
  (∀ c, b ≠ Binding.ResumeCursor c) → insert_fresh reg s hk b k = ((s', r), k') → shrinks s s'.
Proof.
  intros Hb H%insert_fresh_spec. destruct r; [|by subst]. destruct H as [_ ->].
  by eapply shrinks_insert.
Qed.

Lemma exec_shrinks tw reg s e call k tw' s' a k' :
  exec tw reg s e call k = ((tw', s', a), k') → grows call = false → shrinks s s'.
Proof.
  destruct call as [| | | | | | | |b| |b| | | | | |cursor t [next|]|id]; try done;
    cbn [exec]; unfold mbind, gen_bind, mret, gen_ret.
  all: try by intros [= _ <- _ _].
  - unfold mint_acceptance. destruct (insert_fresh _ _ _ _ _) as [[s1 r] k1] eqn:Hi.
    intros [= _ <- <- _] _. by eapply insert_fresh_shrinks; [|exact Hi].
  - unfold consume_acceptance. rewrite with_current_cases. unfold mret, gen_ret.
    intros H _; revert H. repeat case_match; simpl; intros Heq; injection Heq as _ <- _ _;
      simplify_eq; eauto using shrinks_delete, shrinks_refl.
  - unfold mint_verification. destruct (insert_fresh _ _ _ _ _) as [[s1 r] k1] eqn:Hi.
    intros [= _ <- <- _] _. by eapply insert_fresh_shrinks; [|exact Hi].
  - unfold consume_verification. rewrite with_current_cases. unfold mret, gen_ret.
    intros H _; revert H. repeat case_match; simpl; intros Heq; injection Heq as _ <- _ _;
      simplify_eq; eauto using shrinks_delete, shrinks_refl.
  - unfold advance_resume_cursor. rewrite with_current_cases. unfold mret, gen_ret.
    intros H _; revert H. repeat case_match; simpl; intros Heq; injection Heq as _ <- _ _;
      simplify_eq; eauto using shrinks_delete, shrinks_refl.
  - intros [= _ <- _ _] _. unfold drop_resume_snapshot. rewrite linearized_on_is_current.
    case_match; [|done]. split; [apply delete_subseteq|done].
Qed.

Lemma exec_register tw reg s e snapshot k tw' s' a k' :
  exec tw reg s e (Call.RegisterResumeSnapshot snapshot) k = ((tw', s', a), k') →
  match a with
  | Ok id => st_resume_snapshots s !! id = None
             ∧ s' = with_snapshots_map s (<[id := snapshot]> (st_resume_snapshots s))
  | Err _ => s' = s
  end.
Proof.
  cbn [exec]. unfold register_resume_snapshot, mbind, gen_bind. rewrite with_current_cases.
  destruct (is_current _ _); [|by intros [= _ <- <- _]].
  destruct (_ <=? _)%nat; [by intros [= _ <- <- _]|].
  destruct (choose _ _ _ _) as [[id|] k1] eqn:Hch; [|by intros [= _ <- <- _]].
  apply choose_untaken in Hch as Hu. intros [= _ <- <- _]. split; [|done].
  rewrite bool_decide_eq_false in Hu. by apply eq_None_not_Some.
Qed.

Lemma exec_mint_cursor tw reg s e b k tw' s' a k' :
  exec tw reg s e (Call.MintResumeCursor b) k = ((tw', s', a), k') →
  match a with
  | Ok h => st_bindings s !! h = None
            ∧ s' = with_bindings_map s (<[h := Binding.ResumeCursor b]> (st_bindings s))
  | Err _ => s' = s
  end.
Proof.
  cbn [exec]. unfold mint_resume_cursor, mbind, gen_bind.
  destruct (insert_fresh _ _ _ _ _) as [[s1 r] k1] eqn:Hi. intros [= _ <- <- _].
  by apply insert_fresh_spec in Hi.
Qed.

Lemma exec_advance tw reg s e cursor t state k tw' s' a k' :
  exec tw reg s e (Call.AdvanceResumeCursor cursor t (Some state)) k = ((tw', s', a), k') →
  match a with
  | Ok (Some h) =>
      st_bindings s !! h = None
      ∧ ∃ b, rcb_state b = state
             ∧ s' = with_bindings_map s
                      (<[h := Binding.ResumeCursor b]> (delete cursor (st_bindings s)))
  | _ => s' = s
  end.
Proof.
  cbn [exec]. unfold advance_resume_cursor, mbind, gen_bind. rewrite with_current_cases.
  destruct (is_current _ _); [|by intros [= _ <- <- _]].
  destruct (st_bindings s !! cursor) as [[| |b]|] eqn:Hb; try by intros [= _ <- <- _].
  destruct (negb _); [by intros [= _ <- <- _]|].
  destruct (choose _ _ _ _) as [[id|] k1] eqn:Hch; [|by intros [= _ <- <- _]].
  apply choose_untaken in Hch as Hu. intros [= _ <- <- _].
  apply orb_false_elim in Hu as [_ Hu]. unfold in_use in Hu. rewrite bool_decide_eq_false in Hu.
  split; [by apply eq_None_not_Some|]. eexists. by split; [|done].
Qed.

Lemma exec_get_cursor tw reg s e cursor k tw' s' a k' :
  exec tw reg s e (Call.GetResumeCursorBinding cursor) k = ((tw', s', a), k') →
  s' = s ∧ ∀ b, a = Some b → st_bindings s !! cursor = Some (Binding.ResumeCursor b).
Proof.
  cbn [exec]. intros [= _ <- <- _]. split; [done|]. intros b. unfold resume_cursor_binding.
  rewrite linearized_on_is_current. case_match; [|done]. simpl.
  destruct (st_bindings s !! cursor) as [[| |]|]; naive_solver.
Qed.

Lemma exec_get_snapshot tw reg s e id k tw' s' a k' :
  exec tw reg s e (Call.GetResumeSnapshot id) k = ((tw', s', a), k') →
  s' = s ∧ ∀ x, a = Some x → st_resume_snapshots s !! id = Some x.
Proof.
  cbn [exec]. intros [= _ <- <- _]. split; [done|]. intros b. unfold resume_snapshot.
  rewrite linearized_on_is_current. case_match; [|done].
  by destruct (st_resume_snapshots s !! id).
Qed.
End Effects.

(** A task, from a ghost state and a store. *)
Section Wps.
Context {b64 : Base64} {sha : Sha256} {ed : Ed25519} {ent : Entropy} {chrono : ChronoRange}
  {disp : UuidDisplay} {simple : UuidSimple} {kind : UuidKind} {dbg : StrDebug}.
Context (page_size : nat).

Fixpoint wps {A} (g : Pages) (s : TransientWorkerOperationStore) (p : proc A)
    (Q : Pages → TransientWorkerOperationStore → A → Prop) : Prop :=
  match p with
  | Ret a => Q g s a
  | Panic => False
  | Do call rest =>
      pages_pre page_size g call
      ∧ ∀ tw reg e k tw' s' a k', world_wf tw →
          exec tw reg s e call k = ((tw', s', a), k') → wps (pages_call g call a) s' (rest a) Q
  end.

Lemma wps_mono {A} (p : proc A) g s (Q Q' : Pages → TransientWorkerOperationStore → A → Prop) :
  (∀ g s a, Q g s a → Q' g s a) → wps g s p Q → wps g s p Q'.
Proof.
  intros HQ. revert g s. induction p as [a| |call rest IH]; intros g s; simpl; [apply HQ|done|].
  intros [Hpre Hrest]. split; [done|]. intros. eapply IH, Hrest; eauto.
Qed.

Lemma wps_bind {A B} (p : proc A) (f : A → proc B) g s Q :
  wps g s p (λ g' s' a, wps g' s' (f a) Q) → wps g s (p ≫= f) Q.
Proof.
  revert g s. induction p as [a| |call rest IH]; intros g s; simpl; [done|done|].
  intros [Hpre Hrest]. split; [done|]. intros. eapply IH, Hrest; eauto.
Qed.

(** *** Tasks that announce nothing *)

(** A call that neither adds a cursor or snapshot nor announces a page. *)
Definition plain (g : unit) (call : Call.t) : Prop :=
  match call with
  | Call.Send (WorkerProtocolMessage.ResumeDiscoveryPage page) => rp_held_chunks (body page) = None
  | _ => grows call = false
  end.

Lemma plain_pages g call (a : Call.answer call) :
  plain () call →
  pg_cursors (pages_call g call a) = pg_cursors g ∧ pg_snapshots (pages_call g call a) = pg_snapshots g
  ∧ pg_repeated (pages_call g call a) = pg_repeated g.
Proof.
  destruct call as [| |m| | | | | | | | | | | | | | |]; try done; simpl.
  - destruct m; try done. simpl. unfold hand_out. by intros ->.
  - by destruct a as [[|]|].
Qed.

Lemma wps_plain {A} (p : proc A) g s :
  wp plain no_ghost () p (λ _ _, True) → cursors_ok g s →
  wps g s p (λ g' s' _, cursors_ok g' s').
Proof.
  revert g s. induction p as [a| |call rest IH]; intros g s; simpl; [done|done|].
  intros [Hpl Hrest] Hok. split.
  { destruct call as [| |m| | | | | | | | | | | | | | |]; try done; destruct m; try done.
    simpl in *. intros _ chunks Hch. congruence. }
  intros tw reg e k tw' s' a k' Hw Hex. apply IH; [by eapply Hrest, exec_answer_ok|].
  destruct (plain_pages g call a Hpl) as (H1 & H2 & H3). intros Hrep. rewrite H3 in Hrep.
  eapply cursors_but_ghost; [done|done|]. eapply cursors_but_shrinks; [by apply Hok|].
  eapply exec_shrinks; [done|]. destruct call as [| |m| | | | | | | | | | | | | | |]; try done.
Qed.

(** Once a snapshot identity came twice nothing more is claimed. *)
Lemma wps_repeated {A} (p : proc A) g s :
  wp any_call no_ghost () p (λ _ _, True) → pg_repeated g = true →
  wps g s p (λ g' s' _, cursors_ok g' s').
Proof.
  revert g s. induction p as [a| |call rest IH]; intros g s; simpl.
  - intros _ H. unfold cursors_ok. congruence.
  - done.
  - intros [_ Hrest] Hrep. split.
    { destruct call as [| |m| | | | | | | | | | | | | | |]; try done; destruct m; try done.
      simpl. congruence. }
    intros tw reg e k tw' s' a k' Hw Hex. apply IH; [by eapply Hrest, exec_answer_ok|].
    destruct call as [| |m| | | | | | | | | | | | | | |]; try done; simpl.
    + destruct m; try done. simpl. unfold hand_out. by repeat case_match.
    + by destruct a as [[|]|].
    + destruct a; simpl; [|done]. by rewrite Hrep.
Qed.

(** *** Rules *)

Lemma wps_call_bind {B} call (f : Call.answer call → proc B) g s Q :
  pages_pre page_size g call →
  (∀ tw reg e k tw' s' a k', world_wf tw → exec tw reg s e call k = ((tw', s', a), k') →
     wps (pages_call g call a) s' (f a) Q) →
  wps g s (WorkerControl.call call ≫= f) Q.
Proof. by split. Qed.

Lemma wps_stamp {B} (constructor : Gen (Message B)) g s Q :
  (∀ k : nat, Q g s (constructor k).1) → wps g s (stamp constructor) Q.
Proof.
  intros HQ. apply wps_call_bind; [done|]. intros tw reg e k tw' s' a k' _ Hex.
  cbn [exec] in Hex. injection Hex as _ <- _ _. apply HQ.
Qed.

Lemma wps_slice {A} (l : list A) from to g s Q :
  from ≤ to → to ≤ length l → Q g s (take (to - from) (drop from l)) → wps g s (slice l from to) Q.
Proof.
  intros H1 H2 HQ. unfold slice.
  rewrite (proj2 (Nat.leb_le _ _) H1), (proj2 (Nat.leb_le _ _) H2). done.
Qed.

Lemma wps_index_at {A} (l : list A) i g s Q :
  i < length l → (∀ a, l !! i = Some a → Q g s a) → wps g s (index_at l i) Q.
Proof.
  intros Hi HQ. unfold index_at. destruct (lookup_lt_is_Some_2 _ _ Hi) as [a Ha].
  rewrite Ha. by apply HQ.
Qed.

(** *** The resume handlers *)

(** What a handler must leave behind for its page to be sent. *)
Definition delivered (g : Pages) (s : TransientWorkerOperationStore)
    (page : Message ResumeDiscoveryPageBody) : Prop :=
  pg_repeated g = false →
  page_ok page_size g (body page) ∧ cursors_but None (hand_out g (body page)) s.

Lemma delivered_denied g s id k :
  cursors_ok g s → delivered g s (ResumeDiscoveryPageMessage_denied id k).1.
Proof. intros Hok Hrep. split; [by intros chunks|]. by apply Hok. Qed.

Lemma wps_denied g s id :
  cursors_ok g s → wps g s (stamp (ResumeDiscoveryPageMessage_denied id)) delivered.
Proof. intros Hok. apply wps_stamp. intros k. by apply delivered_denied. Qed.

Lemma wps_drop_denied g s snapshot_id id :
  cursors_ok g s →
  wps g s (_ ← call (Call.DropResumeSnapshot snapshot_id);
           stamp (ResumeDiscoveryPageMessage_denied id)) delivered.
Proof.
  intros Hok. apply wps_call_bind; [done|]. intros tw reg e k tw' s' a k' _ Hex. apply wps_denied.
  intros Hrep. eapply cursors_but_shrinks; [by apply Hok|]. by eapply exec_shrinks.
Qed.

(** The last page of a list. *)
Lemma delivered_last g s page whole before chunks :
  page_base g = Some (whole, before) → whole = before ++ chunks → length chunks ≤ page_size →
  rp_held_chunks (body page) = Some chunks → rp_resume_cursor (body page) = None →
  cursors_ok g s → delivered g s page.
Proof.
  intros Hb Hw Hl Hc Hn Hok Hrep. split; [|unfold hand_out; rewrite Hc, Hn; by apply Hok].
  intros chunks'. rewrite Hc, Hn. intros [= <-]. exists whole, before, []. by rewrite app_nil_r.
Qed.

(** A page that announces the cursor [h], whose binding stands at [stop]. *)
Lemma delivered_next g s page (held : list HeldChunkEntry) start stop h b snapshot last :
  page_base g = Some (entries_wire held, entries_wire (take start held)) →
  start < stop → stop < length held → stop ≤ start + page_size →
  rp_held_chunks (body page) = Some (entries_wire (take (stop - start) (drop start held))) →
  rp_resume_cursor (body page) = Some h →
  ascending_entries held → held !! (stop - 1) = Some last →
  st_bindings s !! h = Some (Binding.ResumeCursor b) →
  st_resume_snapshots s !! rcs_snapshot_id (rcb_state b) = Some snapshot →
  rsn_held snapshot = held → rcs_next_chunk_index (rcb_state b) = u64_succ (hce_chunk_index last) →
  (pg_repeated g = false → cursors_but (Some h) g s) → delivered g s page.
Proof.
  intros Hbase H1 H2 H3 Hc Hn Hasc Hlast Hb Hsn Hheld Hnext Hbut Hrep.
  specialize (Hbut Hrep) as [Hs Hcs].
  assert (entries_wire (take start held) ++ entries_wire (take (stop - start) (drop start held))
          = entries_wire (take stop held)) as Hup.
  { unfold entries_wire. rewrite <-fmap_app, take_take_drop. do 2 f_equal. lia. }
  assert (length (entries_wire (take (stop - start) (drop start held))) = stop - start) as Hlen.
  { unfold entries_wire. rewrite length_fmap, length_take, length_drop. lia. }
  split.
  - intros chunks. rewrite Hc, Hn. intros [= <-].
    exists (entries_wire held), (entries_wire (take start held)), (entries_wire (drop stop held)).
    split_and!; [done| |lia| |].
    + rewrite app_assoc, Hup. unfold entries_wire. by rewrite <-fmap_app, take_drop.
    + split; [done|]. intros Hd%(f_equal length). unfold entries_wire in Hd.
      rewrite length_fmap, length_drop in Hd. simpl in Hd. lia.
    + intros _ Hd%(f_equal length). simpl in Hd. lia.
  - unfold hand_out. rewrite Hc, Hn, Hbase, Hup. split; [done|]. simpl.
    intros cursor b' Hb' _. destruct (decide (cursor = h)) as [->|Hne].
    + rewrite Hb in Hb'. injection Hb' as <-. split; simpl; [by apply Hs|].
      intros sn. rewrite Hsn. intros [= <-]. rewrite Hheld, Hnext. split; [done|].
      rewrite (partition_point_behind held (stop - 1) last) by done.
      replace (S (stop - 1)) with stop by lia. split; [done|]. by rewrite lookup_insert_eq.
    + destruct (Hcs _ _ Hb') as [Hin Hok]; [congruence|]. split; [done|]. intros sn Hsn'. simpl.
      destruct (Hok sn Hsn') as (? & ? & ?). by rewrite lookup_insert_ne.
Qed.

Lemma snapshot_ascending f :
  snapshot_ok f →
  ascending_entries ((λ h, {| hce_chunk_index := rh_chunk_index h; hce_digest := rh_digest_wire h |})
                       <$> rs_held f).
Proof.
  intros (_ & Hs & Hb). split.
  - rewrite <-list_fmap_compose. exact Hs.
  - by rewrite Forall_fmap.
Qed.

Lemma query_handler query g s :
  1 ≤ page_size → pg_request g = Some (WorkerProtocolMessage.ResumeDiscoveryQuery query) →
  cursors_ok g s → pg_repeated g = false →
  wps g s (handle_resume_discovery_query page_size query) delivered.
Proof.
  intros Hps Hreq Hok Hrep. unfold handle_resume_discovery_query. apply wps_call_bind; [done|].
  intros tw reg e k tw' s0 a k' Hw Hex. pose proof (exec_answer_ok _ _ _ _ _ _ _ _ _ _ Hw Hex) as Ha.
  cbn [exec] in Hex. injection Hex as _ <- _ _. clear tw reg e k tw' k' Hw.
  destruct a as [[f|]|err]; [|by apply wps_denied..]. cbv zeta.
  apply snapshot_ascending in Ha as Hasc.
  assert (entries_wire ((λ h, {| hce_chunk_index := rh_chunk_index h; hce_digest := rh_digest_wire h |})
            <$> rs_held f) = listed_wire f) as Hwire.
  { unfold entries_wire, listed_wire. by rewrite <-list_fmap_compose. }
  revert Hasc Hwire. generalize ((λ h, {| hce_chunk_index := rh_chunk_index h; hce_digest := rh_digest_wire h |})
            <$> rs_held f) as held. intros held Hasc Hwire.
  set (g1 := pages_call g _ _).
  assert (cursors_ok g1 s) as Hok1 by exact Hok.
  assert (page_base g1 = Some (entries_wire held, [])) as Hbase.
  { unfold page_base, g1. simpl. rewrite Hreq. simpl. by rewrite Hwire. }
  clearbody g1. apply wps_bind, wps_slice; [lia|lia|]. rewrite Nat.sub_0_r, drop_0.
  destruct (_ <? _)%nat eqn:Hlt; cbn [negb].
  - apply Nat.ltb_lt in Hlt. apply wps_bind, wps_index_at; [lia|]. intros last Hlast.
    apply wps_call_bind; [done|]. intros tw reg e k tw' s1 a k' _ Hex%exec_register.
    destruct a as [id|err]; [|subst s1; by apply wps_denied]. destruct Hex as [Hnone ->].
    apply wps_call_bind; [done|]. intros tw1 reg1 e1 k1 tw2 s2 a2 k2 _ Hex%exec_mint_cursor.
    assert (cursors_ok (pages_call g1 (Call.RegisterResumeSnapshot {|
              rsn_transfer_id := rdq_transfer_id (body query); rsn_sealed := rs_sealed f;
              rsn_digest_algorithm := rs_digest_algorithm f; rsn_chunk_size := rs_chunk_size f;
              rsn_expected_chunk_count := rs_expected_chunk_count f; rsn_held := held |}) (Ok id))
            (with_snapshots_map s (<[id := {|
              rsn_transfer_id := rdq_transfer_id (body query); rsn_sealed := rs_sealed f;
              rsn_digest_algorithm := rs_digest_algorithm f; rsn_chunk_size := rs_chunk_size f;
              rsn_expected_chunk_count := rs_expected_chunk_count f; rsn_held := held |}]>
              (st_resume_snapshots s)))) as Hok2.
    { intros [Hr1 Hfresh%bool_decide_eq_false]%orb_false_iff. destruct (Hok1 Hr1) as [Hs Hc].
      split; simpl.
      - intros id' [x [[<- _]|[_ Hx]]%lookup_insert_Some]; [set_solver|].
        apply elem_of_union_r, Hs. by eexists.
      - intros cursor b Hb Hne. destruct (Hc _ _ Hb Hne) as [Hin Hcok]. split; simpl; [set_solver|].
        intros sn [[Hid _]|[_ Hsn]]%lookup_insert_Some; [congruence|]. by apply Hcok. }
    destruct a2 as [h|err]; [|subst s2; by apply wps_drop_denied].
    destruct Hex as [Hh ->]. apply wps_stamp. intros k3.
    eapply (delivered_next _ _ _ held 0 (page_size `min` length held)); simpl; [|lia|exact Hlt|lia|by rewrite Nat.sub_0_r, drop_0|done
      |done|done|by apply lookup_insert_eq|simpl; by apply lookup_insert_eq|done|done|].
    + destruct g1. by simpl in *.
    + intros [Hs Hc]%Hok2. split; [exact Hs|]. simpl. intros cursor b Hb Hne.
      rewrite lookup_insert_ne in Hb by congruence. by apply Hc.
  - apply Nat.ltb_ge in Hlt. apply wps_stamp. intros k3.
    eapply delivered_last; [done| | |done|done|done].
    + by rewrite take_ge by lia.
    + rewrite length_fmap, length_take. lia.
Qed.

Lemma continue_handler cont g s :
  1 ≤ page_size → pg_request g = Some (WorkerProtocolMessage.ResumeDiscoveryContinue cont) →
  cursors_ok g s → pg_repeated g = false →
  wps g s (handle_resume_discovery_continue page_size cont) delivered.
Proof.
  intros Hps Hreq Hok Hrep. unfold handle_resume_discovery_continue.
  apply wps_call_bind; [done|]. intros tw reg e k tw' s0 a k' _ [-> Ha]%exec_get_cursor.
  destruct a as [b|]; [|by apply wps_denied]. specialize (Ha b eq_refl) as Hb. clear Ha. cbv zeta.
  apply wps_call_bind; [done|]. intros tw1 reg1 e1 k1 tw2 s0 a k2 _ [-> Ha]%exec_get_snapshot.
  destruct a as [sn|]; [|by apply wps_denied]. specialize (Ha sn eq_refl) as Hsn. clear Ha.
  destruct (Hok Hrep) as [Hs Hcs]. destruct (Hcs _ _ Hb) as [Hin Hcok]; [done|].
  destruct (Hcok sn Hsn) as (Hasc & Hn & Hcur). clear Hcok. simpl in *.
  change (partition_point (λ e, hce_chunk_index e <? rcs_next_chunk_index (rcb_state b))%N
            (rsn_held sn)) with (partition_point (before (rcs_next_chunk_index (rcb_state b))) (rsn_held sn)).
  revert Hn Hcur. generalize (partition_point (before (rcs_next_chunk_index (rcb_state b))) (rsn_held sn)).
  intros start Hn Hcur.
  assert (page_base g = Some (entries_wire (rsn_held sn), entries_wire (take start (rsn_held sn)))) as Hbase.
  { unfold page_base. by rewrite Hreq. }
  apply wps_bind, wps_slice; [lia|lia|].
  destruct (_ <? _)%nat eqn:Hlt.
  - apply Nat.ltb_lt in Hlt. apply wps_bind, wps_index_at; [lia|]. intros last Hlast.
    apply wps_call_bind; [done|]. intros tw3 reg3 e3 k3 tw4 s1 a k4 _ Hex%exec_advance.
    destruct a as [[h|]|err]; [|subst s1; by apply wps_drop_denied..].
    destruct Hex as (Hh & b' & Hb' & ->). apply wps_stamp. intros k5.
    eapply (delivered_next _ _ _ (rsn_held sn) start ((start + page_size) `min` length (rsn_held sn))); simpl;
      [done| |exact Hlt| |done|done|done|done|by apply lookup_insert_eq
      |rewrite Hb'; exact Hsn|done|by rewrite Hb'|]; [lia|lia|].
    intros _. split; [exact Hs|]. simpl. intros cursor b2 Hb2 Hne.
    rewrite lookup_insert_ne in Hb2 by congruence. apply lookup_delete_Some in Hb2 as [_ Hb2].
    by apply Hcs.
  - apply Nat.ltb_ge in Hlt.
    apply wps_call_bind; [done|]. intros tw3 reg3 e3 k3 tw4 s1 a k4 _ Hex1.
    apply wps_call_bind; [done|]. intros tw5 reg5 e5 k5 tw6 s2 a2 k6 _ Hex2. simpl.
    assert (cursors_ok g s2) as Hok2.
    { intros _. eapply cursors_but_shrinks; [|by eapply exec_shrinks].
      eapply cursors_but_shrinks; [|by eapply exec_shrinks]. by apply Hok. }
    destruct a as [[h|]|err]; [by apply wps_denied| |by apply wps_denied].
    apply wps_stamp. intros k7. eapply delivered_last; [done| | |done|done|done].
    + unfold entries_wire. rewrite <-fmap_app, take_take_drop. by rewrite take_ge by lia.
    + rewrite length_fmap, length_take, length_drop. lia.
Qed.

(** *** The loop *)

Lemma hand_out_repeated g page : pg_repeated (hand_out g page) = pg_repeated g.
Proof. unfold hand_out. by repeat case_match. Qed.

Lemma send_page g s page :
  delivered g s page →
  wps g s (send_or_break (WorkerProtocolMessage.ResumeDiscoveryPage page))
    (λ g' s' _, cursors_ok g' s').
Proof.
  intros Hd. apply wps_call_bind; [by intros [Hp _]%Hd|].
  intros tw reg e k tw' s' a k' _ Hex. cbn [exec] in Hex. injection Hex as _ <- _ _.
  simpl. intros Hrep. rewrite hand_out_repeated in Hrep. by apply Hd.
Qed.

Lemma turn_pages g s :
  1 ≤ page_size → cursors_ok g s → wps g s (turn page_size) (λ g' s' _, cursors_ok g' s').
Proof.
  intros Hps Hok. destruct (pg_repeated g) eqn:Hrep.
  { apply wps_repeated; [by apply turn_never_panics|done]. }
  unfold turn. apply wps_call_bind; [done|]. intros tw reg e k tw' s' a k' _ Hex.
  cbn [exec] in Hex. injection Hex as _ <- _ _.
  set (g1 := pages_call g _ _). assert (cursors_ok g1 s) as Hok1 by exact Hok.
  assert (pg_repeated g1 = false) as Hrep1 by exact Hrep.
  destruct a as [[m|err]|b].
  - assert (pg_request g1 = Some m) as Hreq by done. clearbody g1. unfold serve. destruct m.
    all: try (apply wps_plain; [|exact Hok1]; unfold send_or_break, send_if_any,
      decide_authorization_query, handle_chunk_acceptance, handle_manifest_seal,
      handle_artifact_verification; wp_go; by first [done | in_bounds | split]).
    + apply wps_bind. eapply wps_mono; [intros ? ? ? Hd; apply send_page, Hd|]. by apply query_handler.
    + apply wps_bind. eapply wps_mono; [intros ? ? ? Hd; apply send_page, Hd|]. by apply continue_handler.
  - clearbody g1. apply wps_plain; [|exact Hok1]. wp_go; by first [done | split].
  - apply wps_plain; [|exact Hok1]. by wp_go.
Qed.
End Wps.

Section Pagination.
Context {b64 : Base64} {sha : Sha256} {ed : Ed25519} {ent : Entropy} {chrono : ChronoRange}
  {disp : UuidDisplay} {simple : UuidSimple} {kind : UuidKind} {dbg : StrDebug}.

(** C31. The pages of a resume query add up to the list that was authorized. In any
    interleaving, every approved page a connection sends continues the list its query was
    shown exactly where the pages before it ended, without gap or repetition; it has at
    most the configured number of chunks, and it carries a cursor, and then at least one
    chunk, if and only if something of the list is left. So the pages, followed from
    cursor to cursor, are the whole list, however the server and other connections move
    meanwhile, as long as the generator has not drawn one snapshot identity twice for the
    connection. *)
Theorem resume_pages_add_up (tw : TransferWorld) (cap page_size k0 n : nat) (tr : list Event.t)
    (w : ControlWorld) (k i c : nat) (g : ConnectionGeneration)
    (page : Message ResumeDiscoveryPageBody) (sent : bool) :
  treachable tw k0 → creaches (empty_control tw cap page_size) k0 n tr w k →
  tr !! i = Some (Event.Called c g (Call.Send (WorkerProtocolMessage.ResumeDiscoveryPage page)) sent) →
  pg_repeated (pages c (take i tr)) = false →
  page_ok (page_size `max` 1) (pages c (take i tr)) (body page).
Proof.
  intros Hwf%treachable_wf Hr Hev. assert (1 ≤ page_size `max` 1) as Hps by lia.
  destruct (creaches_tasks no_pages pages_call
              (λ g s p, wps (page_size `max` 1) g s p (λ g' s' _, cursors_ok g' s'))
              (page_size `max` 1) (cap `max` 1)) with
    (w0 := empty_control tw cap page_size) (k0 := k0) (n := n) (tr := tr) (w := w) (k := k)
    as [_ He]; try done.
  - intros gen. apply turn_pages; [done|]. intros _. split; simpl.
    + intros id. rewrite lookup_empty. by intros [].
    + intros cursor b. by rewrite lookup_empty.
  - intros g1 s. by apply turn_pages.
  - intros g1 s call rest tw1 reg e k1 tw' s' a k' Hw [_ Hrest] Hex. by eapply Hrest.
  - by apply empty_starts.
  - destruct (He i c g _ _ Hev) as (s & rest & _ & Hpre & _). exact Hpre.
Qed.
End Pagination.
