(* ===== verification/WorkerExamples.v ===== *)
(** * Worker connections, run

    Two connections of a Worker over the upload of [TransferExamples]: a chunk is
    authorized and committed through an acceptance handle, the held chunks are listed page
    by page, and the second connection supersedes the first. The hypotheses of the theorems
    about the control plane hold along these runs. *)

From stdpp Require Import prelude gmap strings.
From Stdlib Require Import Strings.Byte NArith ZArith.
From S2P Require Import Prelude.
From S2P Require Import External.
From S2P Require Import Endpoint.
From S2P Require Import Transfer.
From S2P Require Import TransferAuth.
From S2P Require Import TransferStore.
From S2P Require Import TransferEvidence.
From S2P Require Import TransferSafety.
From S2P Require Import TransferTheorems.
From S2P Require Import TransferExamples.
From S2P Require Import WorkerProtocol.
From S2P Require Import WorkerFraming.
From S2P Require Import WorkerOperations.
From S2P Require Import WorkerControl.
From S2P Require Import WorkerSafety.
From S2P Require Import WorkerTheorems.
From S2P Require Import WorkerReplies.
From S2P Require Import WorkerResume.

Module WorkerExamples.
Import Reference TransferExamples.
#[local] Existing Instances base64 base64_laws toy_sha256 toy_ed25519 toy_ed25519_laws
  raw_uuid hex_simple rfc_kind last_instant.
#[local] Instance quoted : StrDebug := λ s, x22 :: s ++ [x22].

(** ** Requests *)

Definition now : Instant := from_timestamp_millis 1000.
Definition env (n : N) : Envelope :=
  {| env_protocol_version := ProtocolVersion_v1; env_message_id := v4_uuid n |}.

Definition proof_of (operation : AuthorizationOperation.t) (chunk : option N) (proof : ProofId) : str :=
  ProofSignature_to_wire_value
    (sk_sign key (build_proof_transcript (CapabilityId_from_token_bytes token) {|
       pf_operation := operation; pf_transfer_id := transfer4; pf_artifact_id := artifact3;
       pf_direction := TransferDirection.AgentToServer; pf_chunk_index := chunk;
       pf_proof_id := proof; pf_issued_at_millis := 1000 |})).

Definition hello (n : N) : WorkerProtocolMessage.t :=
  WorkerProtocolMessage.WorkerHello {| envelope := env n;
    body := {| wh_worker_protocol_version := ProtocolVersion_v1;
               wh_worker_instance_id := v4_uuid n |} |}.
Definition upload_query : WorkerProtocolMessage.t :=
  WorkerProtocolMessage.AuthorizationQuery {| envelope := env 101; body := {|
    aq_token := token; aq_transfer_id := transfer4; aq_chunk_index := 0;
    aq_proof_id := ProofId_to_wire_value (be_array 16 1); aq_issued_at := 1000;
    aq_signature := proof_of AuthorizationOperation.ChunkUpload (Some 0%N) (be_array 16 1) |} |}.
Definition acceptance (handle : str) : WorkerProtocolMessage.t :=
  WorkerProtocolMessage.ChunkAcceptanceRequest {| envelope := env 102; body := {|
    car_acceptance_handle := handle; car_transfer_id := transfer4; car_chunk_index := 0;
    car_digest := Digest_to_wire_value chunk_digest; car_size := 100 |} |}.
Definition resume_query : WorkerProtocolMessage.t :=
  WorkerProtocolMessage.ResumeDiscoveryQuery {| envelope := env 103; body := {|
    rdq_token := token; rdq_transfer_id := transfer4;
    rdq_proof_id := ProofId_to_wire_value (be_array 16 2); rdq_issued_at := 1000;
    rdq_signature := proof_of AuthorizationOperation.ResumeDiscovery None (be_array 16 2) |} |}.
Definition resume_continue (cursor : str) : WorkerProtocolMessage.t :=
  WorkerProtocolMessage.ResumeDiscoveryContinue
    {| envelope := env 104; body := {| rc_resume_cursor := cursor |} |}.

(** ** Steps *)

Definition step (c : nat) (m : WorkerProtocolMessage.t) : Step.t :=
  Step.Run c {| en_now := now; en_first := Ok m; en_incoming := Incoming.Received (Ok m);
                en_sent := true |}.
(** Handshake, drawing, installing and opening a generation. *)
Definition connect (c : nat) : list Step.t :=
  Step.Accept c :: replicate 4 (step c (hello (N.of_nat c + 100))).
(** A request and the [n] calls of its handler. *)
Definition ask (c n : nat) (m : WorkerProtocolMessage.t) : list Step.t := replicate (S n) (step c m).

Lemma steps_in_range c n m : Forall step_in_range (ask c n m).
Proof. apply Forall_replicate. exact I. Qed.
Lemma connect_in_range c : Forall step_in_range (connect c).
Proof. repeat constructor. Qed.

(** The text a call answered with, if it did. *)
Definition answered (ev : Event.t) : option str :=
  match ev with
  | Event.Called _ _ call a =>
      match call return Call.answer call → option str with
      | Call.MintAcceptance _ | Call.MintResumeCursor _ => λ a, match a with Ok h => Some h | Err _ => None end
      | _ => λ _, None
      end a
  | _ => None
  end.
Definition last_answer (tr : list Event.t) : str := default [] (last (omap answered tr)).

Section Upload.
#[local] Existing Instance counter_entropy.

Definition control_start : ControlWorld := empty_control ready.1 8 1.

(** Authorize and commit a chunk. *)
Definition part1 : list Step.t := connect 0 ++ ask 0 4 upload_query.
Definition run1 := control_run control_start part1 ready.2.
Definition part2 : list Step.t := part1 ++ ask 0 4 (acceptance (last_answer run1.1.2)).
Definition run2 := control_run control_start part2 ready.2.

Lemma part2_in_range : Forall step_in_range part2.
Proof. unfold part2, part1. rewrite !Forall_app. eauto using steps_in_range, connect_in_range. Qed.

Lemma run_creaches sts :
  Forall step_in_range sts →
  creaches control_start ready.2 (length sts) (control_run control_start sts ready.2).1.2
    (control_run control_start sts ready.2).1.1 (control_run control_start sts ready.2).2.
Proof.
  intros Hin. apply control_run_creaches; [done|].
  by destruct (control_run control_start sts ready.2) as [[w tr] k].
Qed.

(** The commit is the tenth event. *)
Definition commits_at (i : nat) (tr : list Event.t) : bool :=
  match tr !! i with
  | Some (Event.Called c _ call _) => (c =? 0)%nat && WorkerTheorems.chunk_commit transfer4 0 call
  | _ => false
  end.

Lemma handles_spent_once_witness :
  spent (upload_approved transfer4 0) (WorkerTheorems.chunk_commit transfer4 0) 0 (take 9 run2.1.2)
  < granted (upload_approved transfer4 0) (WorkerTheorems.chunk_commit transfer4 0) 0 (take 9 run2.1.2).
Proof.
  assert (commits_at 9 run2.1.2 = true) as Hc by (vm_compute; reflexivity).
  unfold commits_at in Hc. destruct (run2.1.2 !! 9) as [[|?|c g call a| | |]|] eqn:Hev; try discriminate Hc.
  apply andb_prop in Hc as [Hz Hc]. apply Nat.eqb_eq in Hz. subst c.
  exact (proj1 (handles_spent_once ready.1 8 1 ready.2 _ run2.1.2 run2.1.1 run2.2 9 0 g call a
    ready_reachable (run_creaches part2 part2_in_range) Hev) transfer4 0%N Hc).
Defined.

Lemma control_plane_refines_witness : treachable (cw_transfer run2.1.1) run2.2.
Proof.
  exact (proj1 (control_plane_refines ready.1 8 1 ready.2 _ run2.1.2 run2.1.1 run2.2
    ready_reachable (run_creaches part2 part2_in_range))).
Defined.

(** A second connection supersedes the first. *)
Definition part3 : list Step.t := part2 ++ connect 1 ++ ask 0 3 upload_query.
Definition run3 := control_run control_start part3 ready.2.

Lemma part3_in_range : Forall step_in_range part3.
Proof.
  unfold part3. rewrite !Forall_app. eauto using steps_in_range, connect_in_range, part2_in_range.
Qed.

Lemma only_latest_connection_acts_witness :
  (∃ c ph, latest run3.1.2 = Some c ∧ cw_connections run3.1.1 !! c = Some ph ∧ begun ph = Some 2%N)
  ∧ latest (take 4 run3.1.2) = Some 0.
Proof.
  destruct (only_latest_connection_acts ready.1 8 1 ready.2 _ run3.1.2 run3.1.1 run3.2
    (run_creaches part3 part3_in_range)) as [Hcur Hacts]; [vm_compute; reflexivity|].
  split.
  - apply Hcur. vm_compute. reflexivity.
  - assert (bool_decide ((run3.1.2 !! 4 ≫= acts) = Some 0) = true) as Ha by (vm_compute; reflexivity).
    apply bool_decide_eq_true in Ha. destruct (run3.1.2 !! 4) as [ev|] eqn:Hev; [|discriminate Ha].
    exact (Hacts 4 ev 0 Hev Ha).
Defined.

Lemma stores_bounded_witness :
  ∃ s p, cw_connections run2.1.1 !! 0 = Some (Phase.Serving s p) ∧ size (st_bindings s) ≤ 8.
Proof.
  destruct (stores_bounded ready.1 8 1 ready.2 _ run2.1.2 run2.1.1 run2.2
    ready_reachable (run_creaches part2 part2_in_range)) as [Hb _].
  assert (match cw_connections run2.1.1 !! 0 with Some (Phase.Serving _ _) => true | _ => false end = true)
    as Hs by (vm_compute; reflexivity).
  destruct (cw_connections run2.1.1 !! 0) as [[| | | |s p]|] eqn:Hc; try discriminate Hs.
  exists s, p. split; [reflexivity|]. exact (proj1 (Hb 0 s p Hc)).
Defined.

(** ** Two chunks, listed one by one *)

Definition accept1 : TransferOp.t :=
  TransferOp.CommitChunkAcceptance transfer4 1 (Digest_to_wire_value artifact_digest) 100.
Definition two_held := run (setup ++ dispatch ++ [accept; accept1]).
Lemma two_held_reachable : treachable two_held.1 two_held.2.
Proof. apply run_reachable. repeat constructor; simpl; lia. Qed.

Definition listing_start : ControlWorld := empty_control two_held.1 8 1.
Definition listing1 : list Step.t := connect 0 ++ ask 0 5 resume_query.
Definition listed1 := control_run listing_start listing1 two_held.2.
Definition listing2 : list Step.t := listing1 ++ ask 0 6 (resume_continue (last_answer listed1.1.2)).
Definition listed2 := control_run listing_start listing2 two_held.2.

Lemma listing2_creaches :
  creaches listing_start two_held.2 (length listing2) listed2.1.2 listed2.1.1 listed2.2.
Proof.
  apply control_run_creaches.
  - unfold listing2, listing1. rewrite !Forall_app. eauto using steps_in_range, connect_in_range.
  - unfold listed2. by destruct (control_run listing_start listing2 two_held.2) as [[w tr] k].
Qed.

(** The approved page with chunks a connection sent at this point, if it did. *)
Definition page_at (i : nat) (tr : list Event.t) : option (list N * bool) :=
  match tr !! i with
  | Some (Event.Called 0 _ (Call.Send (WorkerProtocolMessage.ResumeDiscoveryPage page)) _) =>
      match rp_held_chunks (body page) with
      | Some chunks => Some (hc_chunk_index <$> (chunks : list HeldChunk),
                             bool_decide (is_Some (rp_resume_cursor (body page))))
      | None => None
      end
  | _ => None
  end.

Example listing_pages :
  page_at 7 listed2.1.2 = Some ([0%N], true) ∧ page_at 14 listed2.1.2 = Some ([1%N], false).
Proof. split; vm_compute; reflexivity. Qed.

Lemma resume_pages_add_up_witness :
  ∃ page, page_ok 1 (pages 0 (take 14 listed2.1.2)) (body page)
          ∧ rp_held_chunks (body page) ≠ None.
Proof.
  assert (page_at 14 listed2.1.2 = Some ([1%N], false)) as Hp by (vm_compute; reflexivity).
  assert (pg_repeated (pages 0 (take 14 listed2.1.2)) = false) as Hrep by (vm_compute; reflexivity).
  unfold page_at in Hp.
  destruct (listed2.1.2 !! 14) as [[| |[|c] g [| |[]| | | | | | | | | | | | | | |] a| | |]|] eqn:Hev;
    try discriminate Hp.
  exists m. split.
  - exact (resume_pages_add_up two_held.1 8 1 two_held.2 _ listed2.1.2 listed2.1.1 listed2.2 14 0 g m a
      two_held_reachable listing2_creaches Hev Hrep).
  - destruct (rp_held_chunks (body m)); [discriminate|discriminate Hp].
Defined.
End Upload.

(** ** Version-4 identities *)

Section Replies.
#[local] Existing Instance v4_entropy.
#[local] Existing Instance v4_entropy_laws.

Definition reply_start : TransferWorld := empty_transfer_world (v4_uuid 8) 16.
Lemma reply_start_reachable : treachable reply_start 0.
Proof. exists (v4_uuid 8), 16. apply treaches_refl. Qed.

(** An upload query is denied: there is no such Transfer. *)
Definition denied_run := control_run (empty_control reply_start 8 1) (connect 0 ++ ask 0 3 upload_query) 0.

Lemma denied_creaches :
  creaches (empty_control reply_start 8 1) 0 (length (connect 0 ++ ask 0 3 upload_query))
    denied_run.1.2 denied_run.1.1 denied_run.2.
Proof.
  apply control_run_creaches.
  - rewrite Forall_app. eauto using steps_in_range, connect_in_range.
  - unfold denied_run. by destruct (control_run _ _ 0) as [[w tr] k].
Qed.

Definition decision_at (i : nat) (tr : list Event.t) : bool :=
  match tr !! i with
  | Some (Event.Called 0 _ (Call.Send (WorkerProtocolMessage.AuthorizationDecision _)) _) => true
  | _ => false
  end.

Lemma replies_legal_witness :
  ∃ m, reply_ok (exchange 0 (take 5 denied_run.1.2)) (WorkerProtocolMessage.AuthorizationDecision m).
Proof.
  assert (decision_at 5 denied_run.1.2 = true) as Hd by (vm_compute; reflexivity).
  unfold decision_at in Hd.
  destruct (denied_run.1.2 !! 5) as [[| |[|c] g [| |[]| | | | | | | | | | | | | | |] a| | |]|] eqn:Hev;
    try discriminate Hd.
  exists m. exact (proj1 (replies_legal reply_start 8 1 0 _ denied_run.1.2 denied_run.1.1 denied_run.2
    reply_start_reachable denied_creaches) 5 0 g _ a Hev).
Defined.
End Replies.

(** ** A stream *)

(** Protocol errors with the envelope [env 1], no details and an ASCII code, printed as
    that code. *)
Definition coded (code : str) : WorkerProtocolMessage.t :=
  WorkerProtocolMessage.ProtocolError {| envelope := env 1;
    body := {| pe_in_reply_to := None; pe_code := code; pe_message := None |} |}.

Definition ascii (s : str) : bool := forallb (byte_in 0 127) s.

#[local] Instance code_json : Json := {|
  JsonValue := str;
  json_from_str s := Some s;
  json_type _ := Some (lit "ProtocolError");
  json_from_value v := Some (coded v);
  json_to_string m :=
    match m with
    | WorkerProtocolMessage.ProtocolError {| envelope := e; body := b |} =>
        if bool_decide (env_protocol_version e = ProtocolVersion_v1)
           && bool_decide (env_message_id e = v4_uuid 1)
           && bool_decide (pe_in_reply_to b = None) && bool_decide (pe_message b = None)
           && ascii (pe_code b)
        then Some (pe_code b) else None
    | _ => None
    end |}.

Lemma ascii_utf8 s : ascii s = true → utf8_valid s = true.
Proof.
  induction s as [|b s IH]; [done|]. unfold ascii. simpl. intros [Hb Hs]%andb_prop.
  rewrite Hb. by apply IH.
Qed.

#[local] Instance code_json_laws : JsonLaws.
Proof.
  intros m s. simpl. destruct m as [| | | | | | | | | | | | | |[[v i] [c d r]]]; try done. simpl.
  destruct (bool_decide (v = _)) eqn:H1, (bool_decide (i = _)) eqn:H2, (bool_decide (r = _)) eqn:H3,
    (bool_decide (d = _)) eqn:H4, (ascii c) eqn:H5; simpl; try done.
  rewrite bool_decide_eq_true in H1, H2, H3, H4. subst. intros [= <-].
  split; [by apply ascii_utf8|]. by eexists.
Qed.

Lemma worker_stream_roundtrip_witness :
  receive_n 2 {| rd_bytes := wr_written (send_all {| wr_written := []; wr_room := None; wr_flushes := true |}
                                           [coded (lit "a"); coded (lit "bc")]) ++ [x00];
                 rd_end := StreamEnd.UnexpectedEof |}
  = ([Ok (coded (lit "a")); Ok (coded (lit "bc"))],
     {| rd_bytes := [x00]; rd_end := StreamEnd.UnexpectedEof |}).
Proof.
  refine (worker_stream_roundtrip [coded (lit "a"); coded (lit "bc")] [x00] StreamEnd.UnexpectedEof _).
  repeat constructor; try (eexists; split; [vm_compute; reflexivity|]); vm_compute; discriminate.
Defined.
End WorkerExamples.
