(* ===== verification/ServerHistory.v ===== *)
(** * Where the server's records come from

    The history of each Worker connection: which received message and which earlier calls
    every commit and every seal decision goes back to; and, over runs in which the server
    itself records no chunks, where the held chunks and the [Verified] Artifacts of the
    database come from. *)

From stdpp Require Import prelude gmap strings.
From Stdlib Require Import Strings.Byte NArith ZArith.
From S2P Require Import Prelude.
From S2P Require Import External.
From S2P Require Import Credential.
From S2P Require Import Endpoint.
From S2P Require Import Job.
From S2P Require Import Transfer.
From S2P Require Import Runtime.
From S2P Require Import JobStore.
From S2P Require Import JobServices.
From S2P Require Import TransferAuth.
From S2P Require Import TransferStore.
From S2P Require Import TransferEvidence.
From S2P Require Import TransferSpec.
From S2P Require Import TransferSafety.
From S2P Require Import TransferTheorems.
From S2P Require Import WorkerProtocol.
From S2P Require Import WorkerFraming.
From S2P Require Import WorkerOperations.
From S2P Require Import WorkerControl.
From S2P Require Import WorkerSafety.
From S2P Require Import WorkerTheorems.

(** ** Histories *)

(** The calls of a connection with their answers, latest first. *)
Definition History : Type := list {call : Call.t & Call.answer call}.
Definition note (h : History) (call : Call.t) (a : Call.answer call) : History := existT call a :: h.

Definition received (h : History) (m : WorkerProtocolMessage.t) : Prop :=
  existT Call.Receive (Incoming.Received (Ok m)) ∈ h.
Definition minted (h : History) (b : VerificationBinding) (handle : str) : Prop :=
  (existT (Call.MintVerification b) (Ok handle) : {call & Call.answer call}) ∈ h.
Definition consumed (h : History) (b : VerificationBinding) (handle : str) : Prop :=
  (existT (Call.ConsumeVerification handle) (Ok b) : {call & Call.answer call}) ∈ h.

(** What a call goes back to. *)
Definition justified (h : History) (call : Call.t) : Prop :=
  match call with
  | Call.CommitChunkAcceptance t i digest size => ∃ m,
      received h (WorkerProtocolMessage.ChunkAcceptanceRequest m) ∧
      car_transfer_id (body m) = t ∧ car_chunk_index (body m) = i ∧
      car_digest (body m) = digest ∧ car_size (body m) = size
  | Call.CommitArtifactVerification input => ∃ m b,
      received h (WorkerProtocolMessage.ArtifactVerificationReport m) ∧
      consumed h b (avr_verification_handle (body m)) ∧
      av_transfer_id input = vb_transfer_id b ∧ av_chunk_count input = vb_chunk_count b ∧
      av_computed_artifact_digest input = avr_computed_artifact_digest (body m)
  | Call.Send (WorkerProtocolMessage.ManifestSealDecision d) =>
      ∀ handle, msd_verification_handle (body d) = Some handle → ∃ q b,
      received h (WorkerProtocolMessage.ManifestSealRequest q) ∧ minted h b handle ∧
      msd_in_reply_to (body d) = env_message_id (envelope q) ∧
      vb_transfer_id b = msr_transfer_id (body q) ∧
      msd_chunk_count (body d) = Some (vb_chunk_count b)
  | _ => True
  end.

(** A computation only moves on in the sequence of draws. *)
Ltac head t := lazymatch t with ?f _ => head f | _ => t end.
Ltac forward_step :=
  match goal with
  | |- forward (mbind _ _) => apply forward_bind; [|intros ?]
  | |- forward (mret _) => apply forward_ret
  | |- forward new_v4 => apply forward_new_v4
  | |- forward (fill_bytes _) => intros ?; simpl; lia
  | |- forward (match ?x with _ => _ end) => destruct x
  | |- forward ?g => let h := head g in unfold h
  end.
Ltac draws_forward := repeat forward_step.

Ltac noted := repeat first [apply list_elem_of_here | apply list_elem_of_further].

Section ServerHistory.
Context {b64 : Base64} {sha : Sha256} {ed : Ed25519} {ent : Entropy} {chrono : ChronoRange}
  {disp : UuidDisplay} {simple : UuidSimple} {kind : UuidKind} {dbg : StrDebug}.

Ltac unfold_turn := unfold turn, serve, send_or_break, send_if_any, decide_authorization_query,
  handle_chunk_acceptance, handle_manifest_seal, handle_artifact_verification,
  handle_resume_discovery_query, handle_resume_discovery_continue.

Lemma turn_justified h page_size :
  1 ≤ page_size → wp justified note h (turn page_size) (λ _ _, True).
Proof.
  intros Hps. unfold_turn. wp_go; try done; try in_bounds.
  all: simpl; unfold note, received, minted, consumed.
  - exists m. split_and!; [noted|done..].
  - split; [|done]. intros handle [= <-]. eexists m, _. split_and!; [noted|noted|done..].
  - split; [|done]. intros handle [= <-]. eexists m, _. split_and!; [noted|noted|done..].
  - exists m, a2. split_and!; [noted|noted|done..].
Qed.

(** ** Handles *)

(** The verification bindings of a store after a call. *)
Lemma exec_verification_bindings tw reg s e call k tw' s' a k' handle b :
  exec tw reg s e call k = ((tw', s', a), k') →
  st_bindings s' !! handle = Some (Binding.Verification b) →
  st_bindings s !! handle = Some (Binding.Verification b) ∨
  (existT call a : {call & Call.answer call}) = existT (Call.MintVerification b) (Ok handle).
Proof.
  assert (∀ hk bd s1 r k1, insert_fresh reg s hk bd k = ((s1, r), k1) →
    st_bindings s1 !! handle = Some (Binding.Verification b) →
    st_bindings s !! handle = Some (Binding.Verification b) ∨
    bd = Binding.Verification b ∧ r = Ok handle) as Hfresh.
  { intros hk bd s1 r k1. unfold insert_fresh. rewrite with_current_cases.
    destruct (is_current _ _); [|intros [= <- <- _]; by left].
    case_match; [intros [= <- <- _]; by left|]. unfold mbind, gen_bind, mret, gen_ret.
    destruct (choose _ _ _ _) as [[id|] k2]; intros [= <- <- _]; [|by left]. simpl.
    rewrite lookup_insert_Some. intros [[-> ->]|[_ ?]]; auto. }
  destruct call; cbn [exec]; unfold mbind, gen_bind, mret, gen_ret;
    try (intros [= _ <- _ _]; by left).
  - unfold mint_acceptance. destruct (insert_fresh _ _ _ _ _) as [[s1 r] k1] eqn:Hi.
    intros [= _ <- <- _] Hb. destruct (Hfresh _ _ _ _ _ Hi Hb) as [?|[? _]]; [by left|done].
  - unfold consume_acceptance. rewrite with_current_cases. unfold mret, gen_ret.
    destruct (is_current _ _); [|intros [= _ <- <- _]; by left].
    destruct (st_bindings s !! handle0) as [[]|]; [case_match|..]; intros [= _ <- <- _]; try by left.
    simpl. rewrite lookup_delete_Some. intros [_ ?]. by left.
  - unfold mint_verification. destruct (insert_fresh _ _ _ _ _) as [[s1 r] k1] eqn:Hi.
    intros [= _ <- <- _] Hb. destruct (Hfresh _ _ _ _ _ Hi Hb) as [?|[[= ->] ->]]; [by left|by right].
  - unfold consume_verification. rewrite with_current_cases. unfold mret, gen_ret.
    destruct (is_current _ _); [|intros [= _ <- <- _]; by left].
    destruct (st_bindings s !! handle0) as [[]|]; intros [= _ <- <- _]; try by left.
    simpl. rewrite lookup_delete_Some. intros [_ ?]. by left.
  - unfold register_resume_snapshot. rewrite with_current_cases. unfold mbind, gen_bind, mret, gen_ret.
    destruct (is_current _ _); [|intros [= _ <- <- _]; by left].
    destruct (_ <=? _)%nat; [intros [= <- <- _]; by left|]. unfold mbind, gen_bind, mret, gen_ret.
    destruct (choose _ _ _ _) as [[id|] k2]; intros [= _ <- <- _]; by left.
  - unfold mint_resume_cursor. destruct (insert_fresh _ _ _ _ _) as [[s1 r] k1] eqn:Hi.
    intros [= _ <- <- _] Hb. destruct (Hfresh _ _ _ _ _ Hi Hb) as [?|[? _]]; [by left|done].
  - unfold advance_resume_cursor. rewrite with_current_cases. unfold mbind, gen_bind, mret, gen_ret.
    destruct (is_current _ _); [|intros [= _ <- <- _]; by left].
    destruct (st_bindings s !! cursor) as [[]|]; [..|destruct (negb _); [|destruct next]|];
      try (intros [= _ <- <- _]; by left).
    + destruct (choose _ _ _ _) as [[id|] k2]; intros [= _ <- <- _]; [|by left]. simpl.
      rewrite lookup_insert_Some. intros [[_ ?]|[_ [_ ?]%lookup_delete_Some]]; [done|by left].
    + intros [= _ <- <- _]. simpl. rewrite lookup_delete_Some. intros [_ ?]. by left.
  - unfold drop_resume_snapshot. rewrite linearized_on_is_current. intros [= _ <- _ _].
    destruct (is_current _ _); by left.
Qed.

Lemma exec_consumed tw reg s e handle k tw' s' b k' :
  exec tw reg s e (Call.ConsumeVerification handle) k = ((tw', s', Ok b), k') →
  st_bindings s !! handle = Some (Binding.Verification b).
Proof.
  cbn [exec]. unfold consume_verification, mbind, gen_bind, mret, gen_ret.
  rewrite with_current_cases. unfold mret, gen_ret.
  destruct (is_current _ _); [|by intros [=]].
  destruct (st_bindings s !! handle) as [[]|]; intros H; injection H; intros; by simplify_eq.
Qed.

(** ** The invariant of a connection *)

Definition history_inv (h : History) (s : TransientWorkerOperationStore) (p : proc Flow.t) : Prop :=
  wp justified note h p (λ _ _, True) ∧
  (∀ handle b, st_bindings s !! handle = Some (Binding.Verification b) → minted h b handle) ∧
  (∀ handle b, consumed h b handle → minted h b handle).

(** A successful consumption, in an entry of a history. *)
Definition consumption (x : {call : Call.t & Call.answer call}) : option (str * VerificationBinding) :=
  match x with
  | existT call a =>
      match call return Call.answer call → _ with
      | Call.ConsumeVerification handle => λ a, match a with Ok b => Some (handle, b) | Err _ => None end
      | _ => λ _, None
      end a
  end.

Lemma history_call h s call rest tw reg e k tw' s' a k' :
  world_wf tw → history_inv h s (Do call rest) →
  exec tw reg s e call k = ((tw', s', a), k') → history_inv (note h call a) s' (rest a).
Proof.
  intros Hw ([_ Hwp] & Hst & Hcon) Hex. split_and!.
  - by eapply Hwp, exec_answer_ok.
  - intros handle b Hb. destruct (exec_verification_bindings _ _ _ _ _ _ _ _ _ _ _ _ Hex Hb) as [?|Heq].
    + right. by apply Hst.
    + unfold minted, note. rewrite Heq. apply list_elem_of_here.
  - intros handle b [Heq|Hc]%elem_of_cons; [|right; by apply Hcon].
    apply (f_equal consumption) in Heq. destruct call; try done. destruct a as [b'|]; [|done].
    injection Heq as -> ->. right. by eapply Hst, exec_consumed.
Qed.

(** An entry of a connection's history is an event of the run. *)
Lemma history_event c tr call a :
  (existT call a : {call & Call.answer call}) ∈ ghost [] note c tr →
  ∃ g, Event.Called c g call a ∈ tr.
Proof.
  induction tr as [|ev tr IH] using rev_ind; [by intros ?%elem_of_nil|].
  rewrite ghost_app. simpl.
  assert (existT call a ∈ ghost [] note c tr → ∃ g, Event.Called c g call a ∈ tr ++ [ev]) as Hold.
  { intros Hin. destruct (IH Hin) as [g ?]. exists g. apply elem_of_app. by left. }
  destruct ev as [| |c' g call' a'| | |]; simpl; try done;
    (destruct (decide (_ = c)) as [<-|]; [|by apply Hold]); [by intros ?%elem_of_nil|].
  unfold note. rewrite elem_of_cons. intros [Heq|Hin]; [|by apply Hold].
  exists g. apply elem_of_app. right.
  assert (Event.Called c' g call a = Event.Called c' g call' a') as ->; [|by left].
  change (match existT call a with existT x y => Event.Called c' g x y end = Event.Called c' g call' a').
  by rewrite Heq.
Qed.

(** Facts about every run. *)
Section AnyRun.
Context (tw : TransferWorld) (cap page_size k0 n : nat) (tr : list Event.t) (w : ControlWorld) (k : nat).
Context (wf : world_wf tw) (run : creaches (empty_control tw cap page_size) k0 n tr w k).

(** The message was received on some connection; the handle minted for the binding. *)
Definition got (m : WorkerProtocolMessage.t) : Prop :=
  ∃ c g, Event.Called c g Call.Receive (Incoming.Received (Ok m)) ∈ tr.
Definition issued (b : VerificationBinding) (handle : str) : Prop :=
  ∃ c g, Event.Called c g (Call.MintVerification b) (Ok handle) ∈ tr.

Lemma call_history c g call a :
  Event.Called c g call a ∈ tr → ∃ h, justified h call ∧
    (∀ m, received h m → got m) ∧ (∀ b handle, minted h b handle → issued b handle) ∧
    (∀ b handle, consumed h b handle → minted h b handle).
Proof using wf run.
  intros [i Hi]%list_elem_of_lookup.
  destruct (creaches_tasks [] note history_inv (page_size `max` 1) (cap `max` 1)) with
    (w0 := empty_control tw cap page_size) (k0 := k0) (n := n) (tr := tr) (w := w) (k := k)
    as [_ He]; try done.
  - intros g'. split_and!; [apply turn_justified; lia| |].
    + intros handle b. simpl. by rewrite lookup_empty.
    + by intros handle b ?%elem_of_nil.
  - intros h s (_ & H1 & H2). split_and!; [apply turn_justified; lia|done|done].
  - intros. by eapply history_call.
  - by apply empty_starts.
  - destruct (He i c g call a Hi) as (s & rest & _ & [Hj _] & _ & Hc).
    assert (∀ call' a', existT call' a' ∈ ghost [] note c (take i tr) →
      ∃ g', Event.Called c g' call' a' ∈ tr) as Hin.
    { intros call' a' (g' & Hg)%history_event. exists g'. rewrite <-(take_drop i tr), elem_of_app.
      by left. }
    eexists. split_and!; [done| | |by intros b handle; apply Hc].
    + intros m (g' & ?)%Hin. by exists c, g'.
    + intros b handle (g' & ?)%Hin. by exists c, g'.
Qed.
End AnyRun.

(** ** Draws *)

Lemma forward_create_steps job order count : forward (create_steps job order count).
Proof. revert order. induction count; intros order; cbn [create_steps]; draws_forward; auto. Qed.

Lemma forward_job_op w o : forward (run_job_op w o).
Proof. destruct o; cbn [run_job_op]; repeat (forward_step || apply forward_create_steps). Qed.

Lemma forward_transfer_op w o : forward (run_transfer_op w o).
Proof.
  destruct o; cbn [run_transfer_op]; [apply forward_bind; [apply forward_job_op|intros ?]|..];
    draws_forward.
Qed.

Lemma cstep_forward w k ev w' k' : cstep w k ev w' k' → k ≤ k'.
Proof.
  intros [[_ ?]|(o & _ & Hrun)]%cstep_op; [done|].
  pose proof (forward_transfer_op (cw_transfer w) o k) as Hf. by rewrite Hrun in Hf.
Qed.

(** The handle of draw [j]. *)
Definition verification_handle (j : nat) : str := (csprng_id_source HandleKind.Verification j).1.

Lemma verification_handle_inj `{!UuidSimpleLaws} k j j' :
  fresh_draws 0 k → j < k → j' < k → verification_handle j = verification_handle j' → j = j'.
Proof.
  intros Hf Hj Hj' He. apply (fresh_draws_inj k); [done..|].
  unfold verification_handle, csprng_id_source in He. simpl in He.
  apply uuid_simple_inj. by injection He.
Qed.

Lemma choose_drawn n hk taken k id k' :
  choose n (csprng_id_source hk) taken k = (Some id, k') →
  ∃ j, k ≤ j < k' ∧ id = (csprng_id_source hk j).1.
Proof.
  revert k. induction n as [|n IH]; intros k; [done|]. cbn [choose].
  unfold mbind, gen_bind, mret, gen_ret. simpl. case_match.
  - intros (j & ? & ?)%IH. exists j. split; [lia|done].
  - intros [= <- <-]. exists k. split; [lia|done].
Qed.

Lemma exec_minted tw reg s e b k tw' s' handle k' :
  exec tw reg s e (Call.MintVerification b) k = ((tw', s', Ok handle), k') →
  ∃ j, k ≤ j < k' ∧ handle = verification_handle j.
Proof.
  cbn [exec]. unfold mint_verification, insert_fresh, mbind, gen_bind, mret, gen_ret.
  rewrite with_current_cases. destruct (is_current _ _); [|by intros [=]].
  destruct (_ <=? _)%nat; [by intros [=]|]. unfold mbind, gen_bind, mret, gen_ret.
  destruct (choose _ _ _ _) as [[id|] k1] eqn:Hc; [|by intros [=]]. intros H.
  injection H as _ _ <- <-. by eapply choose_drawn.
Qed.

(** The verification handles a trace issues. *)
Definition mint_of (ev : Event.t) : option (VerificationBinding * str) :=
  match ev with
  | Event.Called _ _ call a =>
      match call return Call.answer call → _ with
      | Call.MintVerification b => λ a, match a with Ok handle => Some (b, handle) | Err _ => None end
      | _ => λ _, None
      end a
  | _ => None
  end.

Lemma exec_mint_of tw reg s e call k tw' s' (a : Call.answer call) k' c g :
  exec tw reg s e call k = ((tw', s', a), k') →
  mint_of (Event.Called c g call a) = None ∨
  ∃ b j, k ≤ j < k' ∧ mint_of (Event.Called c g call a) = Some (b, verification_handle j).
Proof.
  destruct call; try (by left). destruct a as [handle|]; [|by left].
  intros (j & ? & ->)%exec_minted. right. by exists b, j.
Qed.

Lemma cstep_mints w k ev w' k' :
  cstep w k ev w' k' → omap mint_of ev = [] ∨
  ∃ b j, k ≤ j < k' ∧ omap mint_of ev = [(b, verification_handle j)].
Proof.
  destruct 1 as [|?|? ? ? ? ? ? ? ?|? ? ? ? ? ? ? ?|? ?|? ? ?|? ?
    |c s call rest e tw s' a k' _ He _|c s call rest e tw s' a k' _ He _
    |c s call rest e tw s' a k' _ He _|? ?|? ?|? ? ?|?|? ? ? ? ? ?|? ? ? ?]; try (by left);
    destruct (exec_mint_of _ _ _ _ _ _ _ _ _ _ c (st_generation s) He) as [Hm|(b & j & Hj & Hm)];
    [left|right; exists b, j; split; [done|]|left|right; exists b, j; split; [done|]
    |left|right; exists b, j; split; [done|]]; cbn [omap list_omap]; by rewrite Hm.
Qed.

Lemma creaches_mints w0 k0 n tr w k :
  creaches w0 k0 n tr w k →
  ∃ js, (omap mint_of tr).*2 = verification_handle <$> js ∧ NoDup js ∧ Forall (λ j, j < k) js.
Proof.
  induction 1 as [|n tr w1 k1 ev w2 k2 _ (js & Hjs & Hnd & Hlt) Hstep].
  { exists []. split_and!; [done|constructor|done]. }
  pose proof (cstep_forward _ _ _ _ _ Hstep) as Hle.
  assert (Forall (λ j, j < k2) js) as Hlt2 by (eapply Forall_impl; [exact Hlt|simpl; lia]).
  rewrite omap_app. destruct (cstep_mints _ _ _ _ _ Hstep) as [->|(b & j & Hj & ->)].
  { exists js. by rewrite app_nil_r. }
  exists (js ++ [j]). split_and!.
  - by rewrite !fmap_app, Hjs.
  - apply NoDup_app. split_and!; [done| |apply NoDup_singleton]. intros j' Hj' ->%list_elem_of_singleton.
    rewrite Forall_forall in Hlt. apply Hlt in Hj'. lia.
  - apply Forall_app. split; [done|]. by constructor; [lia|].
Qed.

(** No handle is issued for two bindings. *)
Lemma issued_once `{!UuidSimpleLaws} w0 k0 n tr w k b b' handle :
  creaches w0 k0 n tr w k → fresh_draws 0 k → issued tr b handle → issued tr b' handle → b = b'.
Proof.
  intros (js & Hjs & Hnd & Hlt)%creaches_mints Hf.
  assert (NoDup (omap mint_of tr).*2) as Hh.
  { rewrite Hjs. apply NoDup_fmap_2_strong; [|done]. intros x y Hx Hy. rewrite Forall_forall in Hlt.
    by apply (verification_handle_inj k); [|apply Hlt..]. }
  assert (∀ b, issued tr b handle → (b, handle) ∈ omap mint_of tr) as Hin.
  { intros b0 (c & g & Hc). apply list_elem_of_omap. by eexists. }
  intros [i Hi]%Hin%list_elem_of_lookup [i' Hi']%Hin%list_elem_of_lookup.
  assert (i = i') as ->; [|congruence].
  eapply NoDup_lookup; [done| |]; rewrite list_lookup_fmap; [by rewrite Hi|by rewrite Hi'].
Qed.
End ServerHistory.
