(* ===== verification/ServerRecords.v ===== *)
(** * What the server's tables record

    Runs in which chunks, seals and verifications come only from Workers, as in [bamepd],
    which calls none of the other entry points: every held chunk goes back to a commit of a
    Worker connection, every [Verified] Artifact to a report, each with what it stated. *)

From stdpp Require Import prelude gmap strings.
From Stdlib Require Import Strings.Byte NArith ZArith.
From S2P Require Import Prelude.
From S2P Require Import External.
From S2P Require Import Credential.
From S2P Require Import Endpoint.
From S2P Require Import EnrollmentStore.
From S2P Require Import Job.
From S2P Require Import Transfer.
From S2P Require Import Runtime.
From S2P Require Import JobStore.
From S2P Require Import JobServices.
From S2P Require Import TransferAuth.
From S2P Require Import TransferStore.
From S2P Require Import TransferEvidence.
From S2P Require Import TransferSpec.
From S2P Require Import TransferSafety.
From S2P Require Import TransferTheorems.
From S2P Require Import WorkerProtocol.
From S2P Require Import WorkerFraming.
From S2P Require Import WorkerOperations.
From S2P Require Import WorkerControl.
From S2P Require Import WorkerSafety.

(** The operations [bamepd] performs outside Worker connections. *)
Definition own_op (o : TransferOp.t) : bool :=
  match o with
  | TransferOp.RecordExpectedChunk _ _ _ _ | TransferOp.AcceptVerifiedChunk _ _ _
  | TransferOp.SealManifest _ _ _ | TransferOp.BeginVerification _
  | TransferOp.CompleteVerification _ _ | TransferOp.CommitChunkAcceptance _ _ _ _
  | TransferOp.CommitManifestSeal _ _ | TransferOp.CommitArtifactVerification _ => false
  | _ => true
  end.
Definition own_step (st : Step.t) : bool :=
  match st with Step.Server o => own_op o | _ => true end.

Section ServerRecords.
Context {b64 : Base64} {sha : Sha256} {ed : Ed25519} {ent : Entropy} {chrono : ChronoRange}
  {disp : UuidDisplay} {simple : UuidSimple} {kind : UuidKind} {dbg : StrDebug}.

(** ** The chunk table *)

Lemma update_sealed_chunks db id n d db' :
  update_sealed db id n d = Ok db' → td_chunks db' = td_chunks db.
Proof. unfold update_sealed. intros. by split_matches. Qed.

Lemma seal_chunks db s input now :
  td_chunks (service_commit_manifest_seal db s input now).1.1 = td_chunks db.
Proof.
  unfold service_commit_manifest_seal, repo_commit_manifest_seal.
  repeat (case_match; simplify_eq/=; try done).
  all: match goal with H : persist_seal _ _ ?d = _ |- _ => destruct d; simpl in H; simplify_eq; try done end.
  all: match goal with H : commit _ (?w ≫= _) _ = _ |- _ => destruct w eqn:Hup; simpl in H; simplify_eq/=; try done end.
  all: by apply update_sealed_chunks in Hup.
Qed.

Lemma verification_chunks db input :
  td_chunks (service_commit_artifact_verification db input).1 = td_chunks db.
Proof.
  unfold service_commit_artifact_verification.
  assert (td_chunks (repo_commit_artifact_verification db (av_transfer_id input)
    (artifact_verification_decision input)).1 = td_chunks db) as Hk.
  2: { by destruct (repo_commit_artifact_verification _ _ _) as [db' [o|[]]]. }
  apply (locked_post (λ db', td_chunks db' = td_chunks db)); [done|]. intros facts _.
  by destruct (artifact_verification_decision _ _).
Qed.

Lemma evidence_chunks w action ep decide k w' r k' :
  apply_and_settle w action ep decide k = ((w', r), k') → tw_chunks w' = tw_chunks w.
Proof.
  unfold apply_and_settle, mbind, gen_bind, mret, gen_ret.
  destruct (repo_apply_transfer_terminal_evidence _ _ _ _ _) as [[db r1] k1] eqn:Hr.
  intros Hw. apply (f_equal fst) in Hw. apply (f_equal fst) in Hw. simpl in Hw.
  assert (td_chunks db = tw_chunks w) as Hdb.
  { unfold repo_apply_transfer_terminal_evidence, mbind, gen_bind, mret, gen_ret in Hr.
    repeat (case_match; simplify_eq/=; try done); unfold persist_incomplete_artifact_failed in *;
      repeat (case_match; simplify_eq/=; try done). }
  subst w'. by repeat case_match.
Qed.

Lemma own_chunks w o k w' k' :
  own_op o = true → run_transfer_op w o k = (w', k') → tw_chunks w' = tw_chunks w.
Proof.
  intros Ho. destruct o; try done; unfold run_transfer_op, mbind, gen_bind, mret, gen_ret.
  - destruct (run_job_op _ _ _) as [world k1]. destruct (restarted _ _ _). by intros [= <- _].
  - unfold service_create_transfer_context, create_transfer_context. run_gen.
    assert (∀ c, td_chunks (repo_create_transfer_context (tw_db w) c).1 = tw_chunks w) as K0.
    { intros c. unfold repo_create_transfer_context. do 2 (case_match; [|done]).
      do 2 (case_match; [done|]). apply (commit_post (λ db', td_chunks db' = tw_chunks w)); [done|].
      intros db' (arts & _ & Hw)%result_bind_Ok. apply result_bind_Ok in Hw as (db2 & Hins & Hw).
      apply result_bind_Ok in Hw as (mans & _ & [= <-]).
      by apply insert_transfer_Ok in Hins as (_ & _ & _ & ->). }
    match goal with |- context [repo_create_transfer_context _ ?c] => specialize (K0 c);
      destruct (repo_create_transfer_context (tw_db w) c) as [db r] end.
    destruct r; by intros [= <- _].
  - intros [= <- _]. simpl. apply (locked_post (λ db', td_chunks db' = tw_chunks w)); [done|].
    intros facts _. unfold fail_incomplete. by case_bool_decide.
  - intros [= <- _]. simpl. apply (locked_post (λ db', td_chunks db' = tw_chunks w)); [done|].
    intros facts _. destruct (bind_attempt _ _) as [b|]; [|done].
    apply (commit_post (λ db', td_chunks db' = tw_chunks w)); [done|]. intros db'.
    destruct (tr_attempt_id b); [|by intros [= <-]]. case_bool_decide; [done|].
    by intros (jobs & Hb & [= <-])%result_bind_Ok.
  - destruct (service_issue _ _ _ _ _ _ _ _ _ _) as [r k1]. by intros [= <- _].
  - by intros [= <- _].
  - unfold service_transfer_apply, mbind, gen_bind, mret, gen_ret.
    destruct (apply_and_settle _ _ _ _ _) as [[w1 r] k1] eqn:Ha. intros [= <- _].
    by eapply evidence_chunks.
  - unfold service_transfer_cancel_ack, mbind, gen_bind, mret, gen_ret.
    destruct (apply_and_settle _ _ _ _ _) as [[w1 r] k1] eqn:Ha. intros [= <- _].
    by eapply evidence_chunks.
  - unfold service_transfer_status_report_cancelled, mbind, gen_bind, mret, gen_ret.
    destruct (apply_and_settle _ _ _ _ _) as [[w1 r] k1] eqn:Ha. intros [= <- _].
    by eapply evidence_chunks.
  - unfold service_transfer_status_report_failed, mbind, gen_bind, mret, gen_ret.
    destruct (apply_and_settle _ _ _ _ _) as [[w1 r] k1] eqn:Ha. intros [= <- _].
    by eapply evidence_chunks.
Qed.

(** A commit changes one row at most, to what the request states. *)
Lemma commit_rows db id index digest size a z row :
  td_wf db →
  td_chunks (service_commit_chunk_acceptance db id index digest size).1 !! (a, z) = Some row →
  td_chunks db !! (a, z) = Some row ∨
  ∃ t d, td_transfers db !! id = Some t ∧ tr_artifact_id t = a ∧ z = Z.of_N index ∧
    Digest_parse_wire_value (tr_digest_algorithm t) digest = Ok d ∧
    row = {| cr_size := Z.of_N size; cr_digest := d; cr_held := true |}.
Proof.
  intros W. destruct (service_commit_chunk_acceptance db id index digest size) as [db1 r] eqn:Hs.
  simpl. assert (r = Ok ChunkAcceptanceCommit.Committed ∨ db1 = db) as [->| ->]; [|intros Hrow|by left].
  { revert Hs. unfold service_commit_chunk_acceptance. destruct (try_u32 index) as [i|];
      [|intros [= <- <-]; by right].
    unfold repo_commit_chunk_acceptance, locked, commit.
    repeat (case_match; simplify_eq/=); intros; simplify_eq; auto. }
  destruct (committed_row _ _ _ _ _ _ W Hs) as (i & t & d & Hi & Ht & _ & Hd & Hrow1).
  destruct (try_u32_Some _ _ Hi) as [-> _].
  destruct (decide ((a, z) = (tr_artifact_id t, Z.of_N index))) as [[= -> ->]|Hne].
  { right. exists t, d. rewrite Hrow1 in Hrow. injection Hrow as <-. by split_and!. }
  left. rewrite <-Hrow. clear Hrow Hrow1. revert Hs. unfold service_commit_chunk_acceptance. rewrite Hi.
  destruct (load_facts _ _ _ W Ht) as (u & cc & Hsh & Hu & Hl).
  unfold repo_commit_chunk_acceptance, locked. rewrite Hl. simpl.
  destruct (chunk_acceptance_decision _ _ _ _ _) as [[m|]| | |] eqn:Hdec; [| |done..].
  - destruct (expected_chunk m index) as [c|]; [|done]. simpl. unfold insert_chunk.
    destruct (_ || _) eqn:Hchk; [done|]. simpl. destruct (insert_unique _ _ _) as [chunks|] eqn:Hins; [|done].
    unfold insert_unique in Hins. case_match; [done|]. injection Hins as <-.
    intros [= <-]. simpl. rewrite lookup_insert_ne; [done|].
    apply orb_false_elim in Hchk as [[Hneg%Z.ltb_ge _]%orb_false_elim _].
    destruct (try_u32_Some _ _ Hi) as [_ Hlt]. by apply u32_as_i32_nonneg in Hlt as [-> _].
  - case_bool_decide; [done|]. intros [= <-]. simpl.
    apply chunk_decision_commit in Hdec as (d' & _ & Hr & _).
    unfold record_expected_chunk in Hr. apply result_bind_Ok in Hr as (d2 & Hd' & Hr). simpl in Hr.
    destruct (up_chunks u !! index) as [c|] eqn:Hc; [|by case_bool_decide].
    destruct (uw_chunk _ Hu _ _ Hc) as [Ei (Hlt & _)]. rewrite u32_as_i32_small by lia.
    by rewrite lookup_alter_ne.
Qed.

(** ** One step *)

(** The call a connection makes, if it changes the durable state. *)
Lemma run_connection_transfer w c e p k w' ev k' :
  run_connection w c e p k = ((w', ev), k') →
  cw_transfer w' = cw_transfer w ∨
  ∃ s call a s' g, exec (cw_transfer w) (cw_registry w) s e call k = ((cw_transfer w', s', a), k') ∧
    Event.Called c g call a ∈ ev.
Proof.
  assert (∀ w s rest w1 ev1, resume_with w c s rest = (w1, ev1) → cw_transfer w1 = cw_transfer w) as Hres.
  { intros w0 s rest w1 ev1. unfold resume_with. by repeat case_match; intros [= <- <-]. }
  unfold run_connection.
  destruct p as [|id|g id|s|s [a| |call rest]]; unfold mbind, gen_bind, mret, gen_ret.
  - destruct (handshake_as_server _ _ _) as [[reply [id|err]] k1]; intros [= <- <- <-]; by left.
  - simpl. intros [= <- <- <-]. by left.
  - simpl. intros [= <- <- <-]. by left.
  - simpl. intros [= <- <- <-]. by left.
  - intros H. apply (f_equal fst) in H. left. exact (Hres _ _ _ _ _ H).
  - intros H. apply (f_equal fst) in H. left. exact (Hres _ _ _ _ _ H).
  - destruct (exec _ _ _ _ _ _) as [[[tw s'] a] k1] eqn:He.
    destruct (resume_with _ _ _ _) as [w1 ev1] eqn:Hr. intros [= <- <- <-]. apply Hres in Hr. simpl in Hr.
    right. exists s, call, a, s', (st_generation s). rewrite Hr. split; [done|]. by left.
Qed.

(** The tables keep their chunks and verify nothing, or the step is a commit of a Worker
    connection. *)
Definition step_rows (w : ControlWorld) (k : nat) (ev : list Event.t) (w' : ControlWorld) (k' : nat)
  : Prop :=
  let db := tw_db (cw_transfer w) in let db' := tw_db (cw_transfer w') in
  (td_chunks db' = td_chunks db ∧ no_new_verified db db') ∨
  (∃ c g id i digest size a,
     Event.Called c g (Call.CommitChunkAcceptance id i digest size) a ∈ ev ∧
     db' = (service_commit_chunk_acceptance db id i digest size).1) ∨
  (∃ c g input a, Event.Called c g (Call.CommitArtifactVerification input) a ∈ ev ∧
     run_transfer_op (cw_transfer w) (TransferOp.CommitArtifactVerification input) k
       = (cw_transfer w', k')).

Lemma control_step_rows w st k w' ev k' :
  own_step st = true → control_step w st k = ((w', ev), k') → step_rows w k ev w' k'.
Proof.
  assert (∀ ev w' k', cw_transfer w' = cw_transfer w → step_rows w k ev w' k') as Hsame.
  { intros ev0 w0 k0 He. left. rewrite He. split; [done|by apply same_artifacts_verified]. }
  assert (∀ ev w' k' auth, cw_transfer w' = tw_with_auth (cw_transfer w) auth →
    step_rows w k ev w' k') as Hauth.
  { intros ev0 w0 k0 auth He. left. rewrite He. split; [done|by apply same_artifacts_verified]. }
  intros Ho. destruct st as [c|c e|c|o]; cbn [control_step]; unfold mbind, gen_bind, mret, gen_ret.
  - intros [= <- <- <-]. apply Hsame. by case_match.
  - destruct (cw_connections w !! c) as [p|]; [|intros [= <- <- <-]; by apply Hsame].
    intros [?|(s & call & a & s' & g & Hex & Hin)]%run_connection_transfer; [by apply Hsame|].
    destruct call; cbn [exec] in Hex; unfold mbind, gen_bind, mret, gen_ret in Hex;
      try (injection Hex as Hw _ _ _; first [by apply Hsame | by eapply Hauth]);
      try (match goal with H : (let '(_, _) := ?g in _) = _ |- _ => destruct g end;
           injection Hex as Hw _ _ _; by apply Hsame).
    + right; left. injection Hex as Hw _ _ _. eexists _, _, _, _, _, _, _. split; [done|].
      by rewrite <-Hw, tw_db_with.
    + left. injection Hex as Hw _ _ _. rewrite <-Hw. split; [apply seal_chunks|].
      destruct (service_calls_verify_nothing (tw_db (cw_transfer w)))
        as (_ & _ & _ & _ & _ & _ & _ & _ & _ & K9).
      apply (K9 (tw_auth (cw_transfer w)) input (en_now e)).
    + right; right. injection Hex as Hw _ _ <-. eexists _, _, _, _. split; [done|].
      unfold run_transfer_op, mret, gen_ret. by rewrite <-Hw.
  - destruct (cw_connections w !! c) as [[]|]; intros [= <- <- <-]; by apply Hsame.
  - destruct (run_transfer_op _ _ _) as [tw k1] eqn:Hrun. intros H.
    assert (cw_transfer w' = tw) as Hw.
    { destruct (restarted_control w o) as [w1 ev1]. by injection H as <- _ _. }
    left. rewrite Hw. split; [by eapply own_chunks|].
    eapply other_calls_verify_nothing; [|done]. by destruct o.
Qed.

(** ** Runs *)

(** Where the rows of [db] come from, given the trace. *)
Record recorded (tr : list Event.t) (db : TransferDb) : Prop := {
  rd_held a z row : td_chunks db !! (a, z) = Some row →
    ∃ c g id i digest size ans t d,
      Event.Called c g (Call.CommitChunkAcceptance id i digest size) ans ∈ tr ∧
      td_transfers db !! id = Some t ∧ tr_artifact_id t = a ∧ z = Z.of_N i ∧
      Digest_parse_wire_value (tr_digest_algorithm t) digest = Ok d ∧
      row = {| cr_size := Z.of_N size; cr_digest := d; cr_held := true |};
  rd_verified a row : td_artifacts db !! a = Some row → afr_state row = ArtifactState.Verified →
    ∃ c g input ans t d,
      Event.Called c g (Call.CommitArtifactVerification input) ans ∈ tr ∧
      td_transfers db !! av_transfer_id input = Some t ∧ tr_artifact_id t = a ∧
      td_manifests db !! a = Some (seal_row (Some (av_chunk_count input, d))) ∧
      Digest_parse_wire_value (tr_digest_algorithm t) (av_computed_artifact_digest input) = Ok d;
}.

(** A sealed manifest row stays. *)
Lemma sealed_row_kept db db' a n d :
  td_wf db → evolves db db' → td_manifests db !! a = Some (seal_row (Some (n, d))) →
  td_manifests db' !! a = Some (seal_row (Some (n, d))).
Proof.
  intros W E Hm. destruct (tdw_upload _ W a) as (u & Hs & Hu).
  { apply (tdw_manifest _ W). by rewrite Hm. }
  destruct (ev_upload _ _ E a u Hs Hu) as (u' & Hs' & Hmay).
  assert (up_seal u = Some (n, d)) as Hseal.
  { pose proof (sh_manifest _ _ _ Hs) as Hm'. rewrite Hm in Hm'.
    destruct (up_seal u) as [[n' d']|]; simpl in Hm'; [|done].
    assert (n' = n) as -> by (injection Hm'; lia). by injection Hm' as ->. }
  rewrite (sh_manifest _ _ _ Hs'). do 2 f_equal. destruct Hmay as [->|Hst]; [done|].
  rewrite <-Hseal. apply (ul_seal _ _ (upload_step_le _ _ Hst)). by rewrite Hseal.
Qed.

Lemma recorded_kept tr ev db db' :
  td_wf db → evolves db db' → recorded tr db →
  (∀ a z row, td_chunks db' !! (a, z) = Some row → td_chunks db !! (a, z) = Some row ∨
     ∃ c g id i digest size ans t d,
       Event.Called c g (Call.CommitChunkAcceptance id i digest size) ans ∈ ev ∧
       td_transfers db' !! id = Some t ∧ tr_artifact_id t = a ∧ z = Z.of_N i ∧
       Digest_parse_wire_value (tr_digest_algorithm t) digest = Ok d ∧
       row = {| cr_size := Z.of_N size; cr_digest := d; cr_held := true |}) →
  (∀ a row, td_artifacts db' !! a = Some row → afr_state row = ArtifactState.Verified →
     (∃ row', td_artifacts db !! a = Some row' ∧ afr_state row' = ArtifactState.Verified) ∨
     ∃ c g input ans t d,
       Event.Called c g (Call.CommitArtifactVerification input) ans ∈ ev ∧
       td_transfers db' !! av_transfer_id input = Some t ∧ tr_artifact_id t = a ∧
       td_manifests db' !! a = Some (seal_row (Some (av_chunk_count input, d))) ∧
       Digest_parse_wire_value (tr_digest_algorithm t) (av_computed_artifact_digest input) = Ok d) →
  recorded (tr ++ ev) db'.
Proof.
  intros W E [H1 H2] Hrow Hver. split.
  - intros a z row [Hold|(c & g & id & i & dg & n & ans & t & d & Hin & ?)]%Hrow.
    + destruct (H1 _ _ _ Hold) as (c & g & id & i & dg & n & ans & t & d & Hin & Ht & Ha & Hz & Hd & Hr).
      destruct (ev_transfer _ _ E _ _ Ht) as (t' & Ht' & _ & Heq).
      exists c, g, id, i, dg, n, ans, t', d. rewrite Heq. simpl.
      split_and!; try done; [apply elem_of_app; by left|by rewrite Ht', Heq at 1].
    + exists c, g, id, i, dg, n, ans, t, d. split; [|done]. apply elem_of_app. by right.
  - intros a row Ha Hst. destruct (Hver _ _ Ha Hst) as [(row' & Ha' & Hst')|(c & g & input & ans & t & d & Hin & ?)].
    + destruct (H2 _ _ Ha' Hst') as (c & g & input & ans & t & d & Hin & Ht & Hta & Hm & Hd).
      destruct (ev_transfer _ _ E _ _ Ht) as (t' & Ht' & _ & Heq).
      exists c, g, input, ans, t', d. rewrite Heq. simpl.
      split_and!; try done; [apply elem_of_app; by left|by rewrite Ht', Heq at 1|by eapply sealed_row_kept].
    + exists c, g, input, ans, t, d. split; [|done]. apply elem_of_app. by right.
Qed.

Lemma recorded_step w st k w' ev k' tr :
  world_wf (cw_transfer w) → own_step st = true → step_in_range st →
  control_step w st k = ((w', ev), k') →
  recorded tr (tw_db (cw_transfer w)) → recorded (tr ++ ev) (tw_db (cw_transfer w')).
Proof.
  intros Hwf Ho Hin Hstep Hrec. pose proof Hwf as [HI W].
  assert (evolves (tw_db (cw_transfer w)) (tw_db (cw_transfer w'))) as E.
  { apply control_step_cstep in Hstep as [[-> _]|(o & Hr & Hrun)]%cstep_op; [by apply evolves_refl| |done].
    by apply (run_transfer_op_ok true _ _ _ _ _ HI W Hr (or_introl eq_refl) Hrun). }
  pose proof (ev_wf _ _ E) as W'.
  apply (recorded_kept tr ev (tw_db (cw_transfer w))); [done|done|done|..];
    destruct (control_step_rows _ _ _ _ _ _ Ho Hstep)
      as [[Hc Hv]|[(c & g & id & i & dg & n & a & Hev & Hdb)|(c & g & input & a & Hev & Hrun)]].
  - intros a z row. rewrite Hc. by left.
  - intros art z row. rewrite Hdb. intros [?|(t & d & Ht & Ha & Hz & Hp & Hr)]%commit_rows; [by left| |done]. right.
    destruct (ev_transfer _ _ E _ _ Ht) as (t' & Ht' & _ & Heq). rewrite <-Hdb.
    exists c, g, id, i, dg, n, a, t', d. by split_and!; [..|rewrite Heq| |rewrite Heq|].
  - intros art z row Hrow. left. unfold run_transfer_op, mret, gen_ret in Hrun. injection Hrun as Hw _.
    rewrite <-Hw, tw_db_with, verification_chunks in Hrow. done.
  - intros art row Hrow Hst. left. exact (Hv _ _ Hrow Hst).
  - intros art row Hrow Hst. left.
    destruct (service_calls_verify_nothing (tw_db (cw_transfer w)))
      as (_ & _ & _ & _ & _ & _ & _ & _ & K8 & _).
    specialize (K8 id i dg n). rewrite <-Hdb in K8. exact (K8 _ _ Hrow Hst).
  - intros art row Hrow Hst.
    destruct (td_artifacts (tw_db (cw_transfer w)) !! art) as [row0|] eqn:H0.
    2: { destruct (sh_artifact _ _ _ (ev_new _ _ E art H0 ltac:(by rewrite Hrow))) as [cc Hfresh].
         rewrite Hrow in Hfresh. injection Hfresh as ->. done. }
    destruct (decide (afr_state row0 = ArtifactState.Verified)) as [?|Hne]; [left; by exists row0|].
    right. destruct (newly_verified _ _ _ _ _ _ _ _ Hwf Hrun H0 Hne Hrow Hst)
      as (id & facts & Hl & Hart & Hpend & _ & _ & [?|(input' & d & [= <-] & Hid & Hart' & Hn & Hd & Hp)]);
      [done|].
    destruct (td_transfers (tw_db (cw_transfer w)) !! id) as [t|] eqn:Ht;
      [|by rewrite load_facts_none in Hl].
    destruct (load_facts _ _ _ W Ht) as (u & cc & Hs & Hu & Hl'). rewrite Hl' in Hl.
    injection Hl as <-. simpl in *.
    destruct (ev_transfer _ _ E _ _ Ht) as (t' & Ht' & _ & Heq).
    destruct (up_seal u) as [[m dg]|] eqn:Hseal; [|done]. injection Hn as ->. injection Hd as ->.
    exists c, g, input, a, t', d. rewrite Hid. split_and!; [done|done| | |].
    + rewrite Heq. by simpl.
    + rewrite <-Hart. apply (sealed_row_kept _ _ _ (av_chunk_count input) d W E).
      rewrite (sh_manifest _ _ _ Hs). by rewrite Hseal.
    + rewrite Heq. by simpl.
Qed.

(** A server's whole life: from an empty database, with restarts. *)
Lemma recorded_run epoch capacity cap page_size sts w tr k :
  Forall (λ st, own_step st = true) sts → Forall step_in_range sts →
  control_run (empty_control (empty_transfer_world epoch capacity) cap page_size) sts 0
    = ((w, tr), k) →
  recorded tr (tw_db (cw_transfer w)).
Proof.
  set (w0 := empty_control _ cap page_size).
  assert (∀ n tr0 w1 k1 w tr k, creaches w0 0 n tr0 w1 k1 → recorded tr0 (tw_db (cw_transfer w1)) →
    Forall (λ st, own_step st = true) sts → Forall step_in_range sts →
    control_run w1 sts k1 = ((w, tr), k) → recorded (tr0 ++ tr) (tw_db (cw_transfer w))) as Hgen.
  { induction sts as [|st sts IH]; intros n tr0 w1 k1 w' tr' k' Hr Hrec Ho Hin; simpl;
      unfold mbind, gen_bind, mret, gen_ret.
    - intros [= <- <- <-]. by rewrite app_nil_r.
    - apply Forall_cons in Ho as [Ho1 Ho]. apply Forall_cons in Hin as [Hin1 Hin].
      destruct (control_step w1 st k1) as [[w2 ev] k2] eqn:Hs. simpl.
      destruct (control_run w2 sts k2) as [[w3 tr1] k3] eqn:Hrun. intros [= <- <- <-].
      rewrite app_assoc. eapply IH; [|eapply recorded_step; [|done..]|done..].
      2: { eapply treaches_ok; [by eapply creaches_treaches|]. apply empty_world_wf. }
      eapply cr_step; [done|]. by eapply control_step_cstep. }
  intros Ho Hin Hrun. apply (Hgen 0 [] w0 0 w tr k (cr_refl _ _)); [|done..].
  split; simpl; intros *; by rewrite lookup_empty.
Qed.
End ServerRecords.
