(* ===== verification/FileSystem.v ===== *)
(** * File-system calls and the programs that make them

    The part of [std::fs] and [rustix::fs] the Worker's storage uses. A tree of directory
    entries (files by inode, so hard links share contents), the contents of inodes, and for
    both what an [fsync] has made durable. Each call is atomic and may fail; a [choice]
    resolves what the operating system decides: whether the call fails, how much a partial
    write or a short read transfers, the permissions [umask] leaves. Programs are trees of
    calls, so that threads interleave call by call.

    Components of a path other than the last are directories or the call fails: symbolic
    links are told apart from files and directories but not followed. File modes are not
    kept, directory modes are. *)

From stdpp Require Import prelude gmap strings pretty.
From Stdlib Require Import Strings.Byte NArith ZArith.
From S2P Require Import Prelude.

(** ** State *)

(** The components of an absolute path. *)
Abbreviation path := (list str).

Definition parent (p : path) : path := take (length p - 1) p.

Inductive node : Type := NFile (ino : nat) | NDir (mode : N) | NSymlink.
#[global] Instance node_eq_dec : EqDecision node.
Proof. solve_decision. Defined.

Record fs : Type := {
  fs_tree : gmap path node;
  fs_data : gmap nat (list byte);
  fs_disk_tree : gmap path node;
  fs_disk_data : gmap nat (list byte);
  fs_next : nat;
}.

Definition is_dir (s : fs) (p : path) : bool :=
  match fs_tree s !! p with Some (NDir _) => true | _ => false end.

(** The contents of the regular file at [p]. *)
Definition contents (s : fs) (p : path) : option (list byte) :=
  match fs_tree s !! p with Some (NFile ino) => fs_data s !! ino | _ => None end.

Definition with_tree (s : fs) (t : gmap path node) : fs :=
  {| fs_tree := t; fs_data := fs_data s; fs_disk_tree := fs_disk_tree s;
     fs_disk_data := fs_disk_data s; fs_next := fs_next s |}.

Definition with_data (s : fs) (d : gmap nat (list byte)) : fs :=
  {| fs_tree := fs_tree s; fs_data := d; fs_disk_tree := fs_disk_tree s;
     fs_disk_data := fs_disk_data s; fs_next := fs_next s |}.

(** ** Calls *)

Module IoError.
Inductive t : Type := NotFound | AlreadyExists | Loop | Other.
End IoError.

(** [std::io::Result]. *)
Abbreviation io := (result IoError.t).

Record choice : Type := { ch_fail : bool; ch_n : nat; ch_bad : list nat }.

Inductive sys : Type → Type :=
| SymlinkMetadata (p : path) : sys (io node)
| CreateDir (p : path) : sys (io unit)
| SetPermissions (p : path) (mode : N) : sys (io unit)
| CreateNew (p : path) : sys (io nat)
| WriteAll (ino : nat) (buf : list byte) : sys (io unit)
| Flush (ino : nat) : sys (io unit)
| SyncAll (ino : nat) : sys (io unit)
| Linkat (src dst : path) : sys (io unit)
| FsyncDir (p : path) : sys (io unit)
| RemoveFile (p : path) : sys (io unit)
| OpenNoFollow (p : path) : sys (io node)
| Fstat (fd : node) : sys (io node)
| Read (ino : nat) (offset len : nat) : sys (io (list byte))
| ReadDir (p : path) : sys (io (list (io str))).

(** The names of the entries of directory [p]. *)
Definition entries (s : fs) (p : path) : list str :=
  omap (λ e, if decide (parent e.1 = p ∧ e.1 ≠ []) then last e.1 else None)
    (map_to_list (fs_tree s)).

Definition fail : io unit := Err IoError.Other.

(** One call, with the state it leaves and its result. *)
Definition exec {R} (c : sys R) (ch : choice) (s : fs) : fs * R :=
  match c in sys R return fs * R with
  | SymlinkMetadata p =>
      (s, if ch_fail ch then Err IoError.Other else ok_or IoError.NotFound (fs_tree s !! p))
  | CreateDir p =>
      if ch_fail ch then (s, fail)
      else match fs_tree s !! p with
           | Some _ => (s, Err IoError.AlreadyExists)
           | None =>
               if is_dir s (parent p)
               then (with_tree s (<[p := NDir (N.of_nat (ch_n ch) mod 512)]> (fs_tree s)), Ok ())
               else (s, Err IoError.NotFound)
           end
  | SetPermissions p mode =>
      if ch_fail ch then (s, fail)
      else match fs_tree s !! p with
           | Some (NDir _) => (with_tree s (<[p := NDir mode]> (fs_tree s)), Ok ())
           | Some _ => (s, Ok ())
           | None => (s, Err IoError.NotFound)
           end
  | CreateNew p =>
      if ch_fail ch then (s, Err IoError.Other)
      else match fs_tree s !! p with
           | Some _ => (s, Err IoError.AlreadyExists)
           | None =>
               if is_dir s (parent p)
               then ({| fs_tree := <[p := NFile (fs_next s)]> (fs_tree s);
                        fs_data := <[fs_next s := []]> (fs_data s);
                        fs_disk_tree := fs_disk_tree s; fs_disk_data := fs_disk_data s;
                        fs_next := S (fs_next s) |}, Ok (fs_next s))
               else (s, Err IoError.NotFound)
           end
  | WriteAll ino buf =>
      let old := default [] (fs_data s !! ino) in
      if ch_fail ch
      then (with_data s (<[ino := old ++ take (ch_n ch) buf]> (fs_data s)), fail)
      else (with_data s (<[ino := old ++ buf]> (fs_data s)), Ok ())
  | Flush _ => (s, if ch_fail ch then fail else Ok ())
  | SyncAll ino =>
      if ch_fail ch then (s, fail)
      else ({| fs_tree := fs_tree s; fs_data := fs_data s; fs_disk_tree := fs_disk_tree s;
               fs_disk_data :=
                 match fs_data s !! ino with
                 | Some d => <[ino := d]> (fs_disk_data s)
                 | None => fs_disk_data s
                 end;
               fs_next := fs_next s |}, Ok ())
  | Linkat src dst =>
      if ch_fail ch then (s, fail)
      else match fs_tree s !! src with
           | None => (s, Err IoError.NotFound)
           | Some (NDir _) => (s, fail)
           | Some n =>
               match fs_tree s !! dst with
               | Some _ => (s, Err IoError.AlreadyExists)
               | None =>
                   if is_dir s (parent dst)
                   then (with_tree s (<[dst := n]> (fs_tree s)), Ok ())
                   else (s, Err IoError.NotFound)
               end
           end
  | FsyncDir p =>
      if ch_fail ch then (s, fail)
      else if is_dir s p
      then ({| fs_tree := fs_tree s; fs_data := fs_data s;
               fs_disk_tree :=
                 filter (λ e, parent e.1 = p) (fs_tree s)
                 ∪ filter (λ e, parent e.1 ≠ p) (fs_disk_tree s);
               fs_disk_data := fs_disk_data s; fs_next := fs_next s |}, Ok ())
      else (s, Err match fs_tree s !! p with None => IoError.NotFound | _ => IoError.Other end)
  | RemoveFile p =>
      if ch_fail ch then (s, fail)
      else match fs_tree s !! p with
           | None => (s, Err IoError.NotFound)
           | Some (NDir _) => (s, fail)
           | Some _ => (with_tree s (delete p (fs_tree s)), Ok ())
           end
  | OpenNoFollow p =>
      (s, if ch_fail ch then Err IoError.Other
          else match fs_tree s !! p with
               | None => Err IoError.NotFound
               | Some NSymlink => Err IoError.Loop
               | Some n => Ok n
               end)
  | Fstat fd => (s, if ch_fail ch then Err IoError.Other else Ok fd)
  | Read ino offset len =>
      (s, if ch_fail ch then Err IoError.Other
          else Ok (take (max 1 (min (ch_n ch) len)) (drop offset (default [] (fs_data s !! ino)))))
  | ReadDir p =>
      (s, if ch_fail ch then Err IoError.Other
          else if is_dir s p
          then Ok (imap (λ i e, if bool_decide (i ∈ ch_bad ch) then Err IoError.Other else Ok e)
                     (entries s p))
          else Err match fs_tree s !! p with None => IoError.NotFound | _ => IoError.Other end)
  end.

(** ** Loss of power *)

(** Entries survive as last seen where [keep] says so and as last synced elsewhere; contents
    that were not synced become arbitrary. *)
Definition power_loss (keep : path → bool) (garbage : nat → list byte) (s : fs) : fs :=
  let tree := filter (λ e, keep e.1 = true) (fs_tree s)
              ∪ filter (λ e, keep e.1 = false) (fs_disk_tree s) in
  let data := map_imap (λ ino d, Some (if decide (fs_disk_data s !! ino = Some d) then d
                                       else garbage ino)) (fs_data s) in
  {| fs_tree := tree; fs_data := data; fs_disk_tree := tree; fs_disk_data := data;
     fs_next := fs_next s |}.

(** ** Programs *)

(** [Panic] is an unwinding thread; [Spin] one that is still in a loop whose bound of
    iterations is used up. *)
Inductive proc (A : Type) : Type :=
| Ret (a : A)
| Call {R : Type} (c : sys R) (k : R → proc A)
| Panic
| Spin.
Arguments Ret {A} a.
Arguments Call {A R} c k.
Arguments Panic {A}.
Arguments Spin {A}.

Fixpoint proc_bind_ {A B} (p : proc A) (f : A → proc B) : proc B :=
  match p with
  | Ret a => f a
  | Call c k => Call c (λ r, proc_bind_ (k r) f)
  | Panic => Panic
  | Spin => Spin
  end.

#[global] Instance proc_ret : MRet proc := λ A a, Ret a.
#[global] Instance proc_bind : MBind proc := λ A B f p, proc_bind_ p f.

Definition call {R} (c : sys R) : proc R := Call c Ret.

(** The [?] operator. *)
Definition try_ {E A B} (p : proc (result E A)) (f : A → proc (result E B))
  : proc (result E B) :=
  r ← p; match r with Ok a => f a | Err e => mret (Err e) end.
Notation "x ←? m ; k" := (try_ m (λ x, k))
  (at level 20, m at level 100, k at level 200, right associativity).

Definition with_err {E F A} (f : E → F) (p : proc (result E A)) : proc (result F A) :=
  r ← p; mret (map_err f r).

(** Runs a program alone, on a list of choices; [None] while choices are missing. *)
Fixpoint run {A} (p : proc A) (chs : list choice) (s : fs) : fs * option A :=
  match p with
  | Ret a => (s, Some a)
  | Call c k =>
      match chs with
      | [] => (s, None)
      | ch :: chs => let '(s', r) := exec c ch s in run (k r) chs s'
      end
  | Panic | Spin => (s, None)
  end.
