(* ===== verification/StorageLogic.v ===== *)
(** * A program logic for storage programs

    [wp] says what a program may do with the file system as a discipline on its calls: it
    creates, writes, syncs and links only the one staging file it owns, in that order,
    removes only names of its own, and reads only finalized files. [call_sound] is its
    soundness for one call: whatever the call answers, the discipline goes on, the finalized
    files stay as they are, and what other programs own is untouched ([guar]). *)

From stdpp Require Import prelude gmap strings.
From Stdlib Require Import Strings.Byte NArith ZArith.
From S2P Require Import Prelude.
From S2P Require Import FileSystem.

(** ** What a program owns and knows *)

Inductive own : Type :=
| ONone
| OOpen (ino : nat) (bs : list byte)
| OSynced (ino : nat) (bs : list byte)
| OPlaced
| OGone.

(** [g_known]: finalized files it has placed or opened, with their contents;
    [g_durable]: those whose directory it has synced since. *)
Record ghost : Type := {
  g_own : own;
  g_known : list (path * nat * list byte);
  g_durable : list path;
}.

Definition set_own (g : ghost) (o : own) : ghost :=
  {| g_own := o; g_known := g_known g; g_durable := g_durable g |}.

Definition learn (g : ghost) (p : path) (ino : nat) (d : list byte) : ghost :=
  {| g_own := g_own g; g_known := (p, ino, d) :: g_known g; g_durable := g_durable g |}.

Definition sync_known (g : ghost) (dir : path) : ghost :=
  {| g_own := g_own g; g_known := g_known g;
     g_durable := filter (λ p, parent p = dir) ((λ e, e.1.1) <$> g_known g) ++ g_durable g |}.

(** [final]: the paths of finalized chunks. [mine]: the staging path of the program, [W]:
    the names it may remove. [place p d]: it may place a file with contents [d] at [p].
    [found p d]: what holds of a finalized file. *)
Section Logic.
Context (final : path → Prop).

Section Wp.
Context (W : path → Prop) (mine : path) (place found : path → list byte → Prop).

Definition call_spec {R} (c : sys R) (g : ghost) : (ghost → R → Prop) → Prop :=
  match c in sys R return (ghost → R → Prop) → Prop with
  | SymlinkMetadata _ => λ Q, ∀ r, Q g r
  | CreateDir _ => λ Q, ∀ r, Q g r
  | SetPermissions _ _ => λ Q, ∀ r, Q g r
  | CreateNew p => λ Q, p = mine ∧ g_own g = ONone ∧ (∀ ino, Q (set_own g (OOpen ino [])) (Ok ino))
                       ∧ ∀ e, Q g (Err e)
  | WriteAll ino buf => λ Q, ∃ bs, g_own g = OOpen ino bs
                       ∧ Q (set_own g (OOpen ino (bs ++ buf))) (Ok ())
                       ∧ ∀ e, Q (set_own g OGone) (Err e)
  | Flush _ => λ Q, ∀ r, Q g r
  | SyncAll ino => λ Q, ∃ bs, g_own g = OOpen ino bs ∧ Q (set_own g (OSynced ino bs)) (Ok ())
                       ∧ ∀ e, Q g (Err e)
  | Linkat src dst => λ Q, ∃ ino bs, g_own g = OSynced ino bs ∧ src = mine ∧ final dst
                       ∧ place dst bs ∧ Q (learn (set_own g OPlaced) dst ino bs) (Ok ())
                       ∧ ∀ e, Q g (Err e)
  | FsyncDir p => λ Q, Q (sync_known g p) (Ok ()) ∧ ∀ e, Q g (Err e)
  | RemoveFile p => λ Q, W p ∧ ∀ r, Q (set_own g OGone) r
  | OpenNoFollow p => λ Q, final p ∧ (∀ e, Q g (Err e))
                       ∧ (∀ n, (∀ ino, n ≠ NFile ino) → Q g (Ok n))
                       ∧ ∀ ino d, found p d → Q (learn g p ino d) (Ok (NFile ino))
  | Fstat fd => λ Q, Q g (Ok fd) ∧ ∀ e, Q g (Err e)
  | Read ino off len => λ Q, ∃ p d, (p, ino, d) ∈ g_known g ∧ (∀ e, Q g (Err e))
                       ∧ ∀ n, 0 < n → Q g (Ok (take n (drop off d)))
  | ReadDir _ => λ Q, ∀ r, Q g r
  end.

Fixpoint wp {A} (g : ghost) (p : proc A) (Q : ghost → A → Prop) : Prop :=
  match p with
  | Ret a => Q g a
  | Call c k => call_spec c g (λ g' r, wp g' (k r) Q)
  | Panic | Spin => False
  end.

Lemma call_spec_mono {R} (c : sys R) g (Q1 Q2 : ghost → R → Prop) :
  (∀ g r, Q1 g r → Q2 g r) → call_spec c g Q1 → call_spec c g Q2.
Proof.
  intros HQ. destruct c; simpl; intros; repeat match goal with
    | H : ∃ _, _ |- _ => destruct H
    | H : _ ∧ _ |- _ => destruct H
    end; repeat esplit; eauto.
Qed.

Lemma wp_proc_mono {A} (p : proc A) g (Q1 Q2 : ghost → A → Prop) :
  (∀ g a, Q1 g a → Q2 g a) → wp g p Q1 → wp g p Q2.
Proof.
  revert g. induction p as [a|R c k IH| |]; intros g HQ; simpl; [by auto| |done|done].
  apply call_spec_mono. intros g' r. by apply IH.
Qed.

Lemma wp_proc_bind {A B} (p : proc A) (f : A → proc B) g Q :
  wp g p (λ g' a, wp g' (f a) Q) → wp g (p ≫= f) Q.
Proof.
  revert g. induction p as [a|R c k IH| |]; intros g; simpl; [done| |done|done].
  apply call_spec_mono. intros g' r. apply IH.
Qed.

Lemma wp_try {E A B} (p : proc (result E A)) (f : A → proc (result E B)) g Q :
  wp g p (λ g' r, match r with Ok a => wp g' (f a) Q | Err e => Q g' (Err e) end) →
  wp g (try_ p f) Q.
Proof. intros H. apply wp_proc_bind. revert H. apply wp_proc_mono. by intros g' [a|e]. Qed.

Lemma wp_with_err {E F A} (f : E → F) (p : proc (result E A)) g Q :
  wp g p (λ g' r, Q g' (map_err f r)) → wp g (with_err f p) Q.
Proof. intros H. apply wp_proc_bind. revert H. apply wp_proc_mono. by intros g' r. Qed.

Lemma wp_ret {A} (a : A) g Q : Q g a → wp g (mret a) Q.
Proof. done. Qed.

Lemma wp_sys_call {R} (c : sys R) g Q : call_spec c g Q → wp g (call c) Q.
Proof. done. Qed.
End Wp.

(** ** Meaning *)

(** An inode only [mine] names. *)
Definition private (s : fs) (mine : path) (ino : nat) : Prop :=
  ∀ p, fs_tree s !! p = Some (NFile ino) → p = mine.

Definition own_ok (s : fs) (mine : path) (o : own) : Prop :=
  match o with
  | ONone | OPlaced | OGone => True
  | OOpen ino bs =>
      fs_tree s !! mine = Some (NFile ino) ∧ fs_data s !! ino = Some bs ∧ private s mine ino
  | OSynced ino bs =>
      fs_tree s !! mine = Some (NFile ino) ∧ fs_data s !! ino = Some bs ∧ private s mine ino
      ∧ fs_disk_data s !! ino = Some bs
  end.

Definition known_ok (s : fs) (e : path * nat * list byte) : Prop :=
  let '(p, ino, d) := e in
  final p ∧ fs_tree s !! p = Some (NFile ino) ∧ fs_data s !! ino = Some d.

Record ghost_ok (s : fs) (mine : path) (g : ghost) : Prop := {
  go_own : own_ok s mine (g_own g);
  go_known e : e ∈ g_known g → known_ok s e;
  go_durable p : p ∈ g_durable g →
    final p ∧ ∃ ino, fs_tree s !! p = Some (NFile ino) ∧ fs_disk_tree s !! p = Some (NFile ino);
}.

(** Finalized files are complete, synced and [found]; no inode is used before it is made. *)
Record fs_ok (found : path → list byte → Prop) (s : fs) : Prop := {
  fo_tree p ino : fs_tree s !! p = Some (NFile ino) → ino < fs_next s;
  fo_final p ino : final p → fs_tree s !! p = Some (NFile ino) →
    ∃ d, fs_data s !! ino = Some d ∧ fs_disk_data s !! ino = Some d ∧ found p d;
  fo_disk p ino : final p → fs_disk_tree s !! p = Some (NFile ino) →
    fs_tree s !! p = Some (NFile ino);
  fo_disk_next p ino : fs_disk_tree s !! p = Some (NFile ino) → ino < fs_next s;
}.

(** What a program with names [W] leaves alone. *)
Record guar (W : path → Prop) (s s' : fs) : Prop := {
  gu_kept p ino : ¬ W p → fs_tree s !! p = Some (NFile ino) → fs_tree s' !! p = Some (NFile ino);
  gu_new p ino : fs_tree s' !! p = Some (NFile ino) →
    fs_tree s !! p = Some (NFile ino) ∨ (∃ q, W q ∧ fs_tree s !! q = Some (NFile ino))
    ∨ fs_next s ≤ ino;
  gu_data ino d : ino < fs_next s → fs_data s !! ino = Some d → fs_data s' !! ino = Some d
    ∨ ∃ q, W q ∧ fs_tree s !! q = Some (NFile ino) ∧ private s q ino;
  gu_disk_data ino d : fs_data s !! ino = Some d → fs_disk_data s !! ino = Some d →
    fs_disk_data s' !! ino = Some d;
  gu_disk p ino : ¬ W p → fs_tree s !! p = Some (NFile ino) →
    fs_disk_tree s !! p = Some (NFile ino) → fs_disk_tree s' !! p = Some (NFile ino);
}.

(** ** Soundness of one call *)

Lemma guar_refl W s : guar W s s.
Proof. split; eauto. Qed.

(** The two states have the same files. *)
Record same_files (s s' : fs) : Prop := {
  sm_tree p ino : fs_tree s' !! p = Some (NFile ino) ↔ fs_tree s !! p = Some (NFile ino);
  sm_data : fs_data s' = fs_data s;
  sm_disk_tree : fs_disk_tree s' = fs_disk_tree s;
  sm_disk_data : fs_disk_data s' = fs_disk_data s;
  sm_next : fs_next s' = fs_next s;
}.

Section Sound.
Context (W : path → Prop) (mine : path) (place found assumed : path → list byte → Prop).
Context (W_mine : W mine) (W_final : ∀ p, W p → ¬ final p).
Context (place_found : ∀ p d, place p d → found p d).
Context (found_assumed : ∀ p d, found p d → assumed p d).

Let post (s : fs) (g' : ghost) (s' : fs) : Prop :=
  ghost_ok s' mine g' ∧ fs_ok found s' ∧ guar W s s'.

Lemma same_files_post s s' g :
  fs_ok found s → ghost_ok s mine g → same_files s s' → post s g s'.
Proof.
  intros [H1 H2 H3 H4] [Ho Hk Hd] [Ht Hda Hdt Hdd Hn]. unfold post. split_and!; split.
  - destruct (g_own g); simpl in *; unfold private in *; rewrite ?Ht, ?Hda, ?Hdd; try done;
      setoid_rewrite Ht; done.
  - intros [[p ino] d] (? & ? & ?)%Hk. simpl. by rewrite Ht, Hda.
  - intros p [Hf [ino Hp]]%Hd. split; [done|]. exists ino. by rewrite Ht, Hdt.
  - intros p ino. rewrite Ht, Hn. apply H1.
  - intros p ino Hf. rewrite Ht, Hda, Hdd. by apply H2.
  - intros p ino Hf. rewrite Ht, Hdt. by apply H3.
  - intros p ino. rewrite Hdt, Hn. apply H4.
  - intros p ino _. by rewrite Ht.
  - intros p ino. rewrite Ht. by left.
  - intros ino d _. rewrite Hda. by left.
  - intros ino d. by rewrite Hdd.
  - intros p ino _. by rewrite Hdt.
Qed.

Lemma same_files_insert s p n :
  (∀ ino, fs_tree s !! p ≠ Some (NFile ino)) → (∀ ino, n ≠ NFile ino) →
  same_files s (with_tree s (<[p := n]> (fs_tree s))).
Proof.
  intros Hp Hn. split; try done. intros q ino. simpl. rewrite lookup_insert_Some.
  split; [intros [[_ Heq]|[_ ?]]; [by destruct (Hn ino)|done]|].
  intros Hq. right. split; [|done]. intros <-. by destruct (Hp ino).
Qed.

Lemma create_post s g p :
  fs_ok found s → ghost_ok s mine g → p = mine → fs_tree s !! p = None →
  post s (set_own g (OOpen (fs_next s) []))
    {| fs_tree := <[p := NFile (fs_next s)]> (fs_tree s);
       fs_data := <[fs_next s := []]> (fs_data s); fs_disk_tree := fs_disk_tree s;
       fs_disk_data := fs_disk_data s; fs_next := S (fs_next s) |}.
Proof.
  intros [H1 H2 H3 H4] [Ho Hk Hd] -> Hnone.
  assert (∀ p, final p → p ≠ mine) as Hne by (intros p Hf ->; by eapply W_final).
  assert (∀ p ino, fs_tree s !! p = Some (NFile ino) → ino ≠ fs_next s) as Hold.
  { intros p ino Hp ->. apply H1 in Hp. lia. }
  unfold post. split_and!; split; simpl.
  - rewrite !lookup_insert_eq. split_and!; [done..|]. intros p. simpl.
    rewrite lookup_insert_Some. intros [[<- _]|[_ Hp]]; [done|]. by apply Hold in Hp.
  - intros [[p ino] d] (Hf & Hp & Hda)%Hk. simpl. pose proof (Hne _ Hf).
    by rewrite !lookup_insert_ne by (done || by apply not_eq_sym, (Hold _ _ Hp)).
  - intros p [Hf [ino [Hp Hdp]]]%Hd. split; [done|]. exists ino.
    by rewrite lookup_insert_ne by (symmetry; auto).
  - intros p ino. rewrite lookup_insert_Some. intros [[_ [= <-]]|[_ ?%H1]]; lia.
  - intros p ino Hf. rewrite lookup_insert_ne by (symmetry; auto). intros Hp.
    rewrite lookup_insert_ne by (by apply not_eq_sym, (Hold _ _ Hp)). by apply H2.
  - intros p ino Hf ?%H3; [|done]. by rewrite lookup_insert_ne by (symmetry; auto).
  - intros p ino ?%H4. lia.
  - intros p ino Hw Hp. rewrite lookup_insert_ne by (by intros <-). done.
  - intros p ino. rewrite lookup_insert_Some. intros [[_ [= <-]]|[_ ?]]; [by right; right|by left].
  - intros ino d Hlt Hda. left. by rewrite lookup_insert_ne by lia.
  - done.
  - done.
Qed.

Lemma write_post s g ino bs bs' o :
  fs_ok found s → ghost_ok s mine g → g_own g = OOpen ino bs →
  (o = OGone ∨ o = OOpen ino bs') →
  post s (set_own g o) (with_data s (<[ino := bs']> (fs_data s))).
Proof.
  intros [H1 H2 H3 H4] [Ho Hk Hd] Hg Hcase. rewrite Hg in Ho. destruct Ho as (Hm & Hda & Hpr).
  assert (∀ p i, final p → fs_tree s !! p = Some (NFile i) → i ≠ ino) as Hne.
  { intros p i Hf Hp ->. apply Hpr in Hp as ->. by eapply W_final. }
  unfold post. split_and!; split; simpl.
  - destruct Hcase as [-> | ->]; simpl; [done|]. by rewrite lookup_insert_eq.
  - intros [[p i] d] (Hf & Hp & Hd')%Hk. simpl. by rewrite lookup_insert_ne by (symmetry; eauto).
  - done.
  - done.
  - intros p i Hf Hp. rewrite lookup_insert_ne by (symmetry; eauto). by apply H2.
  - done.
  - done.
  - done.
  - by left.
  - intros i d _ Hi. destruct (decide (i = ino)) as [->|].
    + right. by exists mine.
    + left. by rewrite lookup_insert_ne.
  - done.
  - done.
Qed.

Lemma sync_post s g ino bs :
  fs_ok found s → ghost_ok s mine g → g_own g = OOpen ino bs →
  post s (set_own g (OSynced ino bs))
    {| fs_tree := fs_tree s; fs_data := fs_data s; fs_disk_tree := fs_disk_tree s;
       fs_disk_data := <[ino := bs]> (fs_disk_data s); fs_next := fs_next s |}.
Proof.
  intros [H1 H2 H3 H4] [Ho Hk Hd] Hg. rewrite Hg in Ho. destruct Ho as (Hm & Hda & Hpr).
  assert (∀ i d, fs_data s !! i = Some d → fs_disk_data s !! i = Some d →
            <[ino := bs]> (fs_disk_data s) !! i = Some d) as Hdisk.
  { intros i d Hi Hdi. rewrite lookup_insert_Some. destruct (decide (ino = i)) as [->|]; [|by right].
    left. split; [done|]. congruence. }
  unfold post. split_and!; split; simpl; try done; try by left.
  - by rewrite lookup_insert_eq.
  - intros p i Hf Hp. destruct (H2 p i Hf Hp) as (d & ? & ? & ?). exists d. by eauto.
Qed.

Lemma link_post s g ino bs dst :
  fs_ok found s → ghost_ok s mine g → g_own g = OSynced ino bs →
  final dst → place dst bs → fs_tree s !! dst = None →
  post s (learn (set_own g OPlaced) dst ino bs)
    (with_tree s (<[dst := NFile ino]> (fs_tree s))).
Proof.
  intros [H1 H2 H3 H4] [Ho Hk Hd] Hg Hf Hpl Hnone. rewrite Hg in Ho.
  destruct Ho as (Hm & Hda & Hpr & Hdd).
  assert (∀ p i, fs_tree s !! p = Some (NFile i) →
            <[dst := NFile ino]> (fs_tree s) !! p = Some (NFile i)) as Hkept.
  { intros p i Hp. rewrite lookup_insert_ne; [done|]. intros <-. congruence. }
  assert (∀ p i, <[dst := NFile ino]> (fs_tree s) !! p = Some (NFile i) →
            (p = dst ∧ i = ino) ∨ fs_tree s !! p = Some (NFile i)) as Hback.
  { intros p i. rewrite lookup_insert_Some. intros [[<- [= <-]]|[_ ?]]; [by left|by right]. }
  unfold post. split_and!; split; simpl; try done; try by left.
  - intros e. rewrite elem_of_cons. intros [->|He].
    + simpl. by rewrite lookup_insert_eq.
    + destruct e as [[p i] d]. destruct (Hk _ He) as (? & ? & ?). simpl. by eauto.
  - intros p (? & i & ? & ?)%Hd. split; [done|]. exists i. by eauto.
  - intros p i [[-> ->]|Hp]%Hback; by eauto.
  - intros p i Hfp [[-> ->]|Hp]%Hback; by eauto 10.
  - by eauto.
  - by eauto.
  - intros p i [[-> ->]|Hp]%Hback; [|by left]. right; left. by exists mine.
Qed.

Lemma remove_post s g p :
  fs_ok found s → ghost_ok s mine g → W p →
  post s (set_own g OGone) (with_tree s (delete p (fs_tree s))).
Proof.
  intros [H1 H2 H3 H4] [Ho Hk Hd] Hw.
  assert (∀ q i, ¬ W q → fs_tree s !! q = Some (NFile i) →
            delete p (fs_tree s) !! q = Some (NFile i)) as Hkept.
  { intros q i Hq Hi. rewrite lookup_delete_ne; [done|]. by intros <-. }
  assert (∀ q i, delete p (fs_tree s) !! q = Some (NFile i) → fs_tree s !! q = Some (NFile i))
    as Hback by (intros q i [_ ?]%lookup_delete_Some; done).
  assert (∀ q, final q → ¬ W q) as Hfw by (intros q Hq Hwq; by eapply W_final).
  unfold post. split_and!; split; simpl; try done; try by left.
  - intros [[q i] d] (? & ? & ?)%Hk. simpl. by eauto.
  - intros q (? & i & ? & ?)%Hd. split; [done|]. exists i. by eauto.
  - by eauto.
  - intros q i Hf Hq%Hback. by eauto.
  - by eauto.
  - intros q i Hq%Hback. by left.
Qed.

Lemma gone_post s g :
  fs_ok found s → ghost_ok s mine g → post s (set_own g OGone) s.
Proof.
  intros Hok [Ho Hk Hd]. unfold post. split_and!; [by split|done|apply guar_refl].
Qed.

Lemma fsync_post s g dir :
  fs_ok found s → ghost_ok s mine g →
  post s (sync_known g dir)
    {| fs_tree := fs_tree s; fs_data := fs_data s;
       fs_disk_tree := filter (λ e, parent e.1 = dir) (fs_tree s)
                       ∪ filter (λ e, parent e.1 ≠ dir) (fs_disk_tree s);
       fs_disk_data := fs_disk_data s; fs_next := fs_next s |}.
Proof.
  intros [H1 H2 H3 H4] [Ho Hk Hd].
  set (disk := _ ∪ _).
  assert (∀ p n, fs_tree s !! p = Some n → (parent p = dir ∨ fs_disk_tree s !! p = Some n) →
            disk !! p = Some n) as Hin.
  { intros p n Hp Hor. unfold disk. rewrite lookup_union_Some_raw, !map_lookup_filter_Some,
      map_lookup_filter_None. destruct (decide (parent p = dir)) as [Hpar|Hpar]; [by left|].
    right. destruct Hor as [?|Hdp]; [done|]. split; [|done]. right. by intros ? ?. }
  assert (∀ p i, final p → disk !! p = Some (NFile i) → fs_tree s !! p = Some (NFile i)) as Hout.
  { intros p i Hf. unfold disk. rewrite lookup_union_Some_raw, !map_lookup_filter_Some.
    intros [[? _]|[_ [? _]]]; [done|]. by apply H3. }
  unfold post. split_and!; split; simpl; try done; try by left.
  - intros p. rewrite elem_of_app, list_elem_of_filter, list_elem_of_fmap.
    intros [[Hp ([[q i] d] & -> & He)]|(? & i & ? & ?)%Hd]; simpl in *.
    + destruct (Hk _ He) as (? & ? & ?). split; [done|]. exists i. by eauto.
    + split; [done|]. exists i. by eauto.
  - intros p i. unfold disk. rewrite lookup_union_Some_raw, !map_lookup_filter_Some.
    intros [[? _]|[_ [? _]]]; by eauto.
  - by eauto.
Qed.

(** What one call of a disciplined program does. *)
Lemma call_sound {R} (c : sys R) ch s s' r g Q :
  fs_ok found s → ghost_ok s mine g → call_spec W mine place assumed c g Q →
  exec c ch s = (s', r) →
  ∃ g', Q g' r ∧ ghost_ok s' mine g' ∧ fs_ok found s' ∧ guar W s s'.
Proof.
  intros Hfs Hg. assert (∀ g', Q g' r → post s g' s' → ∃ g', Q g' r ∧ post s g' s') as Hex by eauto.
  assert (∀ g', g' = g → Q g' r → s' = s → ∃ g', Q g' r ∧ post s g' s') as Hsame.
  { intros g' -> HQ ->. apply (Hex g); [done|]. by apply same_files_post. }
  unfold post in *.
  destruct c; cbn [exec call_spec]; intros Hspec Hrun.
  - injection Hrun as <- <-. by apply (Hsame g).
  - repeat case_match; injection Hrun as <- <-; try by apply (Hsame g).
    apply (Hex g); [done|]. apply same_files_post; [done..|]. by apply same_files_insert; congruence.
  - repeat case_match; injection Hrun as <- <-; try by apply (Hsame g).
    apply (Hex g); [done|]. apply same_files_post; [done..|]. by apply same_files_insert; congruence.
  - destruct Hspec as (Hp & _ & Hok & Herr).
    repeat case_match; injection Hrun as <- <-; try by (apply (Hsame g); [done|apply Herr|done]).
    eapply Hex; [apply Hok|]. by apply create_post.
  - destruct Hspec as (bs & Ho & Hok & Herr).
    assert (fs_data s !! ino = Some bs) as Hda.
    { destruct Hg as [Hown _ _]. rewrite Ho in Hown. by destruct Hown as (_ & ? & _). }
    rewrite Hda in Hrun. cbn in Hrun. case_match; injection Hrun as <- <-.
    + eapply Hex; [apply Herr|]. eapply write_post; eauto.
    + eapply Hex; [apply Hok|]. eapply write_post; eauto.
  - injection Hrun as <- <-. by apply (Hsame g).
  - destruct Hspec as (bs & Ho & Hok & Herr).
    assert (fs_data s !! ino = Some bs) as Hda.
    { destruct Hg as [Hown _ _]. rewrite Ho in Hown. by destruct Hown as (_ & ? & _). }
    rewrite Hda in Hrun. case_match; injection Hrun as <- <-; [by (apply (Hsame g); [done|apply Herr|done])|].
    eapply Hex; [apply Hok|]. by apply sync_post.
  - destruct Hspec as (ino & bs & Ho & -> & Hf & Hpl & Hok & Herr).
    assert (fs_tree s !! mine = Some (NFile ino)) as Hm.
    { destruct Hg as [Hown _ _]. rewrite Ho in Hown. by destruct Hown as (? & _). }
    rewrite Hm in Hrun. repeat case_match; injection Hrun as <- <-; try by (apply (Hsame g); [done|apply Herr|done]).
    eapply Hex; [apply Hok|]. by apply link_post.
  - destruct Hspec as (Hok & Herr).
    repeat case_match; injection Hrun as <- <-; try by (apply (Hsame g); [done|apply Herr|done]).
    eapply Hex; [apply Hok|]. by apply fsync_post.
  - destruct Hspec as (Hw & Hok).
    repeat case_match; injection Hrun as <- <-;
      (eapply Hex; [apply Hok|]); first [by apply gone_post|by apply remove_post].
  - destruct Hspec as (Hf & Herr & Hno & Hok).
    repeat case_match; injection Hrun as <- <-; try by (apply (Hsame g); [done|apply Herr|done]).
    + destruct (fo_final _ _ Hfs p ino) as (d & Hd & _ & Hfound); [done..|].
      eapply Hex; [by apply Hok, found_assumed|]. split_and!; [|done|apply guar_refl].
      destruct Hg as [Hown Hk Hdu]. split; [done| |done].
      intros e. simpl. rewrite elem_of_cons. intros [->|He]; [by simpl|by apply Hk].
    + apply (Hsame g); [done| |done]. by apply Hno.
  - destruct Hspec as (Hok & Herr).
    repeat case_match; injection Hrun as <- <-; (apply (Hsame g); [done|first [apply Herr|done]|done]).
  - destruct Hspec as (p & d & Hk & Herr & Hok).
    pose proof (go_known _ _ _ Hg _ Hk) as (_ & _ & Hd). rewrite Hd in Hrun. cbn in Hrun.
    case_match; injection Hrun as <- <-; apply (Hsame g); try done; first [apply Herr|apply Hok; lia].
  - injection Hrun as <- <-. by apply (Hsame g).
Qed.
End Sound.

(** ** What other programs keep *)

Section Frame.
Context (W : path → Prop) (found : path → list byte → Prop) (s s' : fs).
Context (W_final : ∀ p, W p → ¬ final p) (s_ok : fs_ok found s) (Hguar : guar W s s').

Lemma known_frame e : known_ok s e → known_ok s' e.
Proof.
  destruct e as [[p ino] d]. intros (Hf & Hp & Hd).
  assert (¬ W p) as Hw by (intros Hw; by eapply W_final).
  split_and!; [done|by eapply gu_kept|].
  destruct (gu_data _ _ _ Hguar ino d) as [?|(q & Hq & _ & Hpr)];
    [by eapply fo_tree|done|done|]. apply Hpr in Hp as ->. done.
Qed.

Lemma own_frame mine o : ¬ W mine → own_ok s mine o → own_ok s' mine o.
Proof.
  intros Hw. assert (∀ ino bs, fs_tree s !! mine = Some (NFile ino) → private s mine ino →
    fs_data s !! ino = Some bs → fs_tree s' !! mine = Some (NFile ino) ∧
    fs_data s' !! ino = Some bs ∧ private s' mine ino) as Hfile.
  { intros ino bs Hm Hpr Hd. split_and!; [by eapply gu_kept| |].
    - destruct (gu_data _ _ _ Hguar ino bs) as [?|(q & Hq & Hqi & _)];
        [by eapply fo_tree|done|done|]. by apply Hpr in Hqi as ->.
    - intros p [Hp|[(q & Hq & Hqi)|Hn]]%(gu_new _ _ _ Hguar); [by apply Hpr| |].
      + by apply Hpr in Hqi as ->.
      + apply (fo_tree _ _ s_ok) in Hm. lia. }
  destruct o as [|ino bs|ino bs| |]; try done; simpl.
  - intros (Hm & Hd & Hpr). by apply Hfile.
  - intros (Hm & Hd & Hpr & Hdd). destruct (Hfile ino bs) as (? & ? & ?); try done.
    split_and!; try done. by eapply gu_disk_data.
Qed.

Lemma ghost_frame mine g : ¬ W mine → ghost_ok s mine g → ghost_ok s' mine g.
Proof.
  intros Hw [Ho Hk Hd]. split; [by apply own_frame|intros e He; by apply known_frame, Hk|].
  intros p (Hf & ino & Hp & Hdp)%Hd.
  assert (¬ W p) as Hwp by (intros Hwp; by eapply W_final).
  split; [done|]. exists ino. split; [by eapply gu_kept|by eapply gu_disk].
Qed.
End Frame.
End Logic.
