(* ===== verification/WorkerStorage.v ===== *)
(** * The Worker's chunk storage

    Models [crates/worker/src/storage] ([mod.rs], [digest.rs], [fs_store.rs],
    [full_artifact.rs]) and the staging half of [data_plane/upload.rs], as programs over the
    file-system calls of [FileSystem]: staging a chunk body, placing it under its final name
    without replacing anything, reading finalized chunks back, rebuilding an Artifact's
    digest, and the cleanup at startup. Left out: error contexts, timing, and the
    environment-gated batch experiment. *)

From stdpp Require Import prelude gmap strings pretty.
From Stdlib Require Import Strings.Byte NArith ZArith.
From S2P Require Import Prelude.
From S2P Require Import External.
From S2P Require Import Runtime.
From S2P Require Import FileSystem.

(** ** [digest.rs] and [mod.rs] *)

Abbreviation Sha256Digest := (array 32).

Definition to_base64url_no_pad `{Base64} (d : Sha256Digest) : str := b64_encode (array_bytes d).

(** [sha2]'s incremental hasher: what it was fed so far. *)
Abbreviation Hasher := (list byte).
Definition hasher_finalize `{Sha256} (h : Hasher) : Sha256Digest := sha256 h.

Module FinalizedDisposition.
Inductive t : Type := Installed | AlreadyPresent.
End FinalizedDisposition.

Record FinalizedChunk : Type := {
  fc_transfer_id : Uuid;
  fc_chunk_index : N;
  fc_size : N;
  fc_digest : Sha256Digest;
  fc_disposition : FinalizedDisposition.t;
}.

Record StoredChunkFacts : Type := { sf_size : N; sf_digest : Sha256Digest }.

Module StorageError.
Inductive t : Type :=
| RootNotAbsolute
| RootUnsafe (reason : str)
| UnsafeDirectory (p : path) (reason : str)
| Oversize (max : N)
| EmptyChunk
| FinalizedChunkConflict (transfer_id : Uuid) (chunk_index : N)
| FinalizedChunkNotFound (transfer_id : Uuid) (chunk_index : N)
| FinalizedChunkNotRegular (transfer_id : Uuid) (chunk_index : N)
| Io (source : IoError.t)
| FinalizationSync (source : IoError.t).
End StorageError.

(** ** Names *)

Definition DIR_MODE : N := 448.
Definition TRANSFERS_DIR : str := lit "transfers".
Definition CHUNKS_DIR : str := lit "chunks".
Definition STAGING_DIR : str := lit ".staging".
Definition FINAL_SUFFIX : str := lit ".chunk".
Definition STAGING_EXT : str := lit "part".
Definition SCAN_BUF_LEN : nat := N.to_nat 65536.

(** [format!] of a [u64]. *)
Definition decimal (n : N) : str := lit (pretty n).

Section Names.
Context {disp : UuidDisplay} {simple : UuidSimple}.

Definition transfer_dir (root : path) (transfer_id : Uuid) : path :=
  (root ++ [TRANSFERS_DIR]) ++ [uuid_hyphenated transfer_id].

Definition chunks_dir (root : path) (transfer_id : Uuid) : path :=
  transfer_dir root transfer_id ++ [CHUNKS_DIR].

Definition final_path (root : path) (transfer_id : Uuid) (chunk_index : N) : path :=
  chunks_dir root transfer_id ++ [decimal chunk_index ++ FINAL_SUFFIX].

Definition worker_random_token (drawn : Uuid) : str := uuid_simple drawn.

Definition staging_name (chunk_index : N) (drawn : Uuid) : str :=
  decimal chunk_index ++ x2e :: worker_random_token drawn ++ x2e :: STAGING_EXT.
End Names.

Definition is_ascii_digit (b : byte) : bool :=
  ((48 <=? Byte.to_N b) && (Byte.to_N b <=? 57))%N.

Definition is_recognized_staging_name (name : str) : bool :=
  match split_on x2e name with
  | [index; token; ext] =>
      negb (bool_decide (index = []))
      && forallb is_ascii_digit index
      && bool_decide (length token = 32)
      && forallb (λ b, is_ascii_digit b || ((97 <=? Byte.to_N b) && (Byte.to_N b <=? 102))%N) token
      && bool_decide (ext = STAGING_EXT)
  | _ => false
  end.

(** ** The root *)

(** [std::path::Component] on Unix, and [Path::components]: repeated separators are ignored
    and [.] is normalised away except at the beginning of a relative path. *)
Module Component.
Inductive t : Type := RootDir | CurDir | ParentDir | Normal (name : str).
End Component.

Definition component_of (part : str) : option Component.t :=
  if bool_decide (part = []) then None
  else if bool_decide (part = lit ".") then None
  else if bool_decide (part = lit "..") then Some Component.ParentDir
  else Some (Component.Normal part).

Definition is_absolute (p : str) : bool := bool_decide (head p = Some x2f).

Definition components (p : str) : list Component.t :=
  (if is_absolute p then [Component.RootDir]
   else match split_on x2f p with
        | part :: _ => if bool_decide (part = lit ".") then [Component.CurDir] else []
        | [] => []
        end)
  ++ omap component_of (split_on x2f p).

(** The loop of [validate_root_shape], counting the normal components. *)
Fixpoint count_normal (cs : list Component.t) (normal : nat) : result StorageError.t nat :=
  match cs with
  | [] => Ok normal
  | Component.RootDir :: cs => count_normal cs normal
  | Component.Normal _ :: cs => count_normal cs (S normal)
  | (Component.CurDir | Component.ParentDir) :: _ =>
      Err (StorageError.RootUnsafe (lit "must not contain '.' or '..' components"))
  end.

Definition validate_root_shape (root : str) : result StorageError.t unit :=
  if bool_decide (root = []) || negb (is_absolute root) then Err StorageError.RootNotAbsolute
  else
    normal_components ← count_normal (components root) 0;
    if bool_decide (normal_components = 0)
    then Err (StorageError.RootUnsafe (lit "must not be the filesystem root")) else Ok ().

(** The components under the file-system root. *)
Definition path_of (root : str) : path :=
  omap (λ c, match c with Component.Normal n => Some n | _ => None end) (components root).

(** ** Directories *)

Definition fsync_dir (p : path) : proc (result StorageError.t unit) :=
  with_err StorageError.FinalizationSync (call (FsyncDir p)).

Definition validate_existing_worker_dir (p : path) (meta : node)
  : proc (result StorageError.t unit) :=
  match meta with
  | NSymlink => mret (Err (StorageError.UnsafeDirectory p (lit "is a symlink")))
  | NFile _ => mret (Err (StorageError.UnsafeDirectory p (lit "is not a directory")))
  | NDir mode =>
      let mode := N.land mode 511 in
      if negb (N.land mode 63 =? 0)%N
      then with_err StorageError.Io (call (SetPermissions p (N.land mode DIR_MODE)))
      else mret (Ok ())
  end.

Definition ensure_worker_dir (p : path) : proc (result StorageError.t unit) :=
  meta ← call (SymlinkMetadata p);
  match meta with
  | Ok meta => validate_existing_worker_dir p meta
  | Err IoError.NotFound =>
      created ← call (CreateDir p);
      match created with
      | Err IoError.AlreadyExists =>
          meta ←? with_err StorageError.Io (call (SymlinkMetadata p));
          validate_existing_worker_dir p meta
      | Err e => mret (Err (StorageError.Io e))
      | Ok () =>
          _ ←? with_err StorageError.Io (call (SetPermissions p DIR_MODE));
          match p with
          | [] => mret (Ok ())
          | _ => _ ← fsync_dir (parent p); mret (Ok ())
          end
      end
  | Err e => mret (Err (StorageError.Io e))
  end.

(** ** Reading finalized chunks *)

Module OpenReject.
Inductive t : Type := NotFound | NotRegular | Io (source : IoError.t).
End OpenReject.

Definition open_regular_no_follow (p : path) : proc (result OpenReject.t nat) :=
  fd ← call (OpenNoFollow p);
  match fd with
  | Err IoError.NotFound => mret (Err OpenReject.NotFound)
  | Err IoError.Loop => mret (Err OpenReject.NotRegular)
  | Err e => mret (Err (OpenReject.Io e))
  | Ok fd =>
      stat ←? with_err OpenReject.Io (call (Fstat fd));
      match stat with
      | NFile ino => mret (Ok ino)
      | _ => mret (Err OpenReject.NotRegular)
      end
  end.

(** The mapping [open_final_regular] and [existing_final_facts] share. *)
Definition reject_error (transfer_id : Uuid) (chunk_index : N) (r : OpenReject.t)
  : StorageError.t :=
  match r with
  | OpenReject.NotFound => StorageError.FinalizedChunkNotFound transfer_id chunk_index
  | OpenReject.NotRegular => StorageError.FinalizedChunkNotRegular transfer_id chunk_index
  | OpenReject.Io e => StorageError.Io e
  end.

Module Placement.
Inductive t : Type := Installed | DestinationExists.
End Placement.

Section Store.
Context {b64 : Base64} {sha : Sha256} {disp : UuidDisplay} {simple : UuidSimple}.

(** [fuel] bounds the iterations; [total] stays below the size of a file. *)
Fixpoint scan_loop (fuel : nat) (ino : nat) (hasher : Hasher) (total : N)
  : proc (io (N * Sha256Digest)) :=
  match fuel with
  | 0 => Spin
  | S fuel =>
      buf ←? call (Read ino (N.to_nat total) SCAN_BUF_LEN);
      match buf with
      | [] => mret (Ok (total, hasher_finalize hasher))
      | _ => scan_loop fuel ino (hasher ++ buf) (total + N.of_nat (length buf))
      end
  end.

Definition scan_size_and_digest (fuel ino : nat) : proc (io (N * Sha256Digest)) :=
  scan_loop fuel ino [] 0.

Definition open_final (root : path) (transfer_id : Uuid) (chunk_index : N)
  : proc (result StorageError.t nat) :=
  with_err (reject_error transfer_id chunk_index)
    (open_regular_no_follow (final_path root transfer_id chunk_index)).

Definition inspect_final (fuel : nat) (root : path) (transfer_id : Uuid) (chunk_index : N)
  : proc (result StorageError.t StoredChunkFacts) :=
  ino ←? open_final root transfer_id chunk_index;
  facts ←? with_err StorageError.Io (scan_size_and_digest fuel ino);
  mret (Ok {| sf_size := facts.1; sf_digest := facts.2 |}).

(** ** Staging *)

Record StagingChunk : Type := {
  st_transfer_id : Uuid;
  st_chunk_index : N;
  st_chunks_dir : path;
  st_final_path : path;
  st_staging_path : path;
  st_file : option nat;
  st_written : N;
  st_max_size : N;
  st_hasher : Hasher;
  st_poisoned : bool;
}.

Definition with_file (s : StagingChunk) (file : option nat) (poisoned : bool) : StagingChunk :=
  {| st_transfer_id := st_transfer_id s; st_chunk_index := st_chunk_index s;
     st_chunks_dir := st_chunks_dir s; st_final_path := st_final_path s;
     st_staging_path := st_staging_path s; st_file := file; st_written := st_written s;
     st_max_size := st_max_size s; st_hasher := st_hasher s; st_poisoned := poisoned |}.

(** [drawn] is the UUID of the random token. *)
Definition begin_stage (root : path) (transfer_id : Uuid) (chunk_index max_size : N)
    (drawn : Uuid) : proc (result StorageError.t StagingChunk) :=
  let chunks := chunks_dir root transfer_id in
  let staging_dir := chunks ++ [STAGING_DIR] in
  _ ←? ensure_worker_dir (transfer_dir root transfer_id);
  _ ←? ensure_worker_dir chunks;
  _ ←? ensure_worker_dir staging_dir;
  let staging_path := staging_dir ++ [staging_name chunk_index drawn] in
  file ←? with_err StorageError.Io (call (CreateNew staging_path));
  mret (Ok {| st_transfer_id := transfer_id; st_chunk_index := chunk_index;
              st_chunks_dir := chunks; st_final_path := final_path root transfer_id chunk_index;
              st_staging_path := staging_path; st_file := Some file; st_written := 0;
              st_max_size := max_size; st_hasher := []; st_poisoned := false |}).

Definition staging_digest (s : StagingChunk) : Sha256Digest := hasher_finalize (st_hasher s).

(** Removal errors are ignored. *)
Definition discard_staging (s : StagingChunk) : proc StagingChunk :=
  _ ← call (RemoveFile (st_staging_path s)); mret (with_file s None (st_poisoned s)).

Definition poison (s : StagingChunk) : proc StagingChunk :=
  discard_staging (with_file s (st_file s) true).

Definition drop_staging (s : StagingChunk) : proc unit :=
  match st_file s with Some _ => _ ← discard_staging s; mret () | None => mret () end.

Definition discard (s : StagingChunk) : proc unit := s ← discard_staging s; drop_staging s.

(** [u64::saturating_add]. *)
Definition saturating_add (x y : N) : N := N.min (x + y) u64_max.

Definition StagingChunk_write (s : StagingChunk) (buf : list byte)
  : proc (StagingChunk * result StorageError.t unit) :=
  if st_poisoned s then mret (s, Err (StorageError.Oversize (st_max_size s)))
  else if bool_decide (buf = []) then mret (s, Ok ())
  else
    let projected := saturating_add (st_written s) (N.of_nat (length buf)) in
    if (st_max_size s <? projected)%N
    then s ← poison s; mret (s, Err (StorageError.Oversize (st_max_size s)))
    else
      match st_file s with
      | None => Panic
      | Some file =>
          written ← call (WriteAll file buf);
          match written with
          | Err e => s ← poison s; mret (s, Err (StorageError.Io e))
          | Ok () =>
              mret ({| st_transfer_id := st_transfer_id s; st_chunk_index := st_chunk_index s;
                       st_chunks_dir := st_chunks_dir s; st_final_path := st_final_path s;
                       st_staging_path := st_staging_path s; st_file := st_file s;
                       st_written := projected; st_max_size := st_max_size s;
                       st_hasher := st_hasher s ++ buf; st_poisoned := st_poisoned s |}, Ok ())
          end
      end.

Definition place_no_replace (staging final : path) : proc (result StorageError.t Placement.t) :=
  linked ← call (Linkat staging final);
  mret match linked with
       | Ok () => Ok Placement.Installed
       | Err IoError.AlreadyExists => Ok Placement.DestinationExists
       | Err e => Err (StorageError.FinalizationSync e)
       end.

Definition existing_final_facts (fuel : nat) (s : StagingChunk)
  : proc (result StorageError.t StoredChunkFacts) :=
  ino ←? with_err (reject_error (st_transfer_id s) (st_chunk_index s))
           (open_regular_no_follow (st_final_path s));
  facts ←? with_err StorageError.Io (scan_size_and_digest fuel ino);
  mret (Ok {| sf_size := facts.1; sf_digest := facts.2 |}).

(** What [finalize_inner] does once the staging file is taken out of [self]. *)
Definition finalize_file (fuel : nat) (s : StagingChunk) (file : nat)
  : proc (result StorageError.t FinalizedChunk) :=
  let digest := hasher_finalize (st_hasher s) in
  let size := st_written s in
  let finalized disposition :=
    {| fc_transfer_id := st_transfer_id s; fc_chunk_index := st_chunk_index s; fc_size := size;
       fc_digest := digest; fc_disposition := disposition |} in
  _ ←? with_err StorageError.FinalizationSync (call (Flush file));
  _ ←? with_err StorageError.FinalizationSync (call (SyncAll file));
  placement ←? place_no_replace (st_staging_path s) (st_final_path s);
  match placement with
  | Placement.Installed =>
      _ ←? fsync_dir (st_chunks_dir s);
      _ ← call (RemoveFile (st_staging_path s));
      mret (Ok (finalized FinalizedDisposition.Installed))
  | Placement.DestinationExists =>
      existing ←? existing_final_facts fuel s;
      _ ← call (RemoveFile (st_staging_path s));
      mret (if (sf_size existing =? size)%N && bool_decide (sf_digest existing = digest)
            then Ok (finalized FinalizedDisposition.AlreadyPresent)
            else Err (StorageError.FinalizedChunkConflict (st_transfer_id s) (st_chunk_index s)))
  end.

Definition finalize_inner (fuel : nat) (s : StagingChunk)
  : proc (StagingChunk * result StorageError.t FinalizedChunk) :=
  if st_poisoned s then mret (s, Err (StorageError.Oversize (st_max_size s)))
  else if (st_written s =? 0)%N then mret (s, Err StorageError.EmptyChunk)
  else
    match st_file s with
    | None => Panic
    | Some file =>
        outcome ← finalize_file fuel s file; mret (with_file s None (st_poisoned s), outcome)
    end.

Definition finalize (fuel : nat) (s : StagingChunk)
  : proc (result StorageError.t FinalizedChunk) :=
  done ← finalize_inner fuel s;
  let '(s, outcome) := done in
  s ← match outcome with Err _ => discard_staging s | Ok _ => mret s end;
  _ ← drop_staging s;
  mret outcome.
End Store.

(** ** Startup *)

Definition is_real_dir (p : path) : proc bool :=
  meta ← call (SymlinkMetadata p);
  mret match meta with Ok (NDir _) => true | _ => false end.

Definition remove_recognized (staging_dir : path) (entry : io str) : proc unit :=
  match entry with
  | Err _ => mret ()
  | Ok name =>
      meta ← call (SymlinkMetadata (staging_dir ++ [name]));
      match meta with
      | Ok (NFile _) =>
          if is_recognized_staging_name name
          then _ ← call (RemoveFile (staging_dir ++ [name])); mret ()
          else mret ()
      | _ => mret ()
      end
  end.

Fixpoint remove_all (staging_dir : path) (entries : list (io str)) : proc unit :=
  match entries with
  | [] => mret ()
  | e :: rest => _ ← remove_recognized staging_dir e; remove_all staging_dir rest
  end.

Definition clean_transfer (transfer : path) : proc unit :=
  real ← is_real_dir transfer;
  if negb real then mret ()
  else
    let staging_dir := (transfer ++ [CHUNKS_DIR]) ++ [STAGING_DIR] in
    real ← is_real_dir staging_dir;
    if negb real then mret ()
    else
      listed ← call (ReadDir staging_dir);
      match listed with Err _ => mret () | Ok entries => remove_all staging_dir entries end.

Fixpoint clean_entries (transfers : path) (entries : list (io str))
  : proc (result StorageError.t unit) :=
  match entries with
  | [] => mret (Ok ())
  | Err e :: _ => mret (Err (StorageError.Io e))
  | Ok name :: rest => _ ← clean_transfer (transfers ++ [name]); clean_entries transfers rest
  end.

Definition cleanup_recognized_staging (transfers : path) : proc (result StorageError.t unit) :=
  listed ← call (ReadDir transfers);
  match listed with
  | Err IoError.NotFound => mret (Ok ())
  | Err e => mret (Err (StorageError.Io e))
  | Ok entries => clean_entries transfers entries
  end.

(** The result is the root of the store. *)
Definition initialize (root : str) : proc (result StorageError.t path) :=
  match validate_root_shape root with
  | Err e => mret (Err e)
  | Ok () =>
      let root := path_of root in
      _ ←? ensure_worker_dir root;
      let transfers := root ++ [TRANSFERS_DIR] in
      _ ←? ensure_worker_dir transfers;
      _ ←? cleanup_recognized_staging transfers;
      mret (Ok root)
  end.

(** ** [full_artifact.rs] *)

Record FullArtifactRequest : Type := {
  fr_transfer_id : Uuid;
  fr_chunk_count : N;
  fr_chunk_size : N;
}.

Record FullArtifactDigest : Type := {
  fd_transfer_id : Uuid;
  fd_chunk_count : N;
  fd_total_size : N;
  fd_digest : Sha256Digest;
}.

Module FullArtifactError.
Inductive t : Type :=
| RequiredChunkMissing (transfer_id : Uuid) (chunk_index : N)
| RequiredChunkUnreadable (transfer_id : Uuid) (chunk_index : N) (source : StorageError.t)
| ChunkReadFailed (transfer_id : Uuid) (chunk_index : N) (source : IoError.t)
| ChunkExceedsChunkSize (transfer_id : Uuid) (chunk_index chunk_size : N)
| NonFinalChunkTooShort (transfer_id : Uuid) (chunk_index chunk_size observed : N)
| FinalChunkEmpty (transfer_id : Uuid) (chunk_index : N)
| TotalSizeOverflow (transfer_id : Uuid)
| BlockingTaskFailed.
End FullArtifactError.

Definition checked_sub (x y : N) : option N := if (y <=? x)%N then Some (x - y)%N else None.
Definition checked_mul (x y : N) : option N :=
  if (x * y <=? u64_max)%N then Some (x * y)%N else None.

Definition size_formula_holds (chunk_count chunk_size total_size : N) : bool :=
  match checked_sub chunk_count 1 with
  | None => (total_size =? 0)%N
  | Some last =>
      match checked_mul last chunk_size with
      | None => false
      | Some full_prefix =>
          match checked_sub total_size full_prefix with
          | None => false
          | Some final_size => (1 <=? final_size)%N && (final_size <=? chunk_size)%N
          end
      end
  end.

Section FullArtifact.
Context {sha : Sha256} {disp : UuidDisplay}.

Definition RECONSTRUCT_BUF_LEN : nat := N.to_nat 65536.

(** The read loop of [hash_one_chunk]; the hasher and the total are [&mut]. *)
Fixpoint hash_loop (fuel : nat) (transfer_id : Uuid) (chunk_index chunk_size : N) (ino : nat)
    (hasher : Hasher) (total_size chunk_bytes : N)
  : proc (result FullArtifactError.t (Hasher * N * N)) :=
  match fuel with
  | 0 => Spin
  | S fuel =>
      buf ←? with_err (FullArtifactError.ChunkReadFailed transfer_id chunk_index)
               (call (Read ino (N.to_nat chunk_bytes) RECONSTRUCT_BUF_LEN));
      match buf with
      | [] => mret (Ok (hasher, total_size, chunk_bytes))
      | _ =>
          let read := N.of_nat (length buf) in
          match checked_add chunk_bytes read with
          | None => mret (Err (FullArtifactError.TotalSizeOverflow transfer_id))
          | Some chunk_bytes =>
              if (chunk_size <? chunk_bytes)%N
              then mret (Err (FullArtifactError.ChunkExceedsChunkSize transfer_id chunk_index
                                chunk_size))
              else
                match checked_add total_size read with
                | None => mret (Err (FullArtifactError.TotalSizeOverflow transfer_id))
                | Some total_size =>
                    hash_loop fuel transfer_id chunk_index chunk_size ino (hasher ++ buf)
                      total_size chunk_bytes
                end
          end
      end
  end.

(** Each iteration but the last reads a byte and at most [chunk_size] are read without
    returning, so the bound is never used up. *)
Definition hash_one_chunk (root : path) (transfer_id : Uuid) (chunk_index chunk_size : N)
    (hasher : Hasher) (total_size : N) : proc (result FullArtifactError.t (Hasher * N * N)) :=
  reader ← open_final root transfer_id chunk_index;
  match reader with
  | Err (StorageError.FinalizedChunkNotFound _ _) =>
      mret (Err (FullArtifactError.RequiredChunkMissing transfer_id chunk_index))
  | Err source =>
      mret (Err (FullArtifactError.RequiredChunkUnreadable transfer_id chunk_index source))
  | Ok ino =>
      hash_loop (S (S (N.to_nat chunk_size))) transfer_id chunk_index chunk_size ino hasher
        total_size 0
  end.

(** The loop over [0..chunk_count]; [remaining] counts the chunks still to come. *)
Fixpoint compute_loop (root : path) (transfer_id : Uuid) (chunk_count chunk_size : N)
    (remaining : nat) (hasher : Hasher) (total_size : N)
  : proc (result FullArtifactError.t (Hasher * N)) :=
  match remaining with
  | 0 => mret (Ok (hasher, total_size))
  | S remaining =>
      let chunk_index := (chunk_count - N.of_nat (S remaining))%N in
      let is_final_chunk := (chunk_index =? chunk_count - 1)%N in
      r ←? hash_one_chunk root transfer_id chunk_index chunk_size hasher total_size;
      let '(hasher, total_size, chunk_bytes) := r in
      if is_final_chunk && (chunk_bytes =? 0)%N
      then mret (Err (FullArtifactError.FinalChunkEmpty transfer_id chunk_index))
      else if negb is_final_chunk && negb (chunk_bytes =? chunk_size)%N
      then mret (Err (FullArtifactError.NonFinalChunkTooShort transfer_id chunk_index chunk_size
                        chunk_bytes))
      else compute_loop root transfer_id chunk_count chunk_size remaining hasher total_size
  end.

(** [debug_assert!] is a panic in debug builds. *)
Definition compute (root : path) (request : FullArtifactRequest)
  : proc (result FullArtifactError.t FullArtifactDigest) :=
  r ←? compute_loop root (fr_transfer_id request) (fr_chunk_count request)
         (fr_chunk_size request) (N.to_nat (fr_chunk_count request)) [] 0;
  if negb (size_formula_holds (fr_chunk_count request) (fr_chunk_size request) r.2) then Panic
  else mret (Ok {| fd_transfer_id := fr_transfer_id request;
                   fd_chunk_count := fr_chunk_count request; fd_total_size := r.2;
                   fd_digest := hasher_finalize r.1 |}).
End FullArtifact.

(** ** [upload.rs] *)

Record StageRequest : Type := {
  sr_transfer_id : Uuid;
  sr_chunk_index : N;
  sr_chunk_size : N;
  sr_declared_digest : str;
}.

Module StageOutcome.
Inductive t : Type :=
| Finalized (size : N) (digest : str)
| EmptyBody
| TooLarge
| DigestMismatch
| LocalIdentityConflict
| StorageUnavailable.
End StageOutcome.

Module PumpMessage.
Inductive t : Type := Data (bytes : list byte) | Truncated.
End PumpMessage.

(** A frame of the request body: data, trailers, or the end of a broken connection. *)
Module BodyFrame.
Inductive t : Type := Data (bytes : list byte) | Trailers | Error.
End BodyFrame.

(** What the pump sends for a body, until the channel is closed. *)
Fixpoint pump (body : list BodyFrame.t) : list PumpMessage.t :=
  match body with
  | [] => []
  | BodyFrame.Data [] :: rest | BodyFrame.Trailers :: rest => pump rest
  | BodyFrame.Data bytes :: rest => PumpMessage.Data bytes :: pump rest
  | BodyFrame.Error :: _ => [PumpMessage.Truncated]
  end.

Section Upload.
Context {b64 : Base64} {sha : Sha256} {disp : UuidDisplay} {simple : UuidSimple}.

(** [while let Some(message) = rx.blocking_recv()]: the staging handle, or the outcome of an
    early return. *)
Fixpoint receive_loop (staging : StagingChunk) (rx : list PumpMessage.t)
  : proc (result StageOutcome.t StagingChunk) :=
  match rx with
  | [] => mret (Ok staging)
  | PumpMessage.Data bytes :: rx =>
      written ← StagingChunk_write staging bytes;
      let '(staging, write_result) := written in
      match write_result with
      | Err err =>
          let outcome := match err with
                         | StorageError.Oversize _ => StageOutcome.TooLarge
                         | _ => StageOutcome.StorageUnavailable
                         end in
          _ ← discard staging; mret (Err outcome)
      | Ok () => receive_loop staging rx
      end
  | PumpMessage.Truncated :: _ =>
      _ ← discard staging; mret (Err StageOutcome.StorageUnavailable)
  end.

Definition finish_stage (fuel : nat) (declared_digest : str) (staging : StagingChunk)
  : proc StageOutcome.t :=
  let size := st_written staging in
  if (size =? 0)%N then _ ← discard staging; mret StageOutcome.EmptyBody
  else
    let computed := to_base64url_no_pad (staging_digest staging) in
    if negb (bool_decide (computed = declared_digest))
    then _ ← discard staging; mret StageOutcome.DigestMismatch
    else if (4294967295 <? size)%N
    then _ ← discard staging; mret StageOutcome.StorageUnavailable
    else
      finalized ← finalize fuel staging;
      mret match finalized with
           | Ok _ => StageOutcome.Finalized size computed
           | Err (StorageError.FinalizedChunkConflict _ _) => StageOutcome.LocalIdentityConflict
           | Err StorageError.EmptyChunk => StageOutcome.EmptyBody
           | Err _ => StageOutcome.StorageUnavailable
           end.

Definition stage_worker (fuel : nat) (root : path) (request : StageRequest)
    (rx : list PumpMessage.t) (drawn : Uuid) : proc StageOutcome.t :=
  begun ← begin_stage root (sr_transfer_id request) (sr_chunk_index request)
            (sr_chunk_size request) drawn;
  match begun with
  | Err _ => mret StageOutcome.StorageUnavailable
  | Ok staging =>
      received ← receive_loop staging rx;
      match received with
      | Err outcome => mret outcome
      | Ok staging => finish_stage fuel (sr_declared_digest request) staging
      end
  end.
End Upload.
