(* ===== verification/StoragePrograms.v ===== *)
(** * The storage programs follow the discipline

    For each program of [WorkerStorage], what it does in terms of [StorageLogic]'s [wp]:
    which staging file it owns, when it places it, and what its answer says about the
    finalized files it has placed or read. *)

From stdpp Require Import prelude gmap strings pretty.
From Stdlib Require Import Strings.Byte NArith ZArith.
From S2P Require Import Prelude.
From S2P Require Import External.
From S2P Require Import Runtime.
From S2P Require Import FileSystem.
From S2P Require Import StorageLogic.
From S2P Require Import WorkerStorage.

Section Discipline.
Context {b64 : Base64} {sha : Sha256} {disp : UuidDisplay} {simple : UuidSimple}.
Context (root : path).

(** The paths of finalized chunks. *)
Definition is_final (p : path) : Prop := ∃ t i, p = final_path root t i.

Section Programs.
Context (W : path → Prop) (mine : path) (place found : path → list byte → Prop).
Context (W_mine : W mine).

#[local] Abbreviation wp_ := (wp is_final W mine place found).

Definition unlearned (o : own) : ghost := {| g_own := o; g_known := []; g_durable := [] |}.

Lemma wp_ensure_worker_dir p o Q :
  (∀ r, Q (unlearned o) r) → wp_ (unlearned o) (ensure_worker_dir p) Q.
Proof.
  intros HQ.
  assert (∀ meta, wp_ (unlearned o) (validate_existing_worker_dir p meta) Q) as Hval.
  { intros [|mode|]; cbn; [apply HQ| |apply HQ]. case_match; cbn; [|apply HQ]. intros r. apply HQ. }
  unfold ensure_worker_dir. cbn. intros [meta|[]]; try apply HQ; [apply Hval|]. cbn.
  intros [[]|[]]; try apply HQ.
  - cbn. intros [[]|]; cbn; [|apply HQ]. destruct p; cbn; [apply HQ|]. split; [apply HQ|].
    intros e. apply HQ.
  - cbn. intros [meta|]; cbn; [apply Hval|apply HQ].
Qed.

(** ** Staging *)

(** The handle [s] of the open staging file [ino] with contents [bs]. *)
Record staged (t : Uuid) (i : N) (max : N) (ino : nat) (bs : list byte) (s : StagingChunk)
  : Prop := {
  sd_transfer : st_transfer_id s = t;
  sd_index : st_chunk_index s = i;
  sd_dir : st_chunks_dir s = chunks_dir root t;
  sd_final : st_final_path s = final_path root t i;
  sd_path : st_staging_path s = mine;
  sd_file : st_file s = Some ino;
  sd_written : st_written s = N.of_nat (length bs);
  sd_max : st_max_size s = max;
  sd_fits : (st_written s ≤ max)%N;
  sd_bound : (max < u64_max)%N;
  sd_hasher : st_hasher s = bs;
  sd_poisoned : st_poisoned s = false;
}.

Definition staging_path (t : Uuid) (i : N) (drawn : Uuid) : path :=
  (chunks_dir root t ++ [STAGING_DIR]) ++ [staging_name i drawn].

Lemma wp_begin_stage t i max drawn Q :
  mine = staging_path t i drawn → (max < u64_max)%N →
  (∀ e, Q (unlearned ONone) (Err e)) →
  (∀ ino s, staged t i max ino [] s → Q (unlearned (OOpen ino [])) (Ok s)) →
  wp_ (unlearned ONone) (begin_stage root t i max drawn) Q.
Proof.
  intros Hm Hmax Herr Hok. unfold begin_stage.
  do 3 (apply wp_try, wp_ensure_worker_dir; intros [[]|]; [|apply Herr]).
  apply wp_try, wp_with_err, wp_sys_call. cbn. split_and!; [done|done| |].
  - intros ino. cbn. apply (Hok ino). split; try done. cbn. lia.
  - intros e. apply Herr.
Qed.

Lemma wp_discard_staging s g Q :
  st_staging_path s = mine → Q (set_own g OGone) (with_file s None (st_poisoned s)) →
  wp_ g (discard_staging s) Q.
Proof. intros Hs HQ. cbn. rewrite Hs. by split. Qed.

Lemma wp_discard s g Q :
  st_staging_path s = mine → Q (set_own g OGone) () → wp_ g (discard s) Q.
Proof. intros Hs HQ. apply wp_proc_bind. by apply wp_discard_staging. Qed.

Lemma wp_write t i max ino bs s buf Q :
  staged t i max ino bs s →
  (∀ s', staged t i max ino (bs ++ buf) s' → Q (unlearned (OOpen ino (bs ++ buf))) (s', Ok ())) →
  (∀ s' e, st_staging_path s' = mine → Q (unlearned OGone) (s', Err e)) →
  wp_ (unlearned (OOpen ino bs)) (StagingChunk_write s buf) Q.
Proof.
  intros Hs Hok Herr. pose proof Hs as [H1 H2 Hd H3 H4 H5 H6 H7 H8 Hbd H9 H10].
  unfold StagingChunk_write. rewrite H10. case_bool_decide as Hb.
  { subst buf. cbn. rewrite <-(app_nil_r bs). apply Hok. by rewrite app_nil_r. }
  assert (∀ s', st_staging_path s' = mine → ∀ e g, set_own g OGone = unlearned OGone →
            wp_ g (poison s') (λ g' s', Q g' (s', Err e))) as Hpoison.
  { intros s' Hp e g Hg. unfold poison. apply wp_discard_staging; [done|]. rewrite Hg. by apply Herr. }
  case_match eqn:Hmax.
  { apply wp_proc_bind. by apply (Hpoison s H4 (StorageError.Oversize (st_max_size s))). }
  rewrite H5. apply wp_proc_bind, wp_sys_call. cbn. exists bs. split_and!; [done| |].
  - apply N.ltb_ge in Hmax. unfold saturating_add in *. apply Hok. split; simpl; try done.
    + rewrite length_app. lia.
    + rewrite <-H7. done.
    + by rewrite H9.
  - intros e. rewrite H4. split; [done|]. intros _. by apply (Herr (with_file _ _ _)).
Qed.

(** ** Reading *)

Lemma wp_scan_loop fuel ino p d total g Q :
  (p, ino, d) ∈ g_known g → total ≤ length d → length d < fuel + total →
  (∀ e, Q g (Err e)) → Q g (Ok (N.of_nat (length d), sha256 d)) →
  wp_ g (scan_loop fuel ino (take total d) (N.of_nat total)) Q.
Proof.
  intros Hk. revert total. induction fuel as [|fuel IH]; intros total Hle Hfuel Herr Hok; [lia|].
  cbn [scan_loop]. apply wp_try, wp_sys_call. exists p, d. rewrite Nat2N.id. split_and!; [done|intros e; apply Herr|].
  intros n Hn. destruct (take n (drop total d)) as [|x buf] eqn:Hbuf.
  - assert (drop total d = []) as Hd by (destruct n; [lia|]; by destruct (drop total d)).
    apply (f_equal length) in Hd. rewrite length_drop in Hd. simpl in Hd.
    cbn. unfold hasher_finalize. by replace total with (length d) by lia; rewrite firstn_all.
  - rewrite <-Hbuf. rewrite take_take_drop.
    assert (length (take n (drop total d)) = min n (length d - total)) as Hlen
      by (by rewrite length_take, length_drop).
    rewrite <-Nat2N.inj_add, Hlen.
    replace (take (total + n) d) with (take (total + min n (length d - total)) d).
    + assert (0 < length (take n (drop total d))) by (rewrite Hbuf; simpl; lia).
      apply IH; [lia|lia|done|done].
    + destruct (decide (n ≤ length d - total)); [by rewrite Nat.min_l|].
      rewrite Nat.min_r, !take_ge by lia. done.
Qed.

Lemma wp_scan fuel ino p d g Q :
  (p, ino, d) ∈ g_known g → length d < fuel →
  (∀ e, Q g (Err e)) → Q g (Ok (N.of_nat (length d), sha256 d)) →
  wp_ g (scan_size_and_digest fuel ino) Q.
Proof. intros Hk Hl Herr Hok. apply (wp_scan_loop fuel ino p d 0); [done|lia|lia|done|done]. Qed.

Lemma wp_open_regular p g Q :
  is_final p → (∀ e, Q g (Err e)) → (∀ ino d, found p d → Q (learn g p ino d) (Ok ino)) →
  (∀ ino d e, found p d → Q (learn g p ino d) (Err e)) →
  wp_ g (open_regular_no_follow p) Q.
Proof.
  intros Hf Herr Hok Herr'. unfold open_regular_no_follow. apply wp_proc_bind, wp_sys_call.
  cbn [call_spec]. split_and!; [done|..].
  - intros []; apply Herr.
  - intros n Hn. cbn. split; [|intros e; apply Herr].
    destruct n; try apply Herr. by destruct (Hn ino).
  - intros ino d Hd. cbn. split; [by apply Hok|]. intros e. by apply Herr'.
Qed.

Lemma wp_open_final t i g Q :
  (∀ e, Q g (Err e)) →
  (∀ ino d, found (final_path root t i) d → Q (learn g (final_path root t i) ino d) (Ok ino)) →
  (∀ ino d e, found (final_path root t i) d → Q (learn g (final_path root t i) ino d) (Err e)) →
  wp_ g (open_final root t i) Q.
Proof.
  intros Herr Hok Herr'. apply wp_with_err. apply wp_open_regular; [by eexists _, _|..]; eauto.
Qed.

(** What [inspect_final] reports is true of the file it opened. *)
Lemma wp_inspect_final fuel t i Q :
  (∀ p d, found p d → length d < fuel) →
  (∀ g e, Q g (Err e)) →
  (∀ ino d, Q (learn (unlearned OGone) (final_path root t i) ino d)
              (Ok {| sf_size := N.of_nat (length d); sf_digest := sha256 d |})) →
  wp_ (unlearned OGone) (inspect_final fuel root t i) Q.
Proof.
  intros Hshort Herr Hok. apply wp_try, wp_open_final; [by eauto| |by eauto].
  intros ino d Hd. apply wp_try, wp_with_err.
  apply (wp_scan fuel ino (final_path root t i) d); [by left|by eapply Hshort| |].
  - intros e. apply Herr.
  - apply Hok.
Qed.

(** ** Finalizing *)

(** Placed durably by this program, or found with the same size and digest. *)
Definition finalized_as (g : ghost) (p : path) (bs : list byte) (d : FinalizedDisposition.t)
  : Prop :=
  ∃ ino c, (p, ino, c) ∈ g_known g ∧ length c = length bs ∧ sha256 c = sha256 bs ∧
    (d = FinalizedDisposition.Installed → c = bs ∧ p ∈ g_durable g).

Lemma wp_finalize_file fuel t i max ino bs s Q :
  (∀ p d, found p d → length d < fuel) →
  staged t i max ino bs s → place (final_path root t i) bs →
  (∀ g e, Q g (Err e)) →
  (∀ g fc, finalized_as g (final_path root t i) bs (fc_disposition fc) → Q g (Ok fc)) →
  wp_ (unlearned (OOpen ino bs)) (finalize_file fuel s ino) Q.
Proof.
  intros Hshort [H1 H2 Hd H3 H4 H5 H6 H7 H8 Hbd H9 H10] Hpl Herr Hok. unfold finalize_file.
  apply wp_try, wp_with_err, wp_sys_call. intros [[]|]; [|apply Herr].
  apply wp_try, wp_with_err, wp_sys_call. exists bs. split_and!; [done| |intros; apply Herr].
  apply wp_try, wp_proc_bind, wp_sys_call. exists ino, bs. rewrite H4, H3.
  split_and!; [done|done|by eexists _, _|done| |].
  - apply wp_try, wp_with_err, wp_sys_call. rewrite ?Hd. split; [|intros; apply Herr]. cbn.
    split; [by rewrite ?H4|]. intros _. apply Hok. exists ino, bs. cbn.
    split_and!; [by left|done|done|]. intros _. split; [done|].
    unfold final_path, parent. rewrite length_app, Nat.add_sub, take_app_length.
    case_decide; [by left|done].
  - intros e. apply wp_ret. destruct e; try apply Herr. cbv beta iota.
    apply wp_try, wp_try, wp_with_err. rewrite ?H3.
    apply wp_open_regular; [by eexists _, _|by intros; apply Herr| |by intros; apply Herr].
    intros j c Hj. apply wp_try, wp_with_err.
    apply (wp_scan fuel j (final_path root t i) c);
      [by left|by eapply Hshort|by intros; apply Herr|]. cbn.
    split; [by rewrite ?H4|]. intros _. case_match eqn:Hc; [|apply Herr]. apply Hok.
    apply andb_prop in Hc as [Hs%N.eqb_eq Hg%bool_decide_eq_true].
    rewrite H6 in Hs. unfold hasher_finalize in Hg. rewrite H9 in Hg.
    exists j, c. cbn. split_and!; [by left|lia|done|done].
Qed.

Lemma wp_finalize fuel t i max ino bs s Q :
  (∀ p d, found p d → length d < fuel) →
  staged t i max ino bs s → place (final_path root t i) bs →
  (∀ g e, Q g (Err e)) →
  (∀ g fc, finalized_as g (final_path root t i) bs (fc_disposition fc) → Q g (Ok fc)) →
  wp_ (unlearned (OOpen ino bs)) (finalize fuel s) Q.
Proof.
  intros Hshort Hs Hpl Herr Hok. pose proof Hs as [H1 H2 Hd H3 H4 H5 H6 H7 H8 Hbd H9 H10].
  unfold finalize. apply wp_proc_bind.
  assert (∀ g s' e, st_staging_path s' = mine → wp_ g (
            s ← discard_staging s'; _ ← drop_staging s; mret (Err e)) Q) as Hfail.
  { intros g s' e Hp. apply wp_proc_bind, wp_discard_staging; [done|]. cbn. apply Herr. }
  unfold finalize_inner. rewrite H10. case_match; [by apply Hfail|]. rewrite H5.
  apply wp_proc_bind. apply (wp_finalize_file fuel t i max ino bs); [done|done|done| |].
  - intros g e. by apply Hfail.
  - intros g fc Hfc. cbn. by apply Hok.
Qed.

(** ** Uploads *)

Definition data_of (rx : list PumpMessage.t) : list byte :=
  concat ((λ m, match m with PumpMessage.Data b => b | PumpMessage.Truncated => [] end) <$> rx).

Definition complete (rx : list PumpMessage.t) : Prop := PumpMessage.Truncated ∉ rx.

Lemma wp_receive_loop t i max ino bs s rx Q :
  staged t i max ino bs s →
  (∀ g o, (∀ n d, o ≠ StageOutcome.Finalized n d) → Q g (Err o)) →
  (∀ s', complete rx → staged t i max ino (bs ++ data_of rx) s' →
     Q (unlearned (OOpen ino (bs ++ data_of rx))) (Ok s')) →
  wp_ (unlearned (OOpen ino bs)) (receive_loop s rx) Q.
Proof.
  revert bs s. induction rx as [|[buf|] rx IH]; intros bs s Hs Herr Hok; cbn [receive_loop].
  - cbn. rewrite <-(app_nil_r bs). apply (Hok s); [apply not_elem_of_nil|]. by rewrite app_nil_r.
  - apply wp_proc_bind. apply (wp_write t i max ino bs); [done| |].
    + intros s' Hs'. apply IH; [done..|]. intros s2 Hc Hs2.
      replace ((bs ++ buf) ++ data_of rx) with (bs ++ data_of (PumpMessage.Data buf :: rx)) in *
        by (by rewrite <-app_assoc).
      apply Hok; [|done]. intros [?|?]%elem_of_cons; [done|]. by apply Hc.
    + intros s' e Hp. apply wp_proc_bind, wp_discard; [done|]. cbn. apply Herr. by destruct e.
  - apply wp_proc_bind, wp_discard; [apply (sd_path _ _ _ _ _ _ Hs)|]. cbn. by apply Herr.
Qed.

(** The place a request asks for, and the bytes it declares. *)
Definition declares (r : StageRequest) (d : list byte) : Prop :=
  b64_encode (array_bytes (sha256 d)) = sr_declared_digest r ∧
  (1 ≤ N.of_nat (length d) ≤ sr_chunk_size r)%N.

Lemma wp_stage_worker fuel r rx drawn Q :
  (∀ p d, found p d → length d < fuel) →
  mine = staging_path (sr_transfer_id r) (sr_chunk_index r) drawn →
  (sr_chunk_size r < 2 ^ 32)%N →
  (∀ d, declares r d → place (final_path root (sr_transfer_id r) (sr_chunk_index r)) d) →
  (∀ g o, (∀ n d, o ≠ StageOutcome.Finalized n d) → Q g o) →
  (∀ g dis, complete rx → declares r (data_of rx) →
     finalized_as g (final_path root (sr_transfer_id r) (sr_chunk_index r)) (data_of rx) dis →
     Q g (StageOutcome.Finalized (N.of_nat (length (data_of rx))) (sr_declared_digest r))) →
  wp_ (unlearned ONone) (stage_worker fuel root r rx drawn) Q.
Proof.
  intros Hshort Hm Hsz Hpl Herr Hok. unfold stage_worker. apply wp_proc_bind.
  apply wp_begin_stage; [done|unfold u64_max; lia|by intros; apply Herr|].
  intros ino s Hs. apply wp_proc_bind. apply (wp_receive_loop _ _ _ _ _ _ _ _ Hs); [by intros; apply Herr|].
  intros s' Hc Hs'. rewrite app_nil_l in *. set (bs := data_of rx) in *.
  pose proof Hs' as [H1 H2 Hd H3 H4 H5 H6 H7 H8 Hbd H9 H10].
  assert (∀ g o, (∀ n d, o ≠ StageOutcome.Finalized n d) →
            wp_ g (_ ← discard s'; mret o) Q) as Hdiscard.
  { intros g o Ho. apply wp_proc_bind, wp_discard; [done|]. by apply Herr. }
  unfold finish_stage. rewrite H6. case_match eqn:H0; [by apply Hdiscard|]. apply N.eqb_neq in H0.
  case_match eqn:Hdg; [by apply Hdiscard|]. apply negb_false_iff, bool_decide_eq_true in Hdg.
  unfold staging_digest, to_base64url_no_pad, hasher_finalize in Hdg. rewrite H9 in Hdg.
  case_match; [by apply Hdiscard|]. apply wp_proc_bind.
  assert (declares r bs) as Hdec by (split; [done|lia]).
  apply (wp_finalize fuel _ _ _ _ _ _ _ Hshort Hs'); [by apply Hpl| |].
  - intros g e. cbn. apply Herr. by destruct e.
  - intros g fc Hfc. cbn. unfold to_base64url_no_pad, staging_digest, hasher_finalize.
    rewrite H9, Hdg. by apply (Hok g (fc_disposition fc)).
Qed.

(** ** Rebuilding an Artifact *)

Lemma wp_hash_loop fuel t i size ino p d h total c g Q :
  (p, ino, d) ∈ g_known g → c ≤ length d → (N.of_nat c ≤ size)%N →
  N.to_nat size + 2 ≤ fuel + c →
  (total + N.of_nat c ≤ u64_max)%N →
  (∀ e, Q g (Err e)) →
  ((N.of_nat (length d) ≤ size)%N → (total + N.of_nat (length d) ≤ u64_max)%N →
   Q g (Ok (h ++ d, (total + N.of_nat (length d))%N, N.of_nat (length d)))) →
  wp_ g (hash_loop fuel t i size ino (h ++ take c d) (total + N.of_nat c) (N.of_nat c)) Q.
Proof.
  intros Hk. revert c. induction fuel as [|fuel IH]; intros c Hle Hsize Hfuel Htot Herr Hok; [lia|].
  cbn [hash_loop]. apply wp_try, wp_with_err, wp_sys_call. exists p, d. rewrite Nat2N.id.
  split_and!; [done|intros e; apply Herr|].
  intros n Hn. cbn [map_err]. destruct (take n (drop c d)) as [|x buf] eqn:Hbuf.
  - assert (drop c d = []) as Hd by (destruct n; [lia|]; by destruct (drop c d)).
    apply (f_equal length) in Hd. rewrite length_drop in Hd. simpl in Hd.
    replace c with (length d) in * by lia. rewrite firstn_all. apply wp_ret. by apply Hok.
  - rewrite <-Hbuf. set (m := min n (length d - c)).
    assert (length (take n (drop c d)) = m) as -> by (by rewrite length_take, length_drop).
    destruct (checked_add (N.of_nat c) _) as [cb|] eqn:Hcb; [|apply Herr].
    apply checked_add_Some in Hcb as [-> _]. case_match eqn:Hlt; [apply Herr|].
    apply N.ltb_ge in Hlt. destruct (checked_add (_ + _) _) as [tb|] eqn:Htb; [|apply Herr].
    apply checked_add_Some in Htb as [-> Htb].
    rewrite <-app_assoc, take_take_drop, <-N.add_assoc, <-!Nat2N.inj_add.
    replace (take (c + n) d) with (take (c + m) d).
    + assert (0 < length (take n (drop c d))) as Hpos by (rewrite Hbuf; simpl; lia).
      rewrite length_take, length_drop in Hpos. fold m in Hpos.
      apply IH; [unfold m; lia|lia|lia|lia|done|done].
    + unfold m. destruct (decide (n ≤ length d - c)); [by rewrite Nat.min_l|].
      rewrite Nat.min_r, !take_ge by lia. done.
Qed.

(** The chunks [ds] are the first finalized chunks of [t], as the program has read them. *)
Definition read_chunks (g : ghost) (t : Uuid) (ds : list (list byte)) : Prop :=
  ∀ i d, ds !! i = Some d → ∃ ino, (final_path root t (N.of_nat i), ino, d) ∈ g_known g.

(** All chunks have the chunk size but the last of [count], which has at least a byte. *)
Definition chunk_sizes (count : nat) (size : N) (ds : list (list byte)) : Prop :=
  ∀ i d, ds !! i = Some d →
    if decide (S i = count) then (1 ≤ N.of_nat (length d) ≤ size)%N
    else N.of_nat (length d) = size.

Definition total_length (ds : list (list byte)) : N := N.of_nat (length (concat ds)).

Lemma total_length_snoc ds d :
  total_length (ds ++ [d]) = (total_length ds + N.of_nat (length d))%N.
Proof. unfold total_length. rewrite concat_app, length_app. simpl. rewrite app_nil_r. lia. Qed.

Lemma total_length_full count size ds :
  chunk_sizes count size ds → length ds < count →
  total_length ds = (N.of_nat (length ds) * size)%N.
Proof.
  induction ds as [|d ds IH] using rev_ind; intros Hs Hl; [done|].
  rewrite length_app in *. simpl in *. rewrite total_length_snoc, IH; [| |lia].
  - specialize (Hs (length ds) d). rewrite lookup_app_r, Nat.sub_diag in Hs by lia.
    specialize (Hs eq_refl). rewrite decide_False in Hs by lia. lia.
  - intros i x Hx. apply Hs. by apply lookup_app_l_Some.
Qed.

(** The assertion at the end of [compute] always holds. *)
Lemma chunk_sizes_formula count size ds :
  chunk_sizes (N.to_nat count) size ds → length ds = N.to_nat count →
  (total_length ds ≤ u64_max)%N → size_formula_holds count size (total_length ds) = true.
Proof.
  intros Hs Hl Hmax. unfold size_formula_holds, checked_sub, checked_mul.
  destruct ds as [|d ds _] using rev_ind.
  { simpl in Hl. by replace count with 0%N by lia. }
  rewrite length_app in Hl. simpl in Hl. rewrite total_length_snoc in *.
  pose proof (Hs (length ds) d) as Hd. rewrite lookup_app_r, Nat.sub_diag in Hd by lia.
  specialize (Hd eq_refl). rewrite decide_True in Hd by lia.
  assert (total_length ds = N.of_nat (length ds) * size)%N as Ht.
  { apply (total_length_full (N.to_nat count)); [|lia]. intros i x Hx. apply Hs.
    by apply lookup_app_l_Some. }
  rewrite Ht in *.
  rewrite (proj2 (N.leb_le 1 count)) by lia.
  replace (count - 1)%N with (N.of_nat (length ds)) by lia.
  rewrite (proj2 (N.leb_le _ u64_max)) by lia. rewrite (proj2 (N.leb_le _ (_ + _))) by lia.
  apply andb_true_iff. rewrite !N.leb_le. lia.
Qed.

Lemma read_chunks_snoc g t ds ino d :
  read_chunks g t ds →
  read_chunks (learn g (final_path root t (N.of_nat (length ds))) ino d) t (ds ++ [d]).
Proof.
  intros Hr i x. rewrite lookup_app_Some. intros [Hi|[Hl Hi]].
  - destruct (Hr _ _ Hi) as [j Hj]. exists j. by right.
  - apply list_lookup_singleton_Some in Hi as [Hi ->]. replace i with (length ds) by lia.
    exists ino. by left.
Qed.

Lemma chunk_sizes_snoc count size ds d :
  chunk_sizes count size ds →
  (if decide (S (length ds) = count) then (1 ≤ N.of_nat (length d) ≤ size)%N
   else N.of_nat (length d) = size) →
  chunk_sizes count size (ds ++ [d]).
Proof.
  intros Hs Hd i x. rewrite lookup_app_Some. intros [Hi|[Hl Hi]]; [by apply Hs|].
  apply list_lookup_singleton_Some in Hi as [Hi ->]. by replace i with (length ds) by lia.
Qed.

Lemma wp_compute_loop t count size n ds g Q :
  length ds + n = N.to_nat count → read_chunks g t ds → chunk_sizes (N.to_nat count) size ds →
  (total_length ds ≤ u64_max)%N →
  (∀ g e, Q g (Err e)) →
  (∀ g ds, length ds = N.to_nat count → read_chunks g t ds →
     chunk_sizes (N.to_nat count) size ds → (total_length ds ≤ u64_max)%N →
     Q g (Ok (concat ds, total_length ds))) →
  wp_ g (compute_loop root t count size n (concat ds) (total_length ds)) Q.
Proof.
  revert ds g. induction n as [|n IH]; intros ds g Hl Hr Hs Hmax Herr Hok; cbn [compute_loop].
  { apply wp_ret. apply Hok; [lia|done..]. }
  replace (count - N.of_nat (S n))%N with (N.of_nat (length ds)) by lia.
  apply wp_try. unfold hash_one_chunk. apply wp_proc_bind.
  apply wp_open_final; [by intros []; apply Herr| |by intros ? ? []; intros; apply Herr].
  intros ino d _. set (g' := learn _ _ _ _).
  pose proof (wp_hash_loop (S (S (N.to_nat size))) t (N.of_nat (length ds)) size ino
                (final_path root t (N.of_nat (length ds))) d (concat ds) (total_length ds) 0 g')
    as Hh. rewrite take_0, app_nil_r, N.add_0_r in Hh.
  apply Hh; [by left|lia|lia|lia|lia|by intros; apply Herr|]. clear Hh. intros Hle Htot.
  assert (S (length ds) = N.to_nat count ↔ N.of_nat (length ds) = (count - 1)%N) as Hlast by lia.
  case_match eqn:Hc1; [apply Herr|]. case_match eqn:Hc2; [apply Herr|].
  rewrite <-total_length_snoc in *.
  replace (concat ds ++ d) with (concat (ds ++ [d])) by (rewrite concat_app; simpl; by rewrite app_nil_r).
  apply IH; [rewrite length_app; simpl; lia|by apply read_chunks_snoc| |done|done|done].
  apply chunk_sizes_snoc; [done|]. case_decide as Hd.
  - apply Hlast, N.eqb_eq in Hd. rewrite Hd in Hc1. simpl in Hc1. apply N.eqb_neq in Hc1. lia.
  - rewrite (proj2 (N.eqb_neq _ _)) in Hc2 by (by rewrite <-Hlast). simpl in Hc2.
    by apply negb_false_iff, N.eqb_eq in Hc2.
Qed.

Lemma wp_compute r Q :
  (∀ g e, Q g (Err e)) →
  (∀ g ds, let count := fr_chunk_count r in
     length ds = N.to_nat count → read_chunks g (fr_transfer_id r) ds →
     chunk_sizes (N.to_nat count) (fr_chunk_size r) ds →
     Q g (Ok {| fd_transfer_id := fr_transfer_id r; fd_chunk_count := count;
                fd_total_size := total_length ds; fd_digest := sha256 (concat ds) |})) →
  wp_ (unlearned OGone) (compute root r) Q.
Proof.
  intros Herr Hok. unfold compute. apply wp_try.
  apply (wp_compute_loop (fr_transfer_id r) (fr_chunk_count r) (fr_chunk_size r) _ []);
    [done|done|done|unfold total_length, u64_max; simpl; lia|done|].
  intros g ds Hl Hr Hs Hmax. cbn [snd]. rewrite chunk_sizes_formula by done. by apply Hok.
Qed.

(** ** Startup removes only staging names *)

Context (W_staging : ∀ p, length p = length root + 5 → W p).

Lemma wp_remove_all dir entries Q :
  length dir = length root + 4 → Q (unlearned OGone) () →
  wp_ (unlearned OGone) (remove_all dir entries) Q.
Proof.
  intros Hl HQ. induction entries as [|[name|e] rest IH]; [done| |].
  - cbn [remove_all]. apply wp_proc_bind. cbn. intros [[]|]; try done.
    case_match; [|done]. cbn. split; [|by intros _]. apply W_staging. rewrite length_app.
    simpl. lia.
  - done.
Qed.

Lemma wp_cleanup Q :
  (∀ r, Q (unlearned OGone) r) →
  wp_ (unlearned OGone) (cleanup_recognized_staging (root ++ [TRANSFERS_DIR])) Q.
Proof.
  intros HQ. unfold cleanup_recognized_staging. apply wp_proc_bind, wp_sys_call. intros [entries|[]];
    try apply HQ. cbv beta iota.
  induction entries as [|[name|e] rest IH]; [apply HQ| |apply HQ].
  cbn [clean_entries]. apply wp_proc_bind. unfold clean_transfer, is_real_dir. cbn.
  intros [[]|]; try apply IH. cbn. intros [[]|]; try apply IH. cbn.
  intros [listed|]; [|apply IH]. apply wp_remove_all; [|apply IH].
  rewrite !length_app. simpl. lia.
Qed.

Lemma wp_initialize name Q :
  path_of name = root → (∀ r, Q (unlearned OGone) r) →
  wp_ (unlearned OGone) (initialize name) Q.
Proof.
  intros Hroot HQ. unfold initialize. destruct (validate_root_shape name) as [[]|]; [|apply HQ].
  rewrite Hroot. do 2 (apply wp_try, wp_ensure_worker_dir; intros [[]|]; [|apply HQ]).
  apply wp_try, wp_cleanup. intros [[]|]; apply HQ.
Qed.
End Programs.

(** ** Names *)

Lemma list_byte_inj s s' : String.list_byte_of_string s = String.list_byte_of_string s' → s = s'.
Proof.
  intros H. rewrite <-(String.string_of_list_byte_of_string s), H.
  apply String.string_of_list_byte_of_string.
Qed.

Lemma lit_cons c (s : String.string) : lit (String.String c s) = Ascii.byte_of_ascii c :: lit s.
Proof. done. Qed.

Lemma pretty_go_digits x s :
  forallb is_ascii_digit (lit s) = true → forallb is_ascii_digit (lit (pretty_N_go x s)) = true.
Proof.
  revert s. induction (N.lt_wf_0 x) as [x _ IH]; intros s Hs.
  destruct (decide (0 < x)%N) as [Hx|]; [|by replace x with 0%N by lia].
  rewrite pretty_N_go_step by done. apply IH; [by apply N.div_lt|].
  rewrite lit_cons. cbn [forallb]. rewrite Hs. generalize (x `mod` 10)%N. intros y.
  unfold pretty_N_char. by repeat case_match.
Qed.

Lemma decimal_digits n : forallb is_ascii_digit (decimal n) = true.
Proof. unfold decimal, pretty, pretty_N. case_decide; [done|]. by apply pretty_go_digits. Qed.

Lemma decimal_nonempty n : decimal n ≠ [].
Proof.
  assert (∀ x s, length (lit s) ≤ length (lit (pretty_N_go x s))) as Hgo.
  { intros x. induction (N.lt_wf_0 x) as [x _ IH]; intros s.
    destruct (decide (0 < x)%N) as [Hx|]; [|by replace x with 0%N by lia].
    rewrite pretty_N_go_step by done.
    etrans; [|apply IH; by apply N.div_lt]. rewrite lit_cons. simpl. lia. }
  unfold decimal, pretty, pretty_N. case_decide as Hn; [done|].
  rewrite pretty_N_go_step by lia. intros He. apply (f_equal length) in He.
  pose proof (Hgo (n `div` 10)%N (String.String (pretty_N_char (n `mod` 10)) "")) as Hl.
  rewrite He, lit_cons in Hl. simpl in Hl. lia.
Qed.

Lemma final_name_not_staging i : decimal i ++ FINAL_SUFFIX ≠ STAGING_DIR.
Proof.
  intros H. pose proof (decimal_digits i) as Hd. pose proof (decimal_nonempty i) as Hn.
  destruct (decimal i) as [|b l]; [done|]. injection H as -> _. done.
Qed.

Lemma decimal_inj i j : decimal i = decimal j → i = j.
Proof. intros H%list_byte_inj. by apply (inj pretty). Qed.

Context {disp_laws : UuidDisplayLaws} {simple_laws : UuidSimpleLaws}.

Lemma final_path_inj t i t' i' : final_path root t i = final_path root t' i' → t = t' ∧ i = i'.
Proof.
  unfold final_path, chunks_dir, transfer_dir. intros H.
  apply app_inj_2 in H as [Hd [= Hn]]; [|done]. apply app_inj_2 in Hd as [Hd _]; [|done].
  apply app_inj_2 in Hd as [_ [= Ht]]; [|done].
  split; [by apply uuid_hyphenated_inj|]. apply app_inj_2 in Hn as [Hn _]; [|done].
  by apply decimal_inj.
Qed.

Lemma length_final_path t i : length (final_path root t i) = length root + 4.
Proof. unfold final_path, chunks_dir, transfer_dir. rewrite !length_app. simpl. lia. Qed.

Lemma length_staging_path t i drawn : length (staging_path t i drawn) = length root + 5.
Proof. unfold staging_path, chunks_dir, transfer_dir. rewrite !length_app. simpl. lia. Qed.

Lemma staging_not_final p : length p = length root + 5 → ¬ is_final p.
Proof. intros Hl (t & i & ->). rewrite length_final_path in Hl. lia. Qed.

Lemma staging_path_inj t i u t' i' u' : staging_path t i u = staging_path t' i' u' → u = u'.
Proof.
  unfold staging_path, staging_name, worker_random_token. intros H.
  apply app_inj_2 in H as [_ [= Hn]]; [|done].
  apply app_inj_2 in Hn as [_ [= Hn]]; [|simpl; rewrite !length_app; by rewrite !uuid_simple_length].
  apply app_inj_1 in Hn as [Hn _]; [|by rewrite !uuid_simple_length].
  by apply uuid_simple_inj.
Qed.
End Discipline.
