(* ===== verification/StorageExact.v ===== *)
(** * Exact results of storage programs

    What the programs of [WorkerStorage] do when run alone while no call fails, for every
    size of reads: reconstruction equals a reference definition over whole chunks, an upload
    answers as its messages and the stored chunk determine. *)

From stdpp Require Import prelude gmap strings.
From Stdlib Require Import Strings.Byte NArith ZArith.
From S2P Require Import Prelude.
From S2P Require Import External.
From S2P Require Import Runtime.
From S2P Require Import FileSystem.
From S2P Require Import StorageLogic.
From S2P Require Import WorkerStorage.
From S2P Require Import StoragePrograms.

(** ** Calm runs *)

Definition calm (ch : choice) : Prop := ch_fail ch = false ∧ ch_bad ch = [].

(** [p], run alone from [s] with calls that do not fail, ends with [Q]. *)
Fixpoint calmly {A} (p : proc A) (s : fs) (Q : fs → A → Prop) : Prop :=
  match p with
  | Ret a => Q s a
  | Call c k => ∀ ch, calm ch → calmly (k (exec c ch s).2) (exec c ch s).1 Q
  | Panic | Spin => False
  end.

Lemma calmly_mono {A} (p : proc A) s (Q1 Q2 : fs → A → Prop) :
  (∀ s a, Q1 s a → Q2 s a) → calmly p s Q1 → calmly p s Q2.
Proof.
  intros HQ. revert s. induction p as [a|R c k IH| |]; intros s; simpl; [by auto| |done|done].
  intros H ch Hch. by apply IH, H.
Qed.

Lemma calmly_bind {A B} (p : proc A) (f : A → proc B) s Q :
  calmly p s (λ s' a, calmly (f a) s' Q) → calmly (p ≫= f) s Q.
Proof.
  revert s. induction p as [a|R c k IH| |]; intros s; simpl; [done| |done|done].
  intros H ch Hch. by apply IH, H.
Qed.

Lemma calmly_try {E A B} (p : proc (result E A)) (f : A → proc (result E B)) s Q :
  calmly p s (λ s' r, match r with Ok a => calmly (f a) s' Q | Err e => Q s' (Err e) end) →
  calmly (try_ p f) s Q.
Proof. intros H. apply calmly_bind. revert H. apply calmly_mono. by intros s' [a|e]. Qed.

Lemma calmly_with_err {E F A} (f : E → F) (p : proc (result E A)) s Q :
  calmly p s (λ s' r, Q s' (map_err f r)) → calmly (with_err f p) s Q.
Proof. intros H. apply calmly_bind. revert H. apply calmly_mono. by intros s' r. Qed.

Lemma calmly_call {R} (c : sys R) s Q :
  (∀ ch, calm ch → Q (exec c ch s).1 (exec c ch s).2) → calmly (call c) s Q.
Proof. done. Qed.

Lemma calmly_step {R} (c : sys R) s s' r Q :
  (∀ ch, calm ch → exec c ch s = (s', r)) → Q s' r → calmly (call c) s Q.
Proof. intros Hex HQ ch Hch. by rewrite Hex. Qed.

Lemma calmly_ret {A} (a : A) s Q : Q s a → calmly (mret a) s Q.
Proof. done. Qed.

(** A calm run is a run. *)
Lemma calmly_run {A} (p : proc A) s Q (f : nat → choice) :
  calmly p s Q → (∀ n, calm (f n)) →
  ∃ n s' a, run p (f <$> seq 0 n) s = (s', Some a) ∧ Q s' a.
Proof.
  revert s f. induction p as [a|R c k IH| |]; intros s f Hp Hf; simpl in Hp; try done.
  - by exists 0, s, a.
  - destruct (exec c (f 0) s) as [s1 r] eqn:Hex. specialize (Hp (f 0) (Hf 0)). rewrite Hex in Hp.
    destruct (IH r s1 (λ n, f (S n))) as (n & s' & a & Hr & HQ); [done|by auto|].
    exists (S n), s', a. split; [|done]. cbn [seq]. rewrite <-fmap_S_seq, fmap_cons,
      <-list_fmap_compose. cbn [run]. by rewrite Hex.
Qed.

(** ** Rebuilding an Artifact *)

Section Rebuild.
Context {sha : Sha256} {disp : UuidDisplay} (root : path).

(** The chunk at an index, read whole. *)
Definition chunk_at (s : fs) (t : Uuid) (i : N) : result FullArtifactError.t (list byte) :=
  match fs_tree s !! final_path root t i with
  | None => Err (FullArtifactError.RequiredChunkMissing t i)
  | Some (NFile ino) => Ok (default [] (fs_data s !! ino))
  | Some _ => Err (FullArtifactError.RequiredChunkUnreadable t i
                     (StorageError.FinalizedChunkNotRegular t i))
  end.

(** The chunks from [index] on: [remaining] of them. *)
Fixpoint rebuild_from (s : fs) (t : Uuid) (size : N) (index : N) (remaining : nat)
  : result FullArtifactError.t (list (list byte)) :=
  match remaining with
  | 0 => Ok []
  | S remaining =>
      d ← chunk_at s t index;
      let len := N.of_nat (length d) in
      if (size <? len)%N then Err (FullArtifactError.ChunkExceedsChunkSize t index size)
      else if bool_decide (remaining = 0)
      then if (len =? 0)%N then Err (FullArtifactError.FinalChunkEmpty t index) else Ok [d]
      else if negb (len =? size)%N
      then Err (FullArtifactError.NonFinalChunkTooShort t index size len)
      else ds ← rebuild_from s t size (index + 1) remaining; Ok (d :: ds)
  end.

(** The reference: read all chunks, then hash their concatenation. *)
Definition rebuild (s : fs) (r : FullArtifactRequest)
  : result FullArtifactError.t FullArtifactDigest :=
  ds ← rebuild_from s (fr_transfer_id r) (fr_chunk_size r) 0 (N.to_nat (fr_chunk_count r));
  Ok {| fd_transfer_id := fr_transfer_id r; fd_chunk_count := fr_chunk_count r;
        fd_total_size := total_length ds; fd_digest := sha256 (concat ds) |}.

Lemma checked_add_fits x y : (x + y ≤ u64_max)%N → checked_add x y = Some (x + y)%N.
Proof. intros H. by apply checked_add_Some. Qed.

Lemma calmly_hash_loop fuel t i size ino h total c s Q :
  let d := default [] (fs_data s !! ino) in
  c ≤ length d → (N.of_nat c ≤ size < 2 ^ 32)%N → N.to_nat size + 2 ≤ fuel + c →
  (total + size ≤ u64_max)%N →
  Q s (if (size <? N.of_nat (length d))%N
       then Err (FullArtifactError.ChunkExceedsChunkSize t i size)
       else Ok (h ++ d, (total + N.of_nat (length d))%N, N.of_nat (length d))) →
  calmly (hash_loop fuel t i size ino (h ++ take c d) (total + N.of_nat c) (N.of_nat c)) s Q.
Proof.
  intros d. revert c. induction fuel as [|fuel IH]; intros c Hle Hsize Hfuel Htot HQ; [lia|].
  cbn [hash_loop]. apply calmly_try, calmly_with_err, calmly_call. intros ch [Hch _].
  cbn [exec fst snd]. rewrite Hch, Nat2N.id. fold d. cbn [map_err].
  set (n := max 1 (min (ch_n ch) RECONSTRUCT_BUF_LEN)).
  assert (0 < n ∧ (N.of_nat n ≤ 65536)%N) as [Hn Hn'] by (unfold n, RECONSTRUCT_BUF_LEN; lia).
  destruct (take n (drop c d)) as [|x buf] eqn:Hbuf.
  - assert (drop c d = []) as Hd by (destruct n; [lia|]; by destruct (drop c d)).
    apply (f_equal length) in Hd. rewrite length_drop in Hd. simpl in Hd.
    replace c with (length d) in * by lia. rewrite firstn_all. apply calmly_ret.
    by rewrite (proj2 (N.ltb_ge _ _)) in HQ by lia.
  - assert (0 < length (take n (drop c d))) as Hpos by (rewrite Hbuf; simpl; lia).
    rewrite <-Hbuf. set (m := min n (length d - c)).
    assert (length (take n (drop c d)) = m) as Hlen by (by rewrite length_take, length_drop).
    rewrite Hlen in *. cbv zeta.
    rewrite checked_add_fits by (unfold u64_max, m in *; lia). cbv beta iota.
    destruct (size <? N.of_nat c + N.of_nat m)%N eqn:Hlt.
    + apply N.ltb_lt in Hlt. apply calmly_ret.
      by rewrite (proj2 (N.ltb_lt _ _)) in HQ by (unfold m in *; lia).
    + apply N.ltb_ge in Hlt.
      rewrite checked_add_fits by (unfold u64_max in *; lia). cbv beta iota.
      rewrite <-app_assoc, take_take_drop, <-N.add_assoc, <-!Nat2N.inj_add.
      replace (take (c + n) d) with (take (c + m) d).
      * apply IH; [unfold m; lia|lia|lia|lia|done].
      * unfold m. destruct (decide (n ≤ length d - c)); [by rewrite Nat.min_l|].
        rewrite Nat.min_r, !take_ge by lia. done.
Qed.

Lemma calmly_open_final t i s Q :
  Q s (match fs_tree s !! final_path root t i with
       | None => Err (StorageError.FinalizedChunkNotFound t i)
       | Some (NFile ino) => Ok ino
       | Some _ => Err (StorageError.FinalizedChunkNotRegular t i)
       end) →
  calmly (open_final root t i) s Q.
Proof.
  intros HQ. apply calmly_with_err, calmly_bind, calmly_call. intros ch [Hch _].
  cbn [exec fst snd]. rewrite Hch. destruct (fs_tree s !! _) as [[ino|mode|]|]; try done;
    (apply calmly_try, calmly_with_err, calmly_call; intros ch' [Hch' _]; cbn; by rewrite Hch').
Qed.

Lemma calmly_compute_loop t count size n h total s Q :
  (N.of_nat n ≤ count)%N → (size < 2 ^ 32)%N → (total + N.of_nat n * size ≤ u64_max)%N →
  Q s (match rebuild_from s t size (count - N.of_nat n) n with
       | Err e => Err e
       | Ok ds => Ok (h ++ concat ds, (total + total_length ds)%N)
       end) →
  calmly (compute_loop root t count size n h total) s Q.
Proof.
  intros Hn Hsize. revert h total Hn. induction n as [|n IH]; intros h total Hn Htot HQ.
  { simpl in *. unfold total_length in HQ. simpl in HQ. by rewrite app_nil_r, N.add_0_r in HQ. }
  cbn [compute_loop]. cbn [rebuild_from] in HQ. set (index := (count - N.of_nat (S n))%N) in *.
  apply calmly_try. unfold hash_one_chunk. apply calmly_bind, calmly_open_final.
  unfold chunk_at in HQ. destruct (fs_tree s !! _) as [[ino|mode|]|]; try done.
  set (d := default [] (fs_data s !! ino)) in *.
  pose proof (calmly_hash_loop (S (S (N.to_nat size))) t index size ino h total 0 s) as Hh.
  fold d in Hh. cbv zeta in Hh. rewrite take_0, app_nil_r, N.add_0_r in Hh.
  apply Hh; [lia|lia|lia|lia|]. clear Hh. cbn in HQ.
  destruct (size <? N.of_nat (length d))%N eqn:Hbig; [done|]. apply N.ltb_ge in Hbig.
  replace (index =? count - 1)%N with (bool_decide (n = 0)).
  2: { unfold index. destruct n; [rewrite bool_decide_eq_true_2 by done|
         rewrite bool_decide_eq_false_2 by done]; symmetry; [apply N.eqb_eq|apply N.eqb_neq]; lia. }
  destruct (decide (n = 0)) as [->|Hn0].
  - rewrite bool_decide_eq_true_2 in * by done. simpl in *.
    destruct (N.of_nat (length d) =? 0)%N; [done|]. simpl in *. unfold total_length in HQ.
    simpl in HQ. by rewrite app_nil_r in HQ.
  - rewrite bool_decide_eq_false_2 in * by done. simpl in *.
    destruct (N.of_nat (length d) =? size)%N eqn:Heq; [|done]. apply N.eqb_eq in Heq. simpl in *.
    apply IH; [lia|lia|]. replace (count - N.of_nat n)%N with (index + 1)%N by (unfold index; lia).
    destruct (rebuild_from s t size (index + 1) n) as [ds|]; [|done]. simpl in HQ.
    rewrite app_assoc in HQ. unfold total_length in *. simpl in HQ.
    by rewrite length_app, Nat2N.inj_add, N.add_assoc in HQ.
Qed.

(** The chunks of the reference have the sizes it checks. *)
Lemma rebuild_sizes s t size index n ds :
  rebuild_from s t size index n = Ok ds → length ds = n ∧ chunk_sizes n size ds.
Proof.
  revert index ds. induction n as [|n IH]; intros index ds; simpl.
  { intros [= <-]. split; [done|]. by intros i d. }
  intros (d & _ & Hd)%result_bind_Ok. case_match eqn:Hbig; [done|]. apply N.ltb_ge in Hbig.
  case_bool_decide as Hn0.
  - case_match eqn:H0; [done|]. injection Hd as <-. apply N.eqb_neq in H0. subst n.
    split; [done|]. intros i x [-> ->]%list_lookup_singleton_Some. simpl. lia.
  - case_match eqn:Heq; [done|]. apply negb_false_iff, N.eqb_eq in Heq.
    apply result_bind_Ok in Hd as (ds' & Hds & [= <-]). destruct (IH _ _ Hds) as [<- Hs].
    split; [done|]. intros [|i] x; simpl.
    + intros [= ->]. rewrite decide_False by lia. done.
    + intros Hx. specialize (Hs i x Hx). repeat case_decide; done || lia.
Qed.

(** C26. Reconstruction computes its reference: while no call fails, and however the reads
    are cut, [compute] answers exactly what reading every chunk whole and hashing their
    concatenation gives, including which error for the first chunk that is missing, no
    regular file, too long, too short or empty; and it leaves the store as it is. *)
Theorem compute_exact s r :
  (fr_chunk_size r < 2 ^ 32)%N → (fr_chunk_count r * fr_chunk_size r ≤ u64_max)%N →
  calmly (compute root r) s (λ s' res, s' = s ∧ res = rebuild s r).
Proof.
  intros Hsize Hmax. unfold compute, rebuild. apply calmly_try.
  apply calmly_compute_loop; [lia|done|lia|].
  replace (fr_chunk_count r - N.of_nat (N.to_nat (fr_chunk_count r)))%N with 0%N by lia.
  destruct (rebuild_from _ _ _ _ _) as [ds|e] eqn:Hr; [|done].
  destruct (rebuild_sizes _ _ _ _ _ _ Hr) as [Hl Hs]. cbn [snd]. rewrite N.add_0_l.
  rewrite chunk_sizes_formula; [|done|done|].
  - by apply calmly_ret.
  - destruct ds as [|d ds _] using rev_ind; [unfold total_length, u64_max; simpl; lia|].
    pose proof (Hs (length ds) d) as Hd. rewrite lookup_app_r, Nat.sub_diag in Hd by lia.
    rewrite length_app in Hl. simpl in Hl. specialize (Hd eq_refl). rewrite decide_True in Hd by lia.
    rewrite total_length_snoc, (total_length_full (N.to_nat (fr_chunk_count r)) (fr_chunk_size r)).
    + nia.
    + intros i x Hx. apply Hs. by apply lookup_app_l_Some.
    + lia.
Qed.
End Rebuild.

(** ** An upload *)

(** The body the messages make up, or why it is refused. *)
Fixpoint accept_body (max : N) (have : list byte) (rx : list PumpMessage.t)
  : result StageOutcome.t (list byte) :=
  match rx with
  | [] => Ok have
  | PumpMessage.Truncated :: _ => Err StageOutcome.StorageUnavailable
  | PumpMessage.Data bytes :: rx =>
      if (max <? N.of_nat (length (have ++ bytes)))%N then Err StageOutcome.TooLarge
      else accept_body max (have ++ bytes) rx
  end.

Section StageSpec.
Context {b64 : Base64} {sha : Sha256}.

(** The answer to a whole body, given the chunk already finalized. *)
Definition body_answer (declared : str) (body : list byte) (existing : option (list byte))
  : StageOutcome.t :=
  let digest := b64_encode (array_bytes (sha256 body)) in
  match body with
  | [] => StageOutcome.EmptyBody
  | _ =>
      if negb (bool_decide (digest = declared)) then StageOutcome.DigestMismatch
      else
        match existing with
        | None => StageOutcome.Finalized (N.of_nat (length body)) digest
        | Some d =>
            if bool_decide (length d = length body) && bool_decide (sha256 d = sha256 body)
            then StageOutcome.Finalized (N.of_nat (length body)) digest
            else StageOutcome.LocalIdentityConflict
        end
  end.

Definition stage_answer (r : StageRequest) (rx : list PumpMessage.t)
    (existing : option (list byte)) : StageOutcome.t :=
  match accept_body (sr_chunk_size r) [] rx with
  | Err o => o
  | Ok body => body_answer (sr_declared_digest r) body existing
  end.

(** The chunk afterwards. *)
Definition stage_chunk (r : StageRequest) (rx : list PumpMessage.t) (existing : option (list byte))
  : option (list byte) :=
  match existing, stage_answer r rx None with
  | None, StageOutcome.Finalized _ _ => Some (data_of rx)
  | _, _ => existing
  end.
End StageSpec.

Lemma calmly_ensure_dir p s Q :
  p ≠ [] → (is_dir s p = true ∨ fs_tree s !! p = None ∧ is_dir s (parent p) = true) →
  (∀ s', is_dir s' p = true → (∀ q, q ≠ p → fs_tree s' !! q = fs_tree s !! q) →
     fs_data s' = fs_data s → fs_next s' = fs_next s → Q s' (Ok ())) →
  calmly (ensure_worker_dir p) s Q.
Proof.
  intros Hp Hpre HQ. unfold ensure_worker_dir. apply calmly_bind, calmly_call. intros ch [Hch _].
  cbn [exec fst snd]. rewrite Hch. destruct Hpre as [Hdir|[Hnone Hpar]].
  - assert (is_dir s p = true) as Hd' by done. revert Hdir. unfold is_dir.
    destruct (fs_tree s !! p) as [[|mode|]|] eqn:Hm; try done. intros _. cbn [ok_or].
    unfold validate_existing_worker_dir. case_match; [|apply calmly_ret; by apply HQ].
    apply calmly_with_err, calmly_call. intros ch' [Hch' _]. cbn [exec]. rewrite Hch', Hm. cbn.
    apply HQ; try done; simpl.
    + unfold is_dir. simpl. by rewrite lookup_insert_eq.
    + intros q Hq. by rewrite lookup_insert_ne.
  - rewrite Hnone. cbn [ok_or]. apply calmly_bind, calmly_call. intros ch1 [Hch1 _].
    cbn [exec]. rewrite Hch1, Hnone, Hpar. cbn [fst snd].
    apply calmly_try, calmly_with_err, calmly_call. intros ch2 [Hch2 _]. cbn [exec].
    rewrite Hch2. cbn [fs_tree with_tree]. rewrite lookup_insert_eq, insert_insert_eq. cbn [fst snd map_err].
    set (s2 := with_tree _ _).
    assert (∀ q, q ≠ p → fs_tree s2 !! q = fs_tree s !! q) as Hq.
    { intros q Hq. unfold s2. simpl. by rewrite lookup_insert_ne. }
    assert (is_dir s2 p = true) as Hd2.
    { unfold is_dir, s2. simpl. by rewrite lookup_insert_eq. }
    destruct p as [|x p]; [done|]. apply calmly_bind, calmly_with_err, calmly_call.
    intros ch3 [Hch3 _]. cbn [exec]. rewrite Hch3.
    case_match; cbn [fst snd]; apply calmly_ret; by apply HQ.
Qed.

Lemma parent_snoc (p : path) (x : str) : parent (p ++ [x]) = p.
Proof. unfold parent. by rewrite length_app, Nat.add_sub, take_app_length. Qed.

Section StageExact.
Context {b64 : Base64} {sha : Sha256} {disp : UuidDisplay} {simple : UuidSimple}.
Context (root mine : path) (t : Uuid) (i max : N) (max_u32 : (max < 2 ^ 32)%N).
(** The file system when the staging file is created. *)
Context (s : fs) (mine_new : fs_tree s !! mine = None) (mine_dir : is_dir s (parent mine) = true).
#[local] Abbreviation final := (final_path root t i).
#[local] Abbreviation ino := (fs_next s).

(** With the staging file open and holding [bs], and after its removal. *)
Definition open_fs (bs : list byte) : fs :=
  {| fs_tree := <[mine := NFile ino]> (fs_tree s); fs_data := <[ino := bs]> (fs_data s);
     fs_disk_tree := fs_disk_tree s; fs_disk_data := fs_disk_data s; fs_next := S ino |}.

Definition removed (bs : list byte) (s' : fs) : Prop :=
  fs_tree s' = fs_tree s ∧ fs_data s' = <[ino := bs]> (fs_data s).

Lemma calmly_remove s' bs Q :
  (fs_tree s' = <[mine := NFile ino]> (fs_tree s) ∨ fs_tree s' = fs_tree s) →
  fs_data s' = <[ino := bs]> (fs_data s) →
  (∀ s'' r, removed bs s'' → Q s'' r) → calmly (call (RemoveFile mine)) s' Q.
Proof.
  intros Ht Hd HQ. apply calmly_call. intros ch [Hch _]. cbn [exec]. rewrite Hch.
  destruct Ht as [Ht|Ht]; rewrite Ht.
  - rewrite lookup_insert_eq. cbn [fst snd]. apply HQ. split; [|done]. simpl. rewrite ?Ht.
    by apply delete_insert_id.
  - rewrite mine_new. cbn [fst snd]. by apply HQ.
Qed.

Lemma calmly_discard_staging h s' bs Q :
  st_staging_path h = mine →
  (fs_tree s' = <[mine := NFile ino]> (fs_tree s) ∨ fs_tree s' = fs_tree s) →
  fs_data s' = <[ino := bs]> (fs_data s) →
  (∀ s'', removed bs s'' → Q s'' (with_file h None (st_poisoned h))) →
  calmly (discard_staging h) s' Q.
Proof.
  intros Hh Ht Hd HQ. unfold discard_staging. rewrite Hh. apply calmly_bind.
  eapply calmly_remove; [done|done|]. intros s'' r Hr. apply calmly_ret. by apply HQ.
Qed.

Lemma calmly_discard h s' bs Q :
  st_staging_path h = mine →
  (fs_tree s' = <[mine := NFile ino]> (fs_tree s) ∨ fs_tree s' = fs_tree s) →
  fs_data s' = <[ino := bs]> (fs_data s) →
  (∀ s'', removed bs s'' → Q s'' ()) → calmly (discard h) s' Q.
Proof.
  intros Hh Ht Hd HQ. unfold discard. apply calmly_bind.
  eapply calmly_discard_staging; [done|done|done|]. intros s'' Hr. cbn. by apply HQ.
Qed.

Lemma calmly_write bs h buf Q :
  staged root mine t i max ino bs h →
  (∀ h', (N.of_nat (length (bs ++ buf)) ≤ max)%N → staged root mine t i max ino (bs ++ buf) h' →
     Q (open_fs (bs ++ buf)) (h', Ok ())) →
  (∀ h' s' m, (max < N.of_nat (length (bs ++ buf)))%N → st_staging_path h' = mine →
     removed bs s' → Q s' (h', Err (StorageError.Oversize m))) →
  calmly (StagingChunk_write h buf) (open_fs bs) Q.
Proof.
  intros Hh Hok Herr. pose proof Hh as [H1 H2 Hd H3 H4 H5 H6 H7 H8 Hbd H9 H10].
  unfold StagingChunk_write. rewrite H10. case_bool_decide as Hb.
  { subst buf. apply calmly_ret. rewrite app_nil_r in *. apply Hok; [lia|done]. }
  rewrite length_app in *. case_match eqn:Hmax.
  - apply N.ltb_lt in Hmax. unfold saturating_add in Hmax. apply calmly_bind. unfold poison.
    eapply (calmly_discard_staging _ _ bs); [done|by left|done|]. intros s' Hs'.
    apply calmly_ret. apply Herr; [lia|done|done].
  - apply N.ltb_ge in Hmax. unfold saturating_add in *. rewrite H5.
    apply calmly_bind, calmly_call. intros ch [Hch _]. cbn [exec]. rewrite Hch.
    cbn [open_fs fs_data]. rewrite lookup_insert_eq. cbn [default fst snd].
    match goal with |- calmly _ ?x _ => replace x with (open_fs (bs ++ buf)) end.
    2: { unfold open_fs, with_data. simpl. by rewrite insert_insert_eq. }
    apply calmly_ret. apply Hok; [lia|].
    split; simpl; try done; [rewrite length_app; lia|by rewrite <-H7|by rewrite H9].
Qed.

Lemma calmly_receive bs h rx Q :
  staged root mine t i max ino bs h →
  (∀ h', accept_body max bs rx = Ok (bs ++ data_of rx) →
     staged root mine t i max ino (bs ++ data_of rx) h' → Q (open_fs (bs ++ data_of rx)) (Ok h')) →
  (∀ s' o bs', accept_body max bs rx = Err o → removed bs' s' → Q s' (Err o)) →
  calmly (receive_loop h rx) (open_fs bs) Q.
Proof.
  revert bs h. induction rx as [|[buf|] rx IH]; intros bs h Hh Hok Herr; cbn [receive_loop].
  - apply calmly_ret. specialize (Hok h). unfold data_of in Hok. simpl in Hok.
    rewrite app_nil_r in Hok. by apply Hok.
  - cbn [accept_body] in *. apply calmly_bind. apply (calmly_write bs); [done| |].
    + intros h' Hle Hh'. rewrite (proj2 (N.ltb_ge _ _)) in Hok, Herr by done.
      replace (bs ++ data_of (PumpMessage.Data buf :: rx)) with ((bs ++ buf) ++ data_of rx) in *
        by (by rewrite <-app_assoc).
      by apply IH.
    + intros h' s' m Hgt Hp Hr. rewrite (proj2 (N.ltb_lt _ _)) in Hok, Herr by done.
      destruct Hr as [Ht Hda]. apply calmly_bind.
      eapply (calmly_discard _ _ bs); [done|by right|done|].
      intros s'' Hr. apply calmly_ret. by eapply Herr.
  - apply calmly_bind. eapply (calmly_discard _ _ bs); [apply (sd_path _ _ _ _ _ _ _ _ Hh)|by left|done|].
    intros s'' Hr. apply calmly_ret. by eapply Herr.
Qed.

Lemma calmly_scan_loop fuel j d total s' Q :
  fs_data s' !! j = Some d → total ≤ length d → length d < fuel + total →
  Q s' (Ok (N.of_nat (length d), sha256 d)) →
  calmly (scan_loop fuel j (take total d) (N.of_nat total)) s' Q.
Proof.
  intros Hd. revert total. induction fuel as [|fuel IH]; intros total Hle Hfuel HQ; [lia|].
  cbn [scan_loop]. apply calmly_try, calmly_call. intros ch [Hch _]. cbn [exec fst snd].
  rewrite Hch, Hd, Nat2N.id. change (default [] (Some d)) with d. set (n := Nat.max 1 _).
  assert (0 < n) as Hn by (unfold n; lia).
  destruct (take n (drop total d)) as [|x buf] eqn:Hbuf.
  - assert (drop total d = []) as Hdr by (destruct n; [lia|]; by destruct (drop total d)).
    apply (f_equal length) in Hdr. rewrite length_drop in Hdr. simpl in Hdr.
    apply calmly_ret. unfold hasher_finalize. replace total with (length d) by lia.
    by rewrite firstn_all.
  - assert (0 < length (take n (drop total d))) as Hpos by (rewrite Hbuf; simpl; lia).
    rewrite <-Hbuf, take_take_drop.
    assert (length (take n (drop total d)) = min n (length d - total)) as Hlen
      by (by rewrite length_take, length_drop).
    rewrite <-Nat2N.inj_add, Hlen in *.
    replace (take (total + n) d) with (take (total + min n (length d - total)) d).
    + apply IH; [lia|lia|done].
    + destruct (decide (n ≤ length d - total)); [by rewrite Nat.min_l|].
      rewrite Nat.min_r, !take_ge by lia. done.
Qed.

Context (final_dir : is_dir s (parent final) = true) (mine_final : mine ≠ final).
Context (inos : ∀ p j, fs_tree s !! p = Some (NFile j) → j < ino).

(** The chunk found under the final name. *)
Definition existing_chunk (existing : option (list byte)) : Prop :=
  match existing with
  | None => fs_tree s !! final = None
  | Some d => ∃ j, fs_tree s !! final = Some (NFile j) ∧ fs_data s !! j = Some d
  end.

Definition matches (bs : list byte) (existing : option (list byte)) : bool :=
  match existing with
  | None => true
  | Some d => bool_decide (length d = length bs) && bool_decide (sha256 d = sha256 bs)
  end.

(** The file system after the upload of [bs] is finalized. *)
Definition placed (bs : list byte) (existing : option (list byte)) (s' : fs) : Prop :=
  match existing with
  | None =>
      fs_tree s' = <[final := NFile ino]> (fs_tree s) ∧ fs_data s' = <[ino := bs]> (fs_data s)
      ∧ fs_disk_tree s' !! final = Some (NFile ino) ∧ fs_disk_data s' !! ino = Some bs
  | Some _ => removed bs s'
  end.

Lemma calmly_finalize_file fuel bs h existing Q :
  staged root mine t i max ino bs h → existing_chunk existing →
  (∀ d, existing = Some d → length d < fuel) →
  (∀ s' fc, matches bs existing = true → placed bs existing s' → Q s' (Ok fc)) →
  (∀ s', matches bs existing = false → removed bs s' →
     Q s' (Err (StorageError.FinalizedChunkConflict t i))) →
  calmly (finalize_file fuel h ino) (open_fs bs) Q.
Proof.
  intros [H1 H2 Hd H3 H4 H5 H6 H7 H8 Hbd H9 H10] Hex Hfuel Hok Herr. unfold finalize_file.
  apply calmly_try, calmly_with_err, calmly_call. intros ch1 [Hch1 _]. cbn [exec fst snd].
  rewrite Hch1. cbn [map_err].
  apply calmly_try, calmly_with_err, calmly_call. intros ch2 [Hch2 _]. cbn [exec].
  rewrite Hch2. cbn [fst snd map_err open_fs fs_data]. rewrite lookup_insert_eq.
  set (s2 := {| fs_tree := _ |}). rewrite H3, H4, Hd.
  assert (fs_tree s2 !! mine = Some (NFile ino)) as Hm2 by (unfold s2; cbn; apply lookup_insert_eq).
  assert (fs_tree s2 !! final = fs_tree s !! final) as Hf2
    by (unfold s2; cbn; by rewrite lookup_insert_ne).
  assert (is_dir s2 (parent final) = true) as Hdir2.
  { unfold is_dir, s2. cbn. rewrite lookup_insert_ne; [done|]. intros He. revert final_dir.
    unfold is_dir. by rewrite <-He, mine_new. }
  destruct existing as [d|]; simpl in Hex.
  - destruct Hex as (j & Hj & Hjd).
    apply calmly_try, calmly_bind. apply (calmly_step _ _ s2 (Err IoError.AlreadyExists)).
    { intros ch [Hch _]. cbn [exec]. by rewrite Hch, Hm2, Hf2, Hj. }
    apply calmly_ret. cbv beta iota. apply calmly_try. unfold existing_final_facts.
    apply calmly_try, calmly_with_err, calmly_bind. rewrite H3.
    apply (calmly_step _ _ s2 (Ok (NFile j))).
    { intros ch [Hch _]. cbn [exec]. by rewrite Hch, Hf2, Hj. }
    cbv beta iota. apply calmly_try, calmly_with_err, (calmly_step _ _ s2 (Ok (NFile j))).
    { intros ch [Hch _]. cbn [exec]. by rewrite Hch. }
    apply calmly_ret. cbn [map_err]. apply calmly_try, calmly_with_err.
    assert (j < ino) as Hlt by (by eapply inos).
    apply (calmly_scan_loop fuel j d 0);
      [unfold s2; cbn; rewrite lookup_insert_ne by lia; done|lia|specialize (Hfuel d eq_refl); lia|].
    cbn [map_err fst snd sf_size sf_digest]. apply calmly_ret. cbv beta iota. apply calmly_bind.
    apply (calmly_remove s2 bs); [by left|done|]. intros s' r Hr. apply calmly_ret.
    rewrite H6. unfold hasher_finalize. rewrite H9, H1, H2. cbn [sf_size sf_digest].
    replace (N.of_nat (length d) =? N.of_nat (length bs))%N
      with (bool_decide (length d = length bs)).
    2: { apply eq_true_iff_eq. rewrite bool_decide_eq_true, N.eqb_eq. lia. }
    simpl in Hok, Herr. case_match eqn:Hm; [by apply Hok|by apply Herr].
  - set (s3 := with_tree s2 (<[final := NFile ino]> (fs_tree s2))).
    apply calmly_try, calmly_bind. apply (calmly_step _ _ s3 (Ok ())).
    { intros ch [Hch _]. cbn [exec]. by rewrite Hch, Hm2, Hf2, Hex, Hdir2. }
    apply calmly_ret. cbv beta iota. apply calmly_try, calmly_with_err, calmly_call.
    intros ch [Hch _]. cbn [exec]. rewrite Hch.
    assert (is_dir s3 (chunks_dir root t) = true) as Hdir3.
    { unfold is_dir, s3. cbn. unfold final_path, parent in *.
      rewrite length_app, Nat.add_sub, take_app_length in Hdir2. revert Hdir2.
      unfold is_dir. cbn. rewrite (lookup_insert_ne _ (_ ++ _)); [done|].
      intros He. apply (f_equal length) in He. rewrite length_app in He. simpl in He. lia. }
    rewrite Hdir3. cbn [fst snd map_err]. set (s4 := {| fs_tree := fs_tree s3 |}).
    apply calmly_bind, (calmly_step _ _ (with_tree s4 (delete mine (fs_tree s4))) (Ok ())).
    { intros ch' [Hch' _]. cbn [exec]. rewrite Hch'.
      replace (fs_tree s4 !! mine) with (Some (NFile ino)); [done|].
      unfold s4, s3. cbn [fs_tree with_tree]. by rewrite lookup_insert_ne. }
    apply calmly_ret. apply Hok; [done|]. split_and!; cbn.
    + rewrite delete_insert_ne by done. by rewrite delete_insert_id.
    + done.
    + apply lookup_union_Some_raw. left. apply map_lookup_filter_Some. cbn.
      split; [apply lookup_insert_eq|]. unfold final_path. apply parent_snoc.
    + apply lookup_insert_eq.
Qed.

Lemma calmly_finalize fuel bs h existing Q :
  staged root mine t i max ino bs h → bs ≠ [] → existing_chunk existing →
  (∀ d, existing = Some d → length d < fuel) →
  (∀ s' fc, matches bs existing = true → placed bs existing s' → Q s' (Ok fc)) →
  (∀ s', matches bs existing = false → removed bs s' →
     Q s' (Err (StorageError.FinalizedChunkConflict t i))) →
  calmly (finalize fuel h) (open_fs bs) Q.
Proof.
  intros Hh Hne Hex Hfuel Hok Herr. pose proof Hh as [H1 H2 Hd H3 H4 H5 H6 H7 H8 Hbd H9 H10].
  unfold finalize, finalize_inner. apply calmly_bind. rewrite H10, H6, H5.
  rewrite (proj2 (N.eqb_neq _ _)) by (destruct bs; simpl; [done|lia]).
  apply calmly_bind, (calmly_finalize_file fuel bs h existing); [done..| |].
  - intros s' fc Hm Hp. cbn. by apply Hok.
  - intros s' Hm [Ht Hda]. apply calmly_ret. cbv beta iota. apply calmly_bind.
    eapply (calmly_discard_staging _ _ bs); [done|by right|done|]. intros s'' Hr. cbn. by apply Herr.
Qed.

(** From the open staging file to the answer. *)
Lemma calmly_finish fuel bs h existing declared Q :
  staged root mine t i max ino bs h → existing_chunk existing →
  (∀ d, existing = Some d → length d < fuel) →
  (∀ s', match body_answer declared bs existing with
         | StageOutcome.Finalized _ _ => placed bs existing s'
         | _ => removed bs s'
         end → Q s' (body_answer declared bs existing)) →
  calmly (finish_stage fuel declared h) (open_fs bs) Q.
Proof.
  intros Hh Hex Hfuel HQ. pose proof Hh as [H1 H2 Hd H3 H4 H5 H6 H7 H8 Hbd H9 H10].
  assert (∀ o, (∀ s', removed bs s' → Q s' o) →
            calmly (_ ← discard h; mret o) (open_fs bs) Q) as Hdisc.
  { intros o Ho. apply calmly_bind. eapply (calmly_discard _ _ bs); [done|by left|done|].
    intros s' Hr. apply calmly_ret. by apply Ho. }
  unfold finish_stage. rewrite H6. unfold body_answer in HQ.
  destruct (decide (bs = [])) as [->|Hne]; [by apply Hdisc|].
  rewrite (proj2 (N.eqb_neq _ _)) by (destruct bs; simpl; [done|lia]).
  unfold to_base64url_no_pad, staging_digest, hasher_finalize. rewrite H9.
  destruct bs as [|b bs']; [done|]. set (bs := b :: bs') in *. set (digest := b64_encode _) in *.
  destruct (bool_decide (digest = declared)); cbn [negb] in *; [|by apply Hdisc].
  rewrite (proj2 (N.ltb_ge _ _)) by lia.
  apply calmly_bind, (calmly_finalize fuel bs h existing); [done..| |].
  - intros s' fc Hm Hp. apply calmly_ret. destruct existing as [d|]; cbn [matches] in Hm.
    + rewrite Hm in HQ. by apply HQ.
    + by apply HQ.
  - intros s' Hm Hr. apply calmly_ret. destruct existing as [d|]; cbn [matches] in Hm; [|done].
    rewrite Hm in HQ. by apply HQ.
Qed.
End StageExact.

Section UploadExact.
Context {b64 : Base64} {sha : Sha256} {disp : UuidDisplay} {simple : UuidSimple} (root : path).

(** The store has its [transfers] directory, the directories of the transfer exist or are
    free, the drawn staging name is free, and [existing] is the finalized chunk, if any. *)
Record upload_ready (s : fs) (t : Uuid) (i : N) (drawn : Uuid) (existing : option (list byte))
  : Prop := {
  ur_root : is_dir s (root ++ [TRANSFERS_DIR]) = true;
  ur_dirs p : p ∈ [transfer_dir root t; chunks_dir root t; chunks_dir root t ++ [STAGING_DIR]] →
    is_dir s p = true ∨ fs_tree s !! p = None;
  ur_new : fs_tree s !! staging_path root t i drawn = None;
  ur_inos p j : fs_tree s !! p = Some (NFile j) → j < fs_next s;
  ur_existing : existing_chunk root t i s existing;
}.

Lemma calmly_ensure_next p x s Q :
  is_dir s p = true → (is_dir s (p ++ [x]) = true ∨ fs_tree s !! (p ++ [x]) = None) →
  (∀ s', is_dir s' (p ++ [x]) = true →
     (∀ q, q ≠ p ++ [x] → fs_tree s' !! q = fs_tree s !! q) →
     fs_data s' = fs_data s → fs_next s' = fs_next s → Q s' (Ok ())) →
  calmly (ensure_worker_dir (p ++ [x])) s Q.
Proof.
  intros Hp Hx HQ. apply calmly_ensure_dir; [by destruct p| |done].
  rewrite parent_snoc. destruct Hx; [by left|by right].
Qed.

(** [s'] is [s] but for directories at the paths [ps]. *)
Definition dirs_added (ps : list path) (s s' : fs) : Prop :=
  (∀ p, p ∈ ps → is_dir s' p = true) ∧ (∀ p, p ∉ ps → fs_tree s' !! p = fs_tree s !! p)
  ∧ fs_data s' = fs_data s ∧ fs_next s' = fs_next s.

Definition stage_dirs (t : Uuid) : list path :=
  [transfer_dir root t; chunks_dir root t; chunks_dir root t ++ [STAGING_DIR]].

Lemma calmly_begin t i max drawn s existing Q :
  (max < u64_max)%N → upload_ready s t i drawn existing →
  (∀ s' h, dirs_added (stage_dirs t) s s' →
     staged root (staging_path root t i drawn) t i max (fs_next s') [] h →
     Q (open_fs (staging_path root t i drawn) s' []) (Ok h)) →
  calmly (begin_stage root t i max drawn) s Q.
Proof.
  intros Hmax [Hroot Hdirs Hnew Hinos Hex] HQ. unfold begin_stage. apply calmly_try.
  set (p1 := transfer_dir root t) in *. set (p2 := chunks_dir root t) in *.
  set (p3 := p2 ++ [STAGING_DIR]) in *. set (mine := staging_path root t i drawn) in *.
  assert (p1 ≠ p2 ∧ p1 ≠ p3 ∧ p2 ≠ p3 ∧ mine ≠ p1 ∧ mine ≠ p2 ∧ mine ≠ p3)
    as (H12 & H13 & H23 & Hm1 & Hm2 & Hm3).
  { assert (length p2 = S (length p1) ∧ length p3 = S (length p2) ∧ length mine = S (length p3))
      as (? & ? & ?).
    { unfold p3, p2, p1, mine, staging_path, chunks_dir. rewrite !length_app. simpl. lia. }
    split_and!; intros He; apply (f_equal length) in He; lia. }
  unfold p1 at 1, transfer_dir. apply calmly_ensure_next; [done|apply (Hdirs p1); by left|].
  intros s1 Hd1 Ht1 Hda1 Hn1. fold p1 in Hd1, Ht1. apply calmly_try.
  apply calmly_ensure_next; [done| |].
  { fold p2. unfold is_dir. rewrite Ht1 by done. apply (Hdirs p2). by right; left. }
  intros s2 Hd2 Ht2 Hda2 Hn2. fold p2 in Hd2, Ht2. apply calmly_try.
  apply calmly_ensure_next; [done| |].
  { fold p3. unfold is_dir. rewrite Ht2, Ht1 by done. apply (Hdirs p3). by right; right; left. }
  intros s3 Hd3 Ht3 Hda3 Hn3. fold p3 in Hd3, Ht3.
  assert (dirs_added (stage_dirs t) s s3) as Hadd.
  { split_and!; [| |congruence|congruence].
    - intros p [->|[->|[->|[]%elem_of_nil]%elem_of_cons]%elem_of_cons]%elem_of_cons; fold p1 p2 p3.
      + unfold is_dir. by rewrite Ht3, Ht2 by done.
      + unfold is_dir. by rewrite Ht3 by done.
      + done.
    - unfold stage_dirs. fold p1 p2 p3. intros p Hp. rewrite !not_elem_of_cons in Hp.
      destruct Hp as (? & ? & ? & _). by rewrite Ht3, Ht2, Ht1 by done. }
  assert (fs_tree s3 !! mine = None) as Hm by (by rewrite Ht3, Ht2, Ht1 by done).
  apply calmly_try, calmly_with_err.
  apply (calmly_step (CreateNew mine) _ (open_fs mine s3 []) (Ok (fs_next s3))).
  { intros ch [Hch _]. cbn [exec]. rewrite Hch, Hm.
    replace (parent mine) with p3 by (symmetry; apply parent_snoc). by rewrite Hd3. }
  apply calmly_ret. apply HQ; [done|]. split; try done. cbn. lia.
Qed.

Lemma contents_dirs s s' ps p :
  dirs_added ps s s' → (∀ p, p ∈ ps → is_dir s p = true ∨ fs_tree s !! p = None) →
  contents s' p = contents s p.
Proof.
  intros (Hd & Ht & Hda & _) Hps. unfold contents. destruct (decide (p ∈ ps)) as [Hin|Hin].
  - specialize (Hd p Hin). specialize (Hps p Hin). unfold is_dir in *.
    destruct (fs_tree s' !! p) as [[]|]; try done. destruct Hps as [Hps|Hps].
    + destruct (fs_tree s !! p) as [[]|]; done.
    + by rewrite Hps.
  - by rewrite Ht, Hda.
Qed.

Lemma contents_removed s s' bs p :
  (∀ q j, fs_tree s !! q = Some (NFile j) → j < fs_next s) → removed s bs s' →
  contents s' p = contents s p.
Proof.
  intros Hinos [Ht Hd]. unfold contents. rewrite Ht, Hd.
  destruct (fs_tree s !! p) as [[j| |]|] eqn:Hp; try done.
  rewrite lookup_insert_ne; [done|]. apply Hinos in Hp. lia.
Qed.

Lemma existing_contents t i s existing :
  existing_chunk root t i s existing → contents s (final_path root t i) = existing.
Proof.
  unfold existing_chunk, contents. destruct existing; [by intros (j & -> & ->)|by intros ->].
Qed.

Lemma contents_placed t i s s' bs :
  (∀ q j, fs_tree s !! q = Some (NFile j) → j < fs_next s) → placed root t i s bs None s' →
  contents s' (final_path root t i) = Some bs ∧
  (∀ p, p ≠ final_path root t i → contents s' p = contents s p).
Proof.
  intros Hinos (Ht & Hd & _ & _). unfold contents. rewrite Ht, Hd. split.
  { by rewrite !lookup_insert_eq. }
  intros p Hp. rewrite lookup_insert_ne by done.
  destruct (fs_tree s !! p) as [[j| |]|] eqn:Hpj; try done.
  rewrite lookup_insert_ne; [done|]. apply Hinos in Hpj. lia.
Qed.

(** The entry and the contents are synced, so they outlive the power. *)
Lemma placed_durable t i s s' bs keep garbage :
  placed root t i s bs None s' →
  contents (power_loss keep garbage s') (final_path root t i) = Some bs.
Proof.
  intros (Ht & Hd & Hdt & Hdd). generalize dependent (final_path root t i). intros f Ht Hdt.
  unfold contents, power_loss. cbn.
  assert (fs_tree s' !! f = Some (NFile (fs_next s))) as Htf
    by (rewrite Ht; apply lookup_insert_eq).
  replace (_ !! f) with (Some (NFile (fs_next s))).
  - rewrite map_lookup_imap, Hd, lookup_insert_eq. simpl. by rewrite decide_True.
  - symmetry. apply lookup_union_Some_raw. rewrite !map_lookup_filter_Some, map_lookup_filter_None.
    cbn. destruct (keep f) eqn:Hk; [by left|]. right. split; [|done].
    right. intros x _ H. simpl in H. congruence.
Qed.

Lemma accept_body_refused max have rx n d : accept_body max have rx ≠ Err (StageOutcome.Finalized n d).
Proof.
  revert have. induction rx as [|[buf|] rx IH]; intros have; simpl; [done| |done].
  case_match; [done|apply IH].
Qed.

Lemma stage_dirs_other t i p :
  length p = length root + 5 ∨ p = final_path root t i → p ∉ stage_dirs t.
Proof.
  intros Hp. unfold stage_dirs. rewrite !not_elem_of_cons. split_and!; try apply not_elem_of_nil;
    intros ->; unfold final_path, chunks_dir, transfer_dir in *; rewrite ?length_app in Hp;
    simpl in Hp; destruct Hp as [Hp|Hp]; try lia;
    try (apply (f_equal length) in Hp; rewrite !length_app in Hp; simpl in Hp; lia).
  apply app_inj_2 in Hp as [_ [= Hp]]; [|done].
  symmetry in Hp. by apply final_name_not_staging in Hp.
Qed.

(** What the staging file finds once its directories are there. *)
Lemma ready_dirs s s1 t i drawn existing :
  upload_ready s t i drawn existing → dirs_added (stage_dirs t) s s1 →
  fs_tree s1 !! staging_path root t i drawn = None ∧ existing_chunk root t i s1 existing ∧
  (∀ q j, fs_tree s1 !! q = Some (NFile j) → j < fs_next s1) ∧
  is_dir s1 (parent (final_path root t i)) = true ∧ (∀ p, contents s1 p = contents s p).
Proof.
  intros [Hroot Hdirs Hnew Hinos Hex] Hadd. pose proof Hadd as (Hd1 & Ht1 & Hda1 & Hn1).
  split_and!.
  - rewrite Ht1; [done|]. apply (stage_dirs_other t i). left. apply length_staging_path.
  - unfold existing_chunk in *. rewrite Ht1, Hda1 by (apply (stage_dirs_other t i); by right). done.
  - intros q j Hq. rewrite Hn1. destruct (decide (q ∈ stage_dirs t)) as [Hin|Hin].
    + apply Hd1 in Hin. unfold is_dir in Hin. by rewrite Hq in Hin.
    + rewrite Ht1 in Hq by done. by eapply Hinos.
  - unfold final_path. rewrite parent_snoc. apply Hd1. by right; left.
  - intros p. eapply contents_dirs; [done|]. by apply Hdirs.
Qed.

End UploadExact.
