(* ===== verification/StorageSystem.v ===== *)
(** * Runs of the Worker's storage

    Threads that stage bodies, inspect chunks and rebuild digests, interleaved call by call;
    startup, restarts of the process and loss of power at any point. Every run keeps the
    invariant [store_ok]: finalized files are complete, synced and what some request
    declared, and every thread still follows its discipline. *)

From stdpp Require Import prelude gmap strings.
From Stdlib Require Import Strings.Byte NArith ZArith.
From S2P Require Import Prelude.
From S2P Require Import External.
From S2P Require Import Runtime.
From S2P Require Import FileSystem.
From S2P Require Import StorageLogic.
From S2P Require Import WorkerStorage.
From S2P Require Import StoragePrograms.

Module Task.
Inductive t : Type :=
| Stage (request : StageRequest) (rx : list PumpMessage.t)
| Inspect (transfer_id : Uuid) (chunk_index : N)
| Compute (request : FullArtifactRequest).
End Task.

Module TaskResult.
Inductive t : Type :=
| Staged (outcome : StageOutcome.t)
| Inspected (r : result StorageError.t StoredChunkFacts)
| Computed (r : result FullArtifactError.t FullArtifactDigest).
End TaskResult.

(** What happens: a call of startup or of a thread, with what the operating system decides;
    the start of a task; the end of startup; a restart of the process; a loss of power, of
    which entries survive as last seen (the others as last synced) and what is left of
    contents that were not synced. *)
Module Event.
Inductive t : Type :=
| Boot (ch : choice)
| Ready
| Spawn (task : Task.t)
| Thread (i : nat) (ch : choice)
| Restart
| PowerLoss (keep : path → bool) (garbage : nat → list byte).
End Event.

Record store : Type := {
  so_fs : fs;
  so_boot : option (proc (result StorageError.t path));
  so_threads : gmap nat (proc TaskResult.t);
  so_tasks : list Task.t;
}.

Section System.
Context {b64 : Base64} {sha : Sha256} {disp : UuidDisplay} {simple : UuidSimple} {ent : Entropy}.
(** The configured root, the bound on the iterations of a scan, and the largest chunk size
    requested. *)
Context (name : str) (fuel : nat) (limit : N).
#[local] Abbreviation root := (path_of name).

Definition task_proc (task : Task.t) (drawn : Uuid) : proc TaskResult.t :=
  match task with
  | Task.Stage request rx => o ← stage_worker fuel root request rx drawn; mret (TaskResult.Staged o)
  | Task.Inspect t i => r ← inspect_final fuel root t i; mret (TaskResult.Inspected r)
  | Task.Compute request => r ← compute root request; mret (TaskResult.Computed r)
  end.

Definition valid_task (task : Task.t) : bool :=
  match task with
  | Task.Stage request _ => (sr_chunk_size request <=? limit)%N
  | _ => true
  end.

Definition start (s : fs) (tasks : list Task.t) : store :=
  {| so_fs := s; so_boot := Some (initialize name); so_threads := ∅; so_tasks := tasks |}.

(** Events that do not apply change nothing. The [i]-th task ever started draws the
    [i]-th UUID. *)
Definition happen (st : store) (e : Event.t) : store :=
  match e with
  | Event.Boot ch =>
      match so_boot st with
      | Some (Call c k) =>
          let '(s', r) := exec c ch (so_fs st) in
          {| so_fs := s'; so_boot := Some (k r); so_threads := so_threads st;
             so_tasks := so_tasks st |}
      | _ => st
      end
  | Event.Ready =>
      match so_boot st with
      | Some (Ret (Ok _)) =>
          {| so_fs := so_fs st; so_boot := None; so_threads := so_threads st;
             so_tasks := so_tasks st |}
      | _ => st
      end
  | Event.Spawn task =>
      match so_boot st with
      | None =>
          if valid_task task
          then let i := length (so_tasks st) in
               {| so_fs := so_fs st; so_boot := None;
                  so_threads := <[i := task_proc task (draw_uuid i)]> (so_threads st);
                  so_tasks := so_tasks st ++ [task] |}
          else st
      | Some _ => st
      end
  | Event.Thread i ch =>
      match so_threads st !! i with
      | Some (Call c k) =>
          let '(s', r) := exec c ch (so_fs st) in
          {| so_fs := s'; so_boot := so_boot st; so_threads := <[i := k r]> (so_threads st);
             so_tasks := so_tasks st |}
      | _ => st
      end
  | Event.Restart => start (so_fs st) (so_tasks st)
  | Event.PowerLoss keep garbage => start (power_loss keep garbage (so_fs st)) (so_tasks st)
  end.

Fixpoint happens (st : store) (es : list Event.t) : store :=
  match es with [] => st | e :: es => happens (happen st e) es end.

(** ** The invariant *)

(** A finalized file is what a request for its place declared. *)
Definition declared_by (tasks : list Task.t) (p : path) (d : list byte) : Prop :=
  ∃ r rx, Task.Stage r rx ∈ tasks ∧ valid_task (Task.Stage r rx) = true ∧ p = final_path root (sr_transfer_id r) (sr_chunk_index r)
    ∧ declares r d.

Definition task_path (task : Task.t) (i : nat) : path :=
  match task with
  | Task.Stage r _ => staging_path root (sr_transfer_id r) (sr_chunk_index r) (draw_uuid i)
  | _ => root ++ [[]; []; []; []; uuid_simple (draw_uuid i)]
  end.

Definition task_place (task : Task.t) (p : path) (d : list byte) : Prop :=
  match task with
  | Task.Stage r _ => p = final_path root (sr_transfer_id r) (sr_chunk_index r) ∧ declares r d
  | _ => False
  end.

(** What the result of a task says. *)
Definition task_post (task : Task.t) (g : ghost) (res : TaskResult.t) : Prop :=
  match task, res with
  | Task.Stage r rx, TaskResult.Staged (StageOutcome.Finalized n digest) =>
      ∃ dis, n = N.of_nat (length (data_of rx)) ∧ digest = sr_declared_digest r ∧ complete rx ∧
        declares r (data_of rx) ∧
        finalized_as g (final_path root (sr_transfer_id r) (sr_chunk_index r)) (data_of rx) dis
  | Task.Stage _ _, TaskResult.Staged _ => True
  | Task.Inspect t i, TaskResult.Inspected (Ok f) =>
      ∃ ino d, (final_path root t i, ino, d) ∈ g_known g
        ∧ f = {| sf_size := N.of_nat (length d); sf_digest := sha256 d |}
  | Task.Inspect _ _, TaskResult.Inspected (Err _) => True
  | Task.Compute r, TaskResult.Computed (Ok f) =>
      ∃ ds, length ds = N.to_nat (fr_chunk_count r) ∧ read_chunks root g (fr_transfer_id r) ds
        ∧ chunk_sizes (N.to_nat (fr_chunk_count r)) (fr_chunk_size r) ds
        ∧ f = {| fd_transfer_id := fr_transfer_id r; fd_chunk_count := fr_chunk_count r;
                 fd_total_size := total_length ds; fd_digest := sha256 (concat ds) |}
  | Task.Compute _, TaskResult.Computed (Err _) => True
  | _, _ => False
  end.

Definition within_limit (p : path) (d : list byte) : Prop := (N.of_nat (length d) ≤ limit)%N.

Definition wp_task (task : Task.t) (i : nat) (g : ghost) (p : proc TaskResult.t) : Prop :=
  wp (is_final root) (eq (task_path task i)) (task_path task i) (task_place task) within_limit
    g p (task_post task).

Definition boot_names (p : path) : Prop := length p = length root + 5.

Definition boot_path : path := root ++ [[]; []; []; []; []].

Record store_ok (st : store) : Prop := {
  ok_fs : fs_ok (is_final root) (declared_by (so_tasks st)) (so_fs st);
  ok_boot p : so_boot st = Some p → so_threads st = ∅ ∧ ∃ g,
    ghost_ok (is_final root) (so_fs st) boot_path g ∧
    wp (is_final root) boot_names boot_path (λ _ _, False) within_limit g p (λ _ _, True);
  ok_threads i p : so_threads st !! i = Some p → ∃ task g, so_tasks st !! i = Some task ∧ valid_task task = true ∧
    ghost_ok (is_final root) (so_fs st) (task_path task i) g ∧ wp_task task i g p;
}.

(** [chunk_size] is a [u32], and scans run long enough for it. *)
Context (limit_u32 : (limit < 2 ^ 32)%N) (fuel_enough : N.to_nat limit < fuel).

Lemma wp_task_proc task i :
  valid_task task = true →
  ∃ o, (o = ONone ∨ o = OGone) ∧ wp_task task i (unlearned o) (task_proc task (draw_uuid i)).
Proof.
  intros Hv. assert (∀ p d, within_limit p d → length d < fuel) as Hshort.
  { unfold within_limit. intros p d Hd. lia. }
  unfold wp_task, task_proc. destruct task as [r rx|t j|r].
  - exists ONone. split; [by left|]. apply N.leb_le in Hv. apply wp_proc_bind.
    apply wp_stage_worker; [done|done|done|lia|by split| |].
    + intros g o Ho. apply wp_ret. destruct o; try done. by destruct (Ho size digest).
    + intros g dis Hc Hd Hf. apply wp_ret. exists dis. by split_and!.
  - exists OGone. split; [by right|]. apply wp_proc_bind. apply wp_inspect_final; [done|..].
    + intros g e. by apply wp_ret.
    + intros ino d. apply wp_ret. exists ino, d. split; [by left|done].
  - exists OGone. split; [by right|]. apply wp_proc_bind. apply wp_compute.
    + intros g e. by apply wp_ret.
    + intros g ds count Hl Hr Hs. apply wp_ret. exists ds. by split_and!.
Qed.

(** ** Runs keep it *)

Context {disp_laws : UuidDisplayLaws} {simple_laws : UuidSimpleLaws}.

Lemma task_path_length task i : length (task_path task i) = length root + 5.
Proof. destruct task; simpl; [apply length_staging_path|by rewrite length_app..]. Qed.

Lemma task_path_inj task i task' j :
  task_path task i = task_path task' j → draw_uuid i = draw_uuid j.
Proof.
  assert (∀ r, staging_path root (sr_transfer_id r) (sr_chunk_index r) (draw_uuid i)
            ≠ root ++ [[]; []; []; []; uuid_simple (draw_uuid j)]) as Hne.
  { intros r. unfold staging_path, chunks_dir, transfer_dir. rewrite <-!app_assoc.
    by intros [= ?]%app_inv_head. }
  assert (∀ r, root ++ [[]; []; []; []; uuid_simple (draw_uuid i)]
            ≠ staging_path root (sr_transfer_id r) (sr_chunk_index r) (draw_uuid j)) as Hne'.
  { intros r. unfold staging_path, chunks_dir, transfer_dir. rewrite <-!app_assoc.
    by intros [= ?]%app_inv_head. }
  destruct task, task'; simpl; intros H; try (by apply Hne in H); try (by apply Hne' in H);
    [by eapply staging_path_inj|..]; apply app_inv_head in H; injection H as Hs;
    by apply uuid_simple_inj.
Qed.

Lemma task_place_found tasks task i p d :
  tasks !! i = Some task → valid_task task = true → task_place task p d → declared_by tasks p d.
Proof.
  intros Hi Hv Hp. destruct task as [r rx|t j|r]; try done. destruct Hp as [-> Hd].
  exists r, rx. split_and!; [by eapply list_elem_of_lookup_2|done|done|done].
Qed.

Lemma declared_within tasks p d : declared_by tasks p d → within_limit p d.
Proof.
  intros (r & rx & _ & Hv & _ & _ & Hl). unfold within_limit. simpl in Hv.
  apply N.leb_le in Hv. lia.
Qed.

Lemma fs_ok_mono found found' s :
  (∀ p d, found p d → found' p d) → fs_ok (is_final root) found s → fs_ok (is_final root) found' s.
Proof.
  intros Hm [H1 H2 H3 H4]. split; [done| |done|done]. intros p ino Hf Hp.
  destruct (H2 p ino Hf Hp) as (d & ? & ? & ?). exists d. by eauto.
Qed.

Lemma unlearned_ok s mine o :
  o = ONone ∨ o = OGone → ghost_ok (is_final root) s mine (unlearned o).
Proof. intros [-> | ->]; split; simpl; try done; by intros ? ?%elem_of_nil. Qed.

(** Startup from any file system. *)
Lemma start_ok s tasks :
  fs_ok (is_final root) (declared_by tasks) s → store_ok (start s tasks).
Proof.
  intros Hs. split; simpl; [done| |by intros i p; rewrite lookup_empty].
  intros p [= <-]. split; [done|]. exists (unlearned OGone). split; [by apply unlearned_ok; right|].
  apply (wp_initialize root boot_names boot_path); try done.
Qed.

Lemma power_loss_ok found keep garbage s :
  fs_ok (is_final root) found s → fs_ok (is_final root) found (power_loss keep garbage s).
Proof.
  intros [H1 H2 H3 H4].
  assert (∀ p ino, is_final root p → fs_tree (power_loss keep garbage s) !! p = Some (NFile ino) →
            fs_tree s !! p = Some (NFile ino)) as Hfin.
  { intros p ino Hf. simpl. rewrite lookup_union_Some_raw, !map_lookup_filter_Some.
    intros [[? _]|[_ [? _]]]; [done|]. by apply H3. }
  assert (∀ p ino, fs_tree (power_loss keep garbage s) !! p = Some (NFile ino) →
            ino < fs_next s) as Hnext.
  { intros p ino. simpl. rewrite lookup_union_Some_raw, !map_lookup_filter_Some.
    intros [[? _]|[_ [? _]]]; by eauto. }
  split; [done|intros p ino Hf Hp|done|done].
  destruct (H2 p ino Hf (Hfin _ _ Hf Hp)) as (d & Hd & Hdd & Hfound). exists d. simpl.
  rewrite map_lookup_imap, Hd. simpl. by rewrite decide_True.
Qed.

Lemma boot_names_final p : boot_names p → ¬ is_final root p.
Proof. apply staging_not_final. Qed.

Lemma task_names_final task i p : task_path task i = p → ¬ is_final root p.
Proof. intros <-. apply staging_not_final, task_path_length. Qed.

Lemma boot_step st {R} (c : sys R) k ch s' r :
  store_ok st → so_boot st = Some (Call c k) → exec c ch (so_fs st) = (s', r) →
  store_ok {| so_fs := s'; so_boot := Some (k r); so_threads := so_threads st;
              so_tasks := so_tasks st |} ∧ guar boot_names (so_fs st) s'.
Proof.
  intros [Hfs Hboot Hth] Hb Hex. destruct (Hboot _ Hb) as (He & g & Hg & Hwp).
  assert (boot_names boot_path) as Hm by (unfold boot_names, boot_path; by rewrite length_app).
  destruct (call_sound (is_final root) boot_names boot_path (λ _ _, False)
              (declared_by (so_tasks st)) within_limit Hm boot_names_final ltac:(done)
              (declared_within _)
              c ch _ _ _ _ _ Hfs Hg Hwp Hex) as (g' & Hwp' & Hg' & Hfs' & Hgu).
  split; [|done]. split; simpl; [done| |by rewrite He; intros i p; rewrite lookup_empty].
  intros p [= <-]. split; [done|]. by exists g'.
Qed.

Lemma thread_step st i {R} (c : sys R) k ch s' r :
  store_ok st → fresh_draws 0 (length (so_tasks st)) →
  so_threads st !! i = Some (Call c k) → exec c ch (so_fs st) = (s', r) →
  store_ok {| so_fs := s'; so_boot := so_boot st; so_threads := <[i := k r]> (so_threads st);
              so_tasks := so_tasks st |} ∧
  ∃ task, guar (eq (task_path task i)) (so_fs st) s'.
Proof.
  intros [Hfs Hboot Hth] Hfresh Hi Hex. destruct (Hth _ _ Hi) as (task & g & Ht & Hv & Hg & Hwp).
  destruct (call_sound (is_final root) (eq (task_path task i)) (task_path task i)
              (task_place task) (declared_by (so_tasks st)) within_limit eq_refl
              (task_names_final task i) (λ p d, task_place_found _ task i p d Ht Hv)
              (declared_within _)
              c ch _ _ _ _ _ Hfs Hg Hwp Hex) as (g' & Hwp' & Hg' & Hfs' & Hgu).
  split; [|by exists task]. split; simpl; [done| |].
  - intros p Hb. destruct (Hboot _ Hb) as (He & _). rewrite He in Hi. by rewrite lookup_empty in Hi.
  - intros j p. rewrite lookup_insert_Some. intros [[<- <-]|[Hne Hj]]; [by exists task, g'|].
    destruct (Hth _ _ Hj) as (task' & g2 & Ht' & Hv2 & Hg2 & Hwp2). exists task', g2.
    split_and!; [done|done| |done].
    apply (ghost_frame (is_final root) (eq (task_path task i)) (declared_by (so_tasks st))
             (so_fs st) s'); [apply task_names_final|done|done| |done].
    intros Heq%task_path_inj. apply Hne.
    eapply (fresh_draws_inj (length (so_tasks st))); [done|by eapply lookup_lt_Some..|done].
Qed.

Lemma spawn_ok st task :
  store_ok st → so_boot st = None → valid_task task = true →
  let i := length (so_tasks st) in
  store_ok {| so_fs := so_fs st; so_boot := None;
              so_threads := <[i := task_proc task (draw_uuid i)]> (so_threads st);
              so_tasks := so_tasks st ++ [task] |}.
Proof.
  intros [Hfs Hboot Hth] Hb Hv i. split; simpl; [|done|].
  - eapply fs_ok_mono; [|done]. intros p d (r & rx & Hin & ?). exists r, rx.
    split; [|done]. apply elem_of_app. by left.
  - intros j p. rewrite lookup_insert_Some. intros [[<- <-]|[Hne Hj]].
    + destruct (wp_task_proc task i Hv) as (o & Ho & Hwp). exists task, (unlearned o).
      split_and!; [by apply list_lookup_middle|done|by apply unlearned_ok|done].
    + destruct (Hth _ _ Hj) as (task' & g & Ht & ?). exists task', g. split; [|done].
      by apply lookup_app_l_Some.
Qed.

Lemma happen_tasks st e :
  ∃ l, so_tasks (happen st e) = so_tasks st ++ l.
Proof.
  destruct e as [ch| |task|i ch| |keep garbage]; simpl; try (by exists []; rewrite app_nil_r).
  - exists []. rewrite app_nil_r. repeat case_match; done.
  - exists []. rewrite app_nil_r. repeat case_match; done.
  - repeat case_match; try (by exists []; rewrite app_nil_r). by exists [task].
  - exists []. rewrite app_nil_r. repeat case_match; done.
Qed.

Lemma happen_ok st e :
  store_ok st → fresh_draws 0 (length (so_tasks (happen st e))) → store_ok (happen st e).
Proof.
  intros Hok Hfresh. pose proof (happen_tasks st e) as [l Hl].
  assert (fresh_draws 0 (length (so_tasks st))) as Hf0.
  { eapply fresh_draws_mono; [|done]. rewrite Hl, length_app. lia. }
  destruct e as [ch| |task|i ch| |keep garbage]; simpl.
  - destruct (so_boot st) as [[| | |]|] eqn:Hb; try done.
    destruct (exec c ch (so_fs st)) as [s' r] eqn:Hex. by eapply boot_step.
  - destruct (so_boot st) as [[[]| | |]|] eqn:Hb; try done. destruct Hok as [H1 H2 H3].
    by split.
  - destruct (so_boot st) eqn:Hb; [done|]. destruct (valid_task task) eqn:Hv; [|done].
    by apply spawn_ok.
  - destruct (so_threads st !! i) as [[| | |]|] eqn:Hi; try done.
    destruct (exec c ch (so_fs st)) as [s' r] eqn:Hex. by eapply thread_step.
  - apply start_ok, ok_fs, Hok.
  - apply start_ok, power_loss_ok, ok_fs, Hok.
Qed.

Lemma happens_tasks st es : ∃ l, so_tasks (happens st es) = so_tasks st ++ l.
Proof.
  revert st. induction es as [|e es IH]; intros st; simpl; [exists []; by rewrite app_nil_r|].
  destruct (IH (happen st e)) as [l ->]. destruct (happen_tasks st e) as [l' ->].
  exists (l' ++ l). by rewrite app_assoc.
Qed.

Lemma happens_ok st es :
  store_ok st → fresh_draws 0 (length (so_tasks (happens st es))) → store_ok (happens st es).
Proof.
  revert st. induction es as [|e es IH]; intros st Hok Hf; simpl in *; [done|].
  apply IH; [|done]. apply happen_ok; [done|].
  destruct (happens_tasks (happen st e) es) as [l Hl].
  eapply fresh_draws_mono; [|done]. rewrite Hl, length_app. lia.
Qed.
End System.
