(* ===== verification/StorageTheorems.v ===== *)
(** * Properties of the Worker's chunk storage

    Over every interleaving of uploads, inspections and reconstructions, with failing calls,
    restarts and (where said) loss of power: finalized chunks are complete and never change,
    the answers of the tasks are true of them, every task finishes. What startup recognises
    and discards is in the file StorageStartup. *)

From stdpp Require Import prelude gmap strings pretty.
From Stdlib Require Import Strings.Byte NArith ZArith.
From S2P Require Import Prelude.
From S2P Require Import External.
From S2P Require Import Runtime.
From S2P Require Import FileSystem.
From S2P Require Import StorageLogic.
From S2P Require Import WorkerStorage.
From S2P Require Import StoragePrograms.
From S2P Require Import StorageSystem.

(** A file system without finalized chunks. *)
Record clean `{UuidDisplay} (root : path) (s : fs) : Prop := {
  cl_tree p ino : fs_tree s !! p = Some (NFile ino) → ino < fs_next s;
  cl_disk p ino : fs_disk_tree s !! p = Some (NFile ino) → ino < fs_next s;
  cl_no_final t i ino : fs_tree s !! final_path root t i ≠ Some (NFile ino)
    ∧ fs_disk_tree s !! final_path root t i ≠ Some (NFile ino);
}.

Section StorageProperties.
Context {b64 : Base64} {sha : Sha256} {disp : UuidDisplay} {simple : UuidSimple} {ent : Entropy}.
Context {disp_laws : UuidDisplayLaws} {simple_laws : UuidSimpleLaws}.
Context (name : str) (fuel : nat) (limit : N).
#[local] Abbreviation root := (path_of name).
#[local] Abbreviation run_store := (happens name fuel limit).

(** The state after the events [es], from a clean file system. *)
Definition reached (s0 : fs) (es : list Event.t) : store := run_store (start name s0 []) es.

Definition no_power_loss (e : Event.t) : bool :=
  match e with Event.PowerLoss _ _ => false | _ => true end.

Section Assumptions.
Context (limit_u32 : (limit < 2 ^ 32)%N) (fuel_enough : N.to_nat limit < fuel).
Context (s0 : fs) (es : list Event.t) (s0_clean : clean root s0).
Context (draws_fresh : fresh_draws 0 (length (so_tasks (reached s0 es)))).

Lemma reached_ok : store_ok name limit (reached s0 es).
Proof.
  apply happens_ok; try done. apply start_ok; try done. destruct s0_clean as [H1 H2 H3].
  split; try done.
  - intros p ino (t & i & ->) Hp. by destruct (H3 t i ino).
  - intros p ino (t & i & ->) Hp. by destruct (H3 t i ino).
Qed.

Lemma contents_file s p d :
  contents s p = Some d ↔ ∃ ino, fs_tree s !! p = Some (NFile ino) ∧ fs_data s !! ino = Some d.
Proof.
  unfold contents. split.
  - intros H. repeat case_match; try done. by eexists.
  - by intros (ino & -> & ?).
Qed.

Lemma thread_result i p :
  so_threads (reached s0 es) !! i = Some (Ret p) →
  ∃ task g, so_tasks (reached s0 es) !! i = Some task ∧ task_post name task g p ∧
    ∀ q ino d, (q, ino, d) ∈ g_known g → contents (so_fs (reached s0 es)) q = Some d.
Proof.
  intros Hi. destruct (ok_threads _ _ _ reached_ok _ _ Hi) as (task & g & Ht & _ & Hg & Hwp).
  exists task, g. split_and!; [done|done|]. intros q ino d Hk. apply contents_file.
  destruct (go_known _ _ _ _ Hg _ Hk) as (_ & ? & ?). by eexists.
Qed.
End Assumptions.

Lemma happen_stable st e p ino d :
  (limit < 2 ^ 32)%N → N.to_nat limit < fuel →
  store_ok name limit st → fresh_draws 0 (length (so_tasks (happen name fuel limit st e))) →
  no_power_loss e = true → known_ok (is_final root) (so_fs st) (p, ino, d) →
  known_ok (is_final root) (so_fs (happen name fuel limit st e)) (p, ino, d).
Proof.
  intros Hlim Hfuel Hok Hf He Hk. pose proof (happen_tasks name fuel limit st e) as [l Hl].
  assert (fresh_draws 0 (length (so_tasks st))) as Hf0.
  { eapply fresh_draws_mono; [|done]. rewrite Hl, length_app. lia. }
  destruct e as [ch| |task|i ch| |]; simpl; try done.
  - destruct (so_boot st) as [[|R c k| |]|] eqn:Hb; try done.
    destruct (exec c ch (so_fs st)) as [s' r] eqn:Hex.
    destruct (boot_step name fuel limit Hlim Hfuel _ _ _ _ _ _ Hok Hb Hex) as [_ Hg].
    apply (known_frame _ _ _ (so_fs st) s' (boot_names_final name) (ok_fs _ _ _ Hok) Hg _ Hk).
  - repeat case_match; done.
  - repeat case_match; done.
  - destruct (so_threads st !! i) as [[|R c k| |]|] eqn:Hi; try done.
    destruct (exec c ch (so_fs st)) as [s' r] eqn:Hex.
    destruct (thread_step name fuel limit Hlim Hfuel _ _ _ _ _ _ _ Hok Hf0 Hi Hex) as [_ [task Hg]].
    apply (known_frame _ _ _ (so_fs st) s' (task_names_final name task i) (ok_fs _ _ _ Hok) Hg _ Hk).
Qed.

Lemma happens_stable st es p ino d :
  (limit < 2 ^ 32)%N → N.to_nat limit < fuel →
  store_ok name limit st → fresh_draws 0 (length (so_tasks (run_store st es))) →
  Forall (λ e, no_power_loss e = true) es → known_ok (is_final root) (so_fs st) (p, ino, d) →
  known_ok (is_final root) (so_fs (run_store st es)) (p, ino, d).
Proof.
  intros Hlim Hfuel. revert st. induction es as [|e es IH]; intros st Hok Hf He Hk; [done|].
  simpl in *. inversion He; subst. destruct (happens_tasks name fuel limit (happen name fuel limit st e) es)
    as [l Hl].
  assert (fresh_draws 0 (length (so_tasks (happen name fuel limit st e)))) as Hf1.
  { eapply fresh_draws_mono; [|done]. rewrite Hl, length_app. lia. }
  apply IH; [by apply happen_ok|done|done|by apply happen_stable].
Qed.

Lemma happens_app st es1 es2 : run_store st (es1 ++ es2) = run_store (run_store st es1) es2.
Proof. revert st. induction es1 as [|e es1 IH]; intros st; simpl; [done|apply IH]. Qed.

Lemma reached_prefix s0 es1 es2 :
  fresh_draws 0 (length (so_tasks (reached s0 (es1 ++ es2)))) →
  fresh_draws 0 (length (so_tasks (reached s0 es1))).
Proof.
  unfold reached. rewrite happens_app.
  destruct (happens_tasks name fuel limit (run_store (start name s0 []) es1) es2) as [l Hl].
  intros Hf. eapply fresh_draws_mono; [|done]. rewrite Hl, length_app. lia.
Qed.

(** C25. No partial chunk is ever visible: whatever uploads, failures, restarts and losses of
    power happened, a file at the final path of a chunk holds exactly bytes that some upload
    request for that chunk declared by their digest, at least one and at most its chunk size,
    and these bytes are on disk. *)
Theorem finalized_chunks_complete s0 es t i d :
  (limit < 2 ^ 32)%N → N.to_nat limit < fuel → clean root s0 →
  fresh_draws 0 (length (so_tasks (reached s0 es))) →
  contents (so_fs (reached s0 es)) (final_path root t i) = Some d →
  (∃ ino, fs_tree (so_fs (reached s0 es)) !! final_path root t i = Some (NFile ino)
          ∧ fs_disk_data (so_fs (reached s0 es)) !! ino = Some d) ∧
  ∃ r rx, Task.Stage r rx ∈ so_tasks (reached s0 es) ∧ sr_transfer_id r = t ∧
    sr_chunk_index r = i ∧ declares r d.
Proof.
  intros Hlim Hfuel Hc Hf (ino & Hp & Hd)%contents_file.
  pose proof (reached_ok Hlim Hfuel s0 es Hc Hf) as Hok.
  destruct (fo_final _ _ _ (ok_fs _ _ _ Hok) (final_path root t i) ino)
    as (d' & Hd' & Hdd & r & rx & Hin & _ & Hpath & Hdec); [by eexists _, _|done|].
  rewrite Hd in Hd'. injection Hd' as <-.
  split; [by exists ino|]. exists r, rx. destruct (final_path_inj root _ _ _ _ Hpath) as [-> ->]. by split_and!.
Qed.

(** Finalized chunks never change: once a chunk is finalized its file keeps the same
    bytes through any further uploads of the same or other chunks, failures, and restarts of
    the Worker with its cleanup at startup. *)
Theorem finalized_chunks_immutable s0 es1 es2 t i d :
  (limit < 2 ^ 32)%N → N.to_nat limit < fuel → clean root s0 →
  fresh_draws 0 (length (so_tasks (reached s0 (es1 ++ es2)))) →
  Forall (λ e, no_power_loss e = true) es2 →
  contents (so_fs (reached s0 es1)) (final_path root t i) = Some d →
  contents (so_fs (reached s0 (es1 ++ es2))) (final_path root t i) = Some d.
Proof.
  intros Hlim Hfuel Hc Hf He (ino & Hp & Hd)%contents_file.
  pose proof (reached_ok Hlim Hfuel s0 es1 Hc (reached_prefix _ _ _ Hf)) as Hok.
  unfold reached in *. rewrite happens_app in *.
  destruct (happens_stable _ es2 (final_path root t i) ino d Hlim Hfuel Hok Hf He)
    as (_ & Hp' & Hd'); [split_and!; [by eexists _, _|done|done]|].
  apply contents_file. by exists ino.
Qed.

(** Answers of uploads are true: when an upload has been answered Finalized, its body had
    arrived whole, its digest is the declared one, the answer carries its size and digest, and
    the file of the chunk holds bytes of that size and digest (and keeps them, see
    [finalized_chunks_immutable]); all this in any interleaving with other uploads. *)
Theorem upload_answers_true s0 es i r rx n digest :
  (limit < 2 ^ 32)%N → N.to_nat limit < fuel → clean root s0 →
  fresh_draws 0 (length (so_tasks (reached s0 es))) →
  so_tasks (reached s0 es) !! i = Some (Task.Stage r rx) →
  so_threads (reached s0 es) !! i = Some (Ret (TaskResult.Staged (StageOutcome.Finalized n digest))) →
  complete rx ∧ declares r (data_of rx) ∧ digest = sr_declared_digest r ∧
  n = N.of_nat (length (data_of rx)) ∧
  ∃ d, contents (so_fs (reached s0 es)) (final_path root (sr_transfer_id r) (sr_chunk_index r))
         = Some d ∧ length d = length (data_of rx) ∧ sha256 d = sha256 (data_of rx).
Proof.
  intros Hlim Hfuel Hc Hf Ht Hi.
  destruct (thread_result Hlim Hfuel s0 es Hc Hf _ _ Hi) as (task & g & Ht' & Hpost & Hk).
  rewrite Ht in Ht'. injection Ht' as <-.
  destruct Hpost as (dis & -> & -> & ? & ? & ino & d & Hd & ? & ? & _).
  split_and!; [done..|]. exists d. split_and!; [by eapply Hk|done|done].
Qed.

(** A rebuilt digest is the digest of the stored Artifact: when a reconstruction has
    answered, its digest is the SHA-256 of the ordered concatenation of the files of the
    chunks [0 .. count-1], all of which exist, have exactly the chunk size except the last,
    which has between one byte and the chunk size, and its total is the sum of their
    sizes. *)
Theorem rebuilt_digest_true s0 es i r f :
  (limit < 2 ^ 32)%N → N.to_nat limit < fuel → clean root s0 →
  fresh_draws 0 (length (so_tasks (reached s0 es))) →
  so_tasks (reached s0 es) !! i = Some (Task.Compute r) →
  so_threads (reached s0 es) !! i = Some (Ret (TaskResult.Computed (Ok f))) →
  ∃ ds, length ds = N.to_nat (fr_chunk_count r) ∧
    (∀ j d, ds !! j = Some d →
       contents (so_fs (reached s0 es)) (final_path root (fr_transfer_id r) (N.of_nat j)) = Some d) ∧
    chunk_sizes (N.to_nat (fr_chunk_count r)) (fr_chunk_size r) ds ∧
    fd_total_size f = total_length ds ∧ fd_digest f = sha256 (concat ds).
Proof.
  intros Hlim Hfuel Hc Hf Ht Hi.
  destruct (thread_result Hlim Hfuel s0 es Hc Hf _ _ Hi) as (task & g & Ht' & Hpost & Hk).
  rewrite Ht in Ht'. injection Ht' as <-.
  destruct Hpost as (ds & ? & Hr & ? & ->). exists ds. split_and!; [done| |done..].
  intros j d (ino & Hj)%Hr. by eapply Hk.
Qed.

(** ** Termination *)

Lemma thread_finishes st i p (f : nat → choice) :
  (limit < 2 ^ 32)%N → N.to_nat limit < fuel →
  store_ok name limit st → fresh_draws 0 (length (so_tasks st)) →
  so_threads st !! i = Some p →
  ∃ n res, so_threads (run_store st ((λ k, Event.Thread i (f k)) <$> seq 0 n)) !! i
           = Some (Ret res).
Proof.
  intros Hlim Hfuel. revert st f. induction p as [a|R c k IH| |]; intros st f Hok Hf Hi.
  - by exists 0, a.
  - destruct (exec c (f 0) (so_fs st)) as [s' r] eqn:Hex.
    destruct (IH r (happen name fuel limit st (Event.Thread i (f 0))) (λ k, f (S k)))
      as (n & res & Hn).
    + apply happen_ok; try done. simpl. rewrite Hi, Hex. done.
    + simpl. rewrite Hi, Hex. done.
    + simpl. rewrite Hi, Hex. simpl. apply lookup_insert_eq.
    + exists (S n), res. cbn [seq]. rewrite <-fmap_S_seq. rewrite fmap_cons, <-list_fmap_compose.
      exact Hn.
  - by destruct (ok_threads _ _ _ Hok _ _ Hi) as (? & ? & _ & _ & _ & ?).
  - by destruct (ok_threads _ _ _ Hok _ _ Hi) as (? & ? & _ & _ & _ & ?).
Qed.

(** C35. Every storage task finishes: in whatever state its thread is, with whatever other
    threads, restarts and failures before, finitely many further calls of its own bring it
    to a result, however these calls are answered. In particular no thread ever panics (the
    [expect]s and the size assertion of the code hold) and no read loop runs on. *)
Theorem storage_tasks_finish s0 es i p (f : nat → choice) :
  (limit < 2 ^ 32)%N → N.to_nat limit < fuel → clean root s0 →
  fresh_draws 0 (length (so_tasks (reached s0 es))) →
  so_threads (reached s0 es) !! i = Some p →
  ∃ n res, so_threads (reached s0 (es ++ ((λ k, Event.Thread i (f k)) <$> seq 0 n))) !! i
           = Some (Ret res).
Proof.
  intros Hlim Hfuel Hc Hf Hi.
  destruct (thread_finishes (reached s0 es) i p f) as (n & res & Hn); try done.
  { by apply reached_ok. }
  exists n, res. unfold reached in *. by rewrite happens_app.
Qed.
End StorageProperties.
