(* ===== verification/StorageStartup.v ===== *)
(** * Startup of the Worker's storage

    Which roots are accepted, which names count as staging files, and what the cleanup at
    startup removes: exactly the regular files with such names in the staging directories
    of transfers. *)

From stdpp Require Import prelude gmap strings pretty.
From Stdlib Require Import Strings.Byte NArith ZArith.
From S2P Require Import Prelude.
From S2P Require Import External.
From S2P Require Import Runtime.
From S2P Require Import FileSystem.
From S2P Require Import StorageLogic.
From S2P Require Import WorkerStorage.
From S2P Require Import StoragePrograms.
From S2P Require Import StorageExact.

(** ** Removing entries *)

(** [s'] is [s] without the entries that satisfy [P]. *)
Definition removes (P : path → Prop) (s s' : fs) : Prop :=
  fs_data s' = fs_data s ∧
  ∀ p, P p ∧ fs_tree s' !! p = None ∨ ¬ P p ∧ fs_tree s' !! p = fs_tree s !! p.

Lemma removes_nothing P s : (∀ p, ¬ P p) → removes P s s.
Proof. intros HP. split; [done|]. intros p. right. by split. Qed.

Lemma removes_iff P P' s s' : (∀ p, P p ↔ P' p) → removes P s s' → removes P' s s'.
Proof. intros HP [Hd Ht]. split; [done|]. intros p. rewrite <-HP. apply Ht. Qed.

Lemma removes_trans P1 P2 P s s1 s2 :
  removes P1 s s1 → removes P2 s1 s2 → (∀ p, P p ↔ P1 p ∨ P2 p) → removes P s s2.
Proof.
  intros [Hd1 Ht1] [Hd2 Ht2] HP. split; [congruence|]. intros p. rewrite HP.
  destruct (Ht1 p) as [[H1 E1]|[H1 E1]], (Ht2 p) as [[H2 E2]|[H2 E2]].
  - left. by auto.
  - left. rewrite E2. by auto.
  - left. by auto.
  - right. split; [by intros []|by rewrite E2].
Qed.

(** A regular file with a staging name. *)
Definition stale_entry (s : fs) (dir : path) (name : str) (p : path) : Prop :=
  p = dir ++ [name] ∧ is_recognized_staging_name name = true ∧
  ∃ ino, fs_tree s !! p = Some (NFile ino).

Definition only_files (P : path → Prop) (s : fs) : Prop :=
  ∀ p, P p → ∃ ino, fs_tree s !! p = Some (NFile ino).

Lemma removes_is_dir P s s' p :
  only_files P s → removes P s s' → is_dir s' p = is_dir s p.
Proof.
  intros HP [_ Ht]. unfold is_dir. destruct (Ht p) as [[H1 ->]|[_ ->]]; [|done].
  by destruct (HP p H1) as [ino ->].
Qed.

Lemma removes_stale_entry P s s' dir name p :
  removes P s s' → stale_entry s' dir name p ↔ stale_entry s dir name p ∧ ¬ P p.
Proof.
  intros [_ Ht]. unfold stale_entry. destruct (Ht p) as [[H1 ->]|[H1 ->]]; [|naive_solver].
  split; [by intros (_ & _ & ? & ?)|by intros [_ []]].
Qed.

Lemma calmly_remove_recognized dir name s Q :
  (∀ s', removes (stale_entry s dir name) s s' → Q s' ()) →
  calmly (remove_recognized dir (Ok name)) s Q.
Proof.
  intros HQ. apply calmly_bind.
  apply (calmly_step _ _ s (ok_or IoError.NotFound (fs_tree s !! (dir ++ [name])))).
  { intros ch [Hch _]. cbn. by rewrite Hch. }
  assert ((∀ ino, fs_tree s !! (dir ++ [name]) = Some (NFile ino) →
             is_recognized_staging_name name = false) → Q s ()) as Hno.
  { intros Hno. apply HQ, removes_nothing. intros p (-> & Hr & ino & Hp).
    by rewrite (Hno _ Hp) in Hr. }
  destruct (fs_tree s !! (dir ++ [name])) as [[ino|mode|]|] eqn:Hp; cbn [ok_or];
    try (by apply calmly_ret, Hno).
  destruct (is_recognized_staging_name name) eqn:Hrec; [|by apply calmly_ret, Hno].
  apply calmly_bind.
  apply (calmly_step _ _ (with_tree s (delete (dir ++ [name]) (fs_tree s))) (Ok ())).
  { intros ch [Hch _]. cbn. by rewrite Hch, Hp. }
  apply calmly_ret, HQ. split; [done|]. intros p. cbn. unfold stale_entry.
  destruct (decide (p = dir ++ [name])) as [->|Hne].
  - left. rewrite lookup_delete_eq. by eauto.
  - right. rewrite lookup_delete_ne by done. by split; [intros [? _]|].
Qed.

Lemma calmly_remove_all dir es s Q :
  (∀ s', removes (λ p, ∃ name, name ∈ es ∧ stale_entry s dir name p) s s' → Q s' ()) →
  calmly (remove_all dir (Ok <$> es)) s Q.
Proof.
  revert s Q. induction es as [|e es IH]; intros s Q HQ; cbn [remove_all fmap list_fmap].
  { apply calmly_ret, HQ, removes_nothing. by intros p (? & ?%elem_of_nil & _). }
  apply calmly_bind, calmly_remove_recognized. intros s1 H1. apply IH. intros s2 H2.
  apply HQ. eapply removes_trans; [done|done|]. intros p.
  setoid_rewrite elem_of_cons. setoid_rewrite (removes_stale_entry _ _ _ _ _ _ H1).
  destruct H1 as [_ Ht]. destruct (Ht p) as [[HP _]|[HP _]]; naive_solver.
Qed.

(** ** A transfer, and all of them *)

Definition staging_of (transfer : path) : path := (transfer ++ [CHUNKS_DIR]) ++ [STAGING_DIR].

Definition stale_transfer (s : fs) (transfer p : path) : Prop :=
  is_dir s transfer = true ∧ is_dir s (staging_of transfer) = true ∧
  ∃ name, stale_entry s (staging_of transfer) name p.

Lemma removes_stale_transfer P s s' transfer p :
  only_files P s → removes P s s' →
  stale_transfer s' transfer p ↔ stale_transfer s transfer p ∧ ¬ P p.
Proof.
  intros HP Hr. unfold stale_transfer. rewrite !(removes_is_dir P s s') by done.
  setoid_rewrite (removes_stale_entry _ _ _ _ _ _ Hr). naive_solver.
Qed.

Lemma stale_transfer_files s transfer : only_files (stale_transfer s transfer) s.
Proof. by intros p (_ & _ & name & _ & _ & Hp). Qed.

Lemma entries_elem s dir name n :
  fs_tree s !! (dir ++ [name]) = Some n → name ∈ entries s dir.
Proof.
  intros Hp. unfold entries. apply list_elem_of_omap. exists (dir ++ [name], n).
  split; [by apply elem_of_map_to_list|]. simpl. rewrite decide_True; [apply last_snoc|].
  split; [apply parent_snoc|]. by destruct dir.
Qed.

Lemma calmly_is_real_dir p s Q : Q s (is_dir s p) → calmly (is_real_dir p) s Q.
Proof.
  intros HQ. apply calmly_bind.
  apply (calmly_step _ _ s (ok_or IoError.NotFound (fs_tree s !! p))).
  { intros ch [Hch _]. cbn. by rewrite Hch. }
  apply calmly_ret. revert HQ. unfold is_dir. by destruct (fs_tree s !! p) as [[]|].
Qed.

Lemma calmly_read_dir p s Q :
  is_dir s p = true → Q s (Ok (Ok <$> entries s p)) → calmly (call (ReadDir p)) s Q.
Proof.
  intros Hp HQ. eapply calmly_step; [|exact HQ]. intros ch [Hch Hbad]. cbn.
  rewrite Hch, Hp, Hbad. f_equal. f_equal. generalize (entries s p). intros l.
  apply list_eq. intros i. rewrite list_lookup_imap, list_lookup_fmap.
  by destruct (l !! i).
Qed.

Lemma calmly_clean_transfer transfer s Q :
  (∀ s', removes (stale_transfer s transfer) s s' → Q s' ()) →
  calmly (clean_transfer transfer) s Q.
Proof.
  intros HQ. unfold clean_transfer. fold (staging_of transfer).
  assert (∀ b, is_dir s transfer && is_dir s (staging_of transfer) = b → b = false → Q s ()) as Hno.
  { intros b Hb ->. apply HQ, removes_nothing. intros p (H1 & H2 & _). by rewrite H1, H2 in Hb. }
  apply calmly_bind, calmly_is_real_dir. destruct (is_dir s transfer) eqn:H1; cbn [negb];
    [|by apply calmly_ret, (Hno false)].
  apply calmly_bind, calmly_is_real_dir. destruct (is_dir s (staging_of transfer)) eqn:H2;
    cbn [negb]; [|by apply calmly_ret, (Hno false)].
  apply calmly_bind, calmly_read_dir; [done|]. apply calmly_remove_all. intros s' Hr. apply HQ.
  revert Hr. apply removes_iff. intros p. unfold stale_transfer. split; [by naive_solver|].
  intros (_ & _ & name & He). exists name. split; [|done].
  destruct He as (-> & _ & ino & Hp). by eapply entries_elem.
Qed.

Lemma calmly_clean_entries transfers es s Q :
  (∀ s', removes (λ p, ∃ x, x ∈ es ∧ stale_transfer s (transfers ++ [x]) p) s s' → Q s' (Ok ())) →
  calmly (clean_entries transfers (Ok <$> es)) s Q.
Proof.
  revert s Q. induction es as [|e es IH]; intros s Q HQ; cbn [clean_entries fmap list_fmap].
  { apply calmly_ret, HQ, removes_nothing. by intros p (? & ?%elem_of_nil & _). }
  apply calmly_bind, calmly_clean_transfer. intros s1 H1. apply IH. intros s2 H2.
  apply HQ. eapply removes_trans; [done|done|]. intros p.
  setoid_rewrite elem_of_cons.
  setoid_rewrite (removes_stale_transfer _ _ _ _ _ (stale_transfer_files s _) H1).
  destruct H1 as [_ Ht]. destruct (Ht p) as [[HP _]|[HP _]]; naive_solver.
Qed.

(** A staging file left behind in some transfer under [root]. *)
Definition stale (s : fs) (root p : path) : Prop :=
  ∃ x, stale_transfer s ((root ++ [TRANSFERS_DIR]) ++ [x]) p.

Lemma calmly_cleanup root s Q :
  is_dir s (root ++ [TRANSFERS_DIR]) = true →
  (∀ s', removes (stale s root) s s' → Q s' (Ok ())) →
  calmly (cleanup_recognized_staging (root ++ [TRANSFERS_DIR])) s Q.
Proof.
  intros Hd HQ. apply calmly_bind, calmly_read_dir; [done|]. apply calmly_clean_entries.
  intros s' Hr. apply HQ. revert Hr. apply removes_iff. intros p. unfold stale.
  split; [by naive_solver|]. intros (x & Hx). exists x. split; [|done].
  destruct Hx as (Hdx & _). unfold is_dir in Hdx.
  destruct (fs_tree s !! _) as [n|] eqn:Hp; [|done]. by eapply entries_elem.
Qed.

(** ** Roots *)

#[global] Instance component_eq_dec : EqDecision Component.t.
Proof. solve_decision. Defined.

Lemma count_normal_spec cs n :
  count_normal cs n =
  (if decide (Component.CurDir ∈ cs ∨ Component.ParentDir ∈ cs)
   then Err (StorageError.RootUnsafe (lit "must not contain '.' or '..' components"))
   else Ok (n + length (omap (λ c, match c with Component.Normal x => Some x | _ => None end) cs))).
Proof.
  revert n. induction cs as [|[| | |x] cs IH]; intros n; cbn [count_normal omap list_omap].
  - rewrite decide_False by (by intros [?%elem_of_nil|?%elem_of_nil]). by rewrite Nat.add_0_r.
  - rewrite IH. destruct (decide _) as [H|H], (decide _) as [H'|H'] in |- *; try done;
      rewrite !elem_of_cons in *; naive_solver.
  - rewrite decide_True; [done|]. left. by left.
  - rewrite decide_True; [done|]. right. by left.
  - rewrite IH. cbn [length]. rewrite Nat.add_succ_r.
    destruct (decide _) as [H|H], (decide _) as [H'|H'] in |- *; try done;
      rewrite !elem_of_cons in *; naive_solver.
Qed.

Definition kept_part (part : str) : bool :=
  negb (bool_decide (part = []) || bool_decide (part = lit ".") || bool_decide (part = lit "..")).

Lemma component_of_cases part :
  (component_of part = Some (Component.ParentDir) ↔ part = lit "..") ∧
  component_of part ≠ Some Component.CurDir ∧
  match component_of part with Some (Component.Normal x) => Some x | _ => None end
  = if kept_part part then Some part else None.
Proof.
  unfold component_of, kept_part. repeat case_bool_decide; subst; done.
Qed.

Lemma components_absolute name :
  is_absolute name = true →
  components name = Component.RootDir :: omap component_of (split_on x2f name).
Proof. intros H. unfold components. by rewrite H. Qed.

Lemma path_of_absolute name :
  is_absolute name = true →
  path_of name = filter (λ part, kept_part part = true) (split_on x2f name).
Proof.
  intros H. unfold path_of. rewrite components_absolute by done. cbn [omap list_omap].
  induction (split_on x2f name) as [|part l IH]; [done|]. rewrite filter_cons. cbn [omap list_omap].
  destruct (component_of_cases part) as (_ & _ & Hc).
  destruct (component_of part) as [[| | |x]|]; cbn [omap list_omap];
    destruct (kept_part part); try done; injection Hc as ->; by rewrite IH.
Qed.

Lemma components_parent name :
  is_absolute name = true →
  (Component.CurDir ∈ components name ∨ Component.ParentDir ∈ components name)
  ↔ lit ".." ∈ split_on x2f name.
Proof.
  intros H. rewrite components_absolute by done. rewrite !elem_of_cons, !list_elem_of_omap.
  split.
  - intros [[?|(part & Hin & Hc)]|[?|(part & Hin & Hc)]]; try done;
      destruct (component_of_cases part) as (Hp & Hn & _); [done|].
    by apply Hp in Hc as ->.
  - intros Hin. right. right. exists (lit ".."). by split; [|apply component_of_cases].
Qed.

(** The roots that are accepted are exactly the absolute paths without a [..] segment
    that name something below the file-system root; segments that are empty or [.] are
    dropped, not refused, so [/srv/./bamep] is accepted as [/srv/bamep]. Every refusal
    carries the reason. *)
Theorem root_shape_exact name :
  let segments := split_on x2f name in
  let normal := filter (λ part, kept_part part = true) segments in
  validate_root_shape name =
    (if negb (is_absolute name) then Err StorageError.RootNotAbsolute
     else if decide (lit ".." ∈ segments)
     then Err (StorageError.RootUnsafe (lit "must not contain '.' or '..' components"))
     else if decide (normal = [])
     then Err (StorageError.RootUnsafe (lit "must not be the filesystem root"))
     else Ok ()) ∧
  (is_absolute name = true → path_of name = normal) ∧
  validate_root_shape (lit "/srv/./bamep") = Ok () ∧
  path_of (lit "/srv/./bamep") = [lit "srv"; lit "bamep"].
Proof.
  cbv zeta. split_and!; [|apply path_of_absolute|by vm_compute..].
  unfold validate_root_shape. destruct (is_absolute name) eqn:Habs; cbn [negb].
  2: by rewrite orb_true_r.
  rewrite bool_decide_eq_false_2 by (by intros ->). cbn [orb].
  rewrite count_normal_spec. pose proof (components_parent _ Habs) as Hpar.
  rewrite <-(path_of_absolute _ Habs). unfold path_of.
  destruct (decide (_ ∨ _)) as [H|H], (decide (lit ".." ∈ _)) as [H'|H']; try (by exfalso; tauto); [done|].
  cbn. case_bool_decide as H0.
  - apply nil_length_inv in H0. by rewrite decide_True.
  - rewrite decide_False; [done|]. intros Hn. apply H0. by rewrite Hn.
Qed.

(** ** The whole startup *)

Lemma accepted_root name : validate_root_shape name = Ok () → path_of name ≠ [].
Proof.
  intros H Hn. revert H. unfold validate_root_shape. case_match; [done|].
  rewrite count_normal_spec. unfold path_of in Hn. rewrite Hn. by case_decide.
Qed.

Lemma stale_dirs s s' root p (ps : list path) :
  (∀ q, q ∈ ps → length q ≤ S (length root)) →
  (∀ q, q ∉ ps → fs_tree s' !! q = fs_tree s !! q) →
  stale s' root p ↔ stale s root p.
Proof.
  intros Hlen Ht.
  assert (∀ q, S (length root) < length q → fs_tree s' !! q = fs_tree s !! q) as Hq.
  { intros q Hq. apply Ht. intros Hin%Hlen. lia. }
  assert (∀ x, is_dir s' ((root ++ [TRANSFERS_DIR]) ++ [x])
            = is_dir s ((root ++ [TRANSFERS_DIR]) ++ [x])) as H1.
  { intros x. unfold is_dir. rewrite Hq; [done|]. rewrite !length_app. simpl. lia. }
  assert (∀ x, is_dir s' (staging_of ((root ++ [TRANSFERS_DIR]) ++ [x]))
            = is_dir s (staging_of ((root ++ [TRANSFERS_DIR]) ++ [x]))) as H2.
  { intros x. unfold is_dir, staging_of. rewrite Hq; [done|]. rewrite !length_app. simpl. lia. }
  assert (∀ x name, stale_entry s' (staging_of ((root ++ [TRANSFERS_DIR]) ++ [x])) name p
            ↔ stale_entry s (staging_of ((root ++ [TRANSFERS_DIR]) ++ [x])) name p) as H3.
  { intros x name. unfold stale_entry. split; intros (-> & ? & Hp); (split_and!; [done..|]);
      revert Hp; unfold staging_of; rewrite Hq; try done; rewrite !length_app; simpl; lia. }
  unfold stale, stale_transfer. setoid_rewrite H1. setoid_rewrite H2. by setoid_rewrite H3.
Qed.

(** Startup removes exactly what a previous run left behind: on an accepted root that
    exists or can be created, and when no call fails, startup succeeds, leaves the contents
    of every file as they are, and removes exactly the regular files with a staging name in
    the [chunks/.staging] directory of some transfer; finalized chunks, directories, links
    and files with other names stay. *)
Theorem startup_removes_exactly name s :
  let root := path_of name in
  validate_root_shape name = Ok () →
  (is_dir s root = true ∨ fs_tree s !! root = None ∧ is_dir s (parent root) = true) →
  (is_dir s (root ++ [TRANSFERS_DIR]) = true ∨ fs_tree s !! (root ++ [TRANSFERS_DIR]) = None) →
  calmly (initialize name) s (λ s' r, r = Ok root ∧ fs_data s' = fs_data s ∧
    is_dir s' root = true ∧ is_dir s' (root ++ [TRANSFERS_DIR]) = true ∧
    ∀ p, p ≠ root → p ≠ root ++ [TRANSFERS_DIR] →
      stale s root p ∧ fs_tree s' !! p = None ∨
      ¬ stale s root p ∧ fs_tree s' !! p = fs_tree s !! p).
Proof.
  intros root Hv Hroot Htr. unfold initialize. rewrite Hv. fold root.
  assert (root ≠ []) as Hne by (by apply accepted_root).
  assert (root ≠ root ++ [TRANSFERS_DIR]) as Hrt.
  { intros He. apply (f_equal length) in He. rewrite length_app in He. simpl in He. lia. }
  apply calmly_try, calmly_ensure_dir; [done|done|]. intros s1 Hd1 Ht1 Hda1 _.
  apply calmly_try, calmly_ensure_next; [done| |].
  { unfold is_dir. by rewrite Ht1 by done. }
  intros s2 Hd2 Ht2 Hda2 _. apply calmly_try, calmly_cleanup; [done|].
  intros s3 Hr. apply calmly_ret.
  assert (only_files (stale s2 root) s2) as Hf by (intros p [x Hx]; by eapply stale_transfer_files).
  split_and!; [done|destruct Hr as [Hda3 _]; congruence| | |].
  - rewrite (removes_is_dir _ _ _ _ Hf Hr). unfold is_dir. by rewrite Ht2.
  - by rewrite (removes_is_dir _ _ _ _ Hf Hr).
  - intros p Hp1 Hp2. destruct Hr as [_ Hr]. specialize (Hr p).
    rewrite Ht2, Ht1, (stale_dirs s s2 root p [root; root ++ [TRANSFERS_DIR]]) in Hr; try done.
    + intros q [->|[->|[]%elem_of_nil]%elem_of_cons]%elem_of_cons; rewrite ?length_app; simpl; lia.
    + intros q Hq. rewrite !not_elem_of_cons in Hq. destruct Hq as (? & ? & _). by rewrite Ht2, Ht1.
Qed.

(** ** Staging names *)

Lemma no_dot (P : byte → bool) l : P x2e = false → forallb P l = true → x2e ∉ l.
Proof. intros HP Hl Hin. rewrite forallb_elem_of in Hl. by rewrite (Hl _ Hin) in HP. Qed.

(** [<index>.<token>.part]. *)
Definition staging_shape (index token name : str) : Prop :=
  name = index ++ x2e :: token ++ x2e :: STAGING_EXT ∧ index ≠ [] ∧
  forallb is_ascii_digit index = true ∧ length token = 32 ∧ forallb is_lower_hex token = true.

Lemma split_shape index token name :
  staging_shape index token name → split_on x2e name = [index; token; STAGING_EXT].
Proof.
  intros (-> & _ & Hi & _ & Ht). rewrite split_on_app by (by apply (no_dot is_ascii_digit)).
  rewrite split_on_app by (by apply (no_dot is_lower_hex)). by vm_compute.
Qed.

Section StagingNames.
Context {disp : UuidDisplay} {simple : UuidSimple} {simple_laws : UuidSimpleLaws}.
Context {simple_hex : UuidSimpleHex}.

(** The names the cleanup recognizes are exactly a decimal index, a token of 32
    lower-case hexadecimal digits and [part], separated by dots; every name the store gives
    to a staging file is one of them and tells the index and the token apart, and no
    finalized chunk has one. *)
Theorem staging_names_exact name i drawn :
  (is_recognized_staging_name name = true ↔ ∃ index token, staging_shape index token name) ∧
  (staging_shape (decimal i) (uuid_simple drawn) (staging_name i drawn) ∧
   ∀ index token, staging_shape index token (staging_name i drawn) →
     index = decimal i ∧ token = uuid_simple drawn) ∧
  is_recognized_staging_name (decimal i ++ FINAL_SUFFIX) = false.
Proof.
  assert (staging_shape (decimal i) (uuid_simple drawn) (staging_name i drawn)) as Hs.
  { split_and!; [done|apply decimal_nonempty|apply decimal_digits|apply uuid_simple_length|
      apply uuid_simple_hex]. }
  split_and!; [|done| |].
  - unfold is_recognized_staging_name. split.
    + pose proof (join_split x2e name) as Hj.
      destruct (split_on x2e name) as [|index [|token [|ext [|]]]]; try done.
      rewrite !andb_true_iff, negb_true_iff, bool_decide_eq_false, !bool_decide_eq_true.
      intros ((((? & ?) & ?) & ?) & ->). exists index, token. by split_and!.
    + intros (index & token & Hsh). rewrite (split_shape _ _ _ Hsh).
      destruct Hsh as (_ & Hn & Hi & Hl & Ht). rewrite !andb_true_iff, negb_true_iff,
        bool_decide_eq_false, !bool_decide_eq_true. by split_and!.
  - intros index token Hs'. apply split_shape in Hs, Hs'. rewrite Hs in Hs'. by injection Hs' as <- <-.
  - unfold is_recognized_staging_name, FINAL_SUFFIX. change (lit ".chunk") with (x2e :: lit "chunk").
    pose proof (decimal_digits i) as Hd. rewrite split_on_app by (by apply (no_dot is_ascii_digit)).
    by rewrite split_on_notin by (by apply (bool_decide_unpack _)).
Qed.
End StagingNames.
