(* ===== verification/StorageExamples.v ===== *)
(** * Concrete runs of the Worker's storage

    A store of its own under [/store]: a startup, uploads of two chunks, a reconstruction;
    the theorems of the storage files applied to them, and one run that loses a chunk after
    it was answered Finalized. *)

From stdpp Require Import prelude gmap strings pretty.
From Stdlib Require Import Strings.Byte NArith ZArith.
From S2P Require Import Prelude.
From S2P Require Import External.
From S2P Require Import Runtime.
From S2P Require Import FileSystem.
From S2P Require Import StorageLogic.
From S2P Require Import WorkerStorage.
From S2P Require Import StoragePrograms.
From S2P Require Import StorageExact.
From S2P Require Import StorageSystem.
From S2P Require Import StorageTheorems.
From S2P Require Import StorageStartup.

Module StorageExamples.
Import Reference.
#[local] Existing Instances base64 toy_sha256 raw_uuid raw_uuid_laws hex_simple hex_simple_laws
  hex_simple_hex counter_entropy.

Definition ok_call : choice := {| ch_fail := false; ch_n := 10; ch_bad := [] |}.
Definition bad_call : choice := {| ch_fail := true; ch_n := 0; ch_bad := [] |}.

Definition disk : fs :=
  {| fs_tree := {[ [] := NDir 493 ]}; fs_data := ∅; fs_disk_tree := {[ [] := NDir 493 ]};
     fs_disk_data := ∅; fs_next := 0 |}.

Definition store_name : str := lit "/store".
Definition store_root : path := path_of store_name.
Definition transfer : Uuid := be_array 16 77.

Definition chunk0 : list byte := lit "a chunk ".
Definition chunk1 : list byte := lit "of data".

Definition upload (i : N) (body : list byte) : StageRequest :=
  {| sr_transfer_id := transfer; sr_chunk_index := i; sr_chunk_size := 8;
     sr_declared_digest := to_base64url_no_pad (sha256 body) |}.

(** A body in two frames. *)
Definition frames (body : list byte) : list PumpMessage.t :=
  pump [BodyFrame.Data (take 3 body); BodyFrame.Trailers; BodyFrame.Data (drop 3 body)].

Definition booted : list Event.t := replicate 20 (Event.Boot ok_call) ++ [Event.Ready].
Definition upload_run (thread : nat) (i : N) (body : list byte) (calls : nat) : list Event.t :=
  Event.Spawn (Task.Stage (upload i body) (frames body))
  :: replicate calls (Event.Thread thread ok_call).

(** Both chunks uploaded, one after the other, and the Artifact rebuilt. *)
Definition rebuilt_run : list Event.t :=
  booted ++ upload_run 0 0 chunk0 40 ++ upload_run 1 1 chunk1 40
  ++ Event.Spawn (Task.Compute {| fr_transfer_id := transfer; fr_chunk_count := 2;
                                  fr_chunk_size := 8 |})
  :: replicate 20 (Event.Thread 2 ok_call).

#[local] Abbreviation reach := (reached store_name 101 100 disk).

Lemma disk_clean : clean store_root disk.
Proof.
  assert (∀ (t : Uuid) i, final_path store_root t i ≠ []) as Hne.
  { intros t i. unfold final_path. by destruct (chunks_dir _ _). }
  split; cbn [disk fs_tree fs_disk_tree].
  - by intros p ino [_ ?]%lookup_singleton_Some.
  - by intros p ino [_ ?]%lookup_singleton_Some.
  - intros t i ino. split; intros [He _]%lookup_singleton_Some; by apply (Hne t i).
Qed.

Lemma run_fresh n : n ≤ 3 → fresh_draws 0 n.
Proof. intros Hn. apply (fresh_draws_mono _ 3 Hn). by apply (bool_decide_unpack _). Qed.

Lemma finalized_chunks_complete_witness :
  ∃ ino, fs_tree (so_fs (reach rebuilt_run)) !! final_path store_root transfer 1 = Some (NFile ino)
         ∧ fs_disk_data (so_fs (reach rebuilt_run)) !! ino = Some chunk1.
Proof.
  apply (finalized_chunks_complete store_name 101 100 disk rebuilt_run transfer 1 chunk1).
  - done.
  - vm_compute. lia.
  - apply disk_clean.
  - apply run_fresh. vm_compute. lia.
  - by vm_compute.
Defined.

(** The first chunk is still there after a restart and a second run. *)
Lemma finalized_chunks_immutable_witness :
  contents (so_fs (reach ((booted ++ upload_run 0 0 chunk0 40) ++ Event.Restart :: booted)))
    (final_path store_root transfer 0) = Some chunk0.
Proof.
  apply (finalized_chunks_immutable store_name 101 100 disk).
  - done.
  - vm_compute. lia.
  - apply disk_clean.
  - apply run_fresh. vm_compute. lia.
  - apply (bool_decide_unpack _). by vm_compute.
  - by vm_compute.
Defined.

Lemma upload_answers_true_witness :
  complete (frames chunk1) ∧ declares (upload 1 chunk1) (data_of (frames chunk1)).
Proof.
  destruct (upload_answers_true store_name 101 100 disk rebuilt_run 1 (upload 1 chunk1)
    (frames chunk1) 7 (to_base64url_no_pad (sha256 chunk1))) as (? & ? & _).
  - done.
  - vm_compute. lia.
  - apply disk_clean.
  - apply run_fresh. vm_compute. lia.
  - by vm_compute.
  - by vm_compute.
  - done.
Defined.

Definition rebuilt : FullArtifactDigest :=
  {| fd_transfer_id := transfer; fd_chunk_count := 2; fd_total_size := 15;
     fd_digest := sha256 (chunk0 ++ chunk1) |}.

Lemma rebuilt_digest_true_witness :
  ∃ ds, length ds = 2 ∧ fd_total_size rebuilt = total_length ds
        ∧ fd_digest rebuilt = sha256 (concat ds).
Proof.
  destruct (rebuilt_digest_true store_name 101 100 disk rebuilt_run 2
    {| fr_transfer_id := transfer; fr_chunk_count := 2; fr_chunk_size := 8 |} rebuilt)
    as (ds & Hl & _ & _ & Ht & Hd).
  - done.
  - vm_compute. lia.
  - apply disk_clean.
  - apply run_fresh. vm_compute. lia.
  - by vm_compute.
  - by vm_compute.
  - by exists ds.
Defined.

(** An upload interrupted after two calls, with every further call failing. *)
Lemma storage_tasks_finish_witness :
  ∃ n res, so_threads (reach ((booted ++ upload_run 0 0 chunk0 2)
    ++ ((λ k : nat, Event.Thread 0 bad_call) <$> seq 0 n))) !! 0 = Some (Ret res).
Proof.
  assert (match so_threads (reach (booted ++ upload_run 0 0 chunk0 2)) !! 0 with
          | Some _ => true | None => false end = true) as Hsome by (by vm_compute).
  destruct (so_threads (reach (booted ++ upload_run 0 0 chunk0 2)) !! 0) as [p|] eqn:Hp; [|done].
  apply (storage_tasks_finish store_name 101 100 disk (booted ++ upload_run 0 0 chunk0 2) 0 p
    (λ _, bad_call)).
  - done.
  - vm_compute. lia.
  - apply disk_clean.
  - apply run_fresh. vm_compute. lia.
  - done.
Defined.

(** ** Calm runs *)

Definition stored : fs := so_fs (reach rebuilt_run).

Lemma compute_exact_witness :
  calmly (compute store_root {| fr_transfer_id := transfer; fr_chunk_count := 2;
                                fr_chunk_size := 8 |}) stored
    (λ s' res, s' = stored ∧ res = Ok rebuilt).
Proof.
  replace (Ok rebuilt) with (rebuild store_root stored
    {| fr_transfer_id := transfer; fr_chunk_count := 2; fr_chunk_size := 8 |}) by (by vm_compute).
  apply (compute_exact store_root stored).
  - done.
  - by vm_compute.
Defined.

Definition inodes_below (s : fs) : bool :=
  forallb (λ e : path * node, match e.2 with NFile j => j <? fs_next s | _ => true end)
    (map_to_list (fs_tree s)).

Lemma inode_bound s p j :
  inodes_below s = true → fs_tree s !! p = Some (NFile j) → j < fs_next s.
Proof.
  unfold inodes_below. rewrite forallb_elem_of. intros H Hp%elem_of_map_to_list.
  specialize (H _ Hp). by apply Nat.ltb_lt.
Qed.


(** ** Startup *)

(** The staging file of an upload that was interrupted after its first write. *)
Definition interrupted : fs := so_fs (reach (booted ++ upload_run 0 0 chunk0 18)).
Definition leftover : path := staging_path store_root transfer 0 (draw_uuid 0).

Lemma startup_removes_exactly_witness :
  fs_tree interrupted !! leftover = Some (NFile 0) ∧
  calmly (initialize store_name) interrupted (λ s' r, r = Ok store_root ∧
    (stale interrupted store_root leftover ∧ fs_tree s' !! leftover = None ∨
     ¬ stale interrupted store_root leftover ∧
       fs_tree s' !! leftover = fs_tree interrupted !! leftover)).
Proof.
  split; [by vm_compute|].
  eapply calmly_mono; [|apply (startup_removes_exactly store_name interrupted)].
  - intros s' r (-> & _ & _ & _ & H). split; [done|]. by apply H; vm_compute.
  - by vm_compute.
  - left. by vm_compute.
  - left. by vm_compute.
Defined.

(** ** Where durability ends *)

(** A first upload whose directory sync fails after its file was linked (answered
    StorageUnavailable), then a second upload of the same body, answered Finalized. *)
Definition relinked_run : list Event.t :=
  booted ++ upload_run 0 0 chunk0 18 ++ [Event.Thread 0 bad_call]
  ++ replicate 10 (Event.Thread 0 ok_call) ++ upload_run 1 0 chunk0 40.

Definition staged_answer (st : store) (i : nat) : option StageOutcome.t :=
  match so_threads st !! i with Some (Ret (TaskResult.Staged o)) => Some o | _ => None end.

End StorageExamples.
