(* ===== verification/WorkerClient.v ===== *)
(** * The Worker's control client

    Models [crates/worker/src/ipc/authority.rs] and [ipc/control.rs]: the one connection of
    the Worker to the server with its correlation table, reconnection and deadlines, and the
    operations request handlers run over it. A handler is a program whose calls are the
    points where it waits: the reading of the published connection, a request with its
    reply, and the storage tasks it starts. Log lines and [Debug] texts are left out. *)

From stdpp Require Import prelude gmap strings.
From Stdlib Require Import Strings.Byte NArith ZArith.
From S2P Require Import Prelude.
From S2P Require Import External.
From S2P Require Import Runtime.
From S2P Require Import WorkerProtocol.
From S2P Require Import WorkerFraming.
From S2P Require Import FileSystem.
From S2P Require Import WorkerStorage.

(** ** [authority.rs] *)

Module AuthorityPhase.
Inductive t : Type := Disconnected | Connecting | Handshaking | Ready.
#[global] Instance t_eq_dec : EqDecision t.
Proof. solve_decision. Defined.
End AuthorityPhase.

Record AuthoritySnapshot : Type := { au_phase : AuthorityPhase.t; au_generation : N }.

Definition is_available (s : AuthoritySnapshot) : bool :=
  bool_decide (au_phase s = AuthorityPhase.Ready).

Definition AuthorityTracker_new : AuthoritySnapshot :=
  {| au_phase := AuthorityPhase.Disconnected; au_generation := 0 |}.

Definition set_phase (s : AuthoritySnapshot) (phase : AuthorityPhase.t) : AuthoritySnapshot :=
  {| au_phase := phase; au_generation := au_generation s |}.
Definition set_disconnected (s : AuthoritySnapshot) := set_phase s AuthorityPhase.Disconnected.
Definition set_connecting (s : AuthoritySnapshot) := set_phase s AuthorityPhase.Connecting.
Definition set_handshaking (s : AuthoritySnapshot) := set_phase s AuthorityPhase.Handshaking.

(** The [u64] wraps in release builds. *)
Definition set_ready (s : AuthoritySnapshot) : N * AuthoritySnapshot :=
  let generation := ((au_generation s + 1) mod 2 ^ 64)%N in
  (generation, {| au_phase := AuthorityPhase.Ready; au_generation := generation |}).

(** ** Vocabulary of [control.rs] *)

Definition DEFAULT_PENDING_CAPACITY : nat := 64.

Module ControlError.
Inductive t : Type :=
| NotConnected
| ConnectionLost
| GenerationChanged
| Timeout (timeout_ms : N)
| Saturated
| CorrelationViolation
| ProtocolError (code : str)
| ResumePageUnavailable.
End ControlError.

Record AuthorizeChunkInput : Type := {
  aci_token : str;
  aci_transfer_id : Uuid;
  aci_chunk_index : N;
  aci_proof_id : str;
  aci_issued_at : N;
  aci_signature : str;
}.

Record ResumeDiscoveryInput : Type := {
  rdi_token : str;
  rdi_transfer_id : Uuid;
  rdi_proof_id : str;
  rdi_issued_at : N;
  rdi_signature : str;
}.

Record ManifestSealInput : Type := {
  msi_token : str;
  msi_transfer_id : Uuid;
  msi_proof_id : str;
  msi_issued_at : N;
  msi_signature : str;
  msi_chunk_count : N;
  msi_artifact_digest : str;
}.

Record AcceptanceTicket : Type := {
  act_generation : N;
  act_handle : str;
  act_transfer_id : Uuid;
  act_chunk_index : N;
}.

Record ChunkAuthorizationApproved : Type := {
  caa_digest_algorithm : WireDigestAlgorithm.t;
  caa_chunk_size : N;
  caa_expected_chunk_digest : option str;
  caa_acceptance_ticket : AcceptanceTicket;
}.

Module ChunkAuthorization.
Inductive t : Type := Approved (a : ChunkAuthorizationApproved) | Denied.
End ChunkAuthorization.

Module ChunkAcceptance.
Inductive t : Type :=
| Committed
| AlreadyCommitted
| Rejected (reason : ChunkAcceptanceRejectionReason.t).
End ChunkAcceptance.

Record ResumeAggregate : Type := {
  ra_transfer_id : Uuid;
  ra_sealed : bool;
  ra_digest_algorithm : WireDigestAlgorithm.t;
  ra_chunk_size : N;
  ra_expected_chunk_count : option N;
  ra_held_chunks : list HeldChunk;
}.

Module ResumeDiscovery.
Inductive t : Type := Approved (a : ResumeAggregate) | Denied.
End ResumeDiscovery.

Record VerificationTicket : Type := { vt_generation : N; vt_handle : str }.

Record SealSuccess : Type := {
  ss_artifact_id : Uuid;
  ss_digest_algorithm : WireDigestAlgorithm.t;
  ss_chunk_size : N;
  ss_chunk_count : N;
  ss_expected_artifact_digest : str;
  ss_verification_ticket : VerificationTicket;
}.

Module ManifestSeal.
Inductive t : Type :=
| Sealed (s : SealSuccess)
| AlreadyPendingVerification (s : SealSuccess)
| Rejected (reason : ManifestSealRejectionReason.t)
| Denied.
End ManifestSeal.

Module ArtifactVerification.
Inductive t : Type := Verified | Failed.
End ArtifactVerification.

Module ExpectedResponse.
Inductive t : Type :=
| Authorization | ChunkAcceptance | ResumePage | ManifestSeal | ArtifactVerification.
End ExpectedResponse.

Module ResponsePayload.
Inductive t : Type :=
| Authorization (m : Message AuthorizationDecisionBody)
| ChunkAcceptance (m : Message ChunkAcceptanceDecisionBody)
| ResumePage (m : Message ResumeDiscoveryPageBody)
| ManifestSeal (m : Message ManifestSealDecisionBody)
| ArtifactVerification (m : Message ArtifactVerificationAckBody).

Definition matches (payload : t) (expected : ExpectedResponse.t) : bool :=
  match payload, expected with
  | Authorization _, ExpectedResponse.Authorization
  | ChunkAcceptance _, ExpectedResponse.ChunkAcceptance
  | ResumePage _, ExpectedResponse.ResumePage
  | ManifestSeal _, ExpectedResponse.ManifestSeal
  | ArtifactVerification _, ExpectedResponse.ArtifactVerification => true
  | _, _ => false
  end.
End ResponsePayload.

(** ** Programs of request handlers *)

Module HandlerCall.
Inductive t : Type :=
| Stamp
| Borrow
| Dispatch (generation : N) (message : WorkerProtocolMessage.t) (message_id : Uuid)
    (expected : ExpectedResponse.t)
| Stage (request : StageRequest) (body : list BodyFrame.t)
| Compute (request : FullArtifactRequest).

(** [Stamp] gives a message constructor its place in the sequence of draws; [Borrow] the
    generation of the published connection. *)
Definition answer (c : t) : Type :=
  match c with
  | Stamp => nat
  | Borrow => option N
  | Dispatch _ _ _ _ => result ControlError.t ResponsePayload.t
  | Stage _ _ => StageOutcome.t
  | Compute _ => result FullArtifactError.t FullArtifactDigest
  end.
End HandlerCall.

(** A handler: finished, about to make a call, or still following pages after as many as
    were allowed for. *)
Inductive hproc (A : Type) : Type :=
| HRet (a : A)
| HDo (c : HandlerCall.t) (k : HandlerCall.answer c → hproc A)
| HSpin.
Arguments HRet {A} a.
Arguments HDo {A} c k.
Arguments HSpin {A}.

#[global] Instance hproc_ret : MRet hproc := λ A a, HRet a.
#[global] Instance hproc_bind : MBind hproc := λ A B f,
  fix bind p := match p with
                | HRet a => f a
                | HDo c k => HDo c (λ r, bind (k r))
                | HSpin => HSpin
                end.

Definition hcall (c : HandlerCall.t) : hproc (HandlerCall.answer c) := HDo c HRet.

(** The [?] operator. *)
Definition htry {E A B} (p : hproc (result E A)) (f : A → hproc (result E B))
  : hproc (result E B) :=
  r ← p; match r with Ok a => f a | Err e => mret (Err e) end.
Notation "' x ←! m ; k" := (htry m (λ x, k))
  (at level 20, x pattern, m at level 100, k at level 200, right associativity).
Notation "x ←! m ; k" := (htry m (λ x, k))
  (at level 20, m at level 100, k at level 200, right associativity).

Definition hok_or {A} (o : option A) : hproc (result ControlError.t A) :=
  mret (ok_or ControlError.CorrelationViolation o).

Section Handle.
Context {ent : Entropy}.

(** A message constructor draws the message identity. *)
Definition hstamp {B} (constructor : Gen (Message B)) : hproc (Message B) :=
  k ← hcall HandlerCall.Stamp; mret (constructor k).1.

Definition dispatch (generation : N) (message : WorkerProtocolMessage.t) (message_id : Uuid)
    (expected : ExpectedResponse.t) : hproc (result ControlError.t (N * ResponsePayload.t)) :=
  payload ←! hcall (HandlerCall.Dispatch generation message message_id expected);
  mret (Ok (generation, payload)).

Definition send_request (message : WorkerProtocolMessage.t) (message_id : Uuid)
    (expected : ExpectedResponse.t) : hproc (result ControlError.t (N * ResponsePayload.t)) :=
  channel ← hcall HandlerCall.Borrow;
  match channel with
  | None => mret (Err ControlError.NotConnected)
  | Some generation => dispatch generation message message_id expected
  end.

Definition send_scoped_request (ticket_generation : N) (message : WorkerProtocolMessage.t)
    (message_id : Uuid) (expected : ExpectedResponse.t)
  : hproc (result ControlError.t (N * ResponsePayload.t)) :=
  channel ← hcall HandlerCall.Borrow;
  match channel with
  | None => mret (Err ControlError.NotConnected)
  | Some generation =>
      if negb (generation =? ticket_generation)%N then mret (Err ControlError.GenerationChanged)
      else dispatch generation message message_id expected
  end.

Definition authorize_chunk (input : AuthorizeChunkInput)
  : hproc (result ControlError.t ChunkAuthorization.t) :=
  let transfer_id := aci_transfer_id input in
  let chunk_index := aci_chunk_index input in
  message ← hstamp (AuthorizationQueryMessage_new (aci_token input) transfer_id chunk_index
                      (aci_proof_id input) (aci_issued_at input) (aci_signature input));
  let message_id := env_message_id (envelope message) in
  '(generation, payload) ←! send_request (WorkerProtocolMessage.AuthorizationQuery message)
                              message_id ExpectedResponse.Authorization;
  match payload with
  | ResponsePayload.Authorization decision =>
      match adm_decision (body decision) with
      | AuthorizationDecisionOutcome.Denied => mret (Ok ChunkAuthorization.Denied)
      | AuthorizationDecisionOutcome.Approved =>
          digest_algorithm ←! hok_or (adm_digest_algorithm (body decision));
          chunk_size ←! hok_or (adm_chunk_size (body decision));
          handle ←! hok_or (adm_acceptance_handle (body decision));
          mret (Ok (ChunkAuthorization.Approved {|
            caa_digest_algorithm := digest_algorithm; caa_chunk_size := chunk_size;
            caa_expected_chunk_digest := adm_expected_chunk_digest (body decision);
            caa_acceptance_ticket := {|
              act_generation := generation; act_handle := handle;
              act_transfer_id := transfer_id; act_chunk_index := chunk_index |} |}))
      end
  | _ => mret (Err ControlError.CorrelationViolation)
  end.

(** The [while let Some(next_cursor)] loop; [fuel] bounds the pages followed. *)
Fixpoint resume_pages (fuel : nat) (generation : N) (held_chunks : list HeldChunk)
    (cursor : option str) : hproc (result ControlError.t (list HeldChunk)) :=
  match cursor with
  | None => mret (Ok held_chunks)
  | Some next_cursor =>
      match fuel with
      | 0 => HSpin
      | S fuel =>
          cont ← hstamp (ResumeDiscoveryContinueMessage_new next_cursor);
          '(_, payload) ←! send_scoped_request generation
            (WorkerProtocolMessage.ResumeDiscoveryContinue cont)
            (env_message_id (envelope cont)) ExpectedResponse.ResumePage;
          match payload with
          | ResponsePayload.ResumePage page =>
              if bool_decide (rp_decision (body page) = ResumeDiscoveryDecision.Denied)
              then mret (Err ControlError.ResumePageUnavailable)
              else
                match approved_continuation_page page with
                | Err _ => mret (Err ControlError.CorrelationViolation)
                | Ok page =>
                    resume_pages fuel generation (held_chunks ++ cp_held_chunks page)
                      (cp_resume_cursor page)
                end
          | _ => mret (Err ControlError.CorrelationViolation)
          end
      end
  end.

Definition discover_resume (fuel : nat) (input : ResumeDiscoveryInput)
  : hproc (result ControlError.t ResumeDiscovery.t) :=
  query ← hstamp (ResumeDiscoveryQueryMessage_new (rdi_token input) (rdi_transfer_id input)
                    (rdi_proof_id input) (rdi_issued_at input) (rdi_signature input));
  '(generation, payload) ←! send_request (WorkerProtocolMessage.ResumeDiscoveryQuery query)
                              (env_message_id (envelope query)) ExpectedResponse.ResumePage;
  match payload with
  | ResponsePayload.ResumePage first =>
      if bool_decide (rp_decision (body first) = ResumeDiscoveryDecision.Denied)
      then mret (Ok ResumeDiscovery.Denied)
      else
        match approved_first_page first with
        | Err _ => mret (Err ControlError.CorrelationViolation)
        | Ok first =>
            held_chunks ←! resume_pages fuel generation (fp_held_chunks first)
                             (fp_resume_cursor first);
            mret (Ok (ResumeDiscovery.Approved {|
              ra_transfer_id := fp_transfer_id first; ra_sealed := fp_sealed first;
              ra_digest_algorithm := fp_digest_algorithm first;
              ra_chunk_size := fp_chunk_size first;
              ra_expected_chunk_count := fp_expected_chunk_count first;
              ra_held_chunks := held_chunks |}))
        end
  | _ => mret (Err ControlError.CorrelationViolation)
  end.

Definition seal_manifest (input : ManifestSealInput)
  : hproc (result ControlError.t ManifestSeal.t) :=
  request ← hstamp (ManifestSealRequestMessage_new (msi_token input) (msi_transfer_id input)
                      (msi_proof_id input) (msi_issued_at input) (msi_signature input)
                      (msi_chunk_count input) (msi_artifact_digest input));
  '(generation, payload) ←! send_request (WorkerProtocolMessage.ManifestSealRequest request)
                              (env_message_id (envelope request)) ExpectedResponse.ManifestSeal;
  match payload with
  | ResponsePayload.ManifestSeal decision =>
      let b := body decision in
      let success :=
        artifact_id ←! hok_or (msd_artifact_id b);
        digest_algorithm ←! hok_or (msd_digest_algorithm b);
        chunk_size ←! hok_or (msd_chunk_size b);
        chunk_count ←! hok_or (msd_chunk_count b);
        expected_artifact_digest ←! hok_or (msd_expected_artifact_digest b);
        handle ←! hok_or (msd_verification_handle b);
        mret (Ok {| ss_artifact_id := artifact_id; ss_digest_algorithm := digest_algorithm;
                    ss_chunk_size := chunk_size; ss_chunk_count := chunk_count;
                    ss_expected_artifact_digest := expected_artifact_digest;
                    ss_verification_ticket :=
                      {| vt_generation := generation; vt_handle := handle |} |}) in
      match msd_outcome b with
      | ManifestSealOutcome.Denied => mret (Ok ManifestSeal.Denied)
      | ManifestSealOutcome.Rejected =>
          reason ←! hok_or (msd_reason b);
          mret (Ok (ManifestSeal.Rejected reason))
      | ManifestSealOutcome.Sealed => s ←! success; mret (Ok (ManifestSeal.Sealed s))
      | ManifestSealOutcome.AlreadyPendingVerification =>
          s ←! success; mret (Ok (ManifestSeal.AlreadyPendingVerification s))
      end
  | _ => mret (Err ControlError.CorrelationViolation)
  end.

Definition commit_chunk (ticket : AcceptanceTicket) (digest : str) (size : N)
  : hproc (result ControlError.t ChunkAcceptance.t) :=
  request ← hstamp (ChunkAcceptanceRequestMessage_new (act_handle ticket)
                      (act_transfer_id ticket) (act_chunk_index ticket) digest size);
  '(_, payload) ←! send_scoped_request (act_generation ticket)
    (WorkerProtocolMessage.ChunkAcceptanceRequest request)
    (env_message_id (envelope request)) ExpectedResponse.ChunkAcceptance;
  match payload with
  | ResponsePayload.ChunkAcceptance decision =>
      match cad_outcome (body decision) with
      | ChunkAcceptanceOutcome.Committed => mret (Ok ChunkAcceptance.Committed)
      | ChunkAcceptanceOutcome.AlreadyCommitted => mret (Ok ChunkAcceptance.AlreadyCommitted)
      | ChunkAcceptanceOutcome.Rejected =>
          reason ←! hok_or (cad_reason (body decision));
          mret (Ok (ChunkAcceptance.Rejected reason))
      end
  | _ => mret (Err ControlError.CorrelationViolation)
  end.

Definition report_artifact_verification (ticket : VerificationTicket)
    (computed_artifact_digest : str) : hproc (result ControlError.t ArtifactVerification.t) :=
  report ← hstamp (ArtifactVerificationReportMessage_new (vt_handle ticket)
                     computed_artifact_digest);
  '(_, payload) ←! send_scoped_request (vt_generation ticket)
    (WorkerProtocolMessage.ArtifactVerificationReport report)
    (env_message_id (envelope report)) ExpectedResponse.ArtifactVerification;
  match payload with
  | ResponsePayload.ArtifactVerification ack =>
      mret (Ok match ava_artifact_status (body ack) with
               | WireArtifactStatus.Verified => ArtifactVerification.Verified
               | WireArtifactStatus.Failed => ArtifactVerification.Failed
               end)
  | _ => mret (Err ControlError.CorrelationViolation)
  end.
End Handle.

(** ** The driver *)

Module HandshakeError.
Inductive t : Type :=
| Send
| Receive
| Rejected
| InvalidServerHello
| InvalidHandshakeRejected
| UnexpectedMessage.
End HandshakeError.

Module Inbound.
Inductive t : Type :=
| Response (in_reply_to : Uuid) (payload : ResponsePayload.t)
| ProtocolError (in_reply_to : option Uuid) (code : str)
| Unexpected.
End Inbound.

(** One request to send, and the waiter its reply goes to. *)
Record OutboundRequest : Type := {
  ob_message : WorkerProtocolMessage.t;
  ob_message_id : Uuid;
  ob_expected : ExpectedResponse.t;
  ob_reply : nat;
}.

Record PendingEntry : Type := {
  pe_expected : ExpectedResponse.t;
  pe_reply : nat;
  pe_deadline : N;
}.

(** A live connection: the queue into its dispatcher and the correlation table. *)
Record Connection : Type := {
  cn_generation : N;
  cn_requests : list OutboundRequest;
  cn_pending : gmap Uuid PendingEntry;
}.

(** What went over connections and into queues, latest first: for stating properties only. *)
Module Trace.
Inductive t : Type :=
| Handshaken (generation : N)
| Asked (generation : N) (r : OutboundRequest)
| Sent (generation : N) (m : WorkerProtocolMessage.t)
| Got (generation : N) (m : WorkerProtocolMessage.t).
End Trace.

(** [cl_current] is the published channel, by its generation; [cl_replies] the values sent
    into the one-shot channels of waiters; [cl_stopped] that the driver has shut down. *)
Record Client : Type := {
  cl_authority : AuthoritySnapshot;
  cl_current : option N;
  cl_connection : option Connection;
  cl_replies : gmap nat (result ControlError.t ResponsePayload.t);
  cl_next : nat;
  cl_stopped : bool;
  cl_trace : list Trace.t;
}.

Definition worker_control : Client :=
  {| cl_authority := AuthorityTracker_new; cl_current := None; cl_connection := None;
     cl_replies := ∅; cl_next := 0; cl_stopped := false; cl_trace := [] |}.

Definition is_ready (c : Client) : bool := is_available (cl_authority c).
Definition current_generation (c : Client) : option N :=
  if is_available (cl_authority c) then Some (au_generation (cl_authority c)) else None.

Definition with_authority (c : Client) (a : AuthoritySnapshot) : Client :=
  {| cl_authority := a; cl_current := cl_current c; cl_connection := cl_connection c;
     cl_replies := cl_replies c; cl_next := cl_next c; cl_stopped := cl_stopped c;
     cl_trace := cl_trace c |}.
Definition with_connection (c : Client) (conn : Connection) : Client :=
  {| cl_authority := cl_authority c; cl_current := cl_current c; cl_connection := Some conn;
     cl_replies := cl_replies c; cl_next := cl_next c; cl_stopped := cl_stopped c;
     cl_trace := cl_trace c |}.
Definition reply (c : Client) (waiter : nat) (r : result ControlError.t ResponsePayload.t)
  : Client :=
  {| cl_authority := cl_authority c; cl_current := cl_current c;
     cl_connection := cl_connection c; cl_replies := <[waiter := r]> (cl_replies c);
     cl_next := cl_next c; cl_stopped := cl_stopped c; cl_trace := cl_trace c |}.
Definition traced (c : Client) (t : Trace.t) : Client :=
  {| cl_authority := cl_authority c; cl_current := cl_current c;
     cl_connection := cl_connection c; cl_replies := cl_replies c; cl_next := cl_next c;
     cl_stopped := cl_stopped c; cl_trace := t :: cl_trace c |}.

(** [ConnectionLost] to each of these waiters. *)
Definition lose (c : Client) (waiters : list nat) : Client :=
  foldr (λ w c, reply c w (Err ControlError.ConnectionLost)) c waiters.

Definition with_requests (conn : Connection) (requests : list OutboundRequest) : Connection :=
  {| cn_generation := cn_generation conn; cn_requests := requests;
     cn_pending := cn_pending conn |}.
Definition with_pending (conn : Connection) (pending : gmap Uuid PendingEntry) : Connection :=
  {| cn_generation := cn_generation conn; cn_requests := cn_requests conn;
     cn_pending := pending |}.

(** The waiters a connection still has to answer. *)
Definition outstanding (conn : Connection) : list nat :=
  (ob_reply <$> cn_requests conn) ++ ((λ e, pe_reply e.2) <$> map_to_list (cn_pending conn)).

(** The code after the dispatch loop. A queued request is dropped with its reply sender,
    which its waiter sees as [ConnectionLost]. *)
Definition end_connection (c : Client) : Client :=
  match cl_connection c with
  | None => with_authority c (set_disconnected (cl_authority c))
  | Some conn =>
      let c := lose c (outstanding conn) in
      {| cl_authority := set_disconnected (cl_authority c); cl_current := None;
         cl_connection := None; cl_replies := cl_replies c; cl_next := cl_next c;
         cl_stopped := cl_stopped c; cl_trace := cl_trace c |}
  end.

(** The end of [run]. *)
Definition shut_down (c : Client) : Client :=
  let c := end_connection c in
  {| cl_authority := cl_authority c; cl_current := None; cl_connection := cl_connection c;
     cl_replies := cl_replies c; cl_next := cl_next c; cl_stopped := true;
     cl_trace := cl_trace c |}.

(** What the driver waits for. *)
Module ClientEvent.
Inductive t : Type :=
| Connect
| Connected (ok : bool)
| Handshake (k : nat) (sent : bool) (response : result ReceiveError.t WorkerProtocolMessage.t)
| Request (sent : bool) (now : N)
| Receive (message : option WorkerProtocolMessage.t)
| Deadline (now : N)
| Shutdown.
End ClientEvent.

(** What [dispatch] does with a channel of generation [generation]: the queue may be full,
    then the caller waits; the dispatcher behind it may be gone; else the request is queued
    and its waiter is the result. *)
Module Enqueued.
Inductive t : Type := Full | Gone | Queued (waiter : nat).
End Enqueued.

Section Driver.
Context {ent : Entropy} {kind : UuidKind}.
Context (pending_capacity : nat) (request_timeout timeout_ms : N) (worker_instance_id : Uuid).

(** [k] is the place of the hello's draw, [sent] whether it could be sent. *)
Definition perform_handshake (k : nat) (sent : bool)
    (response : result ReceiveError.t WorkerProtocolMessage.t) : result HandshakeError.t unit :=
  let hello := (WorkerHelloMessage_new worker_instance_id k).1 in
  let sent_id := env_message_id (envelope hello) in
  if negb sent then Err HandshakeError.Send
  else
    match response with
    | Err _ => Err HandshakeError.Receive
    | Ok (WorkerProtocolMessage.ServerHello response) =>
        if ServerHelloMessage_is_valid_reply_to response sent_id then Ok ()
        else Err HandshakeError.InvalidServerHello
    | Ok (WorkerProtocolMessage.HandshakeRejected response) =>
        if HandshakeRejectedMessage_is_valid_reply_to response sent_id
        then Err HandshakeError.Rejected else Err HandshakeError.InvalidHandshakeRejected
    | Ok _ => Err HandshakeError.UnexpectedMessage
    end.

Definition classify_inbound (message : WorkerProtocolMessage.t) : Inbound.t :=
  let envelope_valid := Envelope_is_valid (WorkerProtocolMessage.get_envelope message) in
  let response in_reply_to payload :=
    if envelope_valid then Inbound.Response in_reply_to payload else Inbound.Unexpected in
  match message with
  | WorkerProtocolMessage.AuthorizationDecision m =>
      response (adm_in_reply_to (body m)) (ResponsePayload.Authorization m)
  | WorkerProtocolMessage.ChunkAcceptanceDecision m =>
      response (cad_in_reply_to (body m)) (ResponsePayload.ChunkAcceptance m)
  | WorkerProtocolMessage.ResumeDiscoveryPage m =>
      response (rp_in_reply_to (body m)) (ResponsePayload.ResumePage m)
  | WorkerProtocolMessage.ManifestSealDecision m =>
      response (msd_in_reply_to (body m)) (ResponsePayload.ManifestSeal m)
  | WorkerProtocolMessage.ArtifactVerificationAck m =>
      response (ava_in_reply_to (body m)) (ResponsePayload.ArtifactVerification m)
  | WorkerProtocolMessage.ProtocolError m =>
      Inbound.ProtocolError (pe_in_reply_to (body m)) (pe_code (body m))
  | _ => Inbound.Unexpected
  end.

(** A successful handshake: the new generation, its queue and table, published. *)
Definition establish (c : Client) : Client :=
  let '(generation, authority) := set_ready (cl_authority c) in
  {| cl_authority := authority; cl_current := Some generation;
     cl_connection := Some {| cn_generation := generation; cn_requests := []; cn_pending := ∅ |};
     cl_replies := cl_replies c; cl_next := cl_next c; cl_stopped := cl_stopped c;
     cl_trace := Trace.Handshaken generation :: cl_trace c |}.

(** The request branch of the dispatch loop. A message whose sending failed may have left. *)
Definition on_request (c : Client) (conn : Connection) (sent : bool) (now : N) : Client :=
  match cn_requests conn with
  | [] => c
  | request :: rest =>
      let conn := with_requests conn rest in
      let c := with_connection c conn in
      if (pending_capacity <=? size (cn_pending conn))%nat
      then reply c (ob_reply request) (Err ControlError.Saturated)
      else
        let c := traced c (Trace.Sent (cn_generation conn) (ob_message request)) in
        if negb sent
        then end_connection (reply c (ob_reply request) (Err ControlError.ConnectionLost))
        else
          let c := match cn_pending conn !! ob_message_id request with
                   | Some replaced => lose c [pe_reply replaced]
                   | None => c
                   end in
          with_connection c (with_pending conn
            (<[ob_message_id request :=
                {| pe_expected := ob_expected request; pe_reply := ob_reply request;
                   pe_deadline := (now + request_timeout)%N |}]> (cn_pending conn)))
  end.

(** The inbound branch: a message of the reader, or the end of the reader. The reader stops
    at a message that does not validate. *)
Definition on_inbound (c : Client) (conn : Connection) (message : option WorkerProtocolMessage.t)
  : Client :=
  match message with
  | None => end_connection c
  | Some message =>
      match WorkerProtocolMessage.validate_shape message with
      | Err _ => end_connection c
      | Ok _ =>
          let c := traced c (Trace.Got (cn_generation conn) message) in
          match classify_inbound message with
          | Inbound.Response in_reply_to payload =>
              match cn_pending conn !! in_reply_to with
              | None => c
              | Some entry =>
                  let c := with_connection c
                             (with_pending conn (delete in_reply_to (cn_pending conn))) in
                  if ResponsePayload.matches payload (pe_expected entry)
                  then reply c (pe_reply entry) (Ok payload)
                  else end_connection
                         (reply c (pe_reply entry) (Err ControlError.CorrelationViolation))
              end
          | Inbound.ProtocolError in_reply_to code =>
              match in_reply_to ≫= λ id, (λ e, (id, e)) <$> cn_pending conn !! id with
              | None => end_connection c
              | Some (id, entry) =>
                  let c := with_connection c
                             (with_pending conn (delete id (cn_pending conn))) in
                  end_connection
                    (reply c (pe_reply entry) (Err (ControlError.ProtocolError code)))
              end
          | Inbound.Unexpected => end_connection c
          end
      end
  end.

(** The deadline branch: the entries due at [now], one after the other. *)
Fixpoint expire (c : Client) (conn : Connection) (due : list Uuid) : Client :=
  match due with
  | [] => c
  | id :: due =>
      match cn_pending conn !! id with
      | None => expire c conn due
      | Some entry =>
          let conn := with_pending conn (delete id (cn_pending conn)) in
          expire (reply (with_connection c conn) (pe_reply entry)
                    (Err (ControlError.Timeout timeout_ms))) conn due
      end
  end.

Definition on_deadline (c : Client) (conn : Connection) (now : N) : Client :=
  expire c conn (fst <$> filter (λ e, (pe_deadline e.2 <= now)%N) (map_to_list (cn_pending conn))).

(** ** Steps *)

(** One step of the driver; steps that do not apply change nothing. *)
Definition client_step (c : Client) (e : ClientEvent.t) : Client :=
  match e, au_phase (cl_authority c), cl_connection c with
  | ClientEvent.Connect, AuthorityPhase.Disconnected, None =>
      if cl_stopped c then c else with_authority c (set_connecting (cl_authority c))
  | ClientEvent.Connected ok, AuthorityPhase.Connecting, None =>
      with_authority c (if ok then set_handshaking (cl_authority c)
                        else set_disconnected (cl_authority c))
  | ClientEvent.Handshake k sent response, AuthorityPhase.Handshaking, None =>
      match perform_handshake k sent response with
      | Ok _ => establish c
      | Err _ => with_authority c (set_disconnected (cl_authority c))
      end
  | ClientEvent.Request sent now, _, Some conn => on_request c conn sent now
  | ClientEvent.Receive message, _, Some conn => on_inbound c conn message
  | ClientEvent.Deadline now, _, Some conn => on_deadline c conn now
  | ClientEvent.Shutdown, _, _ => shut_down c
  | _, _, _ => c
  end.

(** [dispatch] up to the wait for the reply. *)
Definition enqueue (c : Client) (generation : N) (message : WorkerProtocolMessage.t)
    (message_id : Uuid) (expected : ExpectedResponse.t) : Client * Enqueued.t :=
  match cl_connection c with
  | None => (c, Enqueued.Gone)
  | Some conn =>
      if negb (cn_generation conn =? generation)%N then (c, Enqueued.Gone)
      else if (pending_capacity <=? length (cn_requests conn))%nat then (c, Enqueued.Full)
      else
        let waiter := cl_next c in
        let request := {| ob_message := message; ob_message_id := message_id;
                          ob_expected := expected; ob_reply := waiter |} in
        ({| cl_authority := cl_authority c; cl_current := cl_current c;
            cl_connection := Some (with_requests conn (cn_requests conn ++ [request]));
            cl_replies := cl_replies c; cl_next := S waiter; cl_stopped := cl_stopped c;
            cl_trace := Trace.Asked generation request :: cl_trace c |},
         Enqueued.Queued waiter)
  end.
End Driver.
