(* ===== verification/WorkerHttp.v ===== *)
(** * The Worker's HTTP handlers

    Models [crates/worker/src/data_plane/http.rs]: the structural parsing of requests, the
    three handlers (resume discovery, chunk upload, seal and verification) as programs over
    the control client and the storage tasks, and the fixed responses. Routing, TLS and
    reading the bytes of a request are Axum's; [serde_json] and [Uuid::parse_str] are
    parameters. The environment-gated experiment (timing and batches) is left out. *)

From stdpp Require Import prelude gmap strings pretty.
From Stdlib Require Import Strings.Byte NArith ZArith.
From S2P Require Import Prelude.
From S2P Require Import External.
From S2P Require Import Runtime.
From S2P Require Import FileSystem.
From S2P Require Import WorkerProtocol.
From S2P Require Import WorkerStorage.
From S2P Require Import WorkerClient.

(** ** Responses *)

Record Response : Type := { rs_status : N; rs_no_store : bool; rs_body : Value.t }.

Definition json_response (status : N) (body : Value.t) : Response :=
  {| rs_status := status; rs_no_store := true; rs_body := body |}.

Definition error_response (status : N) (code : str) : Response :=
  json_response status
    (Value.Object [(lit "error", Value.Object [(lit "code", Value.String code)])]).

Definition authorization_denied : Response := error_response 401 (lit "AUTHORIZATION_DENIED").
Definition malformed_request : Response := error_response 400 (lit "MALFORMED_REQUEST").
Definition unknown_route : Response := error_response 404 (lit "UNKNOWN_ROUTE").
Definition method_not_allowed : Response := error_response 405 (lit "METHOD_NOT_ALLOWED").
Definition chunk_too_large : Response := error_response 413 (lit "CHUNK_TOO_LARGE").
Definition digest_mismatch : Response := error_response 409 (lit "DIGEST_MISMATCH").
Definition chunk_identity_conflict : Response :=
  error_response 409 (lit "CHUNK_IDENTITY_CONFLICT").
Definition transfer_not_continuable : Response :=
  error_response 409 (lit "TRANSFER_NOT_CONTINUABLE").
Definition incomplete_manifest : Response := error_response 409 (lit "INCOMPLETE_MANIFEST").
Definition manifest_already_sealed : Response :=
  error_response 409 (lit "MANIFEST_ALREADY_SEALED").

Definition chunk_accepted (chunk_index : N) : Response :=
  json_response 201 (Value.Object [(lit "chunk_index", Value.Number (Some chunk_index));
                                   (lit "status", Value.String (lit "accepted"))]).
Definition chunk_already_held (chunk_index : N) : Response :=
  json_response 200 (Value.Object [(lit "chunk_index", Value.Number (Some chunk_index));
                                   (lit "status", Value.String (lit "already_held"))]).

Definition seal_result `{UuidDisplay} (transfer_id artifact_id : Uuid)
    (status : ArtifactVerification.t) : Response :=
  let artifact_status := match status with
                         | ArtifactVerification.Verified => lit "Verified"
                         | ArtifactVerification.Failed => lit "Failed"
                         end in
  json_response 200 (Value.Object
    [(lit "transfer_id", Value.String (uuid_hyphenated transfer_id));
     (lit "artifact_id", Value.String (uuid_hyphenated artifact_id));
     (lit "sealed", Value.Bool true);
     (lit "artifact_status", Value.String artifact_status)]).

Definition digest_algorithm_wire (algorithm : WireDigestAlgorithm.t) : str :=
  match algorithm with WireDigestAlgorithm.Sha256 => lit "sha256" end.

(** ** Structural parsing *)

Definition HEADER_CAPABILITY : str := lit "x-bamep-capability".
Definition HEADER_TRANSFER_PROOF : str := lit "x-bamep-transfer-proof".
Definition HEADER_CHUNK_DIGEST : str := lit "x-bamep-chunk-digest".
Definition PROOF_ID_LEN : nat := 22.
Definition SIGNATURE_LEN : nat := 86.
Definition SHA256_DIGEST_B64_LEN : nat := 43.
Definition SEAL_BODY_LIMIT : nat := N.to_nat 65536.

(** The headers of a request, names in lower case; [get] is the first of a name. *)
Abbreviation HeaderMap := (list (str * list byte)).

(** [HeaderValue::to_str]: visible ASCII and tabs. *)
Definition is_visible_ascii (b : byte) : bool :=
  let n := Byte.to_N b in ((32 <=? n) && (n <? 127) || (n =? 9))%N.

Definition header_str (headers : HeaderMap) (name : str) : option str :=
  match list_find (λ h : str * list byte, h.1 = name) headers with
  | Some (_, (_, value)) => if forallb is_visible_ascii value then Some value else None
  | None => None
  end.

(** [str::parse::<u64>]: an optional plus sign, then digits, within range. *)
Definition digit_value (b : byte) : N := (Byte.to_N b - 48)%N.
Fixpoint parse_digits (digits : str) (acc : N) : option N :=
  match digits with
  | [] => Some acc
  | b :: rest =>
      if negb (is_ascii_digit b) then None
      else
        match checked_mul acc 10 with
        | None => None
        | Some acc =>
            match checked_add acc (digit_value b) with
            | None => None
            | Some acc => parse_digits rest acc
            end
        end
  end.
Definition parse_u64 (s : str) : option N :=
  match s with
  | [] => None
  | x2b :: [] => None
  | x2b :: digits => parse_digits digits 0
  | digits => parse_digits digits 0
  end.

Definition is_ascii_alphanumeric (b : byte) : bool :=
  let n := Byte.to_N b in
  is_ascii_digit b || ((65 <=? n) && (n <=? 90) || (97 <=? n) && (n <=? 122))%N.

(** [str::trim] on visible ASCII and tabs, and [eq_ignore_ascii_case]. *)
Definition is_blank (b : byte) : bool := (Byte.to_N b =? 32)%N || (Byte.to_N b =? 9)%N.
Fixpoint trim_start (s : str) : str :=
  match s with [] => [] | b :: rest => if is_blank b then trim_start rest else s end.
Definition trim (s : str) : str := reverse (trim_start (reverse (trim_start s))).
Definition to_ascii_lowercase (b : byte) : byte :=
  let n := Byte.to_N b in if ((65 <=? n) && (n <=? 90))%N then byte_of_N (n + 32) else b.
Definition eq_ignore_ascii_case (s t : str) : bool :=
  bool_decide (to_ascii_lowercase <$> s = to_ascii_lowercase <$> t).

Section Parsing.
Context {b64 : Base64} {disp : UuidDisplay} {uparse : UuidParse} {jslice : JsonFromSlice}.

Definition is_canonical_base64url_no_pad (value : str) (expected_len : nat) : bool :=
  if negb (bool_decide (length value = expected_len)) then false
  else if negb (forallb (λ b, is_ascii_alphanumeric b || bool_decide (b = x2d)
                              || bool_decide (b = x5f)) value) then false
  else match b64_decode value with
       | Some bytes => bool_decide (b64_encode bytes = value)
       | None => false
       end.

Record CommonProof : Type := {
  cp_token : str;
  cp_proof_id : str;
  cp_issued_at : N;
  cp_signature : str;
}.

Definition parse_common (headers : HeaderMap) : option CommonProof :=
  token ← header_str headers HEADER_CAPABILITY;
  if bool_decide (token = []) then None
  else
    carrier ← header_str headers HEADER_TRANSFER_PROOF;
    match split_on x2e carrier with
    | [proof_id; issued_at_raw; signature] =>
        if negb (is_canonical_base64url_no_pad proof_id PROOF_ID_LEN)
           || negb (is_canonical_base64url_no_pad signature SIGNATURE_LEN) then None
        else
          issued_at ← parse_u64 issued_at_raw;
          if negb (bool_decide (issued_at_raw = decimal issued_at)) then None
          else Some {| cp_token := token; cp_proof_id := proof_id; cp_issued_at := issued_at;
                       cp_signature := signature |}
    | _ => None
    end.

Definition parse_canonical_uuid (raw : str) : option Uuid :=
  parsed ← uuid_parse_str raw;
  if bool_decide (uuid_hyphenated parsed = raw) then Some parsed else None.

Definition parse_canonical_chunk_index (raw : str) : option N :=
  if bool_decide (raw = []) || negb (forallb is_ascii_digit raw) then None
  else
    parsed ← parse_u64 raw;
    if bool_decide (decimal parsed = raw) then Some parsed else None.

Definition content_type_is_octet_stream (headers : HeaderMap) : bool :=
  match header_str headers (lit "content-type") with
  | None => false
  | Some value =>
      match split_on x3b value with
      | media_type :: _ => eq_ignore_ascii_case (trim media_type) (lit "application/octet-stream")
      | [] => false
      end
  end.

Definition declared_content_length (headers : HeaderMap) : option N :=
  value ← header_str headers (lit "content-length"); parse_u64 value.

(** [axum::body::to_bytes]: all data of the body, unless it breaks or exceeds the limit. *)
Fixpoint to_bytes (body : list BodyFrame.t) (have : list byte) (limit : nat)
  : option (list byte) :=
  match body with
  | [] => Some have
  | BodyFrame.Data bytes :: rest =>
      if (limit <? length (have ++ bytes))%nat then None else to_bytes rest (have ++ bytes) limit
  | BodyFrame.Trailers :: rest => to_bytes rest have limit
  | BodyFrame.Error :: _ => None
  end.

Definition object_get (fields : list (str * Value.t)) (key : str) : option Value.t :=
  (λ f, f.2.2) <$> list_find (λ f : str * Value.t, f.1 = key) fields.

Definition read_seal_body (body : list BodyFrame.t) : option (N * str) :=
  bytes ← to_bytes body [] SEAL_BODY_LIMIT;
  value ← json_from_slice bytes;
  match value with
  | Value.Object fields =>
      if negb (bool_decide (length fields = 2)) then None
      else
        match object_get fields (lit "chunk_count"), object_get fields (lit "artifact_digest") with
        | Some (Value.Number (Some chunk_count)), Some (Value.String artifact_digest) =>
            if negb (is_canonical_base64url_no_pad artifact_digest SHA256_DIGEST_B64_LEN) then None
            else Some (chunk_count, artifact_digest)
        | _, _ => None
        end
  | _ => None
  end.
End Parsing.

(** ** Handlers *)

(** The loop over the held chunks: each index above the one before. *)
Fixpoint ascending (previous : option N) (held : list HeldChunk) : bool :=
  match held with
  | [] => true
  | chunk :: rest =>
      match previous with
      | Some previous =>
          if (hc_chunk_index chunk <=? previous)%N then false
          else ascending (Some (hc_chunk_index chunk)) rest
      | None => ascending (Some (hc_chunk_index chunk)) rest
      end
  end.

Definition render_resume `{UuidDisplay} (transfer_id : Uuid) (aggregate : ResumeAggregate)
  : Response :=
  if negb (ascending None (ra_held_chunks aggregate)) then authorization_denied
  else if negb (Bool.eqb (ra_sealed aggregate) (some (ra_expected_chunk_count aggregate)))
  then authorization_denied
  else
    let held := (λ chunk, Value.Object
                   [(lit "chunk_index", Value.Number (Some (hc_chunk_index chunk)));
                    (lit "digest", Value.String (hc_digest chunk))]) <$> ra_held_chunks aggregate in
    json_response 200 (Value.Object
      [(lit "transfer_id", Value.String (uuid_hyphenated transfer_id));
       (lit "sealed", Value.Bool (ra_sealed aggregate));
       (lit "digest_algorithm",
        Value.String (digest_algorithm_wire (ra_digest_algorithm aggregate)));
       (lit "chunk_size", Value.Number (Some (ra_chunk_size aggregate)));
       (lit "expected_chunk_count",
        match ra_expected_chunk_count aggregate with
        | Some count => Value.Number (Some count)
        | None => Value.Null
        end);
       (lit "held_chunks", Value.Array held)]).

Section Handlers.
Context {b64 : Base64} {disp : UuidDisplay} {uparse : UuidParse} {jslice : JsonFromSlice}.
Context {ent : Entropy}.

Definition resume_discovery (fuel : nat) (transfer_id_raw : str) (headers : HeaderMap)
  : hproc Response :=
  match parse_canonical_uuid transfer_id_raw with
  | None => mret malformed_request
  | Some transfer_id =>
      match parse_common headers with
      | None => mret malformed_request
      | Some proof =>
          discovered ← discover_resume fuel
            {| rdi_token := cp_token proof; rdi_transfer_id := transfer_id;
               rdi_proof_id := cp_proof_id proof; rdi_issued_at := cp_issued_at proof;
               rdi_signature := cp_signature proof |};
          mret match discovered with
               | Ok (ResumeDiscovery.Approved aggregate) => render_resume transfer_id aggregate
               | Ok ResumeDiscovery.Denied => authorization_denied
               | Err _ => authorization_denied
               end
      end
  end.

(** The declared digest, when its header is canonical. *)
Definition parse_declared_digest (headers : HeaderMap) : option str :=
  value ← header_str headers HEADER_CHUNK_DIGEST;
  if is_canonical_base64url_no_pad value SHA256_DIGEST_B64_LEN then Some value else None.

(** From the approval on. *)
Definition upload_approved (transfer_id : Uuid) (chunk_index : N) (headers : HeaderMap)
    (declared_digest : str) (body : list BodyFrame.t) (approved : ChunkAuthorizationApproved)
  : hproc Response :=
  if match caa_expected_chunk_digest approved with
     | Some expected => negb (bool_decide (expected = declared_digest))
     | None => false
     end then mret chunk_identity_conflict
  else if match declared_content_length headers with
          | Some announced_len => (caa_chunk_size approved <? announced_len)%N
          | None => false
          end then mret chunk_too_large
  else
    staged ← hcall (HandlerCall.Stage
      {| sr_transfer_id := transfer_id; sr_chunk_index := chunk_index;
         sr_chunk_size := caa_chunk_size approved; sr_declared_digest := declared_digest |} body);
    match staged with
    | StageOutcome.EmptyBody => mret malformed_request
    | StageOutcome.TooLarge => mret chunk_too_large
    | StageOutcome.DigestMismatch => mret digest_mismatch
    | StageOutcome.LocalIdentityConflict | StageOutcome.StorageUnavailable =>
        mret authorization_denied
    | StageOutcome.Finalized verified_size verified_digest =>
        commit_result ← commit_chunk (caa_acceptance_ticket approved) verified_digest verified_size;
        mret match commit_result with
             | Ok ChunkAcceptance.Committed => chunk_accepted chunk_index
             | Ok ChunkAcceptance.AlreadyCommitted => chunk_already_held chunk_index
             | Ok (ChunkAcceptance.Rejected ChunkAcceptanceRejectionReason.ChunkIdentityConflict) =>
                 chunk_identity_conflict
             | Ok (ChunkAcceptance.Rejected ChunkAcceptanceRejectionReason.TransferNotContinuable) =>
                 transfer_not_continuable
             | Err _ => authorization_denied
             end
    end.

Definition chunk_upload (transfer_id_raw chunk_index_raw : str) (headers : HeaderMap)
    (body : list BodyFrame.t) : hproc Response :=
  match parse_canonical_uuid transfer_id_raw with
  | None => mret malformed_request
  | Some transfer_id =>
  match parse_canonical_chunk_index chunk_index_raw with
  | None => mret malformed_request
  | Some chunk_index =>
  match parse_common headers with
  | None => mret malformed_request
  | Some proof =>
  match parse_declared_digest headers with
  | None => mret malformed_request
  | Some declared_digest =>
      if negb (content_type_is_octet_stream headers) then mret malformed_request
      else
        authorize_result ← authorize_chunk
          {| aci_token := cp_token proof; aci_transfer_id := transfer_id;
             aci_chunk_index := chunk_index; aci_proof_id := cp_proof_id proof;
             aci_issued_at := cp_issued_at proof; aci_signature := cp_signature proof |};
        match authorize_result with
        | Ok (ChunkAuthorization.Approved approved) =>
            upload_approved transfer_id chunk_index headers declared_digest body approved
        | Ok ChunkAuthorization.Denied => mret authorization_denied
        | Err _ => mret authorization_denied
        end
  end end end end.

(** From the seal on. *)
Definition verify_sealed (transfer_id : Uuid) (success : SealSuccess) : hproc Response :=
  computed ← hcall (HandlerCall.Compute
    {| fr_transfer_id := transfer_id; fr_chunk_count := ss_chunk_count success;
       fr_chunk_size := ss_chunk_size success |});
  match computed with
  | Err _ => mret authorization_denied
  | Ok full =>
      reported ← report_artifact_verification (ss_verification_ticket success)
                   (to_base64url_no_pad (fd_digest full));
      mret match reported with
           | Ok status => seal_result transfer_id (ss_artifact_id success) status
           | Err _ => authorization_denied
           end
  end.

Definition seal_handler (transfer_id_raw : str) (headers : HeaderMap) (body : list BodyFrame.t)
  : hproc Response :=
  match parse_canonical_uuid transfer_id_raw with
  | None => mret malformed_request
  | Some transfer_id =>
  match parse_common headers with
  | None => mret malformed_request
  | Some proof =>
  match read_seal_body body with
  | None => mret malformed_request
  | Some (chunk_count, artifact_digest) =>
      sealed ← seal_manifest
        {| msi_token := cp_token proof; msi_transfer_id := transfer_id;
           msi_proof_id := cp_proof_id proof; msi_issued_at := cp_issued_at proof;
           msi_signature := cp_signature proof; msi_chunk_count := chunk_count;
           msi_artifact_digest := artifact_digest |};
      match sealed with
      | Ok (ManifestSeal.Sealed success) | Ok (ManifestSeal.AlreadyPendingVerification success) =>
          verify_sealed transfer_id success
      | Ok (ManifestSeal.Rejected ManifestSealRejectionReason.IncompleteManifest) =>
          mret incomplete_manifest
      | Ok (ManifestSeal.Rejected ManifestSealRejectionReason.ManifestAlreadySealed) =>
          mret manifest_already_sealed
      | Ok ManifestSeal.Denied => mret authorization_denied
      | Err _ => mret authorization_denied
      end
  end end end.
End Handlers.

(** A request by its handler. *)
Module HttpRequest.
Inductive t : Type :=
| Resume (transfer_id_raw : str) (headers : HeaderMap)
| Upload (transfer_id_raw chunk_index_raw : str) (headers : HeaderMap) (body : list BodyFrame.t)
| Seal (transfer_id_raw : str) (headers : HeaderMap) (body : list BodyFrame.t).
End HttpRequest.

(** The handlers behind the router's three routes; [fuel] bounds the resume pages. *)
Definition handle `{Base64, UuidDisplay, UuidParse, JsonFromSlice, Entropy} (fuel : nat)
    (request : HttpRequest.t) : hproc Response :=
  match request with
  | HttpRequest.Resume id headers => resume_discovery fuel id headers
  | HttpRequest.Upload id index headers body => chunk_upload id index headers body
  | HttpRequest.Seal id headers body => seal_handler id headers body
  end.
