(* ===== verification/WorkerClientSafety.v ===== *)
(** * Properties of the Worker's control client

    Over any sequence of steps of the driver and of requests handed to it: every waiter is
    answered at most once and never forgotten, an answer is a valid message received on the
    connection its request was sent on, in reply to that request and of the type it expects,
    and nothing outlives its connection. *)

From stdpp Require Import prelude gmap strings.
From Stdlib Require Import Strings.Byte NArith ZArith.
From S2P Require Import Prelude.
From S2P Require Import External.
From S2P Require Import Runtime.
From S2P Require Import WorkerProtocol.
From S2P Require Import WorkerFraming.
From S2P Require Import FileSystem.
From S2P Require Import WorkerStorage.
From S2P Require Import WorkerClient.

(** Steps of the driver, and requests of handlers. *)
Module ClientOp.
Inductive t : Type :=
| Drive (e : ClientEvent.t)
| Ask (generation : N) (m : WorkerProtocolMessage.t) (id : Uuid) (expected : ExpectedResponse.t).
End ClientOp.

Section ClientSafety.
Context {ent : Entropy} {kind : UuidKind}.
Context (capacity : nat) (request_timeout timeout_ms : N) (instance : Uuid).
#[local] Abbreviation step := (client_step capacity request_timeout timeout_ms instance).

(** ** The invariant *)

Definition waiters (c : Client) : list nat :=
  from_option outstanding [] (cl_connection c) ++ (fst <$> map_to_list (cl_replies c)).

(** The waiter of [r] was given [p], which came in reply on [r]'s connection. *)
Definition answered (trace : list Trace.t) (r : OutboundRequest) (g : N) (p : ResponsePayload.t)
  : Prop :=
  ∃ m later earlier, trace = later ++ Trace.Got g m :: earlier
    ∧ Trace.Asked g r ∈ earlier ∧ Trace.Sent g (ob_message r) ∈ earlier
    ∧ classify_inbound m = Inbound.Response (ob_message_id r) p
    ∧ ResponsePayload.matches p (ob_expected r) = true.

Definition trace_generation (t : Trace.t) : N :=
  match t with
  | Trace.Handshaken g | Trace.Asked g _ | Trace.Sent g _ | Trace.Got g _ => g
  end.

(** A connection whose requests were all asked for on it, the pending ones also sent. *)
Record connection_ok (trace : list Trace.t) (conn : Connection) : Prop := {
  co_requests : length (cn_requests conn) ≤ capacity;
  co_size : size (cn_pending conn) ≤ capacity;
  co_asked r : r ∈ cn_requests conn → Trace.Asked (cn_generation conn) r ∈ trace;
  co_pending id e : cn_pending conn !! id = Some e → ∃ r,
    Trace.Asked (cn_generation conn) r ∈ trace ∧
    Trace.Sent (cn_generation conn) (ob_message r) ∈ trace ∧
    ob_message_id r = id ∧ ob_expected r = pe_expected e ∧ ob_reply r = pe_reply e;
}.

Record client_ok (c : Client) : Prop := {
  ck_waiters : waiters c ≡ₚ seq 0 (cl_next c);
  ck_connection conn : cl_connection c = Some conn → connection_ok (cl_trace c) conn;
  ck_current : cl_current c = cn_generation <$> cl_connection c;
  ck_ready : cl_current c = current_generation c;
  ck_generation t : t ∈ cl_trace c → (trace_generation t ≤ au_generation (cl_authority c))%N;
  ck_epochs later g earlier : cl_trace c = later ++ Trace.Handshaken g :: earlier →
    ∀ t, t ∈ earlier → (trace_generation t < g)%N;
  ck_asked g g' r r' : Trace.Asked g r ∈ cl_trace c → Trace.Asked g' r' ∈ cl_trace c →
    ob_reply r = ob_reply r' → g = g' ∧ r = r';
  ck_asked_waiter g r : Trace.Asked g r ∈ cl_trace c → ob_reply r < cl_next c;
  ck_sent g m : Trace.Sent g m ∈ cl_trace c → ∃ r, Trace.Asked g r ∈ cl_trace c ∧ ob_message r = m;
  ck_replies w p : cl_replies c !! w = Some (Ok p) → ∃ g r,
    ob_reply r = w ∧ answered (cl_trace c) r g p;
}.

(** ** Waiters *)

Lemma replies_fresh c w : waiters c ≡ₚ seq 0 (cl_next c) →
  w ∈ from_option outstanding [] (cl_connection c) → cl_replies c !! w = None.
Proof.
  intros Hw Hin. destruct (cl_replies c !! w) as [r|] eqn:Hr; [|done]. exfalso.
  assert (NoDup (waiters c)) as Hnd by (rewrite Hw; apply NoDup_seq).
  apply NoDup_app in Hnd as (_ & Hnd & _). apply (Hnd w Hin).
  apply list_elem_of_fmap. exists (w, r). split; [done|]. by apply elem_of_map_to_list.
Qed.

(** One waiter of the connection is answered. *)
Lemma waiters_settle c conn conn' w r :
  cl_connection c = Some conn → waiters c ≡ₚ seq 0 (cl_next c) →
  outstanding conn ≡ₚ w :: outstanding conn' →
  waiters (reply (with_connection c conn') w r) ≡ₚ seq 0 (cl_next c).
Proof.
  intros Hc Hw Ho. rewrite <-Hw. unfold waiters. simpl. rewrite Hc. simpl.
  rewrite map_to_list_insert, Ho.
  - rewrite fmap_cons. simpl. by rewrite Permutation_middle.
  - apply replies_fresh; [done|]. rewrite Hc. simpl. rewrite Ho. by left.
Qed.

Lemma outstanding_without conn id e :
  cn_pending conn !! id = Some e →
  outstanding conn ≡ₚ pe_reply e :: outstanding (with_pending conn (delete id (cn_pending conn))).
Proof.
  intros He. unfold outstanding. simpl.
  rewrite <-(map_to_list_delete (cn_pending conn) id e He). rewrite fmap_cons. simpl.
  by rewrite Permutation_middle.
Qed.

Lemma lose_fields c ws :
  cl_authority (lose c ws) = cl_authority c ∧ cl_current (lose c ws) = cl_current c ∧
  cl_connection (lose c ws) = cl_connection c ∧ cl_next (lose c ws) = cl_next c ∧
  cl_stopped (lose c ws) = cl_stopped c ∧ cl_trace (lose c ws) = cl_trace c.
Proof. by induction ws as [|w ws IH]; simpl; [|destruct IH as (? & ? & ? & ? & ? & ?)]. Qed.

Lemma lose_replies c ws :
  cl_replies (lose c ws) = foldr (λ w m, <[w := Err ControlError.ConnectionLost]> m) (cl_replies c) ws.
Proof. induction ws as [|w ws IH]; simpl; [done|by rewrite IH]. Qed.

Lemma lose_lookup c ws w p :
  cl_replies (lose c ws) !! w = Some (Ok p) → cl_replies c !! w = Some (Ok p).
Proof.
  induction ws as [|w' ws IH]; simpl; [done|]. rewrite lookup_insert_Some. by intros [[_ ?]|[_ ?%IH]].
Qed.

Lemma lose_waiters (m : gmap nat (result ControlError.t ResponsePayload.t)) ws n :
  ws ++ (fst <$> map_to_list m) ≡ₚ seq 0 n →
  fst <$> map_to_list (foldr (λ w m, <[w := Err ControlError.ConnectionLost]> m) m ws) ≡ₚ seq 0 n.
Proof.
  intros Hp. assert (NoDup (ws ++ (fst <$> map_to_list m))) as Hnd by (rewrite Hp; apply NoDup_seq).
  rewrite <-Hp. clear Hp. induction ws as [|w ws IH]; [done|].
  simpl in *. apply NoDup_cons in Hnd as [Hni Hnd]. specialize (IH Hnd).
  rewrite map_to_list_insert.
  - rewrite fmap_cons. simpl. by rewrite IH.
  - apply eq_None_not_Some. intros [x Hx]. apply Hni. rewrite <-IH. apply list_elem_of_fmap.
    exists (w, x). split; [done|]. by apply elem_of_map_to_list.
Qed.

(** ** Steps keep it *)

Lemma answered_later trace t r g p : answered trace r g p → answered (t :: trace) r g p.
Proof. intros (m & later & earlier & -> & H). by exists m, (t :: later), earlier. Qed.

Lemma connection_later trace t conn : connection_ok trace conn → connection_ok (t :: trace) conn.
Proof.
  intros [H1 H2 H3 H4]. split; [done|done|by intros r ?%H3; right|].
  intros id e (r & ? & ? & ?)%H4. exists r. split; [by right|]. split; [by right|done].
Qed.

(** Fewer requests, fewer pending. *)
Lemma connection_less trace conn conn' :
  connection_ok trace conn → cn_generation conn' = cn_generation conn →
  (∃ l, cn_requests conn = l ++ cn_requests conn') → cn_pending conn' ⊆ cn_pending conn →
  connection_ok trace conn'.
Proof.
  intros [H1 H2 H3 H4] Hg [l Hl] Hp. split; rewrite ?Hg.
  - rewrite Hl, length_app in H1. lia.
  - apply map_subseteq_size in Hp. lia.
  - intros r Hr. apply H3. rewrite Hl. apply elem_of_app. by right.
  - intros id e He. apply H4. by eapply lookup_weaken.
Qed.

(** What a step leaves: the invariant, with answers and the trace only added to. *)
Record advances (c c' : Client) : Prop := {
  ad_ok : client_ok c';
  ad_replies : cl_replies c ⊆ cl_replies c';
  ad_trace : ∃ l, cl_trace c' = l ++ cl_trace c;
  ad_next : cl_next c ≤ cl_next c';
}.

Lemma advances_refl c : client_ok c → advances c c.
Proof. intros H. split; [done|done|by exists []|done]. Qed.

Lemma advances_trans c1 c2 c3 : advances c1 c2 → advances c2 c3 → advances c1 c3.
Proof.
  intros [H1 H2 [l H3] H4] [G1 G2 [l' G3] G4]. split; [done|by etrans| |lia].
  exists (l' ++ l). by rewrite G3, H3, app_assoc.
Qed.

Lemma settle_ok c conn conn' w r :
  client_ok c → cl_connection c = Some conn → cn_generation conn' = cn_generation conn →
  outstanding conn ≡ₚ w :: outstanding conn' → connection_ok (cl_trace c) conn' →
  (∀ p, r = Ok p → ∃ g r', ob_reply r' = w ∧ answered (cl_trace c) r' g p) →
  advances c (reply (with_connection c conn') w r).
Proof.
  intros [H1 H2 H3 H4 H5 He H6 H7 Hsnt H8] Hc Hg Ho Hok Hr. split; [split| |by exists []|done]; simpl; try done.
  - by eapply waiters_settle.
  - by intros ? [= <-].
  - by rewrite H3, Hc, Hg.
  - intros w' p. rewrite lookup_insert_Some. intros [[<- ->]|[_ Hp]]; by auto.
  - apply insert_subseteq, replies_fresh; [done|]. rewrite Hc. simpl. rewrite Ho. by left.
Qed.

Lemma traced_ok c t :
  client_ok c → (trace_generation t ≤ au_generation (cl_authority c))%N →
  match t with
  | Trace.Sent g m => ∃ r, Trace.Asked g r ∈ cl_trace c ∧ ob_message r = m
  | Trace.Got _ _ => True
  | _ => False
  end → advances c (traced c t).
Proof.
  intros [H1 H2 H3 H4 H5 He H6 H7 Hsnt H8] Hg Ht. split; [split| |by exists [t]|done]; simpl; try done.
  - intros conn Hc. by apply connection_later, H2.
  - intros t' [->|?]%elem_of_cons; by auto.
  - intros [|t' later] g earlier; simpl; intros [= Ht' Htr]; [by rewrite Ht' in Ht|by eapply He].
  - intros g g' r r' [Ha|?]%elem_of_cons [Ha'|?]%elem_of_cons;
      try (by rewrite <-Ha in Ht); try (by rewrite <-Ha' in Ht); by apply H6.
  - intros g r [Ha|?]%elem_of_cons; [by rewrite <-Ha in Ht|by eapply H7].
  - intros g m [Ha|Ha]%elem_of_cons; [rewrite <-Ha in Ht; destruct Ht as (r & ? & ?)|
      apply Hsnt in Ha as (r & ? & ?)]; (exists r; split; [by right|done]).
  - intros w p (g & r & ? & ?)%H8. exists g, r. by split; [|apply answered_later].
Qed.

Lemma lose_other (m : gmap nat (result ControlError.t ResponsePayload.t)) ws w :
  w ∉ ws → foldr (λ w m, <[w := Err ControlError.ConnectionLost]> m) m ws !! w = m !! w.
Proof.
  induction ws as [|w' ws IH]; simpl; [done|]. rewrite not_elem_of_cons. intros [Hne Hni].
  rewrite lookup_insert_ne by done. by apply IH.
Qed.

Lemma end_ok c : client_ok c → advances c (end_connection c).
Proof.
  intros [H1 H2 H3 H4 H5 He H6 H7 Hsnt H8]. unfold end_connection.
  destruct (cl_connection c) as [conn|] eqn:Hc.
  - destruct (lose_fields c (outstanding conn)) as (Ha & Hcu & Hco & Hn & Hs & Ht).
    assert (outstanding conn ++ (fst <$> map_to_list (cl_replies c)) ≡ₚ seq 0 (cl_next c)) as Hw.
    { rewrite <-H1. unfold waiters. by rewrite Hc. }
    split; [split| | |]; simpl; rewrite ?Ht, ?Hn, ?Ha; try done.
    + unfold waiters. simpl. rewrite lose_replies. by apply lose_waiters.
    + intros w p Hp%lose_lookup. by apply H8.
    + rewrite lose_replies. apply map_subseteq_spec. intros w r Hr. rewrite lose_other; [done|].
      intros Hin. assert (cl_replies c !! w = None) as Hn'; [|by rewrite Hn' in Hr].
      apply replies_fresh; [done|]. by rewrite Hc.
    + by exists [].
  - split; [split| |by exists []|done]; simpl; try done.
    + unfold waiters in *. simpl. by rewrite Hc in *.
    + by rewrite Hc.
Qed.

Lemma connection_generation c conn :
  client_ok c → cl_connection c = Some conn →
  cn_generation conn = au_generation (cl_authority c) ∧
  au_phase (cl_authority c) = AuthorityPhase.Ready.
Proof.
  intros [_ _ H3 H4 _ _ _ _ _ _] Hc. rewrite H3, Hc in H4. unfold current_generation in H4. simpl in H4.
  unfold is_available in H4. case_bool_decide; [|done]. by injection H4.
Qed.

Lemma with_requests_same conn l : cn_requests conn = l → with_requests conn l = conn.
Proof. intros <-. by destruct conn. Qed.

(** A request leaves the queue for the table. *)
Lemma pending_ok c conn r rest entry :
  client_ok c → cl_connection c = Some conn → cn_requests conn = r :: rest →
  Trace.Sent (cn_generation conn) (ob_message r) ∈ cl_trace c →
  size (cn_pending conn) < capacity → cn_pending conn !! ob_message_id r = None →
  pe_expected entry = ob_expected r → pe_reply entry = ob_reply r →
  advances c (with_connection c (with_pending (with_requests conn rest)
    (<[ob_message_id r := entry]> (cn_pending conn)))).
Proof.
  intros [H1 H2 H3 H4 H5 He H6 H7 Hsnt H8] Hc Hr Hsent Hs Hn Hex Hre.
  split; [split|done|by exists []|done]; simpl; try done.
  - rewrite <-H1. unfold waiters. simpl. rewrite Hc. simpl. unfold outstanding. simpl.
    rewrite map_to_list_insert, fmap_cons, Hr by done. simpl. rewrite Hre, <-!app_assoc. simpl.
    by rewrite <-Permutation_middle.
  - intros ? [= <-]. destruct (H2 _ Hc) as [G1 G2 G3 G4]. rewrite Hr in G1, G3. simpl in G1.
    split; simpl.
    + lia.
    + rewrite map_size_insert_None by done. lia.
    + intros r' Hr'. apply G3. by right.
    + intros id e. rewrite lookup_insert_Some. intros [[<- <-]|[_ He']]; [|by apply G4].
      exists r. split_and!; try done. apply G3. by left.
  - by rewrite H3, Hc.
Qed.

(** A pending request is answered. *)
Lemma settle_pending_ok c conn id e r :
  client_ok c → cl_connection c = Some conn → cn_pending conn !! id = Some e →
  (∀ p, r = Ok p → ∃ g r', ob_reply r' = pe_reply e ∧ answered (cl_trace c) r' g p) →
  advances c (reply (with_connection c (with_pending conn (delete id (cn_pending conn))))
                (pe_reply e) r).
Proof.
  intros Hok Hc He Hr. apply (settle_ok c conn); [done|done|done|by apply outstanding_without| |done].
  apply (connection_less _ conn);
    [by apply (ck_connection _ Hok)|done|by exists []|apply delete_subseteq].
Qed.

Lemma on_request_ok c conn sent now :
  client_ok c → cl_connection c = Some conn →
  advances c (on_request capacity request_timeout c conn sent now).
Proof.
  intros Hok Hc. unfold on_request.
  destruct (cn_requests conn) as [|r rest] eqn:Hr; [by apply advances_refl|].
  destruct (connection_generation _ _ Hok Hc) as [Hg _].
  set (conn1 := with_requests conn rest).
  assert (outstanding conn ≡ₚ ob_reply r :: outstanding conn1) as Ho.
  { unfold outstanding. by rewrite Hr. }
  assert (∀ c', client_ok c' → cl_connection c' = Some conn →
            connection_ok (cl_trace c') conn1) as Hco1.
  { intros c' Hok' Hc'. apply (connection_less _ conn); [by apply (ck_connection _ Hok')|done|
      by exists [r]|done]. }
  destruct (capacity <=? size (cn_pending conn1)) eqn:Hcap.
  { apply (settle_ok c conn conn1); [done|done|done|done|by apply Hco1|done]. }
  apply Nat.leb_gt in Hcap.
  set (t := Trace.Sent (cn_generation conn) (ob_message r)).
  assert (advances c (traced c t)) as Htr.
  { apply traced_ok; [done|simpl; lia|]. exists r. split; [|done].
    apply (co_asked _ _ (ck_connection _ Hok _ Hc)). rewrite Hr. by left. }
  eapply advances_trans; [exact Htr|]. apply ad_ok in Htr. set (c2 := traced c t) in *.
  assert (cl_connection c2 = Some conn) as Hc2 by done.
  destruct sent; cbn [negb].
  2: { eapply advances_trans; [|by apply end_ok; eapply ad_ok;
         apply (settle_ok c2 conn conn1); [..|apply Hco1|]].
       by apply (settle_ok c2 conn conn1); [..|apply Hco1|]. }
  destruct (cn_pending conn1 !! ob_message_id r) as [replaced|] eqn:Hrep.
  - pose proof (settle_pending_ok c2 conn _ _ (Err ControlError.ConnectionLost) Htr Hc2 Hrep
      ltac:(done)) as Hst. eapply advances_trans; [exact Hst|]. apply ad_ok in Hst.
    set (conn3 := with_pending conn _) in *.
    pose proof (pending_ok _ conn3 r rest
      {| pe_expected := ob_expected r; pe_reply := ob_reply r;
         pe_deadline := (now + request_timeout)%N |} Hst eq_refl Hr) as Hp.
    simpl in Hp. rewrite insert_delete_eq in Hp. apply Hp; try done; [by left| |apply lookup_delete_eq].
    change (cn_pending conn1) with (cn_pending conn) in *. rewrite map_size_delete, Hrep. lia.
  - apply (pending_ok c2 conn); try done. by left.
Qed.

Lemma on_inbound_ok c conn m :
  client_ok c → cl_connection c = Some conn → advances c (on_inbound c conn m).
Proof.
  intros Hok Hc. unfold on_inbound. destruct m as [m|]; [|by apply end_ok].
  case_match; [|by apply end_ok]. destruct (connection_generation _ _ Hok Hc) as [Hg _].
  pose proof (ck_connection _ Hok _ Hc) as Hco.
  assert (advances c (traced c (Trace.Got (cn_generation conn) m))) as Htr
    by (apply traced_ok; [done|simpl; lia|done]).
  eapply advances_trans; [exact Htr|]. apply ad_ok in Htr. set (c2 := traced c _) in *.
  assert (cl_connection c2 = Some conn) as Hc2 by done.
  assert (∀ id e er, cn_pending conn !! id = Some e →
            advances c2 (end_connection (reply (with_connection c2
              (with_pending conn (delete id (cn_pending conn)))) (pe_reply e) (Err er)))) as Hend.
  { intros id e er He. pose proof (settle_pending_ok c2 conn id e (Err er) Htr Hc2 He ltac:(done))
      as Hst. eapply advances_trans; [exact Hst|]. by apply end_ok, (ad_ok _ _ Hst). }
  destruct (classify_inbound m) as [id p|id code|] eqn:Hcl; [| |by apply end_ok].
  - destruct (cn_pending conn !! id) as [e|] eqn:He; [|by apply advances_refl].
    destruct (ResponsePayload.matches p (pe_expected e)) eqn:Hm; [|by apply Hend].
    apply settle_pending_ok; [done..|]. intros ? [= <-].
    destruct (co_pending _ _ Hco _ _ He) as (r & Ha & Hs & Hid & Hex & Hrep).
    exists (cn_generation conn), r. split; [done|].
    exists m, [], (cl_trace c). split_and!; try done; [by rewrite Hid|by rewrite Hex].
  - destruct id as [id|]; simpl; [|by apply end_ok].
    destruct (cn_pending conn !! id) as [e|] eqn:He; simpl; [by apply Hend|by apply end_ok].
Qed.

Lemma expire_ok c conn due :
  client_ok c → cl_connection c = Some conn → advances c (expire timeout_ms c conn due).
Proof.
  revert c conn. induction due as [|id due IH]; intros c conn Hok Hc; simpl; [by apply advances_refl|].
  destruct (cn_pending conn !! id) as [e|] eqn:He; [|by apply IH].
  pose proof (settle_pending_ok c conn id e (Err (ControlError.Timeout timeout_ms)) Hok Hc He
    ltac:(done)) as Hst. eapply advances_trans; [exact Hst|]. apply IH; [by eapply ad_ok|done].
Qed.

Lemma enqueue_ok c g m id expected c' r :
  client_ok c → enqueue capacity c g m id expected = (c', r) → advances c c'.
Proof.
  intros Hok. unfold enqueue. destruct (cl_connection c) as [conn|] eqn:Hc;
    [|intros [= <- <-]; by apply advances_refl].
  case_match eqn:Hg; [intros [= <- <-]; by apply advances_refl|].
  apply negb_false_iff, N.eqb_eq in Hg. subst g.
  case_match eqn:Hcap; [intros [= <- <-]; by apply advances_refl|]. apply Nat.leb_gt in Hcap.
  destruct (connection_generation _ _ Hok Hc) as [Hg Hph].
  destruct Hok as [H1 H2 H3 H4 H5 He H6 H7 Hsnt H8]. intros [= <- <-].
  set (req := {| ob_message := m |}). set (t := Trace.Asked _ req).
  split; [split|done|by exists [t]|simpl; lia]; simpl; try done.
  - pose proof (seq_S (cl_next c) 0) as Hseq. cbn [seq] in Hseq. rewrite Hseq, <-H1. unfold waiters. simpl. rewrite Hc. simpl. unfold outstanding. simpl.
    rewrite fmap_app, <-!app_assoc. simpl. rewrite <-!Permutation_middle.
    rewrite app_nil_r. by rewrite !app_assoc.
  - intros ? [= <-]. destruct (H2 _ Hc) as [G1 G2 G3 G4]. split; simpl.
    + rewrite length_app. simpl. lia.
    + done.
    + intros r [?%G3|Hr]%elem_of_app; [by right|]. apply list_elem_of_singleton in Hr as ->. by left.
    + intros i e (r & ? & ? & ?)%G4. exists r. split; [by right|]. split; [by right|done].
  - by rewrite H3, Hc.
  - intros t' [->|?]%elem_of_cons; [simpl; lia|by auto].
  - intros [|t' later] g earlier; simpl; intros [= <- Htr]; by eapply He.
  - intros g g' r r' [[= -> ->]|Ha]%elem_of_cons [[= -> ->]|Ha']%elem_of_cons; simpl; try done.
    + intros Heq. apply H7 in Ha'. lia.
    + intros Heq. apply H7 in Ha. lia.
    + by apply H6.
  - intros g r [[= -> ->]|Ha]%elem_of_cons; simpl; [lia|]. apply H7 in Ha. lia.
  - intros g m' [?|(r & ? & ?)%Hsnt]%elem_of_cons; [done|]. exists r. by split; [right|].
  - intros w p (g & r & ? & ?)%H8. exists g, r. by split; [|apply answered_later].
Qed.

Lemma establish_ok c :
  client_ok c → cl_connection c = None → (au_generation (cl_authority c) + 1 < 2 ^ 64)%N →
  advances c (establish c).
Proof.
  intros [H1 H2 H3 H4 H5 He H6 H7 Hsnt H8] Hc Hlt. unfold establish, set_ready.
  rewrite N.mod_small by done. set (g := (_ + 1)%N).
  split; [split|done|by exists [Trace.Handshaken g]|done]; simpl; try done.
  - rewrite <-H1. unfold waiters. simpl. by rewrite Hc.
  - intros ? [= <-]. split; simpl; [lia|rewrite map_size_empty; lia|by intros ? ?%elem_of_nil|].
    by intros id e; rewrite lookup_empty.
  - intros t [->|Ht%H5]%elem_of_cons; simpl; lia.
  - intros [|t' later] g' earlier; simpl.
    + intros [= Hg1 Hg2] t Ht. rewrite <-Hg2 in Ht. apply H5 in Ht. lia.
    + intros [= Hg1 Htr]. by eapply He.
  - intros g1 g2 r r' [?|?]%elem_of_cons [?|?]%elem_of_cons; try done; by apply H6.
  - intros g1 r [?|?]%elem_of_cons; [done|by eapply H7].
  - intros g1 m [?|(r & ? & ?)%Hsnt]%elem_of_cons; [done|]. exists r. by split; [right|].
  - intros w p (g1 & r & ? & ?)%H8. exists g1, r. by split; [|apply answered_later].
Qed.

Lemma phase_ok c phase :
  client_ok c → cl_connection c = None → phase ≠ AuthorityPhase.Ready →
  advances c (with_authority c (set_phase (cl_authority c) phase)).
Proof.
  intros [H1 H2 H3 H4 H5 He H6 H7 Hsnt H8] Hc Hp. split; [split|done|by exists []|done]; simpl; try done.
  rewrite H3, Hc. unfold current_generation, is_available. simpl. by rewrite bool_decide_eq_false_2.
Qed.

Lemma end_connection_none c : cl_connection (end_connection c) = None.
Proof. unfold end_connection. by destruct (cl_connection c) eqn:Hc. Qed.

Lemma shut_down_ok c : client_ok c → advances c (shut_down c).
Proof.
  intros Hok. apply end_ok in Hok as [[H1 H2 H3 H4 H5 He H6 H7 Hsnt H8] G2 G3 G4].
  pose proof (end_connection_none c) as Hn. split; [split|..]; simpl; try done.
  - by rewrite Hn.
  - rewrite H3, Hn in H4. exact H4.
Qed.

Lemma client_step_ok c e :
  client_ok c → (au_generation (cl_authority c) + 1 < 2 ^ 64)%N → advances c (step c e).
Proof.
  intros Hok Hlt. unfold client_step. destruct e, (au_phase (cl_authority c)) eqn:Hph,
    (cl_connection c) as [conn|] eqn:Hc; try (by apply advances_refl);
    try (by apply on_request_ok); try (by apply on_inbound_ok); try (by apply expire_ok);
    try (by apply shut_down_ok).
  - destruct (cl_stopped c); [by apply advances_refl|by apply phase_ok].
  - by destruct ok; apply phase_ok.
  - destruct (perform_handshake _ _ _ _); [by apply establish_ok|by apply phase_ok].
Qed.

Lemma lose_authority c : cl_authority (end_connection c) = set_disconnected (cl_authority c).
Proof.
  unfold end_connection. destruct (cl_connection c) as [conn|]; [|done]. simpl.
  by destruct (lose_fields c (outstanding conn)) as (-> & _).
Qed.

(** Handshakes are counted one by one. *)
Lemma step_generation c e :
  (au_generation (cl_authority (step c e)) ≤ au_generation (cl_authority c) + 1)%N.
Proof.
  assert (∀ c, au_generation (cl_authority (end_connection c)) = au_generation (cl_authority c)) as Hend.
  { intros c'. by rewrite lose_authority. }
  assert (∀ c ws, au_generation (cl_authority (lose c ws)) = au_generation (cl_authority c)) as Hlose.
  { intros c' ws. by destruct (lose_fields c' ws) as (-> & _). }
  assert (∀ due c conn, au_generation (cl_authority (expire timeout_ms c conn due))
            = au_generation (cl_authority c)) as Hexp.
  { induction due as [|id due IH]; intros c' conn; simpl; [done|]. case_match; by rewrite IH. }
  unfold client_step, shut_down, on_request, on_inbound, on_deadline, establish, set_ready.
  repeat case_match; simpl; rewrite ?Hend, ?Hexp, ?Hlose; simpl; try lia.
  all: try (rewrite Hend; simpl; lia).
  apply N.Div0.mod_le.
Qed.

(** Only handlers ask. *)
Lemma step_asked c e g r :
  Trace.Asked g r ∈ cl_trace (step c e) → Trace.Asked g r ∈ cl_trace c.
Proof.
  assert (∀ c, cl_trace (end_connection c) = cl_trace c) as Hend.
  { intros c'. unfold end_connection. case_match; [|done]. simpl.
    by destruct (lose_fields c' (outstanding c0)) as (_ & _ & _ & _ & _ & ->). }
  assert (∀ c ws, cl_trace (lose c ws) = cl_trace c) as Hlose.
  { intros c' ws. by destruct (lose_fields c' ws) as (_ & _ & _ & _ & _ & ->). }
  assert (∀ due c conn, cl_trace (expire timeout_ms c conn due) = cl_trace c) as Hexp.
  { induction due as [|id due IH]; intros c' conn; simpl; [done|]. case_match; by rewrite IH. }
  unfold client_step, shut_down, on_request, on_inbound, on_deadline, establish, set_ready.
  repeat case_match; simpl; rewrite ?Hend, ?Hexp, ?Hlose; simpl; rewrite ?Hend; simpl; try done;
    by intros [?|?]%elem_of_cons.
Qed.

Lemma enqueue_generation c g m id expected :
  cl_authority (enqueue capacity c g m id expected).1 = cl_authority c.
Proof. unfold enqueue. by repeat case_match. Qed.

(** ** Runs *)

Definition client_op (c : Client) (op : ClientOp.t) : Client :=
  match op with
  | ClientOp.Drive e => step c e
  | ClientOp.Ask g m id expected => (enqueue capacity c g m id expected).1
  end.

Fixpoint client_run (c : Client) (ops : list ClientOp.t) : Client :=
  match ops with [] => c | op :: ops => client_run (client_op c op) ops end.

Lemma client_op_ok c op :
  client_ok c → (au_generation (cl_authority c) + 1 < 2 ^ 64)%N → advances c (client_op c op).
Proof.
  intros Hok Hlt. destruct op as [e|g m id ex]; simpl; [by apply client_step_ok|].
  destruct (enqueue capacity c g m id ex) as [c' r] eqn:He. by eapply enqueue_ok.
Qed.

Lemma client_op_generation c op :
  (au_generation (cl_authority (client_op c op)) ≤ au_generation (cl_authority c) + 1)%N.
Proof.
  destruct op as [e|g m id ex]; simpl; [apply step_generation|]. rewrite enqueue_generation. lia.
Qed.

Lemma client_run_ok c ops :
  client_ok c → (au_generation (cl_authority c) + N.of_nat (length ops) < 2 ^ 64)%N →
  advances c (client_run c ops).
Proof.
  revert c. induction ops as [|op ops IH]; intros c Hok Hlt; simpl in *; [by apply advances_refl|].
  pose proof (client_op_generation c op) as Hg.
  assert (advances c (client_op c op)) as Hop by (apply client_op_ok; [done|lia]).
  eapply advances_trans; [exact Hop|]. apply IH; [by eapply ad_ok|lia].
Qed.

Lemma client_run_app c ops ops' :
  client_run c (ops ++ ops') = client_run (client_run c ops) ops'.
Proof. revert c. induction ops as [|op ops IH]; intros c; simpl; [done|apply IH]. Qed.

Lemma run_generation ops :
  (au_generation (cl_authority (client_run worker_control ops)) ≤ N.of_nat (length ops))%N.
Proof.
  induction ops as [|op ops IH] using rev_ind; [done|]. rewrite client_run_app, length_app. simpl.
  pose proof (client_op_generation (client_run worker_control ops) op). lia.
Qed.

Lemma worker_control_ok : client_ok worker_control.
Proof.
  split; simpl; try done; try (by intros ? ?%elem_of_nil); try (by intros ? ? ?%elem_of_nil).
  - by intros [|t later] g earlier.
  - by intros g g' r r' ?%elem_of_nil.
Qed.

(** ** Properties *)

Lemma run_ok ops :
  (N.of_nat (length ops) < 2 ^ 64)%N → advances worker_control (client_run worker_control ops).
Proof. intros Hlt. apply client_run_ok; [apply worker_control_ok|simpl; lia]. Qed.

(** C20. Replies belong to their requests: in any run of the driver and of requests handed to
    it (fewer than 2^64 steps), a waiter that is given a reply was the waiter of exactly one
    request; that request was queued for and sent on a connection, and the reply is a message
    received later on the same connection, with a valid envelope, in reply to the identity of
    that request and of the type it expects. Connections are told apart by their generation:
    before a handshake that yields a generation nothing carries it. *)
Theorem replies_correlated ops w p :
  let c := client_run worker_control ops in
  (N.of_nat (length ops) < 2 ^ 64)%N → cl_replies c !! w = Some (Ok p) →
  ∃ g r, ob_reply r = w ∧ answered (cl_trace c) r g p ∧
    (∀ g' r', Trace.Asked g' r' ∈ cl_trace c → ob_reply r' = w → g' = g ∧ r' = r) ∧
    (∀ later earlier t, cl_trace c = later ++ Trace.Handshaken g :: earlier → t ∈ earlier →
       trace_generation t < g)%N.
Proof.
  intros c Hlt Hw. pose proof (ad_ok _ _ (run_ok ops Hlt)) as Hok. fold c in Hok.
  destruct (ck_replies _ Hok _ _ Hw) as (g & r & Hr & Ha). exists g, r. split_and!; [done|done| |].
  - intros g' r' Hr' Hw'. destruct Ha as (m & later & earlier & Ht & Hask & _).
    eapply (ck_asked _ Hok); [done| |by rewrite Hr, Hw']. rewrite Ht. apply elem_of_app. right.
    by right.
  - intros later earlier t Ht. by apply (ck_epochs _ Hok _ _ _ Ht).
Qed.

(** C21. The client fails closed: at any point of any run every waiter either has its one
    answer, or is waiting on the live connection, never both; without a connection all are
    answered, none waits in vain. Answers are final. Neither the queue nor the table ever
    exceeds the capacity, and a connection is published exactly while it lives. *)
Theorem client_fails_closed ops ops' :
  let c := client_run worker_control ops in
  let c' := client_run worker_control (ops ++ ops') in
  (N.of_nat (length (ops ++ ops')) < 2 ^ 64)%N →
  (∀ w, w < cl_next c ↔
     is_Some (cl_replies c !! w) ∨ w ∈ from_option outstanding [] (cl_connection c)) ∧
  (∀ w, is_Some (cl_replies c !! w) → w ∉ from_option outstanding [] (cl_connection c)) ∧
  cl_replies c ⊆ cl_replies c' ∧
  cl_current c = cn_generation <$> cl_connection c ∧ cl_current c = current_generation c ∧
  ∀ conn, cl_connection c = Some conn →
    length (cn_requests conn) ≤ capacity ∧ size (cn_pending conn) ≤ capacity.
Proof.
  intros c c' Hlt. rewrite length_app in Hlt.
  pose proof (ad_ok _ _ (run_ok ops ltac:(lia))) as Hok. fold c in Hok.
  pose proof (ck_waiters _ Hok) as Hw. unfold waiters in Hw.
  assert (∀ w, w ∈ (fst <$> map_to_list (cl_replies c)) ↔ is_Some (cl_replies c !! w)) as Hd.
  { intros w. rewrite list_elem_of_fmap. split.
    - intros ([w' r] & -> & ?%elem_of_map_to_list). by eexists.
    - intros [r Hr]. exists (w, r). split; [done|]. by apply elem_of_map_to_list. }
  split_and!.
  - intros w. transitivity (w ∈ seq 0 (cl_next c)); [rewrite elem_of_seq; lia|].
    rewrite <-Hw, elem_of_app, Hd. tauto.
  - intros w [r Hr] Hin. by rewrite (replies_fresh c w) in Hr.
  - unfold c'. rewrite client_run_app. fold c. apply ad_replies, client_run_ok; [done|].
    assert (au_generation (cl_authority c) ≤ N.of_nat (length ops))%N; [|lia].
    apply run_generation.
  - apply (ck_current _ Hok).
  - apply (ck_ready _ Hok).
  - intros conn Hc. by destruct (ck_connection _ Hok _ Hc).
Qed.
End ClientSafety.
