(* ===== verification/WorkerSystem.v ===== *)
(** * The Worker as a whole

    Request handlers, the control client and the storage of one Worker, step by step in any
    interleaving: handlers come in, make their calls and finish or are dropped when their
    client goes away; storage threads run on; the process may be restarted and the power may
    fail. Follows [crates/worker/src/main.rs] in what is shared: storage is initialised
    before requests are served, and all handlers use one client and one store. *)

From stdpp Require Import prelude gmap strings.
From Stdlib Require Import Strings.Byte NArith ZArith.
From S2P Require Import Prelude.
From S2P Require Import External.
From S2P Require Import Runtime.
From S2P Require Import WorkerProtocol.
From S2P Require Import FileSystem.
From S2P Require Import StorageLogic.
From S2P Require Import WorkerStorage.
From S2P Require Import StoragePrograms.
From S2P Require Import StorageSystem.
From S2P Require Import StorageTheorems.
From S2P Require Import WorkerClient.
From S2P Require Import WorkerHttp.

(** A handler about to run on, or waiting for a reply or for a storage thread. *)
Module HandlerState.
Inductive t : Type :=
| Running (p : hproc Response)
| AwaitReply (waiter : nat) (k : result ControlError.t ResponsePayload.t → hproc Response)
| AwaitStage (thread : nat) (k : StageOutcome.t → hproc Response)
| AwaitCompute (thread : nat)
    (k : result FullArtifactError.t FullArtifactDigest → hproc Response).
End HandlerState.

(** [wk_past] holds the traces of earlier processes. *)
Record Worker : Type := {
  wk_store : store;
  wk_client : Client;
  wk_handlers : gmap nat (HttpRequest.t * HandlerState.t);
  wk_accepted : nat;
  wk_past : list (list Trace.t);
}.

(** [Boot], [Ready] and [Thread] are steps of startup and of storage threads; [Advance] of a
    handler, with the place of a draw it may make; [Drop] the end of a handler whose client
    went away, when it is streaming a body after so many messages. *)
Module WorkerEvent.
Inductive t : Type :=
| Boot (ch : choice)
| Ready
| Thread (i : nat) (ch : choice)
| Drive (e : ClientEvent.t)
| Accept (request : HttpRequest.t)
| Advance (handler k : nat)
| Drop (handler messages : nat)
| Restart
| PowerLoss (keep : path → bool) (garbage : nat → list byte).
End WorkerEvent.

Section WorkerSteps.
Context {b64 : Base64} {sha : Sha256} {disp : UuidDisplay} {simple : UuidSimple} {ent : Entropy}.
Context {kind : UuidKind} {uparse : UuidParse} {jslice : JsonFromSlice}.
(** The storage root, the bounds of scans, chunk sizes and resume pages, and the client's
    configuration. *)
Context (name : str) (fuel : nat) (limit : N) (pages : nat).
Context (capacity : nat) (request_timeout timeout_ms : N) (instance : Uuid).
#[local] Abbreviation root := (path_of name).
#[local] Abbreviation happen := (happen name fuel limit).

Definition with_store (w : Worker) (st : store) : Worker :=
  {| wk_store := st; wk_client := wk_client w; wk_handlers := wk_handlers w;
     wk_accepted := wk_accepted w; wk_past := wk_past w |}.
Definition with_client (w : Worker) (c : Client) : Worker :=
  {| wk_store := wk_store w; wk_client := c; wk_handlers := wk_handlers w;
     wk_accepted := wk_accepted w; wk_past := wk_past w |}.
Definition with_handlers (w : Worker) (h : gmap nat (HttpRequest.t * HandlerState.t)) : Worker :=
  {| wk_store := wk_store w; wk_client := wk_client w; wk_handlers := h;
     wk_accepted := wk_accepted w; wk_past := wk_past w |}.
Definition set_handler (w : Worker) (i : nat) (request : HttpRequest.t) (h : HandlerState.t)
  : Worker := with_handlers w (<[i := (request, h)]> (wk_handlers w)).

(** Starts a storage task, if storage is up, and gives its thread. *)
Definition spawn (w : Worker) (task : Task.t) : option (Worker * nat) :=
  match so_boot (wk_store w) with
  | None =>
      if valid_task limit task
      then Some (with_store w (happen (wk_store w) (Event.Spawn task)),
                 length (so_tasks (wk_store w)))
      else None
  | Some _ => None
  end.

(** A call of handler [i]. [Dispatch] waits while the queue is full. *)
Definition advance_call (w : Worker) (i : nat) (request : HttpRequest.t) (place : nat)
    (c : HandlerCall.t) : (HandlerCall.answer c → hproc Response) → Worker :=
  match c with
  | HandlerCall.Stamp => λ k, set_handler w i request (HandlerState.Running (k place))
  | HandlerCall.Borrow => λ k,
      set_handler w i request (HandlerState.Running (k (cl_current (wk_client w))))
  | HandlerCall.Dispatch generation message message_id expected => λ k,
      let '(client, queued) :=
        enqueue capacity (wk_client w) generation message message_id expected in
      let w := with_client w client in
      match queued with
      | Enqueued.Full => w
      | Enqueued.Gone =>
          set_handler w i request (HandlerState.Running (k (Err ControlError.NotConnected)))
      | Enqueued.Queued waiter => set_handler w i request (HandlerState.AwaitReply waiter k)
      end
  | HandlerCall.Stage r body => λ k,
      match spawn w (Task.Stage r (pump body)) with
      | Some (w, thread) => set_handler w i request (HandlerState.AwaitStage thread k)
      | None => w
      end
  | HandlerCall.Compute r => λ k,
      match spawn w (Task.Compute r) with
      | Some (w, thread) => set_handler w i request (HandlerState.AwaitCompute thread k)
      | None => w
      end
  end.

(** A thread that panicked is a [JoinError] to the handler that awaits it. *)
Definition advance (w : Worker) (i : nat) (request : HttpRequest.t) (place : nat)
    (h : HandlerState.t) : Worker :=
  let run p := set_handler w i request (HandlerState.Running p) in
  match h with
  | HandlerState.Running (HDo c k) => advance_call w i request place c k
  | HandlerState.Running _ => w
  | HandlerState.AwaitReply waiter k =>
      match cl_replies (wk_client w) !! waiter with Some r => run (k r) | None => w end
  | HandlerState.AwaitStage thread k =>
      match so_threads (wk_store w) !! thread with
      | Some (Ret (TaskResult.Staged o)) => run (k o)
      | Some Panic => run (k StageOutcome.StorageUnavailable)
      | _ => w
      end
  | HandlerState.AwaitCompute thread k =>
      match so_threads (wk_store w) !! thread with
      | Some (Ret (TaskResult.Computed r)) => run (k r)
      | Some Panic => run (k (Err FullArtifactError.BlockingTaskFailed))
      | _ => w
      end
  end.

(** A handler dropped while it streams a body has handed over the messages so far; the
    staging thread then finds the channel closed. *)
Definition drop_handler (w : Worker) (i : nat) (messages : nat) (h : HandlerState.t) : Worker :=
  let w := with_handlers w (delete i (wk_handlers w)) in
  match h with
  | HandlerState.Running (HDo (HandlerCall.Stage r body) _) =>
      match spawn w (Task.Stage r (take messages (pump body))) with Some (w, _) => w | None => w end
  | _ => w
  end.

(** A new process over the store [st]. *)
Definition fresh_process (w : Worker) (st : store) : Worker :=
  {| wk_store := st; wk_client := worker_control; wk_handlers := ∅; wk_accepted := 0;
     wk_past := cl_trace (wk_client w) :: wk_past w |}.

Definition worker_step (w : Worker) (e : WorkerEvent.t) : Worker :=
  match e with
  | WorkerEvent.Boot ch => with_store w (happen (wk_store w) (Event.Boot ch))
  | WorkerEvent.Ready => with_store w (happen (wk_store w) Event.Ready)
  | WorkerEvent.Thread i ch => with_store w (happen (wk_store w) (Event.Thread i ch))
  | WorkerEvent.Drive e =>
      with_client w (client_step capacity request_timeout timeout_ms instance (wk_client w) e)
  | WorkerEvent.Accept request =>
      match so_boot (wk_store w) with
      | Some _ => w
      | None =>
          {| wk_store := wk_store w; wk_client := wk_client w;
             wk_handlers := <[wk_accepted w :=
               (request, HandlerState.Running (handle pages request))]> (wk_handlers w);
             wk_accepted := S (wk_accepted w); wk_past := wk_past w |}
      end
  | WorkerEvent.Advance i place =>
      match wk_handlers w !! i with
      | Some (request, h) => advance w i request place h
      | None => w
      end
  | WorkerEvent.Drop i messages =>
      match wk_handlers w !! i with
      | Some (_, h) => drop_handler w i messages h
      | None => w
      end
  | WorkerEvent.Restart => fresh_process w (happen (wk_store w) Event.Restart)
  | WorkerEvent.PowerLoss keep garbage =>
      fresh_process w (happen (wk_store w) (Event.PowerLoss keep garbage))
  end.

Fixpoint worker_run (w : Worker) (es : list WorkerEvent.t) : Worker :=
  match es with [] => w | e :: es => worker_run (worker_step w e) es end.

(** A first process on the file system [s0]. *)
Definition worker_start (s0 : fs) : Worker :=
  {| wk_store := start name s0 []; wk_client := worker_control; wk_handlers := ∅;
     wk_accepted := 0; wk_past := [] |}.
End WorkerSteps.
