(* ===== verification/WorkerSystemSafety.v ===== *)
(** * What a Worker says is true

    A program logic for request handlers: facts a handler has learnt from replies and storage
    threads, and what it must know to send a request or to answer. Every handler follows it;
    so, in any interleaving, a Worker asks for acceptance only of chunks it stores, reports
    only digests of what it stores, uses handles only on the connection that gave them, and
    answers its clients truthfully. *)

From stdpp Require Import prelude gmap strings.
From Stdlib Require Import Strings.Byte NArith ZArith.
From S2P Require Import Prelude.
From S2P Require Import External.
From S2P Require Import Runtime.
From S2P Require Import WorkerProtocol.
From S2P Require Import FileSystem.
From S2P Require Import StorageLogic.
From S2P Require Import WorkerStorage.
From S2P Require Import StoragePrograms.
From S2P Require Import StorageSystem.
From S2P Require Import StorageTheorems.
From S2P Require Import WorkerClient.
From S2P Require Import WorkerHttp.
From S2P Require Import WorkerClientSafety.
From S2P Require Import WorkerSystem.

(** ** Facts *)

Module Fact.
Inductive t : Type :=
| Answered (generation : N) (m : WorkerProtocolMessage.t) (p : ResponsePayload.t)
| Stored (transfer_id : Uuid) (chunk_index : N) (digest : str) (size : N)
| Rebuilt (r : FullArtifactRequest) (digest : str).
End Fact.

(** What must hold of a message to be sent on a connection, given what is known. *)
Definition permitted (known : Fact.t → Prop) (g : N) (m : WorkerProtocolMessage.t) : Prop :=
  match m with
  | WorkerProtocolMessage.AuthorizationQuery _ | WorkerProtocolMessage.ResumeDiscoveryQuery _
  | WorkerProtocolMessage.ManifestSealRequest _ => True
  | WorkerProtocolMessage.ChunkAcceptanceRequest a => ∃ q d size,
      known (Fact.Answered g (WorkerProtocolMessage.AuthorizationQuery q)
               (ResponsePayload.Authorization d)) ∧
      adm_decision (body d) = AuthorizationDecisionOutcome.Approved ∧
      adm_acceptance_handle (body d) = Some (car_acceptance_handle (body a)) ∧
      adm_chunk_size (body d) = Some size ∧ (1 ≤ car_size (body a) ≤ size)%N ∧
      aq_transfer_id (body q) = car_transfer_id (body a) ∧
      aq_chunk_index (body q) = car_chunk_index (body a) ∧
      known (Fact.Stored (car_transfer_id (body a)) (car_chunk_index (body a))
               (car_digest (body a)) (car_size (body a)))
  | WorkerProtocolMessage.ArtifactVerificationReport v => ∃ q d count size,
      known (Fact.Answered g (WorkerProtocolMessage.ManifestSealRequest q)
               (ResponsePayload.ManifestSeal d)) ∧
      msd_verification_handle (body d) = Some (avr_verification_handle (body v)) ∧
      msd_chunk_count (body d) = Some count ∧ msd_chunk_size (body d) = Some size ∧
      known (Fact.Rebuilt {| fr_transfer_id := msr_transfer_id (body q);
                             fr_chunk_count := count; fr_chunk_size := size |}
               (avr_computed_artifact_digest (body v)))
  | WorkerProtocolMessage.ResumeDiscoveryContinue c => ∃ q d,
      known (Fact.Answered g q (ResponsePayload.ResumePage d)) ∧
      rp_resume_cursor (body d) = Some (rc_resume_cursor (body c))
  | _ => False
  end.

Lemma permitted_mono (K K' : Fact.t → Prop) g m :
  (∀ f, K f → K' f) → permitted K g m → permitted K' g m.
Proof. intros HK. destruct m; simpl; naive_solver. Qed.

(** Requests are tracked under the id of their own message. *)
#[local] Abbreviation own_id m := (env_message_id (WorkerProtocolMessage.get_envelope m)).

(** ** Handler logic *)

Section HandlerLogic.
Context {b64 : Base64} {sha : Sha256} {disp : UuidDisplay} {ent : Entropy}.

Definition hcall_spec (K : list Fact.t) (c : HandlerCall.t)
  : (list Fact.t → HandlerCall.answer c → Prop) → Prop :=
  match c with
  | HandlerCall.Stamp => λ Φ, ∀ place, Φ K place
  | HandlerCall.Borrow => λ Φ, ∀ current, Φ K current
  | HandlerCall.Dispatch g m id expected => λ Φ,
      permitted (.∈ K) g m ∧ id = own_id m ∧ (∀ e, Φ K (Err e)) ∧
      (∀ p, ResponsePayload.matches p expected = true → Φ (Fact.Answered g m p :: K) (Ok p))
  | HandlerCall.Stage r _ => λ Φ,
      (∀ o, (∀ n d, o ≠ StageOutcome.Finalized n d) → Φ K o) ∧
      (∀ n, (1 ≤ n ≤ sr_chunk_size r)%N →
         Φ (Fact.Stored (sr_transfer_id r) (sr_chunk_index r) (sr_declared_digest r) n :: K)
           (StageOutcome.Finalized n (sr_declared_digest r)))
  | HandlerCall.Compute r => λ Φ,
      (∀ e, Φ K (Err e)) ∧
      (∀ f, Φ (Fact.Rebuilt r (to_base64url_no_pad (fd_digest f)) :: K) (Ok f))
  end.

Fixpoint hwp {A} (K : list Fact.t) (p : hproc A) (Q : list Fact.t → A → Prop) : Prop :=
  match p with
  | HRet a => Q K a
  | HDo c k => hcall_spec K c (λ K' r, hwp K' (k r) Q)
  | HSpin => True
  end.

Lemma hcall_spec_mono K c (Φ Ψ : list Fact.t → HandlerCall.answer c → Prop) :
  (∀ K' r, Φ K' r → Ψ K' r) → hcall_spec K c Φ → hcall_spec K c Ψ.
Proof. intros HΦ. destruct c; simpl; naive_solver. Qed.

Lemma hwp_mono {A} K (p : hproc A) (Q Q' : list Fact.t → A → Prop) :
  (∀ K' a, Q K' a → Q' K' a) → hwp K p Q → hwp K p Q'.
Proof.
  intros HQ. revert K. induction p as [a|c k IH|]; intros K; simpl; [by auto| |done].
  apply hcall_spec_mono. intros K' r. by apply IH.
Qed.

Lemma hwp_bind {A B} K (p : hproc A) (f : A → hproc B) Q :
  hwp K p (λ K' a, hwp K' (f a) Q) → hwp K (p ≫= f) Q.
Proof.
  revert K. induction p as [a|c k IH|]; intros K; [done| |done].
  apply (hcall_spec_mono K c). intros K' r. by apply IH.
Qed.

Lemma hwp_htry {E A B} K (p : hproc (result E A)) (f : A → hproc (result E B)) Q :
  hwp K p (λ K' r, match r with Ok a => hwp K' (f a) Q | Err e => Q K' (Err e) end) →
  hwp K (htry p f) Q.
Proof. intros H. apply hwp_bind. revert H. apply hwp_mono. by intros K' [a|e]. Qed.

Lemma hwp_ret {A} K (a : A) Q : Q K a → hwp K (mret a) Q.
Proof. done. Qed.

Lemma hwp_call K c Q : hcall_spec K c Q → hwp K (hcall c) Q.
Proof. apply hcall_spec_mono. done. Qed.

Lemma hwp_stamp {B} K (gen : Gen (Message B)) Q :
  (∀ place, Q K (gen place).1) → hwp K (hstamp gen) Q.
Proof. done. Qed.

Lemma hwp_ok_or {A} K (o : option A) Q :
  (∀ a, o = Some a → Q K (Ok a)) → (∀ e, Q K (Err e)) → hwp K (hok_or o) Q.
Proof. intros H1 H2. unfold hok_or. destruct o; simpl; by auto. Qed.

Lemma hwp_dispatch K g m id expected Q :
  permitted (.∈ K) g m → id = own_id m → (∀ e, Q K (Err e)) →
  (∀ p, ResponsePayload.matches p expected = true → Q (Fact.Answered g m p :: K) (Ok (g, p))) →
  hwp K (dispatch g m id expected) Q.
Proof. intros Hm Hid He Hp. apply hwp_htry, hwp_call. by split_and!. Qed.

Lemma hwp_send_request K m id expected Q :
  (∀ g, permitted (.∈ K) g m) → id = own_id m → (∀ e, Q K (Err e)) →
  (∀ g p, ResponsePayload.matches p expected = true → Q (Fact.Answered g m p :: K) (Ok (g, p))) →
  hwp K (send_request m id expected) Q.
Proof.
  intros Hm Hid He Hp. apply hwp_bind, hwp_call. intros [g|]; [|by apply He].
  apply hwp_dispatch; [done|done|done|apply Hp].
Qed.

Lemma hwp_send_scoped K g m id expected Q :
  permitted (.∈ K) g m → id = own_id m → (∀ e, Q K (Err e)) →
  (∀ p, ResponsePayload.matches p expected = true → Q (Fact.Answered g m p :: K) (Ok (g, p))) →
  hwp K (send_scoped_request g m id expected) Q.
Proof.
  intros Hm Hid He Hp. apply hwp_bind, hwp_call. intros [g'|]; [|by apply He].
  destruct (N.eqb_spec g' g) as [->|]; [by apply hwp_dispatch|]. by apply hwp_ret.
Qed.

(** The operations of the client: what each learns. *)

Lemma hwp_authorize_chunk K input Q :
  (∀ K' e, Q K' (Err e)) → (∀ K', Q K' (Ok ChunkAuthorization.Denied)) →
  (∀ g q d a, let t := caa_acceptance_ticket a in
     adm_decision (body d) = AuthorizationDecisionOutcome.Approved →
     adm_acceptance_handle (body d) = Some (act_handle t) →
     adm_chunk_size (body d) = Some (caa_chunk_size a) → act_generation t = g →
     aq_transfer_id (body q) = aci_transfer_id input →
     aq_chunk_index (body q) = aci_chunk_index input →
     act_transfer_id t = aci_transfer_id input → act_chunk_index t = aci_chunk_index input →
     Q (Fact.Answered g (WorkerProtocolMessage.AuthorizationQuery q)
          (ResponsePayload.Authorization d) :: K) (Ok (ChunkAuthorization.Approved a))) →
  hwp K (authorize_chunk input) Q.
Proof.
  intros He Hd Ha. apply hwp_bind, hwp_stamp. intros place. apply hwp_htry, hwp_send_request;
    [done|done|by intros e|]. intros g p Hp. destruct p as [d| | | |]; try done.
  destruct (adm_decision (body d)) eqn:Hdec; [|by apply Hd].
  apply hwp_htry, hwp_ok_or; [|by intros e]. intros algo _.
  apply hwp_htry, hwp_ok_or; [|by intros e]. intros size Hsize.
  apply hwp_htry, hwp_ok_or; [|by intros e]. intros handle Hh. by apply hwp_ret, Ha.
Qed.

Lemma hwp_commit_chunk K ticket digest size Q :
  (∀ place, permitted (.∈ K) (act_generation ticket)
     (WorkerProtocolMessage.ChunkAcceptanceRequest
        (ChunkAcceptanceRequestMessage_new (act_handle ticket) (act_transfer_id ticket)
           (act_chunk_index ticket) digest size place).1)) →
  (∀ K' e, Q K' (Err e)) →
  (∀ a d, car_transfer_id (body a) = act_transfer_id ticket →
     car_chunk_index (body a) = act_chunk_index ticket → car_digest (body a) = digest →
     car_size (body a) = size → ∀ r,
     match cad_outcome (body d), r with
     | ChunkAcceptanceOutcome.Committed, ChunkAcceptance.Committed
     | ChunkAcceptanceOutcome.AlreadyCommitted, ChunkAcceptance.AlreadyCommitted
     | ChunkAcceptanceOutcome.Rejected, ChunkAcceptance.Rejected _ => True
     | _, _ => False
     end →
     Q (Fact.Answered (act_generation ticket) (WorkerProtocolMessage.ChunkAcceptanceRequest a)
          (ResponsePayload.ChunkAcceptance d) :: K) (Ok r)) →
  hwp K (commit_chunk ticket digest size) Q.
Proof.
  intros Hp He Ha. apply hwp_bind, hwp_stamp. intros place. apply hwp_htry, hwp_send_scoped;
    [apply Hp|done|by intros e|]. intros p Hm. destruct p as [|d| | |]; try done.
  destruct (cad_outcome (body d)) eqn:Ho.
  - apply hwp_ret, Ha; try done. by rewrite Ho.
  - apply hwp_ret, Ha; try done. by rewrite Ho.
  - apply hwp_htry, hwp_ok_or; [|by intros e]. intros reason _.
    apply hwp_ret, Ha; try done. by rewrite Ho.
Qed.

Lemma hwp_report K ticket digest Q :
  (∀ place, permitted (.∈ K) (vt_generation ticket)
     (WorkerProtocolMessage.ArtifactVerificationReport
        (ArtifactVerificationReportMessage_new (vt_handle ticket) digest place).1)) →
  (∀ K' e, Q K' (Err e)) →
  (∀ v ack, avr_computed_artifact_digest (body v) = digest →
     Q (Fact.Answered (vt_generation ticket) (WorkerProtocolMessage.ArtifactVerificationReport v)
          (ResponsePayload.ArtifactVerification ack) :: K)
       (Ok match ava_artifact_status (body ack) with
           | WireArtifactStatus.Verified => ArtifactVerification.Verified
           | WireArtifactStatus.Failed => ArtifactVerification.Failed
           end)) →
  hwp K (report_artifact_verification ticket digest) Q.
Proof.
  intros Hp He Ha. apply hwp_bind, hwp_stamp. intros place. apply hwp_htry, hwp_send_scoped;
    [apply Hp|done|by intros e|]. intros p Hm. destruct p as [| | | |ack]; try done.
  by apply hwp_ret, Ha.
Qed.

(** The facts of a committed seal. *)
Definition seal_facts (g : N) (d : Message ManifestSealDecisionBody) (s : SealSuccess) : Prop :=
  vt_generation (ss_verification_ticket s) = g ∧
  msd_verification_handle (body d) = Some (vt_handle (ss_verification_ticket s)) ∧
  msd_chunk_count (body d) = Some (ss_chunk_count s) ∧
  msd_chunk_size (body d) = Some (ss_chunk_size s) ∧
  msd_artifact_id (body d) = Some (ss_artifact_id s).

Lemma hwp_seal_manifest K input Q :
  (∀ K' r, (∀ s, r ≠ Ok (ManifestSeal.Sealed s)) →
     (∀ s, r ≠ Ok (ManifestSeal.AlreadyPendingVerification s)) → Q K' r) →
  (∀ g q d s r, msr_transfer_id (body q) = msi_transfer_id input → seal_facts g d s →
     r = ManifestSeal.Sealed s ∨ r = ManifestSeal.AlreadyPendingVerification s →
     Q (Fact.Answered g (WorkerProtocolMessage.ManifestSealRequest q)
          (ResponsePayload.ManifestSeal d) :: K) (Ok r)) →
  hwp K (seal_manifest input) Q.
Proof.
  intros He Hs. apply hwp_bind, hwp_stamp. intros place. apply hwp_htry, hwp_send_request;
    [done|done|by intros e; apply He|]. intros g p Hm. destruct p as [| | |d|]; try done.
  cbv beta iota zeta. destruct (msd_outcome (body d)); cbv iota.
  3: { apply hwp_htry, hwp_ok_or; [|by intros e; apply He]. intros reason _. by apply hwp_ret, He. }
  3: by apply hwp_ret, He.
  all: apply hwp_htry; do 6 (apply hwp_htry, hwp_ok_or; [|by intros e; apply He]; intros ? ?);
    apply hwp_ret; cbv beta iota; apply hwp_ret; eapply Hs; by auto.
Qed.

Lemma hwp_resume_pages K fuel g held cursor Q :
  (∀ next, cursor = Some next → ∃ q d,
     Fact.Answered g q (ResponsePayload.ResumePage d) ∈ K ∧
     rp_resume_cursor (body d) = Some next) →
  (∀ K' r, K ⊆ K' → Q K' r) → hwp K (resume_pages fuel g held cursor) Q.
Proof.
  revert K held cursor. induction fuel as [|fuel IH]; intros K held [next|] Hc HQ;
    cbn [resume_pages]; try (by apply hwp_ret, HQ); [done|].
  apply hwp_bind, hwp_stamp. intros place. apply hwp_htry, hwp_send_scoped.
  - simpl. by apply Hc.
  - done.
  - by intros e; apply HQ.
  - intros p Hm. destruct p as [| |d| |]; try done. case_match; [apply hwp_ret, HQ; set_solver|].
    destruct (approved_continuation_page d) as [page|] eqn:Hd; [|apply hwp_ret, HQ; set_solver].
    apply IH; [|intros K' r HK; apply HQ; set_solver]. intros next' Hn. eexists _, d.
    split; [by left|]. revert Hd. unfold approved_continuation_page.
    repeat case_match; try done. intros [= <-]. done.
Qed.

Lemma hwp_discover_resume K fuel input Q :
  (∀ K' r, (∀ a, r ≠ Ok (ResumeDiscovery.Approved a)) → Q K' r) →
  (∀ K' g q d a, rdq_transfer_id (body q) = rdi_transfer_id input →
     Fact.Answered g (WorkerProtocolMessage.ResumeDiscoveryQuery q)
       (ResponsePayload.ResumePage d) ∈ K' →
     rp_decision (body d) = ResumeDiscoveryDecision.Approved →
     Q K' (Ok (ResumeDiscovery.Approved a))) →
  hwp K (discover_resume fuel input) Q.
Proof.
  intros He Ha. apply hwp_bind, hwp_stamp. intros place. apply hwp_htry, hwp_send_request;
    [done|done|by intros e; apply He|]. intros g p Hm. destruct p as [| |d| |]; try done.
  case_bool_decide as Hd; [by apply hwp_ret, He|].
  destruct (approved_first_page d) as [first|] eqn:Hf; [|by apply hwp_ret, He].
  apply hwp_htry, hwp_resume_pages.
  - intros next Hn. eexists _, d. split; [by left|]. revert Hf. unfold approved_first_page.
    repeat case_match; try done. intros [= <-]. done.
  - intros K' [held|e] HK; [|by apply He]. apply hwp_ret. eapply Ha; [|apply HK; by left|].
    + done.
    + by destruct (rp_decision (body d)).
Qed.

(** ** Handlers follow the logic *)

Context {uparse : UuidParse} {jslice : JsonFromSlice}.

(** What a response of an upload with a success status says. *)
Definition upload_true (known : Fact.t → Prop) (transfer_id_raw chunk_index_raw : str)
    (headers : HeaderMap) (response : Response) (outcome : ChunkAcceptanceOutcome.t) : Prop :=
  ∃ t i g a d, parse_canonical_uuid transfer_id_raw = Some t ∧
    parse_canonical_chunk_index chunk_index_raw = Some i ∧
    parse_declared_digest headers = Some (car_digest (body a)) ∧
    car_transfer_id (body a) = t ∧ car_chunk_index (body a) = i ∧
    known (Fact.Stored t i (car_digest (body a)) (car_size (body a))) ∧
    known (Fact.Answered g (WorkerProtocolMessage.ChunkAcceptanceRequest a)
             (ResponsePayload.ChunkAcceptance d)) ∧ cad_outcome (body d) = outcome.

(** What a response says, by its request and status. *)
Definition response_true (request : HttpRequest.t) (known : Fact.t → Prop) (response : Response)
  : Prop :=
  rs_status response ∈ [200; 201; 400; 401; 409; 413]%N ∧
  match request with
  | HttpRequest.Upload id index headers _ =>
      (rs_status response = 201%N →
         upload_true known id index headers response ChunkAcceptanceOutcome.Committed) ∧
      (rs_status response = 200%N →
         upload_true known id index headers response ChunkAcceptanceOutcome.AlreadyCommitted)
  | HttpRequest.Seal id _ _ =>
      rs_status response = 200%N → ∃ t artifact g g' q d v ack count size,
        parse_canonical_uuid id = Some t ∧
        known (Fact.Answered g (WorkerProtocolMessage.ManifestSealRequest q)
                 (ResponsePayload.ManifestSeal d)) ∧ msr_transfer_id (body q) = t ∧
        msd_artifact_id (body d) = Some artifact ∧ msd_chunk_count (body d) = Some count ∧
        msd_chunk_size (body d) = Some size ∧
        known (Fact.Rebuilt {| fr_transfer_id := t; fr_chunk_count := count;
                               fr_chunk_size := size |} (avr_computed_artifact_digest (body v))) ∧
        known (Fact.Answered g' (WorkerProtocolMessage.ArtifactVerificationReport v)
                 (ResponsePayload.ArtifactVerification ack)) ∧
        response = seal_result t artifact
          match ava_artifact_status (body ack) with
          | WireArtifactStatus.Verified => ArtifactVerification.Verified
          | WireArtifactStatus.Failed => ArtifactVerification.Failed
          end
  | HttpRequest.Resume id _ =>
      rs_status response = 200%N → ∃ t g q d,
        parse_canonical_uuid id = Some t ∧ rdq_transfer_id (body q) = t ∧
        known (Fact.Answered g (WorkerProtocolMessage.ResumeDiscoveryQuery q)
                 (ResponsePayload.ResumePage d)) ∧
        rp_decision (body d) = ResumeDiscoveryDecision.Approved
  end.

Lemma response_true_mono request (K K' : Fact.t → Prop) response :
  (∀ f, K f → K' f) → response_true request K response → response_true request K' response.
Proof.
  intros HK [Hs Hr]. split; [done|]. destruct request; simpl in *; unfold upload_true in *;
    naive_solver eauto 20.
Qed.

(** An error response says nothing. *)
Lemma error_true request known response :
  rs_status response ∈ [400; 401; 409; 413]%N → response_true request known response.
Proof.
  rewrite !elem_of_cons. intros Hs. split; [rewrite !elem_of_cons; naive_solver|].
  destruct request; (repeat split); intros He; rewrite He in Hs;
    destruct Hs as [?|[?|[?|[?|?%elem_of_nil]]]]; done.
Qed.
Ltac refused := cbv beta iota; apply hwp_ret, error_true; by apply (bool_decide_unpack _).

Lemma hwp_upload_approved K id index headers body t i declared g q d approved :
  let request := HttpRequest.Upload id index headers body in
  let ticket := caa_acceptance_ticket approved in
  parse_canonical_uuid id = Some t → parse_canonical_chunk_index index = Some i →
  parse_declared_digest headers = Some declared →
  Fact.Answered g (WorkerProtocolMessage.AuthorizationQuery q)
    (ResponsePayload.Authorization d) ∈ K →
  adm_decision (WorkerProtocol.body d) = AuthorizationDecisionOutcome.Approved →
  adm_acceptance_handle (WorkerProtocol.body d) = Some (act_handle ticket) →
  adm_chunk_size (WorkerProtocol.body d) = Some (caa_chunk_size approved) →
  act_generation ticket = g → aq_transfer_id (WorkerProtocol.body q) = t →
  aq_chunk_index (WorkerProtocol.body q) = i → act_transfer_id ticket = t →
  act_chunk_index ticket = i →
  hwp K (upload_approved t i headers declared body approved)
    (λ K', response_true request (.∈ K')).
Proof.
  intros request ticket Ht Hi Hdec Hfact Hd Hh Hsize Hg Hqt Hqi Htt Hti.
  unfold upload_approved.
  destruct (match caa_expected_chunk_digest approved with Some _ => _ | None => _ end);
    [refused|].
  destruct (match declared_content_length headers with Some _ => _ | None => _ end);
    [refused|].
  apply hwp_bind, hwp_call. split.
  { intros o Ho. destruct o as [n dg| | | | |]; [by destruct (Ho n dg)|refused..]. }
  intros n Hn. simpl in Hn. apply hwp_bind, hwp_commit_chunk.
  - intros place. simpl. exists q, d, (caa_chunk_size approved). fold ticket.
    rewrite Hg, Htt, Hti. split_and!; try done; [by right|lia|lia|by left].
  - intros K' e. refused.
  - intros a dec Ha1 Ha2 Ha3 Ha4 r Hr. fold ticket in Ha1, Ha2.
    assert (∀ response, upload_true (.∈ Fact.Answered (act_generation ticket)
              (WorkerProtocolMessage.ChunkAcceptanceRequest a) (ResponsePayload.ChunkAcceptance dec)
              :: Fact.Stored t i declared n :: K) id index headers response
              (cad_outcome (WorkerProtocol.body dec))) as Hup.
    { intros response. exists t, i, (act_generation ticket), a, dec.
      rewrite Ha1, Ha2, Ha3, Ha4. by split_and!; [..|right; left|left|]. }
    apply hwp_ret. destruct (cad_outcome (WorkerProtocol.body dec)) eqn:Hout, r as [| |reason];
      try done; [| |destruct reason; apply error_true; by apply (bool_decide_unpack _)].
    + split; [by apply (bool_decide_unpack _)|]. split; [intros _; apply Hup|done].
    + split; [by apply (bool_decide_unpack _)|]. split; [done|intros _; apply Hup].
Qed.

Lemma hwp_chunk_upload id index headers body :
  hwp [] (chunk_upload id index headers body)
    (λ K, response_true (HttpRequest.Upload id index headers body) (.∈ K)).
Proof.
  unfold chunk_upload. destruct (parse_canonical_uuid id) as [t|] eqn:Ht; [|refused].
  destruct (parse_canonical_chunk_index index) as [i|] eqn:Hi; [|refused].
  destruct (parse_common headers) as [proof|]; [|refused].
  destruct (parse_declared_digest headers) as [declared|] eqn:Hd; [|refused].
  case_match; [refused|]. apply hwp_bind, hwp_authorize_chunk.
  - intros K' e. refused.
  - intros K'. refused.
  - intros g q d a. intros.
    apply (hwp_upload_approved _ id index headers body t i declared g q d); try done. by left.
Qed.

Lemma hwp_verify_sealed K id headers body t g q d s :
  parse_canonical_uuid id = Some t → msr_transfer_id (WorkerProtocol.body q) = t →
  seal_facts g d s →
  Fact.Answered g (WorkerProtocolMessage.ManifestSealRequest q)
    (ResponsePayload.ManifestSeal d) ∈ K →
  hwp K (verify_sealed t s) (λ K', response_true (HttpRequest.Seal id headers body) (.∈ K')).
Proof.
  intros Ht Hq (Hg & Hh & Hc & Hs & Hart) Hf. unfold verify_sealed.
  apply hwp_bind, hwp_call. split; [intros e; refused|]. intros f.
  apply hwp_bind, hwp_report.
  - intros place. simpl. exists q, d, (ss_chunk_count s), (ss_chunk_size s). rewrite Hg, Hq.
    split_and!; try done; [by right|by left].
  - intros K' e. refused.
  - intros v ack Hv. apply hwp_ret. split; [by apply (bool_decide_unpack _)|]. intros _.
    exists t, (ss_artifact_id s), g, (vt_generation (ss_verification_ticket s)), q, d, v, ack,
      (ss_chunk_count s), (ss_chunk_size s).
    split_and!; try done; [by right; right|rewrite Hv; by right; left|by left].
Qed.

Lemma hwp_seal_handler id headers body :
  hwp [] (seal_handler id headers body)
    (λ K, response_true (HttpRequest.Seal id headers body) (.∈ K)).
Proof.
  unfold seal_handler. destruct (parse_canonical_uuid id) as [t|] eqn:Ht; [|refused].
  destruct (parse_common headers) as [proof|]; [|refused].
  destruct (read_seal_body body) as [[count digest]|]; [|refused].
  apply hwp_bind, hwp_seal_manifest.
  - intros K' [[s|s|[]|]|e] H1 H2; try refused; [by destruct (H1 s)|by destruct (H2 s)].
  - intros g q d s r Hq Hs Hr. assert (hwp (Fact.Answered g
      (WorkerProtocolMessage.ManifestSealRequest q) (ResponsePayload.ManifestSeal d) :: [])
      (verify_sealed t s) (λ K, response_true (HttpRequest.Seal id headers body) (.∈ K))) as Hw
      by (apply (hwp_verify_sealed _ id headers body t g q d s); try done; by left).
    by destruct Hr as [-> | ->].
Qed.

Lemma hwp_handle pages request :
  hwp [] (handle pages request) (λ K, response_true request (.∈ K)).
Proof.
  destruct request as [id headers|id index headers body|id headers body]; simpl;
    [|apply hwp_chunk_upload|apply hwp_seal_handler].
  unfold resume_discovery. destruct (parse_canonical_uuid id) as [t|] eqn:Ht; [|refused].
  destruct (parse_common headers) as [proof|]; [|refused].
  apply hwp_bind, hwp_discover_resume.
  - intros K' [[a|]|e] Hr; try refused. by destruct (Hr a).
  - intros K' g q d a Hq Hf Hd. apply hwp_ret. unfold render_resume.
    case_match; [apply error_true; by apply (bool_decide_unpack _)|].
    case_match; [apply error_true; by apply (bool_decide_unpack _)|].
    split; [by apply (bool_decide_unpack _)|]. intros _. by exists t, g, q, d.
Qed.
End HandlerLogic.

(** ** Facts and their truth *)

Section WorkerInvariant.
Context {b64 : Base64} {sha : Sha256} {disp : UuidDisplay} {simple : UuidSimple} {ent : Entropy}.
Context {kind : UuidKind} {uparse : UuidParse} {jslice : JsonFromSlice}.
Context {disp_laws : UuidDisplayLaws} {simple_laws : UuidSimpleLaws}.
Context (name : str) (fuel : nat) (limit : N) (pages : nat).
Context (capacity : nat) (request_timeout timeout_ms : N) (instance : Uuid).
#[local] Abbreviation root := (path_of name).
#[local] Abbreviation step :=
  (worker_step name fuel limit pages capacity request_timeout timeout_ms instance).

Definition fact_true (tr : list Trace.t) (s : fs) (f : Fact.t) : Prop :=
  match f with
  | Fact.Answered g m p => ∃ r, ob_message r = m ∧ answered tr r g p
  | Fact.Stored t i digest size => ∃ d,
      contents s (final_path root t i) = Some d ∧ to_base64url_no_pad (sha256 d) = digest ∧
      N.of_nat (length d) = size
  | Fact.Rebuilt r digest => ∃ ds,
      length ds = N.to_nat (fr_chunk_count r) ∧
      (∀ j d, ds !! j = Some d →
         contents s (final_path root (fr_transfer_id r) (N.of_nat j)) = Some d) ∧
      chunk_sizes (N.to_nat (fr_chunk_count r)) (fr_chunk_size r) ds ∧
      digest = to_base64url_no_pad (sha256 (concat ds))
  end.

(** Finalized chunks of [s] are there in [s']. *)
Definition kept (s s' : fs) : Prop :=
  ∀ t i d, contents s (final_path root t i) = Some d → contents s' (final_path root t i) = Some d.

Lemma fact_kept tr l s s' f : kept s s' → fact_true tr s f → fact_true (l ++ tr) s' f.
Proof.
  intros Hk. destruct f as [g m p|t i digest size|r digest]; simpl.
  - intros (r & ? & m' & later & earlier & -> & ?). exists r. split; [done|].
    exists m', (l ++ later), earlier. split; [by rewrite app_assoc|done].
  - intros (d & ?%Hk & ?). by exists d.
  - intros (ds & ? & Hds & ? & ?). exists ds. split_and!; [done| |done..]. intros j d ?%Hds. by apply Hk.
Qed.

(** ** The invariant *)

#[local] Abbreviation Q request := (λ K, response_true request (.∈ K)).

Definition handler_ok (tr : list Trace.t) (st : store) (request : HttpRequest.t)
    (h : HandlerState.t) : Prop :=
  ∃ K, (∀ f, f ∈ K → fact_true tr (so_fs st) f) ∧
  match h with
  | HandlerState.Running p => hwp K p (Q request)
  | HandlerState.AwaitReply w k => ∃ g r, ob_reply r = w ∧ Trace.Asked g r ∈ tr ∧
      (∀ e, hwp K (k (Err e)) (Q request)) ∧
      (∀ p, ResponsePayload.matches p (ob_expected r) = true →
         hwp (Fact.Answered g (ob_message r) p :: K) (k (Ok p)) (Q request))
  | HandlerState.AwaitStage j k => ∃ r rx body, so_tasks st !! j = Some (Task.Stage r rx) ∧
      hcall_spec K (HandlerCall.Stage r body) (λ K' o, hwp K' (k o) (Q request))
  | HandlerState.AwaitCompute j k => ∃ r, so_tasks st !! j = Some (Task.Compute r) ∧
      hcall_spec K (HandlerCall.Compute r) (λ K' o, hwp K' (k o) (Q request))
  end.

Definition traces (w : Worker) : list (list Trace.t) := cl_trace (wk_client w) :: wk_past w.

Record worker_ok (w : Worker) : Prop := {
  wo_store : store_ok name limit (wk_store w);
  wo_client : client_ok capacity (wk_client w);
  wo_handlers i request h : wk_handlers w !! i = Some (request, h) →
    handler_ok (cl_trace (wk_client w)) (wk_store w) request h;
  wo_asked tr g r : tr ∈ traces w → Trace.Asked g r ∈ tr →
    permitted (fact_true tr (so_fs (wk_store w))) g (ob_message r) ∧
    ob_message_id r = own_id (ob_message r);
  wo_sent tr g m : tr ∈ traces w → Trace.Sent g m ∈ tr →
    ∃ r, Trace.Asked g r ∈ tr ∧ ob_message r = m;
}.

Lemma handler_frame tr l st st' request h :
  kept (so_fs st) (so_fs st') → (∃ ts, so_tasks st' = so_tasks st ++ ts) →
  handler_ok tr st request h → handler_ok (l ++ tr) st' request h.
Proof.
  intros Hk [ts Hts] (K & HK & Hh). exists K. split; [intros f Hf; by apply (fact_kept _ _ (so_fs st)), HK|].
  destruct h as [p|w k|j k|j k]; [done| | |].
  - destruct Hh as (g & r & ? & ? & ?). exists g, r. split_and!; try done; [|naive_solver..].
    apply elem_of_app. by right.
  - destruct Hh as (r & rx & body & ? & ?). exists r, rx, body. split; [|done].
    rewrite Hts. by apply lookup_app_l_Some.
  - destruct Hh as (r & ? & ?). exists r. split; [|done]. rewrite Hts. by apply lookup_app_l_Some.
Qed.

(** A step that asks nothing and leaves the handlers alone. *)
Lemma frame_ok w w' l :
  worker_ok w → store_ok name limit (wk_store w') → client_ok capacity (wk_client w') →
  kept (so_fs (wk_store w)) (so_fs (wk_store w')) →
  (∃ ts, so_tasks (wk_store w') = so_tasks (wk_store w) ++ ts) →
  cl_trace (wk_client w') = l ++ cl_trace (wk_client w) →
  (∀ g r, Trace.Asked g r ∈ cl_trace (wk_client w') →
     Trace.Asked g r ∈ cl_trace (wk_client w) ∨
     permitted (fact_true (cl_trace (wk_client w')) (so_fs (wk_store w'))) g (ob_message r) ∧
     ob_message_id r = own_id (ob_message r)) →
  wk_past w' = wk_past w → wk_handlers w' = wk_handlers w → worker_ok w'.
Proof.
  intros [H1 H2 H3 H4 H5] Hst Hcl Hk Hts Htr Hask Hpast Hh. split; [done|done| | |].
  - intros i request h. rewrite Hh, Htr. intros Hi%H3. by eapply handler_frame.
  - intros tr g r [->|Hp]%elem_of_cons Ha.
    + destruct (Hask _ _ Ha) as [Ha'|]; [|done]. apply H4 in Ha' as [Ha' ?]; [|by left]. split; [|done]. revert Ha'.
      apply permitted_mono. intros f Hf. rewrite Htr. by eapply fact_kept.
    + rewrite Hpast in Hp. apply H4 in Ha as [Ha ?]; [|by right]. split; [|done]. revert Ha.
      apply permitted_mono.
      intros f Hf. apply (fact_kept tr [] _ _ _ Hk Hf).
  - intros tr g m [->|Hp]%elem_of_cons; [by apply (ck_sent _ _ Hcl)|].
    rewrite Hpast in Hp. apply H5. by right.
Qed.

Lemma kept_refl s : kept s s.
Proof. by intros t i d. Qed.

(** A handler moves on. *)
Lemma set_handler_ok w i request h :
  worker_ok w → handler_ok (cl_trace (wk_client w)) (wk_store w) request h →
  worker_ok (set_handler w i request h).
Proof.
  intros [H1 H2 H3 H4 H5] Hh. split; try done. intros j request' h'. simpl.
  rewrite lookup_insert_Some. intros [[_ [= <- <-]]|[_ ?]]; [done|by eapply H3].
Qed.

(** ** Steps keep it *)

Context (limit_u32 : (limit < 2 ^ 32)%N) (fuel_enough : N.to_nat limit < fuel).

Lemma happen_kept st e :
  store_ok name limit st → no_power_loss e = true →
  fresh_draws 0 (length (so_tasks (happen name fuel limit st e))) →
  kept (so_fs st) (so_fs (happen name fuel limit st e)).
Proof.
  intros Hok He Hf t i d (ino & Hp & Hd)%contents_file. apply contents_file.
  destruct (happen_stable name fuel limit st e (final_path root t i) ino d limit_u32 fuel_enough
    Hok Hf He) as (_ & ? & ?); [split_and!; [by eexists _, _|done|done]|]. by exists ino.
Qed.

Lemma store_step_ok w e :
  worker_ok w → no_power_loss e = true →
  fresh_draws 0 (length (so_tasks (happen name fuel limit (wk_store w) e))) →
  worker_ok (with_store w (happen name fuel limit (wk_store w) e)).
Proof.
  intros Hw He Hf. pose proof (wo_store _ Hw) as Hst.
  apply (frame_ok w _ []); simpl; try done; [by apply happen_ok|apply Hw|by apply happen_kept| |by left].
  apply happen_tasks.
Qed.

Lemma stage_result st j r rx n digest :
  store_ok name limit st → so_tasks st !! j = Some (Task.Stage r rx) →
  so_threads st !! j = Some (Ret (TaskResult.Staged (StageOutcome.Finalized n digest))) →
  digest = sr_declared_digest r ∧ (1 ≤ n ≤ sr_chunk_size r)%N ∧
  ∃ d, contents (so_fs st) (final_path root (sr_transfer_id r) (sr_chunk_index r)) = Some d ∧
    to_base64url_no_pad (sha256 d) = sr_declared_digest r ∧ N.of_nat (length d) = n.
Proof.
  intros Hst Ht Hj. destruct (ok_threads _ _ _ Hst _ _ Hj) as (task & g & Ht' & _ & Hg & Hwp).
  rewrite Ht in Ht'. injection Ht' as <-.
  destruct Hwp as (dis & -> & -> & _ & [Hd Hl] & ino & d & Hk & Hlen & Hsha & _).
  split_and!; [done|lia|lia|]. exists d. split_and!; [|unfold to_base64url_no_pad; congruence|lia].
  apply contents_file. destruct (go_known _ _ _ _ Hg _ Hk) as (_ & ? & ?). by eexists.
Qed.

Lemma compute_result st j r f :
  store_ok name limit st → so_tasks st !! j = Some (Task.Compute r) →
  so_threads st !! j = Some (Ret (TaskResult.Computed (Ok f))) →
  ∀ tr, fact_true tr (so_fs st) (Fact.Rebuilt r (to_base64url_no_pad (fd_digest f))).
Proof.
  intros Hst Ht Hj tr. destruct (ok_threads _ _ _ Hst _ _ Hj) as (task & g & Ht' & _ & Hg & Hwp).
  rewrite Ht in Ht'. injection Ht' as <-. destruct Hwp as (ds & Hl & Hr & Hs & ->).
  exists ds. split_and!; [done| |done|done]. intros i d (ino & Hk)%Hr. apply contents_file.
  destruct (go_known _ _ _ _ Hg _ Hk) as (_ & ? & ?). by eexists.
Qed.

Lemma spawn_worker_ok w task w' j :
  worker_ok w → spawn name fuel limit w task = Some (w', j) →
  fresh_draws 0 (length (so_tasks (wk_store w'))) →
  worker_ok w' ∧ so_tasks (wk_store w') !! j = Some task ∧ wk_handlers w' = wk_handlers w ∧
  wk_client w' = wk_client w ∧ kept (so_fs (wk_store w)) (so_fs (wk_store w')) ∧
  ∃ ts, so_tasks (wk_store w') = so_tasks (wk_store w) ++ ts.
Proof.
  unfold spawn. intros Hw. case_match eqn:Hb; [done|]. case_match eqn:Hv; [|done].
  intros [= <- <-] Hf. pose proof (wo_store _ Hw) as Hst. split_and!; try done.
  - by apply (store_step_ok w (Event.Spawn task)).
  - simpl. rewrite Hb, Hv. simpl. rewrite lookup_app_r, Nat.sub_diag by lia. done.
  - by apply (happen_kept _ (Event.Spawn task)).
  - apply (happen_tasks name fuel limit _ (Event.Spawn task)).
Qed.

(** Requests of a handler: what it asks for is permitted. *)
Lemma enqueue_worker_ok w g m id expected c' queued :
  worker_ok w → enqueue capacity (wk_client w) g m id expected = (c', queued) →
  permitted (fact_true (cl_trace (wk_client w)) (so_fs (wk_store w))) g m → id = own_id m →
  worker_ok (with_client w c') ∧
  ∀ waiter, queued = Enqueued.Queued waiter → ∃ r, ob_reply r = waiter ∧ ob_message r = m ∧
    ob_expected r = expected ∧ Trace.Asked g r ∈ cl_trace c'.
Proof.
  intros Hw He Hm Hid. pose proof (enqueue_ok _ _ _ _ _ _ _ _ (wo_client _ Hw) He) as [Hok _ [l Hl] _].
  assert (∀ f, fact_true (cl_trace (wk_client w)) (so_fs (wk_store w)) f →
            fact_true (cl_trace c') (so_fs (wk_store w)) f) as Hmono.
  { intros f Hf. rewrite Hl. eapply fact_kept; [apply kept_refl|done]. }
  split.
  - apply (frame_ok w _ l); simpl; try done; [apply Hw|apply kept_refl|by exists []; rewrite app_nil_r|].
    intros g' r Ha. revert He. unfold enqueue. repeat case_match; intros [= <- <-]; try (by left).
    apply elem_of_cons in Ha as [[= -> ->]|Ha]; [|by left]. right. split; [|done].
    revert Hm. by apply permitted_mono.
  - intros waiter ->. revert He. unfold enqueue. repeat case_match; try done. intros [= <- <-].
    eexists. split_and!; [..|by left]; done.
Qed.

Lemma advance_call_ok w i request place c k K :
  worker_ok w → (∀ f, f ∈ K → fact_true (cl_trace (wk_client w)) (so_fs (wk_store w)) f) →
  hcall_spec K c (λ K' r, hwp K' (k r) (Q request)) →
  fresh_draws 0 (length (so_tasks (wk_store
    (advance_call name fuel limit capacity w i request place c k)))) →
  worker_ok (advance_call name fuel limit capacity w i request place c k).
Proof.
  intros Hw HK Hh. assert (∀ p, hwp K p (Q request) →
    worker_ok (set_handler w i request (HandlerState.Running p))) as Hrun.
  { intros p Hp. apply set_handler_ok; [done|]. by exists K. }
  destruct c as [| |g m id expected|r body|r]; simpl in Hh; simpl.
  - intros _. by apply Hrun.
  - intros _. by apply Hrun.
  - destruct Hh as (Hm & Hid & He & Hp).
    destruct (enqueue capacity (wk_client w) g m id expected) as [c' queued] eqn:Hq. intros _.
    destruct (enqueue_worker_ok w g m id expected c' queued Hw Hq) as [Hw' Hqd].
    { revert Hm. by apply permitted_mono. }
    { done. }
    assert (∀ f, f ∈ K → fact_true (cl_trace c') (so_fs (wk_store w)) f) as HK'.
    { destruct (ad_trace _ _ _ (enqueue_ok _ _ _ _ _ _ _ _ (wo_client _ Hw) Hq)) as [l ->].
      intros f Hf. eapply fact_kept; [apply kept_refl|by apply HK]. }
    destruct queued as [| |waiter]; [done| |].
    + apply set_handler_ok; [done|]. exists K. by split; [|apply He].
    + apply set_handler_ok; [done|]. exists K. split; [done|].
      destruct (Hqd waiter eq_refl) as (r & Hr1 & Hr2 & Hr3 & Hr4). exists g, r. subst m expected.
      by split_and!.
  - destruct (spawn _ _ _ _ _) as [[w' j]|] eqn:Hs; [|done]. simpl. intros Hf.
    destruct (spawn_worker_ok _ _ _ _ Hw Hs Hf) as (Hw' & Ht & _ & Hc & Hkept & _).
    apply set_handler_ok; [done|]. exists K. split; [|by exists r, (pump body), body].
    intros f Hf'. rewrite Hc. apply (fact_kept _ [] _ _ _ Hkept). by apply HK.
  - destruct (spawn _ _ _ _ _) as [[w' j]|] eqn:Hs; [|done]. simpl. intros Hf.
    destruct (spawn_worker_ok _ _ _ _ Hw Hs Hf) as (Hw' & Ht & _ & Hc & Hkept & _).
    apply set_handler_ok; [done|]. exists K. split; [|by exists r].
    intros f Hf'. rewrite Hc. apply (fact_kept _ [] _ _ _ Hkept). by apply HK.
Qed.

Lemma advance_ok w i request place h :
  worker_ok w → wk_handlers w !! i = Some (request, h) →
  fresh_draws 0 (length (so_tasks (wk_store (advance name fuel limit capacity w i request place h)))) →
  worker_ok (advance name fuel limit capacity w i request place h).
Proof.
  intros Hw Hi. pose proof (wo_handlers _ Hw _ _ _ Hi) as (K & HK & Hh).
  pose proof (wo_store _ Hw) as Hst. pose proof (wo_client _ Hw) as Hcl.
  assert (∀ f p, fact_true (cl_trace (wk_client w)) (so_fs (wk_store w)) f →
            hwp (f :: K) p (Q request) →
            worker_ok (set_handler w i request (HandlerState.Running p))) as Hlearn.
  { intros f p Hf Hp. apply set_handler_ok; [done|]. exists (f :: K). split; [|done].
    intros f' [->|Hf']%elem_of_cons; [done|by apply HK]. }
  assert (∀ p, hwp K p (Q request) →
            worker_ok (set_handler w i request (HandlerState.Running p))) as Hrun.
  { intros p Hp. apply set_handler_ok; [done|]. by exists K. }
  unfold advance. destruct h as [[a|c k|]|waiter k|j k|j k]; intros Hf; try done.
  - by eapply advance_call_ok.
  - destruct (cl_replies (wk_client w) !! waiter) as [[p|e]|] eqn:Hr; [| |done].
    + destruct Hh as (g & r & Hw1 & Ha & _ & Hk). destruct (ck_replies _ _ Hcl _ _ Hr)
        as (g' & r' & Hw2 & Hans).
      assert (g' = g ∧ r' = r) as [-> ->].
      { destruct Hans as (m & later & earlier & Htr & Hask & _).
        eapply (ck_asked _ _ Hcl); [|done|congruence]. rewrite Htr. apply elem_of_app. right. by right. }
      apply (Hlearn (Fact.Answered g (ob_message r) p)); [by exists r|]. apply Hk.
      by destruct Hans as (? & ? & ? & _ & _ & _ & _ & ?).
    + destruct Hh as (g & r & _ & _ & He & _). by apply Hrun.
  - destruct Hh as (r & rx & body & Ht & Ho & Hfin).
    destruct (so_threads (wk_store w) !! j) as [[[o| |]|? ? ?| |]|] eqn:Hj; try done.
    + destruct o as [n digest| | | | |]; try (by apply Hrun, Ho).
      destruct (stage_result _ _ _ _ _ _ Hst Ht Hj) as (-> & Hn & Hd).
      eapply Hlearn; [|by apply Hfin]. done.
    + by apply Hrun, Ho.
  - destruct Hh as (r & Ht & He & Hok).
    destruct (so_threads (wk_store w) !! j) as [[[| |res]|? ? ?| |]|] eqn:Hj; try done.
    + destruct res as [f|e]; [|by apply Hrun]. eapply Hlearn; [|by apply Hok].
      by eapply compute_result.
    + by apply Hrun.
Qed.

Definition no_loss (e : WorkerEvent.t) : bool :=
  match e with WorkerEvent.PowerLoss _ _ => false | _ => true end.

Lemma delete_handler_ok w i : worker_ok w → worker_ok (with_handlers w (delete i (wk_handlers w))).
Proof.
  intros [H1 H2 H3 H4 H5]. split; try done. intros j request h. simpl.
  rewrite lookup_delete_Some. intros [_ ?]. by eapply H3.
Qed.

Lemma restart_ok w st :
  worker_ok w → store_ok name limit st → kept (so_fs (wk_store w)) (so_fs st) →
  worker_ok (fresh_process w st).
Proof.
  intros [H1 H2 H3 H4 H5] Hst Hk. split; simpl; [done|apply worker_control_ok|by intros i request h; rewrite lookup_empty| |].
  - intros tr g r [->|Hin]%elem_of_cons Ha; [by apply elem_of_nil in Ha|]. simpl in Hin.
    apply H4 in Ha as [Ha ?]; [|done]. split; [|done]. revert Ha. apply permitted_mono. intros f.
    apply (fact_kept tr [] _ _ _ Hk).
  - intros tr g m [->|Hin]%elem_of_cons Ha; [by apply elem_of_nil in Ha|]. by apply H5.
Qed.

Lemma worker_step_ok w e :
  worker_ok w → no_loss e = true → (au_generation (cl_authority (wk_client w)) + 1 < 2 ^ 64)%N →
  fresh_draws 0 (length (so_tasks (wk_store (step w e)))) → worker_ok (step w e).
Proof.
  intros Hw He Hg Hf. destruct e as [ch| |i ch|e|request|i place|i messages| |]; simpl in *; try done.
  - by apply (store_step_ok w (Event.Boot ch)).
  - by apply (store_step_ok w Event.Ready).
  - by apply (store_step_ok w (Event.Thread i ch)).
  - destruct (client_step_ok capacity request_timeout timeout_ms instance (wk_client w) e
      (wo_client _ Hw) Hg) as [Hok _ [l Hl] _].
    apply (frame_ok w _ l); simpl; try done; [apply Hw|apply kept_refl|by exists []; rewrite app_nil_r|].
    intros g r Ha. left. by eapply step_asked.
  - case_match; [done|]. destruct Hw as [H1 H2 H3 H4 H5]. split; try done. intros i request' h. simpl.
    rewrite lookup_insert_Some. intros [[_ [= <- <-]]|[_ ?]]; [|by eapply H3].
    exists []. split; [by intros f ?%elem_of_nil|apply hwp_handle].
  - destruct (wk_handlers w !! i) as [[request h]|] eqn:Hi; [|done]. by apply advance_ok.
  - destruct (wk_handlers w !! i) as [[request h]|] eqn:Hi; [|done]. revert Hf.
    pose proof (delete_handler_ok w i Hw) as Hw'. unfold drop_handler.
    destruct h as [[a|[]|]| | |]; try done.
    destruct (spawn _ _ _ _ _) as [[w' j]|] eqn:Hs; [|done]. intros Hf.
    by eapply spawn_worker_ok in Hs as (? & _).
  - apply restart_ok; [done|apply (happen_ok name fuel limit limit_u32 fuel_enough _ Event.Restart);
      [apply Hw|done]|apply kept_refl].
Qed.

Lemma spawn_tasks w task w' j :
  spawn name fuel limit w task = Some (w', j) →
  so_tasks (wk_store w') = so_tasks (wk_store w) ++ [task].
Proof.
  unfold spawn. case_match eqn:Hb; [done|]. case_match eqn:Hv; [|done]. intros [= <- <-].
  simpl. by rewrite Hb, Hv.
Qed.

Lemma worker_step_tasks w e :
  ∃ ts, so_tasks (wk_store (step w e)) = so_tasks (wk_store w) ++ ts.
Proof.
  assert (∃ ts, so_tasks (wk_store w) = so_tasks (wk_store w) ++ ts) as Hsame
    by (exists []; by rewrite app_nil_r).
  destruct e as [ch| |i ch|e|request|i place|i messages| |keep garbage]; cbn [worker_step];
    try apply happen_tasks; try done.
  - by destruct (so_boot (wk_store w)).
  - destruct (wk_handlers w !! i) as [[request h]|]; [|done].
    destruct h as [[a|c k|]|? ?|? ?|? ?]; simpl; try (by repeat case_match).
    destruct c as [| |g m id ex|r body|r]; simpl; try done; [by repeat case_match| |];
      (destruct (spawn _ _ _ _ _) as [[w' j]|] eqn:Hs; [|done]; apply spawn_tasks in Hs;
       simpl; rewrite Hs; by eexists).
  - destruct (wk_handlers w !! i) as [[request h]|]; [|done]. unfold drop_handler.
    destruct h as [[a|[]|]| | |]; try done.
    destruct (spawn _ _ _ _ _) as [[w' j]|] eqn:Hs; [|done]. apply spawn_tasks in Hs.
    simpl in *. rewrite Hs. by eexists.
Qed.

Lemma worker_step_generation w e :
  (au_generation (cl_authority (wk_client (step w e)))
   ≤ au_generation (cl_authority (wk_client w)) + 1)%N.
Proof.
  assert (∀ w task w' j, spawn name fuel limit w task = Some (w', j) → wk_client w' = wk_client w) as Hsp.
  { intros w0 task w' j. unfold spawn. repeat case_match; try done. by intros [= <- <-]. }
  destruct e as [ch| |i ch|e|request|i place|i messages| |keep garbage]; simpl; try lia.
  - apply step_generation.
  - case_match; simpl; lia.
  - destruct (wk_handlers w !! i) as [[request h]|]; [|lia].
    destruct h as [[a|c k|]|? ?|? ?|? ?]; simpl; try (repeat case_match; simpl; lia).
    destruct c as [| |g m id ex|r body|r]; simpl; try lia.
    + pose proof (enqueue_generation capacity (wk_client w) g m id ex) as He.
      destruct (enqueue _ _ _ _ _ _) as [c' []]; simpl in *; rewrite He; lia.
    + destruct (spawn _ _ _ _ _) as [[w' j]|] eqn:Hs; simpl; [apply Hsp in Hs as ->|]; lia.
    + destruct (spawn _ _ _ _ _) as [[w' j]|] eqn:Hs; simpl; [apply Hsp in Hs as ->|]; lia.
  - destruct (wk_handlers w !! i) as [[request h]|]; [|lia]. unfold drop_handler.
    destruct h as [[a|[]|]| | |]; simpl; try lia.
    destruct (spawn _ _ _ _ _) as [[w' j]|] eqn:Hs; simpl; [apply Hsp in Hs as ->; simpl|]; lia.
Qed.

#[local] Abbreviation run :=
  (worker_run name fuel limit pages capacity request_timeout timeout_ms instance).

Lemma worker_run_tasks w es : ∃ ts, so_tasks (wk_store (run w es)) = so_tasks (wk_store w) ++ ts.
Proof.
  revert w. induction es as [|e es IH]; intros w; simpl; [by exists []; rewrite app_nil_r|].
  destruct (IH (step w e)) as [ts Hts]. destruct (worker_step_tasks w e) as [ts' Hts'].
  exists (ts' ++ ts). by rewrite Hts, Hts', app_assoc.
Qed.

Lemma worker_run_ok w es :
  worker_ok w → Forall (λ e, no_loss e = true) es →
  (au_generation (cl_authority (wk_client w)) + N.of_nat (length es) < 2 ^ 64)%N →
  fresh_draws 0 (length (so_tasks (wk_store (run w es)))) → worker_ok (run w es).
Proof.
  revert w. induction es as [|e es IH]; intros w Hw He Hg Hf; [done|]. simpl in *.
  inversion He; subst. pose proof (worker_step_generation w e). apply IH; [|done|lia|done].
  apply worker_step_ok; [done|done|lia|]. destruct (worker_run_tasks (step w e) es) as [ts Hts].
  eapply fresh_draws_mono; [|exact Hf]. rewrite Hts, length_app. lia.
Qed.

Lemma worker_start_ok s0 : clean root s0 → worker_ok (worker_start name s0).
Proof.
  intros [Hc1 Hc2 Hc3]. split; simpl.
  - apply start_ok; try done. split; try done.
    + intros p ino (t & i & ->) Hp. by destruct (Hc3 t i ino).
    + intros p ino (t & i & ->) Hp. by destruct (Hc3 t i ino).
  - apply worker_control_ok.
  - by intros i request h; rewrite lookup_empty.
  - intros tr g r [->|[]%elem_of_nil]%elem_of_cons ?%elem_of_nil. done.
  - intros tr g r [->|[]%elem_of_nil]%elem_of_cons ?%elem_of_nil. done.
Qed.
End WorkerInvariant.
