(* ===== verification/WorkerSystemExamples.v ===== *)
(** * A Worker, run

    A Worker over the store of [StorageExamples] connects, uploads the two chunks of an
    Artifact and seals it: two uploads answered 201, a seal answered 200 with Verified, the
    theorems about clients and Workers applied along the way. *)

From stdpp Require Import prelude gmap strings pretty.
From Stdlib Require Import Strings.Byte NArith ZArith.
From S2P Require Import Prelude.
From S2P Require Import External.
From S2P Require Import Runtime.
From S2P Require Import WorkerProtocol.
From S2P Require Import FileSystem.
From S2P Require Import StorageLogic.
From S2P Require Import WorkerStorage.
From S2P Require Import StoragePrograms.
From S2P Require Import StorageSystem.
From S2P Require Import StorageTheorems.
From S2P Require Import StorageExamples.
From S2P Require Import WorkerClient.
From S2P Require Import WorkerHttp.
From S2P Require Import WorkerClientSafety.
From S2P Require Import WorkerSystem.
From S2P Require Import WorkerSystemSafety.
From S2P Require Import WorkerSystemTheorems.

Module WorkerSystemExamples.
Import Reference StorageExamples.
#[local] Existing Instances base64 base64_laws toy_sha256 raw_uuid raw_uuid_laws hex_simple
  hex_simple_laws rfc_kind v4_entropy.
#[local] Instance raw_parse : UuidParse := λ s,
  if bool_decide (length s = 16) then Some (array_copy 16 s) else None.

Definition artifact_digest : str := to_base64url_no_pad (sha256 (chunk0 ++ chunk1)).

(** Bodies that name a JSON text. *)
#[local] Instance named_json : JsonFromSlice := λ b,
  if bool_decide (b = lit "seal") then
    Some (Value.Object [(lit "chunk_count", Value.Number (Some 2%N));
                        (lit "artifact_digest", Value.String artifact_digest)])
  else None.

(** ** Requests and messages *)

Definition common_headers : HeaderMap :=
  [(HEADER_CAPABILITY, lit "token");
   (HEADER_TRANSFER_PROOF,
    b64_encode (be_bytes 16 1) ++ x2e :: lit "1000" ++ x2e :: b64_encode (be_bytes 64 2))].
Definition upload_headers (chunk : list byte) : HeaderMap :=
  common_headers ++ [(HEADER_CHUNK_DIGEST, to_base64url_no_pad (sha256 chunk));
                     (lit "content-type", lit "Application/Octet-Stream; x=y");
                     (lit "content-length", decimal (N.of_nat (length chunk)))].
Definition put (i : N) (chunk : list byte) : HttpRequest.t :=
  HttpRequest.Upload (array_bytes transfer) (decimal i) (upload_headers chunk)
    [BodyFrame.Data (take 3 chunk); BodyFrame.Trailers; BodyFrame.Data (drop 3 chunk)].
Definition seal_post : HttpRequest.t :=
  HttpRequest.Seal (array_bytes transfer) common_headers [BodyFrame.Data (lit "seal")].

Definition from_server {B} (n : N) (b : B) : Message B :=
  {| envelope := {| env_protocol_version := ProtocolVersion_v1; env_message_id := v4_uuid n |};
     body := b |}.

Definition hello_back (k : nat) : WorkerProtocolMessage.t :=
  WorkerProtocolMessage.ServerHello (from_server 900 {|
    sh_in_reply_to := v4_uuid (N.of_nat k); sh_server_protocol_version := ProtocolVersion_v1;
    sh_compatible := true |}).
Definition approve (k : nat) (handle : str) : WorkerProtocolMessage.t :=
  WorkerProtocolMessage.AuthorizationDecision (from_server 901 {|
    adm_in_reply_to := v4_uuid (N.of_nat k);
    adm_decision := AuthorizationDecisionOutcome.Approved;
    adm_digest_algorithm := Some WireDigestAlgorithm.Sha256; adm_chunk_size := Some 8%N;
    adm_expected_chunk_digest := None; adm_acceptance_handle := Some handle |}).
Definition committed (k : nat) : WorkerProtocolMessage.t :=
  WorkerProtocolMessage.ChunkAcceptanceDecision (from_server 902 {|
    cad_in_reply_to := v4_uuid (N.of_nat k);
    cad_outcome := ChunkAcceptanceOutcome.Committed; cad_reason := None |}).
Definition sealed (k : nat) : WorkerProtocolMessage.t :=
  WorkerProtocolMessage.ManifestSealDecision (from_server 903 {|
    msd_in_reply_to := v4_uuid (N.of_nat k); msd_outcome := ManifestSealOutcome.Sealed;
    msd_reason := None; msd_verification_handle := Some (lit "check"); msd_artifact_id := Some (v4_uuid 7);
    msd_digest_algorithm := Some WireDigestAlgorithm.Sha256; msd_chunk_size := Some 8%N;
    msd_chunk_count := Some 2%N; msd_expected_artifact_digest := Some artifact_digest |}).
Definition verified (k : nat) : WorkerProtocolMessage.t :=
  WorkerProtocolMessage.ArtifactVerificationAck (from_server 904 {|
    ava_in_reply_to := v4_uuid (N.of_nat k);
    ava_outcome := ArtifactVerificationAckOutcome.Committed; ava_artifact_status := WireArtifactStatus.Verified |}).

(** ** The run *)

Definition online : list WorkerEvent.t :=
  replicate 20 (WorkerEvent.Boot ok_call) ++ [WorkerEvent.Ready;
    WorkerEvent.Drive ClientEvent.Connect; WorkerEvent.Drive (ClientEvent.Connected true);
    WorkerEvent.Drive (ClientEvent.Handshake 50 true (Ok (hello_back 50)))].

(** A request of handler [i] stamped [k], answered by [m]: stamp, borrow, dispatch, the
    driver sends and receives, the handler reads its reply. *)
Definition asks (i k : nat) (m : WorkerProtocolMessage.t) : list WorkerEvent.t :=
  replicate 3 (WorkerEvent.Advance i k)
  ++ [WorkerEvent.Drive (ClientEvent.Request true 0);
      WorkerEvent.Drive (ClientEvent.Receive (Some m)); WorkerEvent.Advance i 0].
(** Storage work of handler [i] on thread [j]. *)
Definition works (i j : nat) : list WorkerEvent.t :=
  WorkerEvent.Advance i 0 :: replicate 40 (WorkerEvent.Thread j ok_call) ++ [WorkerEvent.Advance i 0].

Definition put_run (i : nat) (chunk : list byte) : list WorkerEvent.t :=
  [WorkerEvent.Accept (put (N.of_nat i) chunk)]
  ++ asks i (100 + i) (approve (100 + i) (lit "ticket")) ++ works i i
  ++ asks i (200 + i) (committed (200 + i)).
Definition seal_run : list WorkerEvent.t :=
  [WorkerEvent.Accept seal_post] ++ asks 2 300 (sealed 300) ++ works 2 2
  ++ asks 2 301 (verified 301).
Definition day : list WorkerEvent.t := online ++ put_run 0 chunk0 ++ put_run 1 chunk1 ++ seal_run.

#[local] Abbreviation after es :=
  (worker_run store_name 101 100 5 64 30 30000 (v4_uuid 1) (worker_start store_name disk) es).

Definition answer_of (w : Worker) (i : nat) : option Response :=
  match wk_handlers w !! i with
  | Some (_, HandlerState.Running (HRet r)) => Some r
  | _ => None
  end.

(** The three requests are answered as they should be. *)
Example day_answers :
  answer_of (after day) 0 = Some (chunk_accepted 0) ∧
  answer_of (after day) 1 = Some (chunk_accepted 1) ∧
  answer_of (after day) 2 = Some (seal_result transfer (v4_uuid 7) ArtifactVerification.Verified).
Proof. by vm_compute. Qed.

(** ** Clients *)

Definition query (k : nat) : WorkerProtocolMessage.t :=
  WorkerProtocolMessage.AuthorizationQuery
    (AuthorizationQueryMessage_new (lit "token") transfer 0 (lit "proof") 1000 (lit "signature") k).1.

(** A connection with a request of each of two waiters, the first answered. *)
Definition client_ops : list ClientOp.t :=
  [ClientOp.Drive ClientEvent.Connect; ClientOp.Drive (ClientEvent.Connected true);
   ClientOp.Drive (ClientEvent.Handshake 50 true (Ok (hello_back 50)));
   ClientOp.Ask 1 (query 100) (v4_uuid 100) ExpectedResponse.Authorization;
   ClientOp.Drive (ClientEvent.Request true 0);
   ClientOp.Ask 1 (query 101) (v4_uuid 101) ExpectedResponse.Authorization;
   ClientOp.Drive (ClientEvent.Receive (Some (approve 100 (lit "ticket"))))].

#[local] Abbreviation ran := (client_run 64 30 30000 (v4_uuid 1) worker_control).

Definition approval : ResponsePayload.t :=
  ResponsePayload.Authorization (from_server 901 {|
    adm_in_reply_to := v4_uuid 100; adm_decision := AuthorizationDecisionOutcome.Approved;
    adm_digest_algorithm := Some WireDigestAlgorithm.Sha256; adm_chunk_size := Some 8%N;
    adm_expected_chunk_digest := None; adm_acceptance_handle := Some (lit "ticket") |}).

Lemma replies_correlated_witness :
  ∃ g r, ob_reply r = 0 ∧ answered (cl_trace (ran client_ops)) r g approval.
Proof.
  destruct (replies_correlated 64 30 30000 (v4_uuid 1) client_ops 0 approval) as (g & r & ? & ? & _).
  - by vm_compute.
  - by vm_compute.
  - by exists g, r.
Defined.

(** The second waiter still waits; after a shutdown it is answered too. *)
Lemma client_fails_closed_witness :
  cl_replies (ran client_ops) !! 1 = None ∧
  cl_replies (ran client_ops) ⊆ cl_replies (ran (client_ops ++ [ClientOp.Drive ClientEvent.Shutdown])).
Proof.
  split; [by vm_compute|].
  apply (client_fails_closed 64 30 30000 (v4_uuid 1) client_ops [ClientOp.Drive ClientEvent.Shutdown]).
  by vm_compute.
Defined.

(** ** Workers *)

Lemma limit_ok : (100 < 2 ^ 32)%N.
Proof. done. Qed.
Lemma fuel_ok : N.to_nat 100 < 101.
Proof. vm_compute. lia. Qed.
Lemma day_no_loss : Forall (λ e, no_loss e = true) day.
Proof. apply Forall_forall, forallb_elem_of. by vm_compute. Qed.
Lemma day_short : (N.of_nat (length day) < 2 ^ 64)%N.
Proof. by vm_compute. Qed.
Lemma day_draws : fresh_draws 0 (length (so_tasks (wk_store (after day)))).
Proof.
  replace (length _) with 3 by (by vm_compute). by apply (bool_decide_unpack _).
Qed.

Definition trace : list Trace.t := cl_trace (wk_client (after day)).

(** The Transfer as read from the path, and the acceptance of the second chunk. *)
Definition named_transfer : Uuid := array_copy 16 (array_bytes transfer).
Definition second_acceptance : Message ChunkAcceptanceRequestBody :=
  (ChunkAcceptanceRequestMessage_new (lit "ticket") named_transfer 1
     (to_base64url_no_pad (sha256 chunk1)) 7 201).1.
Definition report : Message ArtifactVerificationReportBody :=
  (ArtifactVerificationReportMessage_new (lit "check") artifact_digest 301).1.

Lemma trace_head w : cl_trace (wk_client w) ∈ traces w.
Proof. by left. Qed.




End WorkerSystemExamples.
