(* ===== verification/EndToEnd.v ===== *)
(** * Server and Worker together

    A whole run of [bamepd] and a whole run of a Worker, restarts of both included, joined by
    a transport that delivers only what was sent. What the server's database records of an
    Artifact is what the Worker's disk holds: every committed chunk is a complete file with
    the recorded digest and size, and the bytes of a [Verified] Artifact are there and hash to
    its sealed digest. *)

From stdpp Require Import prelude gmap strings.
From Stdlib Require Import Strings.Byte NArith ZArith.
From S2P Require Import Prelude.
From S2P Require Import External.
From S2P Require Import Credential.
From S2P Require Import Endpoint.
From S2P Require Import Job.
From S2P Require Import Transfer.
From S2P Require Import Runtime.
From S2P Require Import FileSystem.
From S2P Require Import StorageLogic.
From S2P Require Import WorkerStorage.
From S2P Require Import StoragePrograms.
From S2P Require Import StorageSystem.
From S2P Require Import StorageTheorems.
From S2P Require Import WorkerProtocol.
From S2P Require Import WorkerClient.
From S2P Require Import WorkerHttp.
From S2P Require Import WorkerClientSafety.
From S2P Require Import WorkerSystem.
From S2P Require Import WorkerSystemSafety.
From S2P Require Import WorkerSystemTheorems.
From S2P Require Import JobStore.
From S2P Require Import JobServices.
From S2P Require Import TransferAuth.
From S2P Require Import TransferStore.
From S2P Require Import TransferEvidence.
From S2P Require Import TransferSpec.
From S2P Require Import TransferSafety.
From S2P Require Import TransferTheorems.
From S2P Require Import WorkerFraming.
From S2P Require Import WorkerOperations.
From S2P Require Import WorkerControl.
From S2P Require Import WorkerSafety.
From S2P Require Import ServerHistory.
From S2P Require Import ServerRecords.

(** ** The transport *)

Section Transport.
Context (tr : list Event.t) (past : list (list Trace.t)).

Definition worker_sent (m : WorkerProtocolMessage.t) : Prop :=
  ∃ wtr g, wtr ∈ past ∧ Trace.Sent g m ∈ wtr.
Definition server_sent (m : WorkerProtocolMessage.t) : Prop :=
  ∃ c g a, Event.Called c g (Call.Send m) a ∈ tr.

(** Mutually authenticated connections: each side receives only messages of the other. *)
Record delivers : Prop := {
  from_worker c g m :
    Event.Called c g Call.Receive (Incoming.Received (Ok m)) ∈ tr → worker_sent m;
  from_server wtr g m : wtr ∈ past → Trace.Got g m ∈ wtr → server_sent m;
}.

(** The version 4 ids the Worker drew for its messages are distinct. *)
Definition ids_unique : Prop :=
  ∀ m m', worker_sent m → worker_sent m' →
    env_message_id (WorkerProtocolMessage.get_envelope m) =
    env_message_id (WorkerProtocolMessage.get_envelope m') → m = m'.
End Transport.

Section EndToEnd.
(** The Worker's draws, apart from the server's. *)
Context (went : Entropy).
Context {b64 : Base64} {b64_laws : Base64Laws} {sha : Sha256} {ed : Ed25519} {ent : Entropy}
  {chrono : ChronoRange} {disp : UuidDisplay} {simple : UuidSimple} {kind : UuidKind}
  {dbg : StrDebug} {uparse : UuidParse} {jslice : JsonFromSlice}.
Context {disp_laws : UuidDisplayLaws} {simple_laws : UuidSimpleLaws}.

(** The server: any run from an empty database. *)
Context (epoch : ProcessAuthorizationEpoch) (registry_capacity : nat) (cap page_size : nat) (sts : list Step.t).
Context (sts_own : Forall (λ st, own_step st = true) sts) (sts_in_range : Forall step_in_range sts).
Context (w : ControlWorld) (tr : list Event.t) (k : nat).
Context (server_run : control_run
  (empty_control (empty_transfer_world epoch registry_capacity) cap page_size) sts 0 = ((w, tr), k)).
Context (server_draws : fresh_draws 0 k).
#[local] Abbreviation db := (tw_db (cw_transfer w)).

(** The Worker: any run. *)
Context (name : str) (fuel : nat) (limit : N) (pages : nat).
Context (capacity : nat) (request_timeout timeout_ms : N) (instance : Uuid).
Context (limit_u32 : (limit < 2 ^ 32)%N) (fuel_enough : N.to_nat limit < fuel).
Context (s0 : fs) (s0_clean : clean (path_of name) s0).
Context (es : list WorkerEvent.t) (es_no_loss : Forall (λ e, no_loss e = true) es).
Context (es_short : (N.of_nat (length es) < 2 ^ 64)%N).
#[local] Abbreviation final :=
  (worker_run (ent := went) name fuel limit pages capacity request_timeout timeout_ms instance
     (worker_start name s0) es).
Context (draws_fresh : @fresh_draws went 0 (length (so_tasks (wk_store final)))).

Context (transport : delivers tr (traces final)) (unique : ids_unique (traces final)).

#[local] Abbreviation stored id i d :=
  (contents (so_fs (wk_store final)) (final_path (path_of name) id i) = Some d).

Lemma permitted_got m :
  got tr m → ∃ wtr g, wtr ∈ traces final ∧ Trace.Sent g m ∈ wtr ∧
    permitted (fact_true name wtr (so_fs (wk_store final))) g m.
Proof using All.
  intros (c & g & Hr). destruct (from_worker _ _ transport _ _ _ Hr) as (wtr & wg & Hin & Hs).
  exists wtr, wg. split_and!; [done|done|]. by eapply (sent_permitted (ent := went)).
Qed.

Lemma server_reaches : ∃ n,
  creaches (empty_control (empty_transfer_world epoch registry_capacity) cap page_size) 0 n tr w k.
Proof using All. exists (length sts). by apply control_run_creaches. Qed.

Lemma server_wf : world_wf (cw_transfer w).
Proof using All.
  destruct server_reaches as [n Hr]. eapply treaches_ok; [by eapply creaches_treaches|].
  apply empty_world_wf.
Qed.

Lemma server_recorded : recorded tr db.
Proof using All. by eapply recorded_run. Qed.

(** Where a call of a Worker connection comes from. *)
Lemma server_history c g call a :
  Event.Called c g call a ∈ tr → ∃ h, justified h call ∧
    (∀ m, received h m → got tr m) ∧ (∀ b handle, minted h b handle → issued tr b handle) ∧
    (∀ b handle, consumed h b handle → minted h b handle).
Proof using All.
  destruct server_reaches as [n Hr]. eapply call_history; [apply empty_world_wf|done].
Qed.

(** A digest on the wire that is that of [x]. *)
Lemma wire_digest alg x value d :
  Digest_parse_wire_value alg value = Ok d → to_base64url_no_pad (sha256 x) = value →
  d = array_bytes (sha256 x).
Proof using All.
  intros Hd <-. unfold Digest_parse_wire_value in Hd.
  apply result_bind_Ok in Hd as (decoded & _ & Hd). apply result_bind_Ok in Hd as (dg & _ & Hd).
  case_bool_decide as He; [|done]. injection Hd as <-. by apply b64_encode_inj.
Qed.

Lemma row_stored a z row :
  td_chunks db !! (a, z) = Some row → ∃ id i t x,
    td_transfers db !! id = Some t ∧ tr_artifact_id t = a ∧ z = Z.of_N i ∧ stored id i x ∧
    row = {| cr_size := Z.of_nat (length x); cr_digest := array_bytes (sha256 x); cr_held := true |}.
Proof using All.
  intros (c & g & id & i & dg & size & ans & t & d & Hc & Ht & Ha & Hz & Hd & ->)
    %(rd_held _ _ server_recorded).
  destruct (server_history _ _ _ _ Hc) as (h & (m & Hm & <- & <- & <- & <-) & Hgot & _).
  destruct (permitted_got _ (Hgot _ Hm))
    as (wtr & wg & _ & _ & q & dec & sz & _ & _ & _ & _ & _ & _ & _ & x & Hx & Hdig & Hlen).
  exists (car_transfer_id (body m)), (car_chunk_index (body m)), t, x. split_and!; try done.
  rewrite <-Hlen, nat_N_Z. f_equal. by eapply wire_digest.
Qed.

Lemma chunk_stored id facts i c :
  load_locked_facts db id = Ok (Some facts) → expected_chunk (tf_manifest facts) i = Some c →
  i ∈ tf_held_chunk_indices facts ∧
  ∃ d, stored id i d ∧ ec_digest c = array_bytes (sha256 d) ∧ ec_size c = N.of_nat (length d).
Proof using All.
  intros Hl Hc. destruct server_wf as [_ W].
  destruct (td_transfers db !! id) as [t|] eqn:Ht; [|by rewrite load_facts_none in Hl].
  destruct (load_facts _ _ _ W Ht) as (u & cc & Hs & Hu & Hl'). rewrite Hl' in Hl.
  injection Hl as <-. simpl in *.
  assert (td_chunks db !! (tr_artifact_id t, Z.of_N i) = Some (chunk_row u i c)) as Hrow
    by (apply (sh_chunks _ _ _ Hs); by exists i, c).
  destruct (row_stored _ _ _ Hrow) as (id' & i' & t' & x & Ht' & Ha & Hi & Hx & Hr).
  assert (i' = i) as -> by lia. assert (id' = id) as -> by (by eapply (tdw_unique _ W)).
  injection Hr as Hsz Hdg Hh. split; [by apply bool_decide_eq_true in Hh|].
  exists x. split_and!; [done|done|lia].
Qed.

(** A seal decision the Worker got in reply to [q] was sent for [q]: the handle it carries
    stands for the Transfer of [q] and the chunk count it states. *)
Lemma seal_binding wtr r q g dec handle b :
  wtr ∈ traces final → ob_message r = WorkerProtocolMessage.ManifestSealRequest q →
  answered wtr r g (ResponsePayload.ManifestSeal dec) →
  msd_verification_handle (body dec) = Some handle → issued tr b handle →
  vb_transfer_id b = msr_transfer_id (body q) ∧ msd_chunk_count (body dec) = Some (vb_chunk_count b).
Proof using All.
  intros Hw Hr (m & later & earlier & Htr & Hask & Hsent & Hcl & _) Hh Hb. rewrite Hr in Hsent.
  assert (∀ e, e ∈ earlier → e ∈ wtr) as Hsub by (intros e He; rewrite Htr; set_solver).
  assert (m = WorkerProtocolMessage.ManifestSealDecision dec ∧ msd_in_reply_to (body dec)
    = env_message_id (envelope q)) as [-> Hreply].
  { pose proof (asked_id (ent := went) name fuel limit pages capacity request_timeout timeout_ms instance
      limit_u32 fuel_enough s0 s0_clean es es_no_loss es_short draws_fresh wtr g r Hw (Hsub _ Hask)) as Hid.
    rewrite Hr in Hid. simpl in Hid. rewrite <-Hid. unfold classify_inbound in Hcl.
    destruct m; repeat case_match; simplify_eq; done. }
  destruct (from_server _ _ transport wtr g (WorkerProtocolMessage.ManifestSealDecision dec) Hw)
    as (c & g' & a & Hcall); [rewrite Htr; set_solver|].
  destruct (server_history _ _ _ _ Hcall) as (h & Hj & Hgot & Hmint & _).
  destruct (Hj _ Hh) as (q' & b' & Hq' & Hb' & Hreply' & Ht & Hcount).
  destruct server_reaches as [n Hreach].
  assert (b' = b) as -> by (eapply issued_once; [done|done|by apply Hmint|done]).
  assert (q' = q) as ->; [|done]. destruct (permitted_got _ (Hgot _ Hq')) as (wtr' & wg & Hin & Hs & _).
  cut (WorkerProtocolMessage.ManifestSealRequest q' = WorkerProtocolMessage.ManifestSealRequest q);
    [by intros [= ->]|].
  apply unique; [by exists wtr', wg|exists wtr, g; auto|]. simpl. congruence.
Qed.

(** What was verified is on the disk. *)
Lemma artifact_stored a row n d :
  td_artifacts db !! a = Some row → afr_state row = ArtifactState.Verified →
  td_manifests db !! a = Some (seal_row (Some (n, d))) →
  ∃ id t ds, td_transfers db !! id = Some t ∧ tr_artifact_id t = a ∧
    length ds = N.to_nat n ∧ d = array_bytes (sha256 (concat ds)) ∧
    ∀ j x, ds !! j = Some x → stored id (N.of_nat j) x.
Proof using All.
  intros Ha Hv Hm.
  destruct (rd_verified _ _ server_recorded _ _ Ha Hv)
    as (c & g & input & ans & t & d' & Hc & Ht & Hta & Hm' & Hd).
  rewrite Hm in Hm'. injection Hm' as Hn ->. assert (n = av_chunk_count input) as -> by lia.
  destruct (server_history _ _ _ _ Hc)
    as (h & (m & b & Hrep & Hcon & Hid & Hcount & Hdig) & Hgot & Hmint & Hcons).
  destruct (permitted_got _ (Hgot _ Hrep)) as (wtr & wg & Hin & _ & q & dec & count & size
    & (r & Hr & Hans) & Hh & Hdc & _ & ds & Hlen & Hst & _ & Hcomp).
  destruct (seal_binding _ _ _ _ _ _ b Hin Hr Hans Hh (Hmint _ _ (Hcons _ _ Hcon))) as [Hbt Hbc].
  rewrite Hdc in Hbc. injection Hbc as ->. simpl in *.
  exists (av_transfer_id input), t, ds. split_and!; [done|done|by rewrite Hcount| |].
  - eapply wire_digest; [done|]. by rewrite Hdig.
  - intros j x Hj. rewrite Hid, Hbt. by apply Hst.
Qed.


End EndToEnd.
