(* ===== verification/EndToEndExamples.v ===== *)
(** * Server and Worker, run together

    An upload of a two-chunk Artifact: the server creates and dispatches the Transfer and
    grants a capability, the Worker takes the two uploads and the seal of the Endpoint, and
    each message of one side is what the other receives. At the end the database says
    [Verified]; the theorems of [EndToEnd] apply. *)

From stdpp Require Import prelude gmap strings pretty.
From Stdlib Require Import Strings.Byte NArith ZArith.
From S2P Require Import Prelude.
From S2P Require Import External.
From S2P Require Import Endpoint.
From S2P Require Import Job.
From S2P Require Import Transfer.
From S2P Require Import Runtime.
From S2P Require Import FileSystem.
From S2P Require Import StorageLogic.
From S2P Require Import WorkerStorage.
From S2P Require Import StoragePrograms.
From S2P Require Import StorageSystem.
From S2P Require Import StorageTheorems.
From S2P Require Import StorageExamples.
From S2P Require Import WorkerProtocol.
From S2P Require Import WorkerClient.
From S2P Require Import WorkerHttp.
From S2P Require Import WorkerClientSafety.
From S2P Require Import WorkerSystem.
From S2P Require Import WorkerSystemSafety.
From S2P Require Import WorkerSystemTheorems.
From S2P Require Import WorkerSystemExamples.
From S2P Require Import JobStore.
From S2P Require Import JobServices.
From S2P Require Import TransferAuth.
From S2P Require Import TransferStore.
From S2P Require Import TransferEvidence.
From S2P Require Import TransferExamples.
From S2P Require Import WorkerFraming.
From S2P Require Import WorkerOperations.
From S2P Require Import WorkerControl.
From S2P Require Import WorkerSafety.
From S2P Require Import WorkerExamples.
From S2P Require Import ServerHistory.
From S2P Require Import ServerRecords.
From S2P Require Import EndToEnd.

Module EndToEndExamples.
Import Reference.
#[local] Existing Instances base64 base64_laws toy_sha256 toy_ed25519 toy_ed25519_laws
  raw_uuid raw_uuid_laws hex_simple hex_simple_laws rfc_kind v4_entropy
  TransferExamples.last_instant WorkerExamples.quoted
  WorkerSystemExamples.raw_parse WorkerSystemExamples.named_json.
Import StorageExamples(ok_call, disk, store_name, chunk0, chunk1).

(** ** The server's side of the Transfer *)

Definition endpoint : EndpointId := TransferExamples.ep9.
Definition transfer : TransferId := v4_uuid 4.
Definition artifact : ArtifactId := v4_uuid 3.
Definition token : str := b64_encode (array_bytes (be_array 32 7)).

(** The Transfer is created with chunks of 8 bytes, dispatched, acknowledged and granted. *)
Definition granted : list Step.t := Step.Server <$>
  [TransferOp.Job (JobOp.Environment {[endpoint := TransferExamples.aggregate9]} ∅ ∅);
   TransferOp.Job (JobOp.CreateWorkflow endpoint 1);
   TransferOp.Job (JobOp.Admit (v4_uuid 0) 10);
   TransferOp.CreateTransferContext endpoint (v4_uuid 0) (v4_uuid 1)
     TransferDirection.AgentToServer DigestAlgorithm.Sha256 8 (lit "disk-0");
   TransferOp.Job (JobOp.SatisfyPreconditions (v4_uuid 0) (v4_uuid 1));
   TransferOp.Job (JobOp.CommitTransfer (v4_uuid 0) (v4_uuid 1) transfer []);
   TransferOp.Job (JobOp.Evidence (v4_uuid 6) endpoint ActionEvidence.AckAccepted 20);
   TransferOp.Issue (from_timestamp_millis DEFAULT_CAPABILITY_TTL_MILLIS)
     (lit "https://server/data") 0 endpoint (v4_uuid 6) transfer
     (ProofPublicKey_to_wire_value TransferExamples.key)].

Definition signature (operation : AuthorizationOperation.t) (chunk : option N) (proof : ProofId)
  : str :=
  ProofSignature_to_wire_value
    (sk_sign TransferExamples.key (build_proof_transcript (CapabilityId_from_token_bytes token) {|
       pf_operation := operation; pf_transfer_id := transfer; pf_artifact_id := artifact;
       pf_direction := TransferDirection.AgentToServer; pf_chunk_index := chunk;
       pf_proof_id := proof; pf_issued_at_millis := 1000 |})).

(** ** The Endpoint's requests *)

Definition proof_headers (operation : AuthorizationOperation.t) (chunk : option N) (n : N)
  : HeaderMap :=
  [(HEADER_CAPABILITY, token);
   (HEADER_TRANSFER_PROOF,
    ProofId_to_wire_value (be_array 16 n) ++ x2e :: lit "1000"
      ++ x2e :: signature operation chunk (be_array 16 n))].
Definition put (i : N) (chunk : list byte) : HttpRequest.t :=
  HttpRequest.Upload (array_bytes transfer) (decimal i)
    (proof_headers AuthorizationOperation.ChunkUpload (Some i) (i + 1)
     ++ [(HEADER_CHUNK_DIGEST, to_base64url_no_pad (sha256 chunk));
         (lit "content-type", lit "application/octet-stream");
         (lit "content-length", decimal (N.of_nat (length chunk)))])
    [BodyFrame.Data (take 3 chunk); BodyFrame.Data (drop 3 chunk)].
Definition seal_post : HttpRequest.t :=
  HttpRequest.Seal (array_bytes transfer)
    (proof_headers AuthorizationOperation.SealManifest None 3) [BodyFrame.Data (lit "seal")].

(** ** Both sides *)

Record Both : Type := { b_steps : list Step.t; b_events : list WorkerEvent.t }.
Definition server (b : Both) : (ControlWorld * list Event.t) * nat :=
  control_run (empty_control (empty_transfer_world (v4_uuid 8) 16) 8 1) (b_steps b) 0.
#[local] Abbreviation worker b :=
  (worker_run store_name 101 100 5 64 30 30000 (v4_uuid 1) (worker_start store_name disk) (b_events b)).

Definition serves (b : Both) (sts : list Step.t) : Both :=
  {| b_steps := b_steps b ++ sts; b_events := b_events b |}.
Definition drives (b : Both) (es : list WorkerEvent.t) : Both :=
  {| b_steps := b_steps b; b_events := b_events b ++ es |}.

(** The messages of a run, in order. *)
Definition sent_by_worker (e : Trace.t) : option WorkerProtocolMessage.t :=
  match e with Trace.Sent _ m => Some m | _ => None end.
Definition got_by_worker (e : Trace.t) : option WorkerProtocolMessage.t :=
  match e with Trace.Got _ m => Some m | _ => None end.
Definition sent_by_server (e : Event.t) : option WorkerProtocolMessage.t :=
  match e with Event.Called _ _ (Call.Send m) _ => Some m | _ => None end.
Definition got_by_server (e : Event.t) : option WorkerProtocolMessage.t :=
  match e with
  | Event.Called _ _ call a =>
      match call return Call.answer call → _ with
      | Call.Receive => λ a, match a with Incoming.Received (Ok m) => Some m | _ => None end
      | _ => λ _, None
      end a
  | _ => None
  end.

(** Handler [i] of the Worker asks, stamped [k]; the server makes [n] calls for it; its
    answer is delivered and the handler reads it. *)
Definition round (i k n : nat) (b : Both) : Both :=
  let b := drives b (replicate 3 (WorkerEvent.Advance i k)
                     ++ [WorkerEvent.Drive (ClientEvent.Request true 0)]) in
  match omap sent_by_worker (cl_trace (wk_client (worker b))) with
  | m :: _ =>
      let b := serves b (WorkerExamples.ask 0 n m) in
      match last (omap sent_by_server (server b).1.2) with
      | Some m => drives b [WorkerEvent.Drive (ClientEvent.Receive (Some m)); WorkerEvent.Advance i 0]
      | None => b
      end
  | [] => b
  end.
Definition requests (r : HttpRequest.t) (b : Both) : Both := drives b [WorkerEvent.Accept r].
Definition works (i : nat) (b : Both) : Both := drives b (WorkerSystemExamples.works i i).

Definition connected : Both :=
  {| b_steps := granted ++ WorkerExamples.connect 0; b_events := WorkerSystemExamples.online |}.
Definition uploads (i : nat) (chunk : list byte) (b : Both) : Both :=
  round i (200 + i) 4 (works i (round i (100 + i) 4 (requests (put (N.of_nat i) chunk) b))).
Definition seals (b : Both) : Both :=
  round 2 301 4 (works 2 (round 2 300 4 (requests seal_post b))).

Definition whole : Both := seals (uploads 1 chunk1 (uploads 0 chunk0 connected)).

(** The uploads are answered 201, the seal 200 with Verified. *)
Example whole_answers :
  WorkerSystemExamples.answer_of (worker whole) 0 = Some (chunk_accepted 0) ∧
  WorkerSystemExamples.answer_of (worker whole) 1 = Some (chunk_accepted 1) ∧
  rs_status <$> WorkerSystemExamples.answer_of (worker whole) 2 = Some 200%N.
Proof. by vm_compute. Qed.

(** ** The hypotheses hold *)

Lemma round_steps (P : Step.t → Prop) i k n b :
  (∀ m, Forall P (WorkerExamples.ask 0 n m)) → Forall P (b_steps b) →
  Forall P (b_steps (round i k n b)).
Proof.
  intros Ha Hb. unfold round. destruct (omap _ _) as [|m l]; [done|].
  destruct (last _); simpl; by apply Forall_app.
Qed.

Lemma whole_steps (P : Step.t → Prop) :
  (∀ m, Forall P (WorkerExamples.ask 0 4 m)) → Forall P (b_steps connected) →
  Forall P (b_steps whole).
Proof. intros Ha Hc. by repeat (apply round_steps; [done|]). Qed.

Lemma whole_own : Forall (λ st, own_step st = true) (b_steps whole).
Proof.
  apply whole_steps; [intros m; by apply Forall_replicate|].
  apply Forall_forall, forallb_elem_of. by vm_compute.
Qed.
Lemma whole_in_range : Forall step_in_range (b_steps whole).
Proof.
  apply whole_steps; [apply WorkerExamples.steps_in_range|].
  apply Forall_app. split; [|apply WorkerExamples.connect_in_range].
  repeat constructor; simpl; lia.
Qed.

Lemma server_eq b :
  control_run (empty_control (empty_transfer_world (v4_uuid 8) 16) 8 1) (b_steps b) 0
  = (((server b).1.1, (server b).1.2), (server b).2).
Proof. unfold server. by destruct (control_run _ _ _) as [[w tr] k]. Qed.

Lemma whole_server_draws : fresh_draws 0 (server whole).2.
Proof.
  apply (fresh_draws_mono _ 64); [apply Nat.leb_le; by vm_compute|].
  apply (bool_decide_eq_true_1 _). by vm_compute.
Qed.

Lemma whole_no_loss : Forall (λ e, no_loss e = true) (b_events whole).
Proof. apply Forall_forall, forallb_elem_of. by vm_compute. Qed.
Lemma whole_short : (N.of_nat (length (b_events whole)) < 2 ^ 64)%N.
Proof. by vm_compute. Qed.
Lemma whole_draws : fresh_draws 0 (length (so_tasks (wk_store (worker whole)))).
Proof. replace (length _) with 3 by (by vm_compute). by apply (bool_decide_unpack _). Qed.

Definition whole_trace : list Trace.t := cl_trace (wk_client (worker whole)).
Lemma whole_traces : traces (worker whole) = [whole_trace].
Proof. by vm_compute. Qed.

(** What each side received is, message by message, what the other sent. *)
Lemma whole_requests :
  omap got_by_server (server whole).1.2 = reverse (omap sent_by_worker whole_trace).
Proof. by vm_compute. Qed.
Lemma whole_replies :
  reverse (omap got_by_worker whole_trace) = omap sent_by_server (server whole).1.2.
Proof. by vm_compute. Qed.

Lemma sent_by_worker_Sent wtr m : worker_sent [wtr] m ↔ m ∈ omap sent_by_worker wtr.
Proof.
  rewrite list_elem_of_omap. split.
  - intros (wtr' & g & ->%list_elem_of_singleton & Hs). by exists (Trace.Sent g m).
  - intros ([| |g m'|] & He & Hm); try done. injection Hm as ->. exists wtr, g. by split; [left|].
Qed.

Lemma joined_delivers tr wtr :
  omap got_by_server tr = reverse (omap sent_by_worker wtr) →
  reverse (omap got_by_worker wtr) = omap sent_by_server tr → delivers tr [wtr].
Proof.
  intros Hreq Hrep. split.
  - intros c g m Hr. apply sent_by_worker_Sent, elem_of_reverse. rewrite <-Hreq.
    apply list_elem_of_omap. by eexists.
  - intros wtr' g m ->%list_elem_of_singleton Hg.
    assert (m ∈ omap sent_by_server tr) as (e & He & Hm)%list_elem_of_omap.
    { rewrite <-Hrep. apply elem_of_reverse, list_elem_of_omap. by eexists. }
    destruct e as [| |c g' [] a| | |]; try done. injection Hm as ->. by exists c, g', a.
Qed.

Lemma joined_unique wtr :
  bool_decide (NoDup ((λ m, env_message_id (WorkerProtocolMessage.get_envelope m))
    <$> omap sent_by_worker wtr)) = true → ids_unique [wtr].
Proof.
  intros Hnd%bool_decide_eq_true m m' [i Hi]%sent_by_worker_Sent%list_elem_of_lookup
    [j Hj]%sent_by_worker_Sent%list_elem_of_lookup He.
  assert (i = j) as ->; [|congruence].
  eapply NoDup_lookup; [exact Hnd|by rewrite list_lookup_fmap, Hi|].
  by rewrite list_lookup_fmap, Hj, He.
Qed.

Lemma whole_delivers : delivers (server whole).1.2 (traces (worker whole)).
Proof. rewrite whole_traces. exact (joined_delivers _ _ whole_requests whole_replies). Qed.

Lemma whole_unique : ids_unique (traces (worker whole)).
Proof.
  rewrite whole_traces. apply joined_unique. by vm_compute.
Qed.

(** ** Witnesses *)

#[local] Abbreviation db := (tw_db (cw_transfer (server whole).1.1)).

Definition facts : TransferLockedFacts :=
  match load_locked_facts db transfer with Ok (Some f) => f | _ => TransferExamples.no_facts end.
Lemma facts_loaded : load_locked_facts db transfer = Ok (Some facts).
Proof.
  assert (match load_locked_facts db transfer with Ok (Some _) => true | _ => false end = true)
    as H by (by vm_compute).
  unfold facts. by destruct (load_locked_facts db transfer) as [[]|].
Qed.

Definition second_chunk : ExpectedChunk :=
  {| ec_index := 1; ec_size := 7; ec_digest := array_bytes (sha256 chunk1) |}.


End EndToEndExamples.
