(* ===== verification/AgentProtocol.v ===== *)
(** * The Agent protocol

    Models [crates/agent-protocol/src]: the envelope, identifiers and the seventeen messages
    between Server and Agent with their constructors, and the checks of the hand-written
    deserializers. The JSON layer ([serde_json]) is a parameter; what it must do with the
    checks is a class of laws. Debug texts are left out. *)

From stdpp Require Import prelude strings.
From Stdlib Require Import Strings.Byte NArith ZArith.
From S2P Require Import Prelude.
From S2P Require Import External.
From S2P Require Import TrustedBootstrap.
From S2P Require Import Inventory.

(** ** Envelopes *)

(** [ProtocolId(Uuid)]. *)
Definition ProtocolId : Type := Uuid.

Definition PROTOCOL_VERSION_V1 : str := lit "1".
Definition ProtocolVersion_v1 : str := PROTOCOL_VERSION_V1.
Definition ProtocolVersion_is_v1 (v : str) : bool := bool_decide (v = PROTOCOL_VERSION_V1).

Module ProtocolIdError.
Inductive t : Type := NotUuidV4 | NonCanonicalRepresentation | Malformed.
End ProtocolIdError.

Section ProtocolId.
Context {kind : UuidKind} {uparse : UuidParse} {disp : UuidDisplay}.

Definition ProtocolId_from_uuid (u : Uuid) : result ProtocolIdError.t ProtocolId :=
  if negb (uuid_version_num u =? 4)%N then Err ProtocolIdError.NotUuidV4 else Ok u.

(** [Deserialize for ProtocolId], on the text of the JSON string. *)
Definition ProtocolId_deserialize (raw : str) : result ProtocolIdError.t ProtocolId :=
  u ← ok_or ProtocolIdError.Malformed (uuid_parse_str raw);
  id ← ProtocolId_from_uuid u;
  if negb (bool_decide (raw = uuid_hyphenated id))
  then Err ProtocolIdError.NonCanonicalRepresentation else Ok id.

Definition ProtocolId_serialize (id : ProtocolId) : str := uuid_hyphenated id.
End ProtocolId.

Record Envelope : Type := {
  env_message_id : ProtocolId;
  env_protocol_version : str;
  env_timestamp : Instant;
  env_correlation_id : option ProtocolId;
}.

(** [Envelope::new] draws an identity and reads the clock. *)
Definition Envelope_new `{Entropy} (now : Instant) : Gen Envelope :=
  id ← new_v4;
  mret {| env_message_id := id; env_protocol_version := ProtocolVersion_v1;
          env_timestamp := now; env_correlation_id := None |}.

Definition Envelope_with_correlation_id (e : Envelope) (id : ProtocolId) : Envelope :=
  {| env_message_id := env_message_id e; env_protocol_version := env_protocol_version e;
     env_timestamp := env_timestamp e; env_correlation_id := Some id |}.

(** Every message is an envelope and a body, flattened on the wire. *)
Record Message (B : Type) : Type := { envelope : Envelope; body : B }.
Arguments envelope {B} m.
Arguments body {B} m.

Definition with_correlation_id {B} (m : Message B) (id : ProtocolId) : Message B :=
  {| envelope := Envelope_with_correlation_id (envelope m) id; body := body m |}.

(** ** [Percent] *)

Definition Percent : Type := N.
Definition Percent_new (value : N) : result unit Percent :=
  if (100 <? value)%N then Err tt else Ok value.

(** ** Bodies *)

(** [serde_json::Map] and its [get] followed by [as_str]; keys are distinct. *)
Definition JsonMap : Type := list (str * Value.t).
Fixpoint map_get (m : JsonMap) (key : str) : option Value.t :=
  match m with
  | [] => None
  | (k, v) :: rest => if bool_decide (k = key) then Some v else map_get rest key
  end.
Definition get_str (m : JsonMap) (key : str) : option str :=
  match map_get m key with Some (Value.String s) => Some s | _ => None end.

Record AuthRequestBody : Type := { ar_credential : str }.
Record SessionEstablishedBody : Type := {
  se_session_id : ProtocolId;
  se_runtime_credential : str;
  se_credential_expires_at : Instant;
}.
Record AuthErrorBody : Type := { ae_reason : str }.
Record ProtocolErrorBody : Type := { pe_code : str; pe_message : str }.

Record TransferAuthorizationRequestBody : Type := {
  tar_transfer_id : ProtocolId;
  tar_proof_public_key : str;
}.
Record TransferAuthorizationGrantBody : Type := {
  tag_transfer_id : ProtocolId;
  tag_token : str;
  tag_expires_at : Instant;
  tag_data_plane_base_url : str;
}.
Record TransferAuthorizationDeniedBody : Type := {
  tad_transfer_id : ProtocolId;
  tad_reason : str;
}.

Record ActionDispatchBody : Type := {
  adb_action_id : ProtocolId;
  adb_action_type : str;
  adb_action_version : str;
  adb_parameters : JsonMap;
  adb_retry_of : option ProtocolId;
}.

Module ActionAckOutcome.
Inductive t : Type := Accepted | Rejected.
End ActionAckOutcome.

Module ActionAckContractError.
Inductive t : Type :=
| EmptyErrorCode | EmptyErrorMessage | AcceptedWithError | RejectedWithoutError.
End ActionAckContractError.

Record ActionAckError : Type := { aae_code : str; aae_message : option str }.

Definition ActionAckError_new (code : str) : ActionAckError :=
  {| aae_code := code; aae_message := None |}.
Definition ActionAckError_with_message (e : ActionAckError) (message : str) : ActionAckError :=
  {| aae_code := aae_code e; aae_message := Some message |}.

(** [Deserialize for ActionAckError], on the raw fields. *)
Definition ActionAckError_deserialize (code : str) (message : option str)
  : result ActionAckContractError.t ActionAckError :=
  if bool_decide (code = []) then Err ActionAckContractError.EmptyErrorCode
  else if bool_decide (message = Some []) then Err ActionAckContractError.EmptyErrorMessage
  else Ok {| aae_code := code; aae_message := message |}.

Record ActionAckBody : Type := {
  aa_action_id : ProtocolId;
  aa_outcome : ActionAckOutcome.t;
  aa_error : option ActionAckError;
}.

Definition ActionAckBody_deserialize (action_id : ProtocolId) (outcome : ActionAckOutcome.t)
    (error : option ActionAckError) : result ActionAckContractError.t ActionAckBody :=
  match outcome, error with
  | ActionAckOutcome.Accepted, Some _ => Err ActionAckContractError.AcceptedWithError
  | ActionAckOutcome.Rejected, None => Err ActionAckContractError.RejectedWithoutError
  | ActionAckOutcome.Accepted, None | ActionAckOutcome.Rejected, Some _ =>
      Ok {| aa_action_id := action_id; aa_outcome := outcome; aa_error := error |}
  end.

Record ActionProgressBody : Type := {
  apb_action_id : ProtocolId;
  apb_percent : option Percent;
  apb_bytes_processed : option N;
  apb_eta : option Instant;
}.

(** [Err tt] is [EmptyActionProgress]. *)
Definition ActionProgressBody_deserialize (action_id : ProtocolId) (percent : option Percent)
    (bytes_processed : option N) (eta : option Instant) : result unit ActionProgressBody :=
  match percent, bytes_processed, eta with
  | None, None, None => Err tt
  | _, _, _ => Ok {| apb_action_id := action_id; apb_percent := percent;
                     apb_bytes_processed := bytes_processed; apb_eta := eta |}
  end.

Module ActionResultOutcome.
Inductive t : Type := Succeeded | Failed | Cancelled.
End ActionResultOutcome.

Record ActionResultBody : Type := {
  arb_action_id : ProtocolId;
  arb_outcome : ActionResultOutcome.t;
  arb_detail : JsonMap;
}.

Record CancelActionBody : Type := { ca_action_id : ProtocolId }.

(** [CancelAckOutcome] of the wire. *)
Module CancelAckWireOutcome.
Inductive t : Type := Cancelled | AlreadyCompleted | CannotCancel | Unknown.
End CancelAckWireOutcome.

Record CancelAckBody : Type := {
  cab_action_id : ProtocolId;
  cab_outcome : CancelAckWireOutcome.t;
}.

Record StatusQueryBody : Type := { sq_action_id : ProtocolId }.

Module KnownActionState.
Inductive t : Type := Accepted | Running | Succeeded | Failed | Cancelled | Unknown.
End KnownActionState.

Record StatusReportBody : Type := {
  srb_action_id : ProtocolId;
  srb_known_state : KnownActionState.t;
}.

(** ** Messages *)

(** The map of an inventory report is what the server stores: [InventorySnapshot]. *)
Module AgentProtocolMessage.
Inductive t `{JsonbInventory} : Type :=
| AuthRequest (m : Message AuthRequestBody)
| SessionEstablished (m : Message SessionEstablishedBody)
| AuthError (m : Message AuthErrorBody)
| BootstrapEvidence (m : Message BootstrapEvidenceBody)
| InventoryReport (m : Message InventorySnapshot)
| TransferAuthorizationRequest (m : Message TransferAuthorizationRequestBody)
| TransferAuthorizationGrant (m : Message TransferAuthorizationGrantBody)
| TransferAuthorizationDenied (m : Message TransferAuthorizationDeniedBody)
| ActionDispatch (m : Message ActionDispatchBody)
| ActionAck (m : Message ActionAckBody)
| ActionProgress (m : Message ActionProgressBody)
| ActionResult (m : Message ActionResultBody)
| CancelAction (m : Message CancelActionBody)
| CancelAck (m : Message CancelAckBody)
| StatusQuery (m : Message StatusQueryBody)
| StatusReport (m : Message StatusReportBody)
| ProtocolError (m : Message ProtocolErrorBody).

Definition get_envelope `{JsonbInventory} (m : t) : Envelope :=
  match m with
  | AuthRequest m => envelope m
  | SessionEstablished m => envelope m
  | AuthError m => envelope m
  | BootstrapEvidence m => envelope m
  | InventoryReport m => envelope m
  | TransferAuthorizationRequest m => envelope m
  | TransferAuthorizationGrant m => envelope m
  | TransferAuthorizationDenied m => envelope m
  | ActionDispatch m => envelope m
  | ActionAck m => envelope m
  | ActionProgress m => envelope m
  | ActionResult m => envelope m
  | CancelAction m => envelope m
  | CancelAck m => envelope m
  | StatusQuery m => envelope m
  | StatusReport m => envelope m
  | ProtocolError m => envelope m
  end.
End AgentProtocolMessage.

(** ** Constructors

    [now] is what the clock reads. *)

Section Constructors.
Context {ent : Entropy} {js : JsonbInventory}.
Context (now : Instant).

Definition uncorrelated {B} (b : B) : Gen (Message B) :=
  e ← Envelope_new now; mret {| envelope := e; body := b |}.
Definition correlated_to {B} (id : ProtocolId) (b : B) : Gen (Message B) :=
  e ← Envelope_new now; mret {| envelope := Envelope_with_correlation_id e id; body := b |}.

Definition AuthRequestMessage_new (credential : str) : Gen (Message AuthRequestBody) :=
  uncorrelated {| ar_credential := credential |}.
Definition SessionEstablishedMessage_new (session_id : ProtocolId) (runtime_credential : str)
    (expires_at : Instant) : Gen (Message SessionEstablishedBody) :=
  uncorrelated {| se_session_id := session_id; se_runtime_credential := runtime_credential;
                  se_credential_expires_at := expires_at |}.
Definition AuthErrorMessage_new (reason : str) : Gen (Message AuthErrorBody) :=
  uncorrelated {| ae_reason := reason |}.
Definition BootstrapEvidenceMessage_new (boot_nonce bootstrap_assertion : str)
  : Gen (Message BootstrapEvidenceBody) :=
  uncorrelated {| be_boot_nonce := boot_nonce; be_bootstrap_assertion := bootstrap_assertion;
                  be_local_boot_trust := LocalBootTrust.Established |}.
Definition ProtocolErrorMessage_new (code message : str) : Gen (Message ProtocolErrorBody) :=
  uncorrelated {| pe_code := code; pe_message := message |}.
Definition InventoryReportMessage_new (inventory : InventorySnapshot)
  : Gen (Message InventorySnapshot) := uncorrelated inventory.
Definition TransferAuthorizationRequestMessage_new (action_id transfer_id : ProtocolId)
    (proof_public_key : str) : Gen (Message TransferAuthorizationRequestBody) :=
  correlated_to action_id {| tar_transfer_id := transfer_id;
                             tar_proof_public_key := proof_public_key |}.
Definition TransferAuthorizationGrantMessage_new (action_id transfer_id : ProtocolId)
    (token : str) (expires_at : Instant) (data_plane_base_url : str)
  : Gen (Message TransferAuthorizationGrantBody) :=
  correlated_to action_id {| tag_transfer_id := transfer_id; tag_token := token;
                             tag_expires_at := expires_at;
                             tag_data_plane_base_url := data_plane_base_url |}.
Definition TransferAuthorizationDeniedMessage_new (correlation_id transfer_id : ProtocolId)
    (reason : str) : Gen (Message TransferAuthorizationDeniedBody) :=
  correlated_to correlation_id {| tad_transfer_id := transfer_id; tad_reason := reason |}.
Definition ActionDispatchMessage_new (action_id : ProtocolId) (action_type action_version : str)
    (parameters : JsonMap) : Gen (Message ActionDispatchBody) :=
  correlated_to action_id {| adb_action_id := action_id; adb_action_type := action_type;
                             adb_action_version := action_version; adb_parameters := parameters;
                             adb_retry_of := None |}.
Definition ActionAckMessage_accepted (action_id : ProtocolId) : Gen (Message ActionAckBody) :=
  correlated_to action_id {| aa_action_id := action_id; aa_outcome := ActionAckOutcome.Accepted;
                             aa_error := None |}.
Definition ActionAckMessage_rejected (action_id : ProtocolId) (error : ActionAckError)
  : Gen (Message ActionAckBody) :=
  correlated_to action_id {| aa_action_id := action_id; aa_outcome := ActionAckOutcome.Rejected;
                             aa_error := Some error |}.
Definition ActionProgressMessage_new (action_id : ProtocolId) (percent : option Percent)
    (bytes_processed : option N) (eta : option Instant)
  : Gen (result unit (Message ActionProgressBody)) :=
  match percent, bytes_processed, eta with
  | None, None, None => mret (Err tt)
  | _, _, _ =>
      m ← correlated_to action_id {| apb_action_id := action_id; apb_percent := percent;
                                     apb_bytes_processed := bytes_processed; apb_eta := eta |};
      mret (Ok m)
  end.
Definition ActionResultMessage_new (action_id : ProtocolId) (outcome : ActionResultOutcome.t)
    (detail : JsonMap) : Gen (Message ActionResultBody) :=
  correlated_to action_id {| arb_action_id := action_id; arb_outcome := outcome;
                             arb_detail := detail |}.
Definition CancelActionMessage_new (action_id : ProtocolId) : Gen (Message CancelActionBody) :=
  correlated_to action_id {| ca_action_id := action_id |}.
Definition CancelAckMessage_new (action_id : ProtocolId) (outcome : CancelAckWireOutcome.t)
  : Gen (Message CancelAckBody) :=
  correlated_to action_id {| cab_action_id := action_id; cab_outcome := outcome |}.
Definition StatusQueryMessage_new (action_id : ProtocolId) : Gen (Message StatusQueryBody) :=
  correlated_to action_id {| sq_action_id := action_id |}.
Definition StatusReportMessage_new (action_id : ProtocolId) (known_state : KnownActionState.t)
  : Gen (Message StatusReportBody) :=
  correlated_to action_id {| srb_action_id := action_id; srb_known_state := known_state |}.

Definition ActionDispatchMessage_with_retry_of (m : Message ActionDispatchBody) (id : ProtocolId)
  : Message ActionDispatchBody :=
  {| envelope := envelope m;
     body := {| adb_action_id := adb_action_id (body m); adb_action_type := adb_action_type (body m);
                adb_action_version := adb_action_version (body m);
                adb_parameters := adb_parameters (body m); adb_retry_of := Some id |} |}.
Definition ActionProgressMessage_percent (action_id : ProtocolId) (percent : Percent)
  : Gen (Message ActionProgressBody) :=
  correlated_to action_id {| apb_action_id := action_id; apb_percent := Some percent;
                             apb_bytes_processed := None; apb_eta := None |}.

(** The retained evidence of an action is sent again under a new identity. *)
Definition with_fresh_message_id {B} (m : Message B) : Gen (Message B) :=
  id ← new_v4;
  mret {| envelope := {| env_message_id := id;
                         env_protocol_version := env_protocol_version (envelope m);
                         env_timestamp := now;
                         env_correlation_id := env_correlation_id (envelope m) |};
          body := body m |}.
End Constructors.
