(* ===== verification/OutboundSessions.v ===== *)
(** * The outbound session directory

    Models [crates/server/src/runtime/outbound_sessions.rs]: which authenticated session of
    an Endpoint receives outbound traffic, over which channel, and which session carried the
    last dispatched action. Every method runs under the one mutex and is one function; of
    [send], the part under the mutex is [resolve], and waiting on the channel is in
    [AgentGateway]. *)

From stdpp Require Import prelude gmap strings.
From Stdlib Require Import Strings.Byte NArith ZArith.
From S2P Require Import Prelude.
From S2P Require Import External.
From S2P Require Import Endpoint.
From S2P Require Import Inventory.
From S2P Require Import AgentProtocol.

Definition OUTBOUND_CHANNEL_CAPACITY : nat := 32.

(** A channel is named by a number; the map holds its sending half. *)
Record OutboundSessionDirectory : Type := {
  od_live_sessions : gmap EndpointId (list ProtocolId);
  od_channels : gmap ProtocolId nat;
  od_dispatch_correlation : gmap EndpointId (ProtocolId * ProtocolId);
}.

Definition OutboundSessionDirectory_new : OutboundSessionDirectory :=
  {| od_live_sessions := ∅; od_channels := ∅; od_dispatch_correlation := ∅ |}.

Module AgentDispatchError.
Inductive t : Type := NoSession | ChannelClosed | SendFailed.
End AgentDispatchError.

Module BindOutcome.
Inductive t : Type := Bound | StaleActionIgnored.
End BindOutcome.

Section Directory.
Context {js : JsonbInventory}.
Implicit Types (d : OutboundSessionDirectory) (e : EndpointId) (s a : ProtocolId).

Definition sessions_of d e : list ProtocolId := default [] (od_live_sessions d !! e).

Definition register d e s (sender : nat) : OutboundSessionDirectory :=
  let sessions := sessions_of d e in
  {| od_live_sessions :=
       <[e := if bool_decide (s ∈ sessions) then sessions else sessions ++ [s]]>
         (od_live_sessions d);
     od_channels := <[s := sender]> (od_channels d);
     od_dispatch_correlation := od_dispatch_correlation d |}.

Definition unregister d e s : OutboundSessionDirectory :=
  let channels := delete s (od_channels d) in
  match od_live_sessions d !! e with
  | None =>
      {| od_live_sessions := od_live_sessions d; od_channels := channels;
         od_dispatch_correlation := od_dispatch_correlation d |}
  | Some sessions =>
      match filter (.≠ s) sessions with
      | [] =>
          {| od_live_sessions := delete e (od_live_sessions d); od_channels := channels;
             od_dispatch_correlation := delete e (od_dispatch_correlation d) |}
      | rest =>
          {| od_live_sessions := <[e := rest]> (od_live_sessions d); od_channels := channels;
             od_dispatch_correlation := od_dispatch_correlation d |}
      end
  end.

Definition dispatch_relevant_action d e s : option ProtocolId :=
  match od_dispatch_correlation d !! e with
  | Some (sid, action_id) => if bool_decide (sid = s) then Some action_id else None
  | None => None
  end.

Definition correlate d e s a : OutboundSessionDirectory :=
  {| od_live_sessions := od_live_sessions d; od_channels := od_channels d;
     od_dispatch_correlation := <[e := (s, a)]> (od_dispatch_correlation d) |}.

Definition bind_dispatch_relevant_session d e s a : OutboundSessionDirectory * BindOutcome.t :=
  match od_dispatch_correlation d !! e with
  | Some (_, current_action_id) =>
      if negb (bool_decide (current_action_id = a)) then (d, BindOutcome.StaleActionIgnored)
      else (correlate d e s a, BindOutcome.Bound)
  | None => (correlate d e s a, BindOutcome.Bound)
  end.

(** The block of [send] under the mutex: the newest live session and its channel. *)
Definition resolve d e (m : AgentProtocolMessage.t)
  : OutboundSessionDirectory * result AgentDispatchError.t nat :=
  match last (sessions_of d e) with
  | None => (d, Err AgentDispatchError.NoSession)
  | Some s =>
      let d' := match m with
                | AgentProtocolMessage.ActionDispatch dispatch =>
                    correlate d e s (adb_action_id (body dispatch))
                | _ => d
                end in
      (d', ok_or AgentDispatchError.NoSession (od_channels d' !! s))
  end.

(** ** Facts *)

Lemma sessions_register d e s c e' :
  sessions_of (register d e s c) e' =
  if decide (e' = e)
  then (if bool_decide (s ∈ sessions_of d e) then sessions_of d e else sessions_of d e ++ [s])
  else sessions_of d e'.
Proof.
  unfold sessions_of at 1, register. simpl. destruct (decide (e' = e)) as [->|Hne].
  - by rewrite lookup_insert_eq.
  - by rewrite lookup_insert_ne.
Qed.

Lemma sessions_unregister d e s e' :
  sessions_of (unregister d e s) e' =
  if decide (e' = e) then filter (.≠ s) (sessions_of d e) else sessions_of d e'.
Proof.
  unfold sessions_of, unregister.
  destruct (od_live_sessions d !! e) as [l|] eqn:Hl; simpl.
  - destruct (filter (.≠ s) l) as [|x rest] eqn:Hf; simpl; destruct (decide (e' = e)) as [->|Hne].
    + by rewrite lookup_delete_eq.
    + by rewrite lookup_delete_ne.
    + by rewrite lookup_insert_eq.
    + by rewrite lookup_insert_ne.
  - destruct (decide (e' = e)) as [->|]; [by rewrite Hl|done].
Qed.

Lemma channels_unregister d e s : od_channels (unregister d e s) = delete s (od_channels d).
Proof. unfold unregister. by repeat case_match. Qed.

Lemma register_member d e s c s' e' :
  s' ∈ sessions_of (register d e s c) e' ↔ s' ∈ sessions_of d e' ∨ (e' = e ∧ s' = s).
Proof.
  rewrite sessions_register. destruct (decide (e' = e)) as [->|]; [|naive_solver].
  case_bool_decide; [naive_solver|]. rewrite elem_of_app, list_elem_of_singleton. naive_solver.
Qed.

Lemma unregister_member d e s s' e' :
  s' ∈ sessions_of (unregister d e s) e' ↔ s' ∈ sessions_of d e' ∧ ¬ (e' = e ∧ s' = s).
Proof.
  rewrite sessions_unregister. destruct (decide (e' = e)) as [->|]; [|naive_solver].
  rewrite list_elem_of_filter. naive_solver.
Qed.

Lemma sessions_correlate d e s a e' : sessions_of (correlate d e s a) e' = sessions_of d e'.
Proof. done. Qed.

Lemma resolve_sessions d e m e' : sessions_of (resolve d e m).1 e' = sessions_of d e'.
Proof. unfold resolve. destruct (last _); [|done]. by destruct m. Qed.
Lemma resolve_channels d e m : od_channels (resolve d e m).1 = od_channels d.
Proof. unfold resolve. destruct (last _); [|done]. by destruct m. Qed.
Lemma bind_sessions d e s a e' :
  sessions_of (bind_dispatch_relevant_session d e s a).1 e' = sessions_of d e'.
Proof. unfold bind_dispatch_relevant_session. by repeat case_match. Qed.
Lemma bind_channels d e s a :
  od_channels (bind_dispatch_relevant_session d e s a).1 = od_channels d.
Proof. unfold bind_dispatch_relevant_session. by repeat case_match. Qed.

(** A session with a channel is found. *)
Lemma resolve_present d e s m :
  s ∈ sessions_of d e → (∀ s', s' ∈ sessions_of d e → is_Some (od_channels d !! s')) →
  ∃ s' c, last (sessions_of d e) = Some s' ∧ od_channels d !! s' = Some c ∧ (resolve d e m).2 = Ok c.
Proof.
  intros Hs Hc. destruct (last (sessions_of d e)) as [s'|] eqn:Hl.
  - apply last_Some in Hl as [l Hl]. destruct (Hc s') as [c Hs']; [rewrite Hl; set_solver|].
    exists s', c. split_and!; [done|done|]. unfold resolve. rewrite Hl, last_snoc. simpl.
    by destruct m; simpl; rewrite Hs'.
  - apply last_None in Hl. rewrite Hl in Hs. by apply elem_of_nil in Hs.
Qed.
End Directory.
