(* ===== verification/AgentGateway.v ===== *)
(** * The Agent control gateway

    Models [crates/server/src/adapters/agent_gateway.rs] and the outbound traffic of
    [crates/server/src/runtime/outbound_sessions.rs] and of the dispatch services of
    [crates/server/src/application/mod.rs]: the handshake, the message loop of a session with
    its handlers, registration and teardown, and the tasks that send over sessions. A task is
    a program over calls; a call is one step, and tasks interleave in any order. The WebSocket
    is the environment: it gives frames and says whether a send succeeded. [serde_json]
    decoding is a parameter; encoding of the server's own messages never fails, as the
    [expect]s of the source say, so frames sent are messages. *)

From stdpp Require Import prelude gmap strings.
From Stdlib Require Import Strings.Byte NArith ZArith.
From S2P Require Import Prelude.
From S2P Require Import External.
From S2P Require Import Credential.
From S2P Require Import Endpoint.
From S2P Require Import EnrollmentStore.
From S2P Require Import Job.
From S2P Require Import Transfer.
From S2P Require Import Runtime.
From S2P Require Import JobStore.
From S2P Require Import JobServices.
From S2P Require Import TransferAuth.
From S2P Require Import TransferStore.
From S2P Require Import TransferEvidence.
From S2P Require Import TrustedBootstrap.
From S2P Require Import Inventory.
From S2P Require Import AgentProtocol.
From S2P Require Import OutboundSessions.

(** [bamep_agent_protocol::decode]: [None] is a [DecodeError]. *)
Class AgentJson `{JsonbInventory} : Type := agent_decode : str → option AgentProtocolMessage.t.

(** ** Result details of actions ([application/mod.rs]) *)

Definition M1_SIMULATED_EXECUTION_ACTION_TYPE : str := lit "bamep.m1.simulated-execution".
Definition M1_SIMULATED_EXECUTION_ACTION_VERSION : str := lit "1".
Definition M1_DATA_PLANE_TRANSFER_ACTION_TYPE : str := lit "bamep.m1.data-plane-transfer".
Definition M1_DATA_PLANE_TRANSFER_ACTION_VERSION : str := lit "1".

Definition transfer_action_parameters `{UuidDisplay} (t : Transfer) : JsonMap :=
  let direction := match tr_direction t with
                   | TransferDirection.AgentToServer => lit "agent_to_server"
                   end in
  let digest_algorithm := match tr_digest_algorithm t with
                          | DigestAlgorithm.Sha256 => lit "sha256"
                          end in
  [(lit "transfer_id", Value.String (uuid_hyphenated (tr_id t)));
   (lit "artifact_id", Value.String (uuid_hyphenated (tr_artifact_id t)));
   (lit "direction", Value.String direction);
   (lit "digest_algorithm", Value.String digest_algorithm);
   (lit "chunk_size", Value.Number (Some (tr_chunk_size t)))].

Definition m1_result_detail_matches (outcome : ActionResultOutcome.t) (detail : JsonMap) : bool :=
  let code expected := bool_decide (get_str detail (lit "code") = Some expected) in
  match outcome with
  | ActionResultOutcome.Succeeded => code (lit "SIMULATED_COMPLETION")
  | ActionResultOutcome.Failed => code (lit "SIMULATED_FAILURE")
  | ActionResultOutcome.Cancelled => false
  end.

Module TransferResultDetailError.
Inductive t : Type :=
| MissingCode | UnknownCode | OutcomeCodeMismatch | MissingArtifactId | MalformedArtifactId.
End TransferResultDetailError.

Definition parse_transfer_result_detail `{UuidParse, UuidDisplay} (outcome : ActionResultOutcome.t)
    (detail : JsonMap) : result TransferResultDetailError.t TransferResultDetail :=
  code_str ← ok_or TransferResultDetailError.MissingCode (get_str detail (lit "code"));
  code ← ok_or TransferResultDetailError.UnknownCode
    (if bool_decide (code_str = lit "TRANSFER_VERIFIED")
     then Some TransferResultCode.TransferVerified
     else if bool_decide (code_str = lit "ARTIFACT_VERIFICATION_FAILED")
     then Some TransferResultCode.ArtifactVerificationFailed
     else if bool_decide (code_str = lit "CHUNK_VERIFICATION_FAILED")
     then Some TransferResultCode.ChunkVerificationFailed
     else if bool_decide (code_str = lit "TRANSFER_ABANDONED")
     then Some TransferResultCode.TransferAbandoned
     else None);
  let outcome_ok := match outcome, code with
                    | ActionResultOutcome.Succeeded, TransferResultCode.TransferVerified
                    | ActionResultOutcome.Failed, TransferResultCode.ArtifactVerificationFailed
                    | ActionResultOutcome.Failed, TransferResultCode.ChunkVerificationFailed
                    | ActionResultOutcome.Failed, TransferResultCode.TransferAbandoned => true
                    | _, _ => false
                    end in
  if negb outcome_ok then Err TransferResultDetailError.OutcomeCodeMismatch
  else
    artifact_id_str ← ok_or TransferResultDetailError.MissingArtifactId
                        (get_str detail (lit "artifact_id"));
    artifact_id ← ok_or TransferResultDetailError.MalformedArtifactId
                    (uuid_parse_str artifact_id_str);
    if negb (bool_decide (uuid_hyphenated artifact_id = artifact_id_str))
    then Err TransferResultDetailError.MalformedArtifactId
    else Ok {| trd_code := code; trd_artifact_id := artifact_id |}.

(** ** Calls *)

(** [tungstenite::Message]; [Control] is a ping, a pong or a raw frame. *)
Module Frame.
Inductive t : Type := Text (s : str) | Binary | Close | Control.
End Frame.

(** What the stream yields: its end, an error or a frame. *)
Abbreviation Incoming := (option (result unit Frame.t)).

(** What the [select!] of the loop yields. *)
Module Selected.
Inductive t {js : JsonbInventory} : Type :=
| Incoming (f : option (result unit Frame.t))
| Command (m : AgentProtocolMessage.t) (ack : nat).
End Selected.

Module AckResult.
Inductive t : Type := Sent (ok : bool) | Dropped.
End AckResult.

Module GatewayCall.
Inductive t {js : JsonbInventory} : Type :=
| Stamp
| GenerateId
| NextFrame
| Select (channel : nat)
| SendFrame (m : AgentProtocolMessage.t)
| Acknowledge (ack : nat) (ok : bool)
| Redeem (credential : str)
| VerifyAndEstablish (endpoint_id : EndpointId) (evidence : BootstrapEvidenceBody)
    (fingerprint : ServerCertFingerprint)
| RecordInventory (endpoint_id : EndpointId) (inventory : InventorySnapshot)
| ApplyEvidence (action_id : ActionId) (endpoint_id : EndpointId) (e : ActionEvidence.t)
| Classify (action_id : ActionId) (endpoint_id : EndpointId)
| TransferApply (action_id : ActionId) (endpoint_id : EndpointId) (d : TransferResultDetail)
| TransferCancelAck (action_id : ActionId) (endpoint_id : EndpointId) (e : CancelAckEvidence.t)
| TransferStatusCancelled (action_id : ActionId) (endpoint_id : EndpointId)
| TransferStatusFailed (action_id : ActionId) (endpoint_id : EndpointId)
| ApplyCancelAck (action_id : ActionId) (endpoint_id : EndpointId) (e : CancelAckEvidence.t)
| ApplyStatusReport (action_id : ActionId) (endpoint_id : EndpointId)
    (e : StatusReportEvidence.t)
| ActionBelongs (action_id : ActionId) (endpoint_id : EndpointId)
| Issue (endpoint_id : EndpointId) (action_id : ActionId) (transfer_id : TransferId)
    (proof_public_key : str)
| OpenChannel
| CloseChannel (channel : nat)
| RegisterOutbound (endpoint_id : EndpointId) (session_id : ProtocolId) (channel : nat)
| UnregisterOutbound (endpoint_id : EndpointId) (session_id : ProtocolId)
| RegisterPresence (endpoint_id : EndpointId) (session_id : ProtocolId)
| UnregisterPresence (endpoint_id : EndpointId) (session_id : ProtocolId)
| RelevantAction (endpoint_id : EndpointId) (session_id : ProtocolId)
| Bind (endpoint_id : EndpointId) (session_id action_id : ProtocolId)
| MarkUncertain (endpoint_id : EndpointId) (action_id : ActionId)
| FindCandidate (endpoint_id : EndpointId)
| SpawnReconcile (endpoint_id : EndpointId)
| RegisterReservation (attempt_id : AttemptId) (reservation : Arbiter.ReservationId)
| Resolve (endpoint_id : EndpointId) (m : AgentProtocolMessage.t)
| Enqueue (channel : nat) (m : AgentProtocolMessage.t)
| AwaitAck (ack : nat).

(** [Stamp] gives a constructor the clock and its place in the sequence of draws. *)
Definition answer {js : JsonbInventory} (c : t) : Type :=
  match c with
  | Stamp => Instant * nat
  | GenerateId => ProtocolId
  | NextFrame => Incoming
  | Select _ => Selected.t
  | SendFrame _ => bool
  | Acknowledge _ _ | CloseChannel _ | RegisterOutbound _ _ _ | UnregisterOutbound _ _
  | RegisterPresence _ _ | UnregisterPresence _ _ | SpawnReconcile _ => unit
  | Redeem _ => result Backend.t RedeemResult.t
  | VerifyAndEstablish _ _ _ => result EndpointUpdateError.t BootstrapEvidenceResult.t
  | RecordInventory _ _ => result InventoryError.t (option (InventoryRevision InventorySnapshot))
  | ApplyEvidence _ _ _ | ApplyCancelAck _ _ _ | ApplyStatusReport _ _ _ =>
      result JobError.t EvidenceResult.t
  | Classify _ _ => TransferActionClassification.t
  | TransferApply _ _ _ => result JobError.t TransferTerminalOutcome.t
  | TransferCancelAck _ _ _ | TransferStatusCancelled _ _ | TransferStatusFailed _ _ =>
      result JobError.t TransferRoutedOutcome.t
  | ActionBelongs _ _ => bool
  | Issue _ _ _ _ => result Backend.t TransferAuthorizationOutcome.t
  | OpenChannel => nat
  | RelevantAction _ _ => option ProtocolId
  | Bind _ _ _ => BindOutcome.t
  | MarkUncertain _ _ => result Backend.t (option AttemptId)
  | FindCandidate _ => result Backend.t (option ActionId)
  | RegisterReservation _ _ => Registry.RegistrationOutcome.t
  | Resolve _ _ => result AgentDispatchError.t nat
  | Enqueue _ _ => option nat
  | AwaitAck _ => AckResult.t
  end.
End GatewayCall.

(** ** Programs *)

Inductive gproc {js : JsonbInventory} (A : Type) : Type :=
| GRet (a : A)
| GDo (c : GatewayCall.t) (k : GatewayCall.answer c → gproc A).
Arguments GRet {js A} a.
Arguments GDo {js A} c k.

#[global] Instance gproc_ret {js : JsonbInventory} : MRet gproc := λ A a, GRet a.
#[global] Instance gproc_bind {js : JsonbInventory} : MBind gproc := λ A B f,
  fix bind p := match p with GRet a => f a | GDo c k => GDo c (λ r, bind (k r)) end.

#[global] Instance gproc_fmap {js : JsonbInventory} : FMap gproc := λ A B f p,
  p ≫= λ a, GRet (f a).

Definition gcall {js : JsonbInventory} (c : GatewayCall.t) : gproc (GatewayCall.answer c) :=
  GDo c GRet.

(** The [?] operator. *)
Definition gtry {js : JsonbInventory} {E A B} (p : gproc (result E A))
    (f : A → gproc (result E B)) : gproc (result E B) :=
  r ← p; match r with Ok a => f a | Err e => mret (Err e) end.
Notation "x ←? m ; k" := (gtry m (λ x, k))
  (at level 20, m at level 100, k at level 200, right associativity).

(** A message constructor reads the clock and draws its identity. *)
Definition gstamp {js : JsonbInventory} {B} (constructor : Instant → Gen (Message B))
  : gproc (Message B) :=
  at_ ← gcall GatewayCall.Stamp; mret (constructor at_.1 at_.2).1.

(** ** Sessions *)

Record AuthenticatedSession : Type := { as_endpoint_id : EndpointId; as_session_id : ProtocolId }.

Module HandshakeOutcome.
Inductive t : Type := Established (s : AuthenticatedSession) | Rejected.
End HandshakeOutcome.

(** The optional services of [AgentControlGateway]. *)
Module GatewayService.
Inductive t : Type :=
| BootstrapEvidence | Inventory | ActionEvidence | TransferTerminalEvidence | Cancellation
| Reconciliation | TransferAuthorization.
#[global] Instance eq_dec : EqDecision t.
Proof. solve_decision. Defined.
End GatewayService.

Module AgentGatewayError.
Inductive t : Type :=
| Receive | Send | ConnectionClosed | NotConfigured (s : GatewayService.t) | Application.
End AgentGatewayError.

Definition GENERIC_AUTH_ERROR_REASON : str := lit "rejected".
Definition GENERIC_PROTOCOL_ERROR_CODE : str := lit "GENERIC".
Definition GENERIC_PROTOCOL_ERROR_MESSAGE : str := lit "protocol violation".
Definition GENERIC_TRANSFER_AUTHORIZATION_DENIED_REASON : str := lit "denied".

Section Gateway.
Context {js : JsonbInventory} {ajson : AgentJson} {ent : Entropy} {b64 : Base64} {disp : UuidDisplay}
  {uparse : UuidParse} {kind : UuidKind}.
(** The services that are configured. *)
Context (configured : GatewayService.t → bool).
#[local] Abbreviation answered := (gproc (result AgentGatewayError.t ())).

(** [self.service.as_ref().ok_or(NotConfigured)?]. *)
Definition required (s : GatewayService.t) : answered :=
  mret (if configured s then Ok () else Err (AgentGatewayError.NotConfigured s)).

Definition write_frame (m : AgentProtocolMessage.t) : answered :=
  sent ← gcall (GatewayCall.SendFrame m);
  mret (if sent : bool then Ok () else Err AgentGatewayError.Send).

Definition send_protocol_error (correlation_id : option ProtocolId) : answered :=
  error ← gstamp (λ now, ProtocolErrorMessage_new now GENERIC_PROTOCOL_ERROR_CODE
                           GENERIC_PROTOCOL_ERROR_MESSAGE);
  write_frame (AgentProtocolMessage.ProtocolError
    match correlation_id with Some id => with_correlation_id error id | None => error end).

(** The answer of a service that may not know the action: silent on success and on
    [UnknownAction]. *)
Definition silent {A} (r : result JobError.t A) (ok : A → answered) : answered :=
  match r with
  | Ok a => ok a
  | Err JobError.UnknownAction => mret (Ok ())
  | Err _ => mret (Err AgentGatewayError.Application)
  end.
Definition ignored {A} (_ : A) : answered := mret (Ok ()).

(** ** Handlers *)

(** Applied evidence that did not end the Attempt makes this the relevant session. *)
Definition rebind (endpoint_id : EndpointId) (session_id action_id : ProtocolId)
    (r : EvidenceResult.t) : answered :=
  match r with
  | EvidenceResult.Applied applied =>
      if negb (ap_terminal applied)
      then (_ ← gcall (GatewayCall.Bind endpoint_id session_id action_id); mret (Ok ()))
      else mret (Ok ())
  | _ => mret (Ok ())
  end.

Definition handle_action_ack (endpoint_id : EndpointId) (session_id : ProtocolId)
    (ack : Message ActionAckBody) : answered :=
  let message_id := env_message_id (envelope ack) in
  let action_id := aa_action_id (body ack) in
  if negb (bool_decide (env_correlation_id (envelope ack) = Some action_id))
  then send_protocol_error (Some message_id)
  else
    _ ←? required GatewayService.ActionEvidence;
    let evidence := match aa_outcome (body ack) with
                    | ActionAckOutcome.Accepted => ActionEvidence.AckAccepted
                    | ActionAckOutcome.Rejected => ActionEvidence.AckRejected
                    end in
    r ← gcall (GatewayCall.ApplyEvidence action_id endpoint_id evidence);
    silent r (rebind endpoint_id session_id action_id).

(** The path of simulated execution. *)
Definition apply_simulated_result (endpoint_id : EndpointId) (message_id : ProtocolId)
    (result : ActionResultBody) : answered :=
  let apply evidence :=
    if negb (m1_result_detail_matches (arb_outcome result) (arb_detail result))
    then send_protocol_error (Some message_id)
    else
      _ ←? required GatewayService.ActionEvidence;
      r ← gcall (GatewayCall.ApplyEvidence (arb_action_id result) endpoint_id evidence);
      silent r ignored in
  match arb_outcome result with
  | ActionResultOutcome.Succeeded => apply ActionEvidence.ResultSucceeded
  | ActionResultOutcome.Failed => apply ActionEvidence.ResultFailed
  | ActionResultOutcome.Cancelled => mret (Ok ())
  end.

Definition handle_action_result (endpoint_id : EndpointId) (m : Message ActionResultBody)
  : answered :=
  let message_id := env_message_id (envelope m) in
  let result := body m in
  let action_id := arb_action_id result in
  if negb (bool_decide (env_correlation_id (envelope m) = Some action_id))
  then send_protocol_error (Some message_id)
  else
    match arb_outcome result with
    | ActionResultOutcome.Cancelled => mret (Ok ())
    | _ =>
        if configured GatewayService.TransferTerminalEvidence then
          classified ← gcall (GatewayCall.Classify action_id endpoint_id);
          match classified with
          | TransferActionClassification.Unknown => mret (Ok ())
          | TransferActionClassification.DataPlaneTransfer =>
              match parse_transfer_result_detail (arb_outcome result) (arb_detail result) with
              | Err _ => send_protocol_error (Some message_id)
              | Ok parsed =>
                  r ← gcall (GatewayCall.TransferApply action_id endpoint_id parsed);
                  silent r (λ outcome, match outcome with
                                       | TransferTerminalOutcome.Consumed => mret (Ok ())
                                       | TransferTerminalOutcome.FailClosed =>
                                           send_protocol_error (Some message_id)
                                       end)
              end
          | TransferActionClassification.SimulatedExecution =>
              apply_simulated_result endpoint_id message_id result
          end
        else apply_simulated_result endpoint_id message_id result
    end.

Definition apply_generic_cancel_ack (action_id : ProtocolId) (endpoint_id : EndpointId)
    (evidence : CancelAckEvidence.t) : answered :=
  _ ←? required GatewayService.Cancellation;
  r ← gcall (GatewayCall.ApplyCancelAck action_id endpoint_id evidence);
  silent r ignored.

Definition handle_cancel_ack (endpoint_id : EndpointId) (ack : Message CancelAckBody) : answered :=
  let action_id := cab_action_id (body ack) in
  if negb (bool_decide (env_correlation_id (envelope ack) = Some action_id))
  then send_protocol_error (Some (env_message_id (envelope ack)))
  else
    let evidence := match cab_outcome (body ack) with
                    | CancelAckWireOutcome.Cancelled => CancelAckEvidence.Cancelled
                    | CancelAckWireOutcome.AlreadyCompleted => CancelAckEvidence.AlreadyCompleted
                    | CancelAckWireOutcome.CannotCancel => CancelAckEvidence.CannotCancel
                    | CancelAckWireOutcome.Unknown => CancelAckEvidence.Unknown
                    end in
    let generic := apply_generic_cancel_ack action_id endpoint_id evidence in
    if configured GatewayService.TransferTerminalEvidence then
      classified ← gcall (GatewayCall.Classify action_id endpoint_id);
      match classified with
      | TransferActionClassification.Unknown => mret (Ok ())
      | TransferActionClassification.DataPlaneTransfer =>
          r ← gcall (GatewayCall.TransferCancelAck action_id endpoint_id evidence);
          silent r (λ outcome, match outcome with
                               | TransferRoutedOutcome.Consumed => mret (Ok ())
                               | TransferRoutedOutcome.NotTransferAction => generic
                               end)
      | TransferActionClassification.SimulatedExecution => generic
      end
    else generic.

Definition apply_generic_status_report (action_id : ProtocolId) (endpoint_id : EndpointId)
    (evidence : StatusReportEvidence.t) : answered :=
  _ ←? required GatewayService.Reconciliation;
  r ← gcall (GatewayCall.ApplyStatusReport action_id endpoint_id evidence);
  silent r ignored.

(** The reconciliation path, which may rebind. *)
Definition reconcile_status_report (endpoint_id : EndpointId) (session_id : ProtocolId)
    (report : StatusReportBody) : answered :=
  _ ←? required GatewayService.Reconciliation;
  let evidence := match srb_known_state report with
                  | KnownActionState.Accepted => StatusReportEvidence.Accepted
                  | KnownActionState.Running => StatusReportEvidence.Running
                  | KnownActionState.Succeeded => StatusReportEvidence.Succeeded
                  | KnownActionState.Failed => StatusReportEvidence.Failed
                  | KnownActionState.Cancelled => StatusReportEvidence.Cancelled
                  | KnownActionState.Unknown => StatusReportEvidence.Unknown
                  end in
  r ← gcall (GatewayCall.ApplyStatusReport (srb_action_id report) endpoint_id evidence);
  silent r (rebind endpoint_id session_id (srb_action_id report)).

Definition handle_status_report (endpoint_id : EndpointId) (session_id : ProtocolId)
    (m : Message StatusReportBody) : answered :=
  let report := body m in
  let action_id := srb_action_id report in
  if negb (bool_decide (env_correlation_id (envelope m) = Some action_id))
  then send_protocol_error (Some (env_message_id (envelope m)))
  else
    let reconcile := reconcile_status_report endpoint_id session_id report in
    let routed evidence call :=
      if configured GatewayService.TransferTerminalEvidence then
        classified ← gcall (GatewayCall.Classify action_id endpoint_id);
        match classified with
        | TransferActionClassification.Unknown => mret (Ok ())
        | TransferActionClassification.DataPlaneTransfer =>
            r ← call;
            silent r (λ outcome, match outcome with
                                 | TransferRoutedOutcome.Consumed => mret (Ok ())
                                 | TransferRoutedOutcome.NotTransferAction =>
                                     apply_generic_status_report action_id endpoint_id evidence
                                 end)
        | TransferActionClassification.SimulatedExecution => reconcile
        end
      else reconcile in
    match srb_known_state report with
    | KnownActionState.Cancelled =>
        routed StatusReportEvidence.Cancelled
          (gcall (GatewayCall.TransferStatusCancelled action_id endpoint_id))
    | KnownActionState.Failed =>
        routed StatusReportEvidence.Failed
          (gcall (GatewayCall.TransferStatusFailed action_id endpoint_id))
    | _ => reconcile
    end.

Definition send_transfer_authorization_denied (transfer_id correlation_id : ProtocolId) : answered :=
  denied ← gstamp (λ now, TransferAuthorizationDeniedMessage_new now correlation_id transfer_id
                            GENERIC_TRANSFER_AUTHORIZATION_DENIED_REASON);
  write_frame (AgentProtocolMessage.TransferAuthorizationDenied denied).

Definition handle_transfer_authorization_request (endpoint_id : EndpointId)
    (request : Message TransferAuthorizationRequestBody) : answered :=
  _ ←? required GatewayService.TransferAuthorization;
  let transfer_id := tar_transfer_id (body request) in
  match env_correlation_id (envelope request) with
  | None => send_protocol_error (Some (env_message_id (envelope request)))
  | Some correlation_id =>
      r ← gcall (GatewayCall.Issue endpoint_id correlation_id transfer_id
                   (tar_proof_public_key (body request)));
      match r with
      | Err _ => mret (Err AgentGatewayError.Application)
      | Ok (TransferAuthorizationOutcome.Granted token expires_at data_plane_base_url) =>
          grant ← gstamp (λ now, TransferAuthorizationGrantMessage_new now correlation_id
                                   transfer_id token expires_at data_plane_base_url);
          write_frame (AgentProtocolMessage.TransferAuthorizationGrant grant)
      | Ok TransferAuthorizationOutcome.Denied =>
          send_transfer_authorization_denied transfer_id correlation_id
      | Ok TransferAuthorizationOutcome.ProtocolViolation =>
          send_protocol_error (Some (env_message_id (envelope request)))
      end
  end.

Definition handle_action_progress (endpoint_id : EndpointId) (message_id : ProtocolId)
    (progress : Message ActionProgressBody) : answered :=
  let action_id := apb_action_id (body progress) in
  if negb (bool_decide (env_correlation_id (envelope progress) = Some action_id))
  then send_protocol_error (Some message_id)
  else
    _ ←? required GatewayService.ActionEvidence;
    belongs ← gcall (GatewayCall.ActionBelongs action_id endpoint_id);
    if negb belongs then send_protocol_error (Some message_id) else mret (Ok ()).

(** ** The message loop *)

(** One decoded message of the current version. *)
Definition handle_message (fingerprint : ServerCertFingerprint) (session : AuthenticatedSession)
    (m : AgentProtocolMessage.t) : answered :=
  let endpoint_id := as_endpoint_id session in
  let id := env_message_id (AgentProtocolMessage.get_envelope m) in
  match m with
  | AgentProtocolMessage.BootstrapEvidence evidence =>
      r ← gcall (GatewayCall.VerifyAndEstablish endpoint_id (body evidence) fingerprint);
      mret match r with Ok _ => Ok () | Err _ => Err AgentGatewayError.Application end
  | AgentProtocolMessage.InventoryReport report =>
      _ ←? required GatewayService.Inventory;
      r ← gcall (GatewayCall.RecordInventory endpoint_id (body report));
      mret match r with Ok _ => Ok () | Err _ => Err AgentGatewayError.Application end
  | AgentProtocolMessage.ActionAck ack =>
      handle_action_ack endpoint_id (as_session_id session) ack
  | AgentProtocolMessage.ActionResult result => handle_action_result endpoint_id result
  | AgentProtocolMessage.ActionProgress progress => handle_action_progress endpoint_id id progress
  | AgentProtocolMessage.CancelAck ack => handle_cancel_ack endpoint_id ack
  | AgentProtocolMessage.StatusReport report =>
      handle_status_report endpoint_id (as_session_id session) report
  | AgentProtocolMessage.TransferAuthorizationRequest request =>
      handle_transfer_authorization_request endpoint_id request
  | AgentProtocolMessage.ProtocolError _ => mret (Ok ())
  | AgentProtocolMessage.AuthRequest _ | AgentProtocolMessage.SessionEstablished _
  | AgentProtocolMessage.AuthError _ | AgentProtocolMessage.TransferAuthorizationGrant _
  | AgentProtocolMessage.TransferAuthorizationDenied _ | AgentProtocolMessage.ActionDispatch _
  | AgentProtocolMessage.CancelAction _ | AgentProtocolMessage.StatusQuery _ =>
      send_protocol_error (Some id)
  end.

(** The loop goes on, or ends with a result. *)
#[local] Abbreviation flow := (option (result AgentGatewayError.t ())).
Definition continue_unless (r : result AgentGatewayError.t ()) : flow :=
  match r with Ok _ => None | Err e => Some (Err e) end.
Definition go_on (p : answered) : gproc flow := r ← p; mret (continue_unless r).

Definition handle_frame (fingerprint : ServerCertFingerprint) (session : AuthenticatedSession)
    (f : Incoming) : gproc flow :=
  match f with
  | None => mret (Some (Ok ()))
  | Some (Err _) => mret (Some (Err AgentGatewayError.Receive))
  | Some (Ok Frame.Close) => mret (Some (Ok ()))
  | Some (Ok Frame.Control) => mret None
  | Some (Ok Frame.Binary) => go_on (send_protocol_error None)
  | Some (Ok (Frame.Text text)) =>
      match agent_decode text with
      | None => go_on (send_protocol_error None)
      | Some m =>
          let e := AgentProtocolMessage.get_envelope m in
          if negb (ProtocolVersion_is_v1 (env_protocol_version e))
          then go_on (send_protocol_error (Some (env_message_id e)))
          else go_on (handle_message fingerprint session m)
      end
  end.

(** One turn of [run_message_loop]. A failed write of a command is reported to its sender
    and does not end the loop. *)
Definition turn (fingerprint : ServerCertFingerprint) (session : AuthenticatedSession)
    (channel : nat) : gproc flow :=
  selected ← gcall (GatewayCall.Select channel);
  match selected with
  | Selected.Incoming f => handle_frame fingerprint session f
  | Selected.Command m ack =>
      sent ← gcall (GatewayCall.SendFrame m);
      _ ← gcall (GatewayCall.Acknowledge ack sent);
      mret None
  end.

(** ** The handshake *)

#[local] Abbreviation shaken := (result AgentGatewayError.t HandshakeOutcome.t).

Definition reject (correlation_id : option ProtocolId) : gproc shaken :=
  error ← gstamp (λ now, AuthErrorMessage_new now GENERIC_AUTH_ERROR_REASON);
  _ ←? write_frame (AgentProtocolMessage.AuthError
         match correlation_id with Some id => with_correlation_id error id | None => error end);
  mret (Ok HandshakeOutcome.Rejected).

Definition handle_auth_request (m : Message AuthRequestBody) : gproc shaken :=
  let message_id := env_message_id (envelope m) in
  if negb (ProtocolVersion_is_v1 (env_protocol_version (envelope m)))
  then reject (Some message_id)
  else
    r ← gcall (GatewayCall.Redeem (ar_credential (body m)));
    match r with
    | Err _ => mret (Err AgentGatewayError.Application)
    | Ok RedeemResult.Rejected => reject (Some message_id)
    | Ok (RedeemResult.Established endpoint_id runtime_credential expires_at) =>
        session_id ← gcall GatewayCall.GenerateId;
        response ← gstamp (λ now, SessionEstablishedMessage_new now session_id
                             (to_wire_value runtime_credential) expires_at);
        _ ←? write_frame (AgentProtocolMessage.SessionEstablished
                            (with_correlation_id response message_id));
        mret (Ok (HandshakeOutcome.Established
                    {| as_endpoint_id := endpoint_id; as_session_id := session_id |}))
    end.

Definition handle_text (text : str) : gproc shaken :=
  match agent_decode text with
  | None => reject None
  | Some (AgentProtocolMessage.AuthRequest m) => handle_auth_request m
  | Some m => reject (Some (env_message_id (AgentProtocolMessage.get_envelope m)))
  end.

(** One turn of the loop of [handshake]: [None] goes around. *)
Definition handshake : gproc (option shaken) :=
  frame ← gcall GatewayCall.NextFrame;
  match frame with
  | None | Some (Ok Frame.Close) => mret (Some (Err AgentGatewayError.ConnectionClosed))
  | Some (Err _) => mret (Some (Err AgentGatewayError.Receive))
  | Some (Ok (Frame.Text text)) => Some <$> handle_text text
  | Some (Ok Frame.Binary) => Some <$> reject None
  | Some (Ok Frame.Control) => mret None
  end.

(** ** Outbound traffic *)

(** [OutboundSessionDirectory::send]. *)
Definition send (endpoint_id : EndpointId) (m : AgentProtocolMessage.t)
  : gproc (result AgentDispatchError.t ()) :=
  sender ← gcall (GatewayCall.Resolve endpoint_id m);
  match sender with
  | Err e => mret (Err e)
  | Ok channel =>
      queued ← gcall (GatewayCall.Enqueue channel m);
      match queued with
      | None => mret (Err AgentDispatchError.ChannelClosed)
      | Some ack =>
          r ← gcall (GatewayCall.AwaitAck ack);
          mret match r with
               | AckResult.Sent true => Ok ()
               | AckResult.Sent false => Err AgentDispatchError.SendFailed
               | AckResult.Dropped => Err AgentDispatchError.ChannelClosed
               end
      end
  end.

(** [ReconciliationService::reconcile_on_session_start]. *)
Definition reconcile_on_session_start (endpoint_id : EndpointId)
  : gproc (result Backend.t StatusQuerySendOutcome.t) :=
  candidate ← gcall (GatewayCall.FindCandidate endpoint_id);
  match candidate with
  | Err e => mret (Err e)
  | Ok None => mret (Ok StatusQuerySendOutcome.NoneNeeded)
  | Ok (Some action_id) =>
      query ← gstamp (λ now, StatusQueryMessage_new now action_id);
      sent ← send endpoint_id (AgentProtocolMessage.StatusQuery query);
      mret (Ok match sent with
               | Ok _ => StatusQuerySendOutcome.Sent
               | Err _ => StatusQuerySendOutcome.SendFailed
               end)
  end.

(** [ActionDispatchService::dispatch_message], of [dispatch] and [dispatch_transfer]. *)
Definition dispatch_message (endpoint_id : EndpointId) (attempt : Attempt)
    (reservation : Arbiter.ReservationId) (action_type action_version : str)
    (parameters : JsonMap) : gproc ActionDispatchOutcome.t :=
  m ← gstamp (λ now, ActionDispatchMessage_new now (at_action_id attempt) action_type
                       action_version parameters);
  if negb (bool_decide (at_state attempt = AttemptState.Dispatched))
  then mret ActionDispatchOutcome.NotDispatchable
  else
    registered ← gcall (GatewayCall.RegisterReservation (at_id attempt) reservation);
    match registered with
    | Registry.RegistrationOutcome.AlreadyRegistered => mret ActionDispatchOutcome.AlreadyDispatched
    | Registry.RegistrationOutcome.Registered =>
        sent ← send endpoint_id (AgentProtocolMessage.ActionDispatch m);
        mret match sent with
             | Ok _ => ActionDispatchOutcome.Sent
             | Err _ => ActionDispatchOutcome.SendFailed
             end
    end.

Definition dispatch (endpoint_id : EndpointId) (attempt : Attempt)
    (reservation : Arbiter.ReservationId) : gproc ActionDispatchOutcome.t :=
  dispatch_message endpoint_id attempt reservation M1_SIMULATED_EXECUTION_ACTION_TYPE
    M1_SIMULATED_EXECUTION_ACTION_VERSION [].
Definition dispatch_transfer (endpoint_id : EndpointId) (attempt : Attempt)
    (reservation : Arbiter.ReservationId) (transfer : Transfer) : gproc ActionDispatchOutcome.t :=
  dispatch_message endpoint_id attempt reservation M1_DATA_PLANE_TRANSFER_ACTION_TYPE
    M1_DATA_PLANE_TRANSFER_ACTION_VERSION (transfer_action_parameters transfer).

(** The transmission of [CancellationService::request]. *)
Definition transmit_cancel (endpoint_id : EndpointId) (action_id : ActionId)
  : gproc (result AgentDispatchError.t ()) :=
  m ← gstamp (λ now, CancelActionMessage_new now action_id);
  send endpoint_id (AgentProtocolMessage.CancelAction m).

(** ** The life of a session ([run_authenticated_session]) *)

(** Registration, outbound delivery first; gives the channel. *)
Definition start_session (session : AuthenticatedSession) : gproc nat :=
  let endpoint_id := as_endpoint_id session in
  channel ← gcall GatewayCall.OpenChannel;
  _ ← gcall (GatewayCall.RegisterOutbound endpoint_id (as_session_id session) channel);
  _ ← gcall (GatewayCall.RegisterPresence endpoint_id (as_session_id session));
  if configured GatewayService.Reconciliation
  then (_ ← gcall (GatewayCall.SpawnReconcile endpoint_id); mret channel)
  else mret channel.

(** [SessionLifecycleGuard::drop], then the end of the receiving half: on every exit, panics
    and aborts included. *)
Definition drop_session (session : AuthenticatedSession) (channel : nat) : gproc () :=
  let endpoint_id := as_endpoint_id session in
  _ ← gcall (GatewayCall.UnregisterPresence endpoint_id (as_session_id session));
  _ ← gcall (GatewayCall.UnregisterOutbound endpoint_id (as_session_id session));
  gcall (GatewayCall.CloseChannel channel).

(** After the loop: what this session carried, presence, outbound delivery, and the
    reconciliation of its action; then the guard. *)
Definition end_session (session : AuthenticatedSession) (channel : nat) : gproc () :=
  let endpoint_id := as_endpoint_id session in
  dispatched_action ←
    gcall (GatewayCall.RelevantAction endpoint_id (as_session_id session));
  _ ← gcall (GatewayCall.UnregisterPresence endpoint_id (as_session_id session));
  _ ← gcall (GatewayCall.UnregisterOutbound endpoint_id (as_session_id session));
  match dispatched_action with
  | Some action_id =>
      if configured GatewayService.Reconciliation
      then (_ ← gcall (GatewayCall.MarkUncertain endpoint_id action_id);
            _ ← reconcile_on_session_start endpoint_id;
            drop_session session channel)
      else drop_session session channel
  | None => drop_session session channel
  end.
End Gateway.
