(* ===== verification/AgentSystem.v ===== *)
(** * Sessions of Agents, interleaved

    The server's side of all Agent connections: the shared database, registries and outbound
    directory, the channels of sessions, and the tasks of [AgentGateway] (handshakes,
    sessions, senders) in any interleaving, with the other operations of the server between
    their calls. Follows [run_authenticated_session] of [adapters/agent_gateway.rs] in how a
    session moves from its handshake to its end. *)

From stdpp Require Import prelude gmap strings.
From Stdlib Require Import Strings.Byte NArith ZArith.
From S2P Require Import Prelude.
From S2P Require Import External.
From S2P Require Import Credential.
From S2P Require Import Endpoint.
From S2P Require Import EnrollmentStore.
From S2P Require Import Job.
From S2P Require Import Transfer.
From S2P Require Import Runtime.
From S2P Require Import JobStore.
From S2P Require Import JobServices.
From S2P Require Import TransferAuth.
From S2P Require Import TransferStore.
From S2P Require Import TransferEvidence.
From S2P Require Import TrustedBootstrap.
From S2P Require Import Inventory.
From S2P Require Import AgentProtocol.
From S2P Require Import OutboundSessions.
From S2P Require Import AgentGateway.

(** ** State *)

(** A bounded channel: what is queued, and whether its receiver is alive. *)
Record Channel {js : JsonbInventory} : Type := {
  ch_queue : list (AgentProtocolMessage.t * nat);
  ch_open : bool;
}.

(** The completion of one command: the channel it went into and the answer, if there is one. *)
Record Ack : Type := { ak_channel : nat; ak_result : option AckResult.t }.

Module Phase.
Inductive t {js : JsonbInventory} : Type :=
| Handshaking (fingerprint : ServerCertFingerprint)
    (p : gproc (option (result AgentGatewayError.t HandshakeOutcome.t)))
| Starting (fingerprint : ServerCertFingerprint) (session : AuthenticatedSession) (p : gproc nat)
| Looping (fingerprint : ServerCertFingerprint) (session : AuthenticatedSession) (channel : nat)
    (p : gproc (option (result AgentGatewayError.t ())))
| Ending (session : AuthenticatedSession) (channel : nat) (p : gproc ())
| Sending (p : gproc ()).
End Phase.

(** The tables of enrollment and inventory and those of Jobs and Transfers are parts of one
    database; [gw_transfer] has its own copy of the Endpoints, kept equal by [sync]. *)
Record GatewayWorld {js : JsonbInventory} {ed : Ed25519} : Type := {
  gw_enrollment : InventoryDb;
  gw_transfer : TransferWorld;
  gw_directory : OutboundSessionDirectory;
  gw_channels : gmap nat Channel;
  gw_acks : gmap nat Ack;
  gw_tasks : gmap nat Phase.t;
  gw_next : nat;
}.

(** What the environment contributes to a call: the clock, the socket, the choice of the
    [select!]. *)
Record Env : Type := {
  en_now : Instant;
  en_frame : option (result unit Frame.t);
  en_command : bool;
  en_sent : bool;
}.

Module Step.
Inductive t {js : JsonbInventory} : Type :=
| Accept (fingerprint : ServerCertFingerprint)
| Run (c : nat) (e : Env)
| Abort (c : nat)
| Dispatch (endpoint_id : EndpointId) (attempt : Attempt) (reservation : Arbiter.ReservationId)
    (transfer : option Transfer)
| TransmitCancel (endpoint_id : EndpointId) (action_id : ActionId)
| Enrollment (o : EnrollOp.t)
| Server (o : TransferOp.t).
End Step.

Module Event.
Inductive t {js : JsonbInventory} : Type :=
| Called (c : nat) (call : GatewayCall.t) (answer : GatewayCall.answer call)
| Aborted (c : nat)
| Ended (c : nat)
| Restarted.
End Event.

Section System.
Context {js : JsonbInventory} {ajson : AgentJson} {b64 : Base64} {sha : Sha256} {ed : Ed25519}
  {ent : Entropy} {chrono : ChronoRange} {disp : UuidDisplay} {uparse : UuidParse}
  {kind : UuidKind} {pg : PgTimestamp}.
(** The configuration: services, lifetime of runtime credentials, accepted Site keys,
    lifetime of capabilities and the data-plane origin. *)
Context (configured : GatewayService.t → bool) (runtime_ttl : Duration)
  (accepted_site_keys : AcceptedSiteKeys) (capability_ttl : Duration) (base_url : str).
Implicit Types (w : GatewayWorld) (d : OutboundSessionDirectory).

Definition gw_with_enrollment w db : GatewayWorld :=
  {| gw_enrollment := db; gw_transfer := gw_transfer w; gw_directory := gw_directory w;
     gw_channels := gw_channels w; gw_acks := gw_acks w; gw_tasks := gw_tasks w;
     gw_next := gw_next w |}.
Definition gw_with_transfer w tw : GatewayWorld :=
  {| gw_enrollment := gw_enrollment w; gw_transfer := tw; gw_directory := gw_directory w;
     gw_channels := gw_channels w; gw_acks := gw_acks w; gw_tasks := gw_tasks w;
     gw_next := gw_next w |}.
Definition gw_with_directory w d : GatewayWorld :=
  {| gw_enrollment := gw_enrollment w; gw_transfer := gw_transfer w; gw_directory := d;
     gw_channels := gw_channels w; gw_acks := gw_acks w; gw_tasks := gw_tasks w;
     gw_next := gw_next w |}.
Definition gw_with_channels w channels acks (next : nat) : GatewayWorld :=
  {| gw_enrollment := gw_enrollment w; gw_transfer := gw_transfer w;
     gw_directory := gw_directory w; gw_channels := channels; gw_acks := acks;
     gw_tasks := gw_tasks w; gw_next := next |}.
Definition gw_with_tasks w tasks (next : nat) : GatewayWorld :=
  {| gw_enrollment := gw_enrollment w; gw_transfer := gw_transfer w;
     gw_directory := gw_directory w; gw_channels := gw_channels w; gw_acks := gw_acks w;
     gw_tasks := tasks; gw_next := next |}.

(** A new task. *)
Definition spawn w (p : Phase.t) : GatewayWorld :=
  gw_with_tasks w (<[gw_next w := p]> (gw_tasks w)) (S (gw_next w)).

(** The Endpoints and current inventory revisions as the Job services read them. *)
Definition endpoints_of (db : InventoryDb) : gmap EndpointId EndpointAggregate :=
  map_imap (λ id _, match load_by_id_for_update (iv_enroll db) id with
                    | Ok (Some aggregate) => Some aggregate
                    | _ => None
                    end) (db_endpoints (iv_enroll db)).
Definition sync w (db : InventoryDb) : Gen GatewayWorld :=
  tw ← run_transfer_op (gw_transfer w)
         (TransferOp.Job (JobOp.Environment (endpoints_of db) (iv_current db) ∅));
  mret (gw_with_transfer (gw_with_enrollment w db) tw).
Definition with_enroll (db : InventoryDb) (e : EnrollDb) : InventoryDb :=
  {| iv_enroll := e; iv_current := iv_current db; iv_revisions := iv_revisions db |}.

Definition with_presence (tw : TransferWorld) (p : Presence.PresenceRegistry) : TransferWorld :=
  let world := tw_world tw in
  tw_with_world tw {| w_db := w_db world; w_arbiter := w_arbiter world;
                      w_registry := w_registry world; w_presence := p |}.

(** ** Channels *)

Definition drop_acks (channel : nat) (acks : gmap nat Ack) : gmap nat Ack :=
  (λ a, if bool_decide (ak_channel a = channel ∧ ak_result a = None)
        then {| ak_channel := channel; ak_result := Some AckResult.Dropped |} else a) <$> acks.

(** [mpsc::Sender::send]: waits while the channel is full, fails when it is closed. *)
Definition enqueue w (channel : nat) (m : AgentProtocolMessage.t)
  : option (GatewayWorld * option nat) :=
  match gw_channels w !! channel with
  | Some {| ch_queue := queue; ch_open := true |} =>
      if (OUTBOUND_CHANNEL_CAPACITY <=? length queue)%nat then None
      else
        let ack := gw_next w in
        Some (gw_with_channels w
                (<[channel := {| ch_queue := queue ++ [(m, ack)]; ch_open := true |}]>
                   (gw_channels w))
                (<[ack := {| ak_channel := channel; ak_result := None |}]> (gw_acks w)) (S ack),
              Some ack)
  | _ => Some (w, None)
  end.

(** The [select!] of a loop: a frame, or the first queued command. *)
Definition select w (e : Env) (channel : nat) : GatewayWorld * Selected.t :=
  match en_command e, gw_channels w !! channel with
  | true, Some {| ch_queue := (m, ack) :: rest; ch_open := is_open |} =>
      (gw_with_channels w
         (<[channel := {| ch_queue := rest; ch_open := is_open |}]> (gw_channels w))
         (gw_acks w) (gw_next w), Selected.Command m ack)
  | _, _ => (w, Selected.Incoming (en_frame e))
  end.

Definition resolve_ack w (ack : nat) (r : AckResult.t) : GatewayWorld :=
  gw_with_channels w (gw_channels w)
    (alter (λ a, {| ak_channel := ak_channel a; ak_result := Some r |}) ack (gw_acks w)) (gw_next w).

(** ** Calls *)

(** [None] while the call waits. *)
Definition exec w (e : Env) (c : GatewayCall.t)
  : option (Gen (GatewayWorld * GatewayCall.answer c)) :=
  let tw := gw_transfer w in
  let now := en_now e in
  let d := gw_directory w in
  let db := gw_enrollment w in
  let job {A} (r : Gen (World * A)) : Gen (GatewayWorld * A) :=
    r ← r; mret (gw_with_transfer w (tw_with_world tw r.1), r.2) in
  let transfer {A} (r : Gen (TransferWorld * A)) : Gen (GatewayWorld * A) :=
    r ← r; mret (gw_with_transfer w r.1, r.2) in
  match c with
  | GatewayCall.Stamp => Some (λ k, ((w, (now, k)), S k))
  | GatewayCall.GenerateId => Some (id ← new_v4; mret (w, id))
  | GatewayCall.NextFrame => Some (mret (w, en_frame e))
  | GatewayCall.Select channel => Some (mret (select w e channel))
  | GatewayCall.SendFrame _ => Some (mret (w, en_sent e))
  | GatewayCall.Acknowledge ack ok => Some (mret (resolve_ack w ack (AckResult.Sent ok), ()))
  | GatewayCall.Redeem credential =>
      Some (r ← redeem (iv_enroll db) credential now runtime_ttl;
            w' ← sync w (with_enroll db r.1); mret (w', r.2))
  | GatewayCall.VerifyAndEstablish id evidence fingerprint =>
      let r := service_verify_and_establish (iv_enroll db) accepted_site_keys id evidence
                 fingerprint in
      Some (w' ← sync w (with_enroll db r.1); mret (w', r.2))
  | GatewayCall.RecordInventory id inventory =>
      Some (r ← record_inventory db id inventory now; w' ← sync w r.1; mret (w', r.2))
  | GatewayCall.ApplyEvidence a id ev => Some (job (service_apply_evidence (tw_world tw) a id ev now))
  | GatewayCall.Classify a id => Some (mret (w, service_classify tw a id))
  | GatewayCall.TransferApply a id detail =>
      Some (transfer (service_transfer_apply tw a id detail now))
  | GatewayCall.TransferCancelAck a id ev =>
      Some (transfer (service_transfer_cancel_ack tw a id ev now))
  | GatewayCall.TransferStatusCancelled a id =>
      Some (transfer (service_transfer_status_report_cancelled tw a id now))
  | GatewayCall.TransferStatusFailed a id =>
      Some (transfer (service_transfer_status_report_failed tw a id now))
  | GatewayCall.ApplyCancelAck a id ev =>
      Some (job (service_apply_cancel_ack (tw_world tw) a id ev now))
  | GatewayCall.ApplyStatusReport a id ev =>
      Some (job (service_apply_status_report (tw_world tw) a id ev now))
  | GatewayCall.ActionBelongs a id =>
      Some (mret (w, repo_action_targets_endpoint (w_db (tw_world tw)) a id))
  | GatewayCall.Issue id a t key =>
      Some (r ← service_issue (tw_auth tw) (load_authorization_state (tw_db tw) t)
                  capability_ttl base_url now id a t key;
            mret (gw_with_transfer w (tw_with_auth tw r.1), r.2))
  | GatewayCall.OpenChannel =>
      Some (mret (gw_with_channels w
                    (<[gw_next w := {| ch_queue := []; ch_open := true |}]> (gw_channels w))
                    (gw_acks w) (S (gw_next w)), gw_next w))
  | GatewayCall.CloseChannel channel =>
      Some (mret (gw_with_channels w
                    (<[channel := {| ch_queue := []; ch_open := false |}]> (gw_channels w))
                    (drop_acks channel (gw_acks w)) (gw_next w), ()))
  | GatewayCall.RegisterOutbound id s channel =>
      Some (mret (gw_with_directory w (register d id s channel), ()))
  | GatewayCall.UnregisterOutbound id s =>
      Some (mret (gw_with_directory w (unregister d id s), ()))
  | GatewayCall.RegisterPresence id s =>
      Some (mret (gw_with_transfer w
                    (with_presence tw (Presence.register (w_presence (tw_world tw)) id s)), ()))
  | GatewayCall.UnregisterPresence id s =>
      Some (mret (gw_with_transfer w
                    (with_presence tw (Presence.unregister (w_presence (tw_world tw)) id s)), ()))
  | GatewayCall.RelevantAction id s => Some (mret (w, dispatch_relevant_action d id s))
  | GatewayCall.Bind id s a =>
      let '(d', r) := bind_dispatch_relevant_session d id s a in
      Some (mret (gw_with_directory w d', r))
  | GatewayCall.MarkUncertain id a =>
      let '(world, r) := service_mark_endpoint_uncertain (tw_world tw) id a in
      Some (mret (gw_with_transfer w (tw_with_world tw world), r))
  | GatewayCall.FindCandidate id =>
      Some (mret (w, repo_find_reconciliation_candidate (w_db (tw_world tw)) id))
  | GatewayCall.SpawnReconcile id =>
      Some (mret (spawn w (Phase.Sending (_ ← reconcile_on_session_start id; mret ())), ()))
  | GatewayCall.RegisterReservation id reservation =>
      let '(registry, r) := Registry.register (w_registry (tw_world tw)) id reservation in
      Some (mret (gw_with_transfer w (tw_with_world tw (with_registry (tw_world tw) registry)), r))
  | GatewayCall.Resolve id m =>
      let '(d', r) := resolve d id m in Some (mret (gw_with_directory w d', r))
  | GatewayCall.Enqueue channel m => mret <$> enqueue w channel m
  | GatewayCall.AwaitAck ack =>
      match gw_acks w !! ack with
      | Some {| ak_result := Some r |} => Some (mret (w, r))
      | _ => None
      end
  end.

(** ** Tasks *)

(** The call a task makes next, and the task after its answer. *)
Definition next_call (p : Phase.t)
  : option {c : GatewayCall.t & GatewayCall.answer c → Phase.t} :=
  match p with
  | Phase.Handshaking fp (GDo c k) => Some (existT c (λ a, Phase.Handshaking fp (k a)))
  | Phase.Starting fp s (GDo c k) => Some (existT c (λ a, Phase.Starting fp s (k a)))
  | Phase.Looping fp s ch (GDo c k) => Some (existT c (λ a, Phase.Looping fp s ch (k a)))
  | Phase.Ending s ch (GDo c k) => Some (existT c (λ a, Phase.Ending s ch (k a)))
  | Phase.Sending (GDo c k) => Some (existT c (λ a, Phase.Sending (k a)))
  | _ => None
  end.

(** A task whose program is done goes on to its next part, or ends. *)
Definition settle_task (p : Phase.t) : option Phase.t :=
  match p with
  | Phase.Handshaking fp (GRet None) => Some (Phase.Handshaking fp handshake)
  | Phase.Handshaking fp (GRet (Some (Ok (HandshakeOutcome.Established s)))) =>
      if configured GatewayService.BootstrapEvidence
      then Some (Phase.Starting fp s (start_session configured s)) else None
  | Phase.Handshaking _ (GRet _) => None
  | Phase.Starting fp s (GRet ch) => Some (Phase.Looping fp s ch (turn configured fp s ch))
  | Phase.Looping fp s ch (GRet None) => Some (Phase.Looping fp s ch (turn configured fp s ch))
  | Phase.Looping _ s ch (GRet (Some _)) => Some (Phase.Ending s ch (end_session configured s ch))
  | Phase.Ending _ _ (GRet _) | Phase.Sending (GRet _) => None
  | p => Some p
  end.

Definition put_task w (c : nat) (p : Phase.t) : GatewayWorld * list Event.t :=
  match settle_task p with
  | Some p => (gw_with_tasks w (<[c := p]> (gw_tasks w)) (gw_next w), [])
  | None => (gw_with_tasks w (delete c (gw_tasks w)) (gw_next w), [Event.Ended c])
  end.

Definition run_task w (c : nat) (e : Env) (p : Phase.t) : Gen (GatewayWorld * list Event.t) :=
  match next_call p with
  | None => mret (put_task w c p)
  | Some (existT call k) =>
      match exec w e call with
      | None => mret (w, [])
      | Some run =>
          r ← run;
          let '(w', ended) := put_task r.1 c (k r.2) in
          mret (w', Event.Called c call r.2 :: ended)
      end
  end.

(** Calls at which a task can be dropped: those that are awaited. *)
Definition awaits (c : GatewayCall.t) : bool :=
  match c with
  | GatewayCall.NextFrame | GatewayCall.Select _ | GatewayCall.SendFrame _ | GatewayCall.Redeem _
  | GatewayCall.VerifyAndEstablish _ _ _ | GatewayCall.RecordInventory _ _
  | GatewayCall.ApplyEvidence _ _ _ | GatewayCall.Classify _ _ | GatewayCall.TransferApply _ _ _
  | GatewayCall.TransferCancelAck _ _ _ | GatewayCall.TransferStatusCancelled _ _
  | GatewayCall.TransferStatusFailed _ _ | GatewayCall.ApplyCancelAck _ _ _
  | GatewayCall.ApplyStatusReport _ _ _ | GatewayCall.ActionBelongs _ _
  | GatewayCall.Issue _ _ _ _ | GatewayCall.MarkUncertain _ _ | GatewayCall.FindCandidate _
  | GatewayCall.Enqueue _ _ | GatewayCall.AwaitAck _ => true
  | _ => false
  end.

Definition abort w (c : nat) (p : Phase.t) : GatewayWorld * list Event.t :=
  match next_call p with
  | Some (existT call _) =>
      if awaits call then
        match p with
        | Phase.Looping _ s ch _ | Phase.Ending s ch _ =>
            (gw_with_tasks w (<[c := Phase.Ending s ch (drop_session s ch)]> (gw_tasks w))
               (gw_next w), [Event.Aborted c])
        | Phase.Handshaking _ _ | Phase.Sending _ =>
            (gw_with_tasks w (delete c (gw_tasks w)) (gw_next w), [Event.Aborted c; Event.Ended c])
        | Phase.Starting _ _ _ => (w, [])
        end
      else (w, [])
  | None => (w, [])
  end.

(** The operations of the server that the tasks of this file do not perform. *)
Definition other_op (o : TransferOp.t) : bool :=
  match o with
  | TransferOp.Job (JobOp.Dispatch _ _ _) | TransferOp.Job (JobOp.SessionRegistered _ _)
  | TransferOp.Job (JobOp.SessionClosed _ _) | TransferOp.Job (JobOp.Environment _ _ _) => false
  | _ => true
  end.

(** A restart of the process loses every task, the directory and the channels. *)
Definition restarted_gateway w (o : TransferOp.t) : GatewayWorld * list Event.t :=
  match o with
  | TransferOp.Job (JobOp.Restart _) =>
      ({| gw_enrollment := gw_enrollment w; gw_transfer := gw_transfer w;
          gw_directory := OutboundSessionDirectory_new; gw_channels := ∅; gw_acks := ∅;
          gw_tasks := ∅; gw_next := gw_next w |}, [Event.Restarted])
  | _ => (w, [])
  end.

Definition gateway_step w (st : Step.t) : Gen (GatewayWorld * list Event.t) :=
  match st with
  | Step.Accept fp => mret (spawn w (Phase.Handshaking fp handshake), [])
  | Step.Run c e =>
      match gw_tasks w !! c with Some p => run_task w c e p | None => mret (w, []) end
  | Step.Abort c =>
      mret match gw_tasks w !! c with Some p => abort w c p | None => (w, []) end
  | Step.Dispatch id attempt reservation transfer =>
      let p := match transfer with
               | None => dispatch id attempt reservation
               | Some t => dispatch_transfer id attempt reservation t
               end in
      mret (spawn w (Phase.Sending (_ ← p; mret ())), [])
  | Step.TransmitCancel id a =>
      mret (spawn w (Phase.Sending (_ ← transmit_cancel id a; mret ())), [])
  | Step.Enrollment o =>
      e ← run_op (iv_enroll (gw_enrollment w)) o;
      w' ← sync w (with_enroll (gw_enrollment w) e);
      mret (w', [])
  | Step.Server o =>
      if other_op o then
        tw ← run_transfer_op (gw_transfer w) o;
        let '(w', events) := restarted_gateway w o in
        mret (gw_with_transfer w' tw, events)
      else mret (w, [])
  end.

Fixpoint gateway_run w (sts : list Step.t) : Gen (GatewayWorld * list Event.t) :=
  match sts with
  | [] => mret (w, [])
  | st :: rest =>
      r ← gateway_step w st;
      r' ← gateway_run r.1 rest;
      mret (r'.1, r.2 ++ r'.2)
  end.

Definition empty_gateway (tw : TransferWorld) : GatewayWorld :=
  {| gw_enrollment := empty_inventory_db; gw_transfer := tw;
     gw_directory := OutboundSessionDirectory_new; gw_channels := ∅; gw_acks := ∅;
     gw_tasks := ∅; gw_next := 0 |}.
End System.
