(* ===== verification/AgentLogic.v ===== *)
(** * What the tasks of the Agent gateway do

    A logic for the programs of [AgentGateway] over the history of their own calls: which
    calls a handshake, a session and a sender make, in which order, and on whose behalf.
    Every program follows it. *)

From stdpp Require Import prelude gmap strings.
From Stdlib Require Import Strings.Byte NArith ZArith.
From S2P Require Import Prelude.
From S2P Require Import External.
From S2P Require Import Credential.
From S2P Require Import Endpoint.
From S2P Require Import EnrollmentStore.
From S2P Require Import Job.
From S2P Require Import Transfer.
From S2P Require Import Runtime.
From S2P Require Import JobStore.
From S2P Require Import JobServices.
From S2P Require Import TransferAuth.
From S2P Require Import TransferStore.
From S2P Require Import TransferEvidence.
From S2P Require Import TrustedBootstrap.
From S2P Require Import Inventory.
From S2P Require Import AgentProtocol.
From S2P Require Import OutboundSessions.
From S2P Require Import AgentGateway.

(** ** Histories *)

(** The calls of a task with their answers, latest first. *)
Definition CallHistory {js : JsonbInventory} : Type :=
  list {c : GatewayCall.t & GatewayCall.answer c}.

(** Where a session is in its life, with its channel. *)
Module Stage.
Inductive t : Type :=
| Fresh
| Opened (channel : nat)
| Out (channel : nat)
| Present (channel : nat)
| Left (channel : nat)
| Gone (channel : nat)
| Closed (channel : nat).
End Stage.

Section Logic.
Context {js : JsonbInventory}.
Implicit Types (h : CallHistory) (s : AuthenticatedSession).

Definition enter (c : GatewayCall.t) (a : GatewayCall.answer c) h : CallHistory := existT c a :: h.

Definition advance_stage (c : GatewayCall.t) (st : Stage.t) : GatewayCall.answer c → Stage.t :=
  match c with
  | GatewayCall.OpenChannel => λ channel, Stage.Opened channel
  | GatewayCall.RegisterOutbound _ _ channel => λ _, Stage.Out channel
  | GatewayCall.RegisterPresence _ _ => λ _,
      match st with Stage.Out ch => Stage.Present ch | _ => st end
  | GatewayCall.UnregisterPresence _ _ => λ _,
      match st with Stage.Present ch => Stage.Left ch | _ => st end
  | GatewayCall.UnregisterOutbound _ _ => λ _,
      match st with Stage.Left ch => Stage.Gone ch | _ => st end
  | GatewayCall.CloseChannel channel => λ _, Stage.Closed channel
  | _ => λ _, st
  end.

Fixpoint stage h : Stage.t :=
  match h with
  | [] => Stage.Fresh
  | existT c a :: h => advance_stage c (stage h) a
  end.

Definition made h (c : GatewayCall.t) (a : GatewayCall.answer c) : Prop :=
  (existT c a : {c : GatewayCall.t & GatewayCall.answer c}) ∈ h.

Lemma made_now h c a : made (enter c a h) c a.
Proof. apply list_elem_of_here. Qed.
Lemma made_before h c a c' a' : made h c a → made (enter c' a' h) c a.
Proof. apply list_elem_of_further. Qed.

(** ** The logic *)

Section Wp.
Context (allowed : CallHistory → GatewayCall.t → Prop).

Fixpoint gwp {A} h (p : gproc A) (Q : CallHistory → A → Prop) : Prop :=
  match p with
  | GRet a => Q h a
  | GDo c k => allowed h c ∧ ∀ a, gwp (enter c a h) (k a) Q
  end.

Lemma gwp_mono {A} h (p : gproc A) (Q Q' : CallHistory → A → Prop) :
  (∀ h' a, Q h' a → Q' h' a) → gwp h p Q → gwp h p Q'.
Proof.
  intros HQ. revert h. induction p as [a|c k IH]; intros h; simpl; [by auto|].
  intros [Hc Hk]. split; [done|]. intros a. by apply IH.
Qed.

Lemma gwp_bind {A B} h (p : gproc A) (f : A → gproc B) Q :
  gwp h p (λ h' a, gwp h' (f a) Q) → gwp h (p ≫= f) Q.
Proof.
  revert h. induction p as [a|c k IH]; intros h; [done|]. intros [Hc Hk]. split; [done|].
  intros a. by apply IH.
Qed.

Lemma gwp_fmap {A B} h (p : gproc A) (f : A → B) Q :
  gwp h p (λ h' a, Q h' (f a)) → gwp h (f <$> p) Q.
Proof. intros H. apply gwp_bind. exact H. Qed.

Lemma gwp_try {E A B} h (p : gproc (result E A)) (f : A → gproc (result E B)) Q :
  gwp h p (λ h' r, match r with Ok a => gwp h' (f a) Q | Err e => Q h' (Err e) end) →
  gwp h (gtry p f) Q.
Proof. intros H. apply gwp_bind. revert H. apply gwp_mono. by intros h' []. Qed.

Lemma gwp_call h c Q : allowed h c → (∀ a, Q (enter c a h) a) → gwp h (gcall c) Q.
Proof. done. Qed.

Lemma gwp_stamp {B} h (constructor : Instant → Gen (Message B)) Q :
  allowed h GatewayCall.Stamp →
  (∀ at_, Q (enter GatewayCall.Stamp at_ h) (constructor at_.1 at_.2).1) →
  gwp h (gstamp constructor) Q.
Proof. done. Qed.
End Wp.

Lemma gwp_allowed {A} (P P' : CallHistory → GatewayCall.t → Prop) h (p : gproc A) Q :
  (∀ h c, P h c → P' h c) → gwp P h p Q → gwp P' h p Q.
Proof.
  intros HP. revert h. induction p as [a|c k IH]; intros h; simpl; [done|].
  intros [Hc Hk]. split; [by auto|]. intros a. by apply IH.
Qed.

(** ** Who may call what *)

(** The Endpoint a service call is made for. *)
Definition call_endpoint (c : GatewayCall.t) : option EndpointId :=
  match c with
  | GatewayCall.VerifyAndEstablish e _ _ | GatewayCall.RecordInventory e _
  | GatewayCall.ApplyEvidence _ e _ | GatewayCall.Classify _ e | GatewayCall.TransferApply _ e _
  | GatewayCall.TransferCancelAck _ e _ | GatewayCall.TransferStatusCancelled _ e
  | GatewayCall.TransferStatusFailed _ e | GatewayCall.ApplyCancelAck _ e _
  | GatewayCall.ApplyStatusReport _ e _ | GatewayCall.ActionBelongs _ e
  | GatewayCall.Issue e _ _ _ | GatewayCall.Bind e _ _ | GatewayCall.MarkUncertain e _ => Some e
  | _ => None
  end.

(** Evidence that was applied and left the Attempt running. *)
Definition still_running (r : result JobError.t EvidenceResult.t) : Prop :=
  ∃ applied, r = Ok (EvidenceResult.Applied applied) ∧ ap_terminal applied = false.
Definition supported h (e : EndpointId) (a : ProtocolId) : Prop :=
  ∃ r, still_running r ∧
  ((∃ ev, made h (GatewayCall.ApplyEvidence a e ev) r) ∨
   (∃ ev, made h (GatewayCall.ApplyStatusReport a e ev) r)).
Definition captured h (e : EndpointId) (s a : ProtocolId) : Prop :=
  made h (GatewayCall.RelevantAction e s) (Some a).

(** The handshake that let a session in. *)
Definition redeemed h (e : EndpointId) : Prop := ∃ credential runtime expires,
  made h (GatewayCall.Redeem credential) (Ok (RedeemResult.Established e runtime expires)).
Definition generated h (s : ProtocolId) : Prop :=
  made h GatewayCall.GenerateId s.
Definition authentic h s : Prop :=
  redeemed h (as_endpoint_id s) ∧ generated h (as_session_id s) ∧
  ∃ m, made h (GatewayCall.SendFrame (AgentProtocolMessage.SessionEstablished m)) true ∧
    se_session_id (body m) = as_session_id s.

Definition shaking h (c : GatewayCall.t) : Prop :=
  match c with
  | GatewayCall.Stamp | GatewayCall.GenerateId | GatewayCall.NextFrame | GatewayCall.Redeem _
  | GatewayCall.SendFrame _ => True
  | _ => False
  end.

(** A message goes into the channel it was resolved to. *)
Definition resolved h (m : AgentProtocolMessage.t) (ch : nat) : Prop :=
  ∃ e, made h (GatewayCall.Resolve e m) (Ok ch).

Definition sending h (c : GatewayCall.t) : Prop :=
  match c with
  | GatewayCall.Stamp | GatewayCall.FindCandidate _ | GatewayCall.RegisterReservation _ _
  | GatewayCall.Resolve _ _ | GatewayCall.AwaitAck _ => True
  | GatewayCall.Enqueue ch m => resolved h m ch
  | _ => False
  end.

(** A session registers and leaves in order, and acts for its own Endpoint only. *)
Definition in_session s h (c : GatewayCall.t) : Prop :=
  let own e i := e = as_endpoint_id s ∧ i = as_session_id s in
  (∀ ch, stage h ≠ Stage.Closed ch) ∧
  match c with
  | GatewayCall.OpenChannel => stage h = Stage.Fresh
  | GatewayCall.RegisterOutbound e i ch => own e i ∧ stage h = Stage.Opened ch
  | GatewayCall.RegisterPresence e i => own e i ∧ ∃ ch, stage h = Stage.Out ch
  | GatewayCall.UnregisterPresence e i =>
      own e i ∧ ∃ ch, stage h = Stage.Present ch ∨ stage h = Stage.Left ch ∨ stage h = Stage.Gone ch
  | GatewayCall.UnregisterOutbound e i =>
      own e i ∧ ∃ ch, stage h = Stage.Left ch ∨ stage h = Stage.Gone ch
  | GatewayCall.CloseChannel ch => stage h = Stage.Gone ch
  | GatewayCall.RelevantAction e i => own e i
  | GatewayCall.Bind e i a => own e i ∧ (∃ ch, stage h = Stage.Present ch) ∧ supported h e a
  | GatewayCall.MarkUncertain e a => e = as_endpoint_id s ∧ captured h e (as_session_id s) a
  | GatewayCall.SpawnReconcile e | GatewayCall.FindCandidate e => e = as_endpoint_id s
  | GatewayCall.Resolve e m =>
      e = as_endpoint_id s ∧ ∃ q, m = AgentProtocolMessage.StatusQuery q
  | GatewayCall.Enqueue ch m => resolved h m ch
  | GatewayCall.Select ch => stage h = Stage.Present ch
  | GatewayCall.GenerateId | GatewayCall.NextFrame | GatewayCall.Redeem _
  | GatewayCall.RegisterReservation _ _ => False
  | _ => ∀ e, call_endpoint c = Some e → e = as_endpoint_id s
  end.

(** In its loop a session only serves: it acts for its Endpoint, and rebinds an action it has
    just kept running. *)
Definition in_loop s (ch : nat) h (c : GatewayCall.t) : Prop :=
  stage h = Stage.Present ch ∧
  match c with
  | GatewayCall.Stamp | GatewayCall.SendFrame _ | GatewayCall.Acknowledge _ _ => True
  | GatewayCall.Select ch' => ch' = ch
  | GatewayCall.VerifyAndEstablish e _ _ | GatewayCall.RecordInventory e _
  | GatewayCall.ApplyEvidence _ e _ | GatewayCall.Classify _ e | GatewayCall.TransferApply _ e _
  | GatewayCall.TransferCancelAck _ e _ | GatewayCall.TransferStatusCancelled _ e
  | GatewayCall.TransferStatusFailed _ e | GatewayCall.ApplyCancelAck _ e _
  | GatewayCall.ApplyStatusReport _ e _ | GatewayCall.ActionBelongs _ e
  | GatewayCall.Issue e _ _ _ => e = as_endpoint_id s
  | GatewayCall.Bind e i a => e = as_endpoint_id s ∧ i = as_session_id s ∧ supported h e a
  | _ => False
  end.

(** A session that is ending: still registered, or not any more. *)
Definition leaving (ch : nat) h : Prop :=
  stage h = Stage.Present ch ∨ stage h = Stage.Left ch ∨ stage h = Stage.Gone ch.
Definition in_end s (ch : nat) h (c : GatewayCall.t) : Prop := leaving ch h ∧ in_session s h c.

Lemma in_loop_session s ch h c : in_loop s ch h c → in_session s h c.
Proof.
  intros [Hp Hc]. split; [congruence|]. destruct c; try done; try (by intros ? [= <-]).
  { by rewrite Hc. }
  destruct Hc as (-> & -> & ?). by split_and!; [| |exists ch|].
Qed.
End Logic.

(** ** Automation *)

Ltac gwp_step :=
  match goal with
  | |- gwp _ _ (gcall _) _ => split; [|intros ?; cbn [gwp]]
  | |- gwp _ _ (gstamp _) _ => apply gwp_stamp; [|intros ?]
  | |- gwp _ _ (gtry _ _) _ => apply gwp_try
  | |- gwp _ _ (_ <$> _) _ => apply gwp_fmap
  | |- gwp _ _ (_ ≫= _) _ => apply gwp_bind
  | |- gwp _ _ (mret _) _ => cbn [gwp mret gproc_ret]
  | |- gwp _ _ (GRet _) _ => cbn [gwp]
  | |- gwp _ _ (if ?b then _ else _) _ => destruct b eqn:?
  | |- gwp _ _ (match ?x with _ => _ end) _ => destruct x eqn:?
  | |- match ?x with Ok _ => _ | Err _ => _ end => destruct x eqn:?
  | |- gwp _ _ (let _ := _ in _) _ => cbv zeta
  end.
Ltac gwp_go := repeat gwp_step.

(** ** The programs follow it *)

Section Programs.
Context {js : JsonbInventory} {ajson : AgentJson} {ent : Entropy} {b64 : Base64} {disp : UuidDisplay}
  {uparse : UuidParse} {kind : UuidKind}.
Context (configured : GatewayService.t → bool).

Ltac entered := repeat first [apply made_now | apply made_before].

(** A handshake that establishes a session has redeemed a credential for its Endpoint and
    sent the session identity it drew. *)
Lemma handshake_ok h :
  gwp shaking h handshake (λ h' r, stage h' = stage h ∧
    ∀ s, r = Some (Ok (HandshakeOutcome.Established s)) → authentic h' s).
Proof.
  unfold handshake, handle_text, handle_auth_request, reject, write_frame. gwp_go; try done.
  all: try (split; [done|]; by intros ? [=]).
  match goal with H : (if ?sent then _ else _) = Ok _ |- _ => destruct sent; [|done] end.
  split; [done|]. intros ? [= <-]. split_and!.
  - eexists _, _, _. entered.
  - unfold generated. entered.
  - eexists. split; [entered|]. done.
Qed.

(** A session's loop. *)
Section Loop.
Context (s : AuthenticatedSession) (ch : nat).
#[local] Abbreviation present h := (stage h = Stage.Present ch).
#[local] Abbreviation stays := (λ (h : CallHistory) _, present h).

Ltac neutral := by split.

Lemma protocol_error_ok h id : present h → gwp (in_loop s ch) h (send_protocol_error id) stays.
Proof. intros Hp. unfold send_protocol_error, write_frame. gwp_go; try done; neutral. Qed.

Lemma silent_ok {A} h (r : result JobError.t A) f :
  present h → (∀ a, r = Ok a → gwp (in_loop s ch) h (f a) stays) →
  gwp (in_loop s ch) h (silent r f) stays.
Proof. intros Hp Hf. unfold silent. destruct r as [a|[]]; [by apply Hf|done..]. Qed.

Lemma required_ok h (service : GatewayService.t) (Q : CallHistory → result AgentGatewayError.t () → Prop) :
  (∀ r, Q h r) → gwp (in_loop s ch) h (required configured service) Q.
Proof. intros HQ. apply HQ. Qed.

Lemma rebind_ok h a r :
  present h → (still_running (Ok r) → supported h (as_endpoint_id s) a) →
  gwp (in_loop s ch) h (rebind (as_endpoint_id s) (as_session_id s) a r) stays.
Proof.
  intros Hp Hs. unfold rebind. destruct r as [applied| |]; [|done..].
  destruct (ap_terminal applied) eqn:Ht; [done|]. cbn [negb]. gwp_go; [|done].
  split; [done|]. split_and!; [done..|]. apply Hs. by exists applied.
Qed.

Ltac handler :=
  gwp_go; try done; try neutral; try (by apply protocol_error_ok);
  try (apply silent_ok; [done|intros ? ->; try done]).

Lemma action_ack_ok h m :
  present h → gwp (in_loop s ch) h
    (handle_action_ack configured (as_endpoint_id s) (as_session_id s) m) stays.
Proof.
  intros Hp. unfold handle_action_ack. gwp_go; [by apply protocol_error_ok|].
  apply required_ok. intros [?|?]; [|done]. gwp_go; [neutral|]. apply silent_ok; [done|].
  intros r Hr. apply rebind_ok; [done|]. intros Hs. eexists. split; [rewrite <-Hr in Hs; exact Hs|].
  left. eexists. entered.
Qed.

Lemma simulated_result_ok h id r :
  present h → gwp (in_loop s ch) h
    (apply_simulated_result configured (as_endpoint_id s) id r) stays.
Proof.
  intros Hp. unfold apply_simulated_result. gwp_go; try done; try (by apply protocol_error_ok).
  all: apply required_ok; intros [?|?]; [|done]; handler.
Qed.

Lemma action_result_ok h m :
  present h → gwp (in_loop s ch) h (handle_action_result configured (as_endpoint_id s) m) stays.
Proof.
  intros Hp. unfold handle_action_result. handler; try (by apply simulated_result_ok).
  all: case_match; [done|by apply protocol_error_ok].
Qed.

Lemma generic_cancel_ack_ok h a ev :
  present h → gwp (in_loop s ch) h
    (apply_generic_cancel_ack configured a (as_endpoint_id s) ev) stays.
Proof.
  intros Hp. unfold apply_generic_cancel_ack. gwp_go. apply required_ok. intros [?|?]; [|done].
  handler.
Qed.

Lemma cancel_ack_ok h m :
  present h → gwp (in_loop s ch) h (handle_cancel_ack configured (as_endpoint_id s) m) stays.
Proof.
  intros Hp. unfold handle_cancel_ack. handler; try (by apply generic_cancel_ack_ok).
  destruct a1; [done|by apply generic_cancel_ack_ok].
Qed.

Lemma generic_status_report_ok h a ev :
  present h → gwp (in_loop s ch) h
    (apply_generic_status_report configured a (as_endpoint_id s) ev) stays.
Proof.
  intros Hp. unfold apply_generic_status_report. gwp_go. apply required_ok. intros [?|?]; [|done].
  handler.
Qed.

Lemma reconcile_status_report_ok h r :
  present h → gwp (in_loop s ch) h
    (reconcile_status_report configured (as_endpoint_id s) (as_session_id s) r) stays.
Proof.
  intros Hp. unfold reconcile_status_report. gwp_go. apply required_ok. intros [?|?]; [|done].
  gwp_go; [neutral|]. apply silent_ok; [done|]. intros r' Hr. apply rebind_ok; [done|].
  intros Hs. eexists. split; [rewrite <-Hr in Hs; exact Hs|]. right. eexists. entered.
Qed.

Lemma status_report_ok h m :
  present h → gwp (in_loop s ch) h
    (handle_status_report configured (as_endpoint_id s) (as_session_id s) m) stays.
Proof.
  intros Hp. unfold handle_status_report. handler; try (by apply reconcile_status_report_ok).
  all: destruct a1; [done|by apply generic_status_report_ok].
Qed.

Lemma authorization_request_ok h m :
  present h → gwp (in_loop s ch) h
    (handle_transfer_authorization_request configured (as_endpoint_id s) m) stays.
Proof.
  intros Hp. unfold handle_transfer_authorization_request. gwp_go. apply required_ok.
  intros [?|?]; [|done]. unfold send_transfer_authorization_denied, write_frame. handler.
Qed.

Lemma action_progress_ok h id m :
  present h → gwp (in_loop s ch) h
    (handle_action_progress configured (as_endpoint_id s) id m) stays.
Proof.
  intros Hp. unfold handle_action_progress. gwp_go; [by apply protocol_error_ok|].
  apply required_ok. intros [?|?]; [|done]. handler.
Qed.

Lemma message_ok h fp m :
  present h → gwp (in_loop s ch) h (handle_message configured fp s m) stays.
Proof.
  intros Hp. destruct m; cbn [handle_message]; try (by apply protocol_error_ok); try done.
  - gwp_go. apply required_ok. intros [?|?]; [|done]. gwp_go; try done; neutral.
  - by apply authorization_request_ok.
  - by apply action_ack_ok.
  - by apply action_progress_ok.
  - by apply action_result_ok.
  - by apply cancel_ack_ok.
  - by apply status_report_ok.
Qed.

Lemma turn_ok h fp : present h → gwp (in_loop s ch) h (turn configured fp s ch) stays.
Proof.
  intros Hp. unfold turn, handle_frame, go_on. gwp_go; try done; try neutral.
  all: try (eapply gwp_mono; [|by apply protocol_error_ok]; done).
  eapply gwp_mono; [|by apply message_ok]. done.
Qed.
End Loop.

(** ** Registration and teardown *)

Section Life.
Context (s : AuthenticatedSession).

Lemma start_session_ok h :
  stage h = Stage.Fresh →
  gwp (in_session s) h (start_session configured s) (λ h' ch, stage h' = Stage.Present ch).
Proof.
  intros Hf. unfold start_session. gwp_go; cbn [stage enter advance_stage]; try done.
  all: split; cbn [stage enter advance_stage]; rewrite ?Hf; try done; eauto.
Qed.

(** A session that leaves by its own end has asked what it carried, and has marked it. *)
Definition left_properly (h : CallHistory) : Prop := ∃ r,
  made h (GatewayCall.RelevantAction (as_endpoint_id s) (as_session_id s)) r ∧
  (configured GatewayService.Reconciliation = true → ∀ a, r = Some a → ∃ x,
     made h (GatewayCall.MarkUncertain (as_endpoint_id s) a) x).

#[local] Abbreviation extends h := (λ (h' : CallHistory), ∀ c a, made h c a → made h' c a).

Ltac ended := split; [by (left + (right; left) + (right; right))|split; [congruence|]; by eauto].

Lemma drop_session_ok h ch :
  leaving ch h → gwp (in_end s ch) h (drop_session s ch)
    (λ h' _, stage h' = Stage.Closed ch ∧ extends h h').
Proof.
  intros Hl. unfold drop_session.
  destruct Hl as [Hst|[Hst|Hst]]; gwp_go; unfold in_end, leaving, in_session;
    cbn [stage enter advance_stage]; rewrite ?Hst; try (by split_and!; eauto).
  all: split; [done|]; intros c x Hx; by entered.
Qed.

Lemma reconcile_ok h ch :
  stage h = Stage.Gone ch →
  gwp (in_end s ch) h (reconcile_on_session_start (as_endpoint_id s))
    (λ h' _, stage h' = Stage.Gone ch ∧ extends h h').
Proof.
  intros Hg. unfold reconcile_on_session_start, send. gwp_go; unfold in_end, leaving, in_session;
    cbn [stage enter advance_stage]; rewrite ?Hg; try (by split_and!; eauto).
  { split_and!; [by auto|done|eexists; entered]. }
  all: split; [done|]; intros c x Hx; by entered.
Qed.

Lemma end_session_ok h ch :
  stage h = Stage.Present ch →
  gwp (in_end s ch) h (end_session configured s ch)
    (λ h' _, stage h' = Stage.Closed ch ∧ left_properly h').
Proof.
  intros Hst. unfold end_session. gwp_go; unfold in_end, leaving, in_session;
    cbn [stage enter advance_stage]; rewrite ?Hst; try (by split_and!; eauto).
  - split_and!; [by auto|done..|]. unfold captured. entered.
  - eapply gwp_mono; [|apply reconcile_ok; cbn [stage enter advance_stage]; by rewrite Hst].
    intros h1 _ [Hg Hx1]. eapply gwp_mono; [|apply drop_session_ok; by right; right].
    intros h2 _ [Hcl Hx2]. split; [done|]. eexists. split; [apply Hx2, Hx1; entered|].
    intros _ a' [= <-]. eexists. apply Hx2, Hx1. entered.
  - eapply gwp_mono; [|apply drop_session_ok; right; right; cbn [stage enter advance_stage]; by rewrite Hst].
    intros h2 _ [Hcl Hx2]. split; [done|]. eexists. split; [apply Hx2; entered|]. congruence.
  - eapply gwp_mono; [|apply drop_session_ok; right; right; cbn [stage enter advance_stage]; by rewrite Hst].
    intros h2 _ [Hcl Hx2]. split; [done|]. eexists. split; [apply Hx2; entered|]. done.
Qed.
End Life.

(** ** Senders *)

Lemma send_ok h e m : gwp sending h (send e m) (λ _ _, True).
Proof. unfold send. gwp_go; try done. eexists. entered. Qed.
Lemma session_start_ok h e : gwp sending h (reconcile_on_session_start e) (λ _ _, True).
Proof. unfold reconcile_on_session_start. gwp_go; try done. eapply gwp_mono; [|apply send_ok]. done. Qed.
Lemma dispatch_message_ok h e attempt r ty version parameters :
  gwp sending h (dispatch_message e attempt r ty version parameters) (λ _ _, True).
Proof. unfold dispatch_message. gwp_go; try done. eapply gwp_mono; [|apply send_ok]. done. Qed.
Lemma transmit_cancel_ok h e a : gwp sending h (transmit_cancel e a) (λ _ _, True).
Proof. unfold transmit_cancel. gwp_go; try done. apply send_ok. Qed.

End Programs.
