(* ===== verification/AgentFrames.v ===== *)
(** * What the calls of the gateway leave alone

    The part of the shared state that sessions own: which sessions an Endpoint has for
    outbound traffic and for presence, and which channels are open. Every call but the
    registrations leaves it as it was. *)

From stdpp Require Import prelude gmap strings.
From Stdlib Require Import Strings.Byte NArith ZArith.
From S2P Require Import Prelude.
From S2P Require Import External.
From S2P Require Import Credential.
From S2P Require Import Endpoint.
From S2P Require Import EnrollmentStore.
From S2P Require Import Job.
From S2P Require Import Transfer.
From S2P Require Import Runtime.
From S2P Require Import JobStore.
From S2P Require Import JobServices.
From S2P Require Import TransferAuth.
From S2P Require Import TransferStore.
From S2P Require Import TransferEvidence.
From S2P Require Import TrustedBootstrap.
From S2P Require Import Inventory.
From S2P Require Import WorkerSafety.
From S2P Require Import ServerHistory.
From S2P Require Import AgentProtocol.
From S2P Require Import OutboundSessions.
From S2P Require Import AgentGateway.
From S2P Require Import AgentSystem.

(** ** Results of generators *)

Definition gives {A} (P : A → Prop) (g : Gen A) : Prop := ∀ k, P (g k).1.

Lemma gives_ret {A} (P : A → Prop) (a : A) : P a → gives P (mret a).
Proof. intros H k. exact H. Qed.
Lemma gives_bind {A B} (Q : A → Prop) (P : B → Prop) (g : Gen A) (f : A → Gen B) :
  gives Q g → (∀ a, Q a → gives P (f a)) → gives P (g ≫= f).
Proof.
  intros Hg Hf k. unfold mbind, gen_bind. specialize (Hg k). destruct (g k) as [a k1].
  by apply Hf.
Qed.
Lemma gives_then {A B} (P : B → Prop) (g : Gen A) (f : A → Gen B) :
  (∀ a, gives P (f a)) → gives P (g ≫= f).
Proof. intros Hf. apply (gives_bind (λ _, True)); [done|by auto]. Qed.

Lemma gives_first {A B} (P : A → Prop) (g : Gen (A * B)) :
  gives (λ r, P r.1) g → gives P (r ← g; mret r.1).
Proof. intros H. apply (gives_bind (λ r, P r.1)); [done|]. intros a Ha. by apply gives_ret. Qed.

Section Frames.
Context {js : JsonbInventory} {ajson : AgentJson} {b64 : Base64} {sha : Sha256} {ed : Ed25519}
  {ent : Entropy} {chrono : ChronoRange} {disp : UuidDisplay} {uparse : UuidParse}
  {kind : UuidKind} {pg : PgTimestamp}.
Context (configured : GatewayService.t → bool) (runtime_ttl : Duration)
  (accepted_site_keys : AcceptedSiteKeys) (capability_ttl : Duration) (base_url : str).

#[local] Abbreviation presence_of tw := (w_presence (tw_world tw)).

Lemma settle_presence w db r : w_presence (settle w db r).1 = w_presence w.
Proof. unfold settle, take_and_release, Registry.take. by repeat case_match. Qed.

Ltac presence :=
  repeat first
  [ apply gives_first
  | match goal with
    | |- gives _ (mbind _ _) => apply gives_then; intros ?
    | |- gives _ (mret _) => apply gives_ret; cbv beta
    | |- gives _ (match ?x with _ => _ end) => destruct x eqn:?
    | |- gives _ ?g => let h := head g in unfold h
    end ];
  try apply settle_presence;
  unfold service_satisfy_current_step_preconditions, service_authorize, service_dispatch,
    service_mark_endpoint_uncertain, service_reconcile_on_startup, take_and_release,
    Registry.take in *;
  by repeat (case_match; simpl).

Lemma job_op_presence w o :
  other_op (TransferOp.Job o) = true ∨ (∃ a b c, o = JobOp.Environment a b c) →
  gives (λ w', w_presence w' = if o is JobOp.Restart _ then ∅ else w_presence w) (run_job_op w o).
Proof.
  intros Ho. destruct o; cbn [run_job_op]; try presence.
  all: by destruct Ho as [|(? & ? & ? & ?)].
Qed.
Lemma settled_presence tw a e decide :
  gives (λ r, presence_of r.1 = presence_of tw) (apply_and_settle tw a e decide).
Proof.
  unfold apply_and_settle. apply gives_then. intros [db r]. apply gives_ret. cbv zeta.
  unfold take_and_release, Registry.take. by repeat (case_match; simpl).
Qed.
Ltac routed_presence :=
  eapply gives_bind; [apply settled_presence|]; intros ? ?; by apply gives_ret.
Lemma transfer_apply_presence tw a e detail now :
  gives (λ r, presence_of r.1 = presence_of tw) (service_transfer_apply tw a e detail now).
Proof. routed_presence. Qed.
Lemma transfer_cancel_presence tw a e ev now :
  gives (λ r, presence_of r.1 = presence_of tw) (service_transfer_cancel_ack tw a e ev now).
Proof. routed_presence. Qed.
Lemma transfer_cancelled_presence tw a e now :
  gives (λ r, presence_of r.1 = presence_of tw) (service_transfer_status_report_cancelled tw a e now).
Proof. routed_presence. Qed.
Lemma transfer_failed_presence tw a e now :
  gives (λ r, presence_of r.1 = presence_of tw) (service_transfer_status_report_failed tw a e now).
Proof. routed_presence. Qed.
#[local] Hint Resolve transfer_apply_presence transfer_cancel_presence transfer_cancelled_presence
  transfer_failed_presence : core.

Lemma transfer_op_presence tw o :
  other_op o = true ∨ (∃ a b c, o = TransferOp.Job (JobOp.Environment a b c)) →
  gives (λ tw', presence_of tw' =
    if o is TransferOp.Job (JobOp.Restart _) then ∅ else presence_of tw) (run_transfer_op tw o).
Proof.
  intros Ho. destruct o as [o0| | | | | | | | | | | | | | | | |]; cbn [run_transfer_op]; cbv zeta.
  2-18: first [apply gives_first; by auto | by intros k
              | apply gives_then; intros ?; by apply gives_ret].
  apply (gives_bind (λ w', w_presence w' = if o0 is JobOp.Restart _ then ∅ else presence_of tw)).
  - destruct Ho as [Ho|(a & b & c & [= ->])].
    + destruct o0; try done; apply job_op_presence; by left.
    + apply job_op_presence. right. by eexists _, _, _.
  - intros world Hworld. apply gives_then. intros auth. apply gives_ret. destruct o0; exact Hworld.
Qed.

(** ** The view of sessions *)

Definition channel_open (w : GatewayWorld) (ch : nat) : Prop :=
  ∃ queue, gw_channels w !! ch = Some {| ch_queue := queue; ch_open := true |}.

Record same_view (w w' : GatewayWorld) : Prop := {
  sv_sessions e : sessions_of (gw_directory w') e = sessions_of (gw_directory w) e;
  sv_channels : od_channels (gw_directory w') = od_channels (gw_directory w);
  sv_presence : presence_of (gw_transfer w') = presence_of (gw_transfer w);
  sv_open ch : channel_open w ch → channel_open w' ch;
  sv_tasks : gw_tasks w' = gw_tasks w;
  sv_next : gw_next w ≤ gw_next w';
}.

Lemma same_view_transfer w tw :
  presence_of tw = presence_of (gw_transfer w) → same_view w (gw_with_transfer w tw).
Proof. by split. Qed.
Lemma same_view_refl w : same_view w w.
Proof. by split. Qed.
#[local] Hint Resolve same_view_refl : core.

Lemma sync_view w db : gives (same_view w) (sync w db).
Proof.
  unfold sync. eapply gives_bind; [apply transfer_op_presence; right; by eexists _, _, _|].
  intros tw Htw. apply gives_ret. by split.
Qed.

Lemma enqueue_view w ch m w' r : enqueue w ch m = Some (w', r) → same_view w w'.
Proof.
  unfold enqueue. destruct (gw_channels w !! ch) as [[queue []]|] eqn:Hch; simplify_eq;
    try (intros [= <- _]; done).
  case_match; [done|]. intros [= <- _]. split; try done; simpl; [|lia].
  intros ch' [queue' Hq]. destruct (decide (ch = ch')) as [<-|Hne].
  - eexists. simpl. by rewrite lookup_insert_eq.
  - exists queue'. simpl. by rewrite lookup_insert_ne.
Qed.

Lemma select_view w e ch : same_view w (select w e ch).1.
Proof.
  unfold select. destruct (en_command e); [|done].
  destruct (gw_channels w !! ch) as [[[|[m ack] rest] o]|] eqn:Hch; [done| |done].
  split; try done. simpl. intros ch' [queue' Hq]. destruct (decide (ch = ch')) as [<-|Hne].
  - exists rest. simpl. rewrite lookup_insert_eq. by simplify_eq.
  - exists queue'. simpl. by rewrite lookup_insert_ne.
Qed.

Definition registers (c : GatewayCall.t) : bool :=
  match c with
  | GatewayCall.OpenChannel | GatewayCall.CloseChannel _ | GatewayCall.RegisterOutbound _ _ _
  | GatewayCall.UnregisterOutbound _ _ | GatewayCall.RegisterPresence _ _
  | GatewayCall.UnregisterPresence _ _ | GatewayCall.SpawnReconcile _ => true
  | _ => false
  end.

#[local] Abbreviation exec :=
  (exec runtime_ttl accepted_site_keys capability_ttl base_url).

Lemma job_view {A} w (g : Gen (World * A)) :
  gives (λ r, w_presence r.1 = presence_of (gw_transfer w)) g →
  gives (λ r, same_view w r.1)
    (r ← g; mret (gw_with_transfer w (tw_with_world (gw_transfer w) r.1), r.2)).
Proof.
  intros Hg. eapply gives_bind; [exact Hg|]. intros r Hr. by apply gives_ret, same_view_transfer.
Qed.
Lemma transfer_view {A} w (g : Gen (TransferWorld * A)) :
  gives (λ r, presence_of r.1 = presence_of (gw_transfer w)) g →
  gives (λ r, same_view w r.1) (r ← g; mret (gw_with_transfer w r.1, r.2)).
Proof.
  intros Hg. eapply gives_bind; [exact Hg|]. intros r Hr. by apply gives_ret, same_view_transfer.
Qed.
Lemma synced_view {A} w db (a : A) :
  gives (λ r, same_view w r.1) (w' ← sync w db; mret (w', a)).
Proof. eapply gives_bind; [apply sync_view|]. intros w' Hw. by apply gives_ret. Qed.

Ltac settled := apply job_view; apply gives_then; intros ?; apply gives_ret, settle_presence.

Lemma exec_view w e c run :
  registers c = false → exec w e c = Some run → gives (λ r, same_view w r.1) run.
Proof.
  intros Hr. destruct c; try done; cbn [AgentSystem.exec].
  all: try (intros [= <-]; first
    [ apply gives_ret; done | by intros k | settled | apply transfer_view; by auto | apply synced_view
    | apply gives_then; intros ?; apply synced_view
    | apply gives_then; intros ?; apply gives_ret; by apply same_view_transfer ]).
  - intros [= <-]. apply gives_ret, select_view.
  - destruct (bind_dispatch_relevant_session _ _ _ _) as [d' r] eqn:Hb. intros [= <-].
    apply gives_ret. split; try done; simpl.
    + intros e'. change d' with (d', r).1. rewrite <-Hb. apply bind_sessions.
    + change d' with (d', r).1. rewrite <-Hb. apply bind_channels.
  - destruct (service_mark_endpoint_uncertain _ _ _) as [world r] eqn:Hm. intros [= <-].
    apply gives_ret, same_view_transfer. revert Hm. unfold service_mark_endpoint_uncertain.
    case_match. by intros [= <- _].
  - destruct (Registry.register _ _ _) as [registry r]. intros [= <-].
    by apply gives_ret, same_view_transfer.
  - destruct (resolve _ _ _) as [d' r] eqn:Hb. intros [= <-].
    apply gives_ret. split; try done; simpl.
    + intros e'. change d' with (d', r).1. rewrite <-Hb. apply resolve_sessions.
    + change d' with (d', r).1. rewrite <-Hb. apply resolve_channels.
  - destruct (enqueue w channel m) as [[w' r]|] eqn:Hq; [|done]. intros [= <-].
    apply gives_ret. by apply enqueue_view in Hq.
  - destruct (gw_acks w !! ack) as [[ch [r|]]|]; [|done..]. intros [= <-]. by apply gives_ret.
Qed.

(** ** Draws *)

Ltac exec_forward := repeat first
  [ apply forward_bind; [|intros ?] | apply forward_ret | apply forward_new_v4
  | apply forward_transfer_op
  | match goal with
    | |- forward (fill_bytes _) => intros ?; simpl; lia
    | |- forward (match ?x with _ => _ end) => destruct x eqn:?
    | |- forward ?g => let h := head g in unfold h
    end ].

Lemma exec_draws w e c run : exec w e c = Some run → forward run.
Proof.
  destruct c; cbn [AgentSystem.exec]; try (intros [= <-]; intros k; simpl; lia);
    try (intros [= <-]; exec_forward);
    try (case_match; intros [= <-]; apply forward_ret).
  - intros (r & _ & ->)%fmap_Some_1. apply forward_ret.
  - destruct (gw_acks w !! ack) as [[ch [r|]]|]; [|done..]. intros [= <-]. apply forward_ret.
Qed.

Lemma record_draws db id inventory now : forward (record_inventory db id inventory now).
Proof. exec_forward. Qed.
Lemma enrollment_draws db o : forward (run_op db o).
Proof. destruct o; cbn [run_op]; exec_forward. Qed.
End Frames.
