(* ===== verification/AgentRegistration.v ===== *)
(** * Who owns the registrations

    The sessions of the outbound directory, the sessions of presence and the open channels
    against the stages of the session tasks: each registration belongs to the one task that
    made it, for as long as that task is in the stage that needs it. Each registering call
    of [AgentGateway] keeps this. *)

From stdpp Require Import prelude gmap strings.
From Stdlib Require Import Strings.Byte NArith ZArith.
From S2P Require Import Prelude.
From S2P Require Import External.
From S2P Require Import Endpoint.
From S2P Require Import Runtime.
From S2P Require Import JobServices.
From S2P Require Import TransferAuth.
From S2P Require Import TransferEvidence.
From S2P Require Import Inventory.
From S2P Require Import AgentProtocol.
From S2P Require Import OutboundSessions.
From S2P Require Import AgentGateway.
From S2P Require Import AgentSystem.
From S2P Require Import AgentLogic.
From S2P Require Import AgentFrames.

(** ** Stages *)

(** The channel of a stage; the channel while its receiver lives; the channel while the
    session takes outbound traffic. *)
Definition channel_of (st : Stage.t) : option nat :=
  match st with
  | Stage.Fresh => None
  | Stage.Opened ch | Stage.Out ch | Stage.Present ch | Stage.Left ch | Stage.Gone ch
  | Stage.Closed ch => Some ch
  end.
Definition receiving (st : Stage.t) : option nat :=
  match st with Stage.Closed _ => None | _ => channel_of st end.
Definition outbound (st : Stage.t) : option nat :=
  match st with Stage.Out ch | Stage.Present ch | Stage.Left ch => Some ch | _ => None end.

Lemma receiving_channel st ch : receiving st = Some ch → channel_of st = Some ch.
Proof. by destruct st. Qed.
Lemma outbound_channel st ch : outbound st = Some ch → receiving st = Some ch.
Proof. by destruct st. Qed.

Section Registration.
Context {js : JsonbInventory} {ed : Ed25519}.
Implicit Types (w : GatewayWorld) (s : AuthenticatedSession).
#[local] Abbreviation presence_of w := (w_presence (tw_world (gw_transfer w))).

Record registered (σ : nat → Stage.t) (live : nat → AuthenticatedSession → Prop) w : Prop := {
  rg_open c s ch : live c s → receiving (σ c) = Some ch → channel_open w ch;
  rg_outbound c s ch : live c s → outbound (σ c) = Some ch →
    as_session_id s ∈ sessions_of (gw_directory w) (as_endpoint_id s) ∧
    od_channels (gw_directory w) !! as_session_id s = Some ch;
  rg_present c s ch : live c s → σ c = Stage.Present ch →
    as_session_id s ∈ Presence.present_sessions (presence_of w) (as_endpoint_id s);
  rg_sessions e i : i ∈ sessions_of (gw_directory w) e → ∃ c ch,
    live c {| as_endpoint_id := e; as_session_id := i |} ∧ outbound (σ c) = Some ch;
  rg_presence e i : i ∈ Presence.present_sessions (presence_of w) e → ∃ c ch,
    live c {| as_endpoint_id := e; as_session_id := i |} ∧ σ c = Stage.Present ch;
}.

Lemma registered_same σ σ' live live' w w' :
  (∀ c, σ' c = σ c) → (∀ c s, live' c s ↔ live c s) →
  (∀ e, sessions_of (gw_directory w') e = sessions_of (gw_directory w) e) →
  od_channels (gw_directory w') = od_channels (gw_directory w) →
  presence_of w' = presence_of w → (∀ ch, channel_open w ch → channel_open w' ch) →
  registered σ live w → registered σ' live' w'.
Proof.
  intros Hσ Hl Hs Hc Hp Ho [H1 H2 H3 H4 H5]. split.
  - intros c s ch Hcs Hr. rewrite Hl in Hcs. rewrite Hσ in Hr. by eauto.
  - intros c s ch Hcs Hr. rewrite Hl in Hcs. rewrite Hσ in Hr. rewrite Hs, Hc. by eauto.
  - intros c s ch Hcs Hr. rewrite Hl in Hcs. rewrite Hσ in Hr. rewrite Hp. by eauto.
  - intros e i. rewrite Hs. intros (c & ch & ? & ?)%H4. exists c, ch. by rewrite Hl, Hσ.
  - intros e i. rewrite Hp. intros (c & ch & ? & ?)%H5. exists c, ch. by rewrite Hl, Hσ.
Qed.

(** Tasks that hold nothing come and go. *)
Lemma registered_idle σ live live' w :
  (∀ c s, live c s → live' c s ∨ receiving (σ c) = None) →
  (∀ c s, live' c s → live c s ∨ receiving (σ c) = None) →
  registered σ live w → registered σ live' w.
Proof.
  intros Hto Hfrom [H1 H2 H3 H4 H5]. split.
  - intros c s ch [Hl|Hi]%Hfrom; [by eauto|congruence].
  - intros c s ch [Hl|Hi]%Hfrom; [by eauto|]. intros Ho%outbound_channel. congruence.
  - intros c s ch [Hl|Hi]%Hfrom; [by eauto|]. intros Ho. by rewrite Ho in Hi.
  - intros e i (c & ch & Hl & Ho)%H4. exists c, ch. split; [|done].
    destruct (Hto _ _ Hl) as [|Hi]; [done|]. apply outbound_channel in Ho. congruence.
  - intros e i (c & ch & Hl & Ho)%H5. exists c, ch. split; [|done].
    destruct (Hto _ _ Hl) as [|Hi]; [done|]. by rewrite Ho in Hi.
Qed.

(** ** Registering calls *)

Section Calls.
Context (σ σ' : nat → Stage.t) (live : nat → AuthenticatedSession → Prop) (w : GatewayWorld).
Context (c : nat) (s : AuthenticatedSession) (Hc : live c s) (H : registered σ live w)
  (Hother : ∀ c', c' ≠ c → σ' c' = σ c')
  (one_session : ∀ c s s', live c s → live c s' → s = s')
  (own_id : ∀ c c' s s', live c s → live c' s' → as_session_id s = as_session_id s' → c = c')
  (own_channel : ∀ c c' ch, channel_of (σ c) = Some ch → channel_of (σ c') = Some ch → c = c').

(** What holds of another task holds still. *)
Ltac at_task c' Hl :=
  let Hne := fresh "Hne" in
  destruct (decide (c' = c)) as [->|Hne];
  [pose proof (one_session _ _ _ Hc Hl); subst|rewrite (Hother c' Hne) in *].

Lemma foreign c' s' : live c' s' → c' ≠ c → as_session_id s' ≠ as_session_id s.
Proof. intros Hl Hne Hs. apply Hne. by apply (own_id _ _ s' s). Qed.

Lemma registered_open ch channels acks next :
  σ c = Stage.Fresh → σ' c = Stage.Opened ch →
  channels = <[ch := {| ch_queue := []; ch_open := true |}]> (gw_channels w) →
  registered σ' live (gw_with_channels w channels acks next).
Proof.
  intros Hσ Hσ' ->. destruct H as [H1 H2 H3 H4 H5]. split; simpl.
  - intros c' s' ch' Hl Hr. unfold channel_open. simpl. rewrite lookup_insert.
    case_decide; [by eexists|]. at_task c' Hl; [|exact (H1 _ _ _ Hl Hr)]. rewrite Hσ' in Hr. by simplify_eq/=.
  - intros c' s' ch' Hl Hr. at_task c' Hl; [by rewrite Hσ' in Hr|by eauto].
  - intros c' s' ch' Hl Hr. at_task c' Hl; [congruence|by eauto].
  - intros e i (c' & ch' & Hl & Hr)%H4. exists c', ch'. split; [done|].
    rewrite Hother; [done|]. intros ->. by rewrite Hσ in Hr.
  - intros e i (c' & ch' & Hl & Hr)%H5. exists c', ch'. split; [done|].
    rewrite Hother; [done|]. congruence.
Qed.

Lemma registered_close ch acks next :
  σ c = Stage.Gone ch → σ' c = Stage.Closed ch →
  registered σ' live
    (gw_with_channels w (<[ch := {| ch_queue := []; ch_open := false |}]> (gw_channels w)) acks next).
Proof.
  intros Hσ Hσ'. destruct H as [H1 H2 H3 H4 H5]. split; simpl.
  - intros c' s' ch' Hl Hr. at_task c' Hl; [by rewrite Hσ' in Hr|].
    destruct (H1 _ _ _ Hl Hr) as [queue Hq]. exists queue. simpl. rewrite lookup_insert_ne; [done|].
    intros <-. apply Hne. apply (own_channel _ _ ch); [by apply receiving_channel|by rewrite Hσ].
  - intros c' s' ch' Hl Hr. at_task c' Hl; [by rewrite Hσ' in Hr|by eauto].
  - intros c' s' ch' Hl Hr. at_task c' Hl; [congruence|by eauto].
  - intros e i (c' & ch' & Hl & Hr)%H4. exists c', ch'. split; [done|].
    rewrite Hother; [done|]. intros ->. by rewrite Hσ in Hr.
  - intros e i (c' & ch' & Hl & Hr)%H5. exists c', ch'. split; [done|].
    rewrite Hother; [done|]. congruence.
Qed.

Lemma registered_outbound ch :
  σ c = Stage.Opened ch → σ' c = Stage.Out ch →
  registered σ' live (gw_with_directory w
    (register (gw_directory w) (as_endpoint_id s) (as_session_id s) ch)).
Proof.
  intros Hσ Hσ'. destruct H as [H1 H2 H3 H4 H5]. split; simpl.
  - intros c' s' ch' Hl Hr. change (channel_open w ch'). at_task c' Hl; [|by eauto].
    apply (H1 c s'); [done|]. rewrite Hσ. by rewrite Hσ' in Hr.
  - intros c' s' ch' Hl Hr. rewrite register_member. at_task c' Hl.
    + rewrite Hσ' in Hr. simplify_eq/=. rewrite lookup_insert_eq. auto.
    + destruct (H2 _ _ _ Hl Hr) as [? ?]. split; [by left|].
      rewrite lookup_insert_ne; [done|]. intros ?. by eapply foreign.
  - intros c' s' ch' Hl Hr. at_task c' Hl; [congruence|by eauto].
  - intros e i. rewrite register_member. intros [(c' & ch' & Hl & Hr)%H4|[-> ->]].
    + exists c', ch'. split; [done|]. rewrite Hother; [done|]. intros ->. by rewrite Hσ in Hr.
    + exists c, ch. rewrite Hσ'. split; [by destruct s|done].
  - intros e i (c' & ch' & Hl & Hr)%H5. exists c', ch'. split; [done|].
    rewrite Hother; [done|]. congruence.
Qed.

Lemma registered_no_outbound ch :
  σ c = Stage.Left ch ∨ σ c = Stage.Gone ch → σ' c = Stage.Gone ch →
  registered σ' live (gw_with_directory w
    (unregister (gw_directory w) (as_endpoint_id s) (as_session_id s))).
Proof.
  intros Hσ Hσ'. destruct H as [H1 H2 H3 H4 H5]. split; simpl.
  - intros c' s' ch' Hl Hr. change (channel_open w ch'). at_task c' Hl; [|by eauto].
    apply (H1 c s'); [done|]. rewrite Hσ' in Hr. by destruct Hσ as [-> | ->].
  - intros c' s' ch' Hl Hr. at_task c' Hl; [by rewrite Hσ' in Hr|].
    rewrite unregister_member, channels_unregister. pose proof (foreign _ _ Hl Hne) as Hf.
    destruct (H2 _ _ _ Hl Hr) as [? ?]. rewrite lookup_delete_ne by congruence. naive_solver.
  - intros c' s' ch' Hl Hr. at_task c' Hl; [congruence|by eauto].
  - intros e i. rewrite unregister_member. intros [(c' & ch' & Hl & Hr)%H4 Hn].
    exists c', ch'. split; [done|]. rewrite Hother; [done|]. intros ->.
    pose proof (one_session _ _ _ Hc Hl); subst s. by apply Hn.
  - intros e i (c' & ch' & Hl & Hr)%H5. exists c', ch'. split; [done|].
    rewrite Hother; [done|]. intros ->. destruct Hσ; congruence.
Qed.

Lemma registered_presence ch :
  σ c = Stage.Out ch → σ' c = Stage.Present ch →
  registered σ' live (gw_with_transfer w (with_presence (gw_transfer w)
    (Presence.register (presence_of w) (as_endpoint_id s) (as_session_id s)))).
Proof.
  intros Hσ Hσ'. destruct H as [H1 H2 H3 H4 H5]. split; simpl.
  - intros c' s' ch' Hl Hr. change (channel_open w ch'). at_task c' Hl; [|by eauto].
    apply (H1 c s'); [done|]. rewrite Hσ. by rewrite Hσ' in Hr.
  - intros c' s' ch' Hl Hr. at_task c' Hl; [|by eauto].
    apply (H2 c s'); [done|]. rewrite Hσ. by rewrite Hσ' in Hr.
  - intros c' s' ch' Hl Hr. apply Presence.present_register. at_task c' Hl; [by right|].
    left. by eauto.
  - intros e i (c' & ch' & Hl & Hr)%H4. destruct (decide (c' = c)) as [->|Hne].
    + exists c, ch. by rewrite Hσ'.
    + exists c', ch'. by rewrite Hother.
  - intros e i. rewrite Presence.present_register. intros [(c' & ch' & Hl & Hr)%H5|[-> ->]].
    + exists c', ch'. split; [done|]. rewrite Hother; [done|]. congruence.
    + exists c, ch. split; [by destruct s|done].
Qed.

Lemma registered_no_presence st :
  σ c = st ∧ σ' c = st ∧ (∀ ch, st ≠ Stage.Present ch) ∨
  (∃ ch, σ c = Stage.Present ch ∧ σ' c = Stage.Left ch) →
  registered σ' live (gw_with_transfer w (with_presence (gw_transfer w)
    (Presence.unregister (presence_of w) (as_endpoint_id s) (as_session_id s)))).
Proof.
  intros Hσ. destruct H as [H1 H2 H3 H4 H5].
  assert (outbound (σ' c) = outbound (σ c) ∧ receiving (σ' c) = receiving (σ c)) as [Ho Hr'].
  { destruct Hσ as [(-> & -> & _)|(ch & -> & ->)]; done. }
  assert (∀ ch, σ' c ≠ Stage.Present ch) as Hnp.
  { destruct Hσ as [(_ & -> & ?)|(ch & _ & ->)]; done. }
  split; simpl.
  - intros c' s' ch' Hl Hr. change (channel_open w ch'). at_task c' Hl; [|by eauto].
    apply (H1 c s'); congruence.
  - intros c' s' ch' Hl Hr. at_task c' Hl; [|by eauto]. apply (H2 c s'); congruence.
  - intros c' s' ch' Hl Hr. apply Presence.present_unregister. at_task c' Hl; [by apply Hnp in Hr|].
    split; [by eauto|]. intros [_ He]. by eapply foreign.
  - intros e i (c' & ch' & Hl & Hr)%H4. exists c', ch'. split; [done|].
    destruct (decide (c' = c)) as [->|Hne]; [congruence|by rewrite Hother].
  - intros e i. rewrite Presence.present_unregister. intros [(c' & ch' & Hl & Hr)%H5 Hn].
    exists c', ch'. split; [done|]. rewrite Hother; [done|]. intros ->.
    pose proof (one_session _ _ _ Hc Hl); subst s. by apply Hn.
Qed.
End Calls.
End Registration.
