(* ===== verification/AgentSafety.v ===== *)
(** * Runs of the Agent gateway

    The invariant of every run of [AgentSystem]: each task is at a point of its program that
    the logic of [AgentLogic] allows, and the registrations are those of the live session
    tasks ([AgentRegistration]). *)

From stdpp Require Import prelude gmap strings.
From Stdlib Require Import Strings.Byte NArith ZArith.
From S2P Require Import Prelude.
From S2P Require Import External.
From S2P Require Import Credential.
From S2P Require Import Endpoint.
From S2P Require Import EnrollmentStore.
From S2P Require Import Job.
From S2P Require Import Transfer.
From S2P Require Import Runtime.
From S2P Require Import JobStore.
From S2P Require Import JobServices.
From S2P Require Import TransferAuth.
From S2P Require Import TransferStore.
From S2P Require Import TransferEvidence.
From S2P Require Import TrustedBootstrap.
From S2P Require Import Inventory.
From S2P Require Import WorkerSafety.
From S2P Require Import ServerHistory.
From S2P Require Import AgentProtocol.
From S2P Require Import OutboundSessions.
From S2P Require Import AgentGateway.
From S2P Require Import AgentSystem.
From S2P Require Import AgentLogic.
From S2P Require Import AgentFrames.
From S2P Require Import AgentRegistration.

(** ** Histories of tasks *)

Section Traces.
Context {js : JsonbInventory}.
Implicit Types (tr evs : list Event.t) (c : nat).

Definition call_of c (ev : Event.t) : option {call : GatewayCall.t & GatewayCall.answer call} :=
  match ev with
  | Event.Called c' call a => if decide (c' = c) then Some (existT call a) else None
  | _ => None
  end.
Definition task_history c tr : CallHistory := reverse (omap (call_of c) tr).

Lemma task_history_app c tr evs :
  task_history c (tr ++ evs) = task_history c evs ++ task_history c tr.
Proof. unfold task_history. by rewrite omap_app, reverse_app. Qed.
Lemma task_history_own c tr call a :
  task_history c (tr ++ [Event.Called c call a]) = enter call a (task_history c tr).
Proof. rewrite task_history_app. unfold task_history at 1. simpl. by rewrite decide_True. Qed.
Lemma task_history_other c c' tr call a :
  c' ≠ c → task_history c' (tr ++ [Event.Called c call a]) = task_history c' tr.
Proof.
  intros Hne. rewrite task_history_app. unfold task_history at 1. simpl.
  by rewrite decide_False by congruence.
Qed.

(** Events that are no calls. *)
Definition uncalled evs : Prop := ∀ c, task_history c evs = [].
Lemma task_history_uncalled c tr evs : uncalled evs → task_history c (tr ++ evs) = task_history c tr.
Proof. intros He. by rewrite task_history_app, He. Qed.
End Traces.

(** ** Tasks *)

Section Tasks.
Context {js : JsonbInventory} {ajson : AgentJson} {b64 : Base64} {sha : Sha256} {ed : Ed25519}
  {ent : Entropy} {chrono : ChronoRange} {disp : UuidDisplay} {uparse : UuidParse}
  {kind : UuidKind} {pg : PgTimestamp}.
Context (configured : GatewayService.t → bool).

Definition session_of (p : Phase.t) : option AuthenticatedSession :=
  match p with
  | Phase.Starting _ s _ | Phase.Looping _ s _ _ | Phase.Ending s _ _ => Some s
  | _ => None
  end.

(** A session was let in by its own handshake, and registers as itself. *)
Definition owned (h : CallHistory) (s : AuthenticatedSession) : Prop :=
  authentic h s ∧
  ∀ e i ch x, made h (GatewayCall.RegisterOutbound e i ch) x →
    e = as_endpoint_id s ∧ i = as_session_id s.

Lemma authentic_enter h s c a : authentic h s → authentic (enter c a h) s.
Proof.
  intros ((x & y & z & ?) & ? & m & ? & ?). split_and!.
  - exists x, y, z. by apply made_before.
  - by apply made_before.
  - exists m. split; [by apply made_before|done].
Qed.

(** What a registration leaves in the stage. *)
Lemma registered_channel h e i ch x :
  made h (GatewayCall.RegisterOutbound e i ch) x → is_Some (channel_of (stage h)).
Proof.
  unfold made. induction h as [|[c a] h IH]; [by intros ?%elem_of_nil|].
  intros [He|Hin]%elem_of_cons.
  - apply (f_equal projT1) in He. simpl in He. subst c. by eexists.
  - specialize (IH Hin). destruct IH as [ch' Hch]. destruct c; simpl; rewrite ?Hch; try (by eexists).
    all: destruct (stage h); try done; by eexists.
Qed.
Lemma outbound_registered h ch :
  outbound (stage h) = Some ch → ∃ e i x, made h (GatewayCall.RegisterOutbound e i ch) x.
Proof.
  induction h as [|[c a] h IH]; [done|]. simpl.
  assert (outbound (stage h) = Some ch →
    ∃ e i x, made (enter c a h) (GatewayCall.RegisterOutbound e i ch) x) as Hb.
  { intros (e & i & x & ?)%IH. exists e, i, x. by apply made_before. }
  destruct c; simpl; try done.
  - intros [= <-]. eexists _, _, a. apply made_now.
  - destruct (stage h); try done.
  - destruct (stage h); try done.
  - destruct (stage h); try done.
Qed.

Lemma owned_enter h s c a : in_session s h c → owned h s → owned (enter c a h) s.
Proof.
  intros [_ Hin] [Ha Ho]. split; [by apply authentic_enter|]. intros e i ch x.
  intros [He|Hm]%elem_of_cons; [|by eapply Ho].
  apply (f_equal projT1) in He. simpl in He. subst c. by destruct Hin.
Qed.
Lemma owned_fresh h s : stage h = Stage.Fresh → authentic h s → owned h s.
Proof.
  intros Hf Ha. split; [done|]. intros e i ch x [? Hs]%registered_channel. by rewrite Hf in Hs.
Qed.

(** [gone] says that the task was aborted. *)
Definition task_ok (h : CallHistory) (gone : Prop) (p : Phase.t) : Prop :=
  match p with
  | Phase.Handshaking _ p => gwp shaking h p (λ h' r, stage h' = Stage.Fresh ∧
      ∀ s, r = Some (Ok (HandshakeOutcome.Established s)) → authentic h' s)
  | Phase.Starting _ s p =>
      owned h s ∧ gwp (in_session s) h p (λ h' ch, stage h' = Stage.Present ch)
  | Phase.Looping _ s ch p =>
      owned h s ∧ gwp (in_loop s ch) h p (λ h' _, stage h' = Stage.Present ch)
  | Phase.Ending s ch p =>
      owned h s ∧ gwp (in_end s ch) h p
        (λ h' _, stage h' = Stage.Closed ch ∧ (gone ∨ left_properly configured s h'))
  | Phase.Sending p => gwp sending h p (λ _ _, True)
  end.

(** What a task may call at a point of its history. *)
Definition may_call (p : Phase.t) h (c : GatewayCall.t) : Prop :=
  match p with
  | Phase.Handshaking _ _ => shaking h c
  | Phase.Starting _ s _ | Phase.Ending s _ _ | Phase.Looping _ s _ _ => in_session s h c
  | Phase.Sending _ => sending h c
  end.

Lemma task_call h gone p :
  task_ok h gone p →
  match next_call p with
  | Some (existT c k) =>
      may_call p h c ∧ ∀ a, task_ok (enter c a h) gone (k a) ∧ session_of (k a) = session_of p
  | None => True
  end.
Proof.
  destruct p as [fp q|fp s q|fp s ch q|s ch q|q]; destruct q as [|c k]; try done.
  - intros [Hc Hk]. split; [exact Hc|]. intros a. split; [exact (Hk a)|done].
  - intros [Ha [Hc Hk]]. split; [exact Hc|]. intros a.
    split; [split; [by apply owned_enter|exact (Hk a)]|done].
  - intros [Ha [Hc Hk]]. apply in_loop_session in Hc. split; [done|]. intros a.
    split; [split; [by apply owned_enter|exact (Hk a)]|done].
  - intros [Ha [[_ Hc] Hk]]. split; [done|]. intros a.
    split; [split; [by apply owned_enter|exact (Hk a)]|done].
  - intros [Hc Hk]. split; [exact Hc|]. intros a. split; [exact (Hk a)|done].
Qed.

Lemma task_gone h (gone gone' : Prop) p : (gone → gone') → task_ok h gone p → task_ok h gone' p.
Proof.
  intros Hg. destruct p; try done. intros [Ha Hp]. split; [done|]. revert Hp. apply gwp_mono.
  intros h' _ [? Hl]. split; [done|]. destruct Hl; auto.
Qed.

Lemma task_owned h gone p s : task_ok h gone p → session_of p = Some s → owned h s.
Proof. destruct p; try done; intros [Ha _] [= <-]; exact Ha. Qed.

(** A task whose program is done goes on. *)
Lemma task_settle h gone p p' :
  task_ok h gone p → settle_task configured p = Some p' →
  task_ok h gone p' ∧
  (session_of p' = session_of p ∨
   session_of p = None ∧ stage h = Stage.Fresh ∧ ∃ s, session_of p' = Some s ∧ authentic h s).
Proof.
  destruct p as [fp [r|c k]|fp s [ch|c k]|fp s ch [r|c k]|s ch [r|c k]|[r|c k]]; cbn [settle_task];
    intros Hp; try (intros [= <-]; by auto).
  - destruct Hp as [Hf Ha]. destruct r as [[[s|]|]|]; try done.
    + case_match; [|done]. intros [= <-]. specialize (Ha s eq_refl).
      split; [split; [by apply owned_fresh|by apply start_session_ok]|]. right. by eauto.
    + intros [= <-]. split; [|by left]. eapply gwp_mono; [|apply handshake_ok].
      intros h' r [Hst Hs]. split; [congruence|done].
  - destruct Hp as [Ha Hp]. intros [= <-]. split; [|by left]. split; [done|]. by apply turn_ok.
  - destruct Hp as [Ha Hp]. destruct r; intros [= <-]; (split; [|by left]); split; try done.
    + eapply gwp_mono; [|by apply end_session_ok]. intros h' ? [? ?]. by auto.
    + by apply turn_ok.
Qed.

(** A session task that has ended closed its channel, and left properly unless aborted. *)
Lemma task_ended h gone p s :
  task_ok h gone p → settle_task configured p = None → session_of p = Some s →
  ∃ ch, stage h = Stage.Closed ch ∧ (gone ∨ left_properly configured s h).
Proof.
  destruct p as [fp [r|c k]|fp s' [ch|c k]|fp s' ch [[r|]|c k]|s' ch [r|c k]|[r|c k]]; try done.
  intros [_ [? ?]] _ [= <-]. by exists ch.
Qed.

Lemma task_abort h gone gone' p s ch c k :
  (∃ fp q, p = Phase.Looping fp s ch q) ∨ (∃ q, p = Phase.Ending s ch q) →
  task_ok h gone p → next_call p = Some (existT c k) → gone' →
  task_ok h gone' (Phase.Ending s ch (drop_session s ch)).
Proof.
  intros Hp Hok Hn Hg. assert (owned h s ∧ leaving ch h) as [Ha Hl].
  { destruct Hp as [(fp & q & ->)|[q ->]]; destruct q as [|c' k']; try done; destruct Hok as [? [Hc _]].
    - split; [done|]. left. by destruct Hc.
    - split; [done|]. by destruct Hc. }
  split; [done|]. eapply gwp_mono; [|by apply drop_session_ok]. intros h' _ [? _]. by auto.
Qed.
End Tasks.

(** ** The invariant *)

(** The identity a call drew, and the channel it opened. *)
Definition drawn_id {js : JsonbInventory} (c : GatewayCall.t) : GatewayCall.answer c → option ProtocolId :=
  match c with GatewayCall.GenerateId => Some | _ => λ _, None end.
Definition opened {js : JsonbInventory} (c : GatewayCall.t) : GatewayCall.answer c → option nat :=
  match c with GatewayCall.OpenChannel => Some | _ => λ _, None end.

Lemma generated_enter {js : JsonbInventory} h c a i :
  generated (enter c a h) i ↔ drawn_id c a = Some i ∨ generated h i.
Proof.
  unfold generated, made, enter. rewrite elem_of_cons.
  split; (intros [He|?]; [left|by right]).
  - apply (f_equal (λ x : {c & GatewayCall.answer c}, drawn_id (projT1 x) (projT2 x))) in He.
    by symmetry.
  - destruct c; try done. by injection He as ->.
Qed.

Lemma may_call_channel {js : JsonbInventory} p h c a :
  may_call p h c →
  channel_of (stage (enter c a h)) = opened c a ∨
  opened c a = None ∧ channel_of (stage (enter c a h)) = channel_of (stage h).
Proof.
  assert (∀ s, in_session s h c → channel_of (stage (enter c a h)) = opened c a ∨
    opened c a = None ∧ channel_of (stage (enter c a h)) = channel_of (stage h)) as Hs.
  { intros s [_ Hc]. destruct c; try (by right); try (by left); right; (split; [done|]); simpl in *.
    - by rewrite Hc.
    - by destruct Hc as [_ ->].
    - by destruct (stage h).
    - by destruct (stage h).
    - by destruct (stage h). }
  destruct p; simpl; try apply Hs; destruct c; try done; by right.
Qed.

Section Runs.
Context {js : JsonbInventory} {ajson : AgentJson} {b64 : Base64} {sha : Sha256} {ed : Ed25519}
  {ent : Entropy} {chrono : ChronoRange} {disp : UuidDisplay} {uparse : UuidParse}
  {kind : UuidKind} {pg : PgTimestamp}.
Context (configured : GatewayService.t → bool) (runtime_ttl : Duration)
  (accepted_site_keys : AcceptedSiteKeys) (capability_ttl : Duration) (base_url : str).
Implicit Types (w : GatewayWorld) (tr evs : list Event.t) (c : nat).

Definition live w c (s : AuthenticatedSession) : Prop :=
  ∃ p, gw_tasks w !! c = Some p ∧ session_of p = Some s.
Definition stages tr c : Stage.t := stage (task_history c tr).

Record gateway_ok tr w (k : nat) : Prop := {
  go_tasks c p : gw_tasks w !! c = Some p →
    c < gw_next w ∧ task_ok configured (task_history c tr) (Event.Aborted c ∈ tr) p;
  go_fresh c p : gw_tasks w !! c = Some p → session_of p = None → stages tr c = Stage.Fresh;
  go_unborn c : gw_next w ≤ c → task_history c tr = [];
  go_ids c c' i : generated (task_history c tr) i → generated (task_history c' tr) i → c = c';
  go_drawn c i : generated (task_history c tr) i → ∃ j, j < k ∧ i = draw_uuid j;
  go_channel c c' ch :
    channel_of (stages tr c) = Some ch → channel_of (stages tr c') = Some ch → c = c';
  go_below c ch : channel_of (stages tr c) = Some ch → ch < gw_next w;
  go_registered : registered (stages tr) (live w) w;
}.

Lemma live_owned tr w k c s :
  gateway_ok tr w k → live w c s → owned (task_history c tr) s.
Proof.
  intros Hok (p & Hp & Hs). eapply task_owned; [|exact Hs]. by apply (go_tasks _ _ _ Hok).
Qed.
Lemma live_one w c s s' : live w c s → live w c s' → s = s'.
Proof. intros (p & Hp & Hs) (p' & Hp' & Hs'). congruence. Qed.
Lemma live_own tr w k c c' s s' :
  gateway_ok tr w k → live w c s → live w c' s' → as_session_id s = as_session_id s' → c = c'.
Proof.
  intros Hok [(_ & Hg & _) _]%(live_owned _ _ _ _ _ Hok) [(_ & Hg' & _) _]%(live_owned _ _ _ _ _ Hok) He.
  apply (go_ids _ _ _ Hok _ _ (as_session_id s)); [done|]. by rewrite He.
Qed.

Lemma gateway_events tr w k evs : uncalled evs → gateway_ok tr w k → gateway_ok (tr ++ evs) w k.
Proof.
  intros He [H1 H0 H2 H3 H4 H5 H6 H7].
  assert (∀ c, task_history c (tr ++ evs) = task_history c tr) as Hh
    by (intros; by apply task_history_uncalled).
  assert (∀ c, stages (tr ++ evs) c = stages tr c) as Hst by (intros; unfold stages; by rewrite Hh).
  split; try (intros *; rewrite ?Hh, ?Hst; by eauto).
  - intros c p [? Ht]%H1. rewrite Hh. split; [done|]. eapply task_gone; [|exact Ht]. rewrite elem_of_app. by left.
  - eapply registered_same; [| | | | | |exact H7]; done.
Qed.

(** ** Steps that call nothing *)

Lemma gateway_frame tr w w' k k' :
  same_view w w' → k ≤ k' → gateway_ok tr w k → gateway_ok tr w' k'.
Proof.
  intros [S1 S2 S3 S4 S5 S6] Hk [H1 H0 H2 H3 H4 H5 H6 H7]. split; try done.
  - intros c p. rewrite S5. intros [? ?]%H1. split; [lia|done].
  - intros c p. rewrite S5. apply H0.
  - intros c Hc. apply H2. lia.
  - intros c i (j & ? & ?)%H4. exists j. split; [lia|done].
  - intros c ch ?%H6. lia.
  - eapply registered_same; [| | | | | |exact H7]; try done.
    intros c s. unfold live. by rewrite S5.
Qed.

Lemma gateway_spawn tr w k p :
  gateway_ok tr w k → session_of p = None → (∀ gone, task_ok configured [] gone p) →
  gateway_ok tr (spawn w p) k.
Proof.
  intros [H1 H0 H2 H3 H4 H5 H6 H7] Hs Hp. split; try done; simpl.
  - intros c q. rewrite lookup_insert. case_decide as Hc.
    + intros [= <-]. subst c. split; [lia|]. by rewrite H2.
    + intros [? ?]%H1. split; [lia|done].
  - intros c q. rewrite lookup_insert. case_decide; [subst c|by apply H0]. intros _ _.
    unfold stages. by rewrite H2.
  - intros c Hc. apply H2. lia.
  - intros c ch ?%H6. lia.
  - eapply registered_same; [| | | | | |exact H7]; try done.
    intros c s. unfold live. simpl. rewrite lookup_insert. case_decide; [|done]. subst c.
    split; [intros (q & [= <-] & ?); congruence|].
    intros (q & Hq & _). apply H1 in Hq as [? _]. lia.
Qed.

(** A task that holds nothing is replaced or removed. *)
Lemma gateway_replace tr w k c p (q : option Phase.t) :
  gateway_ok tr w k → gw_tasks w !! c = Some p →
  (∀ q', q = Some q' → task_ok configured (task_history c tr) (Event.Aborted c ∈ tr) q') →
  (q ≫= session_of = session_of p ∨ receiving (stages tr c) = None) →
  (∀ q', q = Some q' → session_of q' = None → session_of p = None) →
  gateway_ok tr (gw_with_tasks w (match q with Some q => <[c := q]> (gw_tasks w)
                                             | None => delete c (gw_tasks w) end) (gw_next w)) k.
Proof.
  intros [H1 H0 H2 H3 H4 H5 H6 H7] Hc Hq Hs Ha.
  assert (∀ c', match q with Some q => <[c := q]> (gw_tasks w)
                           | None => delete c (gw_tasks w) end !! c' =
                if decide (c' = c) then q else gw_tasks w !! c') as Hl.
  { intros c'. destruct q; [rewrite lookup_insert|rewrite lookup_delete];
      repeat case_decide; congruence. }
  split; try done; simpl.
  - intros c' q'. rewrite Hl. case_decide; [subst c'|by apply H1]. intros ->.
    split; [by eapply H1|by apply Hq].
  - intros c' q'. rewrite Hl. case_decide; [subst c'|by apply H0]. intros ->. by eauto.
  - assert (registered (stages tr) (λ c' s, if decide (c' = c) then q ≫= session_of = Some s
                                            else live w c' s) w) as Hr.
    { eapply registered_idle; [| |exact H7]; intros c' s.
      - intros Hlive. case_decide; [subst c'|by left]. destruct Hs as [->|]; [left|by right].
        destruct Hlive as (? & ? & ?). congruence.
      - case_decide; [subst c'|by left]. destruct Hs as [->|]; [left|by right]. by exists p. }
    eapply registered_same; [| | | | | |exact Hr]; try done.
    intros c' s. unfold live. simpl. setoid_rewrite Hl. case_decide; [|done].
    destruct q as [q|]; simpl; split; try (by intros (? & ? & ?)); try done.
    + intros (? & [= <-] & ?). done.
    + intros ?. by exists q.
Qed.

(** ** Calls *)

Lemma stages_own tr c call a :
  stages (tr ++ [Event.Called c call a]) c = advance_stage call (stages tr c) a.
Proof. unfold stages. by rewrite task_history_own. Qed.
Lemma stages_other tr c c' call a :
  c' ≠ c → stages (tr ++ [Event.Called c call a]) c' = stages tr c'.
Proof. intros ?. unfold stages. by rewrite task_history_other. Qed.

(** The calls that register nothing. *)
Lemma plain_stage call st (a : GatewayCall.answer call) :
  registers call = false → advance_stage call st a = st.
Proof. by destruct call. Qed.

Definition with_task w c (p : Phase.t) : GatewayWorld :=
  gw_with_tasks w (<[c := p]> (gw_tasks w)) (gw_next w).

Lemma gateway_call tr w w1 k k1 c p call (a : GatewayCall.answer call) q :
  gateway_ok tr w k → fresh_draws 0 k1 → gw_tasks w !! c = Some p → may_call p (task_history c tr) call →
  task_ok configured (enter call a (task_history c tr)) (Event.Aborted c ∈ tr) q →
  session_of q = session_of p →
  gw_tasks w1 = gw_tasks w → gw_next w ≤ gw_next w1 → k ≤ k1 →
  (∀ i, drawn_id call a = Some i → i = draw_uuid k ∧ k < k1) →
  (∀ ch, opened call a = Some ch → gw_next w ≤ ch ∧ ch < gw_next w1) →
  registered (stages (tr ++ [Event.Called c call a])) (live w) w1 →
  gateway_ok (tr ++ [Event.Called c call a]) (with_task w1 c q) k1.
Proof.
  intros [H1 H0 H2 H3 H4 H5 H6 _] Hf Hc Hm Hq Hs Ht Hn Hk Hid Hop Hr.
  assert (∀ c' i, generated (task_history c' (tr ++ [Event.Called c call a])) i →
    generated (task_history c' tr) i ∨ c' = c ∧ drawn_id call a = Some i) as Hgen.
  { intros c' i. destruct (decide (c' = c)) as [->|Hne]; [|rewrite task_history_other by done; by left].
    rewrite task_history_own, generated_enter. naive_solver. }
  assert (∀ c' i, generated (task_history c' tr) i → drawn_id call a = Some i → False) as Hnew.
  { intros c' i (j & Hj & ->)%H4 [Hd ?]%Hid. apply (fresh_draws_inj k1) in Hd; [lia|done|lia|lia]. }
  assert (∀ c' ch, channel_of (stages (tr ++ [Event.Called c call a]) c') = Some ch →
    channel_of (stages tr c') = Some ch ∨ c' = c ∧ opened call a = Some ch) as Hch.
  { intros c' ch. destruct (decide (c' = c)) as [->|Hne]; [|rewrite stages_other by done; by left].
    unfold stages. rewrite task_history_own.
    destruct (may_call_channel p _ call a Hm) as [->|[_ ->]]; auto. }
  split; simpl.
  - intros c' q'. rewrite lookup_insert. case_decide as He.
    + intros [= <-]. subst c'. rewrite task_history_own. split; [apply H1 in Hc; lia|].
      eapply task_gone; [|exact Hq]. rewrite elem_of_app. by left.
    + rewrite Ht. intros [? Hok]%H1. rewrite task_history_other by done. split; [lia|].
      eapply task_gone; [|exact Hok]. rewrite elem_of_app. by left.
  - intros c' q'. rewrite lookup_insert. case_decide as He.
    + intros [= <-]. subst c'. rewrite Hs, stages_own. intros Hnone.
      rewrite plain_stage; [by eapply H0|]. destruct p; try done; by destruct call.
    + rewrite Ht, stages_other by done. apply H0.
  - intros c' Hc'. rewrite task_history_other; [apply H2; lia|]. intros ->. apply H1 in Hc. lia.
  - intros c1 c2 i [G1|[-> G1]]%Hgen [G2|[-> G2]]%Hgen; [by eauto|by exfalso; eauto..|done].
  - intros c' i [(j & ? & ?)%H4|[-> Hd]]%Hgen; [exists j; split; [lia|done]|].
    apply Hid in Hd as [-> ?]. by exists k.
  - intros c1 c2 ch [G1|[-> G1]]%Hch [G2|[-> G2]]%Hch; [by eauto| | |done].
    + apply H6 in G1. apply Hop in G2. lia.
    + apply H6 in G2. apply Hop in G1. lia.
  - intros c' ch [G%H6|[-> G%Hop]]%Hch; lia.
  - eapply registered_same; [| | | | | |exact Hr]; try done.
    intros c' s. unfold live. simpl. rewrite lookup_insert, Ht. case_decide; [subst c'|done].
    rewrite Hc. split; intros (? & [= <-] & ?); (eexists; split; [done|congruence]).
Qed.

#[local] Abbreviation exec := (exec runtime_ttl accepted_site_keys capability_ttl base_url).

Lemma exec_drawn w e call run k w1 a k1 :
  exec w e call = Some run → run k = ((w1, a), k1) →
  ∀ i, drawn_id call a = Some i → i = draw_uuid k ∧ k < k1.
Proof.
  destruct call; try done. cbn [AgentSystem.exec]. intros [= <-] [= <- <- <-] i [= <-].
  split; [done|lia].
Qed.

Lemma plain_registered tr w w1 k c call (a : GatewayCall.answer call) :
  gateway_ok tr w k → registers call = false → same_view w w1 →
  registered (stages (tr ++ [Event.Called c call a])) (live w) w1.
Proof.
  intros Hok Hr [S1 S2 S3 S4 S5 S6]. eapply registered_same; [| | | | | |by apply Hok]; try done.
  intros c'. destruct (decide (c' = c)) as [->|]; [|by apply stages_other].
  rewrite stages_own. by apply plain_stage.
Qed.

(** The calls that do, but for the spawning of a task. *)
Lemma exec_registered tr w k c p s call e run w1 a k1 :
  gateway_ok tr w k → gw_tasks w !! c = Some p → session_of p = Some s →
  in_session s (task_history c tr) call → registers call = true →
  (∀ ep, call ≠ GatewayCall.SpawnReconcile ep) →
  exec w e call = Some run → run k = ((w1, a), k1) →
  registered (stages (tr ++ [Event.Called c call a])) (live w) w1 ∧ gw_tasks w1 = gw_tasks w ∧
  gw_next w ≤ gw_next w1 ∧ (∀ ch, opened call a = Some ch → gw_next w ≤ ch ∧ ch < gw_next w1).
Proof.
  intros Hok Hc Hs [_ Hin] Hr Hns. pose proof (stages_own tr c call a) as Hown.
  assert (live w c s) as Hl by by exists p.
  assert (∀ c', c' ≠ c → stages (tr ++ [Event.Called c call a]) c' = stages tr c') as Hother
    by (intros; by apply stages_other).
  pose proof (go_registered _ _ _ Hok) as Hreg. pose proof (live_one w) as H1.
  pose proof (λ c c' s s', live_own _ _ _ c c' s s' Hok) as H2. pose proof (go_channel _ _ _ Hok) as H3.
  fold (stages tr c) in Hin.
  destruct call; try done; try (by destruct (Hns _ eq_refl));
    cbn [AgentSystem.exec]; intros [= <-] [= <- <- <-]; simpl in Hin, Hown;
    unfold stages in Hin, Hown; fold (stages tr c) in Hin; fold (stages tr c) in Hown;
    repeat match goal with H : _ ∧ _ |- _ => destruct H end; subst;
    (split; [|split_and!; try done; try (by intros ? [= <-]; simpl; lia)]).
  all: try (simpl; lia).
  - eapply (registered_open (stages tr)); try done.
  - eapply (registered_close (stages tr)); try done.
  - eapply (registered_outbound (stages tr)); try done.
  - match goal with H : ∃ ch, _ |- _ => destruct H as [ch Hin] end.
    eapply (registered_no_outbound (stages tr)); try done.
    etransitivity; [exact Hown|]. by destruct Hin as [-> | ->].
  - match goal with H : ∃ ch, _ |- _ => destruct H as [ch Hin] end.
    eapply (registered_presence (stages tr)); try done.
    etransitivity; [exact Hown|]. by rewrite Hin.
  - match goal with H : ∃ ch, _ |- _ => destruct H as [ch Hin] end.
    destruct Hin as [Hp|[Hp|Hp]]; rewrite Hp in Hown;
      apply (registered_no_presence (stages tr) _ _ _ c s Hl Hreg Hother H1 H2 (stages tr c));
      rewrite Hp; [right|left..]; [by exists ch|by split_and!..].
Qed.

(** ** Steps of tasks *)

#[local] Abbreviation run_task :=
  (run_task configured runtime_ttl accepted_site_keys capability_ttl base_url).

Lemma put_task_ok tr w k c p :
  gateway_ok tr w k → gw_tasks w !! c = Some p →
  gateway_ok (tr ++ (put_task configured w c p).2) (put_task configured w c p).1 k.
Proof.
  intros Hok Hc. destruct (go_tasks _ _ _ Hok _ _ Hc) as [_ Ht]. unfold put_task.
  destruct (settle_task configured p) as [p'|] eqn:Hp; simpl.
  - rewrite app_nil_r. destruct (task_settle _ _ _ _ _ Ht Hp) as [Ht' Hs].
    apply (gateway_replace tr w k c p (Some p')); try done.
    + by intros ? [= <-].
    + destruct Hs as [?|(_ & Hf & _)]; [by left|right]. unfold stages. by rewrite Hf.
    + intros ? [= <-] Hnone. destruct Hs as [<-|(? & _)]; done.
  - apply gateway_events; [done|]. apply (gateway_replace tr w k c p None); try done.
    destruct (session_of p) as [s|] eqn:Hs; [right|by left].
    destruct (task_ended _ _ _ _ _ Ht Hp Hs) as (ch & Hcl & _). unfold stages. by rewrite Hcl.
Qed.

Lemma with_task_put w c q p :
  put_task configured (with_task w c q) c p = put_task configured w c p.
Proof.
  unfold put_task, with_task, gw_with_tasks. simpl.
  case_match; [by rewrite insert_insert_eq|by rewrite delete_insert_eq].
Qed.

Lemma reconcile_task_ok e gone :
  task_ok configured [] gone (Phase.Sending (_ ← reconcile_on_session_start e; mret ())).
Proof. apply gwp_bind. eapply gwp_mono; [|apply session_start_ok]. done. Qed.

Lemma call_ok tr w k c p call κ e run w1 a k1 :
  gateway_ok tr w k → fresh_draws 0 k1 → gw_tasks w !! c = Some p →
  next_call p = Some (existT call κ) → exec w e call = Some run → run k = ((w1, a), k1) →
  gateway_ok (tr ++ [Event.Called c call a]) (with_task w1 c (κ a)) k1.
Proof.
  intros Hok Hf Hc Hn He Hrun. destruct (go_tasks _ _ _ Hok _ _ Hc) as [Hlt Ht].
  apply task_call in Ht. rewrite Hn in Ht. destruct Ht as [Hm Hk]. destruct (Hk a) as [Hq Hs].
  assert (k ≤ k1) as Hkk. { pose proof (exec_draws _ _ _ _ _ _ _ _ He k) as H. by rewrite Hrun in H. }
  pose proof (exec_drawn _ _ _ _ _ _ _ _ He Hrun) as Hid.
  destruct (registers call) eqn:Hr.
  - destruct (session_of p) as [s|] eqn:Hsp; [|destruct p; try done; by destruct call].
    assert (in_session s (task_history c tr) call) as Hin by (destruct p; simplify_eq/=; done).
    destruct (match call with GatewayCall.SpawnReconcile _ => true | _ => false end) eqn:Hsr.
    + destruct call; try done. revert Hrun. cbn [AgentSystem.exec] in He. revert He.
      intros [= <-] [= <- <- <-].
      assert (gateway_ok (tr ++ [Event.Called c (GatewayCall.SpawnReconcile endpoint_id) ()])
                (with_task w c (κ ())) k) as H1.
      { eapply gateway_call; try done; [by rewrite Hsp|].
        eapply registered_same; [| | | | | |by apply Hok]; try done. intros c'.
        destruct (decide (c' = c)) as [->|]; [by rewrite stages_own|by apply stages_other]. }
      apply (gateway_spawn _ _ _ (Phase.Sending (_ ← reconcile_on_session_start endpoint_id; mret ())))
        in H1; [|done|apply reconcile_task_ok].
      unfold spawn, with_task, gw_with_tasks in *. simpl in *. rewrite insert_insert_ne by lia. done.
    + destruct (exec_registered tr w k c p s call e run w1 a k1) as (H1 & H2 & H3 & H4); try done.
      { intros ep ->. done. }
      eapply gateway_call; try done. by rewrite Hsp.
  - pose proof (exec_view _ _ _ _ w e call run Hr He k) as Hv. rewrite Hrun in Hv. simpl in Hv.
    eapply gateway_call; try done; [by apply sv_tasks|by apply sv_next| |by eapply plain_registered].
    by destruct call.
Qed.

Lemma run_task_ok tr w k c p e w' evs k' :
  gateway_ok tr w k → fresh_draws 0 k' → gw_tasks w !! c = Some p →
  run_task w c e p k = ((w', evs), k') → gateway_ok (tr ++ evs) w' k'.
Proof.
  intros Hok Hf Hc. unfold AgentSystem.run_task.
  destruct (next_call p) as [[call κ]|] eqn:Hn.
  - destruct (exec w e call) as [run|] eqn:He.
    + unfold mbind, gen_bind, mret, gen_ret. destruct (run k) as [[w1 a] k1] eqn:Hr. simpl.
      destruct (put_task configured w1 c (κ a)) as [w2 ended] eqn:Hp. intros [= <- <- <-].
      pose proof (call_ok _ _ _ _ _ _ _ _ _ _ _ _ Hok Hf Hc Hn He Hr) as H1.
      apply (put_task_ok _ _ _ c (κ a)) in H1; [|by simpl; rewrite lookup_insert_eq].
      rewrite with_task_put, Hp, <-app_assoc in H1. exact H1.
    + intros [= <- <- <-]. by rewrite app_nil_r.
  - pose proof (put_task_ok _ _ _ _ _ Hok Hc) as H1. unfold mret, gen_ret.
    destruct (put_task configured w c p) as [w1 ended]. by intros [= <- <- <-].
Qed.

Lemma abort_ok tr w k c p :
  gateway_ok tr w k → gw_tasks w !! c = Some p →
  gateway_ok (tr ++ (abort w c p).2) (abort w c p).1 k.
Proof.
  intros Hok Hc. destruct (go_tasks _ _ _ Hok _ _ Hc) as [_ Ht]. unfold abort.
  assert (gateway_ok (tr ++ []) w k) as Hstay by by rewrite app_nil_r.
  destruct (next_call p) as [[call κ]|] eqn:Hn; [|done]. destruct (awaits call); [|done].
  assert (∀ s ch, (∃ fp q, p = Phase.Looping fp s ch q) ∨ (∃ q, p = Phase.Ending s ch q) →
    gateway_ok (tr ++ [Event.Aborted c])
      (gw_with_tasks w (<[c := Phase.Ending s ch (drop_session s ch)]> (gw_tasks w)) (gw_next w)) k)
    as Hdrop.
  { intros s ch Hp. apply (gateway_replace (tr ++ [Event.Aborted c]) w k c p
      (Some (Phase.Ending s ch (drop_session s ch)))); [by apply gateway_events|done|..].
    - intros ? [= <-]. rewrite task_history_uncalled by done.
      eapply task_abort; [exact Hp|exact Ht|exact Hn|]. apply elem_of_app. right. by left.
    - left. by destruct Hp as [(? & ? & ->)|[? ->]].
    - by intros ? [= <-]. }
  destruct p; simpl; try done.
  - apply gateway_events; [done|]. apply (gateway_replace tr w k c _ None Hok Hc); [done|by left|done].
  - apply Hdrop. left. by eauto.
  - apply Hdrop. right. by eauto.
  - apply gateway_events; [done|]. apply (gateway_replace tr w k c _ None Hok Hc); [done|by left|done].
Qed.

(** ** Runs *)

#[local] Abbreviation gateway_step :=
  (gateway_step configured runtime_ttl accepted_site_keys capability_ttl base_url).
#[local] Abbreviation gateway_run :=
  (gateway_run configured runtime_ttl accepted_site_keys capability_ttl base_url).

Lemma restart_ok_gateway tr w k k' tw :
  gateway_ok tr w k → k ≤ k' → w_presence (tw_world tw) = ∅ →
  gateway_ok (tr ++ [Event.Restarted]) {| gw_enrollment := gw_enrollment w; gw_transfer := tw;
          gw_directory := OutboundSessionDirectory_new; gw_channels := ∅; gw_acks := ∅;
          gw_tasks := ∅; gw_next := gw_next w |} k'.
Proof.
  intros [H1 H0 H2 H3 H4 H5 H6 H7] Hk Hp. apply gateway_events; [done|]. split; try done; simpl.
  - intros c i (j & ? & ?)%H4. exists j. split; [lia|done].
  - split; simpl.
    + by intros c s ch (? & ? & _).
    + by intros c s ch (? & ? & _).
    + by intros c s ch (? & ? & _).
    + by intros e i ?%elem_of_nil.
    + intros e i. rewrite Hp. by intros ?%not_elem_of_empty.
Qed.

Lemma sender_ok {A} (p : gproc A) gone :
  gwp sending [] p (λ _ _, True) → task_ok configured [] gone (Phase.Sending (_ ← p; mret ())).
Proof. intros Hp. apply gwp_bind. eapply gwp_mono; [|exact Hp]. done. Qed.

Lemma gateway_step_draws w st : forward (gateway_step w st).
Proof.
  destruct st; cbn [AgentSystem.gateway_step]; try apply forward_ret.
  - destruct (gw_tasks w !! c) as [p|]; [|apply forward_ret]. unfold AgentSystem.run_task.
    destruct (next_call p) as [[call κ]|]; [|apply forward_ret].
    destruct (exec w e call) as [run|] eqn:He; [|apply forward_ret].
    apply forward_bind; [by eapply exec_draws|]. intros r. case_match. apply forward_ret.
  - apply forward_bind; [apply enrollment_draws|]. intros db. apply forward_bind; [|intros; apply forward_ret].
    unfold sync. apply forward_bind; [apply forward_transfer_op|intros; apply forward_ret].
  - case_match; [|apply forward_ret]. apply forward_bind; [apply forward_transfer_op|].
    intros tw. case_match. apply forward_ret.
Qed.

Lemma gateway_step_ok tr w k st w' evs k' :
  gateway_ok tr w k → fresh_draws 0 k' → gateway_step w st k = ((w', evs), k') →
  gateway_ok (tr ++ evs) w' k'.
Proof.
  intros Hok Hf Hstep. pose proof (gateway_step_draws w st k) as Hk. rewrite Hstep in Hk. simpl in Hk.
  revert Hstep. destruct st; cbn [AgentSystem.gateway_step]; unfold mret, gen_ret.
  - intros [= <- <- <-]. rewrite app_nil_r. apply gateway_spawn; [done..|]. intros gone.
    eapply gwp_mono; [|apply handshake_ok]. intros h' r [-> ?]. done.
  - destruct (gw_tasks w !! c) as [p|] eqn:Hc; [by apply run_task_ok|].
    intros [= <- <- <-]. by rewrite app_nil_r.
  - destruct (gw_tasks w !! c) as [p|] eqn:Hc.
    + pose proof (abort_ok _ _ _ _ _ Hok Hc) as H. destruct (abort w c p). by intros [= <- <- <-].
    + intros [= <- <- <-]. by rewrite app_nil_r.
  - intros [= <- <- <-]. rewrite app_nil_r. apply gateway_spawn; [done..|]. intros gone.
    apply sender_ok. destruct transfer; apply dispatch_message_ok.
  - intros [= <- <- <-]. rewrite app_nil_r. apply gateway_spawn; [done..|]. intros gone.
    apply (sender_ok (transmit_cancel endpoint_id action_id)), transmit_cancel_ok.
  - unfold mbind, gen_bind. destruct (run_op _ _ k) as [db k1].
    pose proof (sync_view w (with_enroll (gw_enrollment w) db) k1) as Hv.
    destruct (sync w _ k1) as [w1 k2]. intros [= <- <- <-]. rewrite app_nil_r.
    by apply (gateway_frame _ w _ k).
  - destruct (other_op o) eqn:Ho; [|intros [= <- <- <-]; by rewrite app_nil_r].
    unfold mbind, gen_bind.
    pose proof (transfer_op_presence (gw_transfer w) o (or_introl Ho) k) as Hp.
    destruct (run_transfer_op _ o k) as [tw k1]. simpl in Hp.
    destruct (restarted_gateway w o) as [w1 events] eqn:Hr. intros [= <- <- <-].
    assert ((∃ capacities, o = TransferOp.Job (JobOp.Restart capacities)) ∨
      w_presence (tw_world tw) = w_presence (tw_world (gw_transfer w)) ∧ w1 = w ∧ events = [])
      as [[capacities ->]|(Hp' & -> & ->)].
    { destruct o as [[]| | | | | | | | | | | | | | | | |]; simplify_eq/=; eauto. }
    + injection Hr as <- <-. exact (restart_ok_gateway tr w k _ tw Hok Hk Hp).
    + rewrite app_nil_r. apply (gateway_frame _ w _ k); [by apply same_view_transfer|done..].
Qed.

Lemma gateway_run_draws w sts : forward (gateway_run w sts).
Proof.
  revert w. induction sts as [|st rest IH]; intros w; [apply forward_ret|]. simpl.
  apply forward_bind; [apply gateway_step_draws|]. intros r.
  apply forward_bind; [apply IH|]. intros r'. apply forward_ret.
Qed.

Lemma gateway_run_ok tr w k sts w' evs k' :
  gateway_ok tr w k → fresh_draws 0 k' → gateway_run w sts k = ((w', evs), k') →
  gateway_ok (tr ++ evs) w' k' ∧ k ≤ k'.
Proof.
  revert tr w k evs. induction sts as [|st rest IH]; intros tr w k evs Hok Hf; simpl.
  - intros [= <- <- <-]. by rewrite app_nil_r.
  - unfold mbind, gen_bind, mret, gen_ret. destruct (gateway_step w st k) as [[w1 ev1] k1] eqn:H1.
    simpl. destruct (gateway_run w1 rest k1) as [[w2 ev2] k2] eqn:H2. intros [= <- <- <-].
    assert (k ≤ k1 ∧ k1 ≤ k2) as [Hk1 Hk2].
    { split; [pose proof (gateway_step_draws w st k) as H; by rewrite H1 in H|].
      pose proof (gateway_run_draws w1 rest k1) as H. by rewrite H2 in H. }
    rewrite app_assoc. destruct (IH _ _ _ _ (gateway_step_ok _ _ _ _ _ _ _ Hok
      (fresh_draws_mono _ _ Hk2 Hf) H1) Hf H2) as [? ?]. split; [done|lia].
Qed.

Lemma empty_gateway_ok tw : w_presence (tw_world tw) = ∅ → gateway_ok [] (empty_gateway tw) 0.
Proof.
  intros Hp. split; try done.
  - by intros c c' i ?%elem_of_nil.
  - by intros c i ?%elem_of_nil.
  - split; try (by intros c s ch (? & ? & _)).
    + by intros e i ?%elem_of_nil.
    + intros e i. simpl. rewrite Hp. by intros ?%not_elem_of_empty.
Qed.
End Runs.
