(* ===== verification/AgentTheorems.v ===== *)
(** * Theorems about Agent sessions

    What holds in every run of the Agent gateway: presence means that traffic can be sent;
    a session acts only for the Endpoint whose credential its own handshake redeemed; traffic
    for an Endpoint reaches only its sessions; a session takes over an action only on applied
    evidence, and leaves by marking what it carried. *)

From stdpp Require Import prelude gmap strings.
From Stdlib Require Import Strings.Byte NArith ZArith.
From S2P Require Import Prelude.
From S2P Require Import External.
From S2P Require Import Credential.
From S2P Require Import Endpoint.
From S2P Require Import EnrollmentStore.
From S2P Require Import Job.
From S2P Require Import Transfer.
From S2P Require Import Runtime.
From S2P Require Import JobStore.
From S2P Require Import JobServices.
From S2P Require Import TransferAuth.
From S2P Require Import TransferStore.
From S2P Require Import TransferEvidence.
From S2P Require Import TrustedBootstrap.
From S2P Require Import Inventory.
From S2P Require Import AgentProtocol.
From S2P Require Import OutboundSessions.
From S2P Require Import AgentGateway.
From S2P Require Import AgentSystem.
From S2P Require Import AgentLogic.
From S2P Require Import AgentFrames.
From S2P Require Import AgentRegistration.
From S2P Require Import AgentSafety.

Section Events.
Context {js : JsonbInventory} {ajson : AgentJson} {b64 : Base64} {sha : Sha256} {ed : Ed25519}
  {ent : Entropy} {chrono : ChronoRange} {disp : UuidDisplay} {uparse : UuidParse}
  {kind : UuidKind} {pg : PgTimestamp}.
Context (configured : GatewayService.t → bool) (runtime_ttl : Duration)
  (accepted_site_keys : AcceptedSiteKeys) (capability_ttl : Duration) (base_url : str).
Implicit Types (w : GatewayWorld) (tr evs : list Event.t) (c : nat).
#[local] Abbreviation gateway_step :=
  (gateway_step configured runtime_ttl accepted_site_keys capability_ttl base_url).
#[local] Abbreviation gateway_run :=
  (gateway_run configured runtime_ttl accepted_site_keys capability_ttl base_url).
#[local] Abbreviation exec := (exec runtime_ttl accepted_site_keys capability_ttl base_url).
#[local] Abbreviation gateway_ok := (gateway_ok configured).

(** ** Events of runs *)

(** What a task does in one step: its call, and its end if that was its last. *)
Record task_step w k c call (a : GatewayCall.answer call) w' evs k' : Type := {
  ts_phase : Phase.t;
  ts_next : GatewayCall.answer call → Phase.t;
  ts_env : Env;
  ts_run : Gen (GatewayWorld * GatewayCall.answer call);
  ts_world : GatewayWorld;
  ts_task : gw_tasks w !! c = Some ts_phase;
  ts_call : next_call ts_phase = Some (existT call ts_next);
  ts_exec : exec w ts_env call = Some ts_run;
  ts_done : ts_run k = ((ts_world, a), k');
  ts_put : put_task configured ts_world c (ts_next a) = (w', evs);
}.

Lemma put_task_uncalled w c p : uncalled (put_task configured w c p).2.
Proof. unfold put_task. by case_match. Qed.

Lemma put_task_channels w c p : gw_channels (put_task configured w c p).1 = gw_channels w.
Proof. unfold put_task. by case_match. Qed.
Lemma sync_channels w db : gives (λ w', gw_channels w' = gw_channels w) (sync w db).
Proof. unfold sync. apply gives_then. intros tw. by apply gives_ret. Qed.

(** A step makes no call, or one. *)
Lemma step_shape w st k w' evs k' :
  gateway_step w st k = ((w', evs), k') →
  uncalled evs ∧ (gw_channels w' = gw_channels w ∨ gw_channels w' = ∅) ∨
  (∃ c call a ended, evs = Event.Called c call a :: ended ∧ uncalled ended ∧
     inhabited (task_step w k c call a w' ended k')).
Proof.
  destruct st; cbn [AgentSystem.gateway_step]; unfold mret, gen_ret, mbind, gen_bind;
    try (intros [= <- <- <-]; by (left; split; [|left])).
  - destruct (gw_tasks w !! c) as [p|] eqn:Hc; [|intros [= <- <- <-]; by (left; split; [|left])].
    unfold run_task. destruct (next_call p) as [[call κ]|] eqn:Hn.
    + destruct (exec w e call) as [run|] eqn:He; [|intros [= <- <- <-]; by (left; split; [|left])].
      unfold mret, gen_ret, mbind, gen_bind. destruct (run k) as [[w1 a] k1] eqn:Hr. simpl.
      destruct (put_task configured w1 c (κ a)) as [w2 ended] eqn:Hp. intros [= <- <- <-]. right.
      exists c, call, a, ended. split_and!; [done| |by econstructor; econstructor].
      pose proof (put_task_uncalled w1 c (κ a)) as Hu. by rewrite Hp in Hu.
    + pose proof (put_task_uncalled w c p) as Hu. pose proof (put_task_channels w c p) as Hch.
      unfold mret, gen_ret. destruct (put_task configured w c p). intros [= <- <- <-]. by (left; split; [|left]).
  - intros [= Ha <-]. left. revert Ha. destruct (gw_tasks w !! c) as [p|]; [|(intros [= <- <-]; split; [done|first [by left|by right]])].
    unfold abort. repeat case_match; (intros [= <- <-]; split; [done|first [by left|by right]]).
  - destruct (run_op _ _ _) as [db k1]. pose proof (sync_channels w (with_enroll (gw_enrollment w) db) k1) as Hs.
    destruct (sync _ _ _). intros [= <- <- <-]. by (left; split; [|left]).
  - case_match; [|intros [= <- <- <-]; by (left; split; [|left])]. destruct (run_transfer_op _ _ _).
    destruct (restarted_gateway w o) as [w1 events] eqn:Hr. intros [= <- <- <-]. left. revert Hr.
    unfold restarted_gateway. repeat case_match; (intros [= <- <-]; split; [done|first [by left|by right]]).
Qed.

(** ** Queues *)

(** Only enqueueing puts a message into a channel. *)
Lemma exec_queue w e call run k w1 (a : GatewayCall.answer call) k1 ch q x :
  exec w e call = Some run → run k = ((w1, a), k1) →
  gw_channels w1 !! ch = Some q → x ∈ ch_queue q →
  (∃ q0, gw_channels w !! ch = Some q0 ∧ x ∈ ch_queue q0) ∨ call = GatewayCall.Enqueue ch x.1.
Proof.
  intros He Hr Hq Hx.
  assert (gw_channels w1 = gw_channels w → (∃ q0, gw_channels w !! ch = Some q0 ∧ x ∈ ch_queue q0) ∨
    call = GatewayCall.Enqueue ch x.1) as Hsame.
  { intros Hw. rewrite Hw in Hq. left. by exists q. }
  assert (gives (λ r, gw_channels r.1 = gw_channels w) run →
    (∃ q0, gw_channels w !! ch = Some q0 ∧ x ∈ ch_queue q0) ∨ call = GatewayCall.Enqueue ch x.1) as Hgives.
  { intros Hg. specialize (Hg k). rewrite Hr in Hg. by apply Hsame. }
  destruct call; cbn [AgentSystem.exec] in He.
  all: try (injection He as <-; apply Hgives; first
    [ by apply gives_ret | by intros ? | by apply gives_then; intros ?; apply gives_ret
    | eapply gives_bind; [apply sync_channels|intros ? ?; by apply gives_ret]
    | apply gives_then; intros ?; eapply gives_bind; [apply sync_channels|intros ? ?; by apply gives_ret]]).
  all: try (case_match; injection He as <-; by apply Hgives, gives_ret).
  - injection He as <-. injection Hr as Hs _.
    assert (w1 = (select w e channel).1) as -> by by rewrite Hs. clear Hs. revert Hq.
    unfold select. destruct (en_command e); [|left; by exists q].
    destruct (gw_channels w !! channel) as [[[|[m ack] rest] o]|] eqn:Hch; try (left; by exists q).
    simpl. rewrite lookup_insert. case_decide; [subst channel|left; by exists q].
    intros [= <-]. left. eexists. split; [exact Hch|]. by right.
  - injection He as <-. injection Hr as <- _ _. revert Hq. simpl. rewrite lookup_insert.
    case_decide; [|left; by exists q]. intros [= <-]. by apply elem_of_nil in Hx.
  - injection He as <-. injection Hr as <- _ _. revert Hq. simpl. rewrite lookup_insert.
    case_decide; [|left; by exists q]. intros [= <-]. by apply elem_of_nil in Hx.
  - destruct (enqueue w channel m) as [[w2 r]|] eqn:Hen; [|done]. injection He as <-.
    injection Hr as -> _ _. revert Hen. unfold enqueue.
    destruct (gw_channels w !! channel) as [[queue []]|] eqn:Hch;
      try (intros [= -> _]; by apply Hsame).
    case_match; [done|]. intros [= <- _]. revert Hq. simpl. rewrite lookup_insert.
    case_decide; [subst channel|left; by exists q]. intros [= <-]. simpl in Hx.
    apply elem_of_app in Hx as [Hx|Hx]; [left; by eexists|]. right.
    apply list_elem_of_singleton in Hx as ->. done.
  - destruct (gw_acks w !! ack) as [[ach [r|]]|]; [|done..]. injection He as <-.
    by apply Hgives, gives_ret.
Qed.

(** ** Traffic *)

Definition registered_as (h : CallHistory) (e : EndpointId) (ch : nat) : Prop :=
  ∃ i x, made h (GatewayCall.RegisterOutbound e i ch) x.

(** What was queued in a channel was resolved to it, for the Endpoint its session registered. *)
Record traffic_ok tr w : Prop := {
  tf_channel c e ch :
    registered_as (task_history c tr) e ch → channel_of (stages tr c) = Some ch;
  tf_resolved c e m ch : made (task_history c tr) (GatewayCall.Resolve e m) (Ok ch) →
    ∃ c', registered_as (task_history c' tr) e ch;
  tf_queue ch q x : gw_channels w !! ch = Some q → x ∈ ch_queue q →
    ∃ c, resolved (task_history c tr) x.1 ch;
}.

Lemma traffic_uncalled tr w w' evs :
  uncalled evs → gw_channels w' = gw_channels w ∨ gw_channels w' = ∅ →
  traffic_ok tr w → traffic_ok (tr ++ evs) w'.
Proof.
  intros Hu Hch [T1 T2 T3].
  assert (∀ c, task_history c (tr ++ evs) = task_history c tr) as Hh
    by (intros; by apply task_history_uncalled).
  split.
  - intros c e ch. unfold stages. rewrite Hh. apply T1.
  - intros c e m ch. rewrite Hh. intros (c' & ?)%T2. exists c'. by rewrite Hh.
  - intros ch q x Hq Hx. destruct Hch as [Hch|Hch]; rewrite Hch in Hq; [|done].
    destruct (T3 _ _ _ Hq Hx) as [c ?]. exists c. by rewrite Hh.
Qed.

Lemma made_called c c' tr call a call' a' :
  made (task_history c' tr) call' a' → made (task_history c' (tr ++ [Event.Called c call a])) call' a'.
Proof.
  destruct (decide (c' = c)) as [->|Hne]; [|by rewrite task_history_other].
  rewrite task_history_own. apply made_before.
Qed.

(** The session a message is resolved to has registered as the Endpoint's. *)
Lemma resolved_registered tr w k e m ch :
  gateway_ok tr w k → (resolve (gw_directory w) e m).2 = Ok ch →
  ∃ c, registered_as (task_history c tr) e ch.
Proof.
  intros Hok. pose proof (go_registered _ _ _ _ Hok) as Hreg. unfold resolve.
  destruct (last (sessions_of (gw_directory w) e)) as [i|] eqn:Hl; [|done]. simpl.
  assert (od_channels match m with
    | AgentProtocolMessage.ActionDispatch d => correlate (gw_directory w) e i (adb_action_id (body d))
    | _ => gw_directory w end = od_channels (gw_directory w)) as -> by by destruct m.
  destruct (od_channels (gw_directory w) !! i) as [ch'|] eqn:Hch; [|done]. intros [= ->].
  apply last_Some in Hl as [l Hl].
  destruct (rg_sessions _ _ _ Hreg e i) as (c & ch' & Hlive & Ho); [rewrite Hl; set_solver|].
  destruct (rg_outbound _ _ _ Hreg _ _ _ Hlive Ho) as [_ Hch'].
  assert (ch' = ch) as -> by (simpl in Hch'; congruence). exists c.
  destruct (outbound_registered _ _ Ho) as (e' & i' & x & Hm).
  destruct (live_owned _ _ _ _ _ _ Hok Hlive) as [_ Hown].
  destruct (Hown _ _ _ _ Hm) as [-> ->]. by exists i, x.
Qed.

Definition resolution (call : GatewayCall.t) : GatewayCall.answer call →
    option (EndpointId * AgentProtocolMessage.t * result AgentDispatchError.t nat) :=
  match call with GatewayCall.Resolve e m => λ r, Some (e, m, r) | _ => λ _, None end.

Lemma traffic_called tr w k c call (a : GatewayCall.answer call) w' evs k' :
  gateway_ok tr w k → traffic_ok tr w → task_step w k c call a w' evs k' →
  traffic_ok (tr ++ [Event.Called c call a]) w'.
Proof.
  intros Hok [T1 T2 T3] [p κ e run w1 Hc Hn He Hr Hp].
  assert (gw_channels w' = gw_channels w1) as Hw.
  { pose proof (put_task_channels w1 c (κ a)) as H. by rewrite Hp in H. }
  destruct (go_tasks _ _ _ _ Hok _ _ Hc) as [_ Ht]. apply task_call in Ht. rewrite Hn in Ht.
  destruct Ht as [Hm _]. split.
  - intros c' ep ch. destruct (decide (c' = c)) as [->|Hne];
      [|rewrite task_history_other, stages_other by done; apply T1].
    rewrite stages_own, task_history_own. intros (i & x & [Heq|Hin]%elem_of_cons).
    + apply (f_equal projT1) in Heq. simpl in Heq. by subst call.
    + assert (channel_of (stages tr c) = Some ch) as Hch by (apply (T1 c ep); by exists i, x).
      destruct (may_call_channel p _ call a Hm) as [Hs|[_ Hs]]; unfold stages in *; simpl in Hs.
      * destruct (opened call a) as [ch'|] eqn:Ho.
        -- destruct call; try done. destruct p; try done; destruct Hm as [_ Hf]; by rewrite Hf in Hch.
        -- destruct call; try done; simpl in *; try congruence.
           all: destruct (stage (task_history c tr)); done.
      * by rewrite Hs.
  - intros c' ep m ch Hres.
    assert (made (task_history c' tr) (GatewayCall.Resolve ep m) (Ok ch) ∨
      (resolve (gw_directory w) ep m).2 = Ok ch) as [(c2 & i & x & ?)%T2|Hres'].
    { destruct (decide (c' = c)) as [->|Hne]; [|rewrite task_history_other in Hres by done; by left].
      rewrite task_history_own in Hres. apply elem_of_cons in Hres as [Heq|Hin]; [right|by left].
      apply (f_equal (λ x : {c & GatewayCall.answer c}, resolution (projT1 x) (projT2 x))) in Heq.
      destruct call; try done. simpl in Heq. injection Heq as <- <- <-. revert He Hr.
      cbn [AgentSystem.exec]. destruct (resolve (gw_directory w) ep m) as [d' r].
      by intros [= <-] [= _ -> _]. }
    + exists c2, i, x. by apply made_called.
    + destruct (resolved_registered _ _ _ _ _ _ Hok Hres') as (c2 & i & x & ?).
      exists c2, i, x. by apply made_called.
  - intros ch q x Hq Hx. rewrite Hw in Hq.
    destruct (exec_queue _ _ _ _ _ _ _ _ _ _ _ He Hr Hq Hx) as [(q0 & Hq0 & Hx0)| ->].
    + destruct (T3 _ _ _ Hq0 Hx0) as (c' & ep & ?). exists c', ep. by apply made_called.
    + assert (resolved (task_history c tr) x.1 ch) as [ep ?].
      { destruct p; try done; destruct Hm; done. }
      exists c, ep. by apply made_called.
Qed.

(** ** What every event goes back to *)

Definition permitted (h : CallHistory) (call : GatewayCall.t) : Prop :=
  shaking h call ∨ sending h call ∨ ∃ s, authentic h s ∧ in_session s h call.

(** A command a session takes from its channel was resolved for the session's Endpoint. *)
Definition delivered tr c (call : GatewayCall.t) : GatewayCall.answer call → Prop :=
  match call with
  | GatewayCall.Select ch => λ selected,
      match selected with
      | Selected.Command m _ => ∃ s c', authentic (task_history c tr) s ∧
          made (task_history c' tr) (GatewayCall.Resolve (as_endpoint_id s) m) (Ok ch)
      | Selected.Incoming _ => True
      end
  | _ => λ _, True
  end.

(** A task that ends never registered, or has closed its channel and, unless it was aborted,
    left properly. *)
Definition ended_ok tr c : Prop :=
  stages tr c = Stage.Fresh ∨
  ∃ s ch, authentic (task_history c tr) s ∧ stages tr c = Stage.Closed ch ∧
    (Event.Aborted c ∈ tr ∨ left_properly configured s (task_history c tr)).

Definition event_ok tr (ev : Event.t) : Prop :=
  match ev with
  | Event.Called c call a => permitted (task_history c tr) call ∧ delivered tr c call a
  | Event.Ended c => ended_ok tr c
  | _ => True
  end.

Lemma may_call_permitted tr w k c p call :
  gateway_ok tr w k → gw_tasks w !! c = Some p → may_call p (task_history c tr) call →
  permitted (task_history c tr) call.
Proof.
  intros Hok Hc Hm. destruct (go_tasks _ _ _ _ Hok _ _ Hc) as [_ Ht].
  destruct p; simpl in Hm; [by left|right; right..|by right; left].
  all: destruct Ht as [[? _] _]; by eexists.
Qed.

Lemma call_delivered tr w k c call (a : GatewayCall.answer call) w' evs k' :
  gateway_ok tr w k → traffic_ok tr w → task_step w k c call a w' evs k' → delivered tr c call a.
Proof.
  intros Hok [T1 T2 T3] [p κ e run w1 Hc Hn He Hr Hp].
  destruct (go_tasks _ _ _ _ Hok _ _ Hc) as [_ Ht]. pose proof (task_call _ _ _ _ Ht) as Hcall.
  rewrite Hn in Hcall. destruct Hcall as [Hm _]. destruct call; try done.
  destruct (session_of p) as [s|] eqn:Hs; [|by destruct p].
  assert (stages tr c = Stage.Present channel) as Hst by (destruct p; try done; by destruct Hm).
  destruct (task_owned _ _ _ _ _ Ht Hs) as [Ha Hown].
  cbn [AgentSystem.exec] in He. injection He as <-. injection Hr as Hsel _. revert Hsel. unfold select.
  destruct a as [f|m ack]; [done|]. destruct (en_command e); [|done].
  destruct (gw_channels w !! channel) as [[[|[m' ack'] rest] o]|] eqn:Hch; [done| |done].
  intros [= _ -> ->]. destruct (T3 channel _ (m, ack) Hch) as (c' & ep & Hres); [by left|].
  destruct (T2 _ _ _ _ Hres) as [c2 Hreg]. pose proof (T1 _ _ _ Hreg) as Hc2.
  assert (c2 = c) as ->. { apply (go_channel _ _ _ _ Hok _ _ channel); [done|by rewrite Hst]. }
  destruct Hreg as (i & x & [-> _]%Hown). by exists s, c'.
Qed.

Lemma put_task_ended tr w k c p :
  gateway_ok tr w k → gw_tasks w !! c = Some p →
  (put_task configured w c p).2 = [] ∨
  (put_task configured w c p).2 = [Event.Ended c] ∧ ended_ok tr c.
Proof.
  intros Hok Hc. destruct (go_tasks _ _ _ _ Hok _ _ Hc) as [_ Ht]. unfold put_task.
  destruct (settle_task configured p) as [p'|] eqn:Hp; [by left|right]. split; [done|].
  destruct (session_of p) as [s|] eqn:Hs; [right|left; by eapply go_fresh].
  destruct (task_owned _ _ _ _ _ Ht Hs) as [Ha _].
  destruct (task_ended _ _ _ _ _ Ht Hp Hs) as (ch & Hcl & Hl). by exists s, ch.
Qed.

(** The events of one step. *)
Definition all_ok tr evs : Prop :=
  ∀ pre ev post, evs = pre ++ ev :: post → event_ok (tr ++ pre) ev.
Lemma all_ok_nil tr : all_ok tr [].
Proof. by intros [] ? ?. Qed.
Lemma all_ok_cons tr ev evs : event_ok tr ev → all_ok (tr ++ [ev]) evs → all_ok tr (ev :: evs).
Proof.
  intros Hev Hevs [|ev' pre] ev2 post [= <- Heq]; [by rewrite app_nil_r|].
  specialize (Hevs _ _ _ Heq). by rewrite <-app_assoc in Hevs.
Qed.
Lemma all_ok_app tr evs evs' : all_ok tr evs → all_ok (tr ++ evs) evs' → all_ok tr (evs ++ evs').
Proof.
  intros H1 H2 pre ev post Heq. apply app_eq_app in Heq as [l [[-> Heq]|[-> Heq]]].
  - destruct l as [|ev' l]; simplify_eq/=; [|by eapply H1].
    rewrite app_nil_r in H2. rewrite <-(app_nil_r (tr ++ pre)). by apply (H2 [] ev post).
  - rewrite app_assoc. by eapply H2.
Qed.

Lemma step_events_ok tr w k st w' evs k' :
  gateway_ok tr w k → traffic_ok tr w → fresh_draws 0 k' → gateway_step w st k = ((w', evs), k') →
  traffic_ok (tr ++ evs) w' ∧ all_ok tr evs.
Proof.
  intros Hok Htf Hf Hstep.
  destruct (step_shape _ _ _ _ _ _ Hstep) as [[Hu Hch]|(c & call & a & ended & -> & Hu & [Hts])].
  - split; [by apply (traffic_uncalled _ w)|]. revert Hstep.
    destruct st; cbn [AgentSystem.gateway_step]; unfold mret, gen_ret, mbind, gen_bind;
      try (intros [= <- <- <-]; apply all_ok_nil).
    + destruct (gw_tasks w !! c) as [p|] eqn:Hc; [|intros [= <- <- <-]; apply all_ok_nil].
      unfold run_task. destruct (next_call p) as [[call κ]|] eqn:Hn.
      * destruct (exec w e call) as [run|]; [|intros [= <- <- <-]; apply all_ok_nil].
        unfold mret, gen_ret, mbind, gen_bind. destruct (run k) as [[w1 a] k1]. simpl.
        destruct (put_task _ _ _ _). intros [= _ <- _]. specialize (Hu c). exfalso. revert Hu.
        unfold task_history. simpl. rewrite decide_True by done. rewrite reverse_cons.
        by intros [_ ?]%app_eq_nil.
      * destruct (put_task_ended _ _ _ _ _ Hok Hc) as [He|[He Hend]]; unfold mret, gen_ret;
          destruct (put_task configured w c p) as [w1 evs1]; simpl in He; subst evs1;
          intros [= <- <- <-]; [apply all_ok_nil|]. apply all_ok_cons; [done|apply all_ok_nil].
    + intros [= Ha <-]. revert Ha. destruct (gw_tasks w !! c) as [p|] eqn:Hc;
        [|intros [= <- <-]; apply all_ok_nil].
      assert (session_of p = None → all_ok tr [Event.Aborted c; Event.Ended c]) as Hend.
      { intros Hs. apply all_ok_cons; [done|]. apply all_ok_cons; [|apply all_ok_nil]. left.
        unfold stages. rewrite task_history_uncalled by done. by apply (go_fresh _ _ _ _ Hok _ _ Hc). }
      assert (all_ok tr [Event.Aborted c]) as Habort by (apply all_ok_cons; [done|apply all_ok_nil]).
      unfold abort. repeat case_match; intros [= <- <-]; auto using all_ok_nil.
    + destruct (run_op _ _ _). destruct (sync _ _ _). intros [= <- <- <-]. apply all_ok_nil.
    + case_match; [|intros [= <- <- <-]; apply all_ok_nil]. destruct (run_transfer_op _ _ _).
      destruct (restarted_gateway w o) as [w1 events] eqn:Hr. intros [= <- <- <-]. revert Hr.
      unfold restarted_gateway. repeat case_match; intros [= <- <-]; try apply all_ok_nil.
      apply all_ok_cons; [done|apply all_ok_nil].
  - split.
    + change (Event.Called c call a :: ended) with ([Event.Called c call a] ++ ended).
      rewrite app_assoc. apply (traffic_uncalled _ w'); [done|by left|]. by eapply traffic_called.
    + pose proof (call_delivered _ _ _ _ _ _ _ _ _ Hok Htf Hts) as Hd.
      destruct Hts as [p κ e run w1 Hc Hn He Hr Hp].
      destruct (go_tasks _ _ _ _ Hok _ _ Hc) as [_ Ht]. apply task_call in Ht. rewrite Hn in Ht.
      destruct Ht as [Hm _]. apply all_ok_cons; [split; [by eapply may_call_permitted|done]|].
      pose proof (call_ok _ _ _ _ _ _ _ _ _ _ _ _ _ _ _ _ _ Hok Hf Hc Hn He Hr) as H1.
      destruct (put_task_ended _ _ _ c (κ a) H1) as [Hend|[Hend ?]];
        [by simpl; rewrite lookup_insert_eq|..]; rewrite with_task_put, Hp in Hend; simpl in Hend;
        subst ended; [apply all_ok_nil|]. apply all_ok_cons; [done|apply all_ok_nil].
Qed.

Lemma run_events_ok tr w k sts w' evs k' :
  gateway_ok tr w k → traffic_ok tr w → fresh_draws 0 k' → gateway_run w sts k = ((w', evs), k') →
  all_ok tr evs.
Proof.
  revert tr w k evs. induction sts as [|st rest IH]; intros tr w k evs Hok Htf Hf; simpl.
  - intros [= <- <- <-]. apply all_ok_nil.
  - unfold mbind, gen_bind, mret, gen_ret. destruct (gateway_step w st k) as [[w1 ev1] k1] eqn:H1.
    simpl. destruct (gateway_run w1 rest k1) as [[w2 ev2] k2] eqn:H2. intros [= <- <- <-].
    assert (fresh_draws 0 k1) as Hf1.
    { eapply fresh_draws_mono; [|exact Hf].
      pose proof (gateway_run_draws configured runtime_ttl accepted_site_keys capability_ttl base_url
        w1 rest k1) as H. by rewrite H2 in H. }
    destruct (step_events_ok _ _ _ _ _ _ _ Hok Htf Hf1 H1) as [Htf1 Hev].
    apply all_ok_app; [done|]. eapply IH; [|done|done|exact H2]. by eapply gateway_step_ok.
Qed.

Lemma empty_traffic_ok tw : traffic_ok [] (empty_gateway tw).
Proof.
  split.
  - by intros c e ch (i & x & ?%elem_of_nil).
  - by intros c e m ch ?%elem_of_nil.
  - by intros ch q x ?.
Qed.

(** ** The theorems *)

(** A run of the gateway over a server without sessions. *)
Section Run.
Context (tw : TransferWorld) (sts : list Step.t) (w : GatewayWorld) (evs : list Event.t) (k : nat).
Context (no_sessions : w_presence (tw_world tw) = ∅)
  (ran : gateway_run (empty_gateway tw) sts 0 = ((w, evs), k)) (draws_fresh : fresh_draws 0 k).

Lemma final_gateway_ok : gateway_ok evs w k.
Proof.
  by destruct (gateway_run_ok _ _ _ _ _ _ _ _ _ _ _ _ (empty_gateway_ok configured tw no_sessions)
    draws_fresh ran) as [? _].
Qed.

Lemma events_ok pre ev post : evs = pre ++ ev :: post → event_ok pre ev.
Proof.
  intros Heq. apply (run_events_ok [] _ _ _ _ _ _ (empty_gateway_ok configured tw no_sessions)
    (empty_traffic_ok tw) draws_fresh ran _ _ _ Heq).
Qed.

(** C6. Presence means outbound-ready: whenever an Endpoint is present, a message for it is
    resolved to an open channel, which belongs to a running session of that Endpoint. The
    final dispatch gate, which reads presence, never passes for an Endpoint that cannot be
    sent to. *)
Theorem presence_means_outbound_ready e m :
  Presence.is_present (w_presence (tw_world (gw_transfer w))) e = true →
  ∃ ch c s, (resolve (gw_directory w) e m).2 = Ok ch ∧ channel_open w ch ∧
    live w c s ∧ as_endpoint_id s = e ∧ outbound (stages evs c) = Some ch.
Proof.
  intros (i & Hi)%Presence.is_present_session. pose proof (go_registered _ _ _ _ final_gateway_ok) as Hr.
  destruct (rg_presence _ _ _ Hr _ _ Hi) as (c & ch & Hl & Hst).
  destruct (rg_outbound _ _ _ Hr c _ ch Hl) as [Hin Hch]; [by rewrite Hst|].
  destruct (resolve_present (gw_directory w) e i m) as (i' & ch' & Hlast & Hch' & Hres); [done|..].
  { intros i'' (c' & ch' & Hl' & Ho')%(rg_sessions _ _ _ Hr).
    destruct (rg_outbound _ _ _ Hr _ _ _ Hl' Ho') as [_ ?]. by eexists. }
  apply last_Some in Hlast as [l Hlast].
  destruct (rg_sessions _ _ _ Hr e i') as (c' & ch2 & Hl' & Ho'); [rewrite Hlast; set_solver|].
  destruct (rg_outbound _ _ _ Hr _ _ _ Hl' Ho') as [_ Hch2].
  assert (ch2 = ch') as -> by (simpl in Hch2; congruence).
  exists ch', c', {| as_endpoint_id := e; as_session_id := i' |}. split_and!; try done.
  eapply rg_open; [exact Hr|exact Hl'|]. by apply outbound_channel.
Qed.

(** C10. A session acts only for the Endpoint it authenticated as: every call of an
    application service for an Endpoint is made by a task whose own handshake redeemed a
    credential of that Endpoint and sent its Agent the session identity. *)
Theorem service_calls_authenticated pre c call a post e :
  evs = pre ++ Event.Called c call a :: post → call_endpoint call = Some e →
  ∃ s, authentic (task_history c pre) s ∧ as_endpoint_id s = e.
Proof.
  intros [Hp _]%events_ok Hc. destruct Hp as [Hp|[Hp|(s & Ha & Hp)]]; [by destruct call..|].
  exists s. split; [done|]. destruct Hp as [_ Hp].
  destruct call; simplify_eq/=; try (by symmetry; apply Hp); by destruct Hp as [[-> _] _] || by destruct Hp as [-> _].
Qed.

(** C7. Traffic reaches only its Endpoint: a command that a session takes from its channel,
    to write it to its Agent, was resolved to that channel for the Endpoint the session
    authenticated as. *)
Theorem commands_reach_their_endpoint pre c ch m ack post :
  evs = pre ++ Event.Called c (GatewayCall.Select ch) (Selected.Command m ack) :: post →
  ∃ s c', authentic (task_history c pre) s ∧
    made (task_history c' pre) (GatewayCall.Resolve (as_endpoint_id s) m) (Ok ch).
Proof. intros H. exact (proj2 (events_ok _ _ _ H)). Qed.

(** C15. A session takes over an action only on evidence: it binds itself as the relevant
    session only for an action for which its Endpoint's own evidence was just applied and
    left the Attempt running. *)
Theorem rebinding_justified pre c e i act a post :
  evs = pre ++ Event.Called c (GatewayCall.Bind e i act) a :: post →
  supported (task_history c pre) e act.
Proof.
  intros [Hp _]%events_ok. destruct Hp as [Hp|[Hp|(s & Ha & _ & Hp)]]; [done..|].
  by destruct Hp as (_ & _ & ?).
Qed.

End Run.
End Events.
