(* ===== verification/AgentRefinement.v ===== *)
(** * The Agent gateway over the server's services

    The durable state under the gateway is one that the operations of [TransferEvidence]
    reach by themselves, whatever sessions interleave; and what an Agent can learn of
    actions that are not its Endpoint's. *)

From stdpp Require Import prelude gmap strings.
From Stdlib Require Import Strings.Byte NArith ZArith.
From S2P Require Import Prelude.
From S2P Require Import External.
From S2P Require Import Credential.
From S2P Require Import Endpoint.
From S2P Require Import EnrollmentStore.
From S2P Require Import Job.
From S2P Require Import Transfer.
From S2P Require Import Runtime.
From S2P Require Import JobStore.
From S2P Require Import JobServices.
From S2P Require Import JobSpec.
From S2P Require Import JobSafety.
From S2P Require Import TransferAuth.
From S2P Require Import TransferStore.
From S2P Require Import TransferEvidence.
From S2P Require Import TransferSafety.
From S2P Require Import TransferTheorems.
From S2P Require Import TrustedBootstrap.
From S2P Require Import Inventory.
From S2P Require Import WorkerSafety.
From S2P Require Import ServerHistory.
From S2P Require Import AgentProtocol.
From S2P Require Import OutboundSessions.
From S2P Require Import AgentGateway.
From S2P Require Import AgentSystem.
From S2P Require Import AgentFrames.
From S2P Require Import AgentSafety.

Section Refinement.
Context {js : JsonbInventory} {ajson : AgentJson} {b64 : Base64} {sha : Sha256} {ed : Ed25519}
  {ent : Entropy} {chrono : ChronoRange} {disp : UuidDisplay} {uparse : UuidParse}
  {kind : UuidKind} {pg : PgTimestamp}.
Context (configured : GatewayService.t → bool) (runtime_ttl : Duration)
  (accepted_site_keys : AcceptedSiteKeys) (capability_ttl : Duration) (base_url : str).
Implicit Types (w : GatewayWorld) (tw : TransferWorld).
#[local] Abbreviation gateway_step :=
  (gateway_step configured runtime_ttl accepted_site_keys capability_ttl base_url).
#[local] Abbreviation gateway_run :=
  (gateway_run configured runtime_ttl accepted_site_keys capability_ttl base_url).
#[local] Abbreviation exec := (exec runtime_ttl accepted_site_keys capability_ttl base_url).

(** At most one operation of the services, after other draws. *)
Definition at_most_one_op tw (k : nat) tw' (k' : nat) : Prop :=
  tw' = tw ∧ k ≤ k' ∨
  ∃ o k1, in_range o ∧ k ≤ k1 ∧ run_transfer_op tw o k1 = (tw', k').

Lemma one_op tw k o tw' k' :
  in_range o → run_transfer_op tw o k = (tw', k') → at_most_one_op tw k tw' k'.
Proof. intros ? ?. right. by exists o, k. Qed.
Lemma job_op tw k o (world : World) k' :
  (∀ a b c, o ≠ JobOp.Environment a b c) → (∀ c, o ≠ JobOp.Restart c) →
  run_job_op (tw_world tw) o k = (world, k') → at_most_one_op tw k (tw_with_world tw world) k'.
Proof.
  intros He Hr Hrun. apply (one_op _ _ (TransferOp.Job o)); [done|]. cbn [run_transfer_op].
  assert (own_transfers (w_db (tw_world tw)) o = o) as ->.
  { destruct o; try done. by destruct (He endpoints inventory transfers). }
  unfold mbind, gen_bind. rewrite Hrun. unfold restarted.
  destruct o; try done. by destruct (Hr capacities).
Qed.

Lemma sync_op w db k k1 w' k' :
  k ≤ k1 → sync w db k1 = (w', k') → at_most_one_op (gw_transfer w) k (gw_transfer w') k'.
Proof.
  intros Hk. unfold sync, mbind, gen_bind, mret, gen_ret.
  destruct (run_transfer_op _ _ k1) as [tw k2] eqn:Ho. intros [= <- <-]. right.
  eexists _, k1. by split_and!; [|done|exact Ho].
Qed.

Ltac served o :=
  match goal with Hr : mbind _ _ _ = _ |- _ =>
    unfold mbind, gen_bind, mret, gen_ret in Hr;
    match type of Hr with context [match ?g with _ => _ end] =>
      let Hg := fresh "Hg" in destruct g as [r kr] eqn:Hg; injection Hr as <- _ <-;
      apply (job_op _ _ o); [done..|]; cbn [run_job_op]; unfold mbind, gen_bind, mret, gen_ret;
      by rewrite Hg
    end
  end.
Ltac served_transfer o :=
  match goal with Hr : mbind _ _ _ = _ |- _ =>
    unfold mbind, gen_bind, mret, gen_ret in Hr;
    match type of Hr with context [match ?g with _ => _ end] =>
      let Hg := fresh "Hg" in destruct g as [r kr] eqn:Hg; injection Hr as <- _ <-;
      apply (one_op _ _ o); [done|]; cbn [run_transfer_op]; unfold mbind, gen_bind, mret, gen_ret;
      by rewrite Hg
    end
  end.

Lemma gateway_exec_op w e call run k w1 (a : GatewayCall.answer call) k1 :
  exec w e call = Some run → run k = ((w1, a), k1) →
  at_most_one_op (gw_transfer w) k (gw_transfer w1) k1.
Proof.
  intros He Hr. pose proof (exec_draws _ _ _ _ _ _ _ _ He k) as Hk. rewrite Hr in Hk. simpl in Hk.
  destruct call; cbn [AgentSystem.exec] in He.
  all: try (injection He as <-; injection Hr as <- _ _; by left).
  all: try (injection He as <-; injection Hr as <- _; by left).
  - injection He as <-. injection Hr as Hs <-. left. split; [|done].
    assert (w1 = (select w e channel).1) as -> by by rewrite Hs. unfold select.
    destruct (en_command e); [|done]. by destruct (gw_channels w !! channel) as [[[|[m ack] rest] o]|].
  - injection He as <-. unfold mbind, gen_bind, mret, gen_ret in Hr.
    pose proof (enrollment_draws (iv_enroll (gw_enrollment w)) (EnrollOp.Redeem credential (en_now e) runtime_ttl) k) as Hd.
    cbn [run_op] in Hd. unfold mbind, gen_bind, mret, gen_ret in Hd.
    destruct (redeem _ _ _ _ _) as [r kr]. simpl in Hd. destruct (sync _ _ kr) as [w2 k2] eqn:Hs.
    injection Hr as <- _ <-. eapply sync_op; [|exact Hs]; done.
  - injection He as <-. unfold mbind, gen_bind, mret, gen_ret in Hr.
    destruct (sync _ _ k) as [w2 k2] eqn:Hs. injection Hr as <- _ <-. eapply sync_op; [|exact Hs]; done.
  - injection He as <-. unfold mbind, gen_bind, mret, gen_ret in Hr.
    pose proof (record_draws (gw_enrollment w) endpoint_id inventory (en_now e) k) as Hd.
    destruct (record_inventory _ _ _ _ _) as [r kr]. simpl in Hd. destruct (sync _ _ kr) as [w2 k2] eqn:Hs.
    injection Hr as <- _ <-. eapply sync_op; [|exact Hs]; done.
  - injection He as <-. served (JobOp.Evidence action_id endpoint_id e0 (en_now e)).
  - injection He as <-. served_transfer (TransferOp.TransferResult action_id endpoint_id d (en_now e)).
  - injection He as <-. served_transfer (TransferOp.TransferCancelAck action_id endpoint_id e0 (en_now e)).
  - injection He as <-. served_transfer (TransferOp.TransferStatusCancelled action_id endpoint_id (en_now e)).
  - injection He as <-. served_transfer (TransferOp.TransferStatusFailed action_id endpoint_id (en_now e)).
  - injection He as <-. served (JobOp.CancelAck action_id endpoint_id e0 (en_now e)).
  - injection He as <-. served (JobOp.StatusReport action_id endpoint_id e0 (en_now e)).
  - injection He as <-.
    served_transfer (TransferOp.Issue capability_ttl base_url (en_now e) endpoint_id action_id
      transfer_id proof_public_key).
  - injection He as <-. injection Hr as <- _ <-.
    by apply (job_op _ _ (JobOp.SessionRegistered endpoint_id session_id)).
  - injection He as <-. injection Hr as <- _ <-.
    by apply (job_op _ _ (JobOp.SessionClosed endpoint_id session_id)).
  - destruct (bind_dispatch_relevant_session _ _ _ _) as [d' r]. injection He as <-.
    injection Hr as <- _ <-. by left.
  - destruct (service_mark_endpoint_uncertain _ _ _) as [world r] eqn:Hm. injection He as <-.
    injection Hr as <- _ <-. apply (job_op _ _ (JobOp.MarkUncertain endpoint_id action_id)); [done..|].
    cbn [run_job_op]. by rewrite Hm.
  - destruct (Registry.register _ _ _) as [registry r] eqn:Hreg. injection He as <-.
    injection Hr as <- _ <-.
    apply (job_op _ _ (JobOp.Dispatch {| at_id := attempt_id; at_job_step_id := attempt_id;
      at_action_id := attempt_id; at_state := AttemptState.Dispatched |} reservation true)); [done..|].
    cbn [run_job_op]. unfold service_dispatch. simpl. unfold mret, gen_ret. f_equal.
    unfold Registry.register in *. case_match; simplify_eq/=; [|done]. by destruct (tw_world _).
  - destruct (resolve _ _ _) as [d' r]. injection He as <-. injection Hr as <- _ <-. by left.
  - destruct (enqueue w channel m) as [[w2 r]|] eqn:Hen; [|done]. injection He as <-.
    injection Hr as -> _ <-. left. split; [|done]. revert Hen. unfold enqueue.
    repeat case_match; by intros [= <- _].
  - destruct (gw_acks w !! ack) as [[ach [r|]]|]; [|done..]. injection He as <-.
    injection Hr as <- _ <-. by left.
Qed.

(** ** Runs *)

Definition step_in_range (st : Step.t) : Prop :=
  match st with Step.Server o => in_range o | _ => True end.

Lemma put_task_transfer w c p : gw_transfer (put_task configured w c p).1 = gw_transfer w.
Proof. unfold put_task. by case_match. Qed.

Lemma gateway_step_op w st k w' evs k' :
  step_in_range st → gateway_step w st k = ((w', evs), k') →
  at_most_one_op (gw_transfer w) k (gw_transfer w') k'.
Proof.
  intros Hin. destruct st; cbn [AgentSystem.gateway_step]; unfold mret, gen_ret, mbind, gen_bind;
    try (intros [= <- <- <-]; by left).
  - destruct (gw_tasks w !! c) as [p|] eqn:Hc; [|intros [= <- <- <-]; by left].
    unfold run_task. destruct (next_call p) as [[call κ]|].
    + destruct (exec w e call) as [run|] eqn:He; [|intros [= <- <- <-]; by left].
      unfold mret, gen_ret, mbind, gen_bind. destruct (run k) as [[w1 a] k1] eqn:Hr. simpl.
      pose proof (put_task_transfer w1 c (κ a)) as Hp.
      destruct (put_task configured w1 c (κ a)) as [w2 ended]. intros [= <- _ <-].
      simpl in Hp. rewrite Hp. by eapply gateway_exec_op.
    + pose proof (put_task_transfer w c p) as Hp. unfold mret, gen_ret.
      destruct (put_task configured w c p). intros [= <- _ <-]. by left.
  - intros [= Ha <-]. left. split; [|done]. revert Ha.
    destruct (gw_tasks w !! c) as [p|]; [|by intros [= <- _]].
    unfold abort. repeat case_match; by intros [= <- _].
  - pose proof (enrollment_draws (iv_enroll (gw_enrollment w)) o k) as Hd.
    destruct (run_op _ _ k) as [db k1]. destruct (sync _ _ k1) as [w1 k2] eqn:Hs.
    intros [= <- _ <-]. eapply sync_op; [|exact Hs]; done.
  - case_match; [|intros [= <- _ <-]; by left]. destruct (run_transfer_op _ _ k) as [tw k1] eqn:Ho.
    destruct (restarted_gateway w o) as [w1 events]. intros [= <- _ <-]. by eapply one_op.
Qed.

Lemma at_most_one_reachable tw k tw' k' :
  treachable tw k → at_most_one_op tw k tw' k' → treachable tw' k'.
Proof.
  intros (epoch & capacity & Hr) [[-> Hk]|(o & k1 & Hin & Hk & Ho)]; exists epoch, capacity.
  - by eapply treaches_draw.
  - eapply treaches_step; [by eapply treaches_draw|done|by left|done].
Qed.

Lemma gateway_run_reachable w0 k0 sts w evs k :
  treachable (gw_transfer w0) k0 → Forall step_in_range sts →
  gateway_run w0 sts k0 = ((w, evs), k) → treachable (gw_transfer w) k.
Proof.
  intros Ht Hin. revert w0 k0 evs Ht.
  induction Hin as [|st rest Hst _ IH]; intros w0 k0 evs Ht; simpl; [by intros [= <- _ <-]|].
  unfold mbind, gen_bind, mret, gen_ret. destruct (gateway_step w0 st k0) as [[w1 ev1] k1] eqn:H1.
  simpl. destruct (gateway_run w1 rest k1) as [[w2 ev2] k2] eqn:H2. intros [= <- _ <-].
  eapply IH; [|exact H2]. eapply at_most_one_reachable; [exact Ht|]. by eapply gateway_step_op.
Qed.


(** ** Foreign actions *)

(** A program on its own, with the frames it sends. *)
Fixpoint serve_alone {A} (e : Env) (p : gproc A) w
  : Gen (option (GatewayWorld * list AgentProtocolMessage.t * A)) :=
  match p with
  | GRet a => mret (Some (w, [], a))
  | GDo c κ =>
      match exec w e c with
      | None => mret None
      | Some run =>
          r ← run;
          rest ← serve_alone e (κ r.2) r.1;
          mret ((λ x, (x.1.1, match c with GatewayCall.SendFrame m => m :: x.1.2 | _ => x.1.2 end, x.2))
                  <$> rest)
      end
  end.

(** The action a message is about. *)
Definition message_action (m : AgentProtocolMessage.t) : option ActionId :=
  match m with
  | AgentProtocolMessage.ActionAck m => Some (aa_action_id (body m))
  | AgentProtocolMessage.ActionProgress m => Some (apb_action_id (body m))
  | AgentProtocolMessage.ActionResult m => Some (arb_action_id (body m))
  | AgentProtocolMessage.CancelAck m => Some (cab_action_id (body m))
  | AgentProtocolMessage.StatusReport m => Some (srb_action_id (body m))
  | _ => None
  end.

Section Foreign.
Context (e : Env) (a : ActionId) (ep : EndpointId).
#[local] Abbreviation answer := (Gen (list AgentProtocolMessage.t * result AgentGatewayError.t ())).

Definition foreign_to w : Prop :=
  repo_action_targets_endpoint (w_db (tw_world (gw_transfer w))) a ep = false.

(** The program answers the same in every state in which the action is foreign, and changes
    nothing. *)
Definition uniform (p : gproc (result AgentGatewayError.t ())) : Prop :=
  ∃ reply : answer, ∀ w k, treachable (gw_transfer w) k → foreign_to w →
    serve_alone e p w k = let '((frames, r), k') := reply k in (Some (w, frames, r), k').

Lemma uniform_ret r : uniform (mret r).
Proof. by exists (mret ([], r)). Qed.

Lemma uniform_call c x κ :
  (∀ w k, treachable (gw_transfer w) k → foreign_to w →
     ∃ run, exec w e c = Some run ∧ run k = ((w, x), k)) →
  (∀ m, c ≠ GatewayCall.SendFrame m) →
  uniform (κ x) → uniform (gcall c ≫= κ).
Proof.
  intros Hc Hns [reply Hr]. exists reply. intros w k Ht Hf. simpl.
  destruct (Hc w k Ht Hf) as (run & -> & Hrun). unfold mbind, gen_bind. rewrite Hrun. simpl.
  rewrite (Hr w k Ht Hf). destruct (reply k) as [[frames r] k']. unfold mret, gen_ret. simpl.
  destruct c; try done. by destruct (Hns m).
Qed.

Lemma uniform_error id : uniform (send_protocol_error id).
Proof.
  eexists (λ k, (([_], _), S k)). intros w k _ _. simpl. unfold mbind, gen_bind, mret, gen_ret. simpl.
  reflexivity.
Qed.

(** The services on a foreign action. *)
Lemma unknown_action w k decide :
  treachable (gw_transfer w) k → foreign_to w →
  (r ← (done ← repo_apply_action_evidence (w_db (tw_world (gw_transfer w))) a ep decide;
        mret (settle (tw_world (gw_transfer w)) done.1 done.2));
   mret (gw_with_transfer w (tw_with_world (gw_transfer w) r.1), r.2)) k
  = ((w, Err JobError.UnknownAction), k).
Proof.
  intros [HI _]%treachable_wf Hno. unfold repo_apply_action_evidence.
  rewrite (foreign_lock _ _ _ HI Hno). unfold mbind, gen_bind, mret, gen_ret, settle. simpl.
  destruct w as [? tw]. by destruct tw as [[]].
Qed.

Ltac foreign_call c := apply (uniform_call c (Err JobError.UnknownAction)); [|done|];
  [intros w k Hr Hf; eexists; split; [reflexivity|by apply unknown_action]|].

Lemma uniform_evidence ev κ :
  uniform (κ (Err JobError.UnknownAction)) →
  uniform (gcall (GatewayCall.ApplyEvidence a ep ev) ≫= κ).
Proof. intros H. by foreign_call (GatewayCall.ApplyEvidence a ep ev). Qed.
Lemma uniform_cancel_ack ev κ :
  uniform (κ (Err JobError.UnknownAction)) →
  uniform (gcall (GatewayCall.ApplyCancelAck a ep ev) ≫= κ).
Proof. intros H. by foreign_call (GatewayCall.ApplyCancelAck a ep ev). Qed.
Lemma uniform_status_report ev κ :
  uniform (κ (Err JobError.UnknownAction)) →
  uniform (gcall (GatewayCall.ApplyStatusReport a ep ev) ≫= κ).
Proof. intros H. by foreign_call (GatewayCall.ApplyStatusReport a ep ev). Qed.
Lemma uniform_belongs κ : uniform (κ false) → uniform (gcall (GatewayCall.ActionBelongs a ep) ≫= κ).
Proof.
  intros H. apply (uniform_call (GatewayCall.ActionBelongs a ep) false); [|done|done]. intros w k _ Hf. eexists. split; [reflexivity|].
  unfold mret, gen_ret. by rewrite Hf.
Qed.
Lemma uniform_classify κ :
  uniform (κ TransferActionClassification.Unknown) → uniform (gcall (GatewayCall.Classify a ep) ≫= κ).
Proof.
  intros H. apply (uniform_call (GatewayCall.Classify a ep) TransferActionClassification.Unknown); [|done|done].
  intros w k _ Hf. eexists. split; [reflexivity|]. unfold mret, gen_ret, service_classify.
  by rewrite Hf.
Qed.

Lemma uniform_required s (κ : () → gproc (result AgentGatewayError.t ())) :
  uniform (κ ()) → uniform (gtry (required configured s) κ).
Proof. intros H. unfold gtry, required. simpl. destruct (configured s); [done|apply uniform_ret]. Qed.
End Foreign.

Ltac uniform_go := repeat first
  [ apply uniform_ret | apply uniform_error | apply uniform_required | apply uniform_evidence
  | apply uniform_cancel_ack | apply uniform_status_report | apply uniform_belongs
  | apply uniform_classify
  | match goal with
    | |- uniform _ _ _ (if ?b then _ else _) => destruct b
    | |- uniform _ _ _ (match ?x with _ => _ end) => destruct x
    end ].

(** C13. What an Agent says about actions that are not its Endpoint's has no effect and shows
    nothing: for every message about an action, there is one answer (frames and result, from
    the message, the clock and the random source alone) that the session gives in every
    reachable state in which the action is unknown or another Endpoint's, and the state is
    unchanged. *)
Theorem foreign_actions_invisible (e : Env) (fp : ServerCertFingerprint) (s : AuthenticatedSession)
    (m : AgentProtocolMessage.t) (a : ActionId) :
  message_action m = Some a →
  ∃ reply : Gen (list AgentProtocolMessage.t * result AgentGatewayError.t ()),
    ∀ w k, treachable (gw_transfer w) k →
      repo_action_targets_endpoint (w_db (tw_world (gw_transfer w))) a (as_endpoint_id s) = false →
      serve_alone e (handle_message configured fp s m) w k
      = let '((frames, r), k') := reply k in (Some (w, frames, r), k').
Proof.
  intros Hm. change (uniform e a (as_endpoint_id s) (handle_message configured fp s m)).
  destruct m; simplify_eq/=;
    unfold handle_action_ack, handle_action_progress, handle_action_result, apply_simulated_result,
      handle_cancel_ack, apply_generic_cancel_ack, handle_status_report, reconcile_status_report,
      apply_generic_status_report; uniform_go.
Qed.
End Refinement.
