(* ===== verification/AgentExamples.v ===== *)
(** * An Agent's day

    A concrete run of the gateway: an Endpoint is enrolled and connects, a Transfer is
    dispatched to it and acknowledged, and the connection ends; the theorems of
    [AgentTheorems] and [AgentRefinement] apply. A second run, in which the session's task
    panics, shows what the next session does not do. *)

From stdpp Require Import prelude gmap strings.
From Stdlib Require Import Strings.Byte NArith ZArith.
From S2P Require Import Prelude.
From S2P Require Import External.
From S2P Require Import Credential.
From S2P Require Import Endpoint.
From S2P Require Import EnrollmentStore.
From S2P Require Import EnrollmentSafety.
From S2P Require Import Job.
From S2P Require Import Transfer.
From S2P Require Import Runtime.
From S2P Require Import JobStore.
From S2P Require Import JobServices.
From S2P Require Import TransferAuth.
From S2P Require Import TransferStore.
From S2P Require Import TransferEvidence.
From S2P Require Import TransferSafety.
From S2P Require Import TransferTheorems.
From S2P Require Import TransferExamples.
From S2P Require Import TrustedBootstrap.
From S2P Require Import Inventory.
From S2P Require Import WorkerSystemExamples.
From S2P Require Import AgentProtocol.
From S2P Require Import OutboundSessions.
From S2P Require Import AgentGateway.
From S2P Require Import AgentSystem.
From S2P Require Import AgentLogic.
From S2P Require Import AgentFrames.
From S2P Require Import AgentRegistration.
From S2P Require Import AgentSafety.
From S2P Require Import AgentTheorems.
From S2P Require Import AgentRefinement.

Module AgentExamples.
Import Reference.
Import EnrollmentExamples(nonce9, enrollment0).
#[local] Existing Instances base64 base64_laws base64_strict toy_sha256 toy_ed25519
  toy_ed25519_laws counter_entropy micros micros_laws raw_uuid rfc_kind
  TransferExamples.last_instant WorkerSystemExamples.raw_parse InventoryExamples.text_inventory.

(** ** Texts *)

Definition envelope_of (correlation : option ProtocolId) : Envelope :=
  {| env_message_id := be_array 16 7777; env_protocol_version := ProtocolVersion_v1;
     env_timestamp := 0; env_correlation_id := correlation |}.
Definition uuid_of (s : str) : ProtocolId := array_copy 16 s.

(** The first byte says which message it is. *)
#[local] Instance letter_json : AgentJson := λ s,
  match s with
  | x61 :: credential =>
      Some (AgentProtocolMessage.AuthRequest
              {| envelope := envelope_of None; body := {| ar_credential := credential |} |})
  | x6b :: action =>
      Some (AgentProtocolMessage.ActionAck
              {| envelope := envelope_of (Some (uuid_of action));
                 body := {| aa_action_id := uuid_of action;
                            aa_outcome := ActionAckOutcome.Accepted; aa_error := None |} |})
  | _ => None
  end.

(** ** The run *)

Definition all_services (s : GatewayService.t) : bool := true.
Definition fingerprint0 : ServerCertFingerprint := be_array 32 5.
Definition server0 : TransferWorld := empty_transfer_world (be_array 16 8888) 16.
Abbreviation run sts :=
  (gateway_run all_services 90000000000 [] 90000000 (lit "https://server/data")
     (empty_gateway server0) sts 0).

Definition env (frame : option (result unit Frame.t)) (command : bool) : Env :=
  {| en_now := 2000000; en_frame := frame; en_command := command; en_sent := true |}.
Definition runs (c n : nat) : list Step.t := repeat (Step.Run c (env None false)) n.
Definition hears (c : nat) (s : str) : Step.t := Step.Run c (env (Some (Ok (Frame.Text s))) false).
Definition takes (c n : nat) : list Step.t := repeat (Step.Run c (env None true)) n.

Definition u (n : N) : Uuid := be_array 16 n.
Definition ep6 : EndpointId := u 6.

(** The Endpoint boots, connects, and is approved. *)
Definition connect (c : nat) : list Step.t :=
  [Step.Accept fingerprint0; hears c (x61 :: to_wire_value enrollment0)] ++ runs c 8.
Definition connected : list Step.t :=
  Step.Enrollment (EnrollOp.Issue (lit "mac-1") nonce9 1000000 90000000000) :: connect 0
  ++ [Step.Enrollment (EnrollOp.Approve ep6 (Actor.Operator (lit "ops")) 3000000)].

(** A Job of one Transfer is admitted and dispatched. *)
Definition committed : list Step.t :=
  connected ++ (Step.Server <$>
    [TransferOp.Job (JobOp.CreateWorkflow ep6 1);
     TransferOp.Job (JobOp.Admit (u 13) 10);
     TransferOp.CreateTransferContext ep6 (u 13) (u 14) TransferDirection.AgentToServer
       DigestAlgorithm.Sha256 8 (lit "disk-0");
     TransferOp.Job (JobOp.SatisfyPreconditions (u 13) (u 14));
     TransferOp.Job (JobOp.CommitTransfer (u 13) (u 14) (u 17) [])]).
#[local] Abbreviation jobs sts := (w_db (tw_world (gw_transfer (run sts).1.1))).
Definition attempt18 : Attempt :=
  default {| at_id := u 18; at_job_step_id := u 14; at_action_id := u 19;
             at_state := AttemptState.Failed |} (jd_attempts (jobs committed) !! u 18).
Definition sent : list Step.t :=
  committed ++ runs 2 1
  ++ [Step.Dispatch ep6 attempt18 0 (jd_transfers (jobs committed) !! u 17)] ++ runs 3 4
  ++ takes 0 3 ++ runs 3 1.
(** The Agent acknowledges, and is gone. *)
Definition acknowledged : list Step.t :=
  sent ++ [hears 0 (x6b :: array_bytes (u 19))] ++ runs 0 2.
Definition ended : list Step.t := acknowledged ++ runs 0 11.

Definition final : GatewayWorld := (run ended).1.1.
Definition events : list Event.t := (run ended).1.2.
Definition draws : nat := (run ended).2.

Lemma run_eq sts : run sts = (((run sts).1.1, (run sts).1.2), (run sts).2).
Proof. by rewrite <-!surjective_pairing. Qed.
Lemma no_sessions : w_presence (tw_world server0) = ∅.
Proof. done. Qed.
Lemma ended_fresh : fresh_draws 0 draws.
Proof. by_evaluation. Qed.
Lemma sent_fresh : fresh_draws 0 (run sent).2.
Proof. by_evaluation. Qed.

Lemma event_split n ev :
  events !! n = Some ev → events = take n events ++ ev :: drop (S n) events.
Proof. intros H. symmetry. by apply take_drop_middle. Qed.

(** ** Witnesses *)

Definition cancel19 : AgentProtocolMessage.t :=
  AgentProtocolMessage.CancelAction
    {| envelope := envelope_of (Some (u 19)); body := {| ca_action_id := u 19 |} |}.

Lemma presence_means_outbound_ready_witness :
  ∃ ch c s, (resolve (gw_directory (run sent).1.1) ep6 cancel19).2 = Ok ch ∧
    channel_open (run sent).1.1 ch ∧ live (run sent).1.1 c s ∧ as_endpoint_id s = ep6 ∧
    outbound (stages (run sent).1.2 c) = Some ch.
Proof.
  apply (presence_means_outbound_ready all_services 90000000000 [] 90000000
    (lit "https://server/data") server0 sent (run sent).1.1 (run sent).1.2 (run sent).2
    no_sessions (run_eq sent) sent_fresh ep6 cancel19).
  vm_compute. reflexivity.
Defined.

(** The arguments of a call of the run. *)
Definition bind_args (ev : option Event.t) : option (EndpointId * ProtocolId * ProtocolId) :=
  match ev with Some (Event.Called _ (GatewayCall.Bind e s a) _) => Some (e, s, a) | _ => None end.
Definition bound : EndpointId * ProtocolId * ProtocolId :=
  default (u 0, u 0, u 0) (bind_args (events !! 22)).
Lemma bound_event :
  events !! 22 = Some (Event.Called 0 (GatewayCall.Bind bound.1.1 bound.1.2 bound.2) BindOutcome.Bound).
Proof. vm_compute. reflexivity. Qed.

Lemma service_calls_authenticated_witness :
  ∃ s, authentic (task_history 0 (take 22 events)) s ∧ as_endpoint_id s = bound.1.1.
Proof.
  exact (service_calls_authenticated all_services 90000000000 [] 90000000
    (lit "https://server/data") server0 ended final events draws no_sessions (run_eq ended) ended_fresh
    _ _ _ _ _ _ (event_split 22 _ bound_event) eq_refl).
Defined.

Lemma rebinding_justified_witness : supported (task_history 0 (take 22 events)) bound.1.1 bound.2.
Proof.
  exact (rebinding_justified all_services 90000000000 [] 90000000
    (lit "https://server/data") server0 ended final events draws no_sessions (run_eq ended) ended_fresh
    _ _ _ _ _ _ _ (event_split 22 _ bound_event)).
Defined.

Definition command_of (call : GatewayCall.t)
  : GatewayCall.answer call → option (AgentProtocolMessage.t * nat) :=
  match call with
  | GatewayCall.Select _ => λ selected,
      match selected with Selected.Command m ack => Some (m, ack) | Selected.Incoming _ => None end
  | _ => λ _, None
  end.
Definition taken : AgentProtocolMessage.t * nat :=
  default (cancel19, 0)
    match events !! 15 with Some (Event.Called _ call a) => command_of call a | _ => None end.
Lemma taken_event :
  events !! 15 = Some (Event.Called 0 (GatewayCall.Select 1) (Selected.Command taken.1 taken.2)).
Proof. vm_compute. reflexivity. Qed.

Lemma commands_reach_their_endpoint_witness :
  ∃ s c', authentic (task_history 0 (take 15 events)) s ∧
    made (task_history c' (take 15 events)) (GatewayCall.Resolve (as_endpoint_id s) taken.1) (Ok 1).
Proof.
  exact (commands_reach_their_endpoint all_services 90000000000 [] 90000000
    (lit "https://server/data") server0 ended final events draws no_sessions (run_eq ended) ended_fresh
    _ _ _ _ _ _ (event_split 15 _ taken_event)).
Defined.

Lemma ended_event : events !! 34 = Some (Event.Ended 0).
Proof. vm_compute. reflexivity. Qed.

Lemma server0_reachable : treachable server0 0.
Proof. exists (be_array 16 8888), 16. apply treaches_refl. Qed.
Lemma ended_in_range : Forall step_in_range ended.
Proof. repeat (apply Forall_cons; split; [vm_compute; done|]). apply Forall_nil. done. Qed.


(** The Agent of another Endpoint acknowledges the action of this one. *)
Definition stranger : AuthenticatedSession := {| as_endpoint_id := u 99; as_session_id := u 98 |}.
Definition ack19 : AgentProtocolMessage.t :=
  AgentProtocolMessage.ActionAck
    {| envelope := envelope_of (Some (u 19));
       body := {| aa_action_id := u 19; aa_outcome := ActionAckOutcome.Accepted;
                  aa_error := None |} |}.
Lemma foreign_actions_invisible_witness :
  treachable (gw_transfer final) draws ∧
  repo_action_targets_endpoint (w_db (tw_world (gw_transfer final))) (u 19) (as_endpoint_id stranger)
    = false ∧
  ∃ reply : Gen (list AgentProtocolMessage.t * result AgentGatewayError.t ()),
    serve_alone 90000000000 [] 90000000 (lit "https://server/data") (env None false)
      (handle_message all_services fingerprint0 stranger ack19) final draws
    = let '((frames, r), k') := reply draws in (Some (final, frames, r), k').
Proof.
  pose proof (gateway_run_reachable all_services 90000000000 [] 90000000 (lit "https://server/data")
    (empty_gateway server0) 0 ended final events draws server0_reachable ended_in_range
    (run_eq ended)) as Hr.
  assert (repo_action_targets_endpoint (w_db (tw_world (gw_transfer final))) (u 19)
    (as_endpoint_id stranger) = false) as Hf by (vm_compute; reflexivity).
  split; [exact Hr|]. split; [exact Hf|].
  destruct (foreign_actions_invisible all_services 90000000000 [] 90000000
    (lit "https://server/data") (env None false) fingerprint0 stranger ack19 (u 19) eq_refl)
    as [reply Hreply].
  exists reply. exact (Hreply final draws Hr Hf).
Defined.

(** ** A panic *)

(** The session's task panics while the action runs; the guard unregisters it; the Agent
    connects again, and the reconciliation of the new session runs to its end. *)
Definition panicked : list Step.t :=
  acknowledged ++ [Step.Abort 0] ++ runs 0 3 ++ connect 5 ++ runs 7 4.
Definition queries (ev : Event.t) : bool :=
  match ev with
  | Event.Called _ (GatewayCall.SendFrame (AgentProtocolMessage.StatusQuery _)) _ => true
  | _ => false
  end.

Definition asked (ev : option Event.t) : EndpointId :=
  match ev with Some (Event.Called _ (GatewayCall.FindCandidate e) _) => e | _ => u 0 end.
Lemma asked_event :
  (run panicked).1.2 !! 37
  = Some (Event.Called 7 (GatewayCall.FindCandidate (asked ((run panicked).1.2 !! 37))) (Ok None)).
Proof. vm_compute. reflexivity. Qed.

(** The next session start does not recover what a panicked session carried: its action is
    still [InProgress], the Endpoint is present again, the new session's reconciliation found no
    candidate and no status was queried. *)
Theorem panicked_session_not_recovered :
  at_state <$> jd_attempts (jobs panicked) !! u 18 = Some AttemptState.InProgress ∧
  Presence.is_present (w_presence (tw_world (gw_transfer (run panicked).1.1))) ep6 = true ∧
  (∃ pre post e, (run panicked).1.2
     = pre ++ Event.Called 7 (GatewayCall.FindCandidate e) (Ok None) :: post ∧
     e = ep6 ∧ Event.Aborted 0 ∈ pre) ∧
  existsb queries (run panicked).1.2 = false.
Proof.
  split; [vm_compute; reflexivity|]. split; [vm_compute; reflexivity|].
  split; [|vm_compute; reflexivity].
  eexists (take 37 (run panicked).1.2), (drop 38 (run panicked).1.2), _.
  split; [symmetry; apply take_drop_middle, asked_event|]. split.
  - apply dsig_eq. vm_compute. reflexivity.
  - apply (list_elem_of_lookup_2 _ 23). vm_compute. reflexivity.
Qed.
End AgentExamples.
